(* ===== verification/_CoqProject ===== *)
-Q . S2P
Prelude.v
Ring.v
Dll.v
CString.v
Printf.v
Secmon.v
Cap.v
Svcbus.v
Ipc.v
FrameAlloc.v
Pmm.v
Vmm.v
AddressSpace.v
Buddy.v
Pcb.v
Scheduler.v
Process.v
ProcInv.v
Signal.v
Tty.v
Ports.v
Ata.v
BlockCache.v
Net.v
Tcp.v
Bytes.v
Udp.v
Dns.v
Heap.v
HeapPages.v
Elf.v
KAlloc.v
HeapAlloc.v
Vfs.v
Fat32.v
Fat32Inv.v
Fat32File.v
Fat32Dir.v
Ramfs.v
RamfsInv.v
FileSystem.v
