(* ===== verification/Prelude.v ===== *)
(** * AetherOS: a verification library of the kernel

    This library models the C sources of the AetherOS kernel (an x86_64
    operating system; paths below are relative to [src/]) as executable Rocq
    functions and proves what makes each part correct.

    ** Conventions

    - A C integer is a [Z]; wrap-around is written out with [u8], [u16], [u32],
      [u64], [i32] and [i64].  Bit operations have the notations [.&], [.|] and
      [.&~] in [c_scope].
    - A struct is a record, with one setter per field the code assigns.  A
      pointer is an address or an index, with 0 or [None] for null.
    - A static variable is a field of the state of its component, and a function
      takes and returns this state.  A function that may fail in the C sense
      (it touches memory it does not own, panics, or does not return) has an
      [option] or an [outcome] as its result; error codes are values.
    - Loops whose recursion is not structural take fuel.  Each time the theorems
      show that enough fuel gives the result: the length of the string, the
      length of the list or queue, the number of slots, the timeout of a wait,
      or the number of blocks that fit into the heap.
    - Components are joined by classes: [FrameAlloc] (page frames), [PageMap]
      (pages of the heap), [KAlloc] (heap blocks), [BlockDev] (sectors),
      [PortIO] (device registers), [NetDriver] (the network card) and
      [NodeStore] (file nodes).  Clients are proved against the laws of the
      class, and the component below is shown to satisfy them.

    ** The parts, their files and what is shown

    Foundations.  [Prelude.v]: integers, tables, reachability, tactics, the hint
    database [aether].  [Ring.v]: ring buffers as lists.  [Dll.v]: doubly linked
    lists.  [Bytes.v]: bytes, fields and little-endian words.  [Ports.v],
    [FrameAlloc.v], [KAlloc.v]: the interfaces.

    C library ([libc/string.c], [libc/printf.c]).  [CString.v]: memory and string
    functions; [memmove] copies for every overlap, [strtok_r] cuts a string into
    its fields.  [Printf.v]: [vsnprintf] prints what the format denotes, and
    never returns when literal text overflows the buffer.

    Security ([kernel/secmon.c], [kernel/cap.c], [kernel/svcbus.c],
    [kernel/ipc.c]).  [Secmon.v]: the audit ring is an append-only log.
    [Cap.v]: revocation removes exactly the derived subtree, and rights only
    shrink along a derivation, in every reachable table.  [Svcbus.v]: the bus is
    a bounded map.  [Ipc.v]: messages arrive in order, a call leaves no port
    behind, a receive with a timeout returns.

    Memory ([memory/pmm.c], [memory/vmm.c], [mm/buddy.c], [memory/heap.c]).
    [Pmm.v]: the frame bitmap from the Multiboot2 map on.  [Vmm.v] and
    [AddressSpace.v]: the four-level page tables; mapping, unmapping and the copy
    on a write fault change exactly the page they should.  [Buddy.v]: allocation
    and coalescing keep the free lists a partition.  [Heap.v], [HeapPages.v] and
    [HeapAlloc.v]: the block heap over the frame allocator and the page tables;
    [kmalloc] and [krealloc] are correct, [kfree] is correct when the block before
    the freed one is in use, and otherwise loses blocks or never returns.

    Processes ([process/process.c], [scheduler/scheduler.c],
    [process/context.asm], [kernel/signal.c]).  [Pcb.v], [Scheduler.v],
    [Process.v], [ProcInv.v]: process table, run queues and the invariant of both
    in every reachable kernel state, and that round robin serves everybody.
    [Signal.v]: SIGKILL cannot be escaped, and a handler returns to where it was
    entered.  [Elf.v] ([userland/elf_loader.c]): a loaded executable has every
    byte of its page-aligned segments in place, with the right permissions; a
    segment that is not page-aligned is misplaced.

    Devices and files ([drivers/ata.c], [fs/blkcache.c], [kernel/tty.c],
    [fs/vfs.c], [fs/ramfs.c]).  [Ata.v]: what is written through the disk
    protocol is read back.  [BlockCache.v]: the cache refines the array of
    sectors.  [Tty.v]: a line typed is a line read.  [Vfs.v]: canonical paths and
    path resolution against a reference.  [Ramfs.v] and [RamfsInv.v]: the root
    file system and its tree invariant from boot on.  [FileSystem.v]: both
    together; files are read back as written, and mounting redirects lookups.

    FAT32 ([fs/fat32.c]).  [Fat32.v]: the driver, over any [BlockDev].
    [Fat32Inv.v]: the volume as a table and an array of clusters, the sector
    buffer included, and what each primitive changes of them.  [Fat32File.v]: a
    write changes the bytes, the chain and the entry it should and nothing else
    of the volume, and is read back.  [Fat32Dir.v]: names, creation and removal
    of files, mounting.  The theorems assume a device that does not fail, a
    volume whose layout fits its table ([geo_ok]), a file whose chain is not
    shared, and a heap that frees what it handed out ([KFreeLaws], which the
    kernel's heap promises only where [k_freeable] holds).  Mounting itself
    breaks the first of them: [fat32_init] overwrites its own settings.

    Network ([net/net.c], [net/arp.c], [net/ip.c], [net/icmp.c], [net/tcp.c]).
    [Net.v]: checksums, ARP, delivery of datagrams, answered pings and an
    overflow by a forged one.  [Tcp.v]: the state machine; the handshake
    completes, and what the receiver gets is a prefix of what was sent.

    ** Not modelled

    Code that only draws or reacts to input (window system, compositor, Aether
    runtime, surfaces, applications), device drivers that only move bits to
    registers (display, input, bus, serial, network card), boot code and
    interrupt stubs in assembly, and text output.  Their effect is on hardware
    that has no model here.  The ext2 file system, the datagram protocols above
    IPv4, user accounts and packages are not modelled either. *)

From stdpp Require Export base list list_numbers numbers gmap.
From Stdlib Require Export ZArith Lia.

#[export] Set Default Goal Selector "!".
#[export] Set Warnings "-clear-no-such-hyp".
Open Scope Z_scope.

(** ** Machine integers

    A C integer of width [w] is a [Z]; the wrap-around of the unsigned types
    is written out with the functions below ([include/types.h]). *)

Definition u8 (x : Z) : Z := x mod 2 ^ 8.
Definition u16 (x : Z) : Z := x mod 2 ^ 16.
Definition u32 (x : Z) : Z := x mod 2 ^ 32.
Definition u64 (x : Z) : Z := x mod 2 ^ 64.

(** Two's complement reading of a 32-bit pattern ([int]). *)
Definition i32 (x : Z) : Z := (x + 2 ^ 31) mod 2 ^ 32 - 2 ^ 31.
Definition i64 (x : Z) : Z := (x + 2 ^ 63) mod 2 ^ 64 - 2 ^ 63.

Declare Scope c_scope.
Delimit Scope c_scope with c.
Notation "a .& b" := (Z.land a b) (at level 40, left associativity) : c_scope.
Notation "a .| b" := (Z.lor a b) (at level 41, left associativity) : c_scope.
Notation "a .&~ b" := (Z.ldiff a b) (at level 40, left associativity) : c_scope.
Open Scope c_scope.

(** The macros [ALIGN_UP] and [ALIGN_DOWN] of [types.h] on [uint64_t]. *)
Definition ALIGN_UP (x align : Z) : Z := u64 (x + (align - 1)) .&~ (align - 1).
Definition ALIGN_DOWN (x align : Z) : Z := x .&~ (align - 1).

Definition PAGE_SIZE : Z := 4096.
Definition KERNEL_VMA_BASE : Z := 0xFFFFFFFF80000000.
Definition KERNEL_PHYS_BASE : Z := 0x100000.
Definition PHYS_TO_VIRT (addr : Z) : Z := u64 (addr + KERNEL_VMA_BASE).
Definition VIRT_TO_PHYS (addr : Z) : Z := u64 (addr - KERNEL_VMA_BASE).

(** ** Tactics and hint databases *)

Create HintDb aether.

(** Case analysis on the first [if] or [match] scrutinee of the goal or of a
    hypothesis, keeping the equation. *)
Ltac case_if :=
  match goal with
  | |- context [if ?b then _ else _] => destruct b eqn:?
  | H : context [if ?b then _ else _] |- _ => destruct b eqn:?
  end.

(** Turns the boolean tests of the code into propositions. *)
Ltac bools :=
  repeat match goal with
  | H : _ && _ = true |- _ => apply andb_true_iff in H; destruct H
  | H : _ && _ = false |- _ => apply andb_false_iff in H
  | H : _ || _ = false |- _ => apply orb_false_iff in H; destruct H
  | H : negb _ = true |- _ => apply negb_true_iff in H
  | H : negb _ = false |- _ => apply negb_false_iff in H
  | H : (_ =? _) = true |- _ => apply Z.eqb_eq in H
  | H : (_ =? _) = false |- _ => apply Z.eqb_neq in H
  | H : (_ <? _) = true |- _ => apply Z.ltb_lt in H
  | H : (_ <? _) = false |- _ => apply Z.ltb_ge in H
  | H : (_ <=? _) = true |- _ => apply Z.leb_le in H
  | H : (_ <=? _) = false |- _ => apply Z.leb_gt in H
  | H : (_ =? _)%nat = true |- _ => apply Nat.eqb_eq in H
  | H : (_ =? _)%nat = false |- _ => apply Nat.eqb_neq in H
  | H : (_ <? _)%nat = true |- _ => apply Nat.ltb_lt in H
  | H : (_ <? _)%nat = false |- _ => apply Nat.ltb_ge in H
  | H : (_ <=? _)%nat = true |- _ => apply Nat.leb_le in H
  | H : (_ <=? _)%nat = false |- _ => apply Nat.leb_gt in H
  end.

(** ** Lemmas on machine integers *)

Lemma u32_range x : 0 <= u32 x < 2 ^ 32.
Proof. apply Z.mod_pos_bound; lia. Qed.
Lemma u64_range x : 0 <= u64 x < 2 ^ 64.
Proof. apply Z.mod_pos_bound; lia. Qed.
Lemma u8_range x : 0 <= u8 x < 2 ^ 8.
Proof. apply Z.mod_pos_bound; lia. Qed.
Lemma u8_small x : 0 <= x < 2 ^ 8 -> u8 x = x.
Proof. apply Z.mod_small. Qed.
Lemma u16_small x : 0 <= x < 2 ^ 16 -> u16 x = x.
Proof. apply Z.mod_small. Qed.
Lemma u32_small x : 0 <= x < 2 ^ 32 -> u32 x = x.
Proof. apply Z.mod_small. Qed.
Lemma u64_small x : 0 <= x < 2 ^ 64 -> u64 x = x.
Proof. apply Z.mod_small. Qed.

#[export] Hint Resolve u32_range u64_range u8_range : aether.

(** Clearing the low bits is rounding down to a multiple of [2 ^ k]. *)
Lemma ldiff_ones_div (x k : Z) :
  0 <= k -> x .&~ (2 ^ k - 1) = x / 2 ^ k * 2 ^ k.
Proof.
  intros Hk. replace (2 ^ k - 1) with (Z.ones k) by (rewrite Z.ones_equiv; lia).
  rewrite Z.ldiff_ones_r, Z.shiftl_mul_pow2, Z.shiftr_div_pow2 by lia. done.
Qed.

Lemma ALIGN_DOWN_spec x k :
  0 <= k -> ALIGN_DOWN x (2 ^ k) = x / 2 ^ k * 2 ^ k.
Proof. apply ldiff_ones_div. Qed.

(** [ALIGN_UP] rounds up to a multiple of the alignment when the sum does not
    leave the 64-bit range. *)
Lemma ALIGN_UP_spec x k :
  0 <= k -> 0 <= x -> x + (2 ^ k - 1) < 2 ^ 64 ->
  ALIGN_UP x (2 ^ k) = (x + (2 ^ k - 1)) / 2 ^ k * 2 ^ k.
Proof.
  intros Hk Hx Hb. unfold ALIGN_UP.
  assert (0 < 2 ^ k) by (apply Z.pow_pos_nonneg; lia).
  rewrite u64_small by lia. by apply ldiff_ones_div.
Qed.

Lemma ALIGN_UP_bounds x k :
  0 <= k -> 0 <= x -> x + (2 ^ k - 1) < 2 ^ 64 ->
  x <= ALIGN_UP x (2 ^ k) < x + 2 ^ k /\ (2 ^ k | ALIGN_UP x (2 ^ k)).
Proof.
  intros Hk Hx Hb. rewrite ALIGN_UP_spec by done.
  assert (0 < 2 ^ k) as Hp by (apply Z.pow_pos_nonneg; lia).
  pose proof (Z.div_mod (x + (2 ^ k - 1)) (2 ^ k) ltac:(lia)).
  pose proof (Z.mod_pos_bound (x + (2 ^ k - 1)) (2 ^ k) Hp).
  split; [nia | apply Z.divide_factor_r].
Qed.

(** Bit tests of single-bit masks. *)
Lemma land_pow2_testbit x n :
  0 <= n -> negb (x .& 2 ^ n =? 0) = Z.testbit x n.
Proof.
  intros Hn. destruct (Z.testbit x n) eqn:E.
  - apply negb_true_iff, Z.eqb_neq. intros H0.
    apply (f_equal (fun z => Z.testbit z n)) in H0.
    rewrite Z.land_spec, Z.pow2_bits_true, E, Z.bits_0 in H0 by lia. done.
  - apply negb_false_iff, Z.eqb_eq. apply Z.bits_inj_iff'. intros m Hm.
    rewrite Z.land_spec, Z.bits_0. destruct (decide (m = n)) as [->|].
    + by rewrite E.
    + rewrite Z.pow2_bits_false by lia. apply andb_false_r.
Qed.

(** A value below [2 ^ k] and a multiple of [2 ^ k] have no common bit. *)
Lemma land_low_high d x k : 0 <= k -> 0 <= d < 2 ^ k -> d .& (x * 2 ^ k) = 0.
Proof.
  intros Hk Hd. apply Z.bits_inj_iff'. intros n Hn. rewrite Z.land_spec, Z.bits_0.
  destruct (Z.ltb_spec n k).
  - rewrite Z.mul_pow2_bits_low by lia. apply andb_false_r.
  - destruct (decide (d = 0)) as [->|]; [by rewrite Z.bits_0|].
    rewrite (Z.bits_above_log2 d n); [done|lia|].
    apply Z.log2_lt_pow2; [lia|]. apply Z.lt_le_trans with (2 ^ k); [lia|].
    apply Z.pow_le_mono_r; lia.
Qed.

Lemma lor_low_high d x k :
  0 <= k -> 0 <= d < 2 ^ k -> d .| (x * 2 ^ k) = d + x * 2 ^ k.
Proof.
  intros Hk Hd. pose proof (Z.add_lor_land d (x * 2 ^ k)) as H.
  rewrite land_low_high in H by done. lia.
Qed.

(** [a & ~b == 0] says that the bits of [a] are among those of [b]. *)
Lemma ldiff_0_trans a b c : a .&~ b = 0 -> b .&~ c = 0 -> a .&~ c = 0.
Proof.
  rewrite !Z.ldiff_land. intros H1 H2. apply Z.bits_inj_iff'. intros n Hn.
  apply (f_equal (fun z => Z.testbit z n)) in H1.
  apply (f_equal (fun z => Z.testbit z n)) in H2.
  rewrite Z.land_spec, Z.lnot_spec, Z.bits_0 in * by lia.
  destruct (Z.testbit a n), (Z.testbit b n), (Z.testbit c n); naive_solver.
Qed.

Lemma ldiff_0_land a b r : a .&~ b = 0 -> a .& r = r -> b .& r = r.
Proof.
  rewrite Z.ldiff_land. intros H1 H2. apply Z.bits_inj_iff'. intros n Hn.
  apply (f_equal (fun z => Z.testbit z n)) in H1.
  apply (f_equal (fun z => Z.testbit z n)) in H2.
  rewrite !Z.land_spec, ?Z.lnot_spec, ?Z.bits_0 in * by lia.
  destruct (Z.testbit a n), (Z.testbit b n), (Z.testbit r n); naive_solver.
Qed.

(** ** Fixed-size tables

    The kernel keeps its objects in static arrays scanned from index 0; the
    loops [for (i = 0; i < N; i++) if (P(table[i])) return &table[i];] are
    [find_idx]. *)

Section tables.
Context {A : Type}.
Implicit Types (l : list A) (f : A -> bool).

Fixpoint find_idx f l : option nat :=
  match l with
  | [] => None
  | x :: l' => if f x then Some 0%nat else S <$> find_idx f l'
  end.

Fixpoint count_if f l : nat :=
  match l with
  | [] => 0
  | x :: l' => (if f x then 1 else 0) + count_if f l'
  end.

Lemma find_idx_Some f l i :
  find_idx f l = Some i ->
  exists x, l !! i = Some x /\ f x = true /\
    forall j y, (j < i)%nat -> l !! j = Some y -> f y = false.
Proof.
  revert i. induction l as [|a l IH]; intros i; simpl; [done|].
  destruct (f a) eqn:Ha.
  - intros [= <-]. exists a. split; [done|]. split; [done|]. intros j y Hj. lia.
  - destruct (find_idx f l) as [k|] eqn:Hk; [|done]. intros [= <-].
    destruct (IH k eq_refl) as (x & Hx & Hf & Hmin).
    exists x. split; [done|]. split; [done|]. intros [|j] y Hj Hy; simpl in *.
    + by simplify_eq.
    + apply (Hmin j); [lia|done].
Qed.

Lemma find_idx_None f l :
  find_idx f l = None <-> forall i x, l !! i = Some x -> f x = false.
Proof.
  induction l as [|a l IH]; simpl.
  - split; [|done]. intros _ i x H. by rewrite lookup_nil in H.
  - destruct (f a) eqn:Ha.
    + split; [done|]. intros H. specialize (H 0%nat a eq_refl). congruence.
    + rewrite fmap_None, IH. split.
      * intros H [|i] x Hx; simpl in Hx; [congruence|eauto].
      * intros H i x Hx. apply (H (S i)). done.
Qed.

Lemma find_idx_is_Some f l i x :
  l !! i = Some x -> f x = true -> is_Some (find_idx f l).
Proof.
  intros Hx Hf. destruct (find_idx f l) eqn:E; [eauto|].
  rewrite find_idx_None in E. rewrite (E i x Hx) in Hf. done.
Qed.

(** The slot found by a scan, with its contents: the pointer [&table[i]]. *)
Definition find_slot f l : option (nat * A) :=
  i ← find_idx f l;
  x ← l !! i;
  Some (i, x).

Lemma find_slot_Some f l i x :
  find_slot f l = Some (i, x) -> l !! i = Some x /\ f x = true.
Proof.
  unfold find_slot. destruct (find_idx f l) as [k|] eqn:E; [|done]. simpl.
  apply find_idx_Some in E as (y & Hy & Hf & _). rewrite Hy. simpl. by intros [= <- <-].
Qed.

Lemma find_slot_unique f l i x :
  l !! i = Some x -> f x = true ->
  (forall j y, l !! j = Some y -> f y = true -> j = i) ->
  find_slot f l = Some (i, x).
Proof.
  intros Hx Hf Hu. destruct (find_idx_is_Some f l i x Hx Hf) as [k E].
  unfold find_slot. rewrite E. simpl.
  apply find_idx_Some in E as (y & Hy & Hfy & _).
  rewrite (Hu k y Hy Hfy) in *. by rewrite Hx.
Qed.

Lemma find_slot_None f l :
  find_slot f l = None <-> forall i x, l !! i = Some x -> f x = false.
Proof.
  rewrite <- find_idx_None. unfold find_slot.
  destruct (find_idx f l) as [k|] eqn:E; [|done]. simpl.
  apply find_idx_Some in E as (y & Hy & _). by rewrite Hy.
Qed.

(** Lookup in a table with one slot rewritten. *)
Lemma lookup_put l i x j y :
  (i < length l)%nat ->
  <[i := x]> l !! j = Some y <-> (j = i /\ y = x) \/ (j <> i /\ l !! j = Some y).
Proof.
  intros Hi. rewrite list_lookup_insert. case_decide as Hd.
  - destruct Hd as [-> _]. split; [intros [= ->]; by left|]. by intros [[_ ->]|[]].
  - split; [|by intros [[-> _]|[_ H]]; [destruct Hd|]]. intros H. right.
    split; [|done]. intros ->. by destruct Hd.
Qed.

Lemma count_if_le f l : (count_if f l <= length l)%nat.
Proof. induction l; simpl; [lia|]. case_if; lia. Qed.

Lemma count_if_insert f l i x y :
  l !! i = Some x ->
  (count_if f (<[i := y]> l) + (if f x then 1 else 0) =
   count_if f l + (if f y then 1 else 0))%nat.
Proof.
  revert i. induction l as [|a l IH]; intros [|i] Hx; simpl in *; simplify_eq.
  - lia.
  - specialize (IH i Hx). simpl. lia.
Qed.

Lemma count_if_pos f l i x :
  l !! i = Some x -> f x = true -> (0 < count_if f l)%nat.
Proof.
  revert i. induction l as [|a l IH]; intros [|i] Hx Hf; simpl in *; simplify_eq.
  - rewrite Hf. lia.
  - specialize (IH i Hx Hf). lia.
Qed.

Lemma count_if_ext f g l :
  (forall x, f x = g x) -> count_if f l = count_if g l.
Proof. intros H. induction l; simpl; [done|]. rewrite H. lia. Qed.

Lemma count_if_replicate_false f n x :
  f x = false -> count_if f (replicate n x) = 0%nat.
Proof. intros H. induction n; simpl; [done|]. rewrite H. lia. Qed.

Lemma count_if_lt_length f l i x :
  l !! i = Some x -> f x = false -> (count_if f l < length l)%nat.
Proof.
  revert i. induction l as [|a l IH]; intros [|i] Hx Hf; simpl in *; simplify_eq.
  - rewrite Hf. pose proof (count_if_le f l). lia.
  - specialize (IH i Hx Hf). case_if; lia.
Qed.

(** The records of the occupied slots, when one slot is filled or cleared. *)
Lemma omap_fill {B} (f : A -> option B) l i x y b :
  l !! i = Some x -> f x = None -> f y = Some b ->
  omap f (<[i := y]> l) ≡ₚ b :: omap f l.
Proof.
  revert i. induction l as [|a l IH]; intros [|i] Hx Hfx Hfy; simplify_eq/=.
  - by rewrite Hfx, Hfy.
  - destruct (f a) as [c|]; [|by apply IH].
    etransitivity; [by apply perm_skip, IH|]. apply perm_swap.
Qed.

Lemma omap_clear {B} (f : A -> option B) l i x y b :
  l !! i = Some x -> f x = Some b -> f y = None ->
  omap f l ≡ₚ b :: omap f (<[i := y]> l).
Proof.
  intros Hx Hfx Hfy. rewrite <- (list_insert_id l i x Hx) at 1.
  rewrite <- (list_insert_insert_eq l i x y).
  apply (omap_fill f (<[i := y]> l) i y x b); [|done|done].
  apply list_lookup_insert_eq. by apply lookup_lt_Some in Hx.
Qed.

Lemma length_omap_count {B} (f : A -> option B) (p : A -> bool) l :
  (forall x, p x = bool_decide (is_Some (f x))) -> length (omap f l) = count_if p l.
Proof.
  intros H. induction l as [|a l IH]; [done|]. csimpl. rewrite H.
  destruct (f a); csimpl; by rewrite IH.
Qed.
End tables.

(** ** Reachability

    Reflexive transitive closure of a step relation, used for the components
    whose operations may be called in any order. *)
Section reach.
Context {S : Type} (step : S -> S -> Prop).

Inductive reach : S -> S -> Prop :=
| reach_refl s : reach s s
| reach_step s1 s2 s3 : reach s1 s2 -> step s2 s3 -> reach s1 s3.

Lemma reach_trans s1 s2 s3 : reach s1 s2 -> reach s2 s3 -> reach s1 s3.
Proof. intros H1. induction 1 as [|? ? ? ? IH]; [done|]. eapply reach_step; [by apply IH|done]. Qed.

(** Rule induction: an invariant of the start kept by every step. *)
Lemma reach_invariant (I : S -> Prop) s1 s2 :
  (forall a b, I a -> step a b -> I b) -> I s1 -> reach s1 s2 -> I s2.
Proof. intros Hstep H1. induction 1; eauto. Qed.
End reach.

(** ** Counted loops

    [for (f = a; n more rounds; f++) body(f)]. *)
Fixpoint iter_range {S} (n : nat) (a : Z) (body : Z -> S -> S) (s : S) : S :=
  match n with
  | O => s
  | S n => iter_range n (a + 1) body (body a s)
  end.

(** A relation between the start and every later state, by rounds. *)
Lemma iter_range_ind {S} (P : Z -> S -> Prop) n a body (s : S) :
  P a s ->
  (forall k t, a <= k < a + Z.of_nat n -> P k t -> P (k + 1) (body k t)) ->
  P (a + Z.of_nat n) (iter_range n a body s).
Proof.
  revert a s. induction n as [|n IH]; intros a s H0 Hs; cbn [iter_range].
  - by rewrite Z.add_0_r.
  - replace (a + Z.of_nat (Datatypes.S n)) with (a + 1 + Z.of_nat n) by lia.
    apply IH; [apply Hs; [lia|done]|]. intros k t Hk. apply Hs. lia.
Qed.

(** The number of [k < n] with [p k]. *)
Fixpoint count_range (p : Z -> bool) (n : nat) : Z :=
  match n with
  | O => 0
  | S n => (if p (Z.of_nat n) then 1 else 0) + count_range p n
  end.

Lemma count_range_ext p q n :
  (forall k, 0 <= k < Z.of_nat n -> p k = q k) -> count_range p n = count_range q n.
Proof.
  induction n as [|n IH]; intros H; simpl; [done|]. rewrite H, IH; [done| |lia].
  intros k Hk. apply H. lia.
Qed.

Lemma count_range_bound p n : 0 <= count_range p n <= Z.of_nat n.
Proof. induction n; simpl; [lia|]. case_if; lia. Qed.

(** Switching one position on. *)
Lemma count_range_set p q n f :
  0 <= f < Z.of_nat n -> p f = false -> q f = true ->
  (forall k, 0 <= k < Z.of_nat n -> k <> f -> q k = p k) ->
  count_range q n = count_range p n + 1.
Proof.
  intros Hf Hp Hq Hk. induction n as [|n IH]; [lia|]. simpl.
  destruct (decide (f = Z.of_nat n)) as [->|Hne].
  - rewrite Hp, Hq, (count_range_ext q p n); [lia|]. intros k Hr. apply Hk; lia.
  - rewrite (Hk (Z.of_nat n)), IH by (lia || (intros; apply Hk; lia)). lia.
Qed.

Lemma count_range_true p n :
  (forall k, 0 <= k < Z.of_nat n -> p k = true) -> count_range p n = Z.of_nat n.
Proof.
  induction n as [|n IH]; intros H; simpl; [done|]. rewrite H, IH by (lia || (intros; apply H; lia)). lia.
Qed.

(** *** Function update: an array indexed by [Z] *)
Definition upd {V} (m : Z -> V) (k : Z) (v : V) : Z -> V := fun x => if x =? k then v else m x.

Lemma upd_eq {V} (m : Z -> V) k v : upd m k v k = v.
Proof. unfold upd. by rewrite Z.eqb_refl. Qed.
Lemma upd_ne {V} (m : Z -> V) k v x : x <> k -> upd m k v x = m x.
Proof. unfold upd. intros H. by rewrite (proj2 (Z.eqb_neq _ _) H). Qed.

(** *** Record update

    [set_field eta proj p v] is [eta p] with [v] for the field [proj p], where
    [eta p] is the record rebuilt from its projections. *)
Ltac set_field eta proj p v :=
  let e := eval cbv beta delta [eta] in (eta p) in
  let t := eval pattern (proj p) in e in
  match t with ?f _ => let r := eval cbv beta in (f v) in exact r end.
