(* ===== verification/Ring.v ===== *)
(** * Circular buffers

    The kernel keeps several fixed-size circular buffers: the message queue of
    an IPC port ([kernel/ipc.c]), the ready queue of the scheduler
    ([scheduler/scheduler.c]) and the TTY rings ([include/kernel/tty.h]).  All
    of them read at [head], write at [(head + count) mod N] and wrap with
    [% N].  This file relates such a buffer to the list of its contents and
    shows what a push, a pop and a removal do to that list. *)

From S2P Require Import Prelude.

(** Two positions within one window occupy different slots. *)
Lemma mod_window_inj (i j N : nat) :
  (i < j)%nat -> (j < i + N)%nat -> (i mod N)%nat <> (j mod N)%nat.
Proof.
  intros Hij Hj Heq. assert (N <> 0)%nat as HN by lia.
  pose proof (Nat.div_mod i N HN). pose proof (Nat.div_mod j N HN).
  rewrite Heq in *. assert (i / N < j / N \/ j / N <= i / N)%nat as [?|?] by lia; nia.
Qed.

Section ring.
Context {A : Type} (N : nat).
Implicit Types (buf l : list A) (head count : nat) (x : A).

(** The buffer holds exactly the elements of [l], starting at [head]. *)
Record ring_rep buf head count l : Prop := {
  rr_len : length buf = N;
  rr_head : (head < N)%nat;
  rr_count : count = length l;
  rr_cap : (length l <= N)%nat;
  rr_get : forall k, (k < length l)%nat -> buf !! ((head + k) mod N)%nat = l !! k
}.

Lemma ring_empty buf head :
  length buf = N -> (head < N)%nat -> ring_rep buf head 0 [].
Proof. intros H1 H2. split; simpl; try done; [lia|]. intros k Hk. lia. Qed.

Lemma ring_nonempty_N buf head count l : ring_rep buf head count l -> (0 < N)%nat.
Proof. intros H. pose proof (rr_head _ _ _ _ H). lia. Qed.

(** Writing at the tail appends. *)
Lemma ring_push buf head count l x :
  ring_rep buf head count l -> (count < N)%nat ->
  ring_rep (<[((head + count) mod N)%nat := x]> buf) head (S count) (l ++ [x]).
Proof.
  intros [H1 H2 H3 H4 H5] Hlt. subst count. split.
  - by rewrite length_insert.
  - done.
  - rewrite length_app. simpl. lia.
  - rewrite length_app. simpl. lia.
  - intros k Hk. rewrite length_app in Hk. simpl in Hk.
    destruct (decide (k = length l)) as [->|Hne].
    + rewrite list_lookup_insert_eq, lookup_app_r, Nat.sub_diag; [done|lia|].
      rewrite H1. apply Nat.mod_upper_bound. lia.
    + rewrite list_lookup_insert_ne, lookup_app_l by
        (lia || (apply not_eq_sym, mod_window_inj; lia)). apply H5. lia.
Qed.

(** The slot at [head] is the first element; advancing drops it. *)
Lemma ring_pop buf head count l x :
  ring_rep buf head count (x :: l) ->
  buf !! head = Some x /\ ring_rep buf ((head + 1) mod N)%nat (count - 1) l.
Proof.
  intros [H1 H2 H3 H4 H5]. simpl in *. split.
  - specialize (H5 0%nat ltac:(lia)). rewrite Nat.add_0_r, Nat.mod_small in H5 by lia. done.
  - split; try done; [|lia|lia|].
    + apply Nat.mod_upper_bound. lia.
    + intros k Hk. specialize (H5 (S k) ltac:(lia)). simpl in H5. rewrite <- H5.
      f_equal. rewrite Nat.Div0.add_mod_idemp_l. f_equal. lia.
Qed.

(** The tail index after a pop or a push. *)
Lemma ring_tail_push head count :
  (((head + count) mod N + 1) mod N = (head + S count) mod N)%nat.
Proof. rewrite Nat.Div0.add_mod_idemp_l. f_equal. lia. Qed.

Lemma ring_tail_pop head count :
  (0 < count)%nat ->
  ((head + count) mod N = ((head + 1) mod N + (count - 1)) mod N)%nat.
Proof. intros H. rewrite Nat.Div0.add_mod_idemp_l. f_equal. lia. Qed.

Lemma ring_rep_inj buf head count l l' :
  ring_rep buf head count l -> ring_rep buf head count l' -> l = l'.
Proof.
  intros [? ? ? ? G1] [? ? ? ? G2]. apply list_eq. intros k.
  destruct (decide (k < length l)%nat).
  - rewrite <- G1, <- G2 by lia. done.
  - rewrite !lookup_ge_None_2 by lia. done.
Qed.

(** Overwriting the element at position [k]. *)
Lemma ring_set buf head count l k x :
  ring_rep buf head count l -> (k < length l)%nat ->
  ring_rep (<[((head + k) mod N)%nat := x]> buf) head count (<[k := x]> l).
Proof.
  intros [H1 H2 H3 H4 H5] Hk. split; rewrite ?length_insert; try done.
  intros j Hj. destruct (decide (j = k)) as [->|Hne].
  - rewrite !list_lookup_insert_eq; [done|lia|]. rewrite H1. apply Nat.mod_upper_bound. lia.
  - rewrite !list_lookup_insert_ne; [by apply H5|done|].
    destruct (decide (j < k)%nat); [apply not_eq_sym|]; apply mod_window_inj; lia.
Qed.

(** [for (j = ..; n rounds; j++) buf[(head + j) % N] = buf[(head + j + 1) % N]] *)
Fixpoint ring_close (n head j : nat) buf : list A :=
  match n with
  | O => buf
  | S n =>
      let b := buf !! ((head + j + 1) mod N)%nat in
      ring_close n head (S j) (match b with Some x => <[((head + j) mod N)%nat := x]> buf | None => buf end)
  end.

(** Closing the gap at position [length l1] removes the element there. *)
Lemma ring_close_spec buf head count l1 x l2 :
  ring_rep buf head count (l1 ++ x :: l2) ->
  ring_rep (ring_close (length l2) head (length l1) buf) head (count - 1) (l1 ++ l2).
Proof.
  revert buf l1 x. induction l2 as [|y l2 IH]; intros buf l1 x Hr; simpl.
  - destruct Hr as [H1 H2 H3 H4 H5]. rewrite length_app in H3, H4, H5. simpl in *.
    split; rewrite ?app_nil_r; try done; [lia|lia|]. intros k Hk. rewrite H5 by lia.
    by rewrite lookup_app_l.
  - assert (buf !! ((head + length l1 + 1) mod N)%nat = Some y) as ->.
    { rewrite <- Nat.add_assoc, (rr_get _ _ _ _ Hr) by (rewrite length_app; simpl; lia).
      rewrite lookup_app_r by lia. by replace (length l1 + 1 - length l1)%nat with 1%nat by lia. }
    apply (ring_set _ _ _ _ (length l1) y) in Hr; [|rewrite length_app; simpl; lia].
    rewrite insert_app_r_alt, Nat.sub_diag in Hr by done. simpl in Hr.
    specialize (IH (<[((head + length l1) mod N)%nat := y]> buf) (l1 ++ [y]) y).
    rewrite <- !app_assoc, length_app, Nat.add_1_r in IH. by apply IH.
Qed.

End ring.

#[export] Hint Resolve ring_empty ring_push : aether.
