(* ===== verification/Dll.v ===== *)
(** * Doubly linked lists

    The free lists of the buddy allocator ([mm/buddy.c]) and the list of all
    processes ([process/process.c]) are doubly linked and NULL terminated.  The
    [next] and [prev] fields of all nodes are two arrays indexed by node; this
    file says which list they represent and what linking a node at the front
    and unlinking one do to it. *)

From S2P Require Import Prelude.

(** [l] is the list that starts at [h] when the node before it is [pv]. *)
Fixpoint dll (nx pr : Z -> option Z) (pv h : option Z) (l : list Z) : Prop :=
  match l with
  | [] => h = None
  | x :: l => h = Some x /\ pr x = pv /\ dll nx pr (Some x) (nx x) l
  end.

Lemma dll_ext nx pr nx' pr' pv h l :
  (forall x, x ∈ l -> nx' x = nx x /\ pr' x = pr x) -> dll nx pr pv h l -> dll nx' pr' pv h l.
Proof.
  revert pv h. induction l as [|x l IH]; intros pv h Hx; simpl; [done|].
  intros (-> & Hp & Hl). destruct (Hx x) as [Hn Hpx]; [apply elem_of_cons; by left|].
  split; [done|]. split; [congruence|]. rewrite Hn. apply IH; [|done].
  intros y Hy. apply Hx, elem_of_cons. by right.
Qed.

Lemma dll_push nx pr h l x :
  x ∉ l -> NoDup l -> dll nx pr None h l ->
  dll (upd nx x h) (match h with Some y => upd (upd pr x None) y (Some x) | None => upd pr x None end)
    None (Some x) (x :: l).
Proof.
  intros Hx Hnd Hl. simpl. split; [done|]. rewrite upd_eq. destruct l as [|y l]; simpl in Hl.
  - subst h. split; [apply upd_eq|done].
  - destruct Hl as (-> & Hy & Hl). apply not_elem_of_cons in Hx as [Hxy Hxl].
    apply NoDup_cons in Hnd as [Hyl Hnd]. split; [rewrite upd_ne by done; apply upd_eq|].
    simpl. split; [done|]. split; [apply upd_eq|]. rewrite upd_ne by done.
    eapply dll_ext; [|done]. intros z Hz.
    by rewrite !upd_ne by (intros ->; done).
Qed.

Lemma dll_pop nx pr h x l :
  NoDup (x :: l) -> dll nx pr None h (x :: l) ->
  h = Some x /\
  dll nx (match nx x with Some y => upd pr y None | None => pr end) None (nx x) l.
Proof.
  intros [Hx Hnd]%NoDup_cons (-> & Hp & Hl). split; [done|]. destruct l as [|y l]; simpl in *.
  - by rewrite Hl.
  - destruct Hl as (-> & Hy & Hl). apply NoDup_cons in Hnd as [Hyl Hnd].
    split; [done|]. split; [apply upd_eq|]. eapply dll_ext; [|done]. intros z Hz.
    split; [done|]. apply upd_ne. by intros ->.
Qed.

Lemma dll_next nx pr pv h l1 x l2 :
  dll nx pr pv h (l1 ++ x :: l2) -> nx x = l2 !! 0%nat.
Proof.
  revert pv h. induction l1 as [|w l1 IH]; intros pv h; simpl.
  - intros (_ & _ & Hl). destruct l2; simpl in *; [done|]. by destruct Hl as [-> _].
  - intros (_ & _ & Hl). by eapply IH.
Qed.

(** Unlinking a node in the middle: its neighbours are joined. *)
Lemma dll_remove nx pr pv h l1 x l2 :
  NoDup (l1 ++ x :: l2) -> dll nx pr pv h (l1 ++ x :: l2) ->
  let nx' := match last l1 with Some y => upd nx y (nx x) | None => nx end in
  let pr' := match nx x with Some z => upd pr z (pr x) | None => pr end in
  pr x = match last l1 with Some y => Some y | None => pv end /\
  dll nx' pr' pv (match last l1 with Some _ => h | None => nx x end) (l1 ++ l2).
Proof.
  revert pv h. induction l1 as [|w l1 IH]; intros pv h Hnd Hl; cbn [app] in *.
  - destruct Hl as (-> & Hp & Hl). split; [done|]. apply NoDup_cons in Hnd as [Hx Hnd].
    destruct l2 as [|z l2]; simpl in *; [by rewrite Hl|].
    destruct Hl as (-> & Hz & Hl). apply NoDup_cons in Hnd as [Hzl Hnd].
    split; [done|]. split; [rewrite upd_eq; done|]. eapply dll_ext; [|done]. intros y Hy.
    split; [done|]. apply upd_ne. by intros ->.
  - destruct Hl as (-> & Hp & Hl). apply NoDup_cons in Hnd as [Hw Hnd].
    pose proof (dll_next _ _ _ _ _ _ _ Hl) as Hnx.
    destruct (IH (Some w) (nx w) Hnd Hl) as [IH1 IH2].
    assert (forall z, nx x = Some z -> z <> w) as Hzw.
    { intros z Hz ->. rewrite Hnx in Hz. apply list_elem_of_lookup_2 in Hz.
      apply Hw, elem_of_app. right. apply elem_of_cons. by right. }
    assert ((match nx x with Some z => upd pr z (pr x) | None => pr end) w = pv) as Hpw.
    { destruct (nx x) as [z|]; [|done]. rewrite upd_ne; [done|]. by apply not_eq_sym, Hzw. }
    destruct l1 as [|v l1].
    + simpl in *. rewrite upd_eq. split; [done|]. split; [done|]. split; [done|].
      eapply dll_ext; [|done]. intros y Hy. split; [|done]. apply upd_ne. intros ->.
      apply Hw, elem_of_cons. by right.
    + change (last (w :: v :: l1)) with (last (v :: l1)).
      destruct (last (v :: l1)) as [y|] eqn:E; [|by apply last_None in E].
      split; [done|]. cbn [app dll]. split; [done|]. split; [done|].
      rewrite (upd_ne nx y) by (intros ->; apply Hw, elem_of_app; left; by apply last_Some_elem_of).
      done.
Qed.

(** Two lists read off the same links are the same. *)
Lemma dll_inj nx pr pv pv' h l l' :
  dll nx pr pv h l -> dll nx pr pv' h l' -> l = l'.
Proof.
  revert pv pv' h l'. induction l as [|x l IH]; intros pv pv' h [|y l']; simpl.
  - done.
  - intros -> [Hh _]. done.
  - intros [-> _] Hh. done.
  - intros (-> & _ & H1) ([= ->] & _ & H2). f_equal. by eapply IH.
Qed.
