(* ===== verification/CString.v ===== *)
(** * The freestanding C library, [libc/string.c]

    Memory functions work on a byte-addressed memory; the word-wide loops of
    [memset] and [memcpy] are kept, with little-endian 64-bit accesses.
    Addresses are unbounded integers, which is exact as long as no buffer
    crosses the top of the 64-bit address space.

    String functions work on the characters from the pointer on: a list of
    bytes that is read as followed by zeros, so the empty list is a pointer to
    the terminator.  Returned pointers are suffixes of the argument. *)

From S2P Require Import Prelude.

(** ** Memory *)

Definition mem := Z -> Z.

Definition bytes_ok (m : mem) : Prop := forall x, 0 <= m x < 256.

Definition store8 (m : mem) (a v : Z) : mem := fun x => if x =? a then u8 v else m x.

(** [n] bytes of [v], least significant first. *)
Fixpoint store_le (n : nat) (m : mem) (a v : Z) : mem :=
  match n with
  | O => m
  | S n => store_le n (store8 m a v) (a + 1) (v / 256)
  end.

Fixpoint load_le (n : nat) (m : mem) (a : Z) : Z :=
  match n with
  | O => 0
  | S n => m a + 256 * load_le n m (a + 1)
  end.

Definition store64 (m : mem) (a v : Z) : mem := store_le 8 m a v.
Definition load64 (m : mem) (a : Z) : Z := load_le 8 m a.

(** *** memset *)

(** [while (n > 0 && ((uintptr_t)d & 7)) { *d++ = v; n--; }] *)
Fixpoint memset_head (m : mem) (d v : Z) (n : nat) : mem * Z * nat :=
  match n with
  | O => (m, d, O)
  | S n' => if d .& 7 =? 0 then (m, d, n)
            else memset_head (store8 m d v) (d + 1) v n'
  end.

(** [while (n >= 8) { *d64++ = fill64; n -= 8; }]; [fuel] bounds the rounds. *)
Fixpoint memset_words (fuel : nat) (m : mem) (d fill64 : Z) (n : nat) : mem * Z * nat :=
  match fuel with
  | O => (m, d, n)
  | S fuel => if (8 <=? n)%nat then memset_words fuel (store64 m d fill64) (d + 8) fill64 (n - 8)
              else (m, d, n)
  end.

(** [while (n > 0) { *d++ = v; n--; }] *)
Fixpoint memset_tail (m : mem) (d v : Z) (n : nat) : mem :=
  match n with
  | O => m
  | S n => memset_tail (store8 m d v) (d + 1) v n
  end.

Definition fill_word (v : Z) : Z :=
  v .| Z.shiftl v 8 .| Z.shiftl v 16 .| Z.shiftl v 24 .| Z.shiftl v 32 .| Z.shiftl v 40
    .| Z.shiftl v 48 .| Z.shiftl v 56.

Definition memset (m : mem) (dest c : Z) (n : nat) : mem :=
  let v := u8 c in
  let '(m, d, n) := memset_head m dest v n in
  let '(m, d, n) := memset_words n m d (fill_word v) n in
  memset_tail m d v n.

(** *** memcpy and memmove *)

Fixpoint memcpy_words (fuel : nat) (m : mem) (d s : Z) (n : nat) : mem * Z * Z * nat :=
  match fuel with
  | O => (m, d, s, n)
  | S fuel => if (8 <=? n)%nat then memcpy_words fuel (store64 m d (load64 m s)) (d + 8) (s + 8) (n - 8)
              else (m, d, s, n)
  end.

Fixpoint memcpy_bytes (m : mem) (d s : Z) (n : nat) : mem :=
  match n with
  | O => m
  | S n => memcpy_bytes (store8 m d (m s)) (d + 1) (s + 1) n
  end.

Definition memcpy (m : mem) (dest src : Z) (n : nat) : mem :=
  let '(m, d, s, n) :=
    if (dest .& 7 =? 0) && (src .& 7 =? 0) then memcpy_words n m dest src n
    else (m, dest, src, n) in
  memcpy_bytes m d s n.

(** [while (n > 0) { *--d = *--s; n--; }] from [d + n], [s + n]. *)
Fixpoint memmove_back (m : mem) (d s : Z) (n : nat) : mem :=
  match n with
  | O => m
  | S n => memmove_back (store8 m (d + Z.of_nat n) (m (s + Z.of_nat n))) d s n
  end.

Definition memmove (m : mem) (dest src : Z) (n : nat) : mem :=
  if (dest =? src) || (n =? 0)%nat then m
  else if (dest <? src) || (src + Z.of_nat n <=? dest) then memcpy m dest src n
  else memmove_back m dest src n.

Fixpoint memcmp (m : mem) (a b : Z) (n : nat) : Z :=
  match n with
  | O => 0
  | S n => if m a =? m b then memcmp m (a + 1) (b + 1) n else m a - m b
  end.

(** ** Strings *)

(** [*s]: the character at the pointer, 0 at the end. *)
Definition ch (s : list Z) : Z := hd 0 s.

(** The C string held by a buffer: its bytes up to the first zero. *)
Fixpoint c_str (buf : list Z) : list Z :=
  match buf with
  | [] => []
  | x :: buf => if x =? 0 then [] else x :: c_str buf
  end.

Definition strlen (s : list Z) : nat := length (c_str s).

(** The [n] bytes that [strncpy] writes. *)
Fixpoint strncpy_bytes (src : list Z) (n : nat) : list Z :=
  match n with
  | O => []
  | S n' => if ch src =? 0 then replicate n 0 else ch src :: strncpy_bytes (tl src) n'
  end.

(** [strncpy] into a buffer that has room for [n] bytes. *)
Definition strncpy (dest src : list Z) (n : nat) : list Z :=
  strncpy_bytes src n ++ drop n dest.

(** [strcpy] and [strcat] into buffers with room for the result. *)
Definition strcpy (dest src : list Z) : list Z :=
  c_str src ++ 0 :: drop (S (strlen src)) dest.

Definition strcat (dest src : list Z) : list Z :=
  take (strlen dest) dest ++ strcpy (drop (strlen dest) dest) src.

Definition strncat (dest src : list Z) (n : nat) : list Z :=
  let d := strlen dest in
  let k := Nat.min n (strlen src) in
  take d dest ++ take k src ++ 0 :: drop (S (d + k)) dest.

Fixpoint strcmp (a b : list Z) : Z :=
  match a with
  | [] => 0 - u8 (ch b)
  | x :: a' => if negb (x =? 0) && (x =? ch b) then strcmp a' (tl b) else u8 x - u8 (ch b)
  end.

Fixpoint strncmp (a b : list Z) (n : nat) : Z :=
  match n with
  | O => 0
  | S n => if negb (ch a =? 0) && (ch a =? ch b) then strncmp (tl a) (tl b) n
           else u8 (ch a) - u8 (ch b)
  end.

(** [strchr]: the suffix starting at the first [c]; the terminator itself is
    the empty suffix. *)
Fixpoint strchr (s : list Z) (c : Z) : option (list Z) :=
  match s with
  | [] => if c =? 0 then Some [] else None
  | x :: s' => if x =? 0 then (if c =? 0 then Some s else None)
               else if x =? u8 c then Some s else strchr s' c
  end.

Fixpoint strrchr_from (s : list Z) (c : Z) (last : option (list Z)) : option (list Z) :=
  match s with
  | [] => if c =? 0 then Some [] else last
  | x :: s' => if x =? 0 then (if c =? 0 then Some s else last)
               else strrchr_from s' c (if x =? u8 c then Some s else last)
  end.
Definition strrchr (s : list Z) (c : Z) : option (list Z) := strrchr_from s c None.

Fixpoint strstr_from (h needle : list Z) (nlen : nat) : option (list Z) :=
  match h with
  | [] => None
  | x :: h' => if x =? 0 then None
               else if (x =? ch needle) && (strncmp h needle nlen =? 0) then Some h
               else strstr_from h' needle nlen
  end.
Definition strstr (h needle : list Z) : option (list Z) :=
  if ch needle =? 0 then Some h else strstr_from h needle (strlen needle).

Fixpoint strspn (s accept : list Z) : nat :=
  match s with
  | [] => 0
  | x :: s' => if negb (x =? 0) && bool_decide (is_Some (strchr accept x))
               then S (strspn s' accept) else 0
  end.

Fixpoint strcspn (s reject : list Z) : nat :=
  match s with
  | [] => 0
  | x :: s' => if negb (x =? 0) && negb (bool_decide (is_Some (strchr reject x)))
               then S (strcspn s' reject) else 0
  end.

(** [strtok_r]: [saveptr] is [None] when null.  The result is the token and
    the new [saveptr]; the terminator the code writes after the token is what
    ends the returned string. *)
Definition strtok_r (str : option (list Z)) (delim : list Z) (saveptr : option (list Z))
    : option (list Z) * option (list Z) :=
  let saveptr := match str with Some s => Some s | None => saveptr end in
  match saveptr with
  | None => (None, None)
  | Some s =>
      let s := drop (strspn s delim) s in
      if ch s =? 0 then (None, None)
      else
        let k := strcspn s delim in
        let rest := drop k s in
        if ch rest =? 0 then (Some (take k s), None)
        else (Some (take k s), Some (tl rest))
  end.

(** [strtok] keeps its [saveptr] in the static variable [strtok_saved]. *)
Definition strtok (str : option (list Z)) (delim : list Z) (strtok_saved : option (list Z))
    : option (list Z) * option (list Z) := strtok_r str delim strtok_saved.

(** [strtol]: the digit loop; returns the value and the rest of the string. *)
Definition digit_of (c : Z) : option Z :=
  if (48 <=? c) && (c <=? 57) then Some (c - 48)
  else if (97 <=? c) && (c <=? 122) then Some (c - 97 + 10)
  else if (65 <=? c) && (c <=? 90) then Some (c - 65 + 10)
  else None.

Fixpoint strtol_digits (s : list Z) (base result : Z) : Z * list Z :=
  match s with
  | [] => (result, [])
  | c :: s' =>
      if c =? 0 then (result, s)
      else match digit_of c with
           | None => (result, s)
           | Some digit => if base <=? digit then (result, s)
                           else strtol_digits s' base (i64 (result * base + digit))
           end
  end.

Fixpoint skip_blanks (s : list Z) : list Z :=
  match s with
  | c :: s' => if (c =? 32) || (c =? 9) then skip_blanks s' else s
  | [] => []
  end.

Definition is_hex_prefix (s : list Z) : bool :=
  (ch s =? 48) && ((ch (tl s) =? 120) || (ch (tl s) =? 88)).

(** The value and [*endptr]. *)
Definition strtol (s : list Z) (base : Z) : Z * list Z :=
  let s := skip_blanks s in
  let '(neg, s) := if ch s =? 45 then (true, tl s)
                   else if ch s =? 43 then (false, tl s) else (false, s) in
  let '(base, s) :=
    if base =? 0 then
      if is_hex_prefix s then (16, drop 2 s)
      else if ch s =? 48 then (8, tl s) else (10, s)
    else if (base =? 16) && is_hex_prefix s then (base, drop 2 s)
    else (base, s) in
  let '(result, rest) := strtol_digits s base 0 in
  (if (neg : bool) then i64 (- result) else result, rest).

Definition strtoul (s : list Z) (base : Z) : Z * list Z :=
  let '(v, rest) := strtol s base in (u64 v, rest).
Definition atoi (s : list Z) : Z := i32 (strtol s 10).1.
Definition atol (s : list Z) : Z := (strtol s 10).1.

(** ** Lemmas: memory *)

(** The memory with [n] bytes at [d] replaced by [f 0 .. f (n - 1)]. *)
Definition patched (m : mem) (d n : Z) (f : Z -> Z) : mem :=
  fun x => if (d <=? x) && (x <? d + n) then f (x - d) else m x.

Lemma bytes_store8 m a v : bytes_ok m -> bytes_ok (store8 m a v).
Proof. intros H x. unfold store8. case_if; [apply u8_range|apply H]. Qed.

Lemma store_le_spec n m a v x :
  store_le n m a v x =
  if (a <=? x) && (x <? a + Z.of_nat n) then u8 (v / 256 ^ (x - a)) else m x.
Proof.
  revert m a v. induction n as [|n IH]; intros m a v; cbn [store_le].
  - case_if; [bools; lia|done].
  - rewrite IH. unfold store8. destruct (Z.eqb_spec x a) as [->|Hne].
    + rewrite (proj2 (Z.leb_gt (a + 1) a)) by lia. cbn [andb].
      rewrite Z.leb_refl, (proj2 (Z.ltb_lt a _)) by lia. cbn [andb].
      by rewrite Z.sub_diag, Z.pow_0_r, Z.div_1_r.
    + destruct (Z.leb_spec (a + 1) x), (Z.leb_spec a x); try lia; cbn [andb]; [|done].
      replace (x <? a + 1 + Z.of_nat n) with (x <? a + Z.of_nat (S n))
        by (f_equal; lia). case_if; [|done].
      rewrite Z.div_div by lia. f_equal. f_equal.
      replace (x - a) with (1 + (x - (a + 1))) by lia. rewrite Z.pow_add_r by lia. lia.
Qed.

Lemma load_le_byte n m a k :
  bytes_ok m -> 0 <= k < Z.of_nat n -> u8 (load_le n m a / 256 ^ k) = m (a + k).
Proof.
  intros Hm. revert a k. induction n as [|n IH]; intros a k Hk; [lia|]. cbn [load_le].
  destruct (decide (k = 0)) as [->|Hne].
  - rewrite Z.pow_0_r, Z.div_1_r, Z.add_0_r. unfold u8. change (2 ^ 8) with 256.
    rewrite (Z.mul_comm 256), Z_mod_plus_full, Z.mod_small; auto.
  - replace k with (1 + (k - 1)) at 1 by lia. rewrite Z.pow_add_r, Z.pow_1_r by lia.
    rewrite <- Z.div_div by (try apply Z.pow_pos_nonneg; lia).
    rewrite (Z.add_comm (m a)), Z.mul_comm, Z.div_add_l, (Z.div_small (m a)), Z.add_0_r
      by (lia || apply Hm). rewrite IH by lia. f_equal. lia.
Qed.

(** Storing the word loaded from [s] copies eight bytes. *)
Lemma store_load64 m d s x :
  bytes_ok m ->
  store64 m d (load64 m s) x = patched m d 8 (fun k => m (s + k)) x.
Proof.
  intros Hm. unfold store64, load64, patched. rewrite store_le_spec.
  change (Z.of_nat 8) with 8. case_if; [|done]. bools.
  apply load_le_byte; [done|lia].
Qed.

Lemma store_le_bytes n m a v : bytes_ok m -> bytes_ok (store_le n m a v).
Proof. revert m a v. induction n; intros m a v H; simpl; [done|]. auto using bytes_store8. Qed.

(** A byte of the fill pattern of [memset] is the fill value. *)
Lemma fill_word_byte v k : 0 <= v < 256 -> 0 <= k < 8 -> u8 (fill_word v / 256 ^ k) = v.
Proof.
  intros Hv Hk.
  assert (fill_word v = load_le 8 (fun _ => v) 0) as ->.
  { unfold fill_word. rewrite !Z.shiftl_mul_pow2 by lia.
    rewrite (lor_low_high v v 8), (lor_low_high _ v 16), (lor_low_high _ v 24),
      (lor_low_high _ v 32), (lor_low_high _ v 40), (lor_low_high _ v 48),
      (lor_low_high _ v 56) by lia. cbn [load_le]. lia. }
  apply (load_le_byte 8 (fun _ => v) 0 k); [by intros ?|lia].
Qed.

Lemma patched_0 m d f x : patched m d 0 f x = m x.
Proof. unfold patched. case_if; [bools; lia|done]. Qed.

(** A patch made of two adjacent ones. *)
Lemma patched_app m m' d n1 n2 f x :
  0 <= n1 -> 0 <= n2 ->
  (forall y, m' y = patched m d n1 f y) ->
  patched m' (d + n1) n2 (fun k => f (n1 + k)) x = patched m d (n1 + n2) f x.
Proof.
  intros H1 H2 Hm. unfold patched in *. rewrite Hm.
  destruct (Z.leb_spec (d + n1) x), (Z.ltb_spec x (d + n1 + n2)); cbn [andb].
  - rewrite (proj2 (Z.leb_le d x)), (proj2 (Z.ltb_lt x (d + (n1 + n2)))) by lia.
    cbn [andb]. f_equal. lia.
  - rewrite (proj2 (Z.ltb_ge x (d + n1))), (proj2 (Z.ltb_ge x (d + (n1 + n2)))) by lia.
    by rewrite andb_false_r.
  - rewrite (proj2 (Z.ltb_lt x (d + n1))), (proj2 (Z.ltb_lt x (d + (n1 + n2)))) by lia. done.
  - lia.
Qed.

Lemma patched_store8 m d f x : u8 (f 0) = f 0 -> store8 m d (f 0) x = patched m d 1 f x.
Proof.
  intros Hf. unfold store8, patched. destruct (Z.eqb_spec x d) as [->|].
  - rewrite Z.leb_refl, (proj2 (Z.ltb_lt _ _)), Z.sub_diag by lia. done.
  - case_if; [bools; lia|done].
Qed.

(** *** memset *)

Lemma memset_tail_spec m d v n x :
  0 <= v < 256 -> memset_tail m d v n x = patched m d (Z.of_nat n) (fun _ => v) x.
Proof.
  intros Hv. revert m d. induction n as [|n IH]; intros m d; cbn [memset_tail].
  - by rewrite patched_0.
  - rewrite IH. rewrite (patched_app m _ d 1 (Z.of_nat n) (fun _ => v)); [|lia|lia|].
    + f_equal. lia.
    + intros y. apply (patched_store8 m d (fun _ => v)). by apply u8_small.
Qed.

Lemma memset_head_spec m d v n m' d' n' :
  0 <= v < 256 -> memset_head m d v n = (m', d', n') ->
  (n' <= n)%nat /\ d' = d + Z.of_nat (n - n') /\
  forall x, m' x = patched m d (Z.of_nat (n - n')) (fun _ => v) x.
Proof.
  intros Hv. revert m d. induction n as [|n IH]; intros m d; cbn [memset_head].
  - intros [= <- <- <-]. split; [done|]. split; [lia|]. intros x. by rewrite patched_0.
  - case_if.
    + intros [= <- <- <-]. rewrite Nat.sub_diag. split; [done|]. split; [lia|].
      intros x. by rewrite patched_0.
    + intros H. destruct (IH _ _ H) as (Hn & -> & Hm). split; [lia|]. split; [lia|].
      intros x. rewrite Hm, (patched_app m _ d 1 _ (fun _ => v)); [|lia|lia|].
      * f_equal. lia.
      * intros y. apply (patched_store8 m d (fun _ => v)). by apply u8_small.
Qed.

Lemma memset_words_spec fuel m d v n m' d' n' :
  0 <= v < 256 -> memset_words fuel m d (fill_word v) n = (m', d', n') ->
  (n' <= n)%nat /\ d' = d + Z.of_nat (n - n') /\
  forall x, m' x = patched m d (Z.of_nat (n - n')) (fun _ => v) x.
Proof.
  intros Hv. revert m d n. induction fuel as [|fuel IH]; intros m d n; cbn [memset_words].
  - intros [= <- <- <-]. rewrite Nat.sub_diag. split; [done|]. split; [lia|].
    intros x. by rewrite patched_0.
  - case_if.
    + intros H. bools. destruct (IH _ _ _ H) as (Hn & -> & Hm). split; [lia|]. split; [lia|].
      intros x. rewrite Hm, (patched_app m _ d 8 _ (fun _ => v)); [|lia|lia|].
      * f_equal. lia.
      * intros y. unfold store64, patched. rewrite store_le_spec. change (Z.of_nat 8) with 8.
        case_if; [|done]. bools. apply fill_word_byte; lia.
    + intros [= <- <- <-]. rewrite Nat.sub_diag. split; [done|]. split; [lia|].
      intros x. by rewrite patched_0.
Qed.

(** [memset], with its byte-wise head, 64-bit body and byte-wise
    tail, sets exactly the [n] bytes at [dest] to the low byte of [c] and
    leaves every other byte of memory alone, for every alignment and size. *)
Theorem memset_correct (m : mem) (dest c : Z) (n : nat) (x : Z) :
  memset m dest c n x = patched m dest (Z.of_nat n) (fun _ => u8 c) x.
Proof.
  assert (0 <= u8 c < 256) as Hv by apply u8_range. unfold memset.
  destruct (memset_head m dest (u8 c) n) as [[m1 d1] n1] eqn:E1.
  destruct (memset_head_spec _ _ _ _ _ _ _ Hv E1) as (H1 & -> & M1).
  destruct (memset_words n1 m1 _ (fill_word (u8 c)) n1) as [[m2 d2] n2] eqn:E2.
  destruct (memset_words_spec _ _ _ _ _ _ _ _ Hv E2) as (H2 & -> & M2).
  rewrite memset_tail_spec by done. rewrite <- Z.add_assoc.
  rewrite (patched_app m m2 dest (Z.of_nat (n - n1) + Z.of_nat (n1 - n2)) _ (fun _ => u8 c));
    [f_equal; lia|lia|lia|].
  intros y. rewrite M2. by apply (patched_app m m1 dest _ _ (fun _ => u8 c)); [lia|lia|].
Qed.

(** *** memcpy and memmove *)

(** A forward copy step: [j] bytes are in place in [m1], the next [k] are read
    from [m1] itself.  It is right when the destination is not after the start
    of the source within the copied range. *)
Lemma copy_step m m1 d s j k x :
  0 <= j -> 0 <= k -> d <= s \/ s + (j + k) <= d ->
  (forall y, m1 y = patched m d j (fun i => m (s + i)) y) ->
  patched m1 (d + j) k (fun i => m1 (s + j + i)) x =
  patched m d (j + k) (fun i => m (s + i)) x.
Proof.
  intros Hj Hk Hov Hm. rewrite <- (patched_app m m1 d j k _ x Hj Hk Hm).
  unfold patched. case_if; [|done]. bools. rewrite Hm. unfold patched.
  case_if; [bools; lia|]. f_equal. lia.
Qed.

Lemma memcpy_words_spec fuel m0 m d s j n m' d' s' n' :
  bytes_ok m0 -> bytes_ok m -> 0 <= j -> d <= s \/ s + (j + Z.of_nat n) <= d ->
  (forall y, m y = patched m0 d j (fun i => m0 (s + i)) y) ->
  memcpy_words fuel m (d + j) (s + j) n = (m', d', s', n') ->
  exists j', j <= j' /\ j' + Z.of_nat n' = j + Z.of_nat n /\ d' = d + j' /\ s' = s + j' /\
    bytes_ok m' /\ forall y, m' y = patched m0 d j' (fun i => m0 (s + i)) y.
Proof.
  intros Hb0. revert m j n. induction fuel as [|fuel IH]; intros m j n Hb Hj Hov Hm;
    cbn [memcpy_words].
  - intros [= <- <- <- <-]. exists j. split_and!; try done; lia.
  - case_if.
    + intros H. bools. rewrite <- !Z.add_assoc in H.
      apply IH in H as (j' & ? & ? & ? & ? & ? & ?).
      * exists j'. split_and!; try done; lia.
      * by apply store_le_bytes.
      * lia.
      * lia.
      * intros y. rewrite store_load64 by done. apply copy_step; [lia|lia|lia|done].
    + intros [= <- <- <- <-]. exists j. split_and!; try done; lia.
Qed.

Lemma memcpy_bytes_spec m0 m d s j n x :
  bytes_ok m0 -> bytes_ok m -> 0 <= j -> d <= s \/ s + (j + Z.of_nat n) <= d ->
  (forall y, m y = patched m0 d j (fun i => m0 (s + i)) y) ->
  memcpy_bytes m (d + j) (s + j) n x =
  patched m0 d (j + Z.of_nat n) (fun i => m0 (s + i)) x.
Proof.
  intros Hb0. revert m j. induction n as [|n IH]; intros m j Hb Hj Hov Hm;
    cbn [memcpy_bytes].
  - rewrite Hm. f_equal. lia.
  - rewrite <- !Z.add_assoc, IH; [f_equal; lia|by apply bytes_store8|lia|lia|].
    intros y. rewrite <- (copy_step m0 m d s j 1 y) by (lia || done).
    replace (m (s + j)) with (m (s + j + 0)) by (f_equal; lia).
    apply (patched_store8 m (d + j) (fun i => m (s + j + i))). apply u8_small, Hb.
Qed.

(** Forward copying is right unless the destination starts inside the source. *)
Lemma memcpy_spec m d s n x :
  bytes_ok m -> d <= s \/ s + Z.of_nat n <= d ->
  memcpy m d s n x = patched m d (Z.of_nat n) (fun i => m (s + i)) x.
Proof.
  intros Hb Hov. unfold memcpy. case_if.
  - destruct (memcpy_words n m d s n) as [[[m1 d1] s1] n1] eqn:E.
    replace d with (d + 0) in E at 1 by lia. replace s with (s + 0) in E at 1 by lia.
    destruct (memcpy_words_spec n m m d s 0 n m1 d1 s1 n1)
      as (j & ? & ? & -> & -> & ? & ?); try done.
    + intros y. by rewrite patched_0.
    + rewrite (memcpy_bytes_spec m) by (done || lia). f_equal. lia.
  - replace d with (d + 0) at 1 by lia. replace s with (s + 0) at 1 by lia.
    rewrite (memcpy_bytes_spec m); [done|done|done|lia|lia|].
    intros y. by rewrite patched_0.
Qed.

(** A backward step: the bytes from [k] on are in place. *)
Lemma memmove_back_spec m0 m d s k n x :
  bytes_ok m0 -> s < d -> Z.of_nat k <= n ->
  (forall y, m y = if (d + Z.of_nat k <=? y) && (y <? d + n) then m0 (s + (y - d)) else m0 y) ->
  memmove_back m d s k x = patched m0 d n (fun i => m0 (s + i)) x.
Proof.
  intros Hb Hsd. revert m. induction k as [|k IH]; intros m Hk Hm; cbn [memmove_back].
  - rewrite Hm. unfold patched. by rewrite Z.add_0_r.
  - apply IH; [lia|]. intros y. unfold store8. destruct (Z.eqb_spec y (d + Z.of_nat k)) as [->|Hne].
    + rewrite Z.leb_refl, (proj2 (Z.ltb_lt (d + Z.of_nat k) _)), Hm by lia. cbn [andb].
      rewrite (proj2 (Z.leb_gt _ _)) by lia. cbn [andb].
      rewrite u8_small by apply Hb. f_equal. lia.
    + rewrite Hm. destruct (Z.leb_spec (d + Z.of_nat k) y), (Z.leb_spec (d + Z.of_nat (S k)) y);
        (done || lia).
Qed.

(** C35: [memmove] copies [n] bytes as if through a temporary buffer:
    whatever the overlap, the alignment and the size, the destination receives
    the bytes the source had before the call, and nothing else changes. *)
Theorem memmove_correct (m : mem) (dest src : Z) (n : nat) (x : Z) :
  bytes_ok m ->
  memmove m dest src n x = patched m dest (Z.of_nat n) (fun i => m (src + i)) x.
Proof.
  intros Hb. unfold memmove. case_if.
  - unfold patched. case_if; [|done]. f_equal. apply orb_true_iff in Heqb as [H|H]; bools; lia.
  - bools. case_if.
    + apply memcpy_spec; [done|]. apply orb_true_iff in Heqb as [Hb'|Hb']; bools; lia.
    + bools. apply memmove_back_spec; [done|lia|lia|].
      intros y. case_if; [bools; lia|done].
Qed.

Definition demo_mem : mem := fun x => u8 (x * 7).

Lemma memmove_correct_witness : memmove demo_mem 1003 1000 20 1010 = demo_mem 1007.
Proof.
  rewrite (memmove_correct demo_mem 1003 1000 20 1010); [by vm_compute|].
  intros x. apply u8_range.
Defined.

(** ** Lemmas: strings *)

Lemma ch_c_str s : ch (c_str s) = ch s.
Proof. destruct s as [|x s]; simpl; [done|]. case_if; simpl; bools; lia. Qed.

Lemma c_str_cons s : ch s <> 0 -> c_str s = ch s :: c_str (tl s).
Proof. destruct s as [|x s]; simpl; [done|]. intros H. case_if; [bools; lia|done]. Qed.

Lemma c_str_nil s : ch s = 0 -> c_str s = [].
Proof. destruct s as [|x s]; simpl; [done|]. intros ->. done. Qed.

Lemma c_str_idemp s : c_str (c_str s) = c_str s.
Proof.
  induction s as [|x s IH]; simpl; [done|]. destruct (x =? 0) eqn:E; simpl; [done|].
  by rewrite E, IH.
Qed.

Definition byte_list (s : list Z) : Prop := Forall (fun x => 0 <= x < 256) s.

Lemma byte_list_ch s : byte_list s -> 0 <= ch s < 256.
Proof. destruct 1; simpl; lia. Qed.

Lemma byte_list_tl s : byte_list s -> byte_list (tl s).
Proof. destruct 1; simpl; [constructor|done]. Qed.

#[export] Hint Resolve byte_list_ch byte_list_tl : aether.

(** [strncmp] is zero exactly when the strings agree on their first [n]
    characters. *)
Lemma strncmp_0 a b n :
  byte_list a -> byte_list b ->
  strncmp a b n = 0 <-> take n (c_str a) = take n (c_str b).
Proof.
  revert a b. induction n as [|n IH]; intros a b Ha Hb; cbn [strncmp].
  { by rewrite !take_0. }
  pose proof (byte_list_ch _ Ha). pose proof (byte_list_ch _ Hb).
  destruct (Z.eqb_spec (ch a) 0) as [Ea|Ea]; cbn [negb andb].
  - rewrite (c_str_nil a), !u8_small by (done || lia). destruct (decide (ch b = 0)) as [Eb|Eb].
    + rewrite (c_str_nil b) by done. split; [done|lia].
    + rewrite (c_str_cons b) by done. split; [lia|done].
  - rewrite (c_str_cons a) by done. destruct (Z.eqb_spec (ch a) (ch b)) as [E|E].
    + rewrite (c_str_cons b) by congruence. cbn [take]. rewrite IH by auto with aether.
      rewrite E. split; [by intros ->|by intros [= ->]].
    + rewrite !u8_small by lia. split; [lia|]. destruct (decide (ch b = 0)) as [Eb|Eb].
      * rewrite (c_str_nil b) by done. done.
      * rewrite (c_str_cons b) by done. intros [= ? ?]. done.
Qed.

(** [strcmp] is zero exactly on equal strings. *)
Lemma strcmp_0 a b :
  byte_list a -> byte_list b -> strcmp a b = 0 <-> c_str a = c_str b.
Proof.
  intros Ha. revert b. induction Ha as [|x a Hx Ha IH]; intros b Hb; cbn [strcmp];
    pose proof (byte_list_ch _ Hb).
  - rewrite u8_small by lia. destruct (decide (ch b = 0)) as [E|E].
    + rewrite (c_str_nil b) by done. split; [done|lia].
    + rewrite (c_str_cons b) by done. split; [lia|done].
  - cbn [c_str]. destruct (Z.eqb_spec x 0) as [->|Hx0]; cbn [negb andb].
    + rewrite !u8_small by lia. destruct (decide (ch b = 0)) as [E|E].
      * rewrite (c_str_nil b) by done. split; [done|lia].
      * rewrite (c_str_cons b) by done. split; [lia|done].
    + destruct (Z.eqb_spec x (ch b)) as [E|E].
      * rewrite (c_str_cons b) by congruence. rewrite IH by auto with aether.
        rewrite E. split; [by intros ->|by intros [= ->]].
      * rewrite !u8_small by lia. split; [lia|]. destruct (decide (ch b = 0)) as [Eb|Eb].
        -- by rewrite (c_str_nil b).
        -- rewrite (c_str_cons b) by done. intros [= ? ?]. done.
Qed.

Lemma length_strncpy_bytes s n : length (strncpy_bytes s n) = n.
Proof.
  revert s. induction n as [|n IH]; intros s; cbn [strncpy_bytes]; [done|].
  case_if; simpl; [by rewrite length_replicate|by rewrite IH].
Qed.

Lemma strncpy_bytes_bytes s n : byte_list s -> byte_list (strncpy_bytes s n).
Proof.
  revert s. induction n as [|n IH]; intros s Hs; cbn [strncpy_bytes]; [constructor|].
  case_if; [apply Forall_replicate; lia|]. constructor; [by apply byte_list_ch|].
  by apply IH, byte_list_tl.
Qed.

(** What is read back from a field filled by [strncpy]. *)
Lemma c_str_strncpy s n rest :
  ch rest = 0 -> c_str (strncpy_bytes s n ++ rest) = take n (c_str s).
Proof.
  intros Hr. revert s. induction n as [|n IH]; intros s; cbn [strncpy_bytes].
  - rewrite take_0. by apply c_str_nil.
  - destruct (Z.eqb_spec (ch s) 0) as [E|E].
    + rewrite (c_str_nil s) by done. by apply c_str_nil.
    + rewrite (c_str_cons s) by done. cbn [app take c_str].
      rewrite (proj2 (Z.eqb_neq _ _) E). by rewrite IH.
Qed.

(** *** Tokens *)

(** Iterating [strtok_r] the way its callers do, on a string without embedded
    zeros; every call but the last consumes a character. *)
Fixpoint strtok_all (fuel : nat) (str saveptr : option (list Z)) (delim : list Z)
    : option (list (list Z)) :=
  match fuel with
  | O => None
  | S fuel =>
      match strtok_r str delim saveptr with
      | (None, _) => Some []
      | (Some t, save) => cons t <$> strtok_all fuel None save delim
      end
  end.

(** The reference: cut the string at every delimiter and keep the non-empty
    pieces. *)
Fixpoint cut (p : Z -> bool) (s : list Z) : list (list Z) :=
  match s with
  | [] => [[]]
  | x :: s => if p x then [] :: cut p s
              else match cut p s with
                   | w :: ws => (x :: w) :: ws
                   | [] => [[x]]
                   end
  end.

Definition fields (p : Z -> bool) (s : list Z) : list (list Z) :=
  filter (fun w => w <> []) (cut p s).

Definition is_delim (delim : list Z) (x : Z) : bool := bool_decide (is_Some (strchr delim x)).

Lemma cut_ne p s : cut p s <> [].
Proof. destruct s as [|x s]; simpl; [done|]. case_if; [done|]. by destruct (cut p s). Qed.

Lemma fields_skip p x s : p x = true -> fields p (x :: s) = fields p s.
Proof. intros H. unfold fields. simpl. by rewrite H. Qed.

(** A maximal piece without delimiters is the first field. *)
Lemma cut_piece p w s :
  Forall (fun x => p x = false) w -> (forall x, head s = Some x -> p x = true) ->
  cut p (w ++ s) = match s with [] => [w] | _ :: s' => w :: cut p s' end.
Proof.
  intros Hw Hs. induction Hw as [|x w Hx Hw IH]; simpl.
  - destruct s as [|y s]; [done|]. simpl. by rewrite (Hs y eq_refl).
  - rewrite Hx, IH. by destruct s.
Qed.

Definition no_zero (s : list Z) : Prop := Forall (fun x => x <> 0) s.

Lemma c_str_no_zero s : no_zero s -> c_str s = s.
Proof. induction 1; simpl; [done|]. case_if; [bools; done|by f_equal]. Qed.

(** What the two spans compute on a string without zeros. *)
Lemma strspn_fields s delim :
  no_zero s -> fields (is_delim delim) (drop (strspn s delim) s) = fields (is_delim delim) s /\
  (forall x, head (drop (strspn s delim) s) = Some x -> is_delim delim x = false) /\
  no_zero (drop (strspn s delim) s) /\
  (length (drop (strspn s delim) s) <= length s)%nat.
Proof.
  induction 1 as [|x s Hx Hs IH]; simpl; [by split_and!; try constructor|].
  rewrite (proj2 (Z.eqb_neq _ _) Hx). cbn [negb andb].
  fold (is_delim delim x). destruct (is_delim delim x) eqn:E; simpl.
  - rewrite fields_skip by done. destruct IH as (H1 & H2 & H3 & H4). by split_and!; try lia.
  - split_and!; [done| |by constructor|lia]. by intros ? [= <-].
Qed.

Lemma strcspn_piece s delim :
  no_zero s -> exists w r, s = w ++ r /\ strcspn s delim = length w /\
    Forall (fun x => is_delim delim x = false) w /\
    (forall x, head r = Some x -> is_delim delim x = true).
Proof.
  induction 1 as [|x s Hx Hs (w & r & -> & Hl & Hw & Hr)]; [by exists [], []|]. simpl.
  rewrite (proj2 (Z.eqb_neq _ _) Hx). cbn [negb andb].
  fold (is_delim delim x). destruct (is_delim delim x) eqn:E; simpl.
  - exists [], (x :: w ++ r). split_and!; try done. by intros ? [= <-].
  - exists (x :: w), r. split_and!; try done; [by rewrite Hl|]. by constructor.
Qed.

(** One call of [strtok_r]: the first field, and a [saveptr] that holds the
    other fields in a shorter string. *)
Lemma strtok_r_fields delim s :
  no_zero s ->
  match fields (is_delim delim) s with
  | [] => strtok_r None delim (Some s) = (None, None)
  | t :: ts => exists save, strtok_r None delim (Some s) = (Some t, save) /\
      match save with
      | None => ts = []
      | Some r => no_zero r /\ fields (is_delim delim) r = ts /\ (length r < length s)%nat
      end
  end.
Proof.
  intros Hs. cbn [strtok_r]. destruct (strspn_fields s delim Hs) as (<- & Hd & Hz & Hle).
  set (s1 := drop (strspn s delim) s) in *. clearbody s1.
  destruct s1 as [|x s1]; [done|]. inversion Hz as [|? ? Hx Hz']; subst. cbn [ch hd].
  rewrite (proj2 (Z.eqb_neq _ _) Hx). specialize (Hd x eq_refl).
  destruct (strcspn_piece (x :: s1) delim Hz) as (w & r & E & Hl & Hw & Hr).
  rewrite Hl, E, drop_app_length, take_app_length.
  destruct w as [|y w]; [simpl in E; subst r; rewrite (Hr x eq_refl) in Hd; done|].
  unfold fields. rewrite (cut_piece _ _ r Hw Hr).
  unfold no_zero in Hz. rewrite E in Hz, Hle. apply Forall_app in Hz as [_ Hz].
  destruct r as [|z r]; cbn [ch hd tl].
  - by exists None.
  - inversion Hz as [|? ? Hz0 Hz1]; subst. rewrite (proj2 (Z.eqb_neq _ _) Hz0).
    exists (Some r). rewrite length_app in Hle. simpl in Hle. split_and!; [done|done|done|lia].
Qed.

Lemma strtok_all_save fuel delim s :
  no_zero s -> (length s < fuel)%nat ->
  strtok_all fuel None (Some s) delim = Some (fields (is_delim delim) s).
Proof.
  revert s. induction fuel as [|fuel IH]; intros s Hs Hf; [lia|]. cbn [strtok_all].
  pose proof (strtok_r_fields delim s Hs) as Ht.
  destruct (fields (is_delim delim) s) as [|t ts] eqn:E; [by rewrite Ht|].
  destruct Ht as (save & -> & Hsave). destruct save as [r|].
  - destruct Hsave as (Hz & <- & Hl). by rewrite IH by (done || lia).
  - subst ts. destruct fuel as [|fuel]; [|done]. destruct s; [|simpl in Hf; lia]. done.
Qed.

(** iterating [strtok_r] over a string ends and yields, in order,
    exactly the non-empty pieces between the delimiters, as the reference
    splitter defines them. *)
Theorem strtok_all_fields (s delim : list Z) :
  no_zero s ->
  strtok_all (S (length s)) (Some s) None delim = Some (fields (is_delim delim) s).
Proof. intros Hs. rewrite <- (strtok_all_save (S (length s)) delim s Hs) by lia. done. Qed.

Lemma strtok_all_fields_witness :
  strtok_all 8 (Some [47; 97; 98; 47; 47; 99; 47]) None [47] = Some [[97; 98]; [99]].
Proof. apply (strtok_all_fields [47; 97; 98; 47; 47; 99; 47] [47]). by repeat constructor. Defined.

(** *** strstr *)

Lemma strncmp_prefix h needle :
  byte_list h -> byte_list needle ->
  strncmp h needle (strlen needle) = 0 <-> c_str needle `prefix_of` c_str h.
Proof.
  intros Hh Hn. rewrite strncmp_0 by done. unfold strlen.
  rewrite (take_ge (c_str needle)) by done. split.
  - intros <-. apply prefix_take.
  - intros [k ->]. by rewrite take_app_length.
Qed.

(** [strstr] returns the first position at which the needle occurs,
    and null exactly when it occurs nowhere. *)
Theorem strstr_correct (h needle : list Z) :
  byte_list h -> byte_list needle -> no_zero h ->
  match strstr h needle with
  | Some r => exists k, r = drop k h /\ c_str needle `prefix_of` drop k h /\
      forall j, (j < k)%nat -> ~ c_str needle `prefix_of` drop j h
  | None => forall j, ~ c_str needle `prefix_of` drop j h
  end.
Proof.
  intros Hh Hn Hz. unfold strstr. destruct (Z.eqb_spec (ch needle) 0) as [E|E].
  { exists 0%nat. rewrite (c_str_nil needle) by done.
    split; [done|]. split; [apply prefix_nil|lia]. }
  pose proof c_str_no_zero as Hc.
  assert (~ c_str needle `prefix_of` []) as Hnil.
  { rewrite c_str_cons by done. apply prefix_nil_not. }
  induction Hz as [|x h Hx Hz IH]; cbn [strstr_from].
  { intros j. by rewrite drop_nil. }
  rewrite (proj2 (Z.eqb_neq _ _) Hx). case_if.
  - bools. exists 0%nat. split; [done|]. split; [|lia]. rewrite drop_0.
    rewrite <- (Hc (x :: h)) by by constructor. by apply strncmp_prefix.
  - assert (~ c_str needle `prefix_of` x :: h) as Hno.
    { intros Hp. apply andb_false_iff in Heqb as [Hb|Hb]; bools.
      - rewrite c_str_cons in Hp by done. by apply prefix_cons_inv_1 in Hp.
      - apply Hb, strncmp_prefix; [done|done|]. by rewrite (Hc (x :: h)) by by constructor. }
    specialize (IH (Forall_inv_tail Hh)). destruct (strstr_from h needle _) as [r|].
    + destruct IH as (k & -> & Hp & Hmin). exists (S k). split; [done|]. split; [done|].
      intros [|j] Hj; [done|]. apply Hmin. lia.
    + intros [|j]; [done|]. apply IH.
Qed.

Lemma strstr_correct_witness :
  match strstr [97; 98; 97; 98; 99] [97; 98; 99] with
  | Some r => exists k, r = drop k [97; 98; 97; 98; 99] /\ c_str [97; 98; 99] `prefix_of` drop k [97; 98; 97; 98; 99] /\
      forall j, (j < k)%nat -> ~ c_str [97; 98; 99] `prefix_of` drop j [97; 98; 97; 98; 99]
  | None => False
  end.
Proof.
  refine (strstr_correct [97; 98; 97; 98; 99] [97; 98; 99] _ _ _); by repeat constructor.
Defined.
