(* ===== verification/Printf.v ===== *)
(** * Formatted output, [libc/printf.c]

    The whole of [vsnprintf]: flags, width, precision, length modifiers, the
    conversions and the bounded output.  The buffer is the list of bytes
    written so far, so [pos] is its length.  The main loop runs with fuel;
    running out of it ([Running]) is how a loop that never ends shows.
    Strings are shorter than [2 ^ 31], so that [(int)strlen(s)] is exact. *)

From S2P Require Import Prelude CString.

(** ** Integer to string *)

Definition digits_lower : list Z := [48;49;50;51;52;53;54;55;56;57;97;98;99;100;101;102].
Definition digits_upper : list Z := [48;49;50;51;52;53;54;55;56;57;65;66;67;68;69;70].

(** The division loop: the digits in the order [tmp] receives them, least
    significant first.  A [uint64_t] has at most 64 digits. *)
Fixpoint digit_loop (fuel : nat) (value base : Z) (digits : list Z) : list Z :=
  match fuel with
  | O => []
  | S fuel => if 0 <? value
              then nth (Z.to_nat (value mod base)) digits 0
                     :: digit_loop fuel (value / base) base digits
              else []
  end.

Definition uint_to_str (value base : Z) (upper : bool) : list Z :=
  let digits := if upper then digits_upper else digits_lower in
  let tmp := if value =? 0 then [48] else digit_loop 64 value base digits in
  reverse tmp.

(** ** Arguments *)

(** What a caller passes through [...]: an integer, read back at the width of
    the [va_arg] type, or a string pointer ([None] is null). *)
Inductive arg :=
| AInt (z : Z)
| AStr (s : option (list Z)).

(** [va_arg]: the next argument; [None] when there is none of that kind, which
    is undefined behaviour in C. *)
Definition va_int (ap : list arg) : option (Z * list arg) :=
  match ap with AInt z :: ap => Some (z, ap) | _ => None end.
Definition va_str (ap : list arg) : option (option (list Z) * list arg) :=
  match ap with AStr s :: ap => Some (s, ap) | _ => None end.

(** ** Parsing a directive *)

Record flags := mk_flags {
  flag_left : bool; flag_zero : bool; flag_plus : bool; flag_space : bool; flag_hash : bool }.

Definition no_flags : flags := mk_flags false false false false false.

Fixpoint parse_flags (fmt : list Z) (f : flags) : flags * list Z :=
  match fmt with
  | c :: fmt' =>
      let '(mk_flags l z p sp h) := f in
      if c =? 45 then parse_flags fmt' (mk_flags true z p sp h)
      else if c =? 48 then parse_flags fmt' (mk_flags l true p sp h)
      else if c =? 43 then parse_flags fmt' (mk_flags l z true sp h)
      else if c =? 32 then parse_flags fmt' (mk_flags l z p true h)
      else if c =? 35 then parse_flags fmt' (mk_flags l z p sp true)
      else (f, fmt)
  | [] => (f, fmt)
  end.

(** [while ( *fmt >= '0' && *fmt <= '9') n = n * 10 + ( *fmt++ - '0');] *)
Fixpoint parse_number (fmt : list Z) (n : Z) : Z * list Z :=
  match fmt with
  | c :: fmt' => if (48 <=? c) && (c <=? 57) then parse_number fmt' (i32 (n * 10 + (c - 48)))
                 else (n, fmt)
  | [] => (n, fmt)
  end.

Definition parse_width (fmt : list Z) (ap : list arg) (f : flags)
    : option (Z * flags * list Z * list arg) :=
  if ch fmt =? 42 then
    '(w, ap) ← va_int ap;
    let width := i32 w in
    if width <? 0 then
      Some (i32 (- width), mk_flags true (flag_zero f) (flag_plus f) (flag_space f) (flag_hash f),
            tl fmt, ap)
    else Some (width, f, tl fmt, ap)
  else let '(width, fmt) := parse_number fmt 0 in Some (width, f, fmt, ap).

Definition parse_precision (fmt : list Z) (ap : list arg) : option (Z * list Z * list arg) :=
  if ch fmt =? 46 then
    let fmt := tl fmt in
    if ch fmt =? 42 then
      '(p, ap) ← va_int ap;
      Some (i32 p, tl fmt, ap)
    else let '(precision, fmt) := parse_number fmt 0 in Some (precision, fmt, ap)
  else Some (-1, fmt, ap).

(** 0 = int, 1 = long, 2 = long long, 3 = short, 4 = char *)
Definition parse_length (fmt : list Z) : Z * list Z :=
  if ch fmt =? 104 then
    if ch (tl fmt) =? 104 then (4, tl (tl fmt)) else (3, tl fmt)
  else if ch fmt =? 108 then
    if ch (tl fmt) =? 108 then (2, tl (tl fmt)) else (1, tl fmt)
  else if ch fmt =? 122 then (2, tl fmt)
  else (0, fmt).

(** ** Conversions *)

(** What the [switch] leaves: the prefix and the characters to print, the
    cases that print directly and [continue], and the end of the format. *)
Inductive conv :=
| Field (prefix str : list Z)
| Direct (out : list Z)
| EndOfFormat.

Definition signed_arg (length z : Z) : Z := if (length =? 2) || (length =? 1) then i64 z else i32 z.
Definition unsigned_arg (length z : Z) : Z := if (length =? 2) || (length =? 1) then u64 z else u32 z.

Definition null_text : list Z := [40; 110; 117; 108; 108; 41].

Definition convert (f : flags) (precision length spec : Z) (ap : list arg)
    : option (conv * list arg) :=
  if (spec =? 100) || (spec =? 105) then
    '(z, ap) ← va_int ap;
    let val := signed_arg length z in
    let is_negative := val <? 0 in
    let val := if is_negative then i64 (- val) else val in
    Some (Field (if is_negative then [45]
                 else if flag_plus f then [43]
                 else if flag_space f then [32] else [])
                (uint_to_str (u64 val) 10 false), ap)
  else if spec =? 117 then
    '(z, ap) ← va_int ap;
    Some (Field [] (uint_to_str (unsigned_arg length z) 10 false), ap)
  else if (spec =? 120) || (spec =? 88) then
    '(z, ap) ← va_int ap;
    let val := unsigned_arg length z in
    Some (Field (if flag_hash f && negb (val =? 0) then [48; if spec =? 88 then 88 else 120] else [])
                (uint_to_str val 16 (spec =? 88)), ap)
  else if spec =? 111 then
    '(z, ap) ← va_int ap;
    Some (Field (if flag_hash f then [48] else []) (uint_to_str (u32 z) 8 false), ap)
  else if spec =? 98 then
    '(z, ap) ← va_int ap;
    Some (Field [] (uint_to_str (u32 z) 2 false), ap)
  else if spec =? 112 then
    '(z, ap) ← va_int ap;
    Some (Field [48; 120] (uint_to_str (u64 z) 16 false), ap)
  else if spec =? 99 then
    '(z, ap) ← va_int ap;
    Some (Field [] [u8 z], ap)
  else if spec =? 115 then
    '(s, ap) ← va_str ap;
    let str_val := match s with Some s => s | None => null_text end in
    let str_len := i32 (Z.of_nat (strlen str_val)) in
    let str_len := if (0 <=? precision) && (precision <? str_len) then precision else str_len in
    Some (Field [] (take (Z.to_nat str_len) str_val), ap)
  else if spec =? 37 then Some (Direct [37], ap)
  else if spec =? 0 then Some (EndOfFormat, ap)
  else Some (Direct [37; spec], ap).

(** ** Output *)

(** [PUT(c)]: one character if there is room for it and the terminator. *)
Definition PUT (size : Z) (buf : list Z) (c : Z) : list Z :=
  if Z.of_nat (length buf) + 1 <? size then buf ++ [c] else buf.

Definition PUTS (size : Z) (buf s : list Z) : list Z := foldl (PUT size) buf s.

(** The padded field. *)
Definition emit_field (size : Z) (buf : list Z) (f : flags) (width : Z) (prefix str : list Z)
    : list Z :=
  let total_len := Z.of_nat (length prefix) + Z.of_nat (length str) in
  let pad := Z.to_nat (if total_len <? width then width - total_len else 0) in
  let pad_zero := flag_zero f && negb (flag_left f) in
  let '(buf, prefix) :=
    if negb (flag_left f) then
      if pad_zero then (PUTS size (PUTS size buf prefix) (replicate pad 48), [])
      else (PUTS size buf (replicate pad 32), prefix)
    else (buf, prefix) in
  let buf := PUTS size buf prefix in
  let buf := PUTS size buf str in
  if flag_left f then PUTS size buf (replicate pad 32) else buf.

Record directive := mk_directive {
  dir_flags : flags; dir_width : Z; dir_conv : conv; dir_rest : list Z; dir_args : list arg }.

(** From just after the ['%'] to the end of the [switch]; the conversion
    character is consumed ([char spec = *fmt++]). *)
Definition parse_directive (fmt : list Z) (ap : list arg) : option directive :=
  let '(f, fmt) := parse_flags fmt no_flags in
  '(width, f, fmt, ap) ← parse_width fmt ap f;
  '(precision, fmt, ap) ← parse_precision fmt ap;
  let '(length, fmt) := parse_length fmt in
  '(c, ap) ← convert f precision length (ch fmt) ap;
  Some (mk_directive f width c (tl fmt) ap).

Inductive outcome :=
| Done (buf : list Z)
| Undefined
| Running.

(** The main loop.  [PUT( *fmt++ )] evaluates its argument only when the
    character is stored, so [fmt] advances only then. *)
Fixpoint vsnprintf_loop (fuel : nat) (size : Z) (buf fmt : list Z) (ap : list arg) : outcome :=
  match fuel with
  | O => Running
  | S fuel =>
      if ch fmt =? 0 then Done buf
      else if negb (ch fmt =? 37) then
        if Z.of_nat (length buf) + 1 <? size
        then vsnprintf_loop fuel size (buf ++ [ch fmt]) (tl fmt) ap
        else vsnprintf_loop fuel size buf fmt ap
      else
        match parse_directive (tl fmt) ap with
        | None => Undefined
        | Some d =>
            match dir_conv d with
            | EndOfFormat => Done buf
            | Direct s => vsnprintf_loop fuel size (PUTS size buf s) (dir_rest d) (dir_args d)
            | Field prefix str =>
                vsnprintf_loop fuel size (emit_field size buf (dir_flags d) (dir_width d) prefix str)
                  (dir_rest d) (dir_args d)
            end
        end
  end.

(** The bytes stored, terminator included when [size > 0], and the result. *)
Definition vsnprintf (fuel : nat) (size : Z) (fmt : list Z) (ap : list arg)
    : outcome * option (list Z * Z) :=
  let o := vsnprintf_loop fuel size [] fmt ap in
  match o with
  | Done buf => (o, Some (buf ++ (if 0 <? size then [0] else []), Z.of_nat (length buf)))
  | _ => (o, None)
  end.

Definition snprintf := vsnprintf.
Definition sprintf (fuel : nat) := vsnprintf fuel 65536.

(** ** Printing and reading numbers *)

Definition is_digit_char (c : Z) : Prop := 48 <= c <= 57 \/ 97 <= c <= 102 \/ 65 <= c <= 70.

Lemma nth_digits (upper : bool) (k : Z) :
  0 <= k < 16 ->
  let c := nth (Z.to_nat k) (if upper then digits_upper else digits_lower) 0 in
  digit_of c = Some k /\ is_digit_char c.
Proof.
  intros Hk. assert (exists n : nat, (n < 16)%nat /\ k = Z.of_nat n) as (n & Hn & ->).
  { exists (Z.to_nat k). lia. }
  rewrite Nat2Z.id. destruct upper; do 16 (destruct n as [|n]; [split; [done|unfold is_digit_char; simpl; lia]|]); lia.
Qed.

Lemma digit_char_small c : is_digit_char c -> 48 <= c <= 102 /\ c <> 88.
Proof. unfold is_digit_char. lia. Qed.

Lemma digit_loop_chars fuel v base (upper : bool) :
  2 <= base <= 16 ->
  Forall is_digit_char (digit_loop fuel v base (if upper then digits_upper else digits_lower)).
Proof.
  intros Hb. revert v. induction fuel as [|fuel IH]; intros v; cbn [digit_loop]; [constructor|].
  case_if; constructor; [|apply IH].
  apply nth_digits. pose proof (Z.mod_pos_bound v base). lia.
Qed.

Lemma uint_to_str_chars v base upper :
  2 <= base <= 16 -> Forall is_digit_char (uint_to_str v base upper).
Proof.
  intros Hb. unfold uint_to_str. apply Forall_reverse.
  case_if; [|by apply digit_loop_chars]. constructor; [|constructor]. unfold is_digit_char. lia.
Qed.

(** The digit loop of [strtol] undoes the digit loop of [uint_to_str]. *)
Lemma strtol_digit_loop fuel v base (upper : bool) rest :
  2 <= base <= 16 -> 0 <= v < 2 ^ 63 -> v < base ^ Z.of_nat fuel ->
  strtol_digits (reverse (digit_loop fuel v base (if upper then digits_upper else digits_lower))
                 ++ rest) base 0 = strtol_digits rest base v.
Proof.
  intros Hb. revert v rest. induction fuel as [|fuel IH]; intros v rest Hv Hf; cbn [digit_loop].
  { replace v with 0 by (simpl in Hf; lia). done. }
  case_if; bools; [|by replace v with 0 by lia].
  pose proof (Z.div_mod v base ltac:(lia)). pose proof (Z.mod_pos_bound v base ltac:(lia)).
  assert (0 <= v / base < 2 ^ 63) by (split; [apply Z.div_pos; lia|apply Z.div_lt_upper_bound; nia]).
  rewrite reverse_cons, <- app_assoc, IH; [|done|].
  - cbn [app strtol_digits]. destruct (nth_digits upper (v mod base)) as [-> Hc]; [lia|].
    apply digit_char_small in Hc as [Hc _].
    rewrite (proj2 (Z.eqb_neq _ _)), (proj2 (Z.leb_gt _ _)) by lia. f_equal.
    unfold i64. rewrite Z.mod_small; lia.
  - apply Z.div_lt_upper_bound; [lia|].
    rewrite Nat2Z.inj_succ, Z.pow_succ_r in Hf by lia. done.
Qed.

Lemma strtol_uint_to_str v base upper :
  2 <= base <= 16 -> 0 <= v < 2 ^ 63 -> strtol_digits (uint_to_str v base upper) base 0 = (v, []).
Proof.
  intros Hb Hv. unfold uint_to_str. case_if; bools.
  { subst. change (reverse [48]) with [48]. cbn [strtol_digits digit_of].
    change (digit_of 48) with (Some 0). cbn. by rewrite (proj2 (Z.leb_gt _ _)) by lia. }
  rewrite <- (app_nil_r (reverse _)), strtol_digit_loop; [done|done|done|].
  apply Z.lt_le_trans with (2 ^ Z.of_nat 64); [simpl; lia|]. apply Z.pow_le_mono_l. lia.
Qed.

(** A string of digits has no blanks, sign or prefix to skip. *)
Lemma strtol_digits_only s base :
  2 <= base <= 16 -> Forall is_digit_char s -> strtol s base = strtol_digits s base 0.
Proof.
  intros Hb Hs. unfold strtol.
  assert (skip_blanks s = s) as ->.
  { destruct Hs as [|c s Hc Hs]; [done|]. apply digit_char_small in Hc as [Hc _]. simpl.
    by rewrite !(proj2 (Z.eqb_neq _ _)) by lia. }
  assert (ch s <> 45 /\ ch s <> 43) as [H1 H2].
  { destruct Hs as [|c s Hc Hs]; [done|]. apply digit_char_small in Hc as [Hc _]. simpl. lia. }
  assert (is_hex_prefix s = false) as H3.
  { unfold is_hex_prefix. apply andb_false_iff. right.
    destruct Hs as [|c s _ [|c' s' Hc' _]]; simpl; [done|done|].
    apply digit_char_small in Hc' as [? ?]. by rewrite !(proj2 (Z.eqb_neq _ _)) by lia. }
  rewrite !(proj2 (Z.eqb_neq _ _)) by done. rewrite H3, andb_false_r.
  rewrite (proj2 (Z.eqb_neq base 0)) by lia.
  by destruct (strtol_digits s base 0).
Qed.

(** ** What a call prints *)

Definition room (size : Z) (buf : list Z) : nat := Z.to_nat (size - 1 - Z.of_nat (length buf)).

(** Characters are stored while there is room for the terminator. *)
Lemma PUTS_take size buf s : PUTS size buf s = buf ++ take (room size buf) s.
Proof.
  revert buf. induction s as [|c s IH]; intros buf; [by rewrite take_nil, app_nil_r|].
  cbn [PUTS foldl]. change (foldl (PUT size)) with (PUTS size). rewrite IH. unfold PUT, room.
  case_if; bools.
  - rewrite length_app, <- app_assoc. cbn [length app].
    replace (Z.to_nat (size - 1 - Z.of_nat (length buf)))
      with (S (Z.to_nat (size - 1 - Z.of_nat (length buf + 1)))) by lia. done.
  - by replace (Z.to_nat (size - 1 - Z.of_nat (length buf))) with 0%nat by lia.
Qed.

Lemma PUTS_app size buf s t : PUTS size (PUTS size buf s) t = PUTS size buf (s ++ t).
Proof. unfold PUTS. by rewrite foldl_app. Qed.

(** The text of a field, without any limit. *)
Definition field_text (f : flags) (width : Z) (prefix str : list Z) : list Z :=
  let pad := Z.to_nat (width - Z.of_nat (length prefix + length str)) in
  if flag_left f then prefix ++ str ++ replicate pad 32
  else if flag_zero f then prefix ++ replicate pad 48 ++ str
  else replicate pad 32 ++ prefix ++ str.

Lemma emit_field_text size buf f width prefix str :
  emit_field size buf f width prefix str = PUTS size buf (field_text f width prefix str).
Proof.
  unfold emit_field, field_text. rewrite <- Nat2Z.inj_add.
  replace (Z.to_nat (if Z.of_nat (length prefix + length str) <? width then _ else _))
    with (Z.to_nat (width - Z.of_nat (length prefix + length str))) by (case_if; bools; lia).
  destruct (flag_left f), (flag_zero f); cbn [negb andb]; rewrite ?PUTS_app, <- ?app_assoc; done.
Qed.

Definition prepend (s : list Z) (o : outcome) : outcome :=
  match o with Done t => Done (s ++ t) | o => o end.

(** The reference: the whole text a format denotes, with no buffer. *)
Fixpoint format (fuel : nat) (fmt : list Z) (ap : list arg) : outcome :=
  match fuel with
  | O => Running
  | S fuel =>
      if ch fmt =? 0 then Done []
      else if negb (ch fmt =? 37) then prepend [ch fmt] (format fuel (tl fmt) ap)
      else match parse_directive (tl fmt) ap with
           | None => Undefined
           | Some d =>
               match dir_conv d with
               | EndOfFormat => Done []
               | Direct s => prepend s (format fuel (dir_rest d) (dir_args d))
               | Field prefix str =>
                   prepend (field_text (dir_flags d) (dir_width d) prefix str)
                     (format fuel (dir_rest d) (dir_args d))
               end
           end
  end.

Lemma length_tl (s : list Z) : (length (tl s) <= length s)%nat.
Proof. destruct s; simpl; lia. Qed.

Lemma parse_flags_len fmt f : (length (parse_flags fmt f).2 <= length fmt)%nat.
Proof.
  revert f. induction fmt as [|c fmt IH]; intros f; simpl; [done|].
  destruct f as [l z p sp h]. repeat case_if; simpl; try lia; (etransitivity; [apply IH|lia]).
Qed.

Lemma parse_number_len fmt n : (length (parse_number fmt n).2 <= length fmt)%nat.
Proof.
  revert n. induction fmt as [|c fmt IH]; intros n; simpl; [done|].
  case_if; simpl; [|lia]. etransitivity; [apply IH|lia].
Qed.

Lemma parse_width_len fmt ap f w f' fmt' ap' :
  parse_width fmt ap f = Some (w, f', fmt', ap') -> (length fmt' <= length fmt)%nat.
Proof.
  unfold parse_width. pose proof (length_tl fmt). case_if.
  - destruct (va_int ap) as [[z ?]|]; [|done]. simpl. case_if; by intros [= <- <- <- <-].
  - pose proof (parse_number_len fmt 0). destruct (parse_number fmt 0). by intros [= <- <- <- <-].
Qed.

Lemma parse_precision_len fmt ap p fmt' ap' :
  parse_precision fmt ap = Some (p, fmt', ap') -> (length fmt' <= length fmt)%nat.
Proof.
  unfold parse_precision. pose proof (length_tl fmt). pose proof (length_tl (tl fmt)).
  case_if; [case_if|].
  - destruct (va_int ap) as [[z ?]|]; [|done]. simpl. intros [= <- <- <-]. lia.
  - pose proof (parse_number_len (tl fmt) 0). destruct (parse_number (tl fmt) 0).
    intros [= <- <- <-]. simpl in *. lia.
  - by intros [= <- <- <-].
Qed.

Lemma parse_length_len fmt : (length (parse_length fmt).2 <= length fmt)%nat.
Proof.
  unfold parse_length. pose proof (length_tl fmt). pose proof (length_tl (tl fmt)).
  repeat case_if; simpl; lia.
Qed.

Lemma parse_directive_len fmt ap d :
  parse_directive fmt ap = Some d -> (length (dir_rest d) <= length fmt)%nat.
Proof.
  unfold parse_directive. pose proof (parse_flags_len fmt no_flags).
  destruct (parse_flags fmt no_flags) as [f fmt1]. simpl in *.
  destruct (parse_width fmt1 ap f) as [[[[w f'] fmt2] ap2]|] eqn:E2; [|done]. simpl.
  apply parse_width_len in E2.
  destruct (parse_precision fmt2 ap2) as [[[p fmt3] ap3]|] eqn:E3; [|done]. simpl.
  apply parse_precision_len in E3. pose proof (parse_length_len fmt3).
  destruct (parse_length fmt3) as [l fmt4]. simpl in *.
  destruct (convert f' p l (ch fmt4) ap3) as [[c ap4]|]; [|done]. simpl.
  intros [= <-]. pose proof (length_tl fmt4). simpl. lia.
Qed.

(** The format is read to its end within as many rounds as it has characters. *)
Lemma format_total fuel fmt ap : (length fmt < fuel)%nat -> format fuel fmt ap <> Running.
Proof.
  revert fmt ap. induction fuel as [|fuel IH]; intros fmt ap Hf; [lia|]. cbn [format].
  destruct fmt as [|c fmt]; [done|]. cbn [ch hd tl]. simpl in Hf. case_if; [done|].
  assert (forall s fmt' ap', (length fmt' <= length fmt)%nat ->
    prepend s (format fuel fmt' ap') <> Running) as Hp.
  { intros s fmt' ap' Hl. specialize (IH fmt' ap' ltac:(lia)). by destruct (format fuel fmt' ap'). }
  case_if; [by apply Hp|].
  destruct (parse_directive fmt ap) as [d|] eqn:E; [|done].
  apply parse_directive_len in E. destruct (dir_conv d); [by apply Hp|by apply Hp|done].
Qed.

(** As long as the whole text fits, the bounded loop produces it. *)
Lemma vsnprintf_loop_fits fuel size buf fmt ap out :
  format fuel fmt ap = Done out -> Z.of_nat (length buf + length out) < size ->
  vsnprintf_loop fuel size buf fmt ap = Done (buf ++ out).
Proof.
  revert buf fmt ap out. induction fuel as [|fuel IH]; intros buf fmt ap out; [done|].
  cbn [format vsnprintf_loop].
  case_if; [intros [= <-] _; by rewrite app_nil_r|].
  assert (forall s fmt' ap', prepend s (format fuel fmt' ap') = Done out ->
    Z.of_nat (length buf + length out) < size ->
    PUTS size buf s = buf ++ s /\
    vsnprintf_loop fuel size (buf ++ s) fmt' ap' = Done (buf ++ out)) as Hp.
  { intros s fmt' ap' E Hl. destruct (format fuel fmt' ap') as [t| |] eqn:Et; try done.
    injection E as <-. rewrite length_app in Hl. split.
    - rewrite PUTS_take, take_ge; [done|]. unfold room. lia.
    - rewrite (IH _ _ _ t); [by rewrite app_assoc|done|]. rewrite length_app. lia. }
  case_if.
  - intros E Hl. rewrite (proj2 (Z.ltb_lt _ _)); [by apply Hp|].
    destruct (format fuel (tl fmt) ap); try done. injection E as <-. simpl in Hl. lia.
  - destruct (parse_directive (tl fmt) ap) as [d|]; [|done]. destruct (dir_conv d); intros E Hl.
    + rewrite emit_field_text. by destruct (Hp _ _ _ E Hl) as [-> ->].
    + by destruct (Hp _ _ _ E Hl) as [-> ->].
    + injection E as <-. by rewrite app_nil_r.
Qed.


Lemma PUTS_bound size buf s :
  Z.of_nat (length buf) < Z.max 1 size -> Z.of_nat (length (PUTS size buf s)) < Z.max 1 size.
Proof. intros H. rewrite PUTS_take, length_app, length_take. unfold room. lia. Qed.


Definition literal (s : list Z) : Prop := Forall (fun c => c <> 0 /\ c <> 37) s.

(** when the literal text at the start of a format does not fit
    in the buffer, [vsnprintf] never returns: the macro argument [*fmt++] is
    not evaluated once the buffer is full, so the format pointer stays put. *)
Theorem vsnprintf_literal_overflow_hangs (fuel : nat) (size : Z) (lit rest : list Z) (ap : list arg) :
  literal lit -> lit <> [] -> size <= Z.of_nat (length lit) ->
  vsnprintf fuel size (lit ++ rest) ap = (Running, None).
Proof.
  intros Hl Hne Hs. unfold vsnprintf.
  assert (forall fuel buf lit, literal lit -> lit <> [] ->
    size <= Z.of_nat (length buf + length lit) ->
    vsnprintf_loop fuel size buf (lit ++ rest) ap = Running) as H.
  { clear. induction fuel as [|fuel IH]; intros buf lit Hl Hne Hs; [done|].
    destruct Hl as [|c lit [H0 H37] Hl]; [done|]. cbn [vsnprintf_loop app ch hd tl].
    rewrite !(proj2 (Z.eqb_neq _ _)) by done. cbn [negb]. simpl in Hs. case_if; bools.
    - apply IH; [done| |rewrite length_app; simpl; lia]. intros ->. simpl in Hs. lia.
    - apply (IH buf (c :: lit)); [by constructor|done|simpl; lia]. }
  by rewrite (H fuel [] lit) by done.
Qed.

Lemma vsnprintf_literal_overflow_hangs_witness :
  vsnprintf 1000 4 [97; 98; 99; 100; 101] [] = (Running, None).
Proof.
  apply (vsnprintf_literal_overflow_hangs 1000 4 [97; 98; 99; 100; 101] [] []);
    [by repeat constructor|done|by vm_compute].
Defined.

Lemma digit_loop_len fuel v base digits : (length (digit_loop fuel v base digits) <= fuel)%nat.
Proof.
  revert v. induction fuel as [|fuel IH]; intros v; cbn [digit_loop]; [done|].
  case_if; simpl; [|lia]. specialize (IH (v / base)). lia.
Qed.

Lemma uint_to_str_len v base upper : (length (uint_to_str v base upper) <= 64)%nat.
Proof.
  unfold uint_to_str. rewrite length_reverse. case_if; [simpl; lia|]. apply digit_loop_len.
Qed.

Definition fmt_ld : list Z := [37; 108; 100].

Lemma format_ld v :
  - 2 ^ 63 < v < 2 ^ 63 ->
  format 4 fmt_ld [AInt v] =
  Done ((if v <? 0 then [45] else []) ++ uint_to_str (Z.abs v) 10 false).
Proof.
  intros Hv. assert (forall z, - 2 ^ 63 <= z < 2 ^ 63 -> i64 z = z) as Hi
    by (intros z Hz; unfold i64; rewrite Z.mod_small; lia).
  transitivity (Done (field_text no_flags 0 (if i64 v <? 0 then [45] else [])
    (uint_to_str (u64 (if i64 v <? 0 then i64 (- i64 v) else i64 v)) 10 false) ++ [])); [done|].
  rewrite app_nil_r, (Hi v), (Hi (- v)) by lia. unfold field_text. cbn [flag_left flag_zero no_flags].
  rewrite (Z.sub_0_l _), (Z2Nat.nonpos (- _)) by lia. cbn [replicate app]. case_if; bools.
  - by rewrite u64_small, Z.abs_neq by lia.
  - by rewrite u64_small, Z.abs_eq by lia.
Qed.

(** printing a 64-bit integer with ["%ld"] and reading it back
    with [strtol] in base 10 returns the integer and consumes the whole text. *)
Theorem printf_strtol_roundtrip (v : Z) :
  - 2 ^ 63 < v < 2 ^ 63 ->
  exists s, vsnprintf 4 128 fmt_ld [AInt v] = (Done s, Some (s ++ [0], Z.of_nat (length s))) /\
    strtol s 10 = (v, []).
Proof.
  intros Hv. exists ((if v <? 0 then [45] else []) ++ uint_to_str (Z.abs v) 10 false).
  pose proof (uint_to_str_len (Z.abs v) 10 false) as Hl.
  pose proof (uint_to_str_chars (Z.abs v) 10 false ltac:(lia)) as Hc. split.
  - unfold vsnprintf. erewrite vsnprintf_loop_fits; [reflexivity|by apply format_ld|].
    rewrite length_app. case_if; simpl; lia.
  - case_if; bools.
    + pose proof (strtol_uint_to_str (Z.abs v) 10 false ltac:(lia) ltac:(lia)) as E.
      cbn [app]. unfold strtol. cbn [skip_blanks Z.eqb Pos.eqb orb ch hd tl].
      cbn [andb]. change (is_hex_prefix _) with (is_hex_prefix (uint_to_str (Z.abs v) 10 false)).
      cbn -[strtol_digits uint_to_str]. rewrite E. f_equal. unfold i64. rewrite Z.mod_small; lia.
    + rewrite app_nil_l, strtol_digits_only, strtol_uint_to_str by (done || lia).
      f_equal. lia.
Qed.

Lemma printf_strtol_roundtrip_witness :
  exists s, vsnprintf 4 128 fmt_ld [AInt (-907)] = (Done s, Some (s ++ [0], Z.of_nat (length s))) /\
    strtol s 10 = (-907, []).
Proof. apply (printf_strtol_roundtrip (-907)). lia. Defined.
