(* ===== verification/Secmon.v ===== *)
(** * The security monitor ([kernel/secmon.c], [include/kernel/secmon.h])

    The audit log is a ring of [SECMON_LOG_SIZE] records written at
    [log_head % SECMON_LOG_SIZE].  The file models every entry point that
    changes the log or the policy word, and shows that the ring implements an
    append-only event sequence: the last [SECMON_LOG_SIZE] records are always
    readable, in order, and [secmon_dump_log] prints exactly the requested
    suffix of them. *)

From S2P Require Import Prelude Ring.

(** ** Data ([secmon.h]) *)

Inductive audit_event_type : Set :=
| AUDIT_NONE                      (* the zero of a [memset] record *)
| AUDIT_CAP_CREATE | AUDIT_CAP_DERIVE | AUDIT_CAP_REVOKE | AUDIT_CAP_TRANSFER
| AUDIT_IPC_SEND | AUDIT_IPC_RECV
| AUDIT_SVC_REGISTER | AUDIT_SVC_LOOKUP | AUDIT_SVC_UNREGISTER
| AUDIT_POLICY_DENY | AUDIT_BOOT | AUDIT_PANIC.

#[export] Instance audit_event_type_eq_dec : EqDecision audit_event_type.
Proof. solve_decision. Defined.

Record audit_event := AuditEvent {
  ev_seq : Z;
  ev_timestamp : Z;
  ev_type : audit_event_type;
  ev_actor_tid : Z;
  ev_cap : Z;
  ev_port : Z;
  ev_detail0 : Z;
  ev_detail1 : Z
}.

Definition audit_event_zero : audit_event := AuditEvent 0 0 AUDIT_NONE 0 0 0 0 0.

Definition SECMON_LOG_SIZE : nat := 512.

Definition SECPOL_DENY_IRQCAP_USERLAND : Z := 0x01.
Definition SECPOL_LOG_ALL_IPC : Z := 0x02.

(** The static variables of [secmon.c]; [timer_ticks] is the tick counter that
    [timer_get_ticks()] reads. *)
Record secmon := Secmon {
  log_buf : list audit_event;
  log_head : Z;
  log_count : Z;
  policy : Z;
  timer_ticks : Z
}.

(** Index of the next record to write. *)
Definition log_slot (n : Z) : nat := Z.to_nat (n mod Z.of_nat SECMON_LOG_SIZE).

(** [_record]: fill the slot at [log_head] and advance both counters. *)
Definition record (type : audit_event_type) (actor_tid cap port d0 d1 : Z)
    (s : secmon) : secmon :=
  let ev := AuditEvent (log_count s) (timer_ticks s) type actor_tid cap port d0 d1 in
  Secmon (<[log_slot (log_head s) := ev]> (log_buf s))
         (u32 (log_head s + 1)) (u32 (log_count s + 1)) (policy s) (timer_ticks s).

Definition secmon_init (ticks : Z) : secmon :=
  let s := Secmon (replicate SECMON_LOG_SIZE audit_event_zero) 0 0
                  SECPOL_DENY_IRQCAP_USERLAND ticks in
  let ev := AuditEvent (log_count s) ticks AUDIT_BOOT 0 0 0 0 0 in
  Secmon (<[log_slot (log_head s) := ev]> (log_buf s))
         (u32 (log_head s + 1)) (u32 (log_count s + 1)) (policy s) ticks.

Definition secmon_audit_cap (type : audit_event_type) (actor_tid cap d0 d1 : Z)
    (s : secmon) : secmon :=
  record type actor_tid cap 0 d0 d1 s.

Definition secmon_audit_ipc (type : audit_event_type) (actor_tid port msg_type : Z)
    (s : secmon) : secmon :=
  if bool_decide (type = AUDIT_IPC_SEND) && (policy s .& SECPOL_LOG_ALL_IPC =? 0)
  then s
  else record type actor_tid 0 port msg_type 0 s.

(** Four bytes packed little-endian, the loop
    [d |= (uint32_t)(uint8_t)name[i] << (i * 8)]. *)
Fixpoint pack_bytes (i : Z) (bs : list Z) (d : Z) : Z :=
  match bs with
  | [] => d
  | b :: bs' => pack_bytes (i + 1) bs' (d .| Z.shiftl (u8 b) (i * 8))
  end.

(** A name is the list of its characters without the terminator; [None] is
    the null pointer. *)
Definition secmon_audit_svc (type : audit_event_type) (actor_tid : Z)
    (name : option (list Z)) (s : secmon) : secmon :=
  let '(d0, d1) :=
    match name with
    | None => (0, 0)
    | Some nm =>
        let len := Nat.min (length nm) 4 in
        let d0 := pack_bytes 0 (take len nm) 0 in
        if (4 <? length nm)%nat then
          let rem := Nat.min (length nm - 4) 4 in
          (d0, pack_bytes 0 (take rem (drop 4 nm)) 0)
        else (d0, 0)
    end in
  record type actor_tid 0 0 d0 d1 s.

(** [CAP_TYPE_IRQLINE] of [cap.h]; the caller passes the numeric type. *)
Definition IRQLINE_TYPE : Z := 8.

Definition secmon_check_cap_create (actor_tid type : Z) (s : secmon) : bool * secmon :=
  if (type =? IRQLINE_TYPE) && negb (policy s .& SECPOL_DENY_IRQCAP_USERLAND =? 0)
     && negb (actor_tid =? 0)
  then (false, record AUDIT_POLICY_DENY actor_tid 0 0 type 0 s)
  else (true, s).

Definition secmon_check_irq_access (actor_tid : Z) (s : secmon) : bool * secmon :=
  secmon_check_cap_create actor_tid IRQLINE_TYPE s.

Definition secmon_set_policy (flags : Z) (s : secmon) : secmon :=
  Secmon (log_buf s) (log_head s) (log_count s) flags (timer_ticks s).

Definition secmon_get_policy (s : secmon) : Z := policy s.
Definition secmon_event_count (s : secmon) : Z := log_count s.

(** [secmon_dump_log last_n]: the records it prints, in order. *)
Definition secmon_dump_log (last_n : Z) (s : secmon) : list audit_event :=
  let last_n := if (last_n <=? 0) || (Z.of_nat SECMON_LOG_SIZE <? last_n)
                then Z.of_nat SECMON_LOG_SIZE else last_n in
  let total := log_count s in
  let start := if last_n <? total then total - last_n else 0 in
  omap (fun i => log_buf s !! log_slot i) (seqZ start (total - start)).

(** ** The abstract log

    [evs] is the sequence of all events since boot.  The ring implements it
    when the head and the counter agree with its length and every one of the
    last 512 events is in its slot. *)
Record log_refines (evs : list audit_event) (s : secmon) : Prop := {
  lr_len : length (log_buf s) = SECMON_LOG_SIZE;
  lr_head : log_head s = Z.of_nat (length evs);
  lr_count : log_count s = Z.of_nat (length evs);
  lr_window : forall i, (i < length evs)%nat -> (length evs <= i + SECMON_LOG_SIZE)%nat ->
      log_buf s !! log_slot (Z.of_nat i) = evs !! i
}.

Lemma log_slot_of_nat (i : nat) : log_slot (Z.of_nat i) = (i mod SECMON_LOG_SIZE)%nat.
Proof. unfold log_slot. rewrite <- Nat2Z.inj_mod, Nat2Z.id. done. Qed.

Lemma log_slot_lt n : (log_slot n < SECMON_LOG_SIZE)%nat.
Proof.
  unfold log_slot. pose proof (Z.mod_pos_bound n (Z.of_nat SECMON_LOG_SIZE)).
  unfold SECMON_LOG_SIZE in *. lia.
Qed.

Lemma record_refines evs s type a c p d0 d1 :
  Z.of_nat (length evs) + 1 < 2 ^ 32 ->
  log_refines evs s ->
  log_refines (evs ++ [AuditEvent (Z.of_nat (length evs)) (timer_ticks s) type a c p d0 d1])
              (record type a c p d0 d1 s).
Proof.
  intros Hb [Hlen Hhead Hcnt Hwin]. split; simpl.
  - by rewrite length_insert.
  - rewrite length_app, Hhead, u32_small by lia. simpl. lia.
  - rewrite length_app, Hcnt, u32_small by lia. simpl. lia.
  - intros i Hi Hw. rewrite length_app in Hi, Hw. simpl in Hi, Hw.
    rewrite Hhead, Hcnt, !log_slot_of_nat.
    destruct (decide (i = length evs)) as [->|Hne].
    + rewrite list_lookup_insert_eq, lookup_app_r, Nat.sub_diag; [done|lia|].
      rewrite Hlen. rewrite <- log_slot_of_nat. apply log_slot_lt.
    + rewrite list_lookup_insert_ne.
      * rewrite <- log_slot_of_nat, Hwin, lookup_app_l by lia. done.
      * apply not_eq_sym, mod_window_inj; lia.
Qed.

Lemma secmon_init_refines ticks :
  log_refines [AuditEvent 0 ticks AUDIT_BOOT 0 0 0 0 0] (secmon_init ticks).
Proof.
  split; [done..|]. intros [|i] Hi Hw; [done|simpl in Hi; lia].
Qed.

(** What a dump of a refined log shows. *)
Lemma omap_window (evs : list audit_event) (buf : list audit_event) (m : nat) :
  (m <= length evs)%nat -> (length evs <= m + SECMON_LOG_SIZE)%nat ->
  (forall i, (i < length evs)%nat -> (length evs <= i + SECMON_LOG_SIZE)%nat ->
     buf !! log_slot (Z.of_nat i) = evs !! i) ->
  omap (fun i => buf !! log_slot i) (seqZ (Z.of_nat m) (Z.of_nat (length evs - m)))
  = drop m evs.
Proof.
  intros Hm Hw Hwin. remember (length evs - m)%nat as k eqn:Hk.
  revert m Hm Hw Hk. induction k as [|k IH]; intros m Hm Hw Hk.
  - rewrite drop_ge by lia. done.
  - replace (Z.of_nat (S k)) with (Z.succ (Z.of_nat k)) by lia.
    rewrite seqZ_cons by lia. simpl. rewrite Hwin by lia.
    destruct (lookup_lt_is_Some_2 evs m ltac:(lia)) as [x Hx].
    rewrite Hx. rewrite (drop_S _ x) by done. f_equal.
    rewrite <- (IH (S m)) by lia. f_equal. f_equal; lia.
Qed.

Lemma secmon_dump_log_refines evs s n :
  log_refines evs s ->
  secmon_dump_log n s =
    drop (length evs - (if (n <=? 0) || (512 <? n) then 512 else Z.to_nat n)) evs.
Proof.
  intros [Hlen Hhead Hcnt Hwin]. unfold secmon_dump_log. rewrite Hcnt.
  change (Z.of_nat SECMON_LOG_SIZE) with 512.
  set (k := if (n <=? 0) || (512 <? n) then 512 else n).
  set (kn := if (n <=? 0) || (512 <? n) then 512%nat else Z.to_nat n).
  assert (k = Z.of_nat kn /\ (kn <= 512)%nat /\ (0 < kn)%nat) as (-> & Hle & Hpos).
  { subst k kn. destruct (n <=? 0) eqn:E1; simpl; [lia|].
    destruct (512 <? n) eqn:E2; bools; lia. }
  replace (if Z.of_nat kn <? Z.of_nat (length evs)
           then Z.of_nat (length evs) - Z.of_nat kn else 0)
    with (Z.of_nat (length evs - kn)) by (case_if; bools; lia).
  replace (Z.of_nat (length evs) - Z.of_nat (length evs - kn))
    with (Z.of_nat (length evs - (length evs - kn))) by lia.
  apply omap_window; [lia| unfold SECMON_LOG_SIZE; lia | done].
Qed.

(** ** The abstract monitor

    The contract of the component: an unbounded list of events, the policy
    word and the clock.  Each entry point appends the event it stands for, or
    nothing. *)
Record monitor := Monitor { events : list audit_event; m_policy : Z; m_ticks : Z }.

Definition append (type : audit_event_type) (a c p d0 d1 : Z) (m : monitor) : monitor :=
  Monitor (events m ++ [AuditEvent (Z.of_nat (length (events m))) (m_ticks m) type a c p d0 d1])
          (m_policy m) (m_ticks m).

Definition boot (ticks : Z) : monitor :=
  Monitor [AuditEvent 0 ticks AUDIT_BOOT 0 0 0 0 0] SECPOL_DENY_IRQCAP_USERLAND ticks.

(** The calls other kernel parts make, and the timer interrupt. *)
Inductive secmon_call :=
| CallCap (type : audit_event_type) (a c d0 d1 : Z)
| CallIpc (type : audit_event_type) (a p m : Z)
| CallSvc (type : audit_event_type) (a : Z) (name : option (list Z))
| CallCheck (a ty : Z)
| CallSetPolicy (fl : Z)
| CallTick (t : Z).

Definition exec (c : secmon_call) (s : secmon) : secmon :=
  match c with
  | CallCap type a c d0 d1 => secmon_audit_cap type a c d0 d1 s
  | CallIpc type a p m => secmon_audit_ipc type a p m s
  | CallSvc type a nm => secmon_audit_svc type a nm s
  | CallCheck a ty => (secmon_check_cap_create a ty s).2
  | CallSetPolicy fl => secmon_set_policy fl s
  | CallTick t => Secmon (log_buf s) (log_head s) (log_count s) (policy s) t
  end.

(** The value of four name bytes, little endian. *)
Definition le32 (bs : list Z) : Z := foldr (fun b acc => u8 b + 256 * acc) 0 bs.

Definition spec_exec (c : secmon_call) (m : monitor) : monitor :=
  match c with
  | CallCap type a c d0 d1 => append type a c 0 d0 d1 m
  | CallIpc type a p ty =>
      if bool_decide (type = AUDIT_IPC_SEND) && negb (Z.testbit (m_policy m) 1) then m
      else append type a 0 p ty 0 m
  | CallSvc type a nm =>
      let nm := default [] nm in
      append type a 0 0 (le32 (take 4 nm)) (le32 (take 4 (drop 4 nm))) m
  | CallCheck a ty =>
      if (ty =? 8) && Z.testbit (m_policy m) 0 && negb (a =? 0)
      then append AUDIT_POLICY_DENY a 0 0 ty 0 m else m
  | CallSetPolicy fl => Monitor (events m) fl (m_ticks m)
  | CallTick t => Monitor (events m) (m_policy m) t
  end.

Record refines (m : monitor) (s : secmon) : Prop := {
  rf_log : log_refines (events m) s;
  rf_policy : policy s = m_policy m;
  rf_ticks : timer_ticks s = m_ticks m
}.

Lemma pack_bytes_le32 bs i d :
  0 <= i -> 0 <= d < 2 ^ (i * 8) ->
  pack_bytes i bs d = d + 2 ^ (i * 8) * le32 bs.
Proof.
  revert i d. induction bs as [|b bs IH]; intros i d Hi Hd; simpl; [lia|].
  pose proof (u8_range b) as Hb.
  assert (d .| Z.shiftl (u8 b) (i * 8) = d + 2 ^ (i * 8) * u8 b) as ->.
  { rewrite Z.shiftl_mul_pow2, lor_low_high by lia. lia. }
  assert (2 ^ ((i + 1) * 8) = 2 ^ (i * 8) * 256) as Hp.
  { replace ((i + 1) * 8) with (i * 8 + 8) by lia. rewrite Z.pow_add_r by lia. done. }
  rewrite IH; [rewrite Hp; unfold le32; simpl; lia|lia|].
  rewrite Hp. change (2 ^ 8) with 256 in Hb. nia.
Qed.

Lemma record_sim m s type a c p d0 d1 :
  Z.of_nat (length (events m)) + 1 < 2 ^ 32 -> refines m s ->
  refines (append type a c p d0 d1 m) (record type a c p d0 d1 s).
Proof.
  intros Hb [Hl Hp Ht]. split; [|done..]. simpl. rewrite <- Ht. by apply record_refines.
Qed.

(** Simulation: every call of the code is matched by the abstract monitor. *)
Lemma exec_sim m s c :
  Z.of_nat (length (events m)) + 1 < 2 ^ 32 -> refines m s ->
  refines (spec_exec c m) (exec c s).
Proof.
  intros Hb H. pose proof H as [Hl Hp Ht].
  destruct c as [type a c d0 d1|type a p ty|type a nm|a ty|fl|t]; cbn [spec_exec exec].
  - by apply record_sim.
  - unfold secmon_audit_ipc. change SECPOL_LOG_ALL_IPC with (2 ^ 1).
    rewrite Hp, <- land_pow2_testbit, negb_involutive by lia.
    case_if; [done|by apply record_sim].
  - unfold secmon_audit_svc. destruct nm as [nm|]; simpl; [|by apply record_sim].
    rewrite !pack_bytes_le32 by (simpl; lia).
    change (2 ^ (0 * 8)) with 1. rewrite !Z.add_0_l, !Z.mul_1_l.
    replace (take (length nm `min` 4) nm) with (take 4 nm)
      by (destruct (decide (length nm <= 4)%nat);
          [rewrite !take_ge by lia|f_equal; lia]; done).
    destruct (4 <? length nm)%nat eqn:E; bools.
    + replace (take ((length nm - 4) `min` 4) (drop 4 nm)) with (take 4 (drop 4 nm));
        [by apply record_sim|].
      destruct (decide (length nm - 4 <= 4)%nat).
      * rewrite !take_ge by (rewrite length_drop; lia). done.
      * f_equal. lia.
    + rewrite (drop_ge nm 4) by lia. by apply record_sim.
  - unfold secmon_check_cap_create. change SECPOL_DENY_IRQCAP_USERLAND with (2 ^ 0).
    rewrite Hp, land_pow2_testbit by lia. change IRQLINE_TYPE with 8.
    case_if; simpl; [by apply record_sim|done].
  - split; [by destruct Hl|done..].
  - split; [by destruct Hl|done..].
Qed.

Lemma spec_exec_length c m :
  (length (events (spec_exec c m)) <= length (events m) + 1)%nat.
Proof. destruct c; simpl; try case_if; simpl; rewrite ?length_app; simpl; lia. Qed.

Lemma run_sim cs m s :
  Z.of_nat (length (events m) + length cs) < 2 ^ 32 -> refines m s ->
  refines (foldl (flip spec_exec) m cs) (foldl (flip exec) s cs).
Proof.
  revert m s. induction cs as [|c cs IH]; intros m s Hb H; simpl in *; [done|].
  pose proof (spec_exec_length c m). apply IH; [lia|]. apply exec_sim; [lia|done].
Qed.

(** ** Properties *)

(** C29: the audit ring implements the append-only log.  After any
    sequence [cs] of fewer than [2^32 - 1] calls from boot, the event counter
    is the number of events the calls stand for, and [secmon_dump_log n]
    prints exactly the last [n] of them in order (the last 512 when [n] is out
    of range). *)
Theorem audit_log_append_only (ticks last_n : Z) (cs : list secmon_call)
    (Hn : Z.of_nat (length cs) + 1 < 2 ^ 32) :
  let evs := events (foldl (flip spec_exec) (boot ticks) cs) in
  let s := foldl (flip exec) (secmon_init ticks) cs in
  secmon_event_count s = Z.of_nat (length evs) /\
  secmon_dump_log last_n s =
    drop (length evs - (if (last_n <=? 0) || (512 <? last_n) then 512 else Z.to_nat last_n)) evs.
Proof.
  assert (refines (boot ticks) (secmon_init ticks)) as H0.
  { split; [apply secmon_init_refines|done..]. }
  apply (run_sim cs) in H0; [|simpl; lia]. destruct H0 as [Hl _ _].
  split; [apply Hl|by apply secmon_dump_log_refines].
Qed.

Lemma audit_log_append_only_witness :
  let cs := [CallCap AUDIT_CAP_CREATE 7 1 2 3; CallIpc AUDIT_IPC_SEND 7 4 0;
             CallCheck 7 8; CallIpc AUDIT_IPC_RECV 7 4 0] in
  map ev_type (secmon_dump_log 3 (foldl (flip exec) (secmon_init 0) cs))
    = [AUDIT_CAP_CREATE; AUDIT_POLICY_DENY; AUDIT_IPC_RECV].
Proof.
  intros cs. rewrite (proj2 (audit_log_append_only 0 3 cs ltac:(simpl; lia))).
  vm_compute. reflexivity.
Defined.
