(* ===== verification/Cap.v ===== *)
(** * The capability table ([kernel/cap.c], [include/kernel/cap.h])

    The trusted core of the security model: a flat table of
    [CAP_TABLE_SIZE] tokens, scanned linearly.  Tokens form a forest through
    their [parent] field; [cap_derive] adds a leaf with fewer rights,
    [cap_revoke] removes a token and cascades to the tokens derived from it,
    [cap_release] drops a reference and walks up the parents.

    [cap_revoke] and [cap_release] are recursive in the code; the model gives
    them fuel and shows that [CAP_TABLE_SIZE + 1] is always enough, because
    every recursive call follows the invalidation of a live slot. *)

From S2P Require Import Prelude Secmon.

(** ** Data ([cap.h]) *)

Inductive cap_type : Set :=
| CAP_TYPE_NULL | CAP_TYPE_MEMORY | CAP_TYPE_PORT | CAP_TYPE_SERVICE
| CAP_TYPE_DEVICE | CAP_TYPE_FILE | CAP_TYPE_TASK | CAP_TYPE_DISPLAY
| CAP_TYPE_IRQLINE.

Definition cap_type_num (t : cap_type) : Z :=
  match t with
  | CAP_TYPE_NULL => 0 | CAP_TYPE_MEMORY => 1 | CAP_TYPE_PORT => 2
  | CAP_TYPE_SERVICE => 3 | CAP_TYPE_DEVICE => 4 | CAP_TYPE_FILE => 5
  | CAP_TYPE_TASK => 6 | CAP_TYPE_DISPLAY => 7 | CAP_TYPE_IRQLINE => 8
  end.

Definition CAP_RIGHT_READ : Z := 0x01.
Definition CAP_RIGHT_WRITE : Z := 0x02.
Definition CAP_RIGHT_GRANT : Z := 0x10.
Definition CAP_RIGHT_MANAGE : Z := 0x40.
Definition CAP_RIGHT_ALL : Z := 0x7F.

Definition CAP_INVALID_ID : Z := 0.
Definition CAP_TABLE_SIZE : nat := 4096.

(** The managed resource: null, or the object a subsystem registers. *)
Inductive object : Set :=
| ONull
| OPort (slot : nat)
| OService (slot : nat)
| OAddr (addr : Z).

Record cap := Cap {
  cap_id : Z;
  cap_ty : cap_type;
  cap_rights : Z;
  cap_object : object;
  cap_parent : Z;
  cap_ref : Z;
  cap_owner : Z;
  cap_valid : bool
}.

Definition cap_zero : cap := Cap 0 CAP_TYPE_NULL 0 ONull 0 0 0 false.

(** The static variables of [cap.c] and the monitor they report to. *)
Record cap_st := CapSt {
  cap_table : list cap;
  cap_next_id : Z;
  cap_active_count : Z;
  cap_sec : secmon
}.

(** ** Updates of single fields *)

Definition set_ref (r : Z) (c : cap) : cap :=
  Cap (cap_id c) (cap_ty c) (cap_rights c) (cap_object c) (cap_parent c) r (cap_owner c) (cap_valid c).
Definition set_owner (o : Z) (c : cap) : cap :=
  Cap (cap_id c) (cap_ty c) (cap_rights c) (cap_object c) (cap_parent c) (cap_ref c) o (cap_valid c).
(** [valid = false; object = NULL] *)
Definition invalidate (c : cap) : cap :=
  Cap (cap_id c) (cap_ty c) (cap_rights c) ONull (cap_parent c) (cap_ref c) (cap_owner c) false.

Definition put_slot (i : nat) (c : cap) (s : cap_st) : cap_st :=
  CapSt (<[i := c]> (cap_table s)) (cap_next_id s) (cap_active_count s) (cap_sec s).
Definition add_active (d : Z) (s : cap_st) : cap_st :=
  CapSt (cap_table s) (cap_next_id s) (u32 (cap_active_count s + d)) (cap_sec s).
Definition audit (t : audit_event_type) (a c d0 d1 : Z) (s : cap_st) : cap_st :=
  CapSt (cap_table s) (cap_next_id s) (cap_active_count s) (secmon_audit_cap t a c d0 d1 (cap_sec s)).

(** ** Operations *)

Definition alloc_slot (s : cap_st) : option nat :=
  find_idx (fun c => negb (cap_valid c)) (cap_table s).

(** [_next_id]: post-increment that skips 0. *)
Definition next_id (s : cap_st) : Z * cap_st :=
  let id := cap_next_id s in
  let n := u32 (id + 1) in
  (id, CapSt (cap_table s) (if n =? 0 then 1 else n) (cap_active_count s) (cap_sec s)).

Definition cap_table_init (sec : secmon) : cap_st :=
  CapSt (replicate CAP_TABLE_SIZE cap_zero) 1 0 sec.

(** [cap_get]: the slot of a live token and its contents. *)
Definition cap_get (id : Z) (s : cap_st) : option (nat * cap) :=
  if id =? CAP_INVALID_ID then None
  else find_slot (fun c => cap_valid c && (cap_id c =? id)) (cap_table s).

Definition cap_check (id required : Z) (s : cap_st) : bool :=
  match cap_get id s with
  | None => false
  | Some (_, c) => cap_rights c .& required =? required
  end.

Definition cap_create (type : cap_type) (rights : Z) (obj : object) (owner_tid : Z)
    (s : cap_st) : Z * cap_st :=
  match alloc_slot s with
  | None => (CAP_INVALID_ID, s)
  | Some i =>
      let '(id, s) := next_id s in
      let s := put_slot i (Cap id type rights obj CAP_INVALID_ID 1 owner_tid true) s in
      let s := add_active 1 s in
      (id, audit AUDIT_CAP_CREATE owner_tid id (cap_type_num type) rights s)
  end.

Definition cap_addref (id : Z) (s : cap_st) : cap_st :=
  match cap_get id s with
  | None => s
  | Some (i, c) => put_slot i (set_ref (u32 (cap_ref c + 1)) c) s
  end.

Definition cap_derive (parent_id reduced_rights : Z) (s : cap_st) : Z * cap_st :=
  match cap_get parent_id s with
  | None => (CAP_INVALID_ID, s)
  | Some (_, parent) =>
      if negb (reduced_rights .&~ cap_rights parent =? 0) then
        (CAP_INVALID_ID,
         audit AUDIT_POLICY_DENY (cap_owner parent) parent_id reduced_rights 0 s)
      else if cap_rights parent .& CAP_RIGHT_MANAGE =? 0 then (CAP_INVALID_ID, s)
      else
        match alloc_slot s with
        | None => (CAP_INVALID_ID, s)
        | Some i =>
            let '(id, s) := next_id s in
            let s := put_slot i (Cap id (cap_ty parent) reduced_rights (cap_object parent)
                                     parent_id 1 (cap_owner parent) true) s in
            let s := cap_addref parent_id s in
            let s := add_active 1 s in
            (id, audit AUDIT_CAP_DERIVE (cap_owner parent) id parent_id reduced_rights s)
        end
  end.

Fixpoint cap_release_rec (fuel : nat) (id : Z) (s : cap_st) : option cap_st :=
  match fuel with
  | O => None
  | S fuel =>
      match cap_get id s with
      | None => Some s
      | Some (i, c) =>
          if 1 <? cap_ref c then Some (put_slot i (set_ref (cap_ref c - 1) c) s)
          else
            let s := put_slot i (invalidate (set_ref 0 c)) s in
            s ← (if cap_parent c =? CAP_INVALID_ID then Some s
                 else cap_release_rec fuel (cap_parent c) s);
            Some (add_active (-1) s)
      end
  end.

(** The loop [for (i = 0; i < CAP_TABLE_SIZE; i++)] of [cap_revoke] over the
    indices [idxs]; the table is read again at every index. *)
Fixpoint revoke_children (revoke : Z -> cap_st -> option (bool * cap_st)) (id : Z)
    (idxs : list nat) (s : cap_st) : option cap_st :=
  match idxs with
  | [] => Some s
  | i :: idxs =>
      match cap_table s !! i with
      | Some c =>
          if cap_valid c && (cap_parent c =? id) then
            '(_, s) ← revoke (cap_id c) s;
            revoke_children revoke id idxs s
          else revoke_children revoke id idxs s
      | None => revoke_children revoke id idxs s
      end
  end.

Definition cap_fuel : nat := S CAP_TABLE_SIZE.

Definition cap_release (id : Z) (s : cap_st) : cap_st :=
  default s (cap_release_rec cap_fuel id s).

Fixpoint cap_revoke_rec (fuel : nat) (id : Z) (s : cap_st) : option (bool * cap_st) :=
  match fuel with
  | O => None
  | S fuel =>
      match cap_get id s with
      | None => Some (false, s)
      | Some (i, c) =>
          let s := audit AUDIT_CAP_REVOKE (cap_owner c) id 0 0 s in
          let s := put_slot i (invalidate c) s in
          let s := add_active (-1) s in
          let s := if cap_parent c =? CAP_INVALID_ID then s
                   else cap_release (cap_parent c) s in
          s ← revoke_children (cap_revoke_rec fuel) id (seq 0 CAP_TABLE_SIZE) s;
          Some (true, s)
      end
  end.

Definition cap_revoke (id : Z) (s : cap_st) : bool * cap_st :=
  default (false, s) (cap_revoke_rec cap_fuel id s).

Definition cap_transfer (id new_owner_tid : Z) (s : cap_st) : Z * cap_st :=
  match cap_get id s with
  | None => (CAP_INVALID_ID, s)
  | Some (i, c) =>
      if cap_rights c .& CAP_RIGHT_GRANT =? 0 then (CAP_INVALID_ID, s)
      else
        let old := cap_owner c in
        let s := put_slot i (set_owner new_owner_tid c) s in
        (id, audit AUDIT_CAP_TRANSFER old id new_owner_tid 0 s)
  end.

Definition cap_count (s : cap_st) : Z := cap_active_count s.

(** Keep the table size folded in proofs; [vm_compute] still evaluates it. *)
#[global] Opaque CAP_TABLE_SIZE.

(** ** The token forest *)

Definition live (s : cap_st) (i : nat) (c : cap) : Prop :=
  cap_table s !! i = Some c /\ cap_valid c = true.

Definition has (s : cap_st) (x : Z) : Prop := exists i c, live s i c /\ cap_id c = x.

(** [y] is the identifier of a live token derived from [p]. *)
Definition child (s : cap_st) (p y : Z) : Prop :=
  exists i c, live s i c /\ cap_parent c = p /\ cap_id c = y.

(** [desc s a x]: [x] is live and is [a] or derived from [a] in some steps. *)
Inductive desc (s : cap_st) : Z -> Z -> Prop :=
| desc_self x : has s x -> desc s x x
| desc_child p y x : child s p y -> desc s y x -> desc s p x.

Definition uniq (s : cap_st) : Prop :=
  forall i j c d, live s i c -> live s j d -> cap_id c = cap_id d -> i = j.

(** The same token, up to its reference count. *)
Definition same_tok (c c' : cap) : Prop := c' = set_ref (cap_ref c') c.

(** [s'] has only tokens of [s], in the same slots. *)
Definition shrinks (s s' : cap_st) : Prop :=
  length (cap_table s') = length (cap_table s) /\
  forall i c', live s' i c' -> exists c, live s i c /\ same_tok c c'.

Definition live_count (s : cap_st) : nat := count_if cap_valid (cap_table s).

(** ** Lemmas: lookups and single updates *)

Lemma same_tok_refl c : same_tok c c.
Proof. by destruct c. Qed.
Lemma same_tok_trans a b c : same_tok a b -> same_tok b c -> same_tok a c.
Proof. unfold same_tok. intros -> ->. done. Qed.
Lemma same_tok_fields c c' : same_tok c c' ->
  cap_id c' = cap_id c /\ cap_parent c' = cap_parent c /\ cap_rights c' = cap_rights c /\
  cap_valid c' = cap_valid c /\ cap_ty c' = cap_ty c /\ cap_object c' = cap_object c /\
  cap_owner c' = cap_owner c.
Proof. intros ->. done. Qed.

Lemma shrinks_refl s : shrinks s s.
Proof. split; [done|]. intros i c H. exists c. split; [done|apply same_tok_refl]. Qed.
Lemma shrinks_trans s1 s2 s3 : shrinks s1 s2 -> shrinks s2 s3 -> shrinks s1 s3.
Proof.
  intros [L1 H1] [L2 H2]. split; [congruence|]. intros i c3 H.
  destruct (H2 _ _ H) as (c2 & Hc2 & E2). destruct (H1 _ _ Hc2) as (c1 & Hc1 & E1).
  exists c1. split; [done|]. by eapply same_tok_trans.
Qed.

Lemma shrinks_uniq s s' : shrinks s s' -> uniq s -> uniq s'.
Proof.
  intros [_ H] Hu i j c d Hc Hd E.
  destruct (H _ _ Hc) as (c0 & Hc0 & Ec). destruct (H _ _ Hd) as (d0 & Hd0 & Ed).
  apply same_tok_fields in Ec as [Ec _], Ed as [Ed _]. eapply Hu; eauto. congruence.
Qed.

Lemma shrinks_has s s' x : shrinks s s' -> has s' x -> has s x.
Proof.
  intros [_ H] (i & c & Hc & <-). destruct (H _ _ Hc) as (c0 & Hc0 & E).
  apply same_tok_fields in E as [E _]. exists i, c0. done.
Qed.
Lemma shrinks_child s s' p y : shrinks s s' -> child s' p y -> child s p y.
Proof.
  intros [_ H] (i & c & Hc & <- & <-). destruct (H _ _ Hc) as (c0 & Hc0 & E).
  apply same_tok_fields in E as (E & E2 & _). exists i, c0. done.
Qed.
Lemma shrinks_desc s s' a x : shrinks s s' -> desc s' a x -> desc s a x.
Proof.
  intros H. induction 1; [apply desc_self; by eapply shrinks_has|].
  eapply desc_child; [|done]. by eapply shrinks_child.
Qed.

#[export] Hint Resolve shrinks_refl shrinks_trans shrinks_uniq shrinks_has
  shrinks_child shrinks_desc same_tok_refl : aether.

Lemma child_has s p y : child s p y -> has s y.
Proof. intros (i & c & H & _ & E). by exists i, c. Qed.
Lemma desc_has s a x : desc s a x -> has s x.
Proof. by induction 1. Qed.
Lemma desc_trans s a b c : desc s a b -> desc s b c -> desc s a c.
Proof. induction 1; [done|]. intros H2. eapply desc_child; eauto. Qed.
Lemma desc_snoc s a b y : desc s a b -> child s b y -> desc s a y.
Proof.
  intros H Hc. eapply desc_trans; [done|]. eapply desc_child; [done|].
  apply desc_self. by eapply child_has.
Qed.

Lemma cap_get_Some s id i c : cap_get id s = Some (i, c) ->
  live s i c /\ cap_id c = id /\ id <> 0.
Proof.
  unfold cap_get. case_if; [done|]. intros [? ?]%find_slot_Some. bools. done.
Qed.

Lemma cap_get_live s id i c :
  uniq s -> live s i c -> cap_id c = id -> id <> 0 -> cap_get id s = Some (i, c).
Proof.
  intros Hu Hl E H0. unfold cap_get. rewrite (proj2 (Z.eqb_neq id _)) by done.
  apply find_slot_unique; [apply Hl| |].
  - rewrite (proj2 Hl), E. apply Z.eqb_refl.
  - intros j d Hd ?. bools. eapply Hu; [done|done|congruence].
Qed.

Lemma cap_get_None s id : cap_get id s = None -> id <> 0 -> ~ has s id.
Proof.
  intros Hg H0 (i & c & [Hl Hv] & E). unfold cap_get in Hg.
  rewrite (proj2 (Z.eqb_neq id _)) in Hg by done.
  apply find_slot_None with (i := i) (x := c) in Hg; [|done].
  by rewrite Hv, E, Z.eqb_refl in Hg.
Qed.

Lemma cap_get_not_has s id : ~ has s id -> cap_get id s = None.
Proof.
  intros Hn. destruct (cap_get id s) as [[i c]|] eqn:E; [|done].
  apply cap_get_Some in E as (Hl & E & _). destruct Hn. by exists i, c.
Qed.

Lemma live_put_slot s i c j d :
  (i < length (cap_table s))%nat ->
  live (put_slot i c s) j d <->
  (j = i /\ d = c /\ cap_valid c = true) \/ (j <> i /\ live s j d).
Proof.
  intros Hi. unfold live; simpl. rewrite lookup_put by done.
  split; [intros [[[-> ->]|[? ?]] ?]; auto|intros [(-> & -> & ?)|[? [? ?]]]; auto].
Qed.

Lemma live_lt s i c : live s i c -> (i < length (cap_table s))%nat.
Proof. intros [H _]. by apply lookup_lt_Some in H. Qed.

(** A live slot rewritten to the same token with another count. *)
Lemma shrinks_put_ref s i c r :
  live s i c -> shrinks s (put_slot i (set_ref r c) s).
Proof.
  intros Hl. split; [apply length_insert|]. intros j d Hd.
  apply live_put_slot in Hd; [|by eapply live_lt].
  destruct Hd as [(-> & -> & _)|[_ Hd]]; [by exists c|by exists d; eauto with aether].
Qed.

Lemma shrinks_put_invalid s i c d :
  live s i c -> cap_valid d = false -> shrinks s (put_slot i d s).
Proof.
  intros Hl Hv. split; [apply length_insert|]. intros j e Hd.
  apply live_put_slot in Hd; [|by eapply live_lt].
  destruct Hd as [(-> & -> & ?)|[_ Hd]]; [congruence|by exists e; eauto with aether].
Qed.

Lemma live_count_put s i c d :
  live s i c ->
  (live_count (put_slot i d s) + 1 = live_count s + (if cap_valid d then 1 else 0))%nat.
Proof.
  intros [Hl Hv]. unfold live_count; simpl.
  pose proof (count_if_insert cap_valid (cap_table s) i c d Hl) as H.
  rewrite Hv in H. lia.
Qed.

Lemma count_if_mono (l l' : list cap) :
  length l = length l' ->
  (forall i c', l' !! i = Some c' -> cap_valid c' = true ->
     exists c, l !! i = Some c /\ cap_valid c = true) ->
  (count_if cap_valid l' <= count_if cap_valid l)%nat.
Proof.
  revert l'. induction l as [|a l IH]; intros [|b l'] Hlen H; simpl in *; try lia.
  assert (count_if cap_valid l' <= count_if cap_valid l)%nat.
  { apply IH; [lia|]. intros i. apply (H (S i)). }
  destruct (cap_valid b) eqn:Hb; [|lia].
  destruct (H 0%nat b eq_refl Hb) as (c & [= <-] & ->). lia.
Qed.

Lemma shrinks_count s s' : shrinks s s' -> (live_count s' <= live_count s)%nat.
Proof.
  intros [Hl H]. apply count_if_mono; [done|]. intros i c' Hc Hv.
  destruct (H i c' (conj Hc Hv)) as (c & [? ?] & _). eauto.
Qed.

(** Only the table matters for the forest. *)
Lemma shrinks_table s s' : cap_table s' = cap_table s -> shrinks s s'.
Proof.
  intros E. split; [by rewrite E|]. intros i c [Hl Hv]. rewrite E in Hl.
  exists c. split; [done|apply same_tok_refl].
Qed.

(** ** [cap_release] *)

(** What a release may change: tokens that are neither [p] nor one of its
    ancestors are untouched, nothing new appears. *)
Record released (s : cap_st) (p : Z) (s' : cap_st) : Prop := {
  rel_shrinks : shrinks s s';
  rel_frame : forall i c, live s i c -> ~ desc s (cap_id c) p -> live s' i c;
  rel_next : cap_next_id s' = cap_next_id s;
  rel_acct : forall k, cap_active_count s = u32 (Z.of_nat (live_count s) + k) ->
      cap_active_count s' = u32 (Z.of_nat (live_count s') + k)
}.

Lemma u32_add_l a b : u32 (u32 a + b) = u32 (a + b).
Proof. unfold u32. by rewrite Zplus_mod_idemp_l. Qed.

Lemma release_spec fuel p s :
  (live_count s < fuel)%nat ->
  exists s', cap_release_rec fuel p s = Some s' /\ released s p s'.
Proof.
  revert p s. induction fuel as [|fuel IH]; intros p s Hf; [lia|]. simpl.
  destruct (cap_get p s) as [[i c]|] eqn:Hg.
  2:{ exists s. split; [done|]. split; auto with aether. }
  apply cap_get_Some in Hg as (Hl & Hid & Hp0).
  assert (forall j d, live s j d -> ~ desc s (cap_id d) p -> j <> i) as Hne.
  { intros j d Hd Hn ->. apply Hn. destruct Hl as [Hl Hv], Hd as [Hd _].
    simplify_eq. apply desc_self. by exists i, c. }
  destruct (1 <? cap_ref c) eqn:Hr.
  { eexists. split; [done|]. split; [by apply shrinks_put_ref| |done|].
    - intros j d Hd Hn. apply live_put_slot; [by eapply live_lt|]. eauto.
    - intros k Hk. pose proof (live_count_put s i c (set_ref (cap_ref c - 1) c) Hl) as E.
      simpl in E. rewrite (proj2 Hl) in E. simpl. rewrite Hk. f_equal. lia. }
  set (s1 := put_slot i (invalidate (set_ref 0 c)) s).
  assert (shrinks s s1) as Hs1 by (by eapply shrinks_put_invalid).
  pose proof (live_count_put s i c (invalidate (set_ref 0 c)) Hl) as Hcnt.
  fold s1 in Hcnt. simpl in Hcnt.
  assert (exists s2, (if cap_parent c =? CAP_INVALID_ID then Some s1
            else cap_release_rec fuel (cap_parent c) s1) = Some s2 /\
          shrinks s1 s2 /\ cap_next_id s2 = cap_next_id s1 /\
          (forall j d, live s1 j d -> ~ desc s (cap_id d) p -> live s2 j d) /\
          (forall k, cap_active_count s1 = u32 (Z.of_nat (live_count s1) + k) ->
             cap_active_count s2 = u32 (Z.of_nat (live_count s2) + k)))
    as (s2 & -> & Hs2 & Hn2 & Hfr & Hac).
  { case_if; [exists s1; auto with aether|].
    destruct (IH (cap_parent c) s1 ltac:(lia)) as (s2 & E & [R1 R2 R3 R4]).
    exists s2. split_and!; auto. intros j d Hd Hn. apply R2; [done|]. intros Hdd.
    apply Hn. eapply desc_snoc; [by eapply shrinks_desc|]. by exists i, c. }
  eexists. split; [done|]. split; simpl.
  - eapply shrinks_trans; [done|]. eapply shrinks_trans; [done|]. by apply shrinks_table.
  - intros j d Hd Hn. apply Hfr; [|done]. apply live_put_slot; [by eapply live_lt|]. eauto.
  - done.
  - intros k Hk. rewrite (Hac (k + 1)); [rewrite u32_add_l; f_equal; unfold live_count; simpl; lia|].
    simpl. rewrite Hk. f_equal. lia.
Qed.

(** The table is finite, so the fuel of [cap_release] never runs out. *)
Lemma cap_release_released p s :
  length (cap_table s) = CAP_TABLE_SIZE -> released s p (cap_release p s).
Proof.
  intros Hlen. destruct (release_spec cap_fuel p s) as (s' & E & H).
  - pose proof (count_if_le cap_valid (cap_table s)). unfold cap_fuel, live_count. lia.
  - unfold cap_release. by rewrite E.
Qed.

(** Tokens are derived after their parent, so identifiers grow downwards. *)
Definition acyc (s : cap_st) : Prop :=
  forall i c, live s i c -> cap_parent c < cap_id c /\ 0 < cap_id c.

Lemma shrinks_acyc s s' : shrinks s s' -> acyc s -> acyc s'.
Proof.
  intros [_ H] Ha i c Hc. destruct (H _ _ Hc) as (c0 & Hc0 & E).
  apply same_tok_fields in E as (-> & -> & _). eauto.
Qed.
#[export] Hint Resolve shrinks_acyc : aether.

Lemma desc_le s a x : acyc s -> desc s a x -> a <= x.
Proof.
  intros Ha. induction 1 as [|p y x (i & c & Hl & <- & <-) _ IH]; [lia|].
  destruct (Ha _ _ Hl). lia.
Qed.

(** *** Exactly what a release does

    It walks up from [p]: a token that holds its last reference is freed and its
    parent released in turn; the first token with more references loses one, and
    the walk ends there, at the root, or at a token that is gone. *)

Inductive frees (s : cap_st) : Z -> Z -> Prop :=
| frees_self p i c : cap_get p s = Some (i, c) -> cap_ref c <= 1 -> frees s p p
| frees_up p i c x : cap_get p s = Some (i, c) -> cap_ref c <= 1 -> frees s (cap_parent c) x -> frees s p x.

Inductive drops (s : cap_st) : Z -> Z -> Prop :=
| drops_self p i c : cap_get p s = Some (i, c) -> 1 < cap_ref c -> drops s p p
| drops_up p i c x : cap_get p s = Some (i, c) -> cap_ref c <= 1 -> drops s (cap_parent c) x -> drops s p x.

Definition one_ref_less (c : cap) : cap := set_ref (cap_ref c - 1) c.

Record release_exact (s : cap_st) (p : Z) (s' : cap_st) : Prop := {
  re_shrinks : shrinks s s';
  re_frees x : frees s p x -> ~ has s' x;
  re_drops j d : live s j d -> drops s p (cap_id d) -> live s' j (one_ref_less d);
  re_frame j d : live s j d -> ~ frees s p (cap_id d) -> ~ drops s p (cap_id d) -> live s' j d
}.

Lemma cap_get_eq s s' x :
  uniq s -> uniq s' -> (forall i c, cap_id c = x -> live s' i c <-> live s i c) -> cap_get x s' = cap_get x s.
Proof.
  intros Hu Hu' Hext. destruct (decide (x = 0)) as [->|Hx]; [done|].
  destruct (cap_get x s) as [[i c]|] eqn:E.
  - apply cap_get_Some in E as (Hl & E & _). apply cap_get_live; [done| |done|done]. by apply Hext.
  - apply cap_get_not_has. intros (i & c & Hl & Ec). apply (cap_get_None s x E Hx). exists i, c.
    split; [by apply Hext|done].
Qed.

(** The walk only meets identifiers up to its start. *)
Lemma walk_le s p x : acyc s -> frees s p x \/ drops s p x -> x <= p.
Proof.
  intros Ha [H|H]; induction H as [p i c Hg|p i c x Hg _ _ IH]; try lia;
    apply cap_get_Some in Hg as (Hl & <- & _); destruct (Ha _ _ Hl); lia.
Qed.

Lemma walk_transfer s s' p x :
  acyc s -> (forall y, y <= p -> cap_get y s' = cap_get y s) ->
  (frees s p x -> frees s' p x) /\ (drops s p x -> drops s' p x).
Proof.
  intros Ha Heq.
  split; intros H; revert Heq; induction H as [p i c Hg Hr|p i c x Hg Hr _ IH]; intros Heq;
    pose proof Hg as (Hl & Hid & _)%cap_get_Some; destruct (Ha _ _ Hl) as [Hlt _]; rewrite <- (Heq p) in Hg by lia.
  - by eapply frees_self.
  - eapply frees_up; [done|done|]. apply IH. intros y Hy. apply Heq. lia.
  - by eapply drops_self.
  - eapply drops_up; [done|done|]. apply IH. intros y Hy. apply Heq. lia.
Qed.

Lemma cap_get_put_invalid s i c d y :
  uniq s -> live s i c -> cap_valid d = false -> y <> cap_id c -> cap_get y (put_slot i d s) = cap_get y s.
Proof.
  intros Hu Hl Hv Hy. apply cap_get_eq; [done| |].
  - eapply shrinks_uniq; [|done]. by eapply shrinks_put_invalid.
  - intros j e He. rewrite live_put_slot by (by eapply live_lt). split.
    + intros [(_ & -> & ?)|[_ Hd]]; [congruence|done].
    + intros Hd. right. split; [|done]. intros ->. destruct Hd as [Hd _], Hl as [Hl _]. simplify_eq.
Qed.

Lemma frees_inv s p i c x :
  cap_get p s = Some (i, c) -> frees s p x -> cap_ref c <= 1 /\ (x = p \/ frees s (cap_parent c) x).
Proof. intros Hg Hf. destruct Hf; simplify_eq; auto. Qed.
Lemma drops_inv s p i c x :
  cap_get p s = Some (i, c) -> drops s p x -> (x = p /\ 1 < cap_ref c) \/ (cap_ref c <= 1 /\ drops s (cap_parent c) x).
Proof. intros Hg Hf. destruct Hf; simplify_eq; auto. Qed.

Lemma release_none s p : cap_get p s = None -> release_exact s p s.
Proof.
  intros Hg. split; [by apply shrinks_refl| | |done].
  - intros x Hf. inversion Hf; congruence.
  - intros j d _ Hd. inversion Hd; congruence.
Qed.

Lemma release_exact_spec fuel p s s' :
  uniq s -> acyc s -> cap_release_rec fuel p s = Some s' -> release_exact s p s'.
Proof.
  revert p s s'. induction fuel as [|fuel IH]; intros p s s' Hu Ha; [done|]. cbn [cap_release_rec].
  destruct (cap_get p s) as [[i c]|] eqn:Hg.
  2: { intros [= <-]. by apply release_none. }
  pose proof Hg as (Hl & Hid & Hp0)%cap_get_Some. destruct (Ha _ _ Hl) as [Hlt _].
  assert (forall j d, live s j d -> cap_id d = p -> j = i /\ d = c) as Hsame.
  { intros j d Hd E. assert (j = i) as -> by (eapply Hu; eauto; congruence).
    destruct Hd as [Hd _], Hl as [Hl _]. by simplify_eq. }
  destruct (Z.ltb_spec 1 (cap_ref c)) as [Hr|Hr].
  - intros [= <-]. assert (forall x, ~ frees s p x) as Hnf.
    { intros x Hf. destruct (frees_inv _ _ _ _ _ Hg Hf). lia. }
    assert (forall x, drops s p x -> x = p) as Hdp.
    { intros x Hd. destruct (drops_inv _ _ _ _ _ Hg Hd) as [[? _]|[? _]]; [done|lia]. }
    split; [by apply shrinks_put_ref| | |].
    + intros x Hf. by destruct (Hnf x).
    + intros j d Hd Hdr%Hdp. destruct (Hsame j d Hd Hdr) as [-> ->].
      apply live_put_slot; [by eapply live_lt|]. left. split_and!; [done..|apply Hl].
    + intros j d Hd _ Hnd. apply live_put_slot; [by eapply live_lt|]. right. split; [|done]. intros ->.
      apply Hnd. destruct Hd as [Hd _], Hl as [Hl0 _]. simplify_eq. by eapply drops_self.
  - set (s1 := put_slot i (invalidate (set_ref 0 c)) s).
    assert (shrinks s s1) as Hs1 by (by eapply shrinks_put_invalid).
    assert (forall y, y <= cap_parent c -> cap_get y s1 = cap_get y s) as Hget.
    { intros y Hy. eapply cap_get_put_invalid; [done|done|done|lia]. }
    assert (forall j d, live s j d -> cap_id d <> p -> live s1 j d) as Hlive1.
    { intros j d Hd Hne. apply live_put_slot; [by eapply live_lt|]. right. split; [|done]. intros ->.
      destruct Hd as [Hd _], Hl as [Hl0 _]. simplify_eq. }
    assert (~ has s1 p) as Hgone.
    { intros (j & d & Hd & E). apply live_put_slot in Hd; [|by eapply live_lt].
      destruct Hd as [(_ & -> & ?)|[Hji Hd]]; [done|]. by destruct (Hsame j d Hd E). }
    pose proof (shrinks_acyc _ _ Hs1 Ha) as Ha1.
    assert (forall s2, release_exact s1 (cap_parent c) s2 -> release_exact s p s2) as Hstep.
    { intros s2 [Hs2 F1 F2 F3]. split; [by eapply shrinks_trans| | |].
      - intros x Hf. destruct (frees_inv _ _ _ _ _ Hg Hf) as [_ [->|Hf']].
        + intros Hh. apply Hgone. eauto with aether.
        + apply F1. by apply (walk_transfer s s1 (cap_parent c) x Ha Hget).
      - intros j d Hd Hdr. destruct (drops_inv _ _ _ _ _ Hg Hdr) as [[_ ?]|[_ Hd']]; [lia|].
        pose proof (walk_le s _ _ Ha (or_intror Hd')). apply F2; [apply Hlive1; [done|lia]|].
        by apply (walk_transfer s s1 (cap_parent c) _ Ha Hget).
      - intros j d Hd Hnf Hnd. apply F3.
        + apply Hlive1; [done|]. intros E. apply Hnf. rewrite E. by eapply frees_self.
        + intros Hf. apply Hnf. eapply frees_up; [done|done|].
          apply (walk_transfer s1 s (cap_parent c) _ Ha1); [intros; symmetry; auto|done].
        + intros Hd'. apply Hnd. eapply drops_up; [done|done|].
          apply (walk_transfer s1 s (cap_parent c) _ Ha1); [intros; symmetry; auto|done]. }
    destruct (Z.eqb_spec (cap_parent c) CAP_INVALID_ID) as [E0|_].
    + cbn [mbind option_bind]. intros [= <-]. destruct (Hstep s1) as [? ? ? ?]; [apply release_none; by rewrite E0|]. by split.
    + destruct (cap_release_rec fuel (cap_parent c) s1) as [s2|] eqn:E; [|done]. cbn [mbind option_bind]. intros [= <-].
      apply IH in E; [|by eapply shrinks_uniq|done]. destruct (Hstep s2 E) as [? ? ? ?]. by split.
Qed.

(** ** [cap_revoke] *)

Record revoked (s : cap_st) (id : Z) (s' : cap_st) : Prop := {
  rv_shrinks : shrinks s s';
  rv_gone : forall x, desc s id x -> ~ has s' x;
  rv_frame : forall i c, live s i c -> ~ desc s id (cap_id c) ->
      ~ desc s (cap_id c) id -> live s' i c;
  rv_exact : forall i c, live s i c -> cap_id c = id -> forall j d, live s j d -> ~ desc s id (cap_id d) ->
      (frees s (cap_parent c) (cap_id d) -> ~ has s' (cap_id d)) /\
      (drops s (cap_parent c) (cap_id d) -> live s' j (one_ref_less d)) /\
      (~ frees s (cap_parent c) (cap_id d) -> ~ drops s (cap_parent c) (cap_id d) -> live s' j d);
  rv_next : cap_next_id s' = cap_next_id s;
  rv_acct : cap_active_count s = u32 (Z.of_nat (live_count s)) ->
      cap_active_count s' = u32 (Z.of_nat (live_count s'))
}.

(** A child of a token that is gone has no live ancestor but itself. *)
Lemma orphan_root s id y a :
  uniq s -> child s id y -> ~ has s id -> has s a -> desc s a y -> a = y.
Proof.
  intros Hu Hc Hn Ha Hd. revert Ha.
  induction Hd as [x Hx|p z x Hz Hd IH]; intros Ha; [done|].
  specialize (IH Hc (child_has _ _ _ Hz)). subst z.
  destruct Hz as (i & c & Hl & Hp & E), Hc as (j & d & Hl' & Hp' & E').
  assert (i = j) as -> by (eapply Hu; eauto; congruence).
  destruct Hl as [Hl _], Hl' as [Hl' _]. simplify_eq. done.
Qed.

Section orphan.
Context (s s1 : cap_st) (id y : Z).
Hypothesis (Hu : uniq s) (Hc : child s id y) (Hn : ~ has s id) (Hr : revoked s y s1).

Lemma orphan_survive i c : live s i c -> ~ desc s y (cap_id c) -> live s1 i c.
Proof.
  intros Hl Hd. apply (rv_frame _ _ _ Hr); [done|done|]. intros Hd2.
  apply Hd. assert (has s (cap_id c)) as Hh by (by exists i, c).
  rewrite (orphan_root s id y (cap_id c)) in * by done. by apply desc_self.
Qed.

Lemma orphan_desc a x : desc s a x -> ~ desc s y x -> desc s1 a x.
Proof.
  intros Hd. induction Hd as [x Hx|p z x Hz Hd IH]; intros Hy.
  - destruct Hx as (i & c & Hl & <-). apply desc_self. exists i, c.
    split; [|done]. by apply orphan_survive.
  - eapply desc_child; [|by apply IH]. destruct Hz as (i & c & Hl & <- & <-).
    exists i, c. split; [|done]. apply orphan_survive; [done|]. intros Hz.
    apply Hy. by eapply desc_trans.
Qed.
End orphan.

Section revoke_loop.
Context (rev : Z -> cap_st -> option (bool * cap_st)) (fuel : nat) (id : Z).
Hypothesis Hrev : forall y s, uniq s -> acyc s -> length (cap_table s) = CAP_TABLE_SIZE ->
  (live_count s < fuel)%nat -> has s y ->
  exists s', rev y s = Some (true, s') /\ revoked s y s'.

Lemma revoke_children_spec idxs s :
  uniq s -> acyc s -> length (cap_table s) = CAP_TABLE_SIZE ->
  (live_count s < fuel)%nat -> ~ has s id ->
  exists s', revoke_children rev id idxs s = Some s' /\ shrinks s s' /\
    (forall i c x, i ∈ idxs -> live s i c -> cap_parent c = id ->
       desc s (cap_id c) x -> ~ has s' x) /\
    (forall i c, live s i c ->
       (forall j d, live s j d -> cap_parent d = id -> ~ desc s (cap_id d) (cap_id c)) ->
       live s' i c) /\
    cap_next_id s' = cap_next_id s /\
    (cap_active_count s = u32 (Z.of_nat (live_count s)) ->
     cap_active_count s' = u32 (Z.of_nat (live_count s'))).
Proof.
  revert s. induction idxs as [|i idxs IH]; intros s Hu Ha Hlen Hf Hn; simpl.
  { exists s. split_and!; eauto with aether. intros i c x Hi. by apply elem_of_nil in Hi. }
  destruct (cap_table s !! i) as [c0|] eqn:Hi; cycle 1.
  { destruct (IH s) as (s' & -> & Hsh & Hg & Hrest); [done..|]. exists s'.
    split_and!; [done|done| |apply Hrest..]. intros j c x Hj Hl.
    apply elem_of_cons in Hj as [->|Hj]; [|by eapply Hg]. destruct Hl. congruence. }
  destruct (cap_valid c0 && (cap_parent c0 =? id)) eqn:Hc; cycle 1.
  { destruct (IH s) as (s' & -> & Hsh & Hg & Hrest); [done..|]. exists s'.
    split_and!; [done|done| |apply Hrest..]. intros j c x Hj Hl Hp.
    apply elem_of_cons in Hj as [->|Hj]; [|by eapply Hg]. destruct Hl as [Hl Hv].
    simplify_eq. rewrite Hv in Hc. simpl in Hc. by rewrite Z.eqb_refl in Hc. }
  bools. assert (live s i c0) as Hl0 by done.
  assert (child s id (cap_id c0)) as Hch by (by exists i, c0).
  destruct (Hrev (cap_id c0) s) as (s1 & -> & Hr); [done..|by eapply child_has|].
  simpl. pose proof (rv_shrinks _ _ _ Hr) as Hsh1.
  destruct (IH s1) as (s' & E & Hsh & Hg & Hfr & Hnx & Hac); eauto with aether.
  { destruct Hsh1. congruence. }
  { pose proof (shrinks_count _ _ Hsh1). lia. }
  exists s'. split_and!; [done|by eapply shrinks_trans| | | |].
  - intros j d x Hj Hd Hp Hx Hin.
    assert (~ desc s (cap_id c0) x) as Hnx'.
    { intros Hdx. apply (rv_gone _ _ _ Hr x Hdx). by eapply shrinks_has. }
    apply elem_of_cons in Hj as [->|Hj].
    { apply Hnx'. destruct Hd as [Hd _]. by simplify_eq. }
    apply (Hg j d x); [done| |done| |done].
    + eapply orphan_survive; eauto. intros Hy. apply Hnx'. by eapply desc_trans.
    + by eapply orphan_desc.
  - intros j d Hd Hno. apply Hfr.
    + eapply orphan_survive; eauto.
    + intros k e He Hp Hde. destruct Hsh1 as [Hlen1 Hsh1].
      destruct (Hsh1 _ _ He) as (e0 & He0 & Htok). apply same_tok_fields in Htok as (E1 & E2 & _).
      apply (Hno k e0); [done|congruence|]. rewrite <- E1. eapply shrinks_desc; [|done].
      by split.
  - rewrite Hnx. apply Hr.
  - intros Hact. apply Hac. by apply Hr.
Qed.
End revoke_loop.

(** Releasing the parent, when there is one. *)
Lemma release_parent_spec s p :
  length (cap_table s) = CAP_TABLE_SIZE ->
  released s p (if p =? CAP_INVALID_ID then s else cap_release p s).
Proof.
  intros H. case_if; [|by apply cap_release_released]. split; auto with aether.
Qed.

Lemma release_parent_exact s p :
  uniq s -> acyc s -> length (cap_table s) = CAP_TABLE_SIZE ->
  release_exact s p (if p =? CAP_INVALID_ID then s else cap_release p s).
Proof.
  intros Hu Ha Hlen. destruct (Z.eqb_spec p CAP_INVALID_ID) as [->|_]; [by apply release_none|].
  destruct (release_spec cap_fuel p s) as (s' & E & _).
  { pose proof (count_if_le cap_valid (cap_table s)). unfold cap_fuel, live_count. lia. }
  unfold cap_release. rewrite E. by eapply release_exact_spec.
Qed.

(** The tokens outside of the subtree: the slot of [id] is cleared ([s2]), its
    parent released ([s3]), and the cascade leaves them alone ([s']). *)
Lemma revoked_exact s id i c s2 s3 s' :
  uniq s -> acyc s -> live s i c -> cap_id c = id ->
  cap_table s2 = cap_table (put_slot i (invalidate c) s) -> release_exact s2 (cap_parent c) s3 -> shrinks s3 s' ->
  (forall j d, live s3 j d ->
     (forall k e, live s3 k e -> cap_parent e = id -> ~ desc s3 (cap_id e) (cap_id d)) -> live s' j d) ->
  forall i' c', live s i' c' -> cap_id c' = id -> forall j d, live s j d -> ~ desc s id (cap_id d) ->
    (frees s (cap_parent c') (cap_id d) -> ~ has s' (cap_id d)) /\
    (drops s (cap_parent c') (cap_id d) -> live s' j (one_ref_less d)) /\
    (~ frees s (cap_parent c') (cap_id d) -> ~ drops s (cap_parent c') (cap_id d) -> live s' j d).
Proof.
  intros Hu Ha Hl Hid Ht [Hs3 E1 E2 E3] Hs' Hfr i' c' Hl' Hid' j d Hd Hn.
  assert (i' = i) as -> by (eapply Hu; eauto; congruence).
  assert (c' = c) as -> by (destruct Hl' as [Hl' _], Hl as [Hl0 _]; by simplify_eq).
  destruct (Ha _ _ Hl) as [Hlt _].
  assert (shrinks s s2) as Hs2.
  { eapply shrinks_trans; [by eapply (shrinks_put_invalid s i c (invalidate c))|by apply shrinks_table]. }
  pose proof (shrinks_acyc _ _ Hs2 Ha) as Ha2.
  assert (forall y, y <= cap_parent c -> cap_get y s2 = cap_get y s) as Hget.
  { intros y Hy. unfold cap_get. rewrite Ht. apply (cap_get_put_invalid s i c (invalidate c)); [done|done|done|lia]. }
  assert (live s2 j d) as Hd2.
  { unfold live. rewrite Ht. apply (live_put_slot s i (invalidate c)); [by eapply live_lt|]. right. split; [|done].
    intros ->. apply Hn. destruct Hd as [Hd _], Hl as [Hl0 ?]. simplify_eq. apply desc_self. by exists i, c. }
  assert (forall d', cap_id d' = cap_id d -> live s3 j d' -> live s' j d') as Hkeep.
  { intros d' Ed Hd'. apply Hfr; [done|]. intros k e He Hp Hde. apply Hn. apply desc_child with (cap_id e).
    - apply (shrinks_child s s3); [eauto with aether|]. by exists k, e.
    - rewrite <- Ed. eauto with aether. }
  pose proof (walk_transfer s s2 (cap_parent c) (cap_id d) Ha Hget) as [T1 T2].
  pose proof (walk_transfer s2 s (cap_parent c) (cap_id d) Ha2 (fun y Hy => eq_sym (Hget y Hy))) as [T3 T4].
  split_and!.
  - intros Hf Hh. apply (E1 (cap_id d)); eauto with aether.
  - intros Hd'. apply Hkeep; auto.
  - intros Hnf Hnd. apply Hkeep; auto.
Qed.

Lemma revoke_spec fuel id s :
  uniq s -> acyc s -> length (cap_table s) = CAP_TABLE_SIZE ->
  (live_count s < fuel)%nat -> has s id ->
  exists s', cap_revoke_rec fuel id s = Some (true, s') /\ revoked s id s'.
Proof.
  revert id s. induction fuel as [|fuel IH]; intros id s Hu Ha Hlen Hf Hh; [lia|].
  destruct Hh as (i & c & Hl & Hid). destruct (Ha _ _ Hl) as [Hlt Hpos].
  simpl. rewrite (cap_get_live s id i c) by (done || lia).
  set (s2 := add_active (-1) (put_slot i (invalidate c) (audit _ _ _ _ _ s))).
  assert (shrinks s s2) as Hsh2.
  { eapply (shrinks_trans _ (put_slot i (invalidate c) s)).
    - by eapply shrinks_put_invalid.
    - by apply shrinks_table. }
  assert (forall j d, live s j d -> cap_id d <> id -> live s2 j d) as Hlive2.
  { intros j d Hd Hne. apply (live_put_slot s i (invalidate c)); [by eapply live_lt|].
    right. split; [|done]. intros ->. destruct Hd, Hl. simplify_eq. }
  assert (~ has s2 id) as Hn2.
  { intros (j & d & Hd & E). apply (live_put_slot s i (invalidate c)) in Hd; [|by eapply live_lt].
    destruct Hd as [(_ & _ & ?)|[Hji Hd]]; [done|]. apply Hji. eapply Hu; eauto. congruence. }
  pose proof (live_count_put s i c (invalidate c) Hl) as Hcnt. simpl in Hcnt.
  assert (live_count s2 + 1 = live_count s)%nat as Hcnt2 by (unfold live_count in *; simpl in *; lia).
  clear Hcnt.
  pose proof (release_parent_spec s2 (cap_parent c)) as Hrel.
  assert (length (cap_table s2) = CAP_TABLE_SIZE) as Hlen2 by (destruct Hsh2; congruence).
  specialize (Hrel Hlen2). set (s3 := if cap_parent c =? CAP_INVALID_ID then s2 else _) in *.
  assert (child s (cap_parent c) id) as Hpc by (by exists i, c).
  pose proof (release_parent_exact s2 (cap_parent c) (shrinks_uniq _ _ Hsh2 Hu) (shrinks_acyc _ _ Hsh2 Ha) Hlen2)
    as Hex. fold s3 in Hex.
  destruct Hrel as [Hsh3 Hfr3 Hnx3 Hac3].
  destruct (revoke_children_spec (cap_revoke_rec fuel) fuel id IH (seq 0 CAP_TABLE_SIZE) s3)
    as (s' & -> & Hsh' & Hg' & Hfr' & Hnx' & Hac'); eauto with aether.
  { destruct Hsh3. congruence. }
  { pose proof (shrinks_count _ _ Hsh3). lia. }
  exists s'. split; [done|].
  assert (shrinks s s3) as Hs3 by eauto with aether.
  (* below [id] nothing was released *)
  assert (forall j d, live s j d -> id < cap_id d -> live s3 j d) as Hbelow.
  { intros j d Hd Hgt. apply Hfr3; [apply Hlive2; [done|lia]|]. intros Hdd.
    apply desc_le in Hdd; [lia|]. eauto with aether. }
  assert (forall a x, desc s a x -> id < a -> desc s3 a x) as Hdesc3.
  { induction 1 as [x (j & d & Hd & <-)|p y x (j & d & Hd & <- & <-) Hd2 IH2]; intros Hgt.
    - apply desc_self. exists j, d. split; [by apply Hbelow|done].
    - destruct (Ha _ _ Hd). apply desc_child with (cap_id d); [|apply IH2; lia].
      exists j, d. split; [apply Hbelow; [done|lia]|done]. }
  split.
  - eauto with aether.
  - intros x Hx Hin. inversion Hx as [? Hs|? y ? (j & d & Hd & Hp & <-) Hdx]; subst.
    + apply Hn2. eauto with aether.
    + destruct (Ha _ _ Hd) as [Hlt2 _].
      apply (Hg' j d x); [|apply Hbelow; [done|lia]|done|apply Hdesc3; [done|lia]|done].
      apply elem_of_seq. apply live_lt in Hd. lia.
  - intros j d Hd Hn1 Hn3. apply Hfr'.
    + apply Hfr3.
      * apply Hlive2; [done|]. intros E. apply Hn1. rewrite E. apply desc_self. by exists i, c.
      * intros Hdd. apply Hn3. eapply desc_snoc; [|done]. eauto with aether.
    + intros k e He Hp Hde. apply Hn1. apply desc_child with (cap_id e).
      * apply (shrinks_child s s3); [done|]. by exists k, e.
      * eauto with aether.
  - by apply (revoked_exact s id i c s2 s3 s').
  - rewrite Hnx', Hnx3. done.
  - intros Hact. apply Hac'. specialize (Hac3 0). rewrite !Z.add_0_r in Hac3. apply Hac3.
    unfold s2; simpl. rewrite Hact, u32_add_l. f_equal. unfold s2 in Hcnt2; simpl in Hcnt2. lia.
Qed.

(** ** The invariant of the table *)

Record wf (s : cap_st) : Prop := {
  wf_len : length (cap_table s) = CAP_TABLE_SIZE;
  wf_uniq : uniq s;
  wf_ids : forall i c, live s i c ->
      0 <= cap_parent c < cap_id c /\ cap_id c < cap_next_id s;
  wf_next : 0 < cap_next_id s < 2 ^ 32;
  wf_acct : cap_active_count s = Z.of_nat (live_count s);
  wf_atten : forall i c j p, live s i c -> live s j p -> cap_id p = cap_parent c ->
      cap_rights c .&~ cap_rights p = 0
}.

(** [s'] has only tokens of [s], with the same rights and lineage. *)
Definition sub (s s' : cap_st) : Prop :=
  length (cap_table s') = length (cap_table s) /\
  forall i c', live s' i c' -> exists c, live s i c /\ cap_id c' = cap_id c /\
    cap_parent c' = cap_parent c /\ cap_rights c' = cap_rights c.

Lemma shrinks_sub s s' : shrinks s s' -> sub s s'.
Proof.
  intros [Hl H]. split; [done|]. intros i c' Hc. destruct (H _ _ Hc) as (c & Hc0 & E).
  apply same_tok_fields in E as (? & ? & ? & _). by exists c.
Qed.

Lemma wf_acyc s : wf s -> acyc s.
Proof. intros H i c Hc. destruct (wf_ids s H i c Hc). lia. Qed.

Lemma live_count_bound s : wf s -> 0 <= Z.of_nat (live_count s) <= 4096.
Proof.
  intros H. pose proof (count_if_le cap_valid (cap_table s)) as Hle.
  rewrite (wf_len s H) in Hle. unfold live_count.
  assert (Z.of_nat CAP_TABLE_SIZE = 4096) by (vm_compute; done). lia.
Qed.

Lemma wf_sub s s' :
  wf s -> sub s s' -> cap_next_id s' = cap_next_id s ->
  cap_active_count s' = u32 (Z.of_nat (live_count s')) -> wf s'.
Proof.
  intros Hw [Hl Hs] Hn Ha. pose proof Hw as [W1 W2 W3 W4 W5 W6].
  assert (Z.of_nat (live_count s') <= 4096).
  { pose proof (live_count_bound s Hw).
    assert (live_count s' <= live_count s)%nat; [|lia].
    apply count_if_mono; [done|]. intros i c Hc Hv.
    destruct (Hs i c (conj Hc Hv)) as (c0 & [? ?] & _). eauto. }
  split.
  - congruence.
  - intros i j c d Hc Hd E. destruct (Hs _ _ Hc) as (c0 & Hc0 & E1 & _).
    destruct (Hs _ _ Hd) as (d0 & Hd0 & E2 & _). eapply W2; eauto. congruence.
  - intros i c Hc. destruct (Hs _ _ Hc) as (c0 & Hc0 & -> & -> & _). rewrite Hn. eauto.
  - by rewrite Hn.
  - rewrite Ha, u32_small; lia.
  - intros i c j p Hc Hp E. destruct (Hs _ _ Hc) as (c0 & Hc0 & E1 & E2 & ->).
    destruct (Hs _ _ Hp) as (p0 & Hp0 & E3 & E4 & ->). eapply W6; eauto. congruence.
Qed.

Lemma wf_acct_u32 s : wf s -> cap_active_count s = u32 (Z.of_nat (live_count s)).
Proof.
  intros H. pose proof (live_count_bound s H). rewrite u32_small by lia. apply H.
Qed.

Lemma cap_table_init_wf sec : wf (cap_table_init sec).
Proof.
  assert (forall i c, ~ live (cap_table_init sec) i c) as Hn.
  { intros i c [Hl Hv]. apply lookup_replicate in Hl as [-> _]. done. }
  split.
  - apply length_replicate.
  - intros i j c d Hc. by apply Hn in Hc.
  - intros i c Hc. by apply Hn in Hc.
  - simpl. lia.
  - unfold live_count; simpl. by rewrite count_if_replicate_false.
  - intros i c j p Hc. by apply Hn in Hc.
Qed.

Lemma cap_release_wf s id : wf s -> wf (cap_release id s).
Proof.
  intros H. destruct (cap_release_released id s (wf_len s H)) as [R1 R2 R3 R4].
  eapply wf_sub; [done|by apply shrinks_sub|done|].
  specialize (R4 0). rewrite !Z.add_0_r in R4. apply R4, wf_acct_u32, H.
Qed.

Lemma cap_revoke_revoked s id :
  wf s -> has s id ->
  exists s', cap_revoke id s = (true, s') /\ revoked s id s'.
Proof.
  intros H Hh. destruct (revoke_spec cap_fuel id s) as (s' & E & R).
  - apply H.
  - by apply wf_acyc.
  - apply H.
  - pose proof (count_if_le cap_valid (cap_table s)) as Hle.
    rewrite (wf_len s H) in Hle. unfold cap_fuel, live_count. lia.
  - done.
  - exists s'. unfold cap_revoke. by rewrite E.
Qed.

Lemma cap_get_dec s id : wf s -> (cap_get id s = None /\ ~ has s id) \/ has s id.
Proof.
  intros H. destruct (cap_get id s) as [[i c]|] eqn:E.
  - right. apply cap_get_Some in E as (Hl & E & _). by exists i, c.
  - left. split; [done|]. destruct (decide (id = 0)) as [->|Hne]; [|by apply cap_get_None].
    intros (i & c & Hl & E0). pose proof (wf_ids s H i c Hl). lia.
Qed.

Lemma cap_revoke_wf s id : wf s -> wf (cap_revoke id s).2.
Proof.
  intros H. destruct (cap_get_dec s id H) as [[E _]|Hh].
  - unfold cap_revoke, cap_fuel. simpl. rewrite E. done.
  - destruct (cap_revoke_revoked s id H Hh) as (s' & -> & [R1 _ _ _ R4 R5]).
    eapply wf_sub; [done|by apply shrinks_sub|done|]. apply R5, wf_acct_u32, H.
Qed.

(** Rewriting a live slot without touching its identity. *)
Lemma wf_put_same s i c d :
  wf s -> live s i c -> cap_valid d = true -> cap_id d = cap_id c ->
  cap_parent d = cap_parent c -> cap_rights d = cap_rights c -> wf (put_slot i d s).
Proof.
  intros H Hl Hv E1 E2 E3. eapply wf_sub; [exact H| |done|].
  - split; [apply length_insert|]. intros j e He.
    apply live_put_slot in He; [|by eapply live_lt].
    destruct He as [(-> & -> & _)|[_ He]]; [by exists c|by exists e].
  - pose proof (live_count_put s i c d Hl) as E. rewrite Hv in E. simpl.
    rewrite (wf_acct_u32 s H). f_equal. lia.
Qed.

Lemma cap_addref_wf s id : wf s -> wf (cap_addref id s).
Proof.
  intros H. unfold cap_addref. destruct (cap_get id s) as [[i c]|] eqn:E; [|done].
  apply cap_get_Some in E as (Hl & _ & _). eapply wf_put_same; eauto. apply Hl.
Qed.

Lemma wf_audit s t a c d0 d1 : wf s -> wf (audit t a c d0 d1 s).
Proof. intros [? ? ? ? ? ?]. by split. Qed.

Lemma cap_transfer_wf s id t : wf s -> wf (cap_transfer id t s).2.
Proof.
  intros H. unfold cap_transfer. destruct (cap_get id s) as [[i c]|] eqn:E; [|done].
  case_if; [done|]. simpl. apply wf_audit. apply cap_get_Some in E as (Hl & _ & _).
  eapply wf_put_same; eauto. apply Hl.
Qed.

(** A token added in a free slot under a fresh identifier. *)
Definition add_tok (i : nat) (c : cap) (s : cap_st) : cap_st :=
  add_active 1 (put_slot i c (next_id s).2).

Lemma next_id_fresh s : wf s -> cap_next_id s + 1 < 2 ^ 32 ->
  next_id s = (cap_next_id s, CapSt (cap_table s) (cap_next_id s + 1) (cap_active_count s) (cap_sec s)).
Proof.
  intros H Hb. unfold next_id. pose proof (wf_next s H).
  rewrite u32_small by lia. case_if; bools; [lia|done].
Qed.

Lemma alloc_slot_free s i : alloc_slot s = Some i ->
  exists c, cap_table s !! i = Some c /\ cap_valid c = false.
Proof.
  intros E. apply find_idx_Some in E as (c & Hc & Hv & _). bools. eauto.
Qed.

Lemma live_add_tok s i c j d :
  alloc_slot s = Some i -> cap_valid c = true ->
  live (add_tok i c s) j d <-> (j = i /\ d = c) \/ live s j d.
Proof.
  intros Hi Hv. apply alloc_slot_free in Hi as (e & He & Hev).
  assert (live (add_tok i c s) j d <-> live (put_slot i c s) j d) as -> by done.
  rewrite live_put_slot by (by eapply lookup_lt_Some). split; [intros [(?&?&?)|[? ?]]; auto|].
  intros [[-> ->]|Hd]; [by left|]. right. split; [|done]. intros ->.
  destruct Hd. congruence.
Qed.

Lemma wf_add_tok s i c :
  wf s -> cap_next_id s + 1 < 2 ^ 32 -> alloc_slot s = Some i ->
  cap_valid c = true -> cap_id c = cap_next_id s ->
  0 <= cap_parent c < cap_id c ->
  (forall j p, live s j p -> cap_id p = cap_parent c -> cap_rights c .&~ cap_rights p = 0) ->
  wf (add_tok i c s).
Proof.
  intros H Hb Hi Hv Hid Hp Hat. pose proof H as [W1 W2 W3 W4 W5 W6].
  pose proof (next_id_fresh s H Hb) as Hnx.
  destruct (alloc_slot_free s i Hi) as (e & He & Hev).
  assert (forall j d, live s j d -> cap_id d < cap_id c) as Hlt.
  { intros j d Hd. rewrite Hid. by apply (W3 j d). }
  assert (cap_next_id (add_tok i c s) = cap_next_id s + 1) as Hn'.
  { unfold add_tok. rewrite Hnx. done. }
  split.
  - unfold add_tok. simpl. by rewrite length_insert.
  - intros j k d f Hd Hf E. apply live_add_tok in Hd, Hf; [|done..].
    destruct Hd as [[-> ->]|Hd], Hf as [[-> ->]|Hf]; [done|..].
    + specialize (Hlt _ _ Hf). lia.
    + specialize (Hlt _ _ Hd). lia.
    + by eapply W2.
  - intros j d Hd. rewrite Hn'. apply live_add_tok in Hd; [|done..].
    destruct Hd as [[-> ->]|Hd]; [lia|]. specialize (W3 _ _ Hd). lia.
  - rewrite Hn'. lia.
  - unfold add_tok, live_count. rewrite Hnx. simpl.
    pose proof (count_if_insert cap_valid (cap_table s) i e c He) as E.
    rewrite Hev, Hv in E. pose proof (live_count_bound s H).
    rewrite W5, u32_small; unfold live_count in *; lia.
  - intros j d k p Hd Hk E. apply live_add_tok in Hd, Hk; [|done..].
    destruct Hd as [[-> ->]|Hd], Hk as [[-> ->]|Hk].
    + lia.
    + eauto.
    + specialize (W3 _ _ Hd). specialize (Hlt _ _ Hd). lia.
    + eauto.
Qed.

Lemma cap_create_wf s ty r o t :
  wf s -> cap_next_id s + 1 < 2 ^ 32 -> wf (cap_create ty r o t s).2.
Proof.
  intros H Hb. unfold cap_create. destruct (alloc_slot s) as [i|] eqn:Hi; [|done].
  rewrite (surjective_pairing (next_id s)). simpl. apply wf_audit.
  pose proof (wf_next s H).
  apply wf_add_tok; simpl; try done; [unfold CAP_INVALID_ID; lia|].
  intros j p Hp E. destruct (wf_ids s H j p Hp). unfold CAP_INVALID_ID in E. lia.
Qed.

Lemma cap_addref_add_active id d s :
  add_active d (cap_addref id s) = cap_addref id (add_active d s).
Proof.
  unfold cap_addref. change (cap_get id (add_active d s)) with (cap_get id s).
  by destruct (cap_get id s) as [[]|].
Qed.

Lemma cap_derive_wf s p r :
  wf s -> cap_next_id s + 1 < 2 ^ 32 -> wf (cap_derive p r s).2.
Proof.
  intros H Hb. unfold cap_derive. destruct (cap_get p s) as [[j c]|] eqn:E; [|done].
  apply cap_get_Some in E as (Hl & Hid & Hp0).
  case_if; [by apply wf_audit|]. case_if; [done|].
  destruct (alloc_slot s) as [i|] eqn:Hi; [|done].
  rewrite (surjective_pairing (next_id s)). simpl. apply wf_audit.
  rewrite cap_addref_add_active. apply cap_addref_wf. bools.
  destruct (wf_ids s H _ _ Hl). apply wf_add_tok; simpl; try done; [lia|].
  intros k q Hq E. assert (k = j) as -> by (eapply (wf_uniq s H); eauto; congruence).
  destruct Hq as [Hq _], Hl as [Hl _]. by simplify_eq.
Qed.

(** ** Reachable tables

    The kernel calls the operations in any order; creations stop before the
    32-bit identifier counter wraps. *)
Inductive cap_step (s : cap_st) : cap_st -> Prop :=
| step_create ty r o t : cap_next_id s + 1 < 2 ^ 32 -> cap_step s (cap_create ty r o t s).2
| step_derive p r : cap_next_id s + 1 < 2 ^ 32 -> cap_step s (cap_derive p r s).2
| step_revoke id : cap_step s (cap_revoke id s).2
| step_release id : cap_step s (cap_release id s)
| step_addref id : cap_step s (cap_addref id s)
| step_transfer id t : cap_step s (cap_transfer id t s).2.

Definition reachable (s : cap_st) : Prop :=
  exists sec, reach cap_step (cap_table_init sec) s.

Lemma reachable_wf s : reachable s -> wf s.
Proof.
  intros [sec Hr]. apply (reach_invariant cap_step wf _ _) in Hr; [done| |apply cap_table_init_wf].
  intros a b H. destruct 1; auto using cap_create_wf, cap_derive_wf, cap_revoke_wf,
    cap_release_wf, cap_addref_wf, cap_transfer_wf.
Qed.

Lemma cap_get_frame s s' i c x :
  wf s -> wf s' -> live s i c -> live s' i c -> cap_id c = x -> cap_get x s' = cap_get x s.
Proof.
  intros H H' Hl Hl' E. pose proof (wf_ids s H i c Hl).
  rewrite (cap_get_live s x i c), (cap_get_live s' x i c); auto using wf_uniq; lia.
Qed.

Lemma desc_atten s a x i c j d :
  wf s -> desc s a x -> live s i c -> cap_id c = a -> live s j d -> cap_id d = x ->
  cap_rights d .&~ cap_rights c = 0.
Proof.
  intros H Hd. revert i c. induction Hd as [x Hx|p y x (k & e & He & Hp & Ey) Hd IH];
    intros i c Hc Ec Hd' Ed.
  - assert (i = j) as -> by (eapply (wf_uniq s H); eauto; congruence).
    destruct Hc as [Hc _], Hd' as [Hd' _]. simplify_eq. apply Z.ldiff_diag.
  - eapply ldiff_0_trans; [by apply (IH k e)|]. eapply (wf_atten s H); eauto. congruence.
Qed.

Lemma cap_get_ext s s' x :
  wf s -> wf s' ->
  (forall i c, cap_id c = x -> live s' i c <-> live s i c) ->
  cap_get x s' = cap_get x s.
Proof.
  intros H H' Hext. destruct (cap_get_dec s x H) as [[-> Hn]|(i & c & Hl & E)].
  - apply cap_get_not_has. intros (i & c & Hl & E). apply Hn. exists i, c.
    split; [by apply Hext|done].
  - eapply cap_get_frame; eauto. by apply Hext.
Qed.

Lemma cap_get_add_tok s i c x :
  wf s -> wf (add_tok i c s) -> alloc_slot s = Some i -> cap_valid c = true ->
  cap_get x (add_tok i c s) = if x =? cap_id c then Some (i, c) else cap_get x s.
Proof.
  intros H H' Hi Hv. destruct (Z.eqb_spec x (cap_id c)) as [->|Hne].
  - assert (live (add_tok i c s) i c) as Hl by (apply live_add_tok; auto).
    pose proof (wf_ids _ H' _ _ Hl). apply cap_get_live; auto using wf_uniq. lia.
  - apply cap_get_ext; [done..|]. intros j d E. rewrite live_add_tok by done.
    split; [|by right]. intros [[-> ->]|]; [congruence|done].
Qed.

Lemma cap_get_addref s p x :
  wf s -> cap_get x (cap_addref p s) =
    match cap_get p s with
    | Some (j, c) => if x =? p then Some (j, set_ref (u32 (cap_ref c + 1)) c) else cap_get x s
    | None => cap_get x s
    end.
Proof.
  intros H. pose proof (cap_addref_wf s p H) as H'. unfold cap_addref in *.
  destruct (cap_get p s) as [[j c]|] eqn:E; [|done].
  apply cap_get_Some in E as (Hl & Hid & Hp). destruct (Z.eqb_spec x p) as [->|Hne].
  - apply cap_get_live; auto using wf_uniq. apply live_put_slot; [by eapply live_lt|].
    left. split_and!; [done..|]. apply Hl.
  - apply cap_get_ext; [done..|]. intros k d Ed. rewrite live_put_slot by (by eapply live_lt).
    split.
    + intros [(-> & -> & _)|[_ Hd]]; [simpl in Ed; congruence|done].
    + intros Hd. right. split; [|done]. intros ->. destruct Hd as [Hd _], Hl as [Hl _].
      simplify_eq.
Qed.

(** ** Properties *)


(** *** Rights along a derivation *)

(** A token after a step was there before, with the same rights, or it is new; a
    new token of a derivation has rights of its parent only. *)
Definition kept (s : cap_st) (d : cap) : Prop :=
  exists i c, live s i c /\ cap_id d = cap_id c /\ cap_rights d = cap_rights c.

Lemma sub_kept s s' j d : sub s s' -> live s' j d -> kept s d.
Proof. intros [_ H] Hd. destruct (H j d Hd) as (c & Hc & ? & _ & ?). by exists j, c. Qed.

Lemma addref_kept s p j d : live (cap_addref p s) j d -> kept s d.
Proof.
  unfold cap_addref. destruct (cap_get p s) as [[i c]|] eqn:E; [|by exists j, d].
  apply cap_get_Some in E as (Hl & _). rewrite live_put_slot by (by eapply live_lt).
  intros [(-> & -> & _)|[_ Hd]]; [by exists i, c|by exists j, d].
Qed.

Lemma derive_tokens s p r j d :
  wf s -> cap_next_id s + 1 < 2 ^ 32 -> live (cap_derive p r s).2 j d ->
  kept s d \/ (cap_id d = cap_next_id s /\ (cap_derive p r s).1 = cap_next_id s /\
               exists i c, cap_get p s = Some (i, c) /\ cap_rights d .&~ cap_rights c = 0).
Proof.
  intros Hw Hb. unfold cap_derive. destruct (cap_get p s) as [[i c]|] eqn:E; [|left; by exists j, d].
  case_if; [left; by exists j, d|]. case_if; [left; by exists j, d|].
  destruct (alloc_slot s) as [k|] eqn:Hk; [|left; by exists j, d]. rewrite (next_id_fresh s Hw Hb). cbn [fst snd].
  set (tok := Cap _ _ _ _ _ _ _ _). intros Hd.
  assert (live (cap_addref p (add_tok k tok s)) j d) as Hd'.
  { unfold add_tok. rewrite <- cap_addref_add_active, (next_id_fresh s Hw Hb). exact Hd. }
  apply addref_kept in Hd' as (j' & d' & Hd' & E1 & E2). apply live_add_tok in Hd' as [[-> ->]|Hd']; [|by left; exists j', d'|done|done].
  right. split; [done|]. split; [done|]. exists i, c. split; [done|]. rewrite E2. bools. done.
Qed.

Lemma derive_id s p r :
  wf s -> cap_next_id s + 1 < 2 ^ 32 ->
  (cap_derive p r s).1 = 0 \/ ((cap_derive p r s).1 = cap_next_id s /\ cap_next_id (cap_derive p r s).2 = cap_next_id s + 1).
Proof.
  intros Hw Hb. unfold cap_derive. destruct (cap_get p s) as [[i c]|]; [|by left]. case_if; [by left|]. case_if; [by left|].
  destruct (alloc_slot s); [|by left]. rewrite (next_id_fresh s Hw Hb). right. split; [done|]. cbn.
  unfold cap_addref. by destruct (cap_get p _) as [[]|].
Qed.

Lemma step_tokens s s' j d :
  wf s -> cap_step s s' -> live s' j d -> kept s d \/ cap_id d = cap_next_id s.
Proof.
  intros Hw Hs. destruct Hs as [ty r o t Hb|p r Hb|id|id|id|id t].
  - unfold cap_create. destruct (alloc_slot s) as [k|] eqn:Hk; [|left; by exists j, d].
    rewrite (next_id_fresh s Hw Hb). cbn [snd]. set (tok := Cap _ _ _ _ _ _ _ _). intros Hd.
    assert (live (add_tok k tok s) j d) as Hd' by (unfold add_tok; rewrite (next_id_fresh s Hw Hb); exact Hd).
    apply live_add_tok in Hd' as [[-> ->]|Hd']; [by right|by left; exists j, d|done|done].
  - intros Hd. destruct (derive_tokens s p r j d Hw Hb Hd) as [?|[? _]]; auto.
  - intros Hd. left. destruct (cap_get_dec s id Hw) as [[E _]|Hh].
    + revert Hd. unfold cap_revoke, cap_fuel. cbn. rewrite E. by exists j, d.
    + destruct (cap_revoke_revoked s id Hw Hh) as (s1 & E & R). rewrite E in Hd.
      eapply sub_kept; [|exact Hd]. apply shrinks_sub, R.
  - intros Hd. left. eapply sub_kept; [|exact Hd]. apply shrinks_sub, (cap_release_released id s (wf_len s Hw)).
  - intros Hd. left. by eapply addref_kept.
  - unfold cap_transfer. destruct (cap_get id s) as [[i c]|] eqn:E; [|left; by exists j, d].
    case_if; [left; by exists j, d|]. apply cap_get_Some in E as (Hl & _).
    intros Hd. left. apply (live_put_slot s i) in Hd; [|by eapply live_lt].
    destruct Hd as [(-> & -> & _)|[_ Hd]]; [by exists i, c|by exists j, d].
Qed.

Lemma step_next s s' : wf s -> cap_step s s' -> cap_next_id s <= cap_next_id s'.
Proof.
  intros Hw Hs. destruct Hs as [ty r o t Hb|p r Hb|id|id|id|id t].
  - unfold cap_create. destruct (alloc_slot s); [|done]. rewrite (next_id_fresh s Hw Hb). cbn. lia.
  - unfold cap_derive. destruct (cap_get p s) as [[i c]|]; [|done]. case_if; [done|]. case_if; [done|].
    destruct (alloc_slot s); [|done]. rewrite (next_id_fresh s Hw Hb). cbn.
    unfold cap_addref. destruct (cap_get p _) as [[]|]; cbn; lia.
  - destruct (cap_get_dec s id Hw) as [[E _]|Hh].
    + unfold cap_revoke, cap_fuel. cbn. by rewrite E.
    + destruct (cap_revoke_revoked s id Hw Hh) as (s1 & E & R). rewrite E. cbn. rewrite (rv_next _ _ _ R). lia.
  - rewrite (rel_next _ _ _ (cap_release_released id s (wf_len s Hw))). lia.
  - unfold cap_addref. by destruct (cap_get id s) as [[]|].
  - unfold cap_transfer. destruct (cap_get id s) as [[]|]; [|done]. by case_if.
Qed.

Lemma cap_step_wf s s' : cap_step s s' -> wf s -> wf s'.
Proof.
  intros Hs H. destruct Hs; auto using cap_create_wf, cap_derive_wf, cap_revoke_wf,
    cap_release_wf, cap_addref_wf, cap_transfer_wf.
Qed.

(** [lineage a s D s']: the kernel goes from [s] to [s'] by any calls, and [D] holds
    [a] and the tokens derived meanwhile from tokens of [D]. *)
Inductive lineage (a : Z) (s : cap_st) : list Z -> cap_st -> Prop :=
| lineage_start : lineage a s [a] s
| lineage_derive D s1 p r :
    lineage a s D s1 -> p ∈ D -> cap_next_id s1 + 1 < 2 ^ 32 ->
    lineage a s ((cap_derive p r s1).1 :: D) (cap_derive p r s1).2
| lineage_step D s1 s2 : lineage a s D s1 -> cap_step s1 s2 -> lineage a s D s2.

Record attenuated (rights : Z) (D : list Z) (s : cap_st) : Prop := {
  at_wf : wf s;
  at_known x : x ∈ D -> x < cap_next_id s;
  at_rights i c : live s i c -> cap_id c ∈ D -> cap_rights c .&~ rights = 0
}.

Lemma attenuated_step rights D s s' : cap_step s s' -> attenuated rights D s -> attenuated rights D s'.
Proof.
  intros Hs [Hw Hk Hr]. pose proof (step_next s s' Hw Hs). split; [by eapply cap_step_wf| |].
  - intros x Hx. specialize (Hk x Hx). lia.
  - intros i c Hc Hd. destruct (step_tokens s s' i c Hw Hs Hc) as [(j & d & Hj & E1 & E2)|E].
    + rewrite E2. apply (Hr j d Hj). by rewrite <- E1.
    + specialize (Hk _ Hd). lia.
Qed.

Lemma lineage_attenuated a s i c D s' :
  wf s -> cap_get a s = Some (i, c) -> lineage a s D s' -> attenuated (cap_rights c) D s'.
Proof.
  intros Hw Hg. apply cap_get_Some in Hg as (Hl & Ha & _).
  induction 1 as [|D s1 p r _ IH Hp Hb|D s1 s2 _ IH Hs]; [| |by eapply attenuated_step].
  - split; [done| |].
    + intros x ->%list_elem_of_singleton. rewrite <- Ha. by apply (wf_ids s Hw i c).
    + intros j d Hd Ed%list_elem_of_singleton. assert (j = i) as -> by (eapply (wf_uniq s Hw); eauto; congruence).
      destruct Hd as [Hd _], Hl as [Hl _]. simplify_eq. apply Z.ldiff_diag.
  - destruct IH as [Hw1 Hk Hr]. pose proof (step_next s1 _ Hw1 (step_derive s1 p r Hb)) as Hn.
    split; [by apply cap_derive_wf| |].
    + intros x [->|Hx]%elem_of_cons; [|specialize (Hk x Hx); lia].
      pose proof (wf_next s1 Hw1). destruct (derive_id s1 p r Hw1 Hb) as [->|[-> ->]]; lia.
    + intros j d Hd Ed. destruct (derive_tokens s1 p r j d Hw1 Hb Hd) as [(j' & d' & Hd' & E1 & E2)|(E & _ & j' & e & Hg & Hsub)].
      * rewrite E1, elem_of_cons in Ed. destruct Ed as [Ed|Ed]; [|rewrite E2; by apply (Hr j' d')].
        destruct (wf_ids s1 Hw1 _ _ Hd') as [? Hlt].
        destruct (derive_id s1 p r Hw1 Hb) as [E|[E _]]; rewrite E in Ed; lia.
      * apply cap_get_Some in Hg as (Hg & <- & _). eapply ldiff_0_trans; [done|]. by apply (Hr j' e).
Qed.


(** [cap_count] is the number of live tokens in any reachable table, and
    live tokens have pairwise distinct identifiers. *)
Theorem cap_count_exact (s : cap_st) (Hr : reachable s) :
  cap_count s = Z.of_nat (count_if cap_valid (cap_table s)) /\ uniq s.
Proof. apply reachable_wf in Hr. split; apply Hr. Qed.

(** [cap_derive] on every branch.  Either it returns 0 and leaves the
    table as it was, because the parent is not live, the rights are not a
    subset of the parent's, the parent lacks the manage right, or the table is
    full; or it returns a fresh identifier that names a token with exactly the
    requested rights and the parent's type, object and owner, the parent gains
    one reference, and every other token is unchanged. *)
Theorem cap_derive_correct (s : cap_st) (p r : Z) (Hr : reachable s)
    (Hnext : cap_next_id s + 1 < 2 ^ 32) :
  let '(id, s') := cap_derive p r s in
  (id = 0 /\ cap_table s' = cap_table s /\
     match cap_get p s with
     | None => True
     | Some (_, c) => r .&~ cap_rights c <> 0 \/ cap_rights c .& CAP_RIGHT_MANAGE = 0 \/
                      alloc_slot s = None
     end) \/
  (id <> 0 /\ cap_get id s = None /\ exists i j c,
     cap_get p s = Some (j, c) /\ r .&~ cap_rights c = 0 /\
     cap_get id s' = Some (i, Cap id (cap_ty c) r (cap_object c) p 1 (cap_owner c) true) /\
     cap_get p s' = Some (j, set_ref (u32 (cap_ref c + 1)) c) /\
     forall x, x <> id -> x <> p -> cap_get x s' = cap_get x s).
Proof.
  apply reachable_wf in Hr. unfold cap_derive.
  destruct (cap_get p s) as [[j c]|] eqn:Hp; [|by left].
  destruct (negb (r .&~ cap_rights c =? 0)) eqn:E1; [bools; left; auto|].
  destruct (cap_rights c .& CAP_RIGHT_MANAGE =? 0) eqn:E2; [bools; left; auto|].
  destruct (alloc_slot s) as [i|] eqn:Hi; [|left; auto].
  rewrite next_id_fresh by done. bools. right.
  pose proof (wf_next s Hr). split; [lia|].
  assert (~ has s (cap_next_id s)) as Hfresh.
  { intros (k & d & Hd & E). pose proof (wf_ids s Hr k d Hd). lia. }
  split; [by apply cap_get_not_has|]. exists i, j, c. split; [done|]. split; [done|].
  set (tok := Cap (cap_next_id s) (cap_ty c) r (cap_object c) p 1 (cap_owner c) true).
  pose proof (cap_get_Some _ _ _ _ Hp) as (Hl & Hid & Hp0).
  pose proof (wf_ids s Hr j c Hl) as Hpids.
  assert (wf (add_tok i tok s)) as Hw.
  { apply wf_add_tok; simpl; try done; [lia|]. intros k q Hq E.
    assert (k = j) as -> by (eapply (wf_uniq s Hr); eauto; congruence).
    destruct Hq as [Hq _], Hl as [Hl _]. by simplify_eq. }
  assert (forall x, cap_get x (audit AUDIT_CAP_DERIVE (cap_owner c) (cap_next_id s) p r
            (add_active 1 (cap_addref p (put_slot i tok
              (CapSt (cap_table s) (cap_next_id s + 1) (cap_active_count s) (cap_sec s))))))
          = cap_get x (cap_addref p (add_tok i tok s))) as Heq.
  { intros x. unfold add_tok. rewrite next_id_fresh by done.
    rewrite <- cap_addref_add_active. done. }
  assert (p <> cap_next_id s) as Hpn by lia.
  split_and!; [rewrite Heq, cap_get_addref, !cap_get_add_tok by done; simpl..|].
  - rewrite (proj2 (Z.eqb_neq p _)) by done. rewrite Hp.
    rewrite (proj2 (Z.eqb_neq (cap_next_id s) p)) by congruence. by rewrite Z.eqb_refl.
  - rewrite (proj2 (Z.eqb_neq p _)) by done. rewrite Hp. by rewrite Z.eqb_refl.
  - intros x Hx1 Hx2. rewrite Heq, cap_get_addref, !cap_get_add_tok by done; simpl.
    rewrite (proj2 (Z.eqb_neq p _)) by done. rewrite Hp.
    rewrite (proj2 (Z.eqb_neq x p)) by done. by rewrite (proj2 (Z.eqb_neq x _)).
Qed.

(** ** A concrete run

    A root token 1 with all rights, 2 derived from 1 and 3 from 2, and an
    unrelated token 4. *)
Definition demo : cap_st :=
  (cap_create CAP_TYPE_FILE CAP_RIGHT_READ (OAddr 64) 9
    (cap_derive 2 0x41 (cap_derive 1 0x43
      (cap_create CAP_TYPE_MEMORY CAP_RIGHT_ALL (OAddr 4096) 7
        (cap_table_init (secmon_init 0))).2).2).2).2.

Lemma demo_reachable : reachable demo.
Proof.
  exists (secmon_init 0). unfold demo.
  apply reach_step with (cap_derive 2 0x41 (cap_derive 1 0x43
      (cap_create CAP_TYPE_MEMORY CAP_RIGHT_ALL (OAddr 4096) 7
        (cap_table_init (secmon_init 0))).2).2).2; [|apply step_create; vm_compute; reflexivity].
  apply reach_step with (cap_derive 1 0x43
      (cap_create CAP_TYPE_MEMORY CAP_RIGHT_ALL (OAddr 4096) 7
        (cap_table_init (secmon_init 0))).2).2; [|apply step_derive; vm_compute; reflexivity].
  eapply reach_step; [|apply step_derive; vm_compute; reflexivity].
  eapply reach_step; [apply reach_refl|apply step_create; vm_compute; reflexivity].
Qed.

Definition demo_tok (i : nat) : cap := default cap_zero (cap_table demo !! i).

Lemma demo_live i : (i < 4)%nat -> live demo i (demo_tok i).
Proof.
  intros Hi. destruct i as [|[|[|[|i]]]]; [split; vm_compute; reflexivity..|lia].
Qed.

Lemma demo_child : child demo 1 2 /\ child demo 2 3.
Proof.
  split; [exists 1%nat, (demo_tok 1)|exists 2%nat, (demo_tok 2)];
    (split; [apply demo_live; lia|split; vm_compute; reflexivity]).
Qed.

Lemma demo_desc : desc demo 2 3.
Proof.
  destruct demo_child as [H1 H2]. eapply desc_snoc; [|done]. apply desc_self. by eapply child_has.
Qed.


(** The creator of a token drops it after deriving another: revoking the derived
    token then removes the parent too. *)
Example revoke_frees_parent :
  let s := (cap_create CAP_TYPE_MEMORY CAP_RIGHT_ALL ONull 7 (cap_table_init (secmon_init 0))).2 in
  let s := cap_release 1 (cap_derive 1 0x41 s).2 in
  (cap_check 1 0x1 s, cap_check 1 0x1 (cap_revoke 2 s).2) = (true, false).
Proof. vm_compute. reflexivity. Qed.


Lemma cap_count_exact_witness : cap_count demo = 4 /\ uniq demo.
Proof.
  destruct (cap_count_exact demo demo_reachable) as [H Hu].
  split; [rewrite H; vm_compute; reflexivity|exact Hu].
Defined.

Lemma cap_derive_correct_witness :
  cap_get 3 demo <> None /\
  (cap_derive 3 0x3 demo).1 = 0 /\ (cap_derive 3 0x1 demo).1 = 5 /\
  let '(id, s') := cap_derive 3 0x1 demo in
  id = 0 \/ exists i c, cap_get id s' = Some (i, c) /\ cap_rights c = 0x1.
Proof.
  split; [vm_compute; discriminate|].
  split; [vm_compute; reflexivity|]. split; [vm_compute; reflexivity|].
  pose proof (cap_derive_correct demo 3 0x1 demo_reachable ltac:(vm_compute; reflexivity)) as H.
  destruct (cap_derive 3 1 demo) as [id s']. destruct H as [[H _]|(_ & _ & i & j & c & _ & _ & H & _)].
  - left. exact H.
  - right. eexists i, _. split; [exact H|reflexivity].
Defined.

(** The monitor's policy forbids interrupt-line capabilities to tasks other
    than the kernel, but [cap_create] never asks the monitor: such a token is
    created for task 7 although [secmon_check_cap_create] refuses it. *)
Theorem irq_policy_not_enforced :
  let s := cap_table_init (secmon_init 0) in
  (secmon_check_cap_create 7 (cap_type_num CAP_TYPE_IRQLINE) (cap_sec s)).1 = false /\
  let '(id, s') := cap_create CAP_TYPE_IRQLINE CAP_RIGHT_ALL ONull 7 s in
  id = 1 /\ cap_check id CAP_RIGHT_ALL s' = true.
Proof. vm_compute. auto. Qed.
