(* ===== verification/Svcbus.v ===== *)
(** * The service bus, [kernel/svcbus.c]

    The name registry: services register a port under a name, clients look
    the name up, the owner unregisters it.  The state is the table of 64
    entries, the counter and the capability table the bus creates its service
    capabilities in.  The log lines ([kinfo], [klog_warn]) are not modelled. *)

From S2P Require Import Prelude CString Secmon Cap.

Definition SVCBUS_MAX_SERVICES : nat := 64.
Definition SVCBUS_NAME_LEN : nat := 64.
Definition PORT_INVALID : Z := 0.

Inductive svc_err :=
| SVC_OK | SVC_ERR_INVALID | SVC_ERR_EXISTS | SVC_ERR_FULL | SVC_ERR_NOTFOUND | SVC_ERR_NOPERM.

Record svc_entry := SvcEntry {
  svc_name : list Z;
  svc_port : Z;
  svc_cap : Z;
  svc_owner : Z;
  svc_version : Z;
  svc_active : bool
}.

Definition svc_zero : svc_entry := SvcEntry (replicate SVCBUS_NAME_LEN 0) 0 0 0 0 false.

Record bus := Bus {
  svc_table : list svc_entry;
  svc_count : Z;
  svc_caps : cap_st
}.

Definition svcbus_init (caps : cap_st) : bus :=
  Bus (replicate SVCBUS_MAX_SERVICES svc_zero) 0 caps.

(** [svc_table[i].active && strncmp(svc_table[i].name, name, 64) == 0] *)
Definition svc_match (name : list Z) (e : svc_entry) : bool :=
  svc_active e && (strncmp (svc_name e) name SVCBUS_NAME_LEN =? 0).

Definition audit_svc (t : audit_event_type) (tid : Z) (name : list Z) (c : cap_st) : cap_st :=
  CapSt (cap_table c) (cap_next_id c) (cap_active_count c)
    (secmon_audit_svc t tid (Some (c_str name)) (cap_sec c)).

Definition SVC_RIGHTS : Z := CAP_RIGHT_READ .| CAP_RIGHT_WRITE .| CAP_RIGHT_GRANT.

(** [name] is [None] when the pointer is null. *)
Definition svcbus_register (name : option (list Z)) (port owner_tid version : Z) (s : bus)
    : svc_err * bus :=
  match name with
  | None => (SVC_ERR_INVALID, s)
  | Some name =>
      if port =? PORT_INVALID then (SVC_ERR_INVALID, s)
      else
        match find_idx (svc_match name) (svc_table s) with
        | Some _ => (SVC_ERR_EXISTS, s)
        | None =>
            match find_slot (fun e => negb (svc_active e)) (svc_table s) with
            | None => (SVC_ERR_FULL, s)
            | Some (i, e) =>
                let nm := <[(SVCBUS_NAME_LEN - 1)%nat := 0]>
                            (strncpy (svc_name e) name (SVCBUS_NAME_LEN - 1)) in
                let '(cap, caps) :=
                  cap_create CAP_TYPE_SERVICE SVC_RIGHTS (OService i) owner_tid (svc_caps s) in
                (SVC_OK,
                 Bus (<[i := SvcEntry nm port cap owner_tid version true]> (svc_table s))
                     (u32 (svc_count s + 1))
                     (audit_svc AUDIT_SVC_REGISTER owner_tid name caps))
            end
        end
  end.

(** The result is the error code and the port and capability written to
    [*out_port] and [*out_cap]; [has_out] says that [out_port] is not null. *)
Definition svcbus_lookup (name : option (list Z)) (has_out : bool) (s : bus)
    : svc_err * option (Z * Z) * bus :=
  match name with
  | None => (SVC_ERR_INVALID, None, s)
  | Some name =>
      if negb has_out then (SVC_ERR_INVALID, None, s)
      else
        match find_slot (svc_match name) (svc_table s) with
        | Some (_, e) =>
            (SVC_OK, Some (svc_port e, svc_cap e),
             Bus (svc_table s) (svc_count s) (audit_svc AUDIT_SVC_LOOKUP 0 name (svc_caps s)))
        | None => (SVC_ERR_NOTFOUND, None, s)
        end
  end.

Definition svcbus_unregister (name : list Z) (owner_tid : Z) (s : bus) : svc_err * bus :=
  match find_slot (svc_match name) (svc_table s) with
  | None => (SVC_ERR_NOTFOUND, s)
  | Some (i, e) =>
      if negb (svc_owner e =? owner_tid) then (SVC_ERR_NOPERM, s)
      else
        let caps := cap_release (svc_cap e) (svc_caps s) in
        (SVC_OK,
         Bus (<[i := SvcEntry (svc_name e) (svc_port e) (svc_cap e) (svc_owner e) (svc_version e)
                       false]> (svc_table s))
             (u32 (svc_count s - 1))
             (audit_svc AUDIT_SVC_UNREGISTER owner_tid name caps))
  end.

Definition svcbus_count (s : bus) : Z := svc_count s.

#[global] Opaque SVCBUS_MAX_SERVICES SVCBUS_NAME_LEN.

(** ** The registry as a finite map *)

Record binding := Binding { b_port : Z; b_owner : Z; b_version : Z }.

Definition entry_pair (e : svc_entry) : option (list Z * binding) :=
  if svc_active e then Some (c_str (svc_name e), Binding (svc_port e) (svc_owner e) (svc_version e))
  else None.

Definition pairs (t : list svc_entry) : list (list Z * binding) := omap entry_pair t.

(** A name that fits in an entry with its terminator. *)
Definition valid_name (nm : list Z) : Prop :=
  byte_list nm /\ no_zero nm /\ (length nm < SVCBUS_NAME_LEN)%nat.

Definition entry_ok (e : svc_entry) : Prop :=
  byte_list (svc_name e) /\ (length (svc_name e) = SVCBUS_NAME_LEN) /\
  (length (c_str (svc_name e)) < SVCBUS_NAME_LEN)%nat.

(** The table represents the map [m]. *)
Record bus_rep (s : bus) (m : gmap (list Z) binding) : Prop := {
  br_len : length (svc_table s) = SVCBUS_MAX_SERVICES;
  br_ok : Forall entry_ok (svc_table s);
  br_nodup : NoDup (pairs (svc_table s)).*1;
  br_map : m = list_to_map (pairs (svc_table s));
  br_count : svc_count s = Z.of_nat (size m)
}.

(** What the bus promises, as operations on the map. *)
Definition spec_register (name : list Z) (port owner version : Z) (m : gmap (list Z) binding)
    : svc_err * gmap (list Z) binding :=
  if port =? 0 then (SVC_ERR_INVALID, m)
  else if bool_decide (is_Some (m !! name)) then (SVC_ERR_EXISTS, m)
  else if decide (size m = 64%nat) then (SVC_ERR_FULL, m)
  else (SVC_OK, <[name := Binding port owner version]> m).

Definition spec_lookup (name : list Z) (m : gmap (list Z) binding) : option Z :=
  b_port <$> m !! name.

Definition spec_unregister (name : list Z) (owner : Z) (m : gmap (list Z) binding)
    : svc_err * gmap (list Z) binding :=
  match m !! name with
  | None => (SVC_ERR_NOTFOUND, m)
  | Some b => if decide (b_owner b = owner) then (SVC_OK, delete name m) else (SVC_ERR_NOPERM, m)
  end.

(** ** Lemmas *)

Lemma svc_match_iff nm e :
  valid_name nm -> entry_ok e ->
  svc_match nm e = true <-> svc_active e = true /\ c_str (svc_name e) = nm.
Proof.
  intros (Hb & Hz & Hl) (Hb' & _ & Hl'). unfold svc_match.
  rewrite andb_true_iff, Z.eqb_eq, strncmp_0 by done.
  rewrite (c_str_no_zero nm), !take_ge by (done || lia). done.
Qed.

Definition entry_binding (e : svc_entry) : binding :=
  Binding (svc_port e) (svc_owner e) (svc_version e).

Lemma bus_rep_entry s m i e :
  bus_rep s m -> svc_table s !! i = Some e -> entry_ok e.
Proof. intros [_ H _ _ _] He. by eapply Forall_lookup_1 in H. Qed.

(** The scans of the code find what the map holds. *)
Lemma bus_rep_find s m nm :
  bus_rep s m -> valid_name nm ->
  match find_slot (svc_match nm) (svc_table s) with
  | Some (i, e) => svc_table s !! i = Some e /\ entry_pair e = Some (nm, entry_binding e) /\
                   m !! nm = Some (entry_binding e)
  | None => m !! nm = None
  end.
Proof.
  intros Hr Hv. destruct (find_slot _ _) as [[i e]|] eqn:E.
  - apply find_slot_Some in E as [He Hm]. apply svc_match_iff in Hm as [Ha Hc];
      [|done|by eapply bus_rep_entry].
    assert (entry_pair e = Some (nm, entry_binding e)) as Hp
      by (unfold entry_pair; by rewrite Ha, Hc).
    split; [done|]. split; [done|]. rewrite (br_map _ _ Hr).
    apply elem_of_list_to_map_1; [apply Hr|]. apply list_elem_of_omap.
    exists e. split; [by eapply list_elem_of_lookup_2|done].
  - rewrite find_slot_None in E. rewrite (br_map _ _ Hr).
    apply not_elem_of_list_to_map_1. intros ((nm' & b) & Hnm & Hin)%list_elem_of_fmap.
    simpl in Hnm. subst nm'.
    apply list_elem_of_omap in Hin as (e & He & Hp). apply list_elem_of_lookup in He as [i He].
    unfold entry_pair in Hp. destruct (svc_active e) eqn:Ha; [|done]. injection Hp as Hc _.
    assert (svc_match nm e = true) as Hm; [|by rewrite (E i e He) in Hm].
    apply svc_match_iff; [done|by eapply bus_rep_entry|done].
Qed.

Lemma bus_rep_size s m : bus_rep s m -> size m = count_if svc_active (svc_table s).
Proof.
  intros Hr. rewrite (br_map _ _ Hr), <- (length_omap_count entry_pair).
  - rewrite map_size_list_to_map by apply Hr. done.
  - intros e. unfold entry_pair. by destruct (svc_active e).
Qed.

Lemma bus_rep_full s m :
  bus_rep s m ->
  find_slot (fun e => negb (svc_active e)) (svc_table s) = None <-> size m = SVCBUS_MAX_SERVICES.
Proof.
  intros Hr. rewrite (bus_rep_size s m Hr), <- (br_len _ _ Hr), find_slot_None. split.
  - intros H. clear Hr. induction (svc_table s) as [|e t IH]; [done|]. simpl.
    pose proof (H 0%nat e eq_refl) as He. bools. rewrite He.
    rewrite IH; [done|]. intros i x Hx. by apply (H (S i)).
  - intros H i e He. destruct (svc_active e) eqn:Ha; [done|].
    pose proof (count_if_lt_length svc_active _ _ _ He Ha). lia.
Qed.

(** A slot that is rewritten with the map following. *)
Lemma bus_rep_put s m i e m' n caps :
  bus_rep s m -> (i < length (svc_table s))%nat -> entry_ok e ->
  NoDup (pairs (<[i := e]> (svc_table s))).*1 ->
  m' = list_to_map (pairs (<[i := e]> (svc_table s))) -> n = Z.of_nat (size m') ->
  bus_rep (Bus (<[i := e]> (svc_table s)) n caps) m'.
Proof.
  intros [H1 H2 H3 H4 H5] Hi He Hn Hm Hc. split; simpl; try done.
  - by rewrite length_insert.
  - by apply Forall_insert.
Qed.

Lemma stored_name_ok e nm :
  entry_ok e -> valid_name nm ->
  let nm' := <[(SVCBUS_NAME_LEN - 1)%nat := 0]> (strncpy (svc_name e) nm (SVCBUS_NAME_LEN - 1)) in
  byte_list nm' /\ length nm' = SVCBUS_NAME_LEN /\ c_str nm' = nm.
Proof.
  intros (Hb & Hl & _) (Hnb & Hnz & Hnl). simpl. unfold strncpy.
  assert (exists k, SVCBUS_NAME_LEN = S k) as [k Hk] by (exists 63%nat; done).
  rewrite Hk in *. replace (S k - 1)%nat with k by lia.
  rewrite (insert_app_r_alt _ _ k) by (rewrite length_strncpy_bytes; lia).
  rewrite length_strncpy_bytes, Nat.sub_diag.
  destruct (drop k (svc_name e)) as [|x rest] eqn:Hd.
  { apply (f_equal length) in Hd. rewrite length_drop in Hd. simpl in Hd. lia. }
  assert (rest = []) as ->.
  { apply (f_equal length) in Hd. rewrite length_drop in Hd. simpl in Hd. destruct rest; [done|simpl in Hd; lia]. }
  cbn. split; [|split].
  - apply Forall_app. split; [by apply strncpy_bytes_bytes|by repeat constructor].
  - rewrite length_app, length_strncpy_bytes. simpl. lia.
  - rewrite c_str_strncpy by done. rewrite c_str_no_zero, take_ge by (done || lia). done.
Qed.

Lemma bus_rep_init caps : bus_rep (svcbus_init caps) ∅.
Proof.
  assert (forall n, pairs (replicate n svc_zero) = []) as Hp by (by induction n).
  unfold svcbus_init. split; simpl; rewrite ?Hp; try done; [|constructor].
  apply Forall_replicate. unfold entry_ok. cbn. split; [by apply Forall_replicate|].
  split; [apply length_replicate|]. by vm_compute; lia.
Qed.

Lemma register_sim nm port owner version s m :
  bus_rep s m -> valid_name nm ->
  let '(r, s') := svcbus_register (Some nm) port owner version s in
  let '(r', m') := spec_register nm port owner version m in
  r = r' /\ bus_rep s' m'.
Proof.
  intros Hr Hv. unfold svcbus_register, spec_register, PORT_INVALID. case_if; [done|].
  pose proof (bus_rep_find s m nm Hr Hv) as Hf. unfold find_slot in Hf at 1.
  destruct (find_idx (svc_match nm) (svc_table s)) as [k|] eqn:Ek.
  { apply find_idx_Some in Ek as (x & Hx & _). simpl in Hf. rewrite Hx in Hf. simpl in Hf.
    destruct Hf as (_ & _ & Hm). by rewrite Hm. }
  simpl in Hf. rewrite Hf. rewrite (bool_decide_eq_false_2 (is_Some None)) by by intros [].
  pose proof (bus_rep_full s m Hr) as Hfull. change SVCBUS_MAX_SERVICES with 64%nat in Hfull.
  destruct (find_slot _ (svc_table s)) as [[i e]|] eqn:Es.
  2: { rewrite (decide_True_pi (proj1 Hfull eq_refl)). done. }
  rewrite decide_False by (intros H; by apply Hfull in H).
  apply find_slot_Some in Es as [He Hina]. bools.
  destruct (cap_create _ _ _ _ _) as [cap caps]. split; [done|].
  pose proof (bus_rep_entry _ _ _ _ Hr He) as Heok.
  destruct (stored_name_ok e nm Heok Hv) as (N1 & N2 & N3).
  set (nm' := <[_ := 0]> _) in *. clearbody nm'.
  set (e' := SvcEntry nm' port cap owner version true).
  assert (pairs (<[i := e']> (svc_table s)) ≡ₚ (nm, entry_binding e') :: pairs (svc_table s)) as Hp.
  { apply (omap_fill entry_pair _ i e); [done| |]; unfold entry_pair; [by rewrite Hina|].
    simpl. by rewrite N3. }
  assert (NoDup (pairs (<[i := e']> (svc_table s))).*1) as Hnd.
  { rewrite Hp. csimpl. constructor; [|apply Hr].
    rewrite (br_map _ _ Hr) in Hf. by apply not_elem_of_list_to_map. }
  assert (<[nm := entry_binding e']> m = list_to_map (pairs (<[i := e']> (svc_table s)))) as Hm'.
  { rewrite (list_to_map_proper _ _ Hnd Hp). simpl. by rewrite <- (br_map _ _ Hr). }
  eapply bus_rep_put; [done|by eapply lookup_lt_Some| |done|done|].
  - unfold entry_ok. simpl. rewrite N3. split; [done|]. split; [done|]. apply Hv.
  - rewrite map_size_insert_None, (br_count _ _ Hr) by done. rewrite Nat2Z.inj_succ.
    pose proof (bus_rep_size _ _ Hr). pose proof (count_if_le svc_active (svc_table s)).
    rewrite (br_len _ _ Hr) in *. change SVCBUS_MAX_SERVICES with 64%nat in *.
    rewrite u32_small; lia.
Qed.

Lemma unregister_sim nm owner s m :
  bus_rep s m -> valid_name nm ->
  let '(r, s') := svcbus_unregister nm owner s in
  let '(r', m') := spec_unregister nm owner m in
  r = r' /\ bus_rep s' m'.
Proof.
  intros Hr Hv. unfold svcbus_unregister, spec_unregister.
  pose proof (bus_rep_find s m nm Hr Hv) as Hf.
  destruct (find_slot _ _) as [[i e]|]; [|by rewrite Hf].
  destruct Hf as (He & Hpe & Hm). rewrite Hm. cbn [b_owner entry_binding].
  destruct (Z.eqb_spec (svc_owner e) owner) as [Ho|Ho]; cbn [negb];
    [rewrite decide_True by done|by rewrite decide_False by done].
  split; [done|]. set (e' := SvcEntry _ _ _ _ _ false).
  pose proof (bus_rep_entry _ _ _ _ Hr He) as Heok.
  assert (pairs (svc_table s) ≡ₚ (nm, entry_binding e) :: pairs (<[i := e']> (svc_table s))) as Hp
    by by apply (omap_clear entry_pair _ i e).
  pose proof (br_nodup _ _ Hr) as Hnd. pose proof Hnd as Hnd'.
  rewrite Hp in Hnd'. csimpl in Hnd'. apply NoDup_cons in Hnd' as [Hnin Hnd'].
  assert (delete nm m = list_to_map (pairs (<[i := e']> (svc_table s)))) as Hm'.
  { rewrite (br_map _ _ Hr), (list_to_map_proper _ _ Hnd Hp). simpl.
    rewrite delete_insert_eq, delete_id; [done|]. by apply not_elem_of_list_to_map_1. }
  eapply bus_rep_put; [done|by eapply lookup_lt_Some|done|done|done|].
  rewrite map_size_delete_Some, (br_count _ _ Hr) by done.
  pose proof (bus_rep_size _ _ Hr). pose proof (count_if_le svc_active (svc_table s)).
  assert (0 < size m)%nat by (apply Nat.neq_0_lt_0; intros Hm0%map_size_empty_inv; subst; done).
  rewrite (br_len _ _ Hr) in *. change SVCBUS_MAX_SERVICES with 64%nat in *.
  rewrite u32_small; lia.
Qed.

(** ** Sequences of calls *)

Inductive bus_call :=
| CRegister (nm : list Z) (port owner version : Z)
| CLookup (nm : list Z)
| CUnregister (nm : list Z) (owner : Z).

Definition call_name (c : bus_call) : list Z :=
  match c with CRegister nm _ _ _ => nm | CLookup nm => nm | CUnregister nm _ => nm end.

(** The error code and, for a lookup, the port. *)
Definition bus_exec (c : bus_call) (s : bus) : svc_err * option Z * bus :=
  match c with
  | CRegister nm p o v => let '(r, s) := svcbus_register (Some nm) p o v s in (r, None, s)
  | CLookup nm => let '(r, out, s) := svcbus_lookup (Some nm) true s in (r, fst <$> out, s)
  | CUnregister nm o => let '(r, s) := svcbus_unregister nm o s in (r, None, s)
  end.

Definition reg_exec (c : bus_call) (m : gmap (list Z) binding)
    : svc_err * option Z * gmap (list Z) binding :=
  match c with
  | CRegister nm p o v => let '(r, m) := spec_register nm p o v m in (r, None, m)
  | CLookup nm =>
      match m !! nm with
      | Some b => (SVC_OK, Some (b_port b), m)
      | None => (SVC_ERR_NOTFOUND, None, m)
      end
  | CUnregister nm o => let '(r, m) := spec_unregister nm o m in (r, None, m)
  end.

Fixpoint run {S} (exec : bus_call -> S -> svc_err * option Z * S) (cs : list bus_call) (s : S)
    : list (svc_err * option Z) :=
  match cs with
  | [] => []
  | c :: cs => let '(r, out, s) := exec c s in (r, out) :: run exec cs s
  end.

Lemma bus_exec_sim c s m :
  bus_rep s m -> valid_name (call_name c) ->
  let '(r, out, s') := bus_exec c s in
  let '(r', out', m') := reg_exec c m in
  r = r' /\ out = out' /\ bus_rep s' m'.
Proof.
  intros Hr Hv. destruct c as [nm p o v|nm|nm o]; cbn [bus_exec reg_exec call_name] in *.
  - pose proof (register_sim nm p o v s m Hr Hv) as H.
    destruct (svcbus_register _ _ _ _ _), (spec_register _ _ _ _ _). destruct H as [-> ?]. by split_and!.
  - pose proof (bus_rep_find s m nm Hr Hv) as Hf. unfold svcbus_lookup. cbn [negb].
    destruct (find_slot _ _) as [[i e]|].
    + destruct Hf as (_ & _ & ->). split; [done|]. split; [done|]. by destruct Hr; split.
    + by rewrite Hf.
  - pose proof (unregister_sim nm o s m Hr Hv) as H.
    destruct (svcbus_unregister _ _ _), (spec_unregister _ _ _). destruct H as [-> ?]. by split_and!.
Qed.


Definition demo_calls : list bus_call :=
  [CRegister [97; 98] 4 7 1; CRegister [97; 98] 5 7 1; CLookup [97; 98];
   CUnregister [97; 98] 8; CUnregister [97; 98] 7; CLookup [97; 98]].


(** *** Names that do not fit *)

Lemma long_name_no_match nm s :
  Forall entry_ok (svc_table s) -> byte_list nm -> no_zero nm -> (SVCBUS_NAME_LEN <= length nm)%nat ->
  find_idx (svc_match nm) (svc_table s) = None.
Proof.
  intros Ht Hb Hz Hl. apply find_idx_None. intros i e He.
  eapply Forall_lookup_1 in Ht as (Hbe & _ & Hle); [|done]. unfold svc_match.
  destruct (svc_active e); [|done]. cbn [andb]. apply Z.eqb_neq. rewrite strncmp_0 by done.
  rewrite (c_str_no_zero nm) by done. intros E. apply (f_equal length) in E.
  rewrite !length_take in E. lia.
Qed.

Lemma c_str_insert_zero l k :
  (k < length l)%nat -> (length (c_str (<[k := 0%Z]> l)) <= k)%nat.
Proof.
  revert k. induction l as [|x l IH]; intros [|k] Hk; simpl in *; try lia.
  case_if; simpl; [lia|]. specialize (IH k). lia.
Qed.

(** a name of 64 or more characters is accepted by
    [svcbus_register] but stored truncated to 63, so that neither a later
    lookup nor the duplicate check ever finds it. *)
Theorem svcbus_long_name_lost (nm : list Z) (port owner version : Z) (s : bus) :
  Forall entry_ok (svc_table s) -> byte_list nm -> no_zero nm -> (SVCBUS_NAME_LEN <= length nm)%nat ->
  port <> PORT_INVALID -> is_Some (find_slot (fun e => negb (svc_active e)) (svc_table s)) ->
  let '(r, s') := svcbus_register (Some nm) port owner version s in
  r = SVC_OK /\ (svcbus_lookup (Some nm) true s').1 = (SVC_ERR_NOTFOUND, None) /\
  (svcbus_register (Some nm) port owner version s').1 <> SVC_ERR_EXISTS.
Proof.
  intros Ht Hb Hz Hl Hp [[i e] Hs]. unfold svcbus_register at 1.
  rewrite (proj2 (Z.eqb_neq _ _) Hp), long_name_no_match, Hs by done.
  destruct (cap_create _ _ _ _ _) as [cap caps]. split; [done|].
  set (s' := Bus _ _ _). assert (Forall entry_ok (svc_table s')) as Ht'.
  { apply Forall_insert; [done|]. unfold entry_ok. simpl. apply find_slot_Some in Hs as [He _].
    eapply Forall_lookup_1 in Ht as (Hbe & Hle & _); [|done].
    assert (0 < SVCBUS_NAME_LEN)%nat by (vm_compute; lia).
    assert (length (strncpy (svc_name e) nm (SVCBUS_NAME_LEN - 1)) = SVCBUS_NAME_LEN) as Hls.
    { unfold strncpy. rewrite length_app, length_strncpy_bytes, length_drop. lia. }
    split_and!; [|by rewrite length_insert|].
    - apply Forall_insert; [|lia]. apply Forall_app.
      split; [by apply strncpy_bytes_bytes|by apply Forall_drop].
    - eapply Nat.le_lt_trans; [apply c_str_insert_zero|]; lia. }
  pose proof (long_name_no_match nm s' Ht' Hb Hz Hl) as Hno. clearbody s'. clear Hs. split.
  - unfold svcbus_lookup, find_slot. by rewrite Hno.
  - unfold svcbus_register. rewrite (proj2 (Z.eqb_neq _ _) Hp), Hno.
    destruct (find_slot _ _) as [[? ?]|]; [|done]. by destruct (cap_create _ _ _ _ _).
Qed.

Lemma svcbus_long_name_lost_witness :
  let s := svcbus_init (cap_table_init (secmon_init 0)) in
  let '(r, s') := svcbus_register (Some (replicate 64 97)) 3 7 1 s in
  r = SVC_OK /\ (svcbus_lookup (Some (replicate 64 97)) true s').1 = (SVC_ERR_NOTFOUND, None) /\
  (svcbus_register (Some (replicate 64 97)) 3 7 1 s').1 <> SVC_ERR_EXISTS.
Proof.
  apply (svcbus_long_name_lost (replicate 64 97) 3 7 1 (svcbus_init (cap_table_init (secmon_init 0)))).
  - apply (bus_rep_init (cap_table_init (secmon_init 0))).
  - by apply Forall_replicate.
  - by apply Forall_replicate.
  - vm_compute. lia.
  - done.
  - eexists. vm_compute. reflexivity.
Defined.
