(* ===== verification/Ipc.v ===== *)
(** * Message ports ([kernel/ipc.c], [include/kernel/ipc.h])

    A table of [IPC_MAX_PORTS] ports, each with a circular queue of
    [IPC_PORT_QUEUE_SIZE] messages.  The operations are translated one by one;
    the state carries the capability table because ports own a capability and
    messages carry capabilities that are checked on send.

    [ipc_receive] polls its queue and calls [scheduler_yield] between polls.
    What the other tasks do during a yield is the parameter [yield] (it sees
    the number of the poll); the theorems hold for every such function.  The
    contract shown is a bounded FIFO mailbox per port. *)

From S2P Require Import Prelude Ring Secmon Cap.

(** ** Data ([ipc.h]) *)

Definition IPC_MSG_CAPS_MAX : nat := 4.
Definition IPC_PORT_QUEUE_SIZE : nat := 64.
Definition IPC_MAX_PORTS : nat := 1024.
Definition IPC_TIMEOUT_FOREVER : Z := 0xFFFFFFFF.
Definition IPC_TIMEOUT_NONE : Z := 0.
Definition PORT_INVALID : Z := 0.
Definition MSG_FLAG_REPLY : Z := 0x08.

Record ipc_msg := IpcMsg {
  msg_id : Z;
  msg_type : Z;
  msg_flags : Z;
  msg_reply_port : Z;
  msg_sender_tid : Z;
  msg_cap_count : Z;
  msg_caps : list Z;
  msg_data_len : Z;
  msg_data : list Z
}.

Definition msg_zero : ipc_msg := IpcMsg 0 0 0 0 0 0 (replicate IPC_MSG_CAPS_MAX 0) 0 [].

Record ipc_port := IpcPort {
  p_id : Z;
  p_cap : Z;
  p_owner : Z;
  p_queue : list ipc_msg;
  p_head : nat;
  p_tail : nat;
  p_count : nat;
  p_valid : bool;
  p_closed : bool
}.

Definition port_zero : ipc_port :=
  IpcPort 0 0 0 (replicate IPC_PORT_QUEUE_SIZE msg_zero) 0 0 0 false false.

Inductive ipc_err : Set :=
| IPC_OK | IPC_ERR_INVALID | IPC_ERR_NOPERM | IPC_ERR_FULL | IPC_ERR_CLOSED
| IPC_ERR_TIMEOUT | IPC_ERR_AGAIN.

#[export] Instance ipc_err_eq_dec : EqDecision ipc_err.
Proof. solve_decision. Defined.

(** The static variables of [ipc.c], and the capability table. *)
Record ipc_st := IpcSt {
  port_table : list ipc_port;
  port_next_id : Z;
  port_active : Z;
  msg_seq : Z;
  ipc_caps : cap_st
}.

Definition put_port (i : nat) (p : ipc_port) (s : ipc_st) : ipc_st :=
  IpcSt (<[i := p]> (port_table s)) (port_next_id s) (port_active s) (msg_seq s) (ipc_caps s).
Definition set_caps (c : cap_st) (s : ipc_st) : ipc_st :=
  IpcSt (port_table s) (port_next_id s) (port_active s) (msg_seq s) c.
Definition add_ports (d : Z) (s : ipc_st) : ipc_st :=
  IpcSt (port_table s) (port_next_id s) (u32 (port_active s + d)) (msg_seq s) (ipc_caps s).
Definition set_seq (n : Z) (s : ipc_st) : ipc_st :=
  IpcSt (port_table s) (port_next_id s) (port_active s) n (ipc_caps s).

(** [secmon_audit_ipc] on the monitor behind the capability table. *)
Definition audit_ipc (t : audit_event_type) (a p m : Z) (s : ipc_st) : ipc_st :=
  let c := ipc_caps s in
  set_caps (CapSt (cap_table c) (cap_next_id c) (cap_active_count c)
                  (secmon_audit_ipc t a p m (cap_sec c))) s.

(** ** Operations *)

Definition find_port (id : Z) (s : ipc_st) : option (nat * ipc_port) :=
  if id =? PORT_INVALID then None
  else find_slot (fun p => p_valid p && (p_id p =? id)) (port_table s).

Definition alloc_port (s : ipc_st) : option (nat * ipc_port) :=
  find_slot (fun p => negb (p_valid p)) (port_table s).

Definition ipc_init (caps : cap_st) : ipc_st :=
  IpcSt (replicate IPC_MAX_PORTS port_zero) 1 0 1 caps.

Definition ipc_port_create (owner_tid : Z) (s : ipc_st) : Z * ipc_st :=
  match alloc_port s with
  | None => (PORT_INVALID, s)
  | Some (i, p) =>
      let id := port_next_id s in
      let n := u32 (id + 1) in
      let s := IpcSt (port_table s) (if n =? 0 then 1 else n) (port_active s)
                     (msg_seq s) (ipc_caps s) in
      let '(cap, caps) := cap_create CAP_TYPE_PORT
            (CAP_RIGHT_READ .| CAP_RIGHT_WRITE .| CAP_RIGHT_GRANT) (OPort i) owner_tid
            (ipc_caps s) in
      let s := put_port i (IpcPort id cap owner_tid (p_queue p) 0 0 0 true false) s in
      (id, add_ports 1 (set_caps caps s))
  end.

Definition ipc_port_destroy (port_id : Z) (s : ipc_st) : ipc_st :=
  match find_port port_id s with
  | None => s
  | Some (i, p) =>
      let caps := if p_cap p =? CAP_INVALID_ID then ipc_caps s
                  else cap_release (p_cap p) (ipc_caps s) in
      let s := put_port i (IpcPort (p_id p) CAP_INVALID_ID (p_owner p) (p_queue p)
                                   (p_head p) (p_tail p) (p_count p) false true) s in
      add_ports (-1) (set_caps caps s)
  end.

Definition ipc_port_cap (port_id : Z) (s : ipc_st) : Z :=
  match find_port port_id s with
  | Some (_, p) => p_cap p
  | None => CAP_INVALID_ID
  end.

(** The capabilities of a message that [ipc_send] validates. *)
Definition checked_caps (msg : ipc_msg) : list Z :=
  let ncaps := if msg_cap_count msg <? Z.of_nat IPC_MSG_CAPS_MAX
               then msg_cap_count msg else Z.of_nat IPC_MSG_CAPS_MAX in
  take (Z.to_nat ncaps) (msg_caps msg).

Definition set_msg_id (n : Z) (m : ipc_msg) : ipc_msg :=
  IpcMsg n (msg_type m) (msg_flags m) (msg_reply_port m) (msg_sender_tid m)
         (msg_cap_count m) (msg_caps m) (msg_data_len m) (msg_data m).
Definition set_reply_port (n : Z) (m : ipc_msg) : ipc_msg :=
  IpcMsg (msg_id m) (msg_type m) (msg_flags m) n (msg_sender_tid m)
         (msg_cap_count m) (msg_caps m) (msg_data_len m) (msg_data m).
Definition set_flags (n : Z) (m : ipc_msg) : ipc_msg :=
  IpcMsg (msg_id m) (msg_type m) n (msg_reply_port m) (msg_sender_tid m)
         (msg_cap_count m) (msg_caps m) (msg_data_len m) (msg_data m).

(** The tail of [ipc_send], from the comment [Enqueue] on. *)
Definition enqueue (i : nat) (p : ipc_port) (port_id : Z) (msg : ipc_msg) (s : ipc_st) : ipc_st :=
  let slot := set_msg_id (msg_seq s) msg in
  let s := set_seq (u32 (msg_seq s + 1)) s in
  let p := IpcPort (p_id p) (p_cap p) (p_owner p) (<[p_tail p := slot]> (p_queue p))
                   (p_head p) ((p_tail p + 1) mod IPC_PORT_QUEUE_SIZE)
                   (p_count p + 1) (p_valid p) (p_closed p) in
  let s := put_port i p s in
  audit_ipc AUDIT_IPC_SEND (msg_sender_tid msg) port_id (msg_type msg) s.

Definition ipc_send (port_id : Z) (msg : option ipc_msg) (s : ipc_st) : ipc_err * ipc_st :=
  match msg with
  | None => (IPC_ERR_INVALID, s)
  | Some msg =>
      match find_port port_id s with
      | None => (IPC_ERR_INVALID, s)
      | Some (i, p) =>
          if p_closed p then (IPC_ERR_CLOSED, s)
          else if (IPC_PORT_QUEUE_SIZE <=? p_count p)%nat then (IPC_ERR_FULL, s)
          else if negb (forallb (fun c => cap_check c CAP_RIGHT_GRANT (ipc_caps s))
                                (checked_caps msg))
          then (IPC_ERR_NOPERM, s)
          else (IPC_OK, enqueue i p port_id msg s)
      end
  end.

(** One poll of the receive loop on the port in slot [i]: [Some] when the loop
    returns, [None] when it yields.  The pointer [p] of the code stays on the
    slot, whatever happens to the port in between. *)
Definition receive_poll (i : nat) (port_id timeout_ms waited : Z) (s : ipc_st)
    : option (ipc_err * option ipc_msg * ipc_st) :=
  match port_table s !! i with
  | None => Some (IPC_ERR_INVALID, None, s)
  | Some p =>
      if (0 <? p_count p)%nat then
        let out := default msg_zero (p_queue p !! p_head p) in
        let s := put_port i (IpcPort (p_id p) (p_cap p) (p_owner p) (p_queue p)
                   ((p_head p + 1) mod IPC_PORT_QUEUE_SIZE) (p_tail p) (p_count p - 1)
                   (p_valid p) (p_closed p)) s in
        Some (IPC_OK, Some out,
              audit_ipc AUDIT_IPC_RECV (msg_sender_tid out) port_id (msg_type out) s)
      else if p_closed p then Some (IPC_ERR_CLOSED, None, s)
      else if timeout_ms =? IPC_TIMEOUT_NONE then Some (IPC_ERR_AGAIN, None, s)
      else if negb (timeout_ms =? IPC_TIMEOUT_FOREVER) && (timeout_ms <=? waited)
      then Some (IPC_ERR_TIMEOUT, None, s)
      else None
  end.

Section receive.
(** [yield n] is what the rest of the system does to the IPC state during the
    [n]-th [scheduler_yield] of this call. *)
Variable yield : nat -> ipc_st -> ipc_st.

Fixpoint receive_loop (fuel : nat) (n : nat) (i : nat) (port_id timeout_ms waited : Z)
    (s : ipc_st) : option (ipc_err * option ipc_msg * ipc_st) :=
  match fuel with
  | O => None
  | S fuel =>
      match receive_poll i port_id timeout_ms waited s with
      | Some r => Some r
      | None => receive_loop fuel (S n) i port_id timeout_ms (u32 (waited + 2)) (yield n s)
      end
  end.

(** [has_out] is whether the out pointer is not null. *)
Definition ipc_receive (fuel : nat) (port_id : Z) (has_out : bool) (timeout_ms : Z)
    (s : ipc_st) : option (ipc_err * option ipc_msg * ipc_st) :=
  match find_port port_id s with
  | None => Some (IPC_ERR_INVALID, None, s)
  | Some (i, _) =>
      if negb has_out then Some (IPC_ERR_INVALID, None, s)
      else receive_loop fuel 0 i port_id timeout_ms 0 s
  end.

(** The message is an in-out parameter: the second component of the result is
    its value when the call returns. *)
Definition ipc_call (fuel : nat) (port_id : Z) (msg : ipc_msg) (timeout_ms : Z)
    (s : ipc_st) : option (ipc_err * ipc_msg * ipc_st) :=
  let '(reply, s) := ipc_port_create (msg_sender_tid msg) s in
  if reply =? PORT_INVALID then Some (IPC_ERR_INVALID, msg, s)
  else
    let msg := set_reply_port reply msg in
    match ipc_send port_id (Some msg) s with
    | (IPC_OK, s) =>
        '(err, out, s) ← ipc_receive fuel reply true timeout_ms s;
        Some (err, default msg out, ipc_port_destroy reply s)
    | (err, s) => Some (err, msg, ipc_port_destroy reply s)
    end.
End receive.

Definition ipc_reply (request : option ipc_msg) (reply_data : ipc_msg) (s : ipc_st)
    : ipc_err * ipc_st :=
  match request with
  | None => (IPC_ERR_INVALID, s)
  | Some request =>
      if msg_reply_port request =? PORT_INVALID then (IPC_ERR_INVALID, s)
      else
        let reply := set_msg_id (msg_seq s)
                       (set_flags (msg_flags reply_data .| MSG_FLAG_REPLY) reply_data) in
        let s := set_seq (u32 (msg_seq s + 1)) s in
        ipc_send (msg_reply_port request) (Some reply) s
  end.

Definition ipc_pending (port_id : Z) (s : ipc_st) : Z :=
  match find_port port_id s with
  | Some (_, p) => Z.of_nat (p_count p)
  | None => 0
  end.

#[global] Opaque IPC_PORT_QUEUE_SIZE IPC_MAX_PORTS.

(** ** Mailboxes: the abstract view *)

Definition plive (s : ipc_st) (i : nat) (p : ipc_port) : Prop :=
  port_table s !! i = Some p /\ p_valid p = true.

(** The queue of a port holds the messages [l], oldest first. *)
Definition port_holds (p : ipc_port) (l : list ipc_msg) : Prop :=
  ring_rep IPC_PORT_QUEUE_SIZE (p_queue p) (p_head p) (p_count p) l /\
  p_tail p = ((p_head p + p_count p) mod IPC_PORT_QUEUE_SIZE)%nat.

Definition mailbox (s : ipc_st) (id : Z) (l : list ipc_msg) : Prop :=
  exists i p, plive s i p /\ p_id p = id /\ port_holds p l.

Record ipc_wf (s : ipc_st) : Prop := {
  iw_len : length (port_table s) = IPC_MAX_PORTS;
  iw_queues : forall i p, port_table s !! i = Some p ->
      length (p_queue p) = IPC_PORT_QUEUE_SIZE;
  iw_uniq : forall i j p q, plive s i p -> plive s j q -> p_id p = p_id q -> i = j;
  iw_ids : forall i p, plive s i p -> 0 < p_id p < port_next_id s /\ p_closed p = false;
  iw_rings : forall i p, plive s i p -> exists l, port_holds p l;
  iw_next : 0 < port_next_id s < 2 ^ 32;
  iw_active : port_active s = Z.of_nat (count_if p_valid (port_table s))
}.

(** ** Lemmas: the port table *)

Lemma find_port_Some id s i p :
  find_port id s = Some (i, p) -> plive s i p /\ p_id p = id /\ id <> 0.
Proof.
  unfold find_port. case_if; [done|]. intros [? ?]%find_slot_Some. bools. done.
Qed.

Lemma find_port_live s i p :
  ipc_wf s -> plive s i p -> find_port (p_id p) s = Some (i, p).
Proof.
  intros H Hl. unfold find_port. destruct (iw_ids s H i p Hl) as [? _].
  rewrite (proj2 (Z.eqb_neq _ _)) by (unfold PORT_INVALID; lia).
  apply find_slot_unique; [apply Hl| |].
  - rewrite (proj2 Hl). apply Z.eqb_refl.
  - intros j q Hq ?. bools. by eapply (iw_uniq s H).
Qed.

Lemma find_port_None id s : find_port id s = None ->
  id = 0 \/ forall i p, plive s i p -> p_id p <> id.
Proof.
  unfold find_port. case_if; bools; [by left|]. intros Hn. right. intros i p [Hp Hv] E.
  apply find_slot_None with (i := i) (x := p) in Hn; [|done].
  by rewrite Hv, E, Z.eqb_refl in Hn.
Qed.

Lemma plive_lt s i p : plive s i p -> (i < length (port_table s))%nat.
Proof. intros [H _]. by apply lookup_lt_Some in H. Qed.

Lemma plive_put s s' i q j r :
  (i < length (port_table s))%nat ->
  port_table s' = <[i := q]> (port_table s) ->
  plive s' j r <-> (j = i /\ r = q /\ p_valid q = true) \/ (j <> i /\ plive s j r).
Proof.
  intros Hi E. unfold plive. rewrite E, lookup_put by done.
  split; [intros [[[-> ->]|[? ?]] ?]; auto|intros [(-> & -> & ?)|[? [? ?]]]; auto].
Qed.

(** The table with one live port rewritten in place. *)
Record port_upd (s : ipc_st) (i : nat) (p q : ipc_port) (s' : ipc_st) : Prop := {
  pu_live : plive s i p;
  pu_table : port_table s' = <[i := q]> (port_table s);
  pu_next : port_next_id s' = port_next_id s;
  pu_active : port_active s' = port_active s;
  pu_valid : p_valid q = true;
  pu_id : p_id q = p_id p;
  pu_closed : p_closed q = p_closed p
}.

Lemma port_upd_wf s i p q s' l :
  ipc_wf s -> port_upd s i p q s' -> port_holds q l -> ipc_wf s'.
Proof.
  intros [W1 W2 W3 W4 W5 W6 W7] [U1 U2 U3 U4 U5 U6 U7] Hq.
  assert (i < length (port_table s))%nat as Hi by (by eapply plive_lt).
  assert (forall j r, plive s' j r -> exists r0, plive s j r0 /\ p_id r = p_id r0 /\
            p_closed r = p_closed r0 /\ (exists l, port_holds r l)) as Hback.
  { intros j r Hr. apply (plive_put s s' i q) in Hr; [|done..].
    destruct Hr as [(-> & -> & _)|[_ Hr]]; [exists p; eauto|exists r; eauto]. }
  split.
  - by rewrite U2, length_insert.
  - intros j r. rewrite U2, lookup_put by done.
    intros [[-> ->]|[_ Hr]]; [|by eapply W2]. by destruct Hq as [[? _ _ _ _] _].
  - intros j k r t Hr Ht E. destruct (Hback _ _ Hr) as (r0 & ? & ? & _).
    destruct (Hback _ _ Ht) as (t0 & ? & ? & _). eapply W3; eauto. congruence.
  - intros j r Hr. destruct (Hback _ _ Hr) as (r0 & Hr0 & -> & -> & _). rewrite U3. eauto.
  - intros j r Hr. destruct (Hback _ _ Hr) as (r0 & _ & _ & _ & Hl). done.
  - by rewrite U3.
  - rewrite U4, U2, W7. f_equal.
    pose proof (count_if_insert p_valid (port_table s) i p q (proj1 U1)) as E.
    rewrite U5, (proj2 U1) in E. lia.
Qed.

Lemma port_upd_mailbox s i p q s' l :
  ipc_wf s -> port_upd s i p q s' -> port_holds q l ->
  mailbox s' (p_id p) l /\
  (forall id' l', id' <> p_id p -> mailbox s' id' l' <-> mailbox s id' l').
Proof.
  intros H [U1 U2 U3 U4 U5 U6 U7] Hq.
  assert (i < length (port_table s))%nat as Hi by (by eapply plive_lt). split.
  - exists i, q. split_and!; [|done|done]. apply (plive_put s s' i q); auto.
  - intros id' l' Hne. split; intros (j & r & Hr & E & Hl).
    + apply (plive_put s s' i q) in Hr; [|done..].
      destruct Hr as [(-> & -> & _)|[_ Hr]]; [congruence|by exists j, r].
    + exists j, r. split_and!; [|done..]. apply (plive_put s s' i q); [done..|]. right.
      split; [|done]. intros ->. destruct Hr as [Hr _], U1 as [U1 _]. simplify_eq.
Qed.

Lemma mailbox_find s id l :
  ipc_wf s -> mailbox s id l ->
  exists i p, find_port id s = Some (i, p) /\ plive s i p /\ p_id p = id /\
    p_closed p = false /\ port_holds p l.
Proof.
  intros H (i & p & Hp & <- & Hl). exists i, p. split_and!; try done.
  - by apply find_port_live.
  - by apply (iw_ids s H i p Hp).
Qed.

Lemma port_holds_count p l : port_holds p l -> p_count p = length l.
Proof. by intros [[_ _ -> _ _] _]. Qed.

(** A push on the queue of a port that is not full. *)
Lemma port_holds_push p l m :
  port_holds p l -> (p_count p < IPC_PORT_QUEUE_SIZE)%nat ->
  port_holds (IpcPort (p_id p) (p_cap p) (p_owner p) (<[p_tail p := m]> (p_queue p))
                (p_head p) ((p_tail p + 1) mod IPC_PORT_QUEUE_SIZE)
                (p_count p + 1) (p_valid p) (p_closed p)) (l ++ [m]).
Proof.
  intros [Hr Ht] Hc. split; simpl.
  - rewrite Ht, Nat.add_1_r. by apply ring_push.
  - rewrite Ht, ring_tail_push. f_equal. lia.
Qed.

Lemma port_holds_pop p l m :
  port_holds p (m :: l) ->
  p_queue p !! p_head p = Some m /\
  port_holds (IpcPort (p_id p) (p_cap p) (p_owner p) (p_queue p)
                ((p_head p + 1) mod IPC_PORT_QUEUE_SIZE) (p_tail p) (p_count p - 1)
                (p_valid p) (p_closed p)) l.
Proof.
  intros [Hr Ht]. destruct (ring_pop _ _ _ _ _ _ Hr) as [Hg Hr']. split; [done|].
  split; [done|]. simpl. rewrite Ht. apply ring_tail_pop.
  rewrite (rr_count _ _ _ _ _ Hr). simpl. lia.
Qed.

(** ** [ipc_send] and [ipc_receive] *)

Lemma ipc_send_spec s id l msg :
  ipc_wf s -> mailbox s id l ->
  exists s', ipc_send id (Some msg) s =
    (if (IPC_PORT_QUEUE_SIZE <=? length l)%nat then (IPC_ERR_FULL, s)
     else if negb (forallb (fun c => cap_check c CAP_RIGHT_GRANT (ipc_caps s)) (checked_caps msg))
     then (IPC_ERR_NOPERM, s) else (IPC_OK, s')) /\
    msg_seq s' = u32 (msg_seq s + 1) /\
    ((length l < IPC_PORT_QUEUE_SIZE)%nat -> ipc_wf s' /\
       mailbox s' id (l ++ [set_msg_id (msg_seq s) msg]) /\
       cap_table (ipc_caps s') = cap_table (ipc_caps s) /\
       forall id' l', id' <> id -> mailbox s' id' l' <-> mailbox s id' l').
Proof.
  intros H Hm. destruct (mailbox_find s id l H Hm) as (i & p & Hf & Hp & Hid & Hcl & Hh).
  set (m := set_msg_id (msg_seq s) msg).
  set (s' := enqueue i p id msg s). exists s'. split; [|split].
  - unfold ipc_send. by rewrite Hf, Hcl, (port_holds_count p l Hh).
  - done.
  - intros Hlt. rewrite <- (port_holds_count p l Hh) in Hlt.
    pose proof (port_holds_push p l m Hh Hlt) as Hq.
    assert (port_upd s i p (IpcPort (p_id p) (p_cap p) (p_owner p)
       (<[p_tail p := m]> (p_queue p)) (p_head p)
       ((p_tail p + 1) mod IPC_PORT_QUEUE_SIZE) (p_count p + 1) (p_valid p) (p_closed p)) s')
      as Hu by (split; try done; apply Hp).
    split; [by eapply port_upd_wf|]. rewrite <- Hid.
    destruct (port_upd_mailbox _ _ _ _ _ _ H Hu Hq) as [? ?]. done.
Qed.

Lemma receive_poll_spec s i p m l pid t w :
  ipc_wf s -> plive s i p -> port_holds p (m :: l) ->
  exists s', receive_poll i pid t w s = Some (IPC_OK, Some m, s') /\ ipc_wf s' /\
    mailbox s' (p_id p) l /\ msg_seq s' = msg_seq s /\
    cap_table (ipc_caps s') = cap_table (ipc_caps s) /\
    (forall id' l', id' <> p_id p -> mailbox s' id' l' <-> mailbox s id' l').
Proof.
  intros H Hp Hh. destruct (port_holds_pop p l m Hh) as [Hg Hq].
  unfold receive_poll. rewrite (proj1 Hp), (port_holds_count _ _ Hh). simpl. rewrite Hg. simpl.
  eexists. split; [rewrite (port_holds_count _ _ Hh) in Hq; reflexivity|].
  rewrite (port_holds_count _ _ Hh) in Hq. simpl in Hq.
  match goal with |- ipc_wf ?s' /\ _ => set (s1 := s') end.
  assert (port_upd s i p (IpcPort (p_id p) (p_cap p) (p_owner p) (p_queue p)
            ((p_head p + 1) mod IPC_PORT_QUEUE_SIZE) (p_tail p) (length l - 0)
            (p_valid p) (p_closed p)) s1) as Hu by (split; try done; apply Hp).
  destruct (port_upd_mailbox _ _ _ _ _ _ H Hu Hq) as [? ?].
  split; [by eapply port_upd_wf|]. done.
Qed.

Lemma ipc_receive_spec yield fuel s id m l t :
  ipc_wf s -> mailbox s id (m :: l) ->
  exists s', ipc_receive yield (S fuel) id true t s = Some (IPC_OK, Some m, s') /\ ipc_wf s' /\
    mailbox s' id l /\ msg_seq s' = msg_seq s /\
    cap_table (ipc_caps s') = cap_table (ipc_caps s) /\
    (forall id' l', id' <> id -> mailbox s' id' l' <-> mailbox s id' l').
Proof.
  intros H Hm. destruct (mailbox_find s id _ H Hm) as (i & p & Hf & Hp & Hid & _ & Hh).
  destruct (receive_poll_spec s i p m l id t 0 H Hp Hh) as (s' & E & Hrest).
  exists s'. unfold ipc_receive. rewrite Hf. simpl. rewrite E. split; [done|].
  by rewrite <- Hid.
Qed.

(** ** Creating and destroying ports *)

Lemma ipc_port_create_spec s t :
  ipc_wf s -> port_next_id s + 1 < 2 ^ 32 ->
  let '(id, s') := ipc_port_create t s in
  (id = 0 /\ s' = s /\ alloc_port s = None) \/
  (id = port_next_id s /\ ipc_wf s' /\ mailbox s' id [] /\ (forall l, ~ mailbox s id l) /\
   port_active s' = port_active s + 1 /\
   (forall id' l', id' <> id -> mailbox s' id' l' <-> mailbox s id' l')).
Proof.
  intros H Hb. unfold ipc_port_create. destruct (alloc_port s) as [[i p]|] eqn:Ha; [|by left].
  apply find_slot_Some in Ha as [Hp Hv]. bools. pose proof H as [W1 W2 W3 W4 W5 W6 W7].
  assert (i < length (port_table s))%nat as Hi by (by eapply lookup_lt_Some).
  rewrite u32_small by lia. destruct (Z.eqb_spec (port_next_id s + 1) 0) as [|_]; [lia|].
  simpl. destruct (cap_create _ _ _ _ _) as [c caps]. right.
  set (q := IpcPort (port_next_id s) c t (p_queue p) 0 0 0 true false).
  match goal with |- _ = _ /\ ipc_wf ?s' /\ _ => set (s1 := s') end.
  assert (forall j r, plive s1 j r <-> (j = i /\ r = q) \/ plive s j r) as Hlive.
  { intros j r. rewrite (plive_put s s1 i q) by done. split.
    - intros [(-> & -> & _)|[_ ?]]; auto.
    - intros [[-> ->]|Hr]; [auto|]. right. split; [|done]. intros ->.
      destruct Hr. congruence. }
  assert (forall j r, plive s j r -> p_id r < port_next_id s) as Hlt.
  { intros j r Hr. apply W4 in Hr. lia. }
  assert (port_holds q []) as Hq.
  { split; [apply ring_empty; [exact (W2 i p Hp)|vm_compute; lia]|]. done. }
  assert (count_if p_valid (port_table s1) = S (count_if p_valid (port_table s))) as Hcnt.
  { pose proof (count_if_insert p_valid (port_table s) i p q Hp) as E. simpl in *.
    rewrite Hv in E. simpl in E. lia. }
  assert (port_active s1 = port_active s + 1) as Hact.
  { simpl. rewrite W7 in *. apply u32_small.
    pose proof (count_if_lt_length p_valid (port_table s) i p Hp Hv) as Hc.
    rewrite W1 in Hc. assert (Z.of_nat IPC_MAX_PORTS = 1024) by (vm_compute; done). lia. }
  split_and!; try done.
  - split; simpl.
    + by rewrite length_insert.
    + intros j r Hr. apply lookup_put in Hr; [|done].
      destruct Hr as [[-> ->]|[_ Hr]]; [exact (W2 i p Hp)|eauto].
    + intros j k r t' Hr Ht E. apply Hlive in Hr, Ht.
      destruct Hr as [[-> ->]|Hr], Ht as [[-> ->]|Ht]; try done.
      * apply Hlt in Ht. simpl in E. lia.
      * apply Hlt in Hr. simpl in E. lia.
      * eauto.
    + intros j r Hr. apply Hlive in Hr as [[-> ->]|Hr]; [simpl; split; [lia|done]|].
      apply W4 in Hr. split; [lia|apply Hr].
    + intros j r Hr. apply Hlive in Hr as [[-> ->]|Hr]; [by exists []|eauto].
    + lia.
    + simpl in Hact, Hcnt. rewrite Hact, Hcnt, W7. lia.
  - exists i, q. split_and!; [apply Hlive; auto|done|done].
  - intros l (j & r & Hr & E & _). apply Hlt in Hr. lia.
  - intros id' l' Hne. split; intros (j & r & Hr & E & Hl); exists j, r.
    + apply Hlive in Hr as [[-> ->]|Hr]; [simpl in E; congruence|done].
    + split_and!; [apply Hlive; auto|done|done].
Qed.

Lemma ipc_port_destroy_spec s id :
  ipc_wf s ->
  let s' := ipc_port_destroy id s in
  ipc_wf s' /\ (forall l, ~ mailbox s' id l) /\ msg_seq s' = msg_seq s /\
  port_next_id s' = port_next_id s /\
  (forall l, mailbox s id l -> port_active s' = port_active s - 1) /\
  (forall id' l', id' <> id -> mailbox s' id' l' <-> mailbox s id' l').
Proof.
  intros H. unfold ipc_port_destroy. destruct (find_port id s) as [[i p]|] eqn:Hf; cycle 1.
  { assert (forall l, ~ mailbox s id l) as Hn.
    { intros l Hm. destruct (mailbox_find s id l H Hm) as (i & p & E & _). congruence. }
    simpl. split_and!; auto. intros l Hm. by apply Hn in Hm. }
  apply find_port_Some in Hf as (Hp & Hid & _). pose proof H as [W1 W2 W3 W4 W5 W6 W7].
  set (q := IpcPort (p_id p) CAP_INVALID_ID (p_owner p) (p_queue p) (p_head p) (p_tail p)
                    (p_count p) false true). cbv zeta.
  match goal with |- ipc_wf ?s' /\ _ => set (s1 := s') end.
  assert (i < length (port_table s))%nat as Hi by (by eapply plive_lt).
  assert (forall j r, plive s1 j r <-> j <> i /\ plive s j r) as Hlive.
  { intros j r. rewrite (plive_put s s1 i q) by done. split; [|auto].
    intros [(_ & _ & ?)|?]; done. }
  assert (forall j r, plive s1 j r -> p_id r <> id) as Hne.
  { intros j r Hr E. apply Hlive in Hr as [Hji Hr]. apply Hji. eapply W3; eauto. congruence. }
  assert (count_if p_valid (port_table s) = S (count_if p_valid (port_table s1))) as Hcnt.
  { pose proof (count_if_insert p_valid (port_table s) i p q (proj1 Hp)) as E.
    rewrite (proj2 Hp) in E. simpl in *. lia. }
  assert (port_active s1 = port_active s - 1) as Hact.
  { simpl. rewrite W7, Hcnt. apply u32_small.
    pose proof (count_if_le p_valid (port_table s)) as Hc. rewrite W1 in Hc.
    assert (Z.of_nat IPC_MAX_PORTS = 1024) by (vm_compute; done). lia. }
  split_and!; auto.
  - split.
    + simpl. by rewrite length_insert.
    + intros j r Hr. apply lookup_put in Hr; [|done].
      destruct Hr as [[-> ->]|[_ Hr]]; [exact (W2 i p (proj1 Hp))|eauto].
    + intros j k r t [_ Hr]%Hlive [_ Ht]%Hlive. eauto.
    + intros j r [_ Hr]%Hlive. eauto.
    + intros j r [_ Hr]%Hlive. eauto.
    + done.
    + rewrite Hact, W7, Hcnt. lia.
  - intros l (j & r & Hr & E & _). by eapply Hne.
  - intros id' l' Hn. split; intros (j & r & Hr & E & Hl); exists j, r.
    + by apply Hlive in Hr as [_ Hr].
    + split_and!; [|done..]. apply Hlive. split; [|done]. intros ->.
      destruct Hr as [Hr _], Hp as [Hp _]. simplify_eq.
Qed.

(** ** Reachable systems *)

Inductive ipc_step (s : ipc_st) : ipc_st -> Prop :=
| istep_create t : port_next_id s + 1 < 2 ^ 32 -> ipc_step s (ipc_port_create t s).2
| istep_destroy id : ipc_step s (ipc_port_destroy id s)
| istep_send id m : ipc_step s (ipc_send id m s).2
| istep_reply rq m : ipc_step s (ipc_reply rq m s).2
| istep_receive i pid t w r s' : receive_poll i pid t w s = Some (r, s') -> ipc_step s s'
| istep_caps c : ipc_step s (set_caps c s).

Definition ipc_reachable (s : ipc_st) : Prop := exists c, reach ipc_step (ipc_init c) s.

Lemma ipc_init_wf c : ipc_wf (ipc_init c).
Proof.
  assert (forall i p, ~ plive (ipc_init c) i p) as Hn.
  { intros i p [Hp Hv]. apply lookup_replicate in Hp as [-> _]. done. }
  split.
  - apply length_replicate.
  - intros i p Hp. apply lookup_replicate in Hp as [-> _]. apply length_replicate.
  - intros i j p q Hp. by apply Hn in Hp.
  - intros i p Hp. by apply Hn in Hp.
  - intros i p Hp. by apply Hn in Hp.
  - simpl. lia.
  - simpl. by rewrite count_if_replicate_false.
Qed.

Lemma ipc_wf_table s s' :
  port_table s' = port_table s -> port_next_id s' = port_next_id s ->
  port_active s' = port_active s -> ipc_wf s -> ipc_wf s'.
Proof.
  intros E1 E2 E3 [? ? ? ? ? ? ?]. split; unfold plive in *; rewrite ?E1, ?E2, ?E3; auto.
Qed.

Lemma ipc_send_wf s id m : ipc_wf s -> ipc_wf (ipc_send id m s).2.
Proof.
  intros H. destruct m as [m|]; [|done].
  destruct (find_port id s) as [[i p]|] eqn:Hf; cycle 1.
  { unfold ipc_send. by rewrite Hf. }
  destruct (find_port_Some _ _ _ _ Hf) as (Hp & Hid & _).
  destruct (iw_rings s H i p Hp) as [l Hl].
  destruct (ipc_send_spec s id l m H) as (s' & -> & _ & Hs); [by exists i, p|].
  case_if; [done|]. bools. case_if; [done|]. by apply Hs.
Qed.

Lemma receive_poll_wf s i pid t w r s' :
  receive_poll i pid t w s = Some (r, s') -> ipc_wf s -> ipc_wf s'.
Proof.
  intros E H. unfold receive_poll in E. destruct (port_table s !! i) as [p|] eqn:Hi; [|by simplify_eq].
  destruct (0 <? p_count p)%nat eqn:Hc; [|repeat case_if; simplify_eq; done].
  destruct (p_valid p) eqn:Hv; bools.
  - assert (plive s i p) as Hp by done. destruct (iw_rings s H i p Hp) as [[|m l] Hl].
    { apply port_holds_count in Hl. simpl in Hl. lia. }
    destruct (receive_poll_spec s i p m l pid t w H Hp Hl) as (s2 & E2 & Hw & _).
    unfold receive_poll in E2. rewrite Hi in E2. rewrite (proj2 (Nat.ltb_lt 0 _) Hc) in E2.
    congruence.
  - injection E as <- <-. destruct H as [W1 W2 W3 W4 W5 W6 W7].
    assert (i < length (port_table s))%nat as Hlt by (by eapply lookup_lt_Some).
    match goal with |- ipc_wf ?x => set (s1 := x) end.
    assert (forall j q, plive s1 j q -> plive s j q) as Hback.
    { intros j q Hq. eapply (plive_put s s1 i) in Hq; [|done..].
      destruct Hq as [(_ & _ & Hq)|[_ Hq]]; [simpl in Hq; congruence|done]. }
    split; eauto.
    + simpl. by rewrite length_insert.
    + intros j q Hq. apply lookup_put in Hq; [|done].
      destruct Hq as [[-> ->]|[_ Hq]]; [exact (W2 i p Hi)|eauto].
    + simpl. rewrite W7. f_equal.
      match goal with |- context [<[i := ?q]> _] =>
        pose proof (count_if_insert p_valid (port_table s) i p q Hi) as E2 end.
      simpl in E2. rewrite Hv in E2. lia.
Qed.

Lemma ipc_reachable_wf s : ipc_reachable s -> ipc_wf s.
Proof.
  intros [c Hr]. apply (reach_invariant ipc_step ipc_wf _ _) in Hr; [done| |apply ipc_init_wf].
  intros a b H. destruct 1 as [t Hb|id|id m|rq m|i pid t w r s' E|c'].
  - pose proof (ipc_port_create_spec a t H Hb) as Hs.
    destruct (ipc_port_create t a) as [id s']. by destruct Hs as [(_ & -> & _)|(_ & ? & _)].
  - by apply ipc_port_destroy_spec.
  - by apply ipc_send_wf.
  - unfold ipc_reply. destruct rq as [rq|]; [|done]. case_if; [done|].
    apply ipc_send_wf. by apply (ipc_wf_table a).
  - by eapply receive_poll_wf.
  - by apply (ipc_wf_table a).
Qed.

(** ** Properties *)

(** [ipc_send] implements a bounded FIFO mailbox.  On a port holding
    [l], either the queue is full ([IPC_ERR_FULL]), or one of the transferred
    capabilities lacks the grant right ([IPC_ERR_NOPERM]), and the state is
    unchanged; or it succeeds, the message is appended with the next sequence
    number, and no other mailbox changes. *)
Theorem ipc_send_correct (s : ipc_st) (id : Z) (l : list ipc_msg) (msg : ipc_msg)
    (Hr : ipc_reachable s) (Hm : mailbox s id l) :
  let '(err, s') := ipc_send id (Some msg) s in
  (err = IPC_ERR_FULL /\ s' = s /\ length l = 64%nat) \/
  (err = IPC_ERR_NOPERM /\ s' = s /\
     exists c, c ∈ checked_caps msg /\ cap_check c CAP_RIGHT_GRANT (ipc_caps s) = false) \/
  (err = IPC_OK /\ (length l < 64)%nat /\
     (forall c, c ∈ checked_caps msg -> cap_check c CAP_RIGHT_GRANT (ipc_caps s) = true) /\
     mailbox s' id (l ++ [set_msg_id (msg_seq s) msg]) /\
     msg_seq s' = u32 (msg_seq s + 1) /\
     forall id' l', id' <> id -> mailbox s' id' l' <-> mailbox s id' l').
Proof.
  apply ipc_reachable_wf in Hr.
  destruct (ipc_send_spec s id l msg Hr Hm) as (s' & -> & Hseq & Hs).
  change IPC_PORT_QUEUE_SIZE with 64%nat in *.
  destruct (64 <=? length l)%nat eqn:E1; bools; cbn [negb].
  - left. split_and!; try done. destruct Hm as (i & p & _ & _ & Hh).
    pose proof (rr_cap _ _ _ _ _ (proj1 Hh)). change IPC_PORT_QUEUE_SIZE with 64%nat in *. lia.
  - destruct (forallb _ _) eqn:E2; cbn [negb].
    + right. right. destruct (Hs E1) as (_ & H1 & _ & H2). split_and!; auto.
      intros c Hc. rewrite forallb_forall in E2. apply E2. by apply list_elem_of_In.
    + right. left. split_and!; try done. apply not_true_iff_false in E2.
      rewrite forallb_forall in E2. clear -E2. induction (checked_caps msg) as [|c cs IH].
      * destruct E2. by intros x [].
      * destruct (cap_check c CAP_RIGHT_GRANT (ipc_caps s)) eqn:Ec.
        -- destruct IH as (d & Hd & ?); [|exists d; split; [by right|done]].
           intros Hall. apply E2. intros x [->|Hx]; auto.
        -- exists c. split; [by left|done].
Qed.

(** [ipc_receive] takes the oldest message.  On a port holding
    [m :: l] it returns [m] at its first poll whatever the timeout, leaving
    [l]; on an empty port a non-blocking receive returns [IPC_ERR_AGAIN] and
    changes nothing. *)
Theorem ipc_receive_correct (yield : nat -> ipc_st -> ipc_st) (fuel : nat) (s : ipc_st)
    (id timeout : Z) (l : list ipc_msg) (Hr : ipc_reachable s) (Hm : mailbox s id l) :
  match l with
  | m :: l' => exists s',
      ipc_receive yield (S fuel) id true timeout s = Some (IPC_OK, Some m, s') /\
      mailbox s' id l' /\
      forall id' l', id' <> id -> mailbox s' id' l' <-> mailbox s id' l'
  | [] => ipc_receive yield (S fuel) id true IPC_TIMEOUT_NONE s = Some (IPC_ERR_AGAIN, None, s)
  end.
Proof.
  apply ipc_reachable_wf in Hr. destruct l as [|m l].
  - destruct (mailbox_find s id [] Hr Hm) as (i & p & Hf & Hp & Hid & Hcl & Hh).
    unfold ipc_receive. rewrite Hf. simpl. unfold receive_poll.
    rewrite (proj1 Hp), (port_holds_count _ _ Hh), Hcl. done.
  - destruct (ipc_receive_spec yield fuel s id m l timeout Hr Hm) as (s' & E & _ & H1 & _ & _ & H2).
    exists s'. auto.
Qed.

(** Each yield adds 2 to the 32-bit wait counter. *)
Lemma ipc_receive_returns (yield : nat -> ipc_st -> ipc_st) (s : ipc_st) (id timeout : Z) (out : bool) :
  0 <= timeout < IPC_TIMEOUT_FOREVER -> is_Some (ipc_receive yield (Z.to_nat (timeout / 2) + 2) id out timeout s).
Proof.
  intros Ht.
  unfold ipc_receive. destruct (find_port id s) as [[i p]|]; [|eauto].
  destruct out; [|eauto]. simpl.
  assert (forall fuel n w s0, 0 <= w < 2 ^ 32 -> w <= timeout + 1 -> timeout - w < 2 * Z.of_nat fuel ->
     is_Some (receive_loop yield (S fuel) n i id timeout w s0)) as Hloop.
  { unfold IPC_TIMEOUT_FOREVER in Ht.
    induction fuel as [|fuel IH]; intros n w s0 Hw Hle Hf; simpl.
    - unfold receive_poll. destruct (port_table s0 !! i) as [q|]; [|eauto].
      case_if; [eauto|]. case_if; [eauto|]. case_if; [eauto|].
      rewrite (proj2 (Z.eqb_neq timeout _)) by (unfold IPC_TIMEOUT_FOREVER; lia).
      rewrite (proj2 (Z.leb_le timeout w)) by lia. simpl. eauto.
    - destruct (receive_poll i id timeout w s0) as [r|] eqn:E; [eauto|].
      assert (w < timeout) as Hwt.
      { unfold receive_poll in E. destruct (port_table s0 !! i) as [q|]; [|done].
        destruct (0 <? p_count q)%nat; [done|]. destruct (p_closed q); [done|].
        destruct (timeout =? IPC_TIMEOUT_NONE); [done|].
        rewrite (proj2 (Z.eqb_neq timeout _)) in E by (unfold IPC_TIMEOUT_FOREVER; lia).
        simpl in E. case_if; [done|]. bools. lia. }
      rewrite u32_small by lia. apply IH; lia. }
  pose proof (Z.div_mod timeout 2 ltac:(lia)). pose proof (Z.mod_pos_bound timeout 2 ltac:(lia)).
  replace (Z.to_nat (timeout / 2) + 2)%nat with (S (S (Z.to_nat (timeout / 2)))) by lia.
  assert (0 <= timeout / 2) by (apply Z.div_pos; lia).
  apply Hloop; lia.
Qed.

(** C40: a blocking receive with a finite timeout always returns, whatever
    the other tasks do meanwhile: [timeout / 2 + 2] polls are enough, because
    each yield adds 2 to the 32-bit wait counter. *)
Theorem ipc_receive_terminates (yield : nat -> ipc_st -> ipc_st) (s : ipc_st)
    (id timeout : Z) (out : bool) (Ht : 0 <= timeout < IPC_TIMEOUT_FOREVER) :
  is_Some (ipc_receive yield (Z.to_nat (timeout / 2) + 2) id out timeout s).
Proof. by apply ipc_receive_returns. Qed.

Lemma receive_loop_err yield fuel n i pid t w s e o s' :
  receive_loop yield fuel n i pid t w s = Some (e, o, s') ->
  e <> IPC_ERR_FULL /\ e <> IPC_ERR_NOPERM.
Proof.
  revert n w s. induction fuel as [|fuel IH]; intros n w s; simpl; [done|].
  destruct (receive_poll i pid t w s) as [r|] eqn:E; [|apply IH].
  intros [= ->]. unfold receive_poll in E.
  destruct (port_table s !! i); repeat case_if; simplify_eq; done.
Qed.

Lemma receive_loop_wf yield fuel n i pid t w s r s' :
  (forall n a, reach ipc_step a (yield n a)) -> ipc_reachable s ->
  receive_loop yield fuel n i pid t w s = Some (r, s') -> ipc_reachable s'.
Proof.
  intros Hy. revert n w s. induction fuel as [|fuel IH]; intros n w s [c Hs]; simpl; [done|].
  destruct (receive_poll i pid t w s) as [[r' s1]|] eqn:E.
  - intros [= -> ->]. exists c. eapply reach_step; [done|]. by eapply istep_receive.
  - apply IH. exists c. by eapply reach_trans.
Qed.

Lemma reachable_step s s' : ipc_reachable s -> ipc_step s s' -> ipc_reachable s'.
Proof. intros [c H] Hs. exists c. by eapply reach_step. Qed.

(** The send half of [ipc_call] leaves the state as it was when it fails. *)
Lemma ipc_send_fail_same s id m e s' :
  ipc_send id m s = (e, s') -> e <> IPC_OK -> s' = s.
Proof.
  unfold ipc_send. destruct m as [m|]; [|by intros [= <- <-]].
  destruct (find_port id s) as [[i p]|]; [|by intros [= <- <-]].
  repeat case_if; by intros [= <- <-].
Qed.

(** However [ipc_call] ends, its reply port is gone. *)
Lemma ipc_call_gone (yield : nat -> ipc_st -> ipc_st) (fuel : nat) (s s' : ipc_st)
    (pid t : Z) (msg m : ipc_msg) (err : ipc_err)
    (Hr : ipc_reachable s) (Hb : port_next_id s + 1 < 2 ^ 32)
    (Hy : forall n a, reach ipc_step a (yield n a))
    (Hcall : ipc_call yield fuel pid msg t s = Some (err, m, s')) :
  (forall l, ~ mailbox s' (port_next_id s) l) /\
  (err = IPC_ERR_FULL \/ err = IPC_ERR_NOPERM ->
     port_active s' = port_active s /\
     forall id l, mailbox s' id l <-> mailbox s id l).
Proof.
  pose proof (ipc_reachable_wf s Hr) as Hw. unfold ipc_call in Hcall.
  pose proof (ipc_port_create_spec s (msg_sender_tid msg) Hw Hb) as Hc.
  pose proof (reachable_step _ _ Hr (istep_create s (msg_sender_tid msg) Hb)) as Hr1.
  destruct (ipc_port_create (msg_sender_tid msg) s) as [reply s1]. simpl in Hr1.
  pose proof (iw_next s Hw).
  destruct Hc as [(-> & -> & _)|(-> & Hw1 & Hm1 & Hn & Hact & Hfr)].
  { simpl in Hcall. simplify_eq. split; [|by intros [|]].
    intros l (i & p & Hp & E & _). apply (iw_ids s' Hw) in Hp. lia. }
  rewrite (proj2 (Z.eqb_neq _ _)) in Hcall by (unfold PORT_INVALID; lia).
  set (req := set_reply_port (port_next_id s) msg) in *.
  pose proof (reachable_step _ _ Hr1 (istep_send s1 pid (Some req))) as Hr2.
  destruct (ipc_send pid (Some req) s1) as [e s2] eqn:Hs. simpl in Hr2.
  assert (forall l, ~ mailbox (ipc_port_destroy (port_next_id s) s2) (port_next_id s) l) as Hgone.
  { apply ipc_port_destroy_spec. by apply ipc_reachable_wf. }
  destruct (decide (e = IPC_OK)) as [->|Hne].
  - unfold ipc_receive in Hcall. destruct (find_port (port_next_id s) s2) as [[i p]|]; simpl in Hcall.
    + destruct (receive_loop _ _ _ _ _ _ _ _) as [[[e o] s3]|] eqn:El; [|done].
      simpl in Hcall. injection Hcall as <- _ <-. split.
      * apply ipc_port_destroy_spec, ipc_reachable_wf. by eapply receive_loop_wf.
      * apply receive_loop_err in El as [? ?]. by intros [|].
    + injection Hcall as <- _ <-. split; [done|]. by intros [|].
  - assert (Some (e, req, ipc_port_destroy (port_next_id s) s2) = Some (err, m, s')) as Hcall'
      by (rewrite <- Hcall; by destruct e).
    injection Hcall' as <- _ <-. split; [done|]. intros _.
    rewrite (ipc_send_fail_same _ _ _ _ _ Hs Hne).
    destruct (ipc_port_destroy_spec s1 (port_next_id s) Hw1) as (_ & Hg & _ & _ & Ha & Hf).
    split; [rewrite (Ha _ Hm1), Hact; lia|]. intros id l.
    destruct (decide (id = port_next_id s)) as [->|Hid].
    + split; intros Hm; exfalso; [by eapply Hg|by eapply Hn].
    + by rewrite Hf, Hfr.
Qed.

Lemma ipc_call_returns (yield : nat -> ipc_st -> ipc_st) (s : ipc_st) (pid t : Z) (msg : ipc_msg) :
  0 <= t < IPC_TIMEOUT_FOREVER -> is_Some (ipc_call yield (Z.to_nat (t / 2) + 2) pid msg t s).
Proof.
  intros Ht. unfold ipc_call. destruct (ipc_port_create _ s) as [reply s1]. case_if; [by eexists|].
  destruct (ipc_send _ _ s1) as [e s2]. destruct e; try by eexists.
  destruct (ipc_receive_returns yield s2 reply t true Ht) as [[[e o] s3] ->]. by eexists.
Qed.

(** C31: [ipc_call] with a finite timeout always returns, and never leaks its
    reply port.  If the other tasks act only through IPC operations while it
    waits, then however the call ends, with any timeout, its temporary port no
    longer exists; and when the request could not be queued ([IPC_ERR_FULL],
    [IPC_ERR_NOPERM]) every mailbox and the port count are what they were before
    the call.  Port identifiers have not wrapped around. *)
Theorem ipc_call_no_leak (yield : nat -> ipc_st -> ipc_st) (s : ipc_st) (pid t : Z) (msg : ipc_msg)
    (Hr : ipc_reachable s) (Hb : port_next_id s + 1 < 2 ^ 32) (Hy : forall n a, reach ipc_step a (yield n a)) :
  (0 <= t < IPC_TIMEOUT_FOREVER -> is_Some (ipc_call yield (Z.to_nat (t / 2) + 2) pid msg t s)) /\
  forall fuel err m s', ipc_call yield fuel pid msg t s = Some (err, m, s') ->
    (forall l, ~ mailbox s' (port_next_id s) l) /\
    (err = IPC_ERR_FULL \/ err = IPC_ERR_NOPERM ->
       port_active s' = port_active s /\ forall id l, mailbox s' id l <-> mailbox s id l).
Proof.
  split; [by apply ipc_call_returns|]. intros fuel err m s' E. by apply (ipc_call_gone yield fuel s s' pid t msg m err).
Qed.

(** Sending a batch, and reading [n] messages without blocking. *)
Definition send_all (id : Z) (ms : list ipc_msg) (s : ipc_st) : ipc_st :=
  foldl (fun s m => (ipc_send id (Some m) s).2) s ms.

Fixpoint recv_all (id : Z) (n : nat) (s : ipc_st) : list ipc_msg :=
  match n with
  | O => []
  | S n =>
      match ipc_receive (fun _ s => s) 1 id true IPC_TIMEOUT_NONE s with
      | Some (_, Some m, s) => m :: recv_all id n s
      | _ => []
      end
  end.

Fixpoint number_msgs (k : Z) (ms : list ipc_msg) : list ipc_msg :=
  match ms with
  | [] => []
  | m :: ms => set_msg_id k m :: number_msgs (u32 (k + 1)) ms
  end.

Lemma send_all_spec s id l ms :
  ipc_wf s -> mailbox s id l -> (length l + length ms <= 64)%nat ->
  Forall (fun m => checked_caps m = []) ms ->
  ipc_wf (send_all id ms s) /\ mailbox (send_all id ms s) id (l ++ number_msgs (msg_seq s) ms).
Proof.
  revert s l. induction ms as [|m ms IH]; intros s l H Hm Hlen Hcaps.
  { simpl. rewrite app_nil_r. done. }
  apply Forall_cons in Hcaps as [Hc Hcaps]. simpl in Hlen.
  change (send_all id (m :: ms) s) with (send_all id ms (ipc_send id (Some m) s).2).
  destruct (ipc_send_spec s id l m H Hm) as (s' & -> & Hseq & Hs).
  change IPC_PORT_QUEUE_SIZE with 64%nat in *. rewrite Hc.
  rewrite (proj2 (Nat.leb_gt 64 (length l))) by lia. cbn [forallb negb snd number_msgs].
  destruct (Hs ltac:(lia)) as (Hw & Hm' & _).
  rewrite cons_middle, app_assoc, <- Hseq. apply IH; auto. rewrite length_app. simpl. lia.
Qed.

Lemma recv_all_spec s id l :
  ipc_wf s -> mailbox s id l -> recv_all id (length l) s = l.
Proof.
  revert s. induction l as [|m l IH]; intros s H Hm; cbn [recv_all length]; [done|].
  destruct (ipc_receive_spec (fun _ s => s) 0 s id m l IPC_TIMEOUT_NONE H Hm)
    as (s' & -> & Hw & Hm' & _). f_equal. auto.
Qed.


(** ** A concrete run

    Task 3 owns port 1; task 5 sends it two messages. *)
Definition demo_msg (ty : Z) : ipc_msg := IpcMsg 0 ty 0 0 5 0 [0; 0; 0; 0] 2 [ty; 7].

Definition demo_ipc0 : ipc_st :=
  (ipc_port_create 3 (ipc_init (cap_table_init (secmon_init 0)))).2.
Definition demo_ipc1 : ipc_st := (ipc_send 1 (Some (demo_msg 65537)) demo_ipc0).2.

Lemma demo_ipc0_reachable : ipc_reachable demo_ipc0.
Proof.
  exists (cap_table_init (secmon_init 0)). unfold demo_ipc0.
  eapply reach_step; [apply reach_refl|]. apply istep_create. vm_compute. reflexivity.
Qed.

Lemma demo_ipc1_reachable : ipc_reachable demo_ipc1.
Proof. eapply reachable_step; [exact demo_ipc0_reachable|apply istep_send]. Qed.

Lemma demo_mailbox0 : mailbox demo_ipc0 1 [].
Proof.
  pose proof (ipc_port_create_spec (ipc_init (cap_table_init (secmon_init 0))) 3
    (ipc_init_wf _) ltac:(vm_compute; reflexivity)) as H.
  rewrite (surjective_pairing (ipc_port_create _ _)) in H.
  destruct H as [(H & _)|(E & _ & H & _)]; [vm_compute in H; discriminate|].
  by rewrite E in H.
Qed.

Lemma demo_mailbox1 : mailbox demo_ipc1 1 [set_msg_id 1 (demo_msg 65537)].
Proof.
  destruct (ipc_send_spec demo_ipc0 1 [] (demo_msg 65537)
    (ipc_reachable_wf _ demo_ipc0_reachable) demo_mailbox0) as (s' & E & _ & H).
  unfold demo_ipc1. rewrite E.
  change (IPC_PORT_QUEUE_SIZE) with 64%nat in *.
  destruct (H ltac:(simpl; lia)) as (_ & Hm & _). exact Hm.
Qed.

Lemma ipc_send_correct_witness :
  ipc_reachable demo_ipc0 /\ (ipc_send 1 (Some (demo_msg 9)) demo_ipc0).1 = IPC_OK /\
  mailbox (ipc_send 1 (Some (demo_msg 9)) demo_ipc0).2 1 [set_msg_id 1 (demo_msg 9)].
Proof.
  split; [exact demo_ipc0_reachable|].
  pose proof (ipc_send_correct demo_ipc0 1 [] (demo_msg 9) demo_ipc0_reachable demo_mailbox0) as H.
  assert ((ipc_send 1 (Some (demo_msg 9)) demo_ipc0).1 = IPC_OK) as E by (vm_compute; reflexivity).
  destruct (ipc_send 1 (Some (demo_msg 9)) demo_ipc0) as [e s']. simpl in *. subst e.
  split; [reflexivity|]. destruct H as [(H & _)|[(H & _)|(_ & _ & _ & H & _)]]; try discriminate.
  exact H.
Defined.

Lemma ipc_receive_correct_witness :
  exists s', ipc_receive (fun _ s => s) 1 1 true 100 demo_ipc1
    = Some (IPC_OK, Some (set_msg_id 1 (demo_msg 65537)), s') /\ mailbox s' 1 [].
Proof.
  destruct (ipc_receive_correct (fun _ s => s) 0 demo_ipc1 1 100 _ demo_ipc1_reachable
              demo_mailbox1) as (s' & E & Hm & _).
  exists s'. split; [exact E|exact Hm].
Defined.

Lemma ipc_receive_terminates_witness :
  is_Some (ipc_receive (fun _ s => s) (Z.to_nat (10 / 2) + 2) 1 true 10 demo_ipc0).
Proof.
  apply (ipc_receive_terminates (fun _ s => s) demo_ipc0 1 10 true).
  split; vm_compute; congruence.
Defined.

Lemma ipc_call_no_leak_witness :
  exists err m s', ipc_call (fun _ s => s) (Z.to_nat (4 / 2) + 2) 1 (demo_msg 9) 4 demo_ipc0 = Some (err, m, s') /\
    err = IPC_ERR_TIMEOUT /\ forall l, ~ mailbox s' 2 l.
Proof.
  destruct (ipc_call_no_leak (fun _ s => s) demo_ipc0 1 4 (demo_msg 9) demo_ipc0_reachable
    ltac:(vm_compute; reflexivity) (fun _ a => reach_refl _ a)) as [Hret Hgone].
  destruct (Hret ltac:(split; vm_compute; congruence)) as [[[e m] s'] E].
  exists e, m, s'. split; [exact E|]. split; [|exact (proj1 (Hgone _ _ _ _ E))].
  assert ((fst <$> (fst <$> ipc_call (fun _ s => s) (Z.to_nat (4 / 2) + 2) 1 (demo_msg 9) 4 demo_ipc0)) = Some IPC_ERR_TIMEOUT) as Et
    by (vm_compute; reflexivity).
  rewrite E in Et. injection Et as Et. exact Et.
Defined.

