(* ===== verification/FrameAlloc.v ===== *)
(** * What the physical frame allocator promises to its clients

    The virtual memory manager and the shared memory regions call
    [pmm_alloc_frame], [pmm_free_frame], [pmm_ref_frame] and
    [pmm_get_refcount] ([include/memory.h]).  Their models are written against
    the operations and laws below; [Pmm.v] shows that [memory/pmm.c] satisfies
    them. *)

From S2P Require Import Prelude.

(** The operations; addresses are physical, 0 is NULL. *)
Class FrameAlloc (S : Type) := {
  alloc_frame : S -> Z * S;
  alloc_frames : Z -> S -> Z * S;
  free_frame : Z -> S -> S;
  free_frames : Z -> Z -> S -> S;
  ref_frame : Z -> S -> S;
  get_refcount : Z -> S -> Z;
  (** The frame at this address is marked used. *)
  in_use : S -> Z -> bool;
  alloc_inv : S -> Prop
}.

(** A frame address: page aligned, below the managed limit. *)
Definition frame_addr (a : Z) : Prop := (4096 | a) /\ 0 <= a < 0x100000000.

Class FrameAllocLaws (S : Type) `{FrameAlloc S} := {
  alloc_keeps_inv s : alloc_inv s -> alloc_inv (alloc_frame s).2;
  free_keeps_inv s a : alloc_inv s -> 0 <= a -> alloc_inv (free_frame a s);
  ref_keeps_inv s a : alloc_inv s -> alloc_inv (ref_frame a s);
  (** A successful allocation returns a fresh frame with one holder ... *)
  alloc_fresh s a s' : alloc_inv s -> alloc_frame s = (a, s') -> a <> 0 ->
    frame_addr a /\ in_use s a = false /\ in_use s' a = true /\ get_refcount a s' = 1;
  (** ... and no operation disturbs another frame. *)
  alloc_other s a s' b : alloc_inv s -> alloc_frame s = (a, s') -> frame_addr b ->
    in_use s b = true -> in_use s' b = true /\ get_refcount b s' = get_refcount b s;
  free_other s a b : alloc_inv s -> frame_addr a -> frame_addr b -> a <> b ->
    in_use (free_frame a s) b = in_use s b /\
    get_refcount b (free_frame a s) = get_refcount b s;
  ref_other s a b : frame_addr a -> frame_addr b -> a <> b ->
    in_use (ref_frame a s) b = in_use s b /\
    get_refcount b (ref_frame a s) = get_refcount b s;
  (** A shared frame outlives a release; the last release frees it. *)
  free_shared s a : alloc_inv s -> frame_addr a -> in_use s a = true -> 1 < get_refcount a s ->
    in_use (free_frame a s) a = true /\
    get_refcount a (free_frame a s) = get_refcount a s - 1;
  free_last s a : alloc_inv s -> frame_addr a -> in_use s a = true -> get_refcount a s <= 1 ->
    in_use (free_frame a s) a = false;
  (** Sharing adds a holder below the saturation point. *)
  ref_adds s a : alloc_inv s -> frame_addr a -> get_refcount a s < 255 ->
    in_use (ref_frame a s) a = in_use s a /\
    get_refcount a (ref_frame a s) = get_refcount a s + 1
}.
