(* ===== verification/Pmm.v ===== *)
(** * The physical memory manager, [memory/pmm.c]

    A bitmap of 4 KiB frames, one reference count per frame and two
    statistics.  The arrays are functions of their index; every access of the
    code is below [MAX_FRAMES].  The Multiboot2 structures are read from
    memory ([kernel/multiboot2.c]); the addresses of the kernel image and of
    the bitmap come from the linker and are arguments of [pmm_init]. *)

From S2P Require Import Prelude CString FrameAlloc.

Definition PMM_MAX_MEMORY : Z := 0x100000000.
Definition PMM_FRAME_SIZE : Z := PAGE_SIZE.
Definition MAX_FRAMES : Z := 1048576.

Record pmm := Pmm {
  pmm_bitmap : Z -> Z;
  pmm_refcounts : Z -> Z;
  pmm_total_frame_count : Z;
  pmm_used_frame_count : Z
}.

(** ** Bitmap helpers *)

Definition pmm_set_bit (frame : Z) (s : pmm) : pmm :=
  Pmm (upd (pmm_bitmap s) (frame / 8) (u8 (pmm_bitmap s (frame / 8) .| Z.shiftl 1 (frame mod 8))))
    (pmm_refcounts s) (pmm_total_frame_count s) (pmm_used_frame_count s).

Definition pmm_clear_bit (frame : Z) (s : pmm) : pmm :=
  Pmm (upd (pmm_bitmap s) (frame / 8) (u8 (pmm_bitmap s (frame / 8) .&~ Z.shiftl 1 (frame mod 8))))
    (pmm_refcounts s) (pmm_total_frame_count s) (pmm_used_frame_count s).

Definition pmm_test_bit (s : pmm) (frame : Z) : bool :=
  negb (Z.shiftr (pmm_bitmap s (frame / 8)) (frame mod 8) .& 1 =? 0).

(** [pmm_used_frame_count += d] on a [size_t]. *)
Definition add_used (d : Z) (s : pmm) : pmm :=
  Pmm (pmm_bitmap s) (pmm_refcounts s) (pmm_total_frame_count s) (u64 (pmm_used_frame_count s + d)).
Definition set_refcount (frame r : Z) (s : pmm) : pmm :=
  Pmm (pmm_bitmap s) (upd (pmm_refcounts s) frame r) (pmm_total_frame_count s)
    (pmm_used_frame_count s).
Definition add_total (d : Z) (s : pmm) : pmm :=
  Pmm (pmm_bitmap s) (pmm_refcounts s) (u64 (pmm_total_frame_count s + d)) (pmm_used_frame_count s).

(** ** Marking ranges *)

(** [for (f = a; f < b && f < MAX_FRAMES; f++)] *)
Definition frame_loop (a b : Z) (body : Z -> pmm -> pmm) (s : pmm) : pmm :=
  iter_range (Z.to_nat (Z.min b MAX_FRAMES - a)) a body s.

Definition mark_used_frame (f : Z) (s : pmm) : pmm :=
  if negb (pmm_test_bit s f) then add_used 1 (pmm_set_bit f s) else s.
Definition mark_free_frame (f : Z) (s : pmm) : pmm :=
  if pmm_test_bit s f then add_used (-1) (pmm_clear_bit f s) else s.

Definition pmm_mark_used (addr size : Z) (s : pmm) : pmm :=
  let frame_start := addr / PMM_FRAME_SIZE in
  let frame_end := ALIGN_UP (u64 (addr + size)) PMM_FRAME_SIZE / PMM_FRAME_SIZE in
  frame_loop frame_start frame_end mark_used_frame s.

Definition pmm_mark_free (addr size : Z) (s : pmm) : pmm :=
  let frame_start := ALIGN_UP addr PMM_FRAME_SIZE / PMM_FRAME_SIZE in
  let frame_end := u64 (addr + size) / PMM_FRAME_SIZE in
  frame_loop frame_start frame_end mark_free_frame s.

(** ** Initialisation *)

Definition load32 (m : mem) (a : Z) : Z := load_le 4 m a.

(** [MULTIBOOT2_TAG_NEXT]: the next tag starts at an 8-byte boundary. *)
Definition MULTIBOOT2_TAG_NEXT (m : mem) (tag : Z) : Z :=
  u64 (tag + (u32 (load32 m (tag + 4) + 7) .&~ 7)).

(** [multiboot2_find_tag]: [Some None] is NULL, [None] means that the fuel ran
    out before an end tag. *)
Fixpoint find_tag_from (fuel : nat) (m : mem) (tag type : Z) : option (option Z) :=
  match fuel with
  | O => None
  | S fuel => if load32 m tag =? 0 then Some None
              else if load32 m tag =? type then Some (Some tag)
              else find_tag_from fuel m (MULTIBOOT2_TAG_NEXT m tag) type
  end.

Definition multiboot2_find_tag (fuel : nat) (m : mem) (info type : Z) : option (option Z) :=
  find_tag_from fuel m (info + 8) type.

Definition MULTIBOOT2_TAG_MMAP : Z := 6.
Definition MULTIBOOT2_MMAP_AVAILABLE : Z := 1.

(** The loop over the memory map entries. *)
Fixpoint mmap_loop (fuel : nat) (m : mem) (entry_ptr mmap_end entry_size : Z) (s : pmm) : option pmm :=
  match fuel with
  | O => None
  | S fuel =>
      if entry_ptr <? mmap_end then
        let base_addr := load64 m entry_ptr in
        let len := load64 m (entry_ptr + 8) in
        let s := if load32 m (entry_ptr + 16) =? MULTIBOOT2_MMAP_AVAILABLE
                 then add_total (ALIGN_DOWN len PMM_FRAME_SIZE / PMM_FRAME_SIZE)
                        (pmm_mark_free base_addr len s)
                 else s in
        mmap_loop fuel m (entry_ptr + entry_size) mmap_end entry_size s
      else Some s
  end.

Inductive init_result := InitOk (s : pmm) | InitPanic | InitRunning.

(** [kend] is [_kernel_phys_end], [bitmap_virt] the address of [pmm_bitmap]. *)
Definition pmm_init (fuel : nat) (m : mem) (mb2_info kend bitmap_virt : Z) (s : pmm) : init_result :=
  let s := Pmm (fun _ => 0xFF) (pmm_refcounts s) (pmm_total_frame_count s) MAX_FRAMES in
  match multiboot2_find_tag fuel m mb2_info MULTIBOOT2_TAG_MMAP with
  | None => InitRunning
  | Some None => InitPanic
  | Some (Some tag) =>
      match mmap_loop fuel m (tag + 16) (tag + load32 m (tag + 4)) (load32 m (tag + 8)) s with
      | None => InitRunning
      | Some s =>
          let s := pmm_mark_used 0 0x100000 s in
          let s := pmm_mark_used KERNEL_PHYS_BASE (u64 (kend - KERNEL_PHYS_BASE)) s in
          InitOk (pmm_mark_used (VIRT_TO_PHYS bitmap_virt) (MAX_FRAMES / 8) s)
      end
  end.

(** ** Allocation *)

(** The inner loop over the bits of one byte, from [bit]. *)
Fixpoint find_bit (n : nat) (s : pmm) (byte bit : Z) : option Z :=
  match n with
  | O => None
  | S n => if negb (pmm_test_bit s (byte * 8 + bit)) then Some (byte * 8 + bit)
           else find_bit n s byte (bit + 1)
  end.

(** The outer loop over the bytes. *)
Fixpoint find_byte (n : nat) (s : pmm) (byte : Z) : option Z :=
  match n with
  | O => None
  | S n => if pmm_bitmap s byte =? 0xFF then find_byte n s (byte + 1)
           else match find_bit 8 s byte 0 with
                | Some frame => Some frame
                | None => find_byte n s (byte + 1)
                end
  end.

Definition take_frame (frame : Z) (s : pmm) : pmm :=
  add_used 1 (set_refcount frame 1 (pmm_set_bit frame s)).

(** The physical address; 0 is NULL. *)
Definition pmm_alloc_frame (s : pmm) : Z * pmm :=
  match find_byte (Z.to_nat (MAX_FRAMES / 8)) s 0 with
  | Some frame => (frame * PMM_FRAME_SIZE, take_frame frame s)
  | None => (0, s)
  end.

(** The scan of [pmm_alloc_frames]: the start of the first run of [count] free
    frames. *)
Fixpoint find_run (n : nat) (s : pmm) (count f run start : Z) : option Z :=
  match n with
  | O => None
  | S n =>
      if negb (pmm_test_bit s f) then
        let start := if run =? 0 then f else start in
        if run + 1 =? count then Some start else find_run n s count (f + 1) (run + 1) start
      else find_run n s count (f + 1) 0 start
  end.

Definition pmm_alloc_frames (count : Z) (s : pmm) : Z * pmm :=
  if count =? 0 then (0, s)
  else if count =? 1 then pmm_alloc_frame s
  else
    match find_run (Z.to_nat MAX_FRAMES) s count 0 0 0 with
    | Some start => (start * PMM_FRAME_SIZE, iter_range (Z.to_nat count) start take_frame s)
    | None => (0, s)
    end.

(** ** Release and reference counts *)

Definition pmm_free_frame (frame : Z) (s : pmm) : pmm :=
  let f := frame / PMM_FRAME_SIZE in
  if MAX_FRAMES <=? f then s
  else if negb (pmm_test_bit s f) then s
  else if 1 <? pmm_refcounts s f then set_refcount f (pmm_refcounts s f - 1) s
  else add_used (-1) (pmm_clear_bit f (set_refcount f 0 s)).

Definition pmm_free_frames (frame count : Z) (s : pmm) : pmm :=
  iter_range (Z.to_nat count) 0 (fun i => pmm_free_frame (u64 (frame + i * PMM_FRAME_SIZE))) s.

Definition pmm_ref_frame (phys : Z) (s : pmm) : pmm :=
  let f := phys / PMM_FRAME_SIZE in
  if MAX_FRAMES <=? f then s
  else if pmm_refcounts s f <? 255 then set_refcount f (pmm_refcounts s f + 1) s
  else s.

Definition pmm_unref_frame (phys : Z) (s : pmm) : pmm := pmm_free_frame phys s.

Definition pmm_get_refcount (phys : Z) (s : pmm) : Z :=
  let f := phys / PMM_FRAME_SIZE in
  if MAX_FRAMES <=? f then 0 else pmm_refcounts s f.

Definition pmm_free_frames_count (s : pmm) : Z :=
  u64 (pmm_total_frame_count s - pmm_used_frame_count s).
Definition pmm_total_frames (s : pmm) : Z := pmm_total_frame_count s.

#[global] Opaque MAX_FRAMES.

(** ** The frames in use *)

Record pmm_wf (s : pmm) : Prop := {
  pw_byte : forall b, 0 <= pmm_bitmap s b < 256;
  pw_ref : forall f, 0 <= pmm_refcounts s f < 256;
  pw_used : pmm_used_frame_count s = count_range (pmm_test_bit s) (Z.to_nat MAX_FRAMES)
}.

Lemma MAX_FRAMES_val : MAX_FRAMES = 1048576.
Proof. done. Qed.

Lemma test_bit_testbit s f : 0 <= f -> pmm_test_bit s f = Z.testbit (pmm_bitmap s (f / 8)) (f mod 8).
Proof.
  intros Hf. unfold pmm_test_bit. rewrite (land_pow2_testbit _ 0) by lia.
  by rewrite Z.shiftr_spec, Z.add_0_l by lia.
Qed.

Lemma frame_split f g : 0 <= f -> 0 <= g -> f / 8 = g / 8 -> f mod 8 = g mod 8 -> f = g.
Proof. intros. rewrite (Z.div_mod f 8), (Z.div_mod g 8) by lia. congruence. Qed.

Lemma u8_testbit x k : 0 <= k < 8 -> Z.testbit (u8 x) k = Z.testbit x k.
Proof. intros Hk. unfold u8. by rewrite Z.mod_pow2_bits_low by lia. Qed.

Lemma test_set_bit s f g :
  0 <= f -> 0 <= g -> pmm_test_bit (pmm_set_bit f s) g = (g =? f) || pmm_test_bit s g.
Proof.
  intros Hf Hg. rewrite !test_bit_testbit by done. cbn [pmm_bitmap pmm_set_bit]. unfold upd.
  pose proof (Z.mod_pos_bound g 8). pose proof (Z.mod_pos_bound f 8).
  destruct (Z.eqb_spec (g / 8) (f / 8)) as [E|E].
  - rewrite u8_testbit, Z.lor_spec, Z.shiftl_1_l, Z.pow2_bits_eqb, orb_comm, E by lia. f_equal.
    destruct (Z.eqb_spec (f mod 8) (g mod 8)), (Z.eqb_spec g f); try done; subst; try done.
    exfalso. by apply n, frame_split.
  - rewrite (proj2 (Z.eqb_neq g f)); [done|]. by intros ->.
Qed.

Lemma test_clear_bit s f g :
  0 <= f -> 0 <= g -> pmm_test_bit (pmm_clear_bit f s) g = negb (g =? f) && pmm_test_bit s g.
Proof.
  intros Hf Hg. rewrite !test_bit_testbit by done. cbn [pmm_bitmap pmm_clear_bit]. unfold upd.
  pose proof (Z.mod_pos_bound g 8). pose proof (Z.mod_pos_bound f 8).
  destruct (Z.eqb_spec (g / 8) (f / 8)) as [E|E].
  - rewrite u8_testbit, Z.ldiff_spec, Z.shiftl_1_l, Z.pow2_bits_eqb, andb_comm, E by lia. f_equal.
    destruct (Z.eqb_spec (f mod 8) (g mod 8)), (Z.eqb_spec g f); try done; subst; try done.
    exfalso. by apply n, frame_split.
  - rewrite (proj2 (Z.eqb_neq g f)); [done|]. by intros ->.
Qed.

(** *** Effect of the single steps on the invariant *)

Lemma u8_lor_range x y : 0 <= u8 (x .| y) < 256.
Proof. apply u8_range. Qed.

Lemma wf_used_range s : pmm_wf s -> 0 <= pmm_used_frame_count s <= MAX_FRAMES.
Proof.
  intros [_ _ ->]. pose proof (count_range_bound (pmm_test_bit s) (Z.to_nat MAX_FRAMES)).
  rewrite MAX_FRAMES_val in *. lia.
Qed.

Lemma wf_bitmap_upd s b v :
  pmm_wf s -> 0 <= v < 256 -> forall c, 0 <= upd (pmm_bitmap s) b v c < 256.
Proof. intros H Hv c. unfold upd. case_if; [done|apply H]. Qed.

Lemma wf_set s f :
  pmm_wf s -> 0 <= f < MAX_FRAMES -> pmm_test_bit s f = false ->
  pmm_wf (add_used 1 (pmm_set_bit f s)).
Proof.
  intros Hw Hf Ht. pose proof (wf_used_range s Hw) as Hu. split.
  - apply wf_bitmap_upd; [done|apply u8_range].
  - apply Hw.
  - cbn [pmm_used_frame_count add_used pmm_set_bit]. rewrite MAX_FRAMES_val in *.
    rewrite u64_small by lia. rewrite (pw_used _ Hw). symmetry.
    rewrite MAX_FRAMES_val.
    apply count_range_set with f; [lia|done| |].
    + change (pmm_test_bit (pmm_set_bit f s) f = true). by rewrite test_set_bit, Z.eqb_refl by lia.
    + intros k Hk Hne. change (pmm_test_bit (pmm_set_bit f s) k = pmm_test_bit s k).
      by rewrite test_set_bit, (proj2 (Z.eqb_neq _ _) Hne) by lia.
Qed.

Lemma wf_clear s f :
  pmm_wf s -> 0 <= f < MAX_FRAMES -> pmm_test_bit s f = true ->
  pmm_wf (add_used (-1) (pmm_clear_bit f s)).
Proof.
  intros Hw Hf Ht. pose proof (wf_used_range s Hw) as Hu.
  assert (pmm_used_frame_count s =
          count_range (pmm_test_bit (pmm_clear_bit f s)) (Z.to_nat MAX_FRAMES) + 1) as Hc.
  { rewrite (pw_used _ Hw). rewrite MAX_FRAMES_val in *.
    apply count_range_set with f; [lia| |done|].
    - by rewrite test_clear_bit, Z.eqb_refl by lia.
    - intros k Hk Hne. by rewrite test_clear_bit, (proj2 (Z.eqb_neq _ _) Hne) by lia. }
  pose proof (count_range_bound (pmm_test_bit (pmm_clear_bit f s)) (Z.to_nat MAX_FRAMES)).
  split.
  - apply wf_bitmap_upd; [done|apply u8_range].
  - apply Hw.
  - cbn [pmm_used_frame_count add_used pmm_clear_bit]. rewrite Hc.
    rewrite u64_small; [|rewrite MAX_FRAMES_val in *; lia].
    change (pmm_test_bit (add_used (-1) (pmm_clear_bit f s))) with (pmm_test_bit (pmm_clear_bit f s)). lia.
Qed.

Lemma wf_refcount s f r : pmm_wf s -> 0 <= r < 256 -> pmm_wf (set_refcount f r s).
Proof.
  intros Hw Hr. split; [apply Hw| |apply Hw]. intros g. simpl. unfold upd. case_if; [done|apply Hw].
Qed.

Lemma wf_take s f :
  pmm_wf s -> 0 <= f < MAX_FRAMES -> pmm_test_bit s f = false -> pmm_wf (take_frame f s).
Proof.
  intros Hw Hf Ht. change (take_frame f s) with (set_refcount f 1 (add_used 1 (pmm_set_bit f s))).
  apply wf_refcount; [by apply wf_set|lia].
Qed.

Lemma test_take s f g :
  0 <= f -> 0 <= g -> pmm_test_bit (take_frame f s) g = (g =? f) || pmm_test_bit s g.
Proof. apply test_set_bit. Qed.

#[export] Hint Resolve wf_set wf_clear wf_refcount wf_take : aether.

(** *** The scan for one frame *)

Definition all_used (s : pmm) (a b : Z) : Prop := forall g, a <= g < b -> pmm_test_bit s g = true.
Definition all_free (s : pmm) (a b : Z) : Prop := forall g, a <= g < b -> pmm_test_bit s g = false.

Lemma all_used_app s a b c : all_used s a b -> all_used s b c -> all_used s a c.
Proof. intros H1 H2 g Hg. destruct (decide (g < b)); [apply H1|apply H2]; lia. Qed.

Lemma find_bit_spec n s byte bit :
  match find_bit n s byte bit with
  | Some f => byte * 8 + bit <= f < byte * 8 + bit + Z.of_nat n /\ pmm_test_bit s f = false /\
              all_used s (byte * 8 + bit) f
  | None => all_used s (byte * 8 + bit) (byte * 8 + bit + Z.of_nat n)
  end.
Proof.
  revert bit. induction n as [|n IH]; intros bit; cbn [find_bit]; [intros g Hg; lia|].
  case_if; bools.
  - split; [lia|]. split; [done|]. intros g Hg. lia.
  - assert (all_used s (byte * 8 + bit) (byte * 8 + (bit + 1))) as H1.
    { intros g Hg. by replace g with (byte * 8 + bit) by lia. }
    specialize (IH (bit + 1)). destruct (find_bit n s byte (bit + 1)) as [f|].
    + destruct IH as (? & ? & ?). split; [lia|]. split; [done|]. by eapply all_used_app.
    + replace (byte * 8 + bit + Z.of_nat (S n)) with (byte * 8 + (bit + 1) + Z.of_nat n) by lia.
      by eapply all_used_app.
Qed.

Lemma full_byte s byte : 0 <= byte -> pmm_bitmap s byte = 0xFF -> all_used s (byte * 8) (byte * 8 + 8).
Proof.
  intros Hb HF g Hg. rewrite test_bit_testbit by lia.
  replace (g / 8) with byte by (rewrite (Z.div_unique g 8 byte (g - byte * 8)); lia). rewrite HF.
  pose proof (Z.mod_pos_bound g 8). change 0xFF with (Z.ones 8). apply Z.ones_spec_low. lia.
Qed.

Lemma find_byte_spec n s byte :
  0 <= byte ->
  match find_byte n s byte with
  | Some f => byte * 8 <= f < (byte + Z.of_nat n) * 8 /\ pmm_test_bit s f = false /\
              all_used s (byte * 8) f
  | None => all_used s (byte * 8) ((byte + Z.of_nat n) * 8)
  end.
Proof.
  revert byte. induction n as [|n IH]; intros byte Hb; cbn [find_byte]; [intros g Hg; lia|].
  specialize (IH (byte + 1) ltac:(lia)).
  replace ((byte + 1 + Z.of_nat n) * 8) with ((byte + Z.of_nat (S n)) * 8) in IH by lia.
  assert (all_used s (byte * 8) ((byte + 1) * 8) ->
    match find_byte n s (byte + 1) with
    | Some f => byte * 8 <= f < (byte + Z.of_nat (S n)) * 8 /\ pmm_test_bit s f = false /\
                all_used s (byte * 8) f
    | None => all_used s (byte * 8) ((byte + Z.of_nat (S n)) * 8)
    end) as Hnext.
  { intros Hu. destruct (find_byte n s (byte + 1)) as [f|].
    - destruct IH as (? & ? & ?). split; [lia|]. split; [done|]. by eapply all_used_app.
    - by eapply all_used_app. }
  replace ((byte + 1) * 8) with (byte * 8 + 8) in Hnext by lia.
  case_if; bools; [by apply Hnext, full_byte|].
  pose proof (find_bit_spec 8 s byte 0) as Hbit. rewrite Z.add_0_r in Hbit.
  destruct (find_bit 8 s byte 0) as [f|]; [|by apply Hnext].
  destruct Hbit as (? & ? & ?). split; [lia|done].
Qed.

(** [f] is the lowest free frame. *)
Definition first_free (s : pmm) (f : Z) : Prop :=
  0 <= f < MAX_FRAMES /\ pmm_test_bit s f = false /\ all_used s 0 f.

Lemma alloc_scan s :
  match find_byte (Z.to_nat (MAX_FRAMES / 8)) s 0 with
  | Some f => first_free s f
  | None => all_used s 0 MAX_FRAMES
  end.
Proof.
  pose proof (find_byte_spec (Z.to_nat (MAX_FRAMES / 8)) s 0 ltac:(lia)) as H.
  rewrite MAX_FRAMES_val in *. change (Z.of_nat (Z.to_nat (1048576 / 8))) with 131072 in H.
  unfold first_free. rewrite MAX_FRAMES_val.
  destruct (find_byte _ _ _); simpl in H; [|done]. destruct H as (? & ? & ?). done.
Qed.

(** [pmm_alloc_frame] takes the lowest free frame: it was free and
    every lower one is in use, it is in use afterwards with reference count 1,
    no other frame changes, and the invariant of the allocator (the counter
    equals the number of bits set) is kept; it returns NULL with nothing
    changed exactly when every frame is in use. *)
Theorem pmm_alloc_frame_correct (s : pmm) :
  pmm_wf s ->
  let '(a, s') := pmm_alloc_frame s in
  (exists f, first_free s f /\ a = f * PMM_FRAME_SIZE /\ pmm_wf s' /\
     pmm_test_bit s' f = true /\ pmm_get_refcount a s' = 1 /\
     pmm_used_frame_count s' = pmm_used_frame_count s + 1 /\
     forall g, 0 <= g -> g <> f ->
       pmm_test_bit s' g = pmm_test_bit s g /\ pmm_refcounts s' g = pmm_refcounts s g) \/
  (all_used s 0 MAX_FRAMES /\ a = 0 /\ s' = s).
Proof.
  intros Hw. unfold pmm_alloc_frame. pose proof (alloc_scan s) as Hs.
  destruct (find_byte _ _ _) as [f|]; [left|by right].
  destruct Hs as (Hf & Ht & Hu). pose proof (wf_take s f Hw Hf Ht) as Hw'.
  exists f. split_and!; try done.
  - by rewrite test_take, Z.eqb_refl by lia.
  - unfold pmm_get_refcount. rewrite Z.div_mul by done. rewrite (proj2 (Z.leb_gt _ _)) by lia.
    simpl. apply upd_eq.
  - pose proof (wf_used_range _ Hw). simpl. rewrite MAX_FRAMES_val in *. by rewrite u64_small by lia.
  - intros g Hg Hne. rewrite test_take, (proj2 (Z.eqb_neq _ _) Hne) by lia. split; [done|].
    by apply upd_ne.
Qed.

(** *** Releasing keeps the invariant *)

Lemma wf_free_frame s a : pmm_wf s -> 0 <= a -> pmm_wf (pmm_free_frame a s).
Proof.
  intros Hw Ha. unfold pmm_free_frame.
  assert (0 <= a / PMM_FRAME_SIZE) by (apply Z.div_pos; [lia|done]).
  pose proof (pw_ref _ Hw (a / PMM_FRAME_SIZE)).
  repeat case_if; bools; try done; [apply wf_refcount; [done|lia]|].
  change (pmm_wf (add_used (-1) (pmm_clear_bit (a / PMM_FRAME_SIZE)
    (set_refcount (a / PMM_FRAME_SIZE) 0 s)))).
  apply wf_clear; [apply wf_refcount; [done|lia]|lia|done].
Qed.

(** A small state for the examples: every frame in use, then frames 3, 5, 6
    and 7 released. *)
Definition full_pmm : pmm := Pmm (fun _ => 0xFF) (fun _ => 1) 8 MAX_FRAMES.

Lemma full_pmm_wf : pmm_wf full_pmm.
Proof.
  split; simpl; [lia|lia|]. assert (0 <= MAX_FRAMES) by (rewrite MAX_FRAMES_val; lia).
  rewrite count_range_true; [lia|]. intros k Hk. rewrite test_bit_testbit by lia. cbn [pmm_bitmap full_pmm].
  pose proof (Z.mod_pos_bound k 8). change 0xFF with (Z.ones 8). apply Z.ones_spec_low. lia.
Qed.

Definition demo_pmm : pmm :=
  pmm_free_frame (7 * 4096) (pmm_free_frame (6 * 4096) (pmm_free_frame (5 * 4096)
    (pmm_free_frame (3 * 4096) full_pmm))).

Lemma demo_pmm_wf : pmm_wf demo_pmm.
Proof. repeat (apply wf_free_frame; [|lia]). apply full_pmm_wf. Qed.

Lemma pmm_alloc_frame_correct_witness :
  let '(a, s') := pmm_alloc_frame demo_pmm in
  (exists f, first_free demo_pmm f /\ a = f * PMM_FRAME_SIZE /\ pmm_wf s' /\
     pmm_test_bit s' f = true /\ pmm_get_refcount a s' = 1 /\
     pmm_used_frame_count s' = pmm_used_frame_count demo_pmm + 1 /\
     forall g, 0 <= g -> g <> f ->
       pmm_test_bit s' g = pmm_test_bit demo_pmm g /\ pmm_refcounts s' g = pmm_refcounts demo_pmm g) \/
  (all_used demo_pmm 0 MAX_FRAMES /\ a = 0 /\ s' = demo_pmm).
Proof. apply (pmm_alloc_frame_correct demo_pmm). apply demo_pmm_wf. Defined.

(** *** Runs of frames *)

Lemma find_run_spec n s count f run start :
  0 <= run < count -> run <= f -> (run <> 0 -> start = f - run) ->
  all_free s (f - run) f ->
  (forall st, 0 <= st < f - run -> ~ all_free s st (st + count)) ->
  match find_run n s count f run start with
  | Some st => 0 <= st /\ st + count <= f + Z.of_nat n /\ all_free s st (st + count) /\
               forall st', 0 <= st' < st -> ~ all_free s st' (st' + count)
  | None => forall st, 0 <= st -> st + count <= f + Z.of_nat n -> ~ all_free s st (st + count)
  end.
Proof.
  revert f run start. induction n as [|n IH]; intros f run start Hr Hf Hst Hfree Hno;
    cbn [find_run].
  { intros st H0 Hle Hall. destruct (decide (st < f - run)); [by apply (Hno st)|lia]. }
  replace (f + Z.of_nat (S n)) with (f + 1 + Z.of_nat n) by lia. case_if; bools.
  - assert ((if run =? 0 then f else start) = f - run) as -> by (case_if; bools; [lia|auto]).
    assert (all_free s (f - run) (f + 1)) as Hfree'.
    { intros g Hg. destruct (decide (g = f)) as [->|]; [done|apply Hfree; lia]. }
    case_if; bools.
    + split; [lia|]. split; [lia|]. replace (f - run + count) with (f + 1) by lia. done.
    + apply IH; try lia.
      * by replace (f + 1 - (run + 1)) with (f - run) by lia.
      * by replace (f + 1 - (run + 1)) with (f - run) by lia.
  - apply IH; try lia.
    + intros g Hg. lia.
    + intros st Hst' Hall. destruct (decide (st < f - run)); [by apply (Hno st); [lia|]|].
      rewrite (Hall f) in Heqb by lia. done.
Qed.

(** The loop that takes the frames of a run. *)
Lemma take_run s start n :
  pmm_wf s -> 0 <= start -> start + Z.of_nat n <= MAX_FRAMES -> all_free s start (start + Z.of_nat n) ->
  let s' := iter_range n start take_frame s in
  pmm_wf s' /\
  (forall g, 0 <= g -> pmm_test_bit s' g =
     ((start <=? g) && (g <? start + Z.of_nat n)) || pmm_test_bit s g) /\
  (forall g, pmm_refcounts s' g =
     if (start <=? g) && (g <? start + Z.of_nat n) then 1 else pmm_refcounts s g).
Proof.
  intros Hw H0 Hmax Hfree s'.
  pose (P := fun k t => pmm_wf t /\
    (forall g, 0 <= g -> pmm_test_bit t g = ((start <=? g) && (g <? k)) || pmm_test_bit s g) /\
    (forall g, pmm_refcounts t g = if (start <=? g) && (g <? k) then 1 else pmm_refcounts s g)).
  apply (iter_range_ind P n start take_frame s).
  - split; [done|]. split; intros g; (destruct (_ && _) eqn:E; [bools; lia|done]).
  - intros k t Hk (Wt & Bt & Rt).
    assert (forall g, (start <=? g) && (g <? k + 1) = (g =? k) || ((start <=? g) && (g <? k))) as Hg.
    { intros g. destruct (Z.leb_spec start g), (Z.ltb_spec g (k + 1)), (Z.ltb_spec g k),
        (Z.eqb_spec g k); simpl; (done || lia). }
    assert (pmm_test_bit t k = false) as Hk0.
    { rewrite Bt, (Hfree k) by lia. rewrite Z.ltb_irrefl. by rewrite andb_false_r. }
    split; [apply wf_take; [done|lia|done]|]. split; intros g.
    + intros Hg0. rewrite test_take, Bt, Hg, orb_assoc by lia. done.
    + rewrite Hg. simpl. unfold upd. rewrite Rt. by destruct (g =? k).
Qed.

(** [pmm_alloc_frames] for two or more frames is first fit: it
    returns the lowest address at which [count] contiguous frames are free,
    takes exactly those frames with reference count 1 and keeps the invariant;
    it returns NULL with nothing changed exactly when there is no such run. *)
Theorem pmm_alloc_frames_first_fit (s : pmm) (count : Z) :
  pmm_wf s -> 2 <= count ->
  let '(a, s') := pmm_alloc_frames count s in
  (exists st, a = st * PMM_FRAME_SIZE /\ 0 <= st /\ st + count <= MAX_FRAMES /\
     all_free s st (st + count) /\
     (forall st', 0 <= st' < st -> ~ all_free s st' (st' + count)) /\
     pmm_wf s' /\
     (forall g, 0 <= g -> pmm_test_bit s' g = ((st <=? g) && (g <? st + count)) || pmm_test_bit s g) /\
     (forall g, pmm_refcounts s' g =
        if (st <=? g) && (g <? st + count) then 1 else pmm_refcounts s g)) \/
  (a = 0 /\ s' = s /\
   forall st, 0 <= st -> st + count <= MAX_FRAMES -> ~ all_free s st (st + count)).
Proof.
  intros Hw Hc. unfold pmm_alloc_frames. rewrite !(proj2 (Z.eqb_neq count _)) by lia.
  pose proof (find_run_spec (Z.to_nat MAX_FRAMES) s count 0 0 0) as Hr.
  assert (0 <= MAX_FRAMES) by (rewrite MAX_FRAMES_val; lia).
  rewrite Z2Nat.id, Z.add_0_l in Hr by done.
  specialize (Hr ltac:(lia) ltac:(lia) ltac:(lia)
    ltac:(intros g Hg; lia) ltac:(intros; lia)).
  destruct (find_run _ _ _ _ _ _) as [st|]; [left|by right].
  destruct Hr as (H0 & Hle & Hfree & Hmin). exists st.
  pose proof (take_run s st (Z.to_nat count) Hw H0) as Ht. rewrite Z2Nat.id in Ht by lia.
  destruct (Ht Hle Hfree) as (? & ? & ?). by split_and!.
Qed.

Lemma pmm_alloc_frames_first_fit_witness :
  let '(a, s') := pmm_alloc_frames 3 demo_pmm in
  (exists st, a = st * PMM_FRAME_SIZE /\ 0 <= st /\ st + 3 <= MAX_FRAMES /\
     all_free demo_pmm st (st + 3) /\
     (forall st', 0 <= st' < st -> ~ all_free demo_pmm st' (st' + 3)) /\
     pmm_wf s' /\
     (forall g, 0 <= g -> pmm_test_bit s' g = ((st <=? g) && (g <? st + 3)) || pmm_test_bit demo_pmm g) /\
     (forall g, pmm_refcounts s' g =
        if (st <=? g) && (g <? st + 3) then 1 else pmm_refcounts demo_pmm g)) \/
  (a = 0 /\ s' = demo_pmm /\
   forall st, 0 <= st -> st + 3 <= MAX_FRAMES -> ~ all_free demo_pmm st (st + 3)).
Proof. apply (pmm_alloc_frames_first_fit demo_pmm 3); [apply demo_pmm_wf|lia]. Defined.

(** *** Release and sharing *)

Lemma wf_ref_frame s a : pmm_wf s -> pmm_wf (pmm_ref_frame a s).
Proof.
  intros Hw. unfold pmm_ref_frame. pose proof (pw_ref _ Hw (a / PMM_FRAME_SIZE)).
  repeat case_if; bools; try done. apply wf_refcount; [done|lia].
Qed.

(** One release of a frame that is in use. *)
Lemma free_frame_step s f :
  0 <= f < MAX_FRAMES -> pmm_test_bit s f = true ->
  let s' := pmm_free_frame (f * PMM_FRAME_SIZE) s in
  if decide (1 < pmm_refcounts s f)
  then pmm_test_bit s' f = true /\ pmm_refcounts s' f = pmm_refcounts s f - 1
  else pmm_test_bit s' f = false /\ pmm_refcounts s' f = 0.
Proof.
  intros Hf Ht s'. unfold s', pmm_free_frame. rewrite Z.div_mul by done.
  rewrite (proj2 (Z.leb_gt _ _)), Ht by lia. cbn [negb]. case_decide as Hd.
  - rewrite (proj2 (Z.ltb_lt _ _)) by lia. split; [done|]. simpl. by rewrite upd_eq.
  - rewrite (proj2 (Z.ltb_ge _ _)) by lia. split.
    + change (pmm_test_bit (pmm_clear_bit f (set_refcount f 0 s)) f = false).
      by rewrite test_clear_bit, Z.eqb_refl by lia.
    + simpl. apply upd_eq.
Qed.

Fixpoint iter_n {S} (n : nat) (f : S -> S) (s : S) : S :=
  match n with O => s | S n => iter_n n f (f s) end.

Lemma refs_add s f n :
  0 <= f < MAX_FRAMES -> pmm_refcounts s f + Z.of_nat n <= 255 ->
  let s' := iter_n n (pmm_ref_frame (f * PMM_FRAME_SIZE)) s in
  pmm_test_bit s' f = pmm_test_bit s f /\ pmm_refcounts s' f = pmm_refcounts s f + Z.of_nat n.
Proof.
  intros Hf. revert s. induction n as [|n IH]; intros s Hr; cbn [iter_n]; [split; [done|lia]|].
  assert (pmm_ref_frame (f * PMM_FRAME_SIZE) s = set_refcount f (pmm_refcounts s f + 1) s) as E.
  { unfold pmm_ref_frame. rewrite Z.div_mul by done. rewrite (proj2 (Z.leb_gt _ _)) by lia.
    by rewrite (proj2 (Z.ltb_lt _ _)) by lia. }
  rewrite E. destruct (IH (set_refcount f (pmm_refcounts s f + 1) s)) as [H1 H2].
  - simpl. rewrite upd_eq. lia.
  - rewrite H1, H2. simpl. rewrite upd_eq. split; [done|lia].
Qed.

Lemma frees_sub s f n :
  0 <= f < MAX_FRAMES -> pmm_test_bit s f = true -> Z.of_nat n < pmm_refcounts s f ->
  let s' := iter_n n (pmm_free_frame (f * PMM_FRAME_SIZE)) s in
  pmm_test_bit s' f = true /\ pmm_refcounts s' f = pmm_refcounts s f - Z.of_nat n.
Proof.
  intros Hf. revert s. induction n as [|n IH]; intros s Ht Hr; cbn [iter_n]; [split; [done|lia]|].
  pose proof (free_frame_step s f Hf Ht) as H. rewrite decide_True in H by lia. destruct H as [H1 H2].
  destruct (IH _ H1) as [H3 H4]; [lia|]. split; [done|]. lia.
Qed.

(** a frame held once and shared with [n] more holders, at most
    255 in all, stays allocated through the first [n] releases and is freed by
    the release of the last holder. *)
Theorem pmm_shared_frame_lifetime (s : pmm) (f : Z) (n k : nat) :
  0 <= f < MAX_FRAMES -> pmm_test_bit s f = true -> pmm_refcounts s f = 1 ->
  (n <= 254)%nat -> (k <= n)%nat ->
  let shared := iter_n n (pmm_ref_frame (f * PMM_FRAME_SIZE)) s in
  let s1 := iter_n k (pmm_free_frame (f * PMM_FRAME_SIZE)) shared in
  let s2 := pmm_free_frame (f * PMM_FRAME_SIZE)
              (iter_n n (pmm_free_frame (f * PMM_FRAME_SIZE)) shared) in
  pmm_test_bit s1 f = true /\ pmm_refcounts s1 f = Z.of_nat (n - k) + 1 /\
  pmm_test_bit s2 f = false.
Proof.
  intros Hf Ht Hr Hn Hk shared s1 s2.
  destruct (refs_add s f n Hf ltac:(lia)) as [T0 R0]. fold shared in T0, R0.
  destruct (frees_sub shared f k Hf ltac:(congruence) ltac:(lia)) as [T1 R1].
  destruct (frees_sub shared f n Hf ltac:(congruence) ltac:(lia)) as [T2 R2].
  pose proof (free_frame_step _ f Hf T2) as H3. rewrite decide_False in H3 by lia.
  split; [done|]. split; [|apply H3]. fold s1 in R1. lia.
Qed.

Lemma pmm_shared_frame_lifetime_witness :
  let shared := iter_n 2 (pmm_ref_frame (1 * PMM_FRAME_SIZE)) demo_pmm in
  let s1 := iter_n 2 (pmm_free_frame (1 * PMM_FRAME_SIZE)) shared in
  let s2 := pmm_free_frame (1 * PMM_FRAME_SIZE)
              (iter_n 2 (pmm_free_frame (1 * PMM_FRAME_SIZE)) shared) in
  pmm_test_bit s1 1 = true /\ pmm_refcounts s1 1 = Z.of_nat (2 - 2) + 1 /\
  pmm_test_bit s2 1 = false.
Proof. apply (pmm_shared_frame_lifetime demo_pmm 1 2 2); (done || lia). Defined.

(** Beyond 255 holders the saturated count loses track: with 256 holders the
    255th release already frees the frame the last holder still uses. *)
Lemma pmm_saturated_count_frees_early (s : pmm) (f : Z) :
  0 <= f < MAX_FRAMES -> pmm_test_bit s f = true -> pmm_refcounts s f = 1 ->
  let shared := pmm_ref_frame (f * PMM_FRAME_SIZE)
                  (iter_n 254 (pmm_ref_frame (f * PMM_FRAME_SIZE)) s) in
  pmm_test_bit (pmm_free_frame (f * PMM_FRAME_SIZE)
    (iter_n 254 (pmm_free_frame (f * PMM_FRAME_SIZE)) shared)) f = false.
Proof.
  intros Hf Ht Hr shared. destruct (refs_add s f 254 Hf ltac:(lia)) as [T0 R0].
  assert (shared = iter_n 254 (pmm_ref_frame (f * PMM_FRAME_SIZE)) s) as Hs.
  { unfold shared, pmm_ref_frame at 1. rewrite Z.div_mul, R0, Hr by done.
    by rewrite (proj2 (Z.leb_gt _ _)) by lia. }
  rewrite Hs in *. clear shared Hs.
  destruct (frees_sub _ f 254 Hf ltac:(rewrite T0; exact Ht) ltac:(lia)) as [T1 R1].
  pose proof (free_frame_step _ f Hf T1) as H. rewrite decide_False in H by lia. apply H.
Qed.

(** *** Marking ranges *)

Lemma frame_loop_inv (P : Z -> pmm -> Prop) a b body s :
  P a s -> (forall k t, a <= k < Z.min b MAX_FRAMES -> P k t -> P (k + 1) (body k t)) ->
  P (Z.max a (Z.min b MAX_FRAMES)) (frame_loop a b body s).
Proof.
  intros H0 Hs. unfold frame_loop.
  pose proof (iter_range_ind P (Z.to_nat (Z.min b MAX_FRAMES - a)) a body s H0) as H.
  replace (Z.max a (Z.min b MAX_FRAMES)) with (a + Z.of_nat (Z.to_nat (Z.min b MAX_FRAMES - a)))
    by lia.
  apply H. intros k t Hk. apply Hs. lia.
Qed.

(** Marking [a <= f < b] used sets exactly those bits. *)
Lemma loop_used_spec s a b :
  pmm_wf s -> 0 <= a ->
  let s' := frame_loop a b mark_used_frame s in
  pmm_wf s' /\ forall g, 0 <= g < MAX_FRAMES ->
    pmm_test_bit s' g = ((a <=? g) && (g <? b)) || pmm_test_bit s g.
Proof.
  intros Hw Ha s'.
  pose (P := fun k t => pmm_wf t /\ forall g, 0 <= g < MAX_FRAMES ->
    pmm_test_bit t g = ((a <=? g) && (g <? k)) || pmm_test_bit s g).
  assert (P (Z.max a (Z.min b MAX_FRAMES)) s') as [H1 H2].
  { apply frame_loop_inv.
    - split; [done|]. intros g Hg. destruct (_ && _) eqn:E; [bools; lia|done].
    - intros k t Hk [Wt Bt].
      assert (pmm_wf (mark_used_frame k t) /\ forall g, 0 <= g < MAX_FRAMES ->
        pmm_test_bit (mark_used_frame k t) g = (g =? k) || pmm_test_bit t g) as [W1 B1].
      { unfold mark_used_frame. case_if; bools.
        - split; [apply wf_set; [done|lia|done]|]. intros g Hg. by apply test_set_bit; lia.
        - split; [done|]. intros g Hg. destruct (Z.eqb_spec g k) as [->|]; [done|done]. }
      split; [done|]. intros g Hg. rewrite B1, Bt by done. rewrite orb_assoc. f_equal.
      destruct (Z.leb_spec a g), (Z.ltb_spec g (k + 1)), (Z.ltb_spec g k), (Z.eqb_spec g k);
        simpl; (done || lia). }
  split; [done|]. intros g Hg. rewrite H2 by done. f_equal.
  destruct (Z.leb_spec a g), (Z.ltb_spec g b), (Z.ltb_spec g (Z.max a (Z.min b MAX_FRAMES)));
    simpl; (done || lia).
Qed.

Lemma loop_free_spec s a b :
  pmm_wf s -> 0 <= a ->
  let s' := frame_loop a b mark_free_frame s in
  pmm_wf s' /\ forall g, 0 <= g < MAX_FRAMES ->
    pmm_test_bit s' g = negb ((a <=? g) && (g <? b)) && pmm_test_bit s g.
Proof.
  intros Hw Ha s'.
  pose (P := fun k t => pmm_wf t /\ forall g, 0 <= g < MAX_FRAMES ->
    pmm_test_bit t g = negb ((a <=? g) && (g <? k)) && pmm_test_bit s g).
  assert (P (Z.max a (Z.min b MAX_FRAMES)) s') as [H1 H2].
  { apply frame_loop_inv.
    - split; [done|]. intros g Hg. destruct ((_ <=? _) && _) eqn:E; [bools; lia|done].
    - intros k t Hk [Wt Bt].
      assert (pmm_wf (mark_free_frame k t) /\ forall g, 0 <= g < MAX_FRAMES ->
        pmm_test_bit (mark_free_frame k t) g = negb (g =? k) && pmm_test_bit t g) as [W1 B1].
      { unfold mark_free_frame. case_if.
        - split; [apply wf_clear; [done|lia|done]|]. intros g Hg. by apply test_clear_bit; lia.
        - split; [done|]. intros g Hg. destruct (Z.eqb_spec g k) as [->|]; [done|done]. }
      split; [done|]. intros g Hg. rewrite B1, Bt by done. rewrite andb_assoc. f_equal.
      destruct (Z.leb_spec a g), (Z.ltb_spec g (k + 1)), (Z.ltb_spec g k), (Z.eqb_spec g k);
        simpl; (done || lia). }
  split; [done|]. intros g Hg. rewrite H2 by done. f_equal. f_equal.
  destruct (Z.leb_spec a g), (Z.ltb_spec g b), (Z.ltb_spec g (Z.max a (Z.min b MAX_FRAMES)));
    simpl; (done || lia).
Qed.

Lemma wf_add_total s d : pmm_wf s -> pmm_wf (add_total d s).
Proof. intros [H1 H2 H3]. by split. Qed.

Lemma ALIGN_UP_nonneg x k : 0 <= k -> 0 <= ALIGN_UP x (2 ^ k).
Proof.
  intros Hk. unfold ALIGN_UP. rewrite ldiff_ones_div by done.
  apply Z.mul_nonneg_nonneg; [|apply Z.pow_nonneg; lia].
  apply Z.div_pos; [apply u64_range|apply Z.pow_pos_nonneg; lia].
Qed.

Lemma wf_mark_used s addr size : pmm_wf s -> 0 <= addr -> pmm_wf (pmm_mark_used addr size s).
Proof. intros Hw Ha. apply loop_used_spec; [done|]. by apply Z.div_pos. Qed.

Lemma wf_mark_free s addr size : pmm_wf s -> pmm_wf (pmm_mark_free addr size s).
Proof.
  intros Hw. apply loop_free_spec; [done|].
  apply Z.div_pos; [|done]. by apply (ALIGN_UP_nonneg addr 12).
Qed.

Lemma wf_alloc s : pmm_wf s -> pmm_wf (pmm_alloc_frame s).2.
Proof.
  intros Hw. unfold pmm_alloc_frame. pose proof (alloc_scan s) as Hs.
  destruct (find_byte _ _ _) as [f|]; [|done]. destruct Hs as (? & ? & _). by apply wf_take.
Qed.

Lemma wf_alloc_frames s count : pmm_wf s -> 0 <= count -> pmm_wf (pmm_alloc_frames count s).2.
Proof.
  intros Hw Hc. unfold pmm_alloc_frames.
  destruct (Z.eqb_spec count 0); [done|]. destruct (Z.eqb_spec count 1); [by apply wf_alloc|].
  assert (0 <= MAX_FRAMES) by (rewrite MAX_FRAMES_val; lia).
  pose proof (find_run_spec (Z.to_nat MAX_FRAMES) s count 0 0 0 ltac:(lia) ltac:(lia) ltac:(lia)
    ltac:(intros g Hg; lia) ltac:(intros; lia)) as Hr.
  rewrite Z2Nat.id, Z.add_0_l in Hr by done.
  destruct (find_run _ _ _ _ _ _) as [st|]; [|done]. destruct Hr as (H0 & Hle & Hfree & _).
  apply (take_run s st (Z.to_nat count) Hw H0); rewrite Z2Nat.id by lia; done.
Qed.

(** ** Accounting over all operations *)

Inductive pmm_step : pmm -> pmm -> Prop :=
| ps_alloc s : pmm_step s (pmm_alloc_frame s).2
| ps_alloc_frames s n : 0 <= n -> pmm_step s (pmm_alloc_frames n s).2
| ps_free s a : 0 <= a -> pmm_step s (pmm_free_frame a s)
| ps_free_frames s a n : 0 <= a -> pmm_step s (pmm_free_frames a n s)
| ps_ref s a : pmm_step s (pmm_ref_frame a s)
| ps_unref s a : 0 <= a -> pmm_step s (pmm_unref_frame a s)
| ps_mark_used s a n : 0 <= a -> pmm_step s (pmm_mark_used a n s)
| ps_mark_free s a n : pmm_step s (pmm_mark_free a n s).

Lemma pmm_step_wf s s' : pmm_wf s -> pmm_step s s' -> pmm_wf s'.
Proof.
  intros Hw Hs. destruct Hs; auto using wf_alloc, wf_alloc_frames, wf_free_frame, wf_ref_frame,
    wf_mark_used, wf_mark_free.
  unfold pmm_free_frames. apply (iter_range_ind (fun _ t => pmm_wf t)); [done|].
  intros k t _ Ht. apply wf_free_frame; [done|apply u64_range].
Qed.

(** whatever sequence of allocations, releases, sharings and range
    markings runs on a consistent allocator, [pmm_used_frame_count] stays the
    exact number of frames whose bit is set. *)
Theorem pmm_used_count_exact (s s' : pmm) :
  pmm_wf s -> reach pmm_step s s' ->
  pmm_used_frame_count s' = count_range (pmm_test_bit s') (Z.to_nat MAX_FRAMES).
Proof. intros Hw Hr. apply pw_used. eapply reach_invariant; [|done|done]. apply pmm_step_wf. Qed.

Lemma pmm_used_count_exact_witness :
  let s' := (pmm_alloc_frame demo_pmm).2 in
  pmm_used_frame_count s' = count_range (pmm_test_bit s') (Z.to_nat MAX_FRAMES).
Proof.
  apply (pmm_used_count_exact demo_pmm (pmm_alloc_frame demo_pmm).2); [apply demo_pmm_wf|].
  eapply reach_step; [apply reach_refl|apply ps_alloc].
Defined.

(** [pmm_free_frames_count] is the number of free frames only on a
    machine whose memory map reports all 4 GiB: the used counter starts at
    [MAX_FRAMES] while the total counts available memory only. *)
Theorem pmm_free_count_only_full_memory (s : pmm) :
  pmm_wf s -> 0 <= pmm_total_frame_count s < 2 ^ 63 ->
  pmm_free_frames_count s = MAX_FRAMES - pmm_used_frame_count s <->
  pmm_total_frame_count s = MAX_FRAMES.
Proof.
  intros Hw Ht. unfold pmm_free_frames_count. pose proof (wf_used_range s Hw) as Hu.
  rewrite MAX_FRAMES_val in *. split.
  - intros H. destruct (decide (pmm_used_frame_count s <= pmm_total_frame_count s)).
    + rewrite u64_small in H by lia. lia.
    + unfold u64 in H. rewrite <- (Z_mod_plus_full _ 1), Z.mod_small in H; lia.
  - intros ->. apply u64_small. lia.
Qed.

Lemma pmm_free_count_only_full_memory_witness :
  pmm_free_frames_count demo_pmm = MAX_FRAMES - pmm_used_frame_count demo_pmm <->
  pmm_total_frame_count demo_pmm = MAX_FRAMES.
Proof. apply (pmm_free_count_only_full_memory demo_pmm); [apply demo_pmm_wf|by vm_compute]. Defined.

(** ** Initialisation from the memory map *)

Lemma load_le_range n m a : bytes_ok m -> 0 <= load_le n m a < 256 ^ Z.of_nat n.
Proof.
  intros Hm. revert a. induction n as [|n IH]; intros a; cbn [load_le]; [simpl; lia|].
  specialize (IH (a + 1)). specialize (Hm a). rewrite Nat2Z.inj_succ, Z.pow_succ_r by lia. lia.
Qed.

(** The entry at [p] offers the frame [g]. *)
Definition entry_offers (m : mem) (p g : Z) : Prop :=
  load32 m (p + 16) = MULTIBOOT2_MMAP_AVAILABLE /\
  load64 m p <= g * 4096 /\ (g + 1) * 4096 <= load64 m p + load64 m (p + 8).

(** No entry wraps around the 64-bit address space. *)
Definition sane_map (m : mem) (p e size : Z) : Prop :=
  forall k, 0 <= k -> p + k * size < e ->
    load64 m (p + k * size) + load64 m (p + k * size + 8) <= 2 ^ 64 - 4096.

(** [pmm_mark_free] frees only frames that lie wholly in the region. *)
Lemma mark_free_within s addr size g :
  pmm_wf s -> 0 <= addr -> 0 <= size -> addr + size <= 2 ^ 64 - 4096 -> 0 <= g < MAX_FRAMES ->
  pmm_test_bit (pmm_mark_free addr size s) g = false ->
  pmm_test_bit s g = false \/ (addr <= g * 4096 /\ (g + 1) * 4096 <= addr + size).
Proof.
  intros Hw Ha Hsz Hb Hg. unfold pmm_mark_free.
  pose proof (ALIGN_UP_bounds addr 12 ltac:(lia) Ha ltac:(lia)) as [Hbd [q Hq]].
  change (2 ^ 12) with 4096 in *. change PMM_FRAME_SIZE with 4096.
  rewrite u64_small by lia.
  destruct (loop_free_spec s (ALIGN_UP addr 4096 / 4096) ((addr + size) / 4096) Hw) as [_ H].
  { apply Z.div_pos; lia. }
  rewrite H by done. intros Hf. apply andb_false_iff in Hf as [Hf|Hf]; [|by left].
  bools. right. rewrite Hq, Z.div_mul in * by lia.
  pose proof (Z.mul_div_le (addr + size) 4096 ltac:(lia)). lia.
Qed.

Lemma mmap_loop_spec fuel m p e size s :
  bytes_ok m -> 0 < size -> sane_map m p e size -> pmm_wf s -> e - p <= Z.of_nat fuel ->
  exists s', mmap_loop (S fuel) m p e size s = Some s' /\ pmm_wf s' /\
    forall g, 0 <= g < MAX_FRAMES -> pmm_test_bit s' g = false ->
      pmm_test_bit s g = false \/
      exists k, 0 <= k /\ p + k * size < e /\ entry_offers m (p + k * size) g.
Proof.
  intros Hm Hsz. revert p s. induction fuel as [|fuel IH]; intros p s Hsane Hw Hf.
  { cbn [mmap_loop]. rewrite (proj2 (Z.ltb_ge _ _)) by lia. exists s. split; [done|]. split; [done|]. by left. }
  remember (S fuel) as fuel'. cbn [mmap_loop]. case_if; bools.
  2: { exists s. split; [done|]. split; [done|]. by left. }
  set (s1 := if load32 m (p + 16) =? _ then _ else s).
  pose proof (load_le_range 8 m p Hm) as R1. pose proof (load_le_range 8 m (p + 8) Hm) as R2.
  pose proof (Hsane 0 ltac:(lia) ltac:(lia)) as Hs0. rewrite Z.mul_0_l, Z.add_0_r in Hs0.
  unfold load64 in *.
  assert (pmm_wf s1 /\ forall g, 0 <= g < MAX_FRAMES -> pmm_test_bit s1 g = false ->
    pmm_test_bit s g = false \/ entry_offers m p g) as [W1 F1].
  { unfold s1. case_if; bools; [|by split; [|left]].
    split; [apply wf_add_total; by apply wf_mark_free|]. intros g Hg Ht.
    destruct (mark_free_within s (load_le 8 m p) (load_le 8 m (p + 8)) g) as [?|[? ?]];
      try done; try lia; [by left|right]. by split. }
  subst fuel'. destruct (IH (p + size) s1) as (s' & E & W' & F').
  - intros k Hk Hlt. replace (p + size + k * size) with (p + (k + 1) * size) in * by lia.
    apply Hsane; lia.
  - done.
  - lia.
  - exists s'. split; [done|]. split; [done|]. intros g Hg Ht.
    destruct (F' g Hg Ht) as [Ht1|(k & Hk & Hlt & Hoff)].
    + destruct (F1 g Hg Ht1) as [?|?]; [by left|right]. exists 0. rewrite Z.mul_0_l, Z.add_0_r. split_and!; (done || lia).
    + right. exists (k + 1). replace (p + (k + 1) * size) with (p + size + k * size) by lia.
      split_and!; (done || lia).
Qed.

(** [pmm_mark_used] reserves every frame that holds a byte of the region. *)
Lemma mark_used_covers s addr size :
  pmm_wf s -> 0 <= addr -> 0 <= size -> addr + size <= 2 ^ 64 - 4096 ->
  let s' := pmm_mark_used addr size s in
  pmm_wf s' /\
  (forall g, 0 <= g < MAX_FRAMES -> pmm_test_bit s' g = false -> pmm_test_bit s g = false) /\
  (forall x, addr <= x < addr + size -> x < PMM_MAX_MEMORY -> pmm_test_bit s' (x / 4096) = true).
Proof.
  intros Hw Ha Hsz Hb s'.
  destruct (loop_used_spec s (addr / 4096) (ALIGN_UP (u64 (addr + size)) 4096 / 4096) Hw) as [W H].
  { apply Z.div_pos; lia. }
  split; [done|]. split.
  - intros g Hg. unfold s', pmm_mark_used. change PMM_FRAME_SIZE with 4096. rewrite H by done.
    by intros [_ ?]%orb_false_iff.
  - intros x Hx Hmax. unfold s', pmm_mark_used. change PMM_FRAME_SIZE with 4096.
    unfold PMM_MAX_MEMORY in Hmax. rewrite H.
    + apply orb_true_iff. left. apply andb_true_iff. rewrite u64_small by lia.
      pose proof (ALIGN_UP_bounds (addr + size) 12 ltac:(lia) ltac:(lia) ltac:(lia)) as [Hbd [q Hq]].
      change (2 ^ 12) with 4096 in *. rewrite Hq, Z.div_mul in * by lia. split.
      * apply Z.leb_le, Z.div_le_mono; lia.
      * apply Z.ltb_lt, Z.div_lt_upper_bound; lia.
    + rewrite MAX_FRAMES_val. split; [apply Z.div_pos; lia|apply Z.div_lt_upper_bound; lia].
Qed.

(** C32: when the boot information has a memory map, [pmm_init] ends in
    a consistent allocator in which every free frame lies wholly in a region
    the map reports as available, and no frame holding a byte of the first
    megabyte, of the kernel image or of the bitmap itself is free. *)
Theorem pmm_init_safe (fuel : nat) (m : mem) (info kend bitmap_virt tag : Z) (s : pmm) :
  bytes_ok m -> (forall f, 0 <= pmm_refcounts s f < 256) ->
  multiboot2_find_tag (S fuel) m info MULTIBOOT2_TAG_MMAP = Some (Some tag) ->
  0 < load32 m (tag + 8) -> load32 m (tag + 4) <= Z.of_nat fuel ->
  sane_map m (tag + 16) (tag + load32 m (tag + 4)) (load32 m (tag + 8)) ->
  KERNEL_PHYS_BASE <= kend < 2 ^ 63 -> VIRT_TO_PHYS bitmap_virt < 2 ^ 63 ->
  exists s', pmm_init (S fuel) m info kend bitmap_virt s = InitOk s' /\ pmm_wf s' /\
    (forall g, 0 <= g < MAX_FRAMES -> pmm_test_bit s' g = false ->
       exists k, 0 <= k /\ tag + 16 + k * load32 m (tag + 8) < tag + load32 m (tag + 4) /\
         entry_offers m (tag + 16 + k * load32 m (tag + 8)) g) /\
    (forall x, x < PMM_MAX_MEMORY ->
       0 <= x < 0x100000 \/ KERNEL_PHYS_BASE <= x < kend \/
       VIRT_TO_PHYS bitmap_virt <= x < VIRT_TO_PHYS bitmap_virt + MAX_FRAMES / 8 ->
       pmm_test_bit s' (x / 4096) = true).
Proof.
  intros Hm Hrefs Htag Hsz Hfuel Hsane Hkend Hbm. unfold pmm_init. rewrite Htag.
  set (s0 := Pmm _ _ _ MAX_FRAMES).
  assert (pmm_wf s0) as W0.
  { split; simpl; [lia|done|]. apply full_pmm_wf. }
  assert (forall g, 0 <= g -> pmm_test_bit s0 g = true) as F0.
  { intros g Hg. rewrite test_bit_testbit by lia. cbn [pmm_bitmap s0].
    pose proof (Z.mod_pos_bound g 8). change 0xFF with (Z.ones 8). apply Z.ones_spec_low. lia. }
  destruct (mmap_loop_spec fuel m (tag + 16) (tag + load32 m (tag + 4)) (load32 m (tag + 8)) s0)
    as (s1 & -> & W1 & F1); try done; [lia|].
  unfold KERNEL_PHYS_BASE in *.
  assert (0 <= VIRT_TO_PHYS bitmap_virt) by apply u64_range.
  assert (MAX_FRAMES / 8 = 131072) as HM by done.
  rewrite (u64_small (kend - 0x100000)) by lia.
  destruct (mark_used_covers s1 0 0x100000) as (W2 & M2 & C2); [done|lia|lia|lia|].
  destruct (mark_used_covers (pmm_mark_used 0 0x100000 s1) 0x100000 (kend - 0x100000))
    as (W3 & M3 & C3); [done|lia|lia|lia|].
  destruct (mark_used_covers (pmm_mark_used 0x100000 (kend - 0x100000)
    (pmm_mark_used 0 0x100000 s1)) (VIRT_TO_PHYS bitmap_virt) (MAX_FRAMES / 8))
    as (W4 & M4 & C4); [done|lia|lia|lia|].
  eexists. split; [reflexivity|]. split; [done|]. split.
  - intros g Hg Ht. destruct (F1 g Hg) as [Hc|?]; [by apply M2, M3, M4|by rewrite F0 in Hc by lia|done].
  - intros x Hx Hcase.
    assert (0 <= x / 4096 < MAX_FRAMES) as Hr.
    { rewrite MAX_FRAMES_val. unfold PMM_MAX_MEMORY in Hx.
      split; [apply Z.div_pos; lia|apply Z.div_lt_upper_bound; lia]. }
    destruct (pmm_test_bit _ (x / 4096)) eqn:E; [done|exfalso].
    destruct Hcase as [Hc|[Hc|Hc]].
    + apply M4 in E; [|done]. apply M3 in E; [|done]. by rewrite C2 in E by (done || lia).
    + apply M4 in E; [|done]. by rewrite C3 in E by (done || lia).
    + by rewrite C4 in E by (done || lia).
Qed.

(** Boot information at [0x9000] with one available region of 4 MiB. *)
Definition demo_boot : mem :=
  store_le 4 (store_le 8 (store_le 8 (store_le 4 (store_le 4 (store_le 4 (fun _ => 0)
    0x9008 6) 0x900C 40) 0x9010 24) 0x9018 0x200000) 0x9020 0x400000) 0x9028 1.

Lemma pmm_init_safe_witness :
  exists s', pmm_init 101 demo_boot 0x9000 0x180000 0xFFFFFFFF80140000 full_pmm = InitOk s' /\
    pmm_wf s' /\
    (forall g, 0 <= g < MAX_FRAMES -> pmm_test_bit s' g = false ->
       exists k, 0 <= k /\ 0x9008 + 16 + k * load32 demo_boot (0x9008 + 8) <
           0x9008 + load32 demo_boot (0x9008 + 4) /\
         entry_offers demo_boot (0x9008 + 16 + k * load32 demo_boot (0x9008 + 8)) g) /\
    (forall x, x < PMM_MAX_MEMORY ->
       0 <= x < 0x100000 \/ KERNEL_PHYS_BASE <= x < 0x180000 \/
       VIRT_TO_PHYS 0xFFFFFFFF80140000 <= x < VIRT_TO_PHYS 0xFFFFFFFF80140000 + MAX_FRAMES / 8 ->
       pmm_test_bit s' (x / 4096) = true).
Proof.
  apply (pmm_init_safe 100 demo_boot 0x9000 0x180000 0xFFFFFFFF80140000 0x9008 full_pmm).
  - unfold demo_boot. repeat apply store_le_bytes. intros x. lia.
  - intros f. simpl. lia.
  - by vm_compute.
  - by vm_compute.
  - by vm_compute.
  - intros k Hk. change (load32 demo_boot (0x9008 + 8)) with 24.
    change (load32 demo_boot (0x9008 + 4)) with 40. intros Hlt.
    assert (k = 0) as -> by lia. by vm_compute.
  - by vm_compute.
  - by vm_compute.
Defined.

(** ** The frame allocator interface *)

#[export] Instance pmm_frame_alloc : FrameAlloc pmm := {
  alloc_frame := pmm_alloc_frame;
  alloc_frames := pmm_alloc_frames;
  free_frame := pmm_free_frame;
  free_frames := pmm_free_frames;
  ref_frame := pmm_ref_frame;
  get_refcount := pmm_get_refcount;
  in_use := fun s a => pmm_test_bit s (a / PMM_FRAME_SIZE);
  alloc_inv := pmm_wf
}.

Lemma frame_addr_index a : frame_addr a ->
  exists f, a = f * 4096 /\ a / PMM_FRAME_SIZE = f /\ 0 <= f < MAX_FRAMES.
Proof.
  intros [[f ->] Hr]. exists f. change PMM_FRAME_SIZE with 4096.
  rewrite Z.div_mul, MAX_FRAMES_val by done. lia.
Qed.

Lemma get_refcount_index f s :
  0 <= f < MAX_FRAMES -> pmm_get_refcount (f * 4096) s = pmm_refcounts s f.
Proof.
  intros Hf. unfold pmm_get_refcount. change PMM_FRAME_SIZE with 4096. rewrite Z.div_mul by done.
  by rewrite (proj2 (Z.leb_gt _ _)) by lia.
Qed.

(** What an allocation does, frame by frame. *)
Lemma pmm_alloc_cases s a s' :
  pmm_alloc_frame s = (a, s') ->
  (a = 0 /\ s' = s) \/ exists f, a = f * 4096 /\ first_free s f /\ s' = take_frame f s.
Proof.
  unfold pmm_alloc_frame. pose proof (alloc_scan s) as Hs.
  destruct (find_byte _ _ _) as [f|]; intros [= <- <-]; [right|by left]. by exists f.
Qed.

#[export] Instance pmm_frame_alloc_laws : FrameAllocLaws pmm.
Proof.
  split; simpl.
  - apply wf_alloc.
  - apply wf_free_frame.
  - apply wf_ref_frame.
  - intros s a s' Hw E Ha. apply pmm_alloc_cases in E as [[-> _]|(f & -> & (Hf & Ht & _) & ->)]; [done|].
    change PMM_FRAME_SIZE with 4096. rewrite Z.div_mul by done.
    rewrite get_refcount_index by done. split_and!.
    + split; [apply Z.divide_factor_r|]. rewrite MAX_FRAMES_val in Hf. lia.
    + done.
    + by rewrite test_take, Z.eqb_refl by lia.
    + simpl. apply upd_eq.
  - intros s a s' b Hw E Hb Hu. apply frame_addr_index in Hb as (g & -> & Hg & Hr).
    rewrite Hg in *. rewrite !get_refcount_index by done.
    apply pmm_alloc_cases in E as [[_ ->]|(f & -> & (Hf & Ht & _) & ->)]; [done|].
    assert (g <> f) as Hne by (intros ->; congruence). split.
    + rewrite test_take by lia. by rewrite Hu, orb_true_r.
    + simpl. by apply upd_ne.
  - intros s a b Hw Ha Hb Hne. apply frame_addr_index in Ha as (f & -> & Hf & Hrf).
    apply frame_addr_index in Hb as (g & -> & Hg & Hrg). rewrite !get_refcount_index by done.
    assert (g <> f) as Hgf by (intros ->; done). rewrite Hg. unfold pmm_free_frame. rewrite Hf.
    repeat case_if; bools; try done.
    + split; [done|]. simpl. by apply upd_ne.
    + split; [|simpl; by apply upd_ne].
      change (pmm_test_bit (pmm_clear_bit f (set_refcount f 0 s)) g = pmm_test_bit s g).
      by rewrite test_clear_bit, (proj2 (Z.eqb_neq _ _) Hgf) by lia.
  - intros s a b Ha Hb Hne. apply frame_addr_index in Ha as (f & -> & Hf & Hrf).
    apply frame_addr_index in Hb as (g & -> & Hg & Hrg). rewrite !get_refcount_index by done.
    assert (g <> f) as Hgf by (intros ->; done). rewrite Hg. unfold pmm_ref_frame. rewrite Hf.
    repeat case_if; try done. split; [done|]. simpl. by apply upd_ne.
  - intros s a Hw Ha Hu Hr. apply frame_addr_index in Ha as (f & -> & Hf & Hrf).
    rewrite Hf in *. rewrite get_refcount_index in * by done.
    pose proof (free_frame_step s f Hrf Hu) as H. rewrite decide_True in H by lia.
    rewrite get_refcount_index by done. done.
  - intros s a Hw Ha Hu Hr. apply frame_addr_index in Ha as (f & -> & Hf & Hrf).
    rewrite Hf in *. rewrite get_refcount_index in * by done.
    pose proof (free_frame_step s f Hrf Hu) as H. rewrite decide_False in H by lia. apply H.
  - intros s a Hw Ha Hr. apply frame_addr_index in Ha as (f & -> & Hf & Hrf).
    rewrite Hf in *. rewrite get_refcount_index in * by done. unfold pmm_ref_frame. rewrite Hf.
    rewrite (proj2 (Z.leb_gt _ _)), (proj2 (Z.ltb_lt _ _)) by lia. split; [done|].
    rewrite !get_refcount_index by done. simpl. apply upd_eq.
Qed.
