(* ===== verification/Vmm.v ===== *)
(** * The virtual memory manager, [memory/vmm.c]

    Four-level page tables, copy-on-write cloning and the page fault handler.
    A [page_table_t*] is the kernel virtual address of the table; memory is a
    function from the virtual address of a page to its 512 words, which holds
    both tables and data pages.  The manager is written against the frame
    allocator interface ([FrameAlloc.v]).  Flushing the TLB has no counterpart
    in the model, and [CR3] is a field of the state.  [PHYS_TO_VIRT] is exact:
    the theorems say where they need page tables below 2 GiB, the part of
    physical memory the higher-half window shows. *)

From S2P Require Import Prelude FrameAlloc.

Definition PTE_PRESENT : Z := 2 ^ 0.
Definition PTE_WRITABLE : Z := 2 ^ 1.
Definition PTE_USER : Z := 2 ^ 2.
Definition PTE_HUGE : Z := 2 ^ 7.
Definition PTE_GLOBAL : Z := 2 ^ 8.
Definition PTE_COW : Z := 2 ^ 9.
Definition PTE_GUARD : Z := 2 ^ 10.
Definition PTE_NX : Z := 2 ^ 63.
Definition PTE_ADDR_MASK : Z := 0x000FFFFFFFFFF000.

(** [e & flag] used as a condition. *)
Definition has_flag (e flag : Z) : bool := negb (e .& flag =? 0).

Definition PML4_INDEX (vaddr : Z) : Z := Z.shiftr vaddr 39 .& 0x1FF.
Definition PDPT_INDEX (vaddr : Z) : Z := Z.shiftr vaddr 30 .& 0x1FF.
Definition PD_INDEX (vaddr : Z) : Z := Z.shiftr vaddr 21 .& 0x1FF.
Definition PT_INDEX (vaddr : Z) : Z := Z.shiftr vaddr 12 .& 0x1FF.

(** The table an entry points to. *)
Definition table_of (e : Z) : Z := PHYS_TO_VIRT (e .& PTE_ADDR_MASK).

Definition virt_to_phys_kernel (vaddr : Z) : Z := u64 (vaddr - KERNEL_VMA_BASE).

(** Memory: the words of every page, by the virtual address of the page. *)
Definition page_mem := Z -> Z -> Z.

Definition set_entry (P : page_mem) (t i e : Z) : page_mem :=
  fun t' => if t' =? t then upd (P t) i e else P t'.
Definition set_page (P : page_mem) (t : Z) (w : Z -> Z) : page_mem :=
  fun t' => if t' =? t then w else P t'.

(** [for (i = a; n rounds; i++) if (!body(i)) goto out;] *)
Fixpoint iter_until {T} (n : nat) (a : Z) (body : Z -> T -> bool * T) (s : T) : bool * T :=
  match n with
  | O => (true, s)
  | S n => let '(ok, s) := body a s in
           if ok then iter_until n (a + 1) body s else (false, s)
  end.

Section vmm.
Context {A : Type} `{FrameAlloc A}.

Record vm := Vm {
  pages : page_mem;
  frames : A;
  kernel_pml4 : Z;
  cr3 : Z
}.

Definition put_entry (t i e : Z) (s : vm) : vm :=
  Vm (set_entry (pages s) t i e) (frames s) (kernel_pml4 s) (cr3 s).
Definition put_page (t : Z) (w : Z -> Z) (s : vm) : vm :=
  Vm (set_page (pages s) t w) (frames s) (kernel_pml4 s) (cr3 s).
Definition with_frames (f : A) (s : vm) : vm := Vm (pages s) f (kernel_pml4 s) (cr3 s).
Definition set_cr3 (c : Z) (s : vm) : vm := Vm (pages s) (frames s) (kernel_pml4 s) c.

(** A zeroed table; 0 is NULL. *)
Definition alloc_page_table (s : vm) : Z * vm :=
  let '(phys, f) := alloc_frame (frames s) in
  let s := with_frames f s in
  if phys =? 0 then (0, s)
  else (PHYS_TO_VIRT phys, put_page (PHYS_TO_VIRT phys) (fun _ => 0) s).

Definition get_or_create_table (parent idx flags : Z) (s : vm) : Z * vm :=
  let entry := pages s parent idx in
  if has_flag entry PTE_PRESENT then
    if has_flag entry PTE_HUGE then (0, s) else (table_of entry, s)
  else
    let '(child, s) := alloc_page_table s in
    if child =? 0 then (0, s)
    else (child, put_entry parent idx (virt_to_phys_kernel child .| flags) s).

(** 0 on success, -1 on failure. *)
Definition vmm_map_page (pml4 vaddr paddr flags : Z) (s : vm) : Z * vm :=
  let huge := has_flag flags PTE_HUGE in
  let entry_flags := PTE_PRESENT .| PTE_WRITABLE in
  let entry_flags := if has_flag flags PTE_USER then entry_flags .| PTE_USER else entry_flags in
  let '(pdpt, s) := get_or_create_table pml4 (PML4_INDEX vaddr) entry_flags s in
  if pdpt =? 0 then (-1, s)
  else
    let '(pd, s) := get_or_create_table pdpt (PDPT_INDEX vaddr) entry_flags s in
    if pd =? 0 then (-1, s)
    else if huge then
      (0, put_entry pd (PD_INDEX vaddr) ((paddr .&~ 0x1FFFFF) .| flags .| PTE_PRESENT) s)
    else
      let '(pt, s) := get_or_create_table pd (PD_INDEX vaddr) entry_flags s in
      if pt =? 0 then (-1, s)
      else (0, put_entry pt (PT_INDEX vaddr) (paddr .& PTE_ADDR_MASK .| flags .| PTE_PRESENT) s).

Definition vmm_unmap_page (pml4 vaddr : Z) (s : vm) : Z * vm :=
  let e4 := pages s pml4 (PML4_INDEX vaddr) in
  let pdpt := table_of e4 in
  if (pdpt =? 0) || negb (has_flag e4 PTE_PRESENT) then (-1, s)
  else
    let e3 := pages s pdpt (PDPT_INDEX vaddr) in
    let pd := table_of e3 in
    if (pd =? 0) || negb (has_flag e3 PTE_PRESENT) then (-1, s)
    else
      let pd_entry := pages s pd (PD_INDEX vaddr) in
      if negb (has_flag pd_entry PTE_PRESENT) then (-1, s)
      else if has_flag pd_entry PTE_HUGE then (0, put_entry pd (PD_INDEX vaddr) 0 s)
      else
        let pt := table_of pd_entry in
        if pt =? 0 then (-1, s) else (0, put_entry pt (PT_INDEX vaddr) 0 s).

Definition vmm_get_physical (pml4 vaddr : Z) (s : vm) : Z :=
  let e := pages s pml4 (PML4_INDEX vaddr) in
  if negb (has_flag e PTE_PRESENT) then 0
  else
    let e := pages s (table_of e) (PDPT_INDEX vaddr) in
    if negb (has_flag e PTE_PRESENT) then 0
    else
      let e := pages s (table_of e) (PD_INDEX vaddr) in
      if negb (has_flag e PTE_PRESENT) then 0
      else if has_flag e PTE_HUGE then (e .&~ 0x1FFFFF) .| (vaddr .& 0x1FFFFF)
      else
        let e := pages s (table_of e) (PT_INDEX vaddr) in
        if negb (has_flag e PTE_PRESENT) then 0
        else (e .& PTE_ADDR_MASK) .| (vaddr .& 0xFFF).

Definition vmm_map_range (pml4 vaddr paddr size flags : Z) (s : vm) : Z * vm :=
  let size := ALIGN_UP size PAGE_SIZE in
  let '(ok, s) :=
    iter_until (Z.to_nat (size / PAGE_SIZE)) 0
      (fun k s => let off := k * PAGE_SIZE in
                  let '(r, s) := vmm_map_page pml4 (u64 (vaddr + off)) (u64 (paddr + off)) flags s in
                  (r =? 0, s)) s in
  ((if (ok : bool) then 0 else -1), s).

(** [vmm_init]; [None] is the panic. *)
Definition kernel_flags : Z := PTE_PRESENT .| PTE_WRITABLE .| PTE_GLOBAL .| PTE_HUGE.

Definition vmm_init (s : vm) : option vm :=
  let '(pml4, s) := alloc_page_table s in
  if pml4 =? 0 then None
  else
    let s := Vm (pages s) (frames s) pml4 (cr3 s) in
    let s :=
      iter_range 2048 0
        (fun k s =>
           let addr := k * 0x200000 in
           let '(_, s) := vmm_map_page pml4 addr addr kernel_flags s in
           if addr <? 0x80000000
           then (vmm_map_page pml4 (u64 (KERNEL_VMA_BASE + addr)) addr kernel_flags s).2
           else s) s in
    Some (set_cr3 (virt_to_phys_kernel pml4) s).

(** The upper half is copied from the kernel's table; 0 is NULL. *)
Definition vmm_create_address_space (s : vm) : Z * vm :=
  let '(pml4, s) := alloc_page_table s in
  if pml4 =? 0 then (0, s)
  else (pml4, iter_range 256 256 (fun i s => put_entry pml4 i (pages s (kernel_pml4 s) i) s) s).

Definition release (phys : Z) (s : vm) : vm := with_frames (free_frame phys (frames s)) s.

(** The tables of the lower half and the data frames they map are released. *)
Definition destroy_pt (pt : Z) (s : vm) : vm :=
  iter_range 512 0
    (fun l s => let pte := pages s pt l in
                if has_flag pte PTE_PRESENT then release (pte .& PTE_ADDR_MASK) s else s) s.

Definition destroy_pd (pd : Z) (s : vm) : vm :=
  iter_range 512 0
    (fun k s => let pde := pages s pd k in
                if negb (has_flag pde PTE_PRESENT) then s
                else if has_flag pde PTE_HUGE
                then with_frames (free_frames (pde .&~ 0x1FFFFF) 512 (frames s)) s
                else release (pde .& PTE_ADDR_MASK) (destroy_pt (table_of pde) s)) s.

Definition destroy_pdpt (pdpt : Z) (s : vm) : vm :=
  iter_range 512 0
    (fun j s => let e := pages s pdpt j in
                if negb (has_flag e PTE_PRESENT) then s
                else release (e .& PTE_ADDR_MASK) (destroy_pd (table_of e) s)) s.

Definition vmm_destroy_address_space (pml4 : Z) (s : vm) : vm :=
  let s := iter_range 256 0
    (fun i s => let e := pages s pml4 i in
                if negb (has_flag e PTE_PRESENT) then s
                else release (e .& PTE_ADDR_MASK) (destroy_pdpt (table_of e) s)) s in
  release (virt_to_phys_kernel pml4) s.

Definition vmm_switch_address_space (pml4 : Z) (s : vm) : vm := set_cr3 (virt_to_phys_kernel pml4) s.
Definition vmm_current_address_space (s : vm) : Z := PHYS_TO_VIRT (cr3 s).

(** ** Copy on write *)

(** [for (l = 0; l < 512; l++)] of [vmm_clone_address_space]; false is the
    jump to [oom]. *)
Definition clone_pte (dst i j k src_pt l : Z) (s : vm) : bool * vm :=
  let pte := pages s src_pt l in
  if negb (has_flag pte PTE_PRESENT) then (true, s)
  else
    let vaddr := Z.shiftl i 39 .| Z.shiftl j 30 .| Z.shiftl k 21 .| Z.shiftl l 12 in
    let paddr := pte .& PTE_ADDR_MASK in
    let cow_flags := (pte .&~ PTE_ADDR_MASK .&~ PTE_WRITABLE) .| PTE_COW in
    let '(r, s) := vmm_map_page dst vaddr paddr cow_flags s in
    if negb (r =? 0) then (false, s)
    else
      let s := put_entry src_pt l ((pte .&~ PTE_WRITABLE) .| PTE_COW) s in
      (true, with_frames (ref_frame paddr (frames s)) s).

Definition copy_pages (n : nat) (d src : Z) (s : vm) : vm :=
  iter_range n 0 (fun k s => put_page (u64 (d + k * PAGE_SIZE)) (pages s (u64 (src + k * PAGE_SIZE))) s) s.

Definition clone_pde (dst i j src_pd k : Z) (s : vm) : bool * vm :=
  let pde := pages s src_pd k in
  if negb (has_flag pde PTE_PRESENT) then (true, s)
  else if has_flag pde PTE_HUGE then
    let vaddr := Z.shiftl i 39 .| Z.shiftl j 30 .| Z.shiftl k 21 in
    let paddr := pde .&~ 0x1FFFFF in
    let '(new_phys, f) := alloc_frames 512 (frames s) in
    let s := with_frames f s in
    if new_phys =? 0 then (false, s)
    else
      let s := copy_pages 512 (PHYS_TO_VIRT new_phys) (PHYS_TO_VIRT paddr) s in
      (true, (vmm_map_page dst vaddr new_phys ((pde .&~ PTE_ADDR_MASK) .| PTE_HUGE) s).2)
  else iter_until 512 0 (clone_pte dst i j k (table_of pde)) s.

Definition clone_pdpte (dst i src_pdpt j : Z) (s : vm) : bool * vm :=
  let e := pages s src_pdpt j in
  if negb (has_flag e PTE_PRESENT) then (true, s)
  else iter_until 512 0 (clone_pde dst i j (table_of e)) s.

Definition clone_pml4e (src dst i : Z) (s : vm) : bool * vm :=
  let e := pages s src i in
  if negb (has_flag e PTE_PRESENT) then (true, s)
  else iter_until 512 0 (clone_pdpte dst i (table_of e)) s.

Definition vmm_clone_address_space (src : Z) (s : vm) : Z * vm :=
  let '(dst, s) := vmm_create_address_space s in
  if dst =? 0 then (0, s)
  else
    let '(ok, s) := iter_until 256 0 (clone_pml4e src dst) s in
    if (ok : bool) then (dst, s) else (0, vmm_destroy_address_space dst s).

(** The walk of the fault handler: the table and index of the entry of a
    4 KiB page. *)
Definition fault_walk (pml4 vaddr : Z) (s : vm) : option (Z * Z) :=
  let e := pages s pml4 (PML4_INDEX vaddr) in
  if negb (has_flag e PTE_PRESENT) then None
  else
    let e := pages s (table_of e) (PDPT_INDEX vaddr) in
    if negb (has_flag e PTE_PRESENT) then None
    else
      let e := pages s (table_of e) (PD_INDEX vaddr) in
      if has_flag e PTE_PRESENT && negb (has_flag e PTE_HUGE)
      then Some (table_of e, PT_INDEX vaddr) else None.

Inductive fault_result :=
| FaultResolved (s : vm)
| FaultKill (s : vm)     (* process_exit(current_process, -1) *)
| FaultPanic.

(** Case 1 of the handler: [None] when it does not apply. *)
Definition cow_break (pml4 vaddr : Z) (s : vm) : option fault_result :=
  '(pt, i) ← fault_walk pml4 vaddr s;
  let pte := pages s pt i in
  if has_flag pte PTE_COW && has_flag pte PTE_PRESENT then
    let old_phys := pte .& PTE_ADDR_MASK in
    if get_refcount old_phys (frames s) =? 1 then
      Some (FaultResolved (put_entry pt i ((pte .&~ PTE_COW) .| PTE_WRITABLE) s))
    else
      let '(new_phys, f) := alloc_frame (frames s) in
      let s := with_frames f s in
      if new_phys =? 0 then Some (FaultKill s)
      else
        let s := put_page (PHYS_TO_VIRT new_phys) (pages s (PHYS_TO_VIRT old_phys)) s in
        let s := put_entry pt i ((new_phys .& PTE_ADDR_MASK) .|
                                 (pte .&~ PTE_ADDR_MASK .&~ PTE_COW) .| PTE_WRITABLE) s in
        Some (FaultResolved (release old_phys s))
  else None.

(** Cases 2 and 3 both end the process; the kernel's own faults are fatal. *)
Definition vmm_handle_page_fault (fault_addr error_code : Z) (s : vm) : fault_result :=
  let present := has_flag error_code 1 in
  let write_fault := has_flag error_code 2 in
  let user_fault := has_flag error_code 4 in
  if user_fault then
    let pml4 := vmm_current_address_space s in
    if write_fault && present && negb (pml4 =? 0) then
      match cow_break pml4 fault_addr s with
      | Some r => r
      | None => FaultKill s
      end
    else FaultKill s
  else FaultPanic.

Definition vmm_map_guard_page (pml4 vaddr : Z) (s : vm) : Z * vm :=
  let entry_flags := PTE_PRESENT .| PTE_WRITABLE .| PTE_USER in
  let '(pdpt, s) := get_or_create_table pml4 (PML4_INDEX vaddr) entry_flags s in
  if pdpt =? 0 then (-1, s)
  else
    let '(pd, s) := get_or_create_table pdpt (PDPT_INDEX vaddr) entry_flags s in
    if pd =? 0 then (-1, s)
    else
      let '(pt, s) := get_or_create_table pd (PD_INDEX vaddr) entry_flags s in
      if pt =? 0 then (-1, s)
      else (0, put_entry pt (PT_INDEX vaddr) PTE_GUARD s).
End vmm.

#[global] Opaque PTE_ADDR_MASK.

(** ** Bits of page table entries *)

Lemma addr_mask_testbit n : Z.testbit PTE_ADDR_MASK n = (12 <=? n) && (n <? 52).
Proof.
  change PTE_ADDR_MASK with (Z.shiftl (Z.ones 40) 12).
  destruct (Z.leb_spec 0 n); [|by rewrite Z.testbit_neg_r, (proj2 (Z.leb_gt 12 n)) by lia].
  rewrite Z.shiftl_spec by lia. destruct (Z.leb_spec 12 n); cbn [andb].
  - rewrite Z.testbit_ones by lia. destruct (Z.leb_spec 0 (n - 12)), (Z.ltb_spec (n - 12) 40),
      (Z.ltb_spec n 52); (done || lia).
  - by rewrite Z.testbit_neg_r by lia.
Qed.

Lemma has_flag_bit e k : 0 <= k -> has_flag e (2 ^ k) = Z.testbit e k.
Proof. apply land_pow2_testbit. Qed.

(** Multiples of a power of two have their low bits clear. *)
Lemma testbit_mult_low a k n : 0 <= n < k -> (2 ^ k | a) -> Z.testbit a n = false.
Proof. intros Hn [q ->]. rewrite Z.mul_pow2_bits_low by lia. done. Qed.

Lemma testbit_small a k n : 0 <= k <= n -> 0 <= a < 2 ^ k -> Z.testbit a n = false.
Proof.
  intros Hn Ha. destruct (decide (a = 0)) as [->|]; [apply Z.bits_0|].
  apply Z.bits_above_log2; [lia|]. apply Z.lt_le_trans with k; [|lia].
  apply Z.log2_lt_pow2; lia.
Qed.

Lemma frame_addr_bits a n :
  frame_addr a -> 0 <= n -> Z.testbit a n = true -> 12 <= n < 32.
Proof.
  intros [Hd Hr] Hn Ht. destruct (decide (n < 12)).
  - rewrite (testbit_mult_low a 12 n) in Ht by (done || lia). done.
  - destruct (decide (n < 32)); [lia|]. rewrite (testbit_small a 32 n) in Ht by (lia || done). done.
Qed.

(** The address field of a frame address with flags outside the field. *)
Lemma mask_frame_flags a fl :
  frame_addr a -> fl .& PTE_ADDR_MASK = 0 -> (a .| fl) .& PTE_ADDR_MASK = a.
Proof.
  intros Ha Hfl. rewrite Z.land_lor_distr_l, Hfl, Z.lor_0_r. apply Z.bits_inj_iff'. intros n Hn.
  rewrite Z.land_spec, addr_mask_testbit. destruct (Z.testbit a n) eqn:E; [|done].
  apply frame_addr_bits in E; [|done|done].
  by rewrite (proj2 (Z.leb_le _ _)), (proj2 (Z.ltb_lt _ _)) by lia.
Qed.

Lemma frame_addr_flag a k : frame_addr a -> 0 <= k < 12 -> Z.testbit a k = false.
Proof. intros [Ha _] Hk. by apply (testbit_mult_low a 12). Qed.

(** The entries that [get_or_create_table] installs. *)
Definition dir_flags (fl : Z) : Prop :=
  fl = PTE_PRESENT .| PTE_WRITABLE \/ fl = PTE_PRESENT .| PTE_WRITABLE .| PTE_USER.

Lemma dir_entry a fl :
  frame_addr a -> dir_flags fl ->
  has_flag (a .| fl) PTE_PRESENT = true /\ has_flag (a .| fl) PTE_HUGE = false /\
  (a .| fl) .& PTE_ADDR_MASK = a.
Proof.
  intros Ha Hfl. unfold PTE_PRESENT, PTE_HUGE. rewrite !has_flag_bit, !Z.lor_spec by lia.
  rewrite (frame_addr_flag a 0), (frame_addr_flag a 7) by (done || lia).
  rewrite mask_frame_flags; [|done|by destruct Hfl as [-> | ->]].
  destruct Hfl as [-> | ->]; by split_and!.
Qed.

Lemma phys_virt a : 0 <= a < 2 ^ 31 -> PHYS_TO_VIRT a = KERNEL_VMA_BASE + a.
Proof. intros Ha. unfold PHYS_TO_VIRT, KERNEL_VMA_BASE. rewrite u64_small; lia. Qed.

Lemma virt_phys a : 0 <= a < 2 ^ 31 -> virt_to_phys_kernel (KERNEL_VMA_BASE + a) = a.
Proof.
  intros Ha. unfold virt_to_phys_kernel. replace (KERNEL_VMA_BASE + a - KERNEL_VMA_BASE) with a by lia.
  apply u64_small. lia.
Qed.

Lemma land_ones9 x : 0 <= x .& 0x1FF < 512.
Proof. change 0x1FF with (Z.ones 9). rewrite Z.land_ones by lia. apply Z.mod_pos_bound. lia. Qed.

(** ** The tree of tables *)

Definition idx_ok (i : Z) : Prop := 0 <= i < 512.
Definition path_ok (p : list Z) : Prop := Forall idx_ok p /\ (length p <= 3)%nat.

(** The table an entry leads to, if it is present and not a huge page. *)
Definition entry_table (e : Z) : option Z :=
  if has_flag e PTE_PRESENT && negb (has_flag e PTE_HUGE) then Some (table_of e) else None.

Fixpoint walk (P : page_mem) (t : Z) (p : list Z) : option Z :=
  match p with
  | [] => Some t
  | i :: p => match entry_table (P t i) with Some t' => walk P t' p | None => None end
  end.

Lemma walk_app P t p q :
  walk P t (p ++ q) = match walk P t p with Some t' => walk P t' q | None => None end.
Proof.
  revert t. induction p as [|i p IH]; intros t; [done|]. simpl.
  destruct (entry_table (P t i)); [apply IH|done].
Qed.

Lemma walk_snoc P t p i :
  walk P t (p ++ [i]) = match walk P t p with Some t' => entry_table (P t' i) | None => None end.
Proof.
  rewrite walk_app. destruct (walk P t p) as [t'|]; [|done]. simpl. by destruct (entry_table _).
Qed.

Lemma path_ok_snoc p i : path_ok (p ++ [i]) -> path_ok p /\ idx_ok i.
Proof.
  intros [H1 H2]. apply Forall_app in H1 as [H1 H3]. rewrite length_app in H2. simpl in H2.
  split; [split; [done|lia]|]. by inversion H3.
Qed.

Lemma path_ok_extend p i : path_ok p -> (length p < 3)%nat -> idx_ok i -> path_ok (p ++ [i]).
Proof.
  intros [H1 _] Hl Hi. split; [apply Forall_app; split; [done|by apply Forall_singleton]|].
  rewrite length_app. simpl. lia.
Qed.

Lemma path_ok_nil : path_ok [].
Proof. split; [constructor|simpl; lia]. Qed.
#[export] Hint Resolve path_ok_nil : aether.

(** No table is reached along two paths. *)
Definition walk_inj (P : page_mem) (r : Z) : Prop :=
  forall p q t, path_ok p -> path_ok q -> walk P r p = Some t -> walk P r q = Some t -> p = q.

Lemma set_entry_other P t i e t' j :
  t' <> t \/ j <> i -> set_entry P t i e t' j = P t' j.
Proof.
  intros Hne. unfold set_entry, upd. destruct (Z.eqb_spec t' t) as [->|]; [|done].
  destruct (Z.eqb_spec j i); [lia|done].
Qed.

Lemma set_entry_same P t i e : set_entry P t i e t i = e.
Proof. unfold set_entry. rewrite Z.eqb_refl. apply upd_eq. Qed.

(** Rewriting the entry [i] of the table at [p] leaves every path that does
    not go through it alone. *)
Lemma walk_set_entry P r p t i e q :
  walk_inj P r -> path_ok p -> walk P r p = Some t -> path_ok q ->
  ~ (p ++ [i]) `prefix_of` q ->
  walk (set_entry P t i e) r q = walk P r q.
Proof.
  intros Hinj Hp Hw. induction q as [|j q IH] using rev_ind; intros Hq Hpre; [done|].
  apply path_ok_snoc in Hq as [Hq Hj].
  assert (~ (p ++ [i]) `prefix_of` q) as Hpre' by (intros H0; by apply Hpre, prefix_app_r).
  rewrite !walk_snoc, (IH Hq Hpre'). destruct (walk P r q) as [t'|] eqn:Et; [|done].
  f_equal. apply set_entry_other. destruct (decide (t' = t)) as [->|]; [right|by left].
  intros ->. apply Hpre. by rewrite (Hinj q p t Hq Hp Et Hw).
Qed.

(** Rewriting a page that is no table of the tree changes nothing. *)
Lemma walk_set_page P r c w q :
  (forall q t, path_ok q -> walk P r q = Some t -> t <> c) -> path_ok q ->
  walk (set_page P c w) r q = walk P r q.
Proof.
  intros Hno. induction q as [|j q IH] using rev_ind; intros Hq; [done|].
  apply path_ok_snoc in Hq as [Hq Hj]. rewrite !walk_snoc, (IH Hq).
  destruct (walk P r q) as [t'|] eqn:Et; [|done]. unfold set_page.
  by rewrite (proj2 (Z.eqb_neq _ _) (Hno q t' Hq Et)).
Qed.

(** ** Translations *)

(** The entry that maps [v]: a huge page of the directory ([true]) or an entry
    of the last table. *)
Definition leaf (P : page_mem) (r v : Z) : option (bool * Z) :=
  match walk P r [PML4_INDEX v; PDPT_INDEX v] with
  | None => None
  | Some pd =>
      let e := P pd (PD_INDEX v) in
      if negb (has_flag e PTE_PRESENT) then None
      else if has_flag e PTE_HUGE then Some (true, e)
      else let e := P (table_of e) (PT_INDEX v) in
           if has_flag e PTE_PRESENT then Some (false, e) else None
  end.

(** The path of [v] down to the directory and to its last table. *)
Definition dir_path (v : Z) : list Z := [PML4_INDEX v; PDPT_INDEX v].
Definition pt_path (v : Z) : list Z := [PML4_INDEX v; PDPT_INDEX v; PD_INDEX v].

Lemma idx_ok_land x : idx_ok (x .& 0x1FF).
Proof. apply land_ones9. Qed.
#[export] Hint Resolve idx_ok_land : aether.

Lemma path_ok_1 v : path_ok [PML4_INDEX v].
Proof. split; [by repeat constructor; apply land_ones9|simpl; lia]. Qed.
Lemma path_ok_dir v : path_ok (dir_path v).
Proof. split; [by repeat constructor; apply land_ones9|simpl; lia]. Qed.
Lemma path_ok_pt v : path_ok (pt_path v).
Proof. split; [by repeat constructor; apply land_ones9|simpl; lia]. Qed.
#[export] Hint Resolve path_ok_1 path_ok_dir path_ok_pt : aether.

(** [v] and [v'] lie in the same 4 KiB page, or the same 2 MiB region, of the
    48-bit address space. *)
Definition same_region (v v' : Z) : Prop := pt_path v = pt_path v'.
Definition same_page (v v' : Z) : Prop := pt_path v = pt_path v' /\ PT_INDEX v = PT_INDEX v'.

Section tree.
Context {A : Type} `{FrameAllocLaws A}.

(** Page tables are frames in use below 2 GiB, reached along one path each,
    and only directories hold huge pages. *)
Record tree_ok (P : page_mem) (f : A) (r : Z) : Prop := {
  to_inj : walk_inj P r;
  to_frame p t : path_ok p -> walk P r p = Some t ->
    exists a, t = KERNEL_VMA_BASE + a /\ frame_addr a /\ a < 2 ^ 31 /\ in_use f a = true;
  to_nohuge p t i : path_ok p -> (length p < 2)%nat -> idx_ok i -> walk P r p = Some t ->
    has_flag (P t i) PTE_PRESENT = true -> has_flag (P t i) PTE_HUGE = false
}.

(** The machine has no free frame outside the higher-half window. *)
Definition high_used (f : A) : Prop :=
  forall a, frame_addr a -> 2 ^ 31 <= a -> in_use f a = true.

Record vm_ok (s : vm) (r : Z) : Prop := {
  vo_alloc : alloc_inv (frames s);
  vo_high : high_used (frames s);
  vo_tree : tree_ok (pages s) (frames s) r
}.

Lemma entry_table_Some e t :
  entry_table e = Some t <->
  has_flag e PTE_PRESENT = true /\ has_flag e PTE_HUGE = false /\ t = table_of e.
Proof.
  unfold entry_table. destruct (has_flag e PTE_PRESENT), (has_flag e PTE_HUGE); simpl;
    split; try (intros (? & ? & ?); congruence); try done; by intros [= <-].
Qed.

(** [leaf] in terms of walks to the two lower levels. *)
Lemma leaf_huge P r v pd e :
  walk P r (dir_path v) = Some pd -> P pd (PD_INDEX v) = e ->
  has_flag e PTE_PRESENT = true -> has_flag e PTE_HUGE = true -> leaf P r v = Some (true, e).
Proof. unfold leaf, dir_path. intros -> -> -> ->. done. Qed.

Lemma walk_pt P r v :
  walk P r (pt_path v) =
  match walk P r (dir_path v) with Some pd => entry_table (P pd (PD_INDEX v)) | None => None end.
Proof. change (pt_path v) with (dir_path v ++ [PD_INDEX v]). apply walk_snoc. Qed.

Lemma leaf_small P r v pt :
  walk P r (pt_path v) = Some pt ->
  leaf P r v = let e := P pt (PT_INDEX v) in
               if has_flag e PTE_PRESENT then Some (false, e) else None.
Proof.
  rewrite walk_pt. unfold leaf, dir_path.
  destruct (walk P r [PML4_INDEX v; PDPT_INDEX v]) as [pd|]; [|done].
  intros (-> & -> & ->)%entry_table_Some. done.
Qed.

(** Two memories that agree on the entries [v] uses translate it alike. *)
Lemma leaf_agree P P' r v :
  walk P' r (dir_path v) = walk P r (dir_path v) ->
  (forall pd, walk P r (dir_path v) = Some pd -> P' pd (PD_INDEX v) = P pd (PD_INDEX v)) ->
  (forall pt, walk P r (pt_path v) = Some pt -> P' pt (PT_INDEX v) = P pt (PT_INDEX v)) ->
  leaf P' r v = leaf P r v.
Proof.
  intros Hd Hpd Hpt. rewrite walk_pt in Hpt. unfold leaf. fold (dir_path v). rewrite Hd.
  destruct (walk P r (dir_path v)) as [pd|]; [|done]. rewrite (Hpd pd eq_refl).
  destruct (has_flag (P pd (PD_INDEX v)) PTE_PRESENT) eqn:E1; [|done]. cbn [negb].
  destruct (has_flag (P pd (PD_INDEX v)) PTE_HUGE) eqn:E2; [done|].
  rewrite Hpt; [done|]. by apply entry_table_Some.
Qed.

(** *** A new table below the table at [p] *)

Section create.
Context (P : page_mem) (f f' : A) (r : Z) (p : list Z) (t i a fl : Z).
Context (Htree : tree_ok P f r) (Hp : path_ok p) (Hlen : (length p < 3)%nat) (Hi : idx_ok i).
Context (Hw : walk P r p = Some t) (Hnp : has_flag (P t i) PTE_PRESENT = false).
Context (Ha : frame_addr a) (Hlow : a < 2 ^ 31) (Hfresh : in_use f a = false).
Context (Hfl : dir_flags fl).
Context (Hkeep : forall b, frame_addr b -> in_use f b = true -> in_use f' b = true).
Context (Hused : in_use f' a = true).

Let c := KERNEL_VMA_BASE + a.
Let P0 := set_page P c (fun _ => 0).
Let P' := set_entry P0 t i (a .| fl).

Lemma create_fresh q t' : path_ok q -> walk P r q = Some t' -> t' <> c.
Proof.
  intros Hq Ht ->. destruct (to_frame _ _ _ Htree q c Hq Ht) as (b & Hb & _ & _ & Hu).
  unfold c in Hb. assert (b = a) as -> by lia. congruence.
Qed.

Lemma create_walk0 q : path_ok q -> walk P0 r q = walk P r q.
Proof. intros Hq. apply walk_set_page; [apply create_fresh|done]. Qed.

Lemma create_inj0 : walk_inj P0 r.
Proof.
  intros q1 q2 t' H1 H2. rewrite !create_walk0 by done. by apply (to_inj _ _ _ Htree).
Qed.

(** The new entry leads to the zeroed table. *)
Lemma create_entry : P' t i = a .| fl.
Proof. apply set_entry_same. Qed.

Lemma create_table : entry_table (P' t i) = Some c.
Proof.
  rewrite create_entry. apply entry_table_Some. destruct (dir_entry a fl Ha Hfl) as (H1 & H2 & H3).
  split; [done|]. split; [done|]. unfold table_of. rewrite H3, phys_virt; [done|].
  destruct Ha as [_ ?]. lia.
Qed.

Lemma create_child j : P' c j = 0.
Proof.
  unfold P'. rewrite set_entry_other by (left; apply not_eq_sym, (create_fresh p); done).
  unfold P0, set_page. by rewrite Z.eqb_refl.
Qed.

(** Every other entry of the old tables is as before. *)
Lemma create_other q t' j :
  path_ok q -> walk P r q = Some t' -> q <> p \/ j <> i -> P' t' j = P t' j.
Proof.
  intros Hq Ht Hne. unfold P'. rewrite set_entry_other.
  - unfold P0, set_page. by rewrite (proj2 (Z.eqb_neq _ _) (create_fresh q t' Hq Ht)).
  - destruct Hne as [Hne|]; [left|by right]. intros ->. apply Hne.
    by apply (to_inj _ _ _ Htree q p t).
Qed.

Lemma create_parent : walk P' r p = Some t.
Proof.
  unfold P'. rewrite (walk_set_entry P0 r p t i); [by rewrite create_walk0|apply create_inj0|done| |done|].
  - by rewrite create_walk0.
  - intros Hpre%prefix_length. rewrite length_app in Hpre. simpl in Hpre. lia.
Qed.

(** Paths in the new memory: the old ones, and the one to the new table. *)
Lemma create_walk q :
  path_ok q ->
  walk P' r q = if decide (q = p ++ [i]) then Some c else walk P r q.
Proof.
  intros Hq. case_decide as Hd; [subst q; rewrite walk_snoc, create_parent; apply create_table|].
  destruct (decide ((p ++ [i]) `prefix_of` q)) as [[k ->]|Hn].
  - rewrite !walk_app, create_parent, Hw. simpl.
    rewrite create_table. unfold entry_table. rewrite Hnp.
    destruct k as [|j k]; [by rewrite app_nil_r in Hd|]. simpl. by rewrite create_child.
  - unfold P'. rewrite (walk_set_entry P0 r p t i); [by apply create_walk0|apply create_inj0|done| |done|done].
    by rewrite create_walk0.
Qed.

Lemma create_tree_ok : tree_ok P' f' r.
Proof.
  split.
  - intros q1 q2 t' H1 H2. rewrite !create_walk by done.
    repeat case_decide; try congruence; intros E1 E2.
    + injection E1 as <-. by destruct (create_fresh q2 c H2 E2).
    + injection E2 as <-. by destruct (create_fresh q1 c H1 E1).
    + by apply (to_inj _ _ _ Htree q1 q2 t').
  - intros q t' Hq. rewrite create_walk by done. case_decide.
    + intros [= <-]. exists a. by split_and!.
    + intros (b & ? & ? & ? & ?)%(to_frame _ _ _ Htree); [|done]. exists b. split_and!; auto.
  - intros q t' j Hq Hl Hj. rewrite create_walk by done. case_decide as Hd.
    + intros [= <-]. by rewrite create_child.
    + intros Ht Hpres. destruct (decide (q = p /\ j = i)) as [[-> ->]|Hne].
      * assert (t' = t) as -> by congruence. rewrite create_entry. by apply dir_entry.
      * assert (q <> p \/ j <> i) as Hn by (destruct (decide (q = p)); [right; naive_solver|by left]).
        rewrite (create_other q t' j Hq Ht Hn) in Hpres |- *. by apply (to_nohuge _ _ _ Htree q).
Qed.

(** No translation changes: the new table is empty. *)
Lemma create_leaf v : leaf P' r v = leaf P r v.
Proof.
  destruct (decide (dir_path v = p ++ [i])) as [Hd|Hd].
  { unfold leaf. fold (dir_path v). rewrite create_walk by auto with aether.
    rewrite decide_True by done. rewrite create_child.
    rewrite Hd, walk_snoc, Hw. unfold entry_table. by rewrite Hnp. }
  assert (walk P' r (dir_path v) = walk P r (dir_path v)) as Hwd.
  { rewrite create_walk by auto with aether. by rewrite decide_False. }
  destruct (decide (pt_path v = p ++ [i])) as [Hd'|Hd'].
  - change (pt_path v) with (dir_path v ++ [PD_INDEX v]) in Hd'. apply app_inj_2 in Hd' as [Hdp [= Hdi]]; [|done].
    unfold leaf. fold (dir_path v). rewrite Hwd, Hdp, Hw, Hdi. rewrite Hnp. simpl.
    rewrite create_entry. destruct (dir_entry a fl Ha Hfl) as (H1 & H2 & _). rewrite H1, H2. simpl.
    pose proof create_table as Ht. rewrite create_entry in Ht.
    apply entry_table_Some in Ht as (_ & _ & <-). by rewrite create_child.
  - apply leaf_agree; [done| |].
    + intros pd Hpd. apply (create_other (dir_path v)); [auto with aether|done|].
      destruct (decide (dir_path v = p)) as [<-|]; [right|by left]. intros <-. by apply Hd'.
    + intros pt Hpt. apply (create_other (pt_path v)); [auto with aether|done|left].
      intros <-. simpl in Hlen. lia.
Qed.
End create.

(** *** [get_or_create_table] *)

Lemma alloc_high_used (f : A) x f' :
  alloc_inv f -> high_used f -> alloc_frame f = (x, f') -> high_used f'.
Proof. intros Hi Hh E b Hb Hge. by apply (alloc_other f x f' b Hi E Hb), Hh. Qed.

(** Whatever it returns, the tree stays in order and no translation changes;
    on success the result is the table at the next level. *)
Lemma get_or_create_spec (s : vm) r p t i fl :
  vm_ok s r -> path_ok p -> (length p < 3)%nat -> idx_ok i -> walk (pages s) r p = Some t ->
  dir_flags fl ->
  let '(c, s') := get_or_create_table t i fl s in
  vm_ok s' r /\ (forall v, leaf (pages s') r v = leaf (pages s) r v) /\
  kernel_pml4 s' = kernel_pml4 s /\ cr3 s' = cr3 s /\
  (c <> 0 -> walk (pages s') r (p ++ [i]) = Some c).
Proof.
  intros [Hai Hh Ht] Hp Hl Hi Hw Hfl. unfold get_or_create_table.
  destruct (has_flag (pages s t i) PTE_PRESENT) eqn:E1.
  { destruct (has_flag (pages s t i) PTE_HUGE) eqn:E2; [by split_and!|].
    split_and!; try done. intros _. rewrite walk_snoc, Hw. by apply entry_table_Some. }
  unfold alloc_page_table. destruct (alloc_frame (frames s)) as [a f'] eqn:Ea.
  pose proof (alloc_high_used _ _ _ Hai Hh Ea) as Hh'.
  assert (alloc_inv f') as Hai' by (pose proof (alloc_keeps_inv (frames s) Hai) as Hk; by rewrite Ea in Hk).
  assert (forall b, frame_addr b -> in_use (frames s) b = true -> in_use f' b = true) as Hkeep.
  { intros b Hb Hu. by apply (alloc_other _ _ _ b Hai Ea Hb Hu). }
  destruct (Z.eqb_spec a 0) as [->|Hne].
  { cbn [negb]. split_and!; try done. split; [done|done|]. destruct Ht as [I F N].
    split; [done| |done]. intros q t' Hq Hwq. destruct (F q t' Hq Hwq) as (b & ? & ? & ? & ?).
    exists b. split_and!; auto. }
  destruct (alloc_fresh _ _ _ Hai Ea Hne) as (Haddr & Hfr & Hus & _).
  assert (a < 2 ^ 31) as Hlow.
  { destruct (decide (a < 2 ^ 31)); [done|]. rewrite Hh in Hfr by (done || lia). done. }
  assert (0 <= a) by (destruct Haddr; lia).
  rewrite phys_virt by lia. rewrite (proj2 (Z.eqb_neq (KERNEL_VMA_BASE + a) 0)) by (unfold KERNEL_VMA_BASE; lia).
  rewrite virt_phys by lia. split_and!; try done; cbn [pages put_entry put_page with_frames frames].
  - split; [done|done|]. by apply (create_tree_ok (pages s) (frames s)) with (p := p).
  - intros v. by apply (create_leaf (pages s) (frames s) f' r p).
  - intros _. rewrite (create_walk (pages s) (frames s) f' r p); try done; [by rewrite decide_True|].
    by apply path_ok_extend.
Qed.
(** *** Writing entries *)

#[global] Instance same_page_dec v v' : Decision (same_page v v').
Proof. unfold same_page. apply _. Defined.
#[global] Instance same_region_dec v v' : Decision (same_region v v').
Proof. unfold same_region. apply _. Defined.

(** An entry of the last table concerns its page only. *)
Lemma write_pt_spec (s : vm) r v pt e :
  vm_ok s r -> walk (pages s) r (pt_path v) = Some pt ->
  let s' := put_entry pt (PT_INDEX v) e s in
  vm_ok s' r /\
  forall v', leaf (pages s') r v' =
    if decide (same_page v v') then (if has_flag e PTE_PRESENT then Some (false, e) else None)
    else leaf (pages s) r v'.
Proof.
  intros [Hai Hh Ht] Hw s'. set (P' := set_entry (pages s) pt (PT_INDEX v) e).
  assert (forall q, path_ok q -> walk P' r q = walk (pages s) r q) as Hq.
  { intros q Hq. apply (walk_set_entry _ r (pt_path v));
      [apply Ht|auto with aether|done|done|]. intros Hpre%prefix_length.
    destruct Hq as [_ Hq]. rewrite length_app in Hpre. simpl in Hpre. lia. }
  assert (forall q t j, path_ok q -> walk (pages s) r q = Some t ->
    q <> pt_path v \/ j <> PT_INDEX v -> P' t j = pages s t j) as Hother.
  { intros q t j Hp Hwq [Hne|Hne]; apply set_entry_other; [left|by right]. intros ->.
    by apply Hne, (to_inj _ _ _ Ht q (pt_path v) pt); auto with aether. }
  split.
  - split; [done|done|]. destruct Ht as [I F N]. split.
    + intros q1 q2 t H1 H2. cbn [pages s' put_entry]. fold P'. rewrite !Hq by done. by apply I.
    + intros q t Hp. cbn [pages s' put_entry]. fold P'. rewrite Hq by done. by apply F.
    + intros q t j Hp Hl Hj. cbn [pages s' put_entry]. fold P'. rewrite Hq by done. intros Hwq.
      rewrite (Hother q) by (done || (left; intros ->; simpl in Hl; lia)). by apply (N q).
  - intros v'. cbn [pages s' put_entry]. fold P'. case_decide as Hs.
    + destruct Hs as [Hp Hi]. rewrite (leaf_small P' r v' pt) by (rewrite Hq, <- Hp by auto with aether; done).
      cbn zeta. unfold P'. by rewrite <- Hi, set_entry_same.
    + apply leaf_agree; [by apply Hq; auto with aether| |].
      * intros pd Hpd. apply (Hother (dir_path v')); [auto with aether|done|by left].
      * intros pt' Hpt. apply (Hother (pt_path v')); [auto with aether|done|].
        destruct (decide (pt_path v' = pt_path v)) as [E|]; [right|by left].
        intros E'. by apply Hs.
Qed.

(** An entry of the directory that is no table: its region only. *)
Lemma write_pd_spec (s : vm) r v pd e :
  vm_ok s r -> walk (pages s) r (dir_path v) = Some pd -> entry_table e = None ->
  let s' := put_entry pd (PD_INDEX v) e s in
  vm_ok s' r /\
  forall v', leaf (pages s') r v' =
    if decide (same_region v v') then (if has_flag e PTE_PRESENT then Some (true, e) else None)
    else leaf (pages s) r v'.
Proof.
  intros [Hai Hh Ht] Hw He s'. set (P' := set_entry (pages s) pd (PD_INDEX v) e).
  assert (forall q, path_ok q -> ~ pt_path v `prefix_of` q -> walk P' r q = walk (pages s) r q) as Hq.
  { intros q Hq Hn. apply (walk_set_entry _ r (dir_path v));
      [apply Ht|auto with aether|done|done|done]. }
  assert (walk P' r (dir_path v) = Some pd) as Hd.
  { rewrite Hq; [done|auto with aether|]. intros Hpre%prefix_length. simpl in Hpre. lia. }
  assert (forall q t, path_ok q -> walk P' r q = Some t -> walk (pages s) r q = Some t) as Hsub.
  { intros q t Hp Hwq. destruct (decide (pt_path v `prefix_of` q)) as [[k ->]|Hn]; [|by rewrite <- Hq].
    rewrite walk_app, walk_pt, Hd in Hwq. unfold P' in Hwq. by rewrite set_entry_same, He in Hwq. }
  assert (forall q t j, path_ok q -> walk (pages s) r q = Some t ->
    q <> dir_path v \/ j <> PD_INDEX v -> P' t j = pages s t j) as Hother.
  { intros q t j Hp Hwq [Hne|Hne]; apply set_entry_other; [left|by right]. intros ->.
    by apply Hne, (to_inj _ _ _ Ht q (dir_path v) pd); auto with aether. }
  split.
  - split; [done|done|]. destruct Ht as [I F N]. split.
    + intros q1 q2 t H1 H2 E1 E2. by apply (I q1 q2 t); auto.
    + intros q t Hp Hwq. apply (F q); auto.
    + intros q t j Hp Hl Hj Hwq%Hsub; [|done]. cbn [pages s' put_entry]. fold P'.
      rewrite (Hother q) by (done || (left; intros ->; simpl in Hl; lia)). by apply (N q).
  - intros v'. cbn [pages s' put_entry]. fold P'. case_decide as Hs.
    + injection Hs as H4 H3 H2. unfold leaf. rewrite <- H4, <- H3, <- H2. fold (dir_path v). rewrite Hd.
      unfold P' at 1 2 3. rewrite set_entry_same. unfold entry_table in He.
      destruct (has_flag e PTE_PRESENT), (has_flag e PTE_HUGE); done.
    + apply leaf_agree.
      * apply Hq; [auto with aether|]. intros Hpre%prefix_length. simpl in Hpre. lia.
      * intros pd' Hpd. apply (Hother (dir_path v')); [auto with aether|done|].
        destruct (decide (dir_path v' = dir_path v)) as [E|]; [right|by left].
        intros E'. apply Hs. unfold same_region. injection E as E4 E3. unfold pt_path. congruence.
      * intros pt Hpt. apply (Hother (pt_path v')); [auto with aether|done|by left].
Qed.

(** *** The code's translation is [leaf] *)

Definition translate (l : option (bool * Z)) (v : Z) : Z :=
  match l with
  | None => 0
  | Some (true, e) => (e .&~ 0x1FFFFF) .| (v .& 0x1FFFFF)
  | Some (false, e) => (e .& PTE_ADDR_MASK) .| (v .& 0xFFF)
  end.

Lemma vmm_get_physical_leaf (s : vm) r v :
  vm_ok s r -> vmm_get_physical r v s = translate (leaf (pages s) r v) v.
Proof.
  intros [_ _ Ht]. unfold vmm_get_physical, leaf. cbn [walk].
  destruct (has_flag (pages s r (PML4_INDEX v)) PTE_PRESENT) eqn:E4; cbn [negb].
  2: { unfold entry_table. by rewrite E4. }
  pose proof (to_nohuge _ _ _ Ht [] r (PML4_INDEX v) path_ok_nil ltac:(simpl; lia)
    (land_ones9 _) eq_refl E4) as N4.
  unfold entry_table at 1. rewrite E4, N4. cbn [andb negb].
  set (t1 := table_of _).
  assert (walk (pages s) r [PML4_INDEX v] = Some t1) as W1
    by (cbn [walk]; unfold entry_table; rewrite E4, N4; done).
  destruct (has_flag (pages s t1 (PDPT_INDEX v)) PTE_PRESENT) eqn:E3; cbn [negb].
  2: { unfold entry_table. by rewrite E3. }
  pose proof (to_nohuge _ _ _ Ht [PML4_INDEX v] t1 (PDPT_INDEX v) (path_ok_1 v) ltac:(simpl; lia)
    (land_ones9 _) W1 E3) as N3.
  unfold entry_table. rewrite E3, N3. cbn [andb negb].
  set (t2 := table_of _).
  destruct (has_flag (pages s t2 (PD_INDEX v)) PTE_PRESENT); cbn [negb]; [|done].
  destruct (has_flag (pages s t2 (PD_INDEX v)) PTE_HUGE); [done|].
  by destruct (has_flag (pages s (table_of (pages s t2 (PD_INDEX v))) (PT_INDEX v)) PTE_PRESENT).
Qed.

(** ** Mapping *)

Definition map_flags (fl : Z) : Z :=
  if has_flag fl PTE_USER then PTE_PRESENT .| PTE_WRITABLE .| PTE_USER
  else PTE_PRESENT .| PTE_WRITABLE.

Lemma map_flags_ok fl : dir_flags (map_flags fl).
Proof. unfold map_flags, dir_flags. case_if; auto. Qed.

(** The two or three table steps shared by the mapping functions. *)
Lemma two_levels (s : vm) r v fl :
  vm_ok s r -> dir_flags fl ->
  let '(pdpt, s1) := get_or_create_table r (PML4_INDEX v) fl s in
  vm_ok s1 r /\ (forall v', leaf (pages s1) r v' = leaf (pages s) r v') /\
  (pdpt <> 0 ->
   let '(pd, s2) := get_or_create_table pdpt (PDPT_INDEX v) fl s1 in
   vm_ok s2 r /\ (forall v', leaf (pages s2) r v' = leaf (pages s) r v') /\
   (pd <> 0 -> walk (pages s2) r (dir_path v) = Some pd)).
Proof.
  intros Hok Hfl.
  pose proof (get_or_create_spec s r [] r (PML4_INDEX v) fl Hok path_ok_nil
    ltac:(simpl; lia) (land_ones9 _) eq_refl Hfl) as H1.
  destruct (get_or_create_table r (PML4_INDEX v) fl s) as [pdpt s1].
  destruct H1 as (O1 & L1 & _ & _ & W1). split; [done|]. split; [done|]. intros Hne.
  pose proof (get_or_create_spec s1 r [PML4_INDEX v] pdpt (PDPT_INDEX v) fl O1 (path_ok_1 v)
    ltac:(simpl; lia) (land_ones9 _) (W1 Hne) Hfl) as H2.
  destruct (get_or_create_table pdpt (PDPT_INDEX v) fl s1) as [pd s2].
  destruct H2 as (O2 & L2 & _ & _ & W2). split; [done|]. split; [|done].
  intros v'. by rewrite L2.
Qed.

Lemma third_level (s : vm) r v pd fl :
  vm_ok s r -> dir_flags fl -> walk (pages s) r (dir_path v) = Some pd ->
  let '(pt, s') := get_or_create_table pd (PD_INDEX v) fl s in
  vm_ok s' r /\ (forall v', leaf (pages s') r v' = leaf (pages s) r v') /\
  (pt <> 0 -> walk (pages s') r (pt_path v) = Some pt).
Proof.
  intros Hok Hfl Hw.
  pose proof (get_or_create_spec s r (dir_path v) pd (PD_INDEX v) fl Hok (path_ok_dir v)
    ltac:(simpl; lia) (land_ones9 _) Hw Hfl) as H1.
  destruct (get_or_create_table pd (PD_INDEX v) fl s) as [pt s1].
  destruct H1 as (O1 & L1 & _ & _ & W1). by split_and!.
Qed.

(** The entry a call installs. *)
Definition small_entry (paddr flags : Z) : Z := paddr .& PTE_ADDR_MASK .| flags .| PTE_PRESENT.
Definition huge_entry (paddr flags : Z) : Z := (paddr .&~ 0x1FFFFF) .| flags .| PTE_PRESENT.

Lemma small_entry_present pa fl : has_flag (small_entry pa fl) PTE_PRESENT = true.
Proof.
  unfold small_entry, PTE_PRESENT. rewrite has_flag_bit, !Z.lor_spec by lia.
  rewrite orb_true_iff. right. apply Z.pow2_bits_true. lia.
Qed.

Lemma huge_entry_flags pa fl :
  has_flag fl PTE_HUGE = true ->
  has_flag (huge_entry pa fl) PTE_PRESENT = true /\ has_flag (huge_entry pa fl) PTE_HUGE = true.
Proof.
  unfold huge_entry, PTE_PRESENT, PTE_HUGE. rewrite !has_flag_bit by lia. intros E.
  rewrite !Z.lor_spec, E. split; apply orb_true_iff;
    [right; apply Z.pow2_bits_true; lia|left; apply orb_true_r].
Qed.

(** What a successful call changes. *)
Definition map_effect (v paddr flags : Z) (old : option (bool * Z)) (v' : Z) : option (bool * Z) :=
  if has_flag flags PTE_HUGE then
    if decide (same_region v v') then Some (true, huge_entry paddr flags) else old
  else if decide (same_page v v') then Some (false, small_entry paddr flags) else old.

Lemma vmm_map_page_leaf (s : vm) r v pa fl :
  vm_ok s r ->
  let '(ret, s') := vmm_map_page r v pa fl s in
  vm_ok s' r /\
  ((ret = -1 /\ forall v', leaf (pages s') r v' = leaf (pages s) r v') \/
   (ret = 0 /\ forall v', leaf (pages s') r v' = map_effect v pa fl (leaf (pages s) r v') v')).
Proof.
  intros Hok. unfold vmm_map_page. fold (map_flags fl).
  pose proof (two_levels s r v (map_flags fl) Hok (map_flags_ok fl)) as H12.
  destruct (get_or_create_table r (PML4_INDEX v) (map_flags fl) s) as [pdpt s1].
  destruct H12 as (O1 & L1 & H2). destruct (Z.eqb_spec pdpt 0) as [->|Hne1]; [by auto|].
  specialize (H2 Hne1).
  destruct (get_or_create_table pdpt (PDPT_INDEX v) (map_flags fl) s1) as [pd s2].
  destruct H2 as (O2 & L2 & W2). destruct (Z.eqb_spec pd 0) as [->|Hne2]; [by auto|].
  specialize (W2 Hne2). unfold map_effect.
  destruct (has_flag fl PTE_HUGE) eqn:Eh.
  - destruct (huge_entry_flags pa fl Eh) as [F1 F2].
    destruct (write_pd_spec s2 r v pd (huge_entry pa fl) O2 W2) as [O3 L3].
    { unfold entry_table. by rewrite F1, F2. }
    split; [done|right]. split; [done|]. intros v'. fold (huge_entry pa fl). rewrite L3, F1, L2. done.
  - pose proof (third_level s2 r v pd (map_flags fl) O2 (map_flags_ok fl) W2) as H3.
    destruct (get_or_create_table pd (PD_INDEX v) (map_flags fl) s2) as [pt s3].
    destruct H3 as (O3 & L3 & W3).
    destruct (Z.eqb_spec pt 0) as [->|Hne3].
    + split; [done|left]. split; [done|]. intros v'. by rewrite L3.
    + destruct (write_pt_spec s3 r v pt (small_entry pa fl) O3 (W3 Hne3)) as [O4 L4].
      split; [done|right]. split; [done|]. intros v'. fold (small_entry pa fl).
      rewrite L4, small_entry_present, L3, L2. done.
Qed.
End tree.
