(* ===== verification/AddressSpace.v ===== *)
(** * Address spaces: the theorems about [memory/vmm.c]

    The properties of mapping, unmapping, creation of address spaces and
    copy on write, for every frame allocator that satisfies the interface of
    [FrameAlloc.v]; the examples run them over the bitmap allocator of
    [Pmm.v]. *)

From S2P Require Import Prelude FrameAlloc CString Pmm Vmm.

Section address_spaces.
Context {A : Type} `{FrameAllocLaws A}.

(** ** Mapping and unmapping *)

Lemma translate_small e v pa fl :
  fl .& PTE_ADDR_MASK = 0 -> e = small_entry pa fl ->
  translate (Some (false, e)) v = (pa .& PTE_ADDR_MASK) .| (v .& 0xFFF).
Proof.
  intros Hfl ->. simpl. f_equal. unfold small_entry.
  rewrite !Z.land_lor_distr_l, Hfl, Z.lor_0_r. rewrite <- Z.land_assoc, Z.land_diag.
  by change (PTE_PRESENT .& PTE_ADDR_MASK) with 0; rewrite Z.lor_0_r.
Qed.

(** C12: mapping a 4 KiB page either fails for lack of memory (or because
    a huge page is in the way) and leaves every translation as it was, or
    succeeds: every address of the page then translates to the same offset of
    the physical page, and every address outside it translates as before. *)
Theorem vmm_map_page_correct (s : vm) (r v pa fl : Z) :
  vm_ok s r -> has_flag fl PTE_HUGE = false -> fl .& PTE_ADDR_MASK = 0 ->
  let '(ret, s') := vmm_map_page r v pa fl s in
  vm_ok s' r /\
  ((ret = -1 /\ forall v', vmm_get_physical r v' s' = vmm_get_physical r v' s) \/
   (ret = 0 /\ forall v', vmm_get_physical r v' s' =
      if decide (same_page v v') then (pa .& PTE_ADDR_MASK) .| (v' .& 0xFFF)
      else vmm_get_physical r v' s)).
Proof.
  intros Hok Hh Hfl. pose proof (vmm_map_page_leaf s r v pa fl Hok) as Hm.
  destruct (vmm_map_page r v pa fl s) as [ret s']. destruct Hm as (Hok' & [(-> & HL)|(-> & HL)]);
    (split; [done|]).
  - left. split; [done|]. intros v'. by rewrite !vmm_get_physical_leaf, HL by done.
  - right. split; [done|]. intros v'. rewrite !vmm_get_physical_leaf, HL by done.
    unfold map_effect. rewrite Hh. case_decide; [|done]. by apply (translate_small _ _ pa fl).
Qed.

(** A frame whose present entries form the path to a 4 KiB entry. *)
Lemma leaf_small_inv P r v e :
  leaf P r v = Some (false, e) ->
  exists pt, walk P r (pt_path v) = Some pt /\ P pt (PT_INDEX v) = e /\ has_flag e PTE_PRESENT = true.
Proof.
  rewrite walk_pt. unfold leaf, dir_path.
  destruct (walk P r [PML4_INDEX v; PDPT_INDEX v]) as [pd|]; [|done].
  destruct (has_flag (P pd (PD_INDEX v)) PTE_PRESENT) eqn:E1; [|done].
  destruct (has_flag (P pd (PD_INDEX v)) PTE_HUGE) eqn:E2; [done|]. cbn [negb].
  destruct (has_flag (P (table_of (P pd (PD_INDEX v))) (PT_INDEX v)) PTE_PRESENT) eqn:E3; [|done].
  intros [= <-]. eexists. split; [by apply entry_table_Some|]. done.
Qed.

(** Table pointers are never null. *)
Lemma walk_nonzero (s : vm) r p t : vm_ok s r -> path_ok p -> walk (pages s) r p = Some t -> t <> 0.
Proof.
  intros [_ _ Ht] Hp Hw. destruct (to_frame _ _ _ Ht p t Hp Hw) as (a & -> & [_ Ha] & _).
  unfold KERNEL_VMA_BASE. lia.
Qed.

(** The walk shared by unmapping and the fault handler. *)
Lemma walk_steps (s : vm) r v :
  vm_ok s r ->
  let e4 := pages s r (PML4_INDEX v) in
  let e3 := pages s (table_of e4) (PDPT_INDEX v) in
  match walk (pages s) r (dir_path v) with
  | Some pd => has_flag e4 PTE_PRESENT = true /\ has_flag e3 PTE_PRESENT = true /\
               pd = table_of e3 /\ table_of e4 <> 0 /\ pd <> 0
  | None => has_flag e4 PTE_PRESENT = false \/
            (table_of e4 <> 0 /\ has_flag e4 PTE_PRESENT = true /\ has_flag e3 PTE_PRESENT = false)
  end.
Proof.
  intros Hok e4 e3. unfold dir_path. cbn [walk].
  destruct (has_flag e4 PTE_PRESENT) eqn:E4.
  2: { unfold entry_table. fold e4. rewrite E4. by left. }
  pose proof (to_nohuge _ _ _ (vo_tree _ _ Hok) [] r (PML4_INDEX v) path_ok_nil ltac:(simpl; lia)
    (land_ones9 _) eq_refl E4) as N4. fold e4 in N4.
  assert (walk (pages s) r [PML4_INDEX v] = Some (table_of e4)) as W1
    by (cbn [walk]; fold e4; unfold entry_table; by rewrite E4, N4).
  pose proof (walk_nonzero s r _ _ Hok (path_ok_1 v) W1) as Z4.
  fold e4. unfold entry_table at 1. rewrite E4, N4. cbn [andb negb]. fold e3.
  destruct (has_flag e3 PTE_PRESENT) eqn:E3.
  2: { unfold entry_table. rewrite E3. by right. }
  pose proof (to_nohuge _ _ _ (vo_tree _ _ Hok) [PML4_INDEX v] _ (PDPT_INDEX v) (path_ok_1 v)
    ltac:(simpl; lia) (land_ones9 _) W1 E3) as N3. fold e3 in N3.
  unfold entry_table. rewrite E3, N3. cbn [andb negb]. split_and!; try done.
  apply (walk_nonzero s r (dir_path v)); [done|auto with aether|].
  unfold dir_path. cbn [walk]. fold e4. unfold entry_table at 1. rewrite E4, N4. cbn [andb negb].
  fold e3. unfold entry_table. by rewrite E3, N3.
Qed.

(** after a successful unmap no address of the page (or of the huge
    page it lay in) translates any more and every other translation is as
    before; a failed unmap changes nothing and the address had no
    translation. *)
Theorem vmm_unmap_page_correct (s : vm) (r v : Z) :
  vm_ok s r ->
  let '(ret, s') := vmm_unmap_page r v s in
  vm_ok s' r /\
  ((ret = -1 /\ s' = s /\ vmm_get_physical r v s = 0) \/
   (ret = 0 /\ vmm_get_physical r v s' = 0 /\
    (forall v', same_page v v' -> vmm_get_physical r v' s' = 0) /\
    (forall v', ~ same_region v v' -> vmm_get_physical r v' s' = vmm_get_physical r v' s) /\
    (forall v' e, leaf (pages s) r v = Some (false, e) -> ~ same_page v v' ->
       vmm_get_physical r v' s' = vmm_get_physical r v' s))).
Proof.
  intros Hok. unfold vmm_unmap_page. pose proof (walk_steps s r v Hok) as Hw. cbn zeta in Hw.
  assert (forall v', same_page v v' -> same_region v v') as Hsub by (intros v' [? _]; done).
  assert (same_page v v) as Hself by done.
  destruct (walk (pages s) r (dir_path v)) as [pd|] eqn:Wd.
  2: { assert (leaf (pages s) r v = None) as HL by (unfold leaf; fold (dir_path v); by rewrite Wd).
       destruct Hw as [-> | (Z4 & -> & ->)].
       - rewrite orb_true_r. split; [done|left]. split_and!; try done. by rewrite vmm_get_physical_leaf, HL.
       - rewrite (proj2 (Z.eqb_neq _ _) Z4). cbn [orb negb]. rewrite orb_true_r.
         split; [done|left]. split_and!; try done. by rewrite vmm_get_physical_leaf, HL. }
  destruct Hw as (E4 & E3 & Epd & Z4 & Z3). rewrite E4, E3, <- Epd.
  rewrite (proj2 (Z.eqb_neq _ _) Z4), (proj2 (Z.eqb_neq _ _) Z3). cbn [orb negb].
  destruct (has_flag (pages s pd (PD_INDEX v)) PTE_PRESENT) eqn:E2; cbn [negb].
  2: { split; [done|left]. split_and!; try done. rewrite vmm_get_physical_leaf by done.
       unfold leaf. fold (dir_path v). by rewrite Wd, E2. }
  destruct (has_flag (pages s pd (PD_INDEX v)) PTE_HUGE) eqn:Eh.
  - destruct (write_pd_spec s r v pd 0 Hok Wd eq_refl) as [Hok' HL].
    split; [done|right]. split; [done|]. split_and!.
    + rewrite vmm_get_physical_leaf, HL by done. by rewrite decide_True.
    + intros v' Hs. rewrite vmm_get_physical_leaf, HL by done. by rewrite decide_True by auto.
    + intros v' Hs. rewrite !vmm_get_physical_leaf, HL by done. by rewrite decide_False.
    + intros v' e Hl. rewrite (leaf_huge _ r v pd _ Wd eq_refl E2 Eh) in Hl. done.
  - assert (walk (pages s) r (pt_path v) = Some (table_of (pages s pd (PD_INDEX v)))) as Wp.
    { rewrite walk_pt, Wd. by apply entry_table_Some. }
    rewrite (proj2 (Z.eqb_neq _ _) (walk_nonzero s r _ _ Hok (path_ok_pt v) Wp)).
    destruct (write_pt_spec s r v _ 0 Hok Wp) as [Hok' HL].
    split; [done|right]. split; [done|]. split_and!.
    + rewrite vmm_get_physical_leaf, HL by done. by rewrite decide_True.
    + intros v' Hs. rewrite vmm_get_physical_leaf, HL by done. by rewrite decide_True.
    + intros v' Hs. rewrite !vmm_get_physical_leaf, HL by done. by rewrite decide_False by auto.
    + intros v' e _ Hs. rewrite !vmm_get_physical_leaf, HL by done. by rewrite decide_False.
Qed.
(** ** Frames and pages that no table uses *)

Lemma vm_ok_frames (s : vm) r f' :
  vm_ok s r -> alloc_inv f' ->
  (forall b, frame_addr b -> in_use (frames s) b = true -> in_use f' b = true) ->
  vm_ok (with_frames f' s) r.
Proof.
  intros [Hai Hh [I F N]] Hi Hk. split; [done| |].
  - intros a Ha Hge. by apply Hk, Hh.
  - split; [done| |done]. intros p t Hp Hw. destruct (F p t Hp Hw) as (a & ? & ? & ? & ?).
    exists a. split_and!; auto.
Qed.

(** Memory may change outside the tables of the tree. *)
Lemma walk_off_tree P P' r c q :
  (forall t j, t <> c -> P' t j = P t j) ->
  (forall q t, path_ok q -> walk P r q = Some t -> t <> c) -> path_ok q ->
  walk P' r q = walk P r q.
Proof.
  intros Hag Hno. induction q as [|j q IH] using rev_ind; intros Hq; [done|].
  apply path_ok_snoc in Hq as [Hq Hj]. rewrite !walk_snoc, (IH Hq).
  destruct (walk P r q) as [t'|] eqn:Et; [|done]. by rewrite Hag by by apply (Hno q).
Qed.

Lemma off_tree_ok (s s' : vm) r c :
  vm_ok s r -> (forall q t, path_ok q -> walk (pages s) r q = Some t -> t <> c) ->
  (forall t j, t <> c -> pages s' t j = pages s t j) -> frames s' = frames s ->
  vm_ok s' r /\ forall v, leaf (pages s') r v = leaf (pages s) r v.
Proof.
  intros [Hai Hh [I F N]] Hno Hag Hf.
  assert (forall q, path_ok q -> walk (pages s') r q = walk (pages s) r q) as Hq
    by (intros q Hp; by apply (walk_off_tree _ _ r c)).
  split; [split; rewrite ?Hf; [done|done|split]|].
  - intros p q t Hp Hq'. rewrite !Hq by done. by apply I.
  - intros p t Hp. rewrite Hq by done. by apply F.
  - intros p t i Hp Hl Hi. rewrite Hq by done. intros Hw. rewrite Hag by by apply (Hno p). by apply (N p).
  - intros v. apply leaf_agree; [apply Hq; auto with aether| |].
    + intros pd Hpd. apply Hag, (Hno (dir_path v)); auto with aether.
    + intros pt Hpt. apply Hag, (Hno (pt_path v)); auto with aether.
Qed.

(** A fresh frame below 2 GiB, as the allocator hands it out. *)
Lemma alloc_low (f : A) a f' :
  alloc_inv f -> high_used f -> alloc_frame f = (a, f') -> a <> 0 ->
  frame_addr a /\ a < 2 ^ 31 /\ in_use f a = false /\ in_use f' a = true /\ get_refcount a f' = 1 /\
  alloc_inv f' /\ (forall b, frame_addr b -> in_use f b = true ->
                   in_use f' b = true /\ get_refcount b f' = get_refcount b f).
Proof.
  intros Hi Hh E Hne. destruct (alloc_fresh f a f' Hi E Hne) as (Ha & Hf & Hu & Hr).
  split_and!; try done.
  - destruct (decide (a < 2 ^ 31)); [done|]. rewrite Hh in Hf by (done || lia). done.
  - pose proof (alloc_keeps_inv f Hi) as Hk. by rewrite E in Hk.
  - intros b Hb Hub. by apply (alloc_other f a f' b Hi E Hb Hub).
Qed.

Lemma fresh_not_table (s : vm) r a :
  vm_ok s r -> in_use (frames s) a = false ->
  forall q t, path_ok q -> walk (pages s) r q = Some t -> t <> KERNEL_VMA_BASE + a.
Proof.
  intros [_ _ [_ F _]] Hf q t Hq Hw ->. destruct (F q _ Hq Hw) as (b & Hb & _ & _ & Hu).
  assert (b = a) as -> by lia. congruence.
Qed.

(** ** New address spaces *)

Lemma copy_entries_spec (s : vm (A:=A)) t n a :
  kernel_pml4 s <> t ->
  let s' := iter_range n a (fun i s => put_entry t i (pages s (kernel_pml4 s) i) s) s in
  frames s' = frames s /\ kernel_pml4 s' = kernel_pml4 s /\
  (forall t' i, pages s' t' i =
     if (t' =? t) && (a <=? i) && (i <? a + Z.of_nat n) then pages s (kernel_pml4 s) i
     else pages s t' i).
Proof.
  intros Hne s'.
  pose (Q := fun k (u : vm (A:=A)) => frames u = frames s /\ kernel_pml4 u = kernel_pml4 s /\
    forall t' i, pages u t' i =
     if (t' =? t) && (a <=? i) && (i <? k) then pages s (kernel_pml4 s) i else pages s t' i).
  apply (iter_range_ind Q).
  - split_and!; try done. intros t' i. case_if; [bools; lia|done].
  - intros k u Hk (U1 & U2 & U3). split_and!; try done. intros t' i. simpl. rewrite U2.
    unfold set_entry, upd. destruct (Z.eqb_spec t' t) as [->|Hn]; cbn [andb].
    + destruct (Z.eqb_spec i k) as [->|].
      * rewrite U3, (proj2 (Z.eqb_neq _ _) Hne). cbn [andb].
        by rewrite (proj2 (Z.leb_le a k)), (proj2 (Z.ltb_lt k (k + 1))) by lia.
      * rewrite U3, Z.eqb_refl. cbn [andb].
        destruct (Z.leb_spec a i), (Z.ltb_spec i k), (Z.ltb_spec i (k + 1)); (done || lia).
    + rewrite U3. by rewrite (proj2 (Z.eqb_neq _ _) Hn).
Qed.

Lemma walk_cons P t i p :
  walk P t (i :: p) = match entry_table (P t i) with Some t' => walk P t' p | None => None end.
Proof. done. Qed.

(** Walks that start in another table agree when the memories agree on the
    tables they visit. *)
Lemma walk_agree P P' k t i p :
  P' t i = P k i ->
  (forall q t', path_ok q -> walk P k q = Some t' -> forall j, P' t' j = P t' j) ->
  path_ok (i :: p) -> walk P' t (i :: p) = walk P k (i :: p).
Proof.
  intros Hi Hag Hp. revert Hp.
  induction p as [|j p IH] using rev_ind; intros Hp.
  { rewrite !walk_cons, Hi. done. }
  change (i :: p ++ [j]) with ((i :: p) ++ [j]) in *.
  pose proof (path_ok_snoc _ _ Hp) as [Hp' _]. rewrite !walk_snoc, (IH Hp').
  destruct (walk P k (i :: p)) as [t'|] eqn:E; [|done]. by rewrite (Hag _ _ Hp' E).
Qed.

(** A root whose upper half is that of [k] and whose lower half is empty. *)
Lemma new_root_ok (s2 s : vm) k a :
  let c := KERNEL_VMA_BASE + a in
  vm_ok s2 k -> vm_ok s k -> (forall v, leaf (pages s2) k v = leaf (pages s) k v) ->
  (forall q t, path_ok q -> walk (pages s) k q = Some t -> t <> c) ->
  (forall t j, t <> c -> pages s2 t j = pages s t j) ->
  frame_addr a -> a < 2 ^ 31 -> in_use (frames s2) a = true ->
  (forall i, 0 <= i < 512 -> pages s2 c i = if 256 <=? i then pages s k i else 0) ->
  vm_ok s2 c /\
  forall v, vmm_get_physical c v s2 =
    if 256 <=? PML4_INDEX v then vmm_get_physical k v s else 0.
Proof.
  intros c Hok2 Hok HL Hno Hag Ha Hlow Hus Hc.
  assert (forall q, path_ok q -> walk (pages s2) k q = walk (pages s) k q) as Hwk
    by (intros q Hq; by apply (walk_off_tree _ _ k c)).
  assert (forall i p, path_ok (i :: p) -> walk (pages s2) c (i :: p) =
    if 256 <=? i then walk (pages s2) k (i :: p) else None) as Hw.
  { intros i p Hp. pose proof (Forall_inv (proj1 Hp)) as Hi. unfold idx_ok in Hi. case_if; bools.
    - apply walk_agree; [|done|done]. rewrite (Hc i Hi), (proj2 (Z.leb_le _ _)) by lia.
      symmetry. apply Hag. apply (Hno []); [apply path_ok_nil|done].
    - rewrite walk_cons, (Hc i Hi), (proj2 (Z.leb_gt _ _)) by lia. done. }
  assert (forall q t, path_ok q -> walk (pages s2) k q = Some t -> t <> c) as Hno2.
  { intros q t Hq. rewrite Hwk by done. by apply Hno. }
  assert (vm_ok s2 c) as Hokc.
  { destruct Hok2 as [Hai Hh [I F N]]. split; [done|done|]. split.
    - intros [|i p] [|j q] t Hp Hq; rewrite ?Hw by done; try done; repeat case_if; try done.
      + intros [= <-] E. by destruct (Hno2 _ _ Hq E).
      + intros E [= <-]. by destruct (Hno2 _ _ Hp E).
      + by apply I.
    - intros [|i p] t Hp; [intros [= <-]; exists a; by split_and!|].
      rewrite Hw by done. case_if; [by apply F|done].
    - intros [|i p] t j Hp Hl Hj.
      + intros [= <-]. rewrite (Hc j Hj). case_if; [|done].
        rewrite <- (Hag k j) by (apply (Hno []); [apply path_ok_nil|done]). by apply (N []).
      + rewrite Hw by done. case_if; [by apply N|done]. }
  split; [done|]. intros v. rewrite !vmm_get_physical_leaf by done. rewrite <- (HL v).
  pose proof (path_ok_dir v) as Hpd. unfold dir_path in Hpd. unfold leaf.
  rewrite (Hw _ _ Hpd). by case_if.
Qed.

(** a new address space maps nothing in the user half and exactly
    what the kernel's table maps in the kernel half, and its tables are in
    order; the kernel's own translations are unchanged. *)
Theorem vmm_create_address_space_correct (s : vm) :
  vm_ok s (kernel_pml4 s) ->
  let '(pml4, s') := vmm_create_address_space s in
  vm_ok s' (kernel_pml4 s) /\
  (forall v, vmm_get_physical (kernel_pml4 s) v s' = vmm_get_physical (kernel_pml4 s) v s) /\
  (pml4 <> 0 ->
   vm_ok s' pml4 /\
   forall v, vmm_get_physical pml4 v s' =
     if 256 <=? PML4_INDEX v then vmm_get_physical (kernel_pml4 s) v s else 0).
Proof.
  intros Hok. unfold vmm_create_address_space, alloc_page_table.
  destruct (alloc_frame (frames s)) as [a f'] eqn:Ea.
  pose proof (vo_alloc _ _ Hok) as Hai. pose proof (vo_high _ _ Hok) as Hh.
  destruct (Z.eqb_spec a 0) as [->|Hne].
  { cbn. assert (vm_ok (with_frames f' s) (kernel_pml4 s)) as Hok'.
    { apply vm_ok_frames; [done| |].
      - pose proof (alloc_keeps_inv (frames s) Hai) as Hk. by rewrite Ea in Hk.
      - intros b Hb Hu. by apply (alloc_other _ _ _ b Hai Ea Hb Hu). }
    split; [done|]. split; [|done]. intros v. by rewrite !vmm_get_physical_leaf. }
  destruct (alloc_low _ _ _ Hai Hh Ea Hne) as (Ha & Hlow & Hfr & Hus & _ & Hai' & Hkeep).
  rewrite phys_virt by (destruct Ha; lia).
  rewrite (proj2 (Z.eqb_neq (KERNEL_VMA_BASE + a) 0)) by (destruct Ha; unfold KERNEL_VMA_BASE; lia).
  set (c := KERNEL_VMA_BASE + a). set (k := kernel_pml4 s) in *. set (s1 := put_page c _ _).
  assert (forall q t, path_ok q -> walk (pages s) k q = Some t -> t <> c) as Hno
    by by apply fresh_not_table.
  assert (k <> c) as Hkc by (apply (Hno []); [apply path_ok_nil|done]).
  destruct (copy_entries_spec s1 c 256 256 Hkc) as (F2 & K2 & P2).
  set (s2 := iter_range _ _ _ _) in *. change (kernel_pml4 s1) with k in *.
  assert (forall t j, t <> c -> pages s2 t j = pages s t j) as Hag.
  { intros t j Ht. rewrite P2, (proj2 (Z.eqb_neq _ _) Ht). cbn [andb]. unfold s1. cbn.
    unfold set_page. by rewrite (proj2 (Z.eqb_neq _ _) Ht). }
  assert (forall i, 0 <= i < 512 -> pages s2 c i = if 256 <=? i then pages s k i else 0) as Hc.
  { intros i Hi. rewrite P2, Z.eqb_refl. cbn [andb]. change (256 + Z.of_nat 256) with 512.
    rewrite (proj2 (Z.ltb_lt i 512)) by lia. rewrite andb_true_r. unfold s1. cbn. unfold set_page.
    rewrite Z.eqb_refl, (proj2 (Z.eqb_neq _ _) Hkc). done. }
  destruct (off_tree_ok (with_frames f' s) s2 k c) as [Hok2 HL2]; try done.
  { apply vm_ok_frames; [done|done|]. intros b Hb Hu. by apply Hkeep. }
  split; [done|]. split; [intros v; by rewrite !vmm_get_physical_leaf, HL2|]. intros _.
  by apply new_root_ok with (k := k) (a := a).
Qed.
(** ** Copy on write *)

Lemma fault_walk_leaf (s : vm) r v e :
  vm_ok s r -> leaf (pages s) r v = Some (false, e) ->
  exists pt, fault_walk r v s = Some (pt, PT_INDEX v) /\ walk (pages s) r (pt_path v) = Some pt /\
    pages s pt (PT_INDEX v) = e /\ has_flag e PTE_PRESENT = true.
Proof.
  intros Hok Hl. apply leaf_small_inv in Hl as (pt & Hw & He & Hp). exists pt.
  split; [|done]. pose proof (walk_steps s r v Hok) as Hs. cbn zeta in Hs.
  rewrite walk_pt in Hw. destruct (walk (pages s) r (dir_path v)) as [pd|]; [|done].
  destruct Hs as (E4 & E3 & -> & _). apply entry_table_Some in Hw as (E1 & E2 & ->).
  unfold fault_walk. by rewrite E4, E3, E1, E2.
Qed.

(** The flags of the entry after the break. *)
Lemma cow_sole_entry pte :
  let e := (pte .&~ PTE_COW) .| PTE_WRITABLE in
  has_flag pte PTE_PRESENT = true ->
  has_flag e PTE_PRESENT = true /\ has_flag e PTE_WRITABLE = true /\ has_flag e PTE_COW = false /\
  e .& PTE_ADDR_MASK = pte .& PTE_ADDR_MASK.
Proof.
  unfold PTE_PRESENT, PTE_WRITABLE, PTE_COW. simpl. rewrite !has_flag_bit by lia.
  rewrite !Z.lor_spec, !Z.ldiff_spec. intros ->. split_and!.
  - done.
  - rewrite (Z.pow2_bits_true 1) by lia. by rewrite orb_true_r.
  - rewrite (Z.pow2_bits_true 9) by lia. rewrite andb_false_r. by rewrite Z.pow2_bits_false by lia.
  - apply Z.bits_inj_iff'. intros n Hn. rewrite !Z.land_spec, Z.lor_spec, Z.ldiff_spec.
    rewrite addr_mask_testbit. destruct (Z.leb_spec 12 n); [|by rewrite !andb_false_r].
    rewrite !Z.pow2_bits_false by lia. by rewrite orb_false_r, andb_true_r.
Qed.

Lemma cow_copy_entry a pte :
  let e := (a .& PTE_ADDR_MASK) .| (pte .&~ PTE_ADDR_MASK .&~ PTE_COW) .| PTE_WRITABLE in
  frame_addr a -> has_flag pte PTE_PRESENT = true ->
  has_flag e PTE_PRESENT = true /\ has_flag e PTE_WRITABLE = true /\ has_flag e PTE_COW = false /\
  e .& PTE_ADDR_MASK = a.
Proof.
  intros e Ha. unfold e, PTE_PRESENT, PTE_WRITABLE, PTE_COW. rewrite !has_flag_bit by lia.
  rewrite !Z.lor_spec, !Z.ldiff_spec, !Z.land_spec, !addr_mask_testbit. intros Hp. rewrite Hp. split_and!.
  - by rewrite orb_true_r.
  - rewrite (Z.pow2_bits_true 1) by lia. by rewrite orb_true_r.
  - rewrite (Z.pow2_bits_true 9) by lia. by rewrite !andb_false_r.
  - apply Z.bits_inj_iff'. intros n Hn.
    rewrite !Z.land_spec, !Z.lor_spec, !Z.ldiff_spec, !Z.land_spec, !addr_mask_testbit.
    destruct (Z.testbit a n) eqn:Ea.
    + apply frame_addr_bits in Ea; [|done|done].
      by rewrite (proj2 (Z.leb_le 12 n)), (proj2 (Z.ltb_lt n 52)) by lia.
    + destruct (Z.leb_spec 12 n); [|by rewrite andb_false_r]. destruct (Z.ltb_spec n 52);
        [|by rewrite andb_false_r]. cbn [andb negb]. rewrite !andb_false_r. cbn [orb andb].
      by rewrite Z.pow2_bits_false by lia.
Qed.

(** What a resolved fault guarantees: the page is writable and private, it
    has the old contents, and nothing else is affected. *)
Definition cow_resolved (s s' : vm) (r v pte : Z) : Prop :=
  let old := pte .& PTE_ADDR_MASK in
  exists e a, leaf (pages s') r v = Some (false, e) /\ e .& PTE_ADDR_MASK = a /\
    has_flag e PTE_WRITABLE = true /\ has_flag e PTE_COW = false /\
    (forall j, pages s' (PHYS_TO_VIRT a) j = pages s (PHYS_TO_VIRT old) j) /\
    (forall v', ~ same_page v v' -> leaf (pages s') r v' = leaf (pages s) r v') /\
    (get_refcount old (frames s) = 1 -> a = old /\ frames s' = frames s) /\
    (get_refcount old (frames s) <> 1 ->
       in_use (frames s) a = false /\ get_refcount a (frames s') = 1 /\
       in_use (frames s') old = true /\
       get_refcount old (frames s') = get_refcount old (frames s) - 1).

Lemma cow_break_copy (s : vm) r v pt pte a f' :
  let old := pte .& PTE_ADDR_MASK in
  vm_ok s r -> walk (pages s) r (pt_path v) = Some pt -> pages s pt (PT_INDEX v) = pte ->
  has_flag pte PTE_PRESENT = true -> frame_addr old -> in_use (frames s) old = true ->
  1 < get_refcount old (frames s) -> alloc_frame (frames s) = (a, f') -> a <> 0 ->
  let s1 := put_page (PHYS_TO_VIRT a) (pages s (PHYS_TO_VIRT old)) (with_frames f' s) in
  let s2 := put_entry pt (PT_INDEX v) ((a .& PTE_ADDR_MASK) .|
              (pte .&~ PTE_ADDR_MASK .&~ PTE_COW) .| PTE_WRITABLE) s1 in
  vm_ok (release old s2) r /\ cow_resolved s (release old s2) r v pte.
Proof.
  intros old Hok Hw He Hp Hold Huse Hrc Ea Hne s1 s2.
  destruct (alloc_low _ _ _ (vo_alloc _ _ Hok) (vo_high _ _ Hok) Ea Hne)
    as (Ha & Hlow & Hfr & Hus & Hr1 & Hai' & Hkeep).
  destruct (Hkeep old Hold Huse) as [Hu' Hrc'].
  assert (a <> old) as Hao by (intros ->; congruence).
  assert (PHYS_TO_VIRT a = KERNEL_VMA_BASE + a) as Hva by (apply phys_virt; destruct Ha; lia).
  pose proof (fresh_not_table s r a Hok Hfr) as Hno.
  assert (vm_ok (with_frames f' s) r) as Hok0
    by (apply vm_ok_frames; [done|done|intros b Hb Hub; by apply Hkeep]).
  destruct (off_tree_ok (with_frames f' s) s1 r (KERNEL_VMA_BASE + a)) as [Hok1 HL1]; try done.
  { intros t j Ht. unfold s1. cbn. unfold set_page. rewrite Hva. by rewrite (proj2 (Z.eqb_neq _ _) Ht). }
  assert (walk (pages s1) r (pt_path v) = Some pt) as Hw1.
  { rewrite <- Hw. apply (walk_off_tree _ _ r (KERNEL_VMA_BASE + a)); [|done|auto with aether].
    intros t j Ht. unfold s1. cbn. unfold set_page. rewrite Hva. by rewrite (proj2 (Z.eqb_neq _ _) Ht). }
  destruct (cow_copy_entry a pte Ha Hp) as (E1 & E2 & E3 & E4).
  destruct (write_pt_spec s1 r v pt ((a .& PTE_ADDR_MASK) .|
    (pte .&~ PTE_ADDR_MASK .&~ PTE_COW) .| PTE_WRITABLE) Hok1 Hw1) as [Hok2 HL2]. fold s2 in Hok2, HL2. split.
  - apply vm_ok_frames; [done|by apply free_keeps_inv; [|destruct Hold; lia]|].
    intros b Hb Hub. destruct (decide (b = old)) as [->|Hnb].
    + apply (free_shared f' old Hai' Hold Hu'). lia.
    + destruct (free_other f' old b Hai' Hold Hb (not_eq_sym Hnb)) as [E _].
      etransitivity; [exact E|done].
  - unfold cow_resolved. fold old. eexists _, a.
    assert (forall v', leaf (pages (release old s2)) r v' = leaf (pages s2) r v') as HL3 by done.
    rewrite HL3, HL2, E1. rewrite decide_True by done. split; [done|]. split_and!; try done.
    + intros j. cbn. rewrite set_entry_other.
      * unfold set_page. by rewrite Z.eqb_refl.
      * left. rewrite Hva. apply not_eq_sym, (Hno (pt_path v)); [auto with aether|done].
    + intros v' Hs. rewrite HL3, HL2. rewrite decide_False by done. apply HL1.
    + intros H1. lia.
    + intros _. destruct (free_other f' old a Hai' Hold Ha ltac:(congruence)) as [_ R1].
      destruct (free_shared f' old Hai' Hold Hu' ltac:(lia)) as [R2 R3].
      split_and!; [done|by rewrite <- Hr1|done|]. etransitivity; [exact R3|]. by rewrite Hrc'.
Qed.

(** C13: a user write fault on a page marked copy on write, with the frame
    shared by [refcount] holders, is resolved by making the page writable in
    place for the sole holder, or else by moving it to a fresh frame with the
    same contents and dropping one reference of the old frame; in both cases
    every other translation of the process is unchanged.  Only when no frame
    is left is the process killed, with all translations intact. *)
Theorem cow_fault_correct (s : vm) (v pte : Z) :
  let r := vmm_current_address_space s in
  let old := pte .& PTE_ADDR_MASK in
  vm_ok s r -> leaf (pages s) r v = Some (false, pte) -> has_flag pte PTE_COW = true ->
  frame_addr old -> in_use (frames s) old = true -> 1 <= get_refcount old (frames s) ->
  (forall q t, path_ok q -> walk (pages s) r q = Some t -> t <> PHYS_TO_VIRT old) ->
  match vmm_handle_page_fault v 7 s with
  | FaultResolved s' => vm_ok s' r /\ cow_resolved s s' r v pte
  | FaultKill s' => (alloc_frame (frames s)).1 = 0 /\ forall v', leaf (pages s') r v' = leaf (pages s) r v'
  | FaultPanic => False
  end.
Proof.
  intros r old Hok Hl Hcow Hold Huse Hrc Hdata.
  destruct (fault_walk_leaf s r v pte Hok Hl) as (pt & Hfw & Hw & He & Hp).
  assert (r <> 0) as Hr by (apply (walk_nonzero s r []); [done|apply path_ok_nil|done]).
  unfold vmm_handle_page_fault. fold r. change (has_flag 7 4) with true.
  change (has_flag 7 2) with true. change (has_flag 7 1) with true.
  rewrite (proj2 (Z.eqb_neq _ _) Hr). cbn [andb negb]. unfold cow_break. rewrite Hfw. cbn [mbind option_bind].
  rewrite He, Hcow, Hp. cbn [andb]. fold old.
  destruct (Z.eqb_spec (get_refcount old (frames s)) 1) as [H1|H1].
  - destruct (cow_sole_entry pte Hp) as (E1 & E2 & E3 & E4).
    destruct (write_pt_spec s r v pt ((pte .&~ PTE_COW) .| PTE_WRITABLE) Hok Hw) as [Hok' HL].
    split; [done|]. unfold cow_resolved. fold old. eexists _, old. rewrite HL, E1.
    rewrite decide_True by done. split; [done|]. split_and!; try done.
    + intros j. simpl. rewrite set_entry_other; [done|]. left.
      apply not_eq_sym, (Hdata (pt_path v)); [auto with aether|done].
    + intros v' Hs. rewrite HL. by rewrite decide_False.
  - destruct (alloc_frame (frames s)) as [a f'] eqn:Ea.
    destruct (Z.eqb_spec a 0) as [->|Hne]; [done|].
    change (pages (with_frames f' s)) with (pages s).
    exact (cow_break_copy s r v pt pte a f' Hok Hw He Hp Hold Huse ltac:(fold old; lia) Ea Hne).
Qed.
(** cloning marks every present page copy on write, read-only
    pages included, so that a later write to a page that was never writable is
    granted once its frame has a single holder. *)
Theorem clone_loses_write_protection (s s' s2 : vm) (dst i j k src_pt l v : Z) :
  let pte := pages s src_pt l in
  has_flag pte PTE_PRESENT = true -> has_flag pte PTE_WRITABLE = false ->
  clone_pte dst i j k src_pt l s = (true, s') ->
  vmm_current_address_space s2 <> 0 ->
  fault_walk (vmm_current_address_space s2) v s2 = Some (src_pt, l) ->
  pages s2 src_pt l = pages s' src_pt l ->
  get_refcount (pages s2 src_pt l .& PTE_ADDR_MASK) (frames s2) = 1 ->
  exists s3, vmm_handle_page_fault v 7 s2 = FaultResolved s3 /\
    has_flag (pages s3 src_pt l) PTE_WRITABLE = true.
Proof.
  intros pte Hp Hw Hc Hr Hfw Heq Hrc. unfold clone_pte in Hc. fold pte in Hc. rewrite Hp in Hc.
  cbn [negb] in Hc. destruct (vmm_map_page _ _ _ _ _) as [ret s1].
  destruct (ret =? 0); [|done]. cbn [negb] in Hc. injection Hc as <-.
  cbn in Heq. rewrite set_entry_same in Heq.
  assert (has_flag (pages s2 src_pt l) PTE_COW = true /\ has_flag (pages s2 src_pt l) PTE_PRESENT = true)
    as [Hcow Hpr].
  { rewrite Heq. unfold PTE_COW, PTE_WRITABLE, PTE_PRESENT in *. rewrite !has_flag_bit in * by lia.
    rewrite !Z.lor_spec, !Z.ldiff_spec, Hp. rewrite (Z.pow2_bits_true 9) by lia.
    rewrite orb_true_r. split; [done|]. by rewrite Z.pow2_bits_false by lia. }
  unfold vmm_handle_page_fault. change (has_flag 7 4) with true.
  change (has_flag 7 2) with true. change (has_flag 7 1) with true.
  rewrite (proj2 (Z.eqb_neq _ _) Hr). cbn [andb negb]. unfold cow_break. rewrite Hfw.
  cbn [mbind option_bind]. rewrite Hcow, Hpr, Hrc. cbn [andb].
  eexists. split; [reflexivity|]. simpl. rewrite set_entry_same.
  by destruct (cow_sole_entry _ Hpr) as (_ & ? & _).
Qed.

(** the translation of a huge page keeps the no-execute bit of the
    entry: after mapping a 2 MiB page with [PTE_NX], [vmm_get_physical]
    returns a value with bit 63 set, which is no physical address. *)
Theorem huge_nx_translation_wrong (s : vm) (r v pa fl : Z) :
  vm_ok s r -> has_flag fl PTE_HUGE = true -> has_flag fl PTE_NX = true ->
  let '(ret, s') := vmm_map_page r v pa fl s in
  ret = 0 -> Z.testbit (vmm_get_physical r v s') 63 = true.
Proof.
  intros Hok Hh Hnx. pose proof (vmm_map_page_leaf s r v pa fl Hok) as Hm.
  destruct (vmm_map_page r v pa fl s) as [ret s'].
  destruct Hm as (Hok' & [(-> & _)|(-> & HL)]); [done|]. intros _.
  rewrite vmm_get_physical_leaf, HL by done. unfold map_effect. rewrite Hh.
  rewrite decide_True by done. cbn [translate]. unfold huge_entry, PTE_NX in *.
  rewrite has_flag_bit in Hnx by lia.
  rewrite Z.lor_spec, Z.ldiff_spec, !Z.lor_spec, Hnx, orb_true_r.
  change (Z.testbit 0x1FFFFF 63) with false. done.
Qed.

(** ** A first table *)

Lemma empty_root_ok (s s' : vm) r :
  alloc_inv (frames s) -> high_used (frames s) -> alloc_page_table s = (r, s') -> r <> 0 ->
  vm_ok s' r.
Proof.
  intros Hai Hh. unfold alloc_page_table. destruct (alloc_frame (frames s)) as [a f'] eqn:Ea.
  destruct (Z.eqb_spec a 0) as [->|Hne]; [by intros [= <- <-]|].
  destruct (alloc_low _ _ _ Hai Hh Ea Hne) as (Ha & Hlow & Hfr & Hus & _ & Hai' & Hkeep).
  rewrite phys_virt by (destruct Ha; lia). intros [= <- <-] _.
  set (c := KERNEL_VMA_BASE + a). assert (forall i, set_page (pages s) c (fun _ => 0) c i = 0) as Hzero
    by (intros i; unfold set_page; by rewrite Z.eqb_refl).
  assert (forall p t, walk (set_page (pages s) c (fun _ => 0)) c p = Some t -> p = [] /\ t = c) as Hw.
  { intros [|i p] t; [by intros [= <-]|]. rewrite walk_cons, Hzero. done. }
  split; cbn.
  - done.
  - intros b Hb Hge. by apply Hkeep, Hh.
  - split; [by intros p q t _ _ [-> _]%Hw [-> _]%Hw| |].
    + intros p t _ [-> ->]%Hw. exists a. by split_and!.
    + intros p t i _ _ _ [-> ->]%Hw. by rewrite Hzero.
Qed.

Lemma release_pages (s : vm (A:=A)) a t i : pages (release a s) t i = pages s t i.
Proof. done. Qed.

Lemma pair_true {T} (p : bool * T) : p.1 = true -> p = (true, p.2).
Proof. destruct p. simpl. by intros ->. Qed.

(** The registers do not matter. *)
Lemma vm_ok_regs (s : vm) r k c : vm_ok s r -> vm_ok (Vm (pages s) (frames s) k c) r.
Proof. intros [H1 H2 H3]. by split. Qed.

(** The tables reached in [n] steps, as a list that can be evaluated. *)
Fixpoint tables_at (P : page_mem) (r : Z) (n : nat) : list Z :=
  match n with
  | O => [r]
  | S n => t ← tables_at P r n; omap (fun i => entry_table (P t i)) (seqZ 0 512)
  end.

Lemma walk_tables_at P r q t : path_ok q -> walk P r q = Some t -> t ∈ tables_at P r (length q).
Proof.
  revert t. induction q as [|i q IH] using rev_ind; intros t Hq; [intros [= <-]; set_solver|].
  apply path_ok_snoc in Hq as [Hq Hi]. rewrite walk_snoc, length_app, Nat.add_comm.
  destruct (walk P r q) as [t'|]; [|done]. intros E. cbn [tables_at length Nat.add].
  apply list_elem_of_bind. exists t'. split; [|by apply IH]. apply list_elem_of_omap.
  exists i. split; [|done]. apply elem_of_seqZ. unfold idx_ok in Hi. lia.
Qed.

Definition all_tables (P : page_mem) (r : Z) : list Z :=
  tables_at P r 0 ++ tables_at P r 1 ++ tables_at P r 2 ++ tables_at P r 3.

Lemma walk_all_tables P r q t : path_ok q -> walk P r q = Some t -> t ∈ all_tables P r.
Proof.
  intros Hq Hw. apply walk_tables_at in Hw; [|done]. unfold all_tables. rewrite !elem_of_app.
  destruct Hq as [_ Hl]. destruct (length q) as [|[|[|[|?]]]]; [tauto..|lia].
Qed.
End address_spaces.

(** ** Examples over the bitmap allocator *)

Definition demo_frames : pmm :=
  iter_range 16 16 (fun f => pmm_free_frame (f * 4096)) full_pmm.

Lemma demo_frames_ok : alloc_inv demo_frames /\ high_used demo_frames.
Proof.
  assert (forall n, (n <= 16)%nat ->
    let s := iter_range n 16 (fun f => pmm_free_frame (f * 4096)) full_pmm in
    pmm_wf s /\ forall a, frame_addr a -> 2 ^ 31 <= a -> in_use s a = true) as Hn.
  { intros n Hn.
    pose (Q := fun (k : Z) s => pmm_wf s /\ forall a, frame_addr a -> 2 ^ 31 <= a -> in_use s a = true).
    apply (iter_range_ind Q).
    - split; [apply full_pmm_wf|]. intros a Ha _. simpl. rewrite test_bit_testbit.
      + simpl. pose proof (Z.mod_pos_bound (a / PMM_FRAME_SIZE) 8).
        change 255 with (Z.ones 8). apply Z.ones_spec_low. lia.
      + apply Z.div_pos; [destruct Ha; lia|done].
    - intros k t Hk [Ht Hu]. split; [apply wf_free_frame; [done|lia]|]. intros a Ha Hge.
      destruct (free_other (S := pmm) t (k * 4096) a) as [E _]; [done| |done|lia|].
      + split; [apply Z.divide_factor_r|lia].
      + etransitivity; [exact E|]. by apply Hu. }
  exact (Hn 16%nat ltac:(lia)).
Qed.

Definition demo_space : Z * vm (A:=pmm) :=
  alloc_page_table (Vm (fun _ _ => 0) demo_frames 0 0).
Definition demo_root : Z := demo_space.1.
Definition demo_vm : vm (A:=pmm) := set_cr3 (virt_to_phys_kernel demo_root) demo_space.2.

Lemma demo_space_ok : vm_ok demo_space.2 demo_space.1.
Proof.
  apply (empty_root_ok (Vm (fun _ _ => 0) demo_frames 0 0) demo_space.2 demo_space.1).
  - apply demo_frames_ok.
  - apply demo_frames_ok.
  - unfold demo_space. apply surjective_pairing.
  - vm_compute. discriminate.
Qed.

#[global] Opaque demo_space demo_frames.

Lemma demo_vm_ok : vm_ok demo_vm demo_root.
Proof. unfold demo_vm, demo_root. apply vm_ok_regs, demo_space_ok. Qed.

Definition demo_flags : Z := PTE_USER .| PTE_WRITABLE.

Lemma vmm_map_page_correct_witness :
  let '(ret, s') := vmm_map_page demo_root 0x400000 0x9000 demo_flags demo_vm in
  vm_ok s' demo_root /\
  ((ret = -1 /\ forall v', vmm_get_physical demo_root v' s' = vmm_get_physical demo_root v' demo_vm) \/
   (ret = 0 /\ forall v', vmm_get_physical demo_root v' s' =
      if decide (same_page 0x400000 v') then (0x9000 .& PTE_ADDR_MASK) .| (v' .& 0xFFF)
      else vmm_get_physical demo_root v' demo_vm)).
Proof.
  apply (vmm_map_page_correct demo_vm demo_root 0x400000 0x9000 demo_flags);
    [apply demo_vm_ok|by vm_compute|by vm_compute].
Defined.

Lemma vmm_unmap_page_correct_witness :
  let '(ret, s') := vmm_unmap_page demo_root 0x400000 demo_vm in
  vm_ok s' demo_root /\
  ((ret = -1 /\ s' = demo_vm /\ vmm_get_physical demo_root 0x400000 demo_vm = 0) \/
   (ret = 0 /\ vmm_get_physical demo_root 0x400000 s' = 0 /\
    (forall v', same_page 0x400000 v' -> vmm_get_physical demo_root v' s' = 0) /\
    (forall v', ~ same_region 0x400000 v' ->
       vmm_get_physical demo_root v' s' = vmm_get_physical demo_root v' demo_vm) /\
    (forall v' e, leaf (pages demo_vm) demo_root 0x400000 = Some (false, e) -> ~ same_page 0x400000 v' ->
       vmm_get_physical demo_root v' s' = vmm_get_physical demo_root v' demo_vm))).
Proof. apply (vmm_unmap_page_correct demo_vm demo_root 0x400000). apply demo_vm_ok. Defined.

Definition demo_kernel_vm : vm (A:=pmm) := Vm (pages demo_vm) (frames demo_vm) demo_root (cr3 demo_vm).

Lemma vmm_create_address_space_correct_witness :
  let '(pml4, s') := vmm_create_address_space demo_kernel_vm in
  vm_ok s' demo_root /\
  (forall v, vmm_get_physical demo_root v s' = vmm_get_physical demo_root v demo_kernel_vm) /\
  (pml4 <> 0 ->
   vm_ok s' pml4 /\
   forall v, vmm_get_physical pml4 v s' =
     if 256 <=? PML4_INDEX v then vmm_get_physical demo_root v demo_kernel_vm else 0).
Proof.
  apply (vmm_create_address_space_correct demo_kernel_vm). unfold demo_kernel_vm.
  apply vm_ok_regs, demo_vm_ok.
Defined.

Lemma huge_nx_translation_wrong_witness :
  let '(ret, s') := vmm_map_page demo_root 0x400000 0x800000 (PTE_HUGE .| PTE_NX) demo_vm in
  ret = 0 -> Z.testbit (vmm_get_physical demo_root 0x400000 s') 63 = true.
Proof.
  apply (huge_nx_translation_wrong demo_vm demo_root 0x400000 0x800000 (PTE_HUGE .| PTE_NX));
    [apply demo_vm_ok|by vm_compute|by vm_compute].
Defined.

(** A page shared by two holders: frame 3 is mapped read-only with the
    copy-on-write mark and its reference count is 2. *)
Definition cow_flags : Z := PTE_USER .| PTE_COW.
Definition demo_cow : vm (A:=pmm) :=
  let s := (vmm_map_page demo_root 0x400000 0x3000 cow_flags demo_vm).2 in
  with_frames (pmm_ref_frame 0x3000 (frames s)) s.

Definition demo_pte : Z := 0x3000 .| cow_flags .| PTE_PRESENT.

Lemma demo_cow_ok : vm_ok demo_cow demo_root.
Proof.
  pose proof (vmm_map_page_leaf demo_vm demo_root 0x400000 0x3000 cow_flags demo_vm_ok) as Hm.
  unfold demo_cow. destruct (vmm_map_page _ _ _ _ _) as [ret s]. destruct Hm as [Hok _]. simpl.
  apply vm_ok_frames; [done|apply wf_ref_frame, Hok|]. intros b Hb Hu.
  destruct (decide (b = 0x3000)) as [->|Hne].
  - unfold pmm_ref_frame. simpl in *. by repeat case_if.
  - destruct (ref_other (S := pmm) (frames s) 0x3000 b) as [E _]; [|done|lia|].
    + split; [by exists 3|lia].
    + etransitivity; [exact E|done].
Qed.

Lemma cow_fault_correct_witness :
  match vmm_handle_page_fault 0x400000 7 demo_cow with
  | FaultResolved s' => vm_ok s' demo_root /\ cow_resolved demo_cow s' demo_root 0x400000 demo_pte
  | FaultKill s' => (alloc_frame (frames demo_cow)).1 = 0 /\
      forall v', leaf (pages s') demo_root v' = leaf (pages demo_cow) demo_root v'
  | FaultPanic => False
  end.
Proof.
  apply (cow_fault_correct demo_cow 0x400000 demo_pte).
  - apply demo_cow_ok.
  - by vm_compute.
  - by vm_compute.
  - split; [by exists 3|by vm_compute].
  - by vm_compute.
  - by vm_compute.
  - intros q t Hq Hw. change (vmm_current_address_space demo_cow) with demo_root in Hw.
    apply walk_all_tables in Hw; [|done]. intros ->. apply (bool_decide_eq_true_2 _) in Hw. vm_compute in Hw. discriminate.
Defined.

(** A read-only page of one holder, cloned and then written. *)
Definition demo_ro : vm (A:=pmm) := (vmm_map_page demo_root 0x400000 0x3000 PTE_USER demo_vm).2.
Definition demo_clone : Z * vm (A:=pmm) := vmm_create_address_space demo_ro.
Definition demo_cloned : bool * vm (A:=pmm) :=
  clone_pte demo_clone.1 0 0 2 (KERNEL_VMA_BASE + 19 * 4096) 0 demo_clone.2.
Definition demo_after : vm (A:=pmm) := release 0x3000 demo_cloned.2.

Lemma clone_loses_write_protection_witness :
  exists s3, vmm_handle_page_fault 0x400000 7 demo_after = FaultResolved s3 /\
    has_flag (pages s3 (KERNEL_VMA_BASE + 19 * 4096) 0) PTE_WRITABLE = true.
Proof.
  apply (clone_loses_write_protection demo_clone.2 demo_cloned.2 demo_after
           demo_clone.1 0 0 2 (KERNEL_VMA_BASE + 19 * 4096) 0 0x400000).
  - vm_compute; reflexivity.
  - vm_compute; reflexivity.
  - unfold demo_cloned. apply pair_true. vm_compute; reflexivity.
  - vm_compute; discriminate.
  - vm_compute; reflexivity.
  - unfold demo_after. apply release_pages.
  - vm_compute; reflexivity.
Defined.
