(* ===== verification/Buddy.v ===== *)
(** * The buddy allocator, [mm/buddy.c]

    One doubly linked free list per order, threaded through the free pages
    themselves, and [order_map], one byte per page.  A [buddy_node_t*] is the
    index of the page it lies in ([None] is NULL), so the [next] and [prev]
    fields of all nodes are two arrays indexed by page; [_page_idx] and
    [_page_addr] convert at the interface.  In memory the map occupies the first
    pages of the region; here it is an array of its own.  The two agree because
    no node lies in these pages: every free block and every block handed out or
    given back is above them ([bw_block], [block_ok]). *)

From S2P Require Import Prelude Dll.

Definition BUDDY_MAX_ORDER : Z := 10.
Definition BUDDY_PAGE_SIZE : Z := 4096.
Definition BUDDY_MAX_PAGES : Z := 65536.

Record buddy := Buddy {
  base_phys : Z;
  base_virt : Z;
  total_pages : Z;
  free_pages : Z;
  head : Z -> option Z;      (* free[order].head *)
  count : Z -> Z;            (* free[order].count *)
  order_map : Z -> Z;
  next : Z -> option Z;      (* node->next, by page *)
  prev : Z -> option Z;
  initialized : bool
}.

Definition set_head (o : Z) (h : option Z) (s : buddy) : buddy :=
  Buddy (base_phys s) (base_virt s) (total_pages s) (free_pages s) (upd (head s) o h) (count s)
    (order_map s) (next s) (prev s) (initialized s).
Definition set_count (o c : Z) (s : buddy) : buddy :=
  Buddy (base_phys s) (base_virt s) (total_pages s) (free_pages s) (head s) (upd (count s) o c)
    (order_map s) (next s) (prev s) (initialized s).
Definition set_order (i o : Z) (s : buddy) : buddy :=
  Buddy (base_phys s) (base_virt s) (total_pages s) (free_pages s) (head s) (count s)
    (upd (order_map s) i o) (next s) (prev s) (initialized s).
Definition set_next (i : Z) (n : option Z) (s : buddy) : buddy :=
  Buddy (base_phys s) (base_virt s) (total_pages s) (free_pages s) (head s) (count s)
    (order_map s) (upd (next s) i n) (prev s) (initialized s).
Definition set_prev (i : Z) (p : option Z) (s : buddy) : buddy :=
  Buddy (base_phys s) (base_virt s) (total_pages s) (free_pages s) (head s) (count s)
    (order_map s) (next s) (upd (prev s) i p) (initialized s).
Definition add_free (d : Z) (s : buddy) : buddy :=
  Buddy (base_phys s) (base_virt s) (total_pages s) (u64 (free_pages s + d)) (head s) (count s)
    (order_map s) (next s) (prev s) (initialized s).

Definition page_idx (s : buddy) (virt_addr : Z) : Z := u64 (virt_addr - base_virt s) / BUDDY_PAGE_SIZE.
Definition page_addr (s : buddy) (idx : Z) : Z := u64 (base_virt s + idx * BUDDY_PAGE_SIZE).
Definition buddy_idx (p order : Z) : Z := Z.lxor p (Z.shiftl 1 order).

(** ** List operations *)

Definition push (order idx : Z) (s : buddy) : buddy :=
  let h := head s order in
  let s := set_next idx h s in
  let s := set_prev idx None s in
  let s := match h with Some x => set_prev x (Some idx) s | None => s end in
  let s := set_head order (Some idx) s in
  let s := set_count order (u32 (count s order + 1)) s in
  set_order idx (u8 order) s.

(** [BUDDY_MAX_PAGES] when the list is empty. *)
Definition pop (order : Z) (s : buddy) : Z * buddy :=
  match head s order with
  | None => (BUDDY_MAX_PAGES, s)
  | Some node =>
      let n := next s node in
      let s := set_head order n s in
      let s := match n with Some x => set_prev x None s | None => s end in
      let s := set_count order (u32 (count s order - 1)) s in
      (node, set_order node 0xFF s)
  end.

Definition remove (order idx : Z) (s : buddy) : buddy :=
  let n := next s idx in
  let p := prev s idx in
  let s := match p with Some y => set_next y n s | None => set_head order n s end in
  let s := match n with Some x => set_prev x p s | None => s end in
  let s := set_count order (u32 (count s order - 1)) s in
  set_order idx 0xFF s.

Definition is_free (s : buddy) (idx order : Z) : bool :=
  (idx <? total_pages s) && (order_map s idx =? u8 order).

(** ** Initialisation *)

(** [while (aligned_p + blk <= limit)]: pushes blocks; returns the last [p]. *)
Fixpoint seed_order (fuel : nat) (ord blk aligned_p limit p : Z) (s : buddy) : Z * buddy :=
  match fuel with
  | O => (p, s)
  | S fuel =>
      if aligned_p + blk <=? limit then
        let s := push ord aligned_p s in
        let s := add_free blk s in
        seed_order fuel ord blk (aligned_p + blk) limit (aligned_p + blk) s
      else (p, s)
  end.

(** [for (ord = n - 1; ord >= 0 && p < limit; ord--)] *)
Fixpoint seed (n : nat) (limit p : Z) (s : buddy) : buddy :=
  match n with
  | O => s
  | S n =>
      if p <? limit then
        let blk := Z.shiftl 1 (Z.of_nat n) in
        let aligned_p := (p + blk - 1) .&~ (blk - 1) in
        let '(p, s) := seed_order (Z.to_nat BUDDY_MAX_PAGES) (Z.of_nat n) blk aligned_p limit p s in
        seed n limit p s
      else s
  end.

Definition buddy_init (phys virt size_bytes : Z) : buddy :=
  let total := Z.min (size_bytes / BUDDY_PAGE_SIZE) BUDDY_MAX_PAGES in
  let map_pages := (total + BUDDY_PAGE_SIZE - 1) / BUDDY_PAGE_SIZE in
  let s := Buddy phys virt total 0 (fun _ => None) (fun _ => 0) (fun _ => 0xFF)
             (fun _ => None) (fun _ => None) false in
  let npages := u64 (total - map_pages) in
  let s := seed 11 (u64 (map_pages + npages)) map_pages s in
  Buddy (base_phys s) (base_virt s) (total_pages s) (free_pages s) (head s) (count s)
    (order_map s) (next s) (prev s) true.

(** ** Allocation and release *)

(** The smallest order from [avail] on with a free block; above
    [BUDDY_MAX_ORDER] when there is none. *)
Fixpoint find_order (n : nat) (s : buddy) (avail : Z) : Z :=
  match n with
  | O => avail
  | S n => if (avail <=? BUDDY_MAX_ORDER) && (count s avail =? 0) then find_order n s (avail + 1)
           else avail
  end.

(** [while (avail > order)]: the upper half goes back to the free list. *)
Fixpoint split (n : nat) (order avail idx : Z) (s : buddy) : buddy :=
  match n with
  | O => s
  | S n => if order <? avail
           then split n order (avail - 1) idx (push (avail - 1) (idx + Z.shiftl 1 (avail - 1)) s)
           else s
  end.

(** The address of the block; 0 on failure. *)
Definition buddy_alloc (order : Z) (s : buddy) : Z * buddy :=
  if negb (initialized s) then (0, s)
  else if (order <? 0) || (BUDDY_MAX_ORDER <? order) then (0, s)
  else
    let avail := find_order 11 s order in
    if BUDDY_MAX_ORDER <? avail then (0, s)
    else
      let '(idx, s) := pop avail s in
      let s := split 10 order avail idx s in
      let s := add_free (- Z.shiftl 1 order) s in
      (page_addr s idx, s).

(** [while (order < BUDDY_MAX_ORDER)]: merge with the buddy while it is free. *)
Fixpoint coalesce (n : nat) (order idx : Z) (s : buddy) : Z * Z * buddy :=
  match n with
  | O => (order, idx, s)
  | S n =>
      if order <? BUDDY_MAX_ORDER then
        let b := buddy_idx idx order in
        if negb (is_free s b order) then (order, idx, s)
        else
          let s := remove order b s in
          coalesce n (order + 1) (if b <? idx then b else idx) s
      else (order, idx, s)
  end.

Definition buddy_free (virt_addr order : Z) (s : buddy) : buddy :=
  if negb (initialized s) then s
  else if (order <? 0) || (BUDDY_MAX_ORDER <? order) then s
  else
    let idx := page_idx s virt_addr in
    if total_pages s <=? idx then s
    else
      let '(order, idx, s) := coalesce 10 order idx s in
      add_free (Z.shiftl 1 order) (push order idx s).

Definition buddy_free_bytes (s : buddy) : Z := u64 (free_pages s * BUDDY_PAGE_SIZE).

(** ** The free blocks *)

(** The pages that hold [order_map]. *)
Definition order_map_pages (total : Z) : Z := (total + 4095) / 4096.

(** The list of order [o]; no other node is linked through its nodes. *)
Record buddy_wf (s : buddy) (free : Z -> list Z) : Prop := {
  bw_dll o : 0 <= o <= 10 -> dll (next s) (prev s) None (head s o) (free o);
  bw_count o : 0 <= o <= 10 -> count s o = Z.of_nat (length (free o));
  bw_block o x : 0 <= o <= 10 -> x ∈ free o ->
    0 <= order_map_pages (total_pages s) <= x /\ x + 2 ^ o <= total_pages s /\ (2 ^ o | x);
  bw_nodup o : 0 <= o <= 10 -> NoDup (free o);
  (** Blocks do not overlap: a page belongs to one block at most. *)
  bw_disj o1 o2 x1 x2 p : 0 <= o1 <= 10 -> 0 <= o2 <= 10 -> x1 ∈ free o1 -> x2 ∈ free o2 ->
    x1 <= p < x1 + 2 ^ o1 -> x2 <= p < x2 + 2 ^ o2 -> o1 = o2 /\ x1 = x2;
  bw_map x o : 0 <= o <= 10 -> 0 <= x < total_pages s -> (order_map s x = o <-> x ∈ free o);
  bw_total : 0 <= total_pages s <= 65536;
  bw_virt : 0 <= base_virt s /\ base_virt s + 65536 * 4096 < 2 ^ 64 /\ base_virt s <> 0
}.

(** The pages of the free blocks. *)
Definition free_page (free : Z -> list Z) (p : Z) : Prop :=
  exists o x, 0 <= o <= 10 /\ x ∈ free o /\ x <= p < x + 2 ^ o.

(** A block of order [o] at page [x] inside the region, behind the map. *)
Definition block_ok (s : buddy) (o x : Z) : Prop :=
  0 <= o <= 10 /\ 0 <= order_map_pages (total_pages s) <= x /\ x + 2 ^ o <= total_pages s /\ (2 ^ o | x).

(** None of its pages is free. *)
Definition block_out (free : Z -> list Z) (o x : Z) : Prop :=
  forall p, x <= p < x + 2 ^ o -> ~ free_page free p.

Lemma pow2_pos o : 0 <= o -> 0 < 2 ^ o.
Proof. intros. by apply Z.pow_pos_nonneg. Qed.

Lemma wf_in_page s free o x : buddy_wf s free -> 0 <= o <= 10 -> x ∈ free o -> free_page free x.
Proof. intros Hw Ho Hx. exists o, x. pose proof (pow2_pos o). split_and!; (done || lia). Qed.

Lemma wf_other_list s free o o' x :
  buddy_wf s free -> 0 <= o <= 10 -> 0 <= o' <= 10 -> x ∈ free o -> x ∈ free o' -> o = o'.
Proof.
  intros Hw Ho Ho' Hx Hx'. pose proof (pow2_pos o). pose proof (pow2_pos o').
  destruct (bw_disj _ _ Hw o o' x x x) as [? _]; (done || lia).
Qed.

Lemma nodup_range_len l n : NoDup l -> (forall x, x ∈ l -> 0 <= x < n) -> Z.of_nat (length l) <= Z.max 0 n.
Proof.
  intros Hnd Hr. assert (l ⊆+ seqZ 0 n) as Hs.
  { apply NoDup_submseteq; [done|]. intros x Hx. apply elem_of_seqZ. by apply Hr. }
  apply submseteq_length in Hs. rewrite length_seqZ in Hs. lia.
Qed.

Lemma wf_len s free o : buddy_wf s free -> 0 <= o <= 10 -> Z.of_nat (length (free o)) <= 65536.
Proof.
  intros Hw Ho. pose proof (bw_total _ _ Hw). pose proof (pow2_pos o).
  enough (Z.of_nat (length (free o)) <= Z.max 0 (total_pages s)) by lia.
  apply nodup_range_len; [by apply Hw|]. intros x Hx.
  destruct (bw_block _ _ Hw o x Ho Hx) as (? & ? & _). lia.
Qed.

(** The fields after a push. *)
Lemma push_fields s o x :
  let s' := push o x s in
  head s' = upd (head s) o (Some x) /\ count s' = upd (count s) o (u32 (count s o + 1)) /\
  order_map s' = upd (order_map s) x (u8 o) /\ next s' = upd (next s) x (head s o) /\
  prev s' = (match head s o with
             | Some y => upd (upd (prev s) x None) y (Some x) | None => upd (prev s) x None end) /\
  total_pages s' = total_pages s /\ base_virt s' = base_virt s /\ free_pages s' = free_pages s /\
  initialized s' = initialized s.
Proof. unfold push. destruct (head s o); by split_and!. Qed.

(** Changing only the list of order [o]: what remains to be shown. *)
Lemma wf_change s s' free o l :
  buddy_wf s free -> 0 <= o <= 10 ->
  total_pages s' = total_pages s -> base_virt s' = base_virt s ->
  dll (next s') (prev s') None (head s' o) l ->
  (forall o', 0 <= o' <= 10 -> o' <> o -> head s' o' = head s o' /\ count s' o' = count s o') ->
  (forall o' y, 0 <= o' <= 10 -> o' <> o -> y ∈ free o' -> next s' y = next s y /\ prev s' y = prev s y) ->
  count s' o = Z.of_nat (length l) -> NoDup l ->
  (forall x, x ∈ l -> block_ok s o x) ->
  (forall x o2 x2 p, x ∈ l -> 0 <= o2 <= 10 -> x2 ∈ upd free o l o2 ->
     x <= p < x + 2 ^ o -> x2 <= p < x2 + 2 ^ o2 -> o = o2 /\ x = x2) ->
  (forall x o', 0 <= o' <= 10 -> 0 <= x < total_pages s ->
     (order_map s' x = o' <-> x ∈ upd free o l o')) ->
  buddy_wf s' (upd free o l).
Proof.
  intros Hw Ho Ht Hb Hd Hh Hn Hc Hnd Hblk Hdisj Hmap.
  assert (forall o', 0 <= o' <= 10 -> o' <> o -> upd free o l o' = free o') as Hu
    by (intros o' _ Hne; by apply upd_ne).
  split; rewrite ?Ht, ?Hb; try apply Hw.
  - intros o' Ho'. destruct (decide (o' = o)) as [->|Hne]; [by rewrite upd_eq|].
    rewrite Hu by done. destruct (Hh o' Ho' Hne) as [-> _].
    eapply dll_ext; [|by apply (bw_dll _ _ Hw)]. intros y Hy. by apply (Hn o').
  - intros o' Ho'. destruct (decide (o' = o)) as [->|Hne]; [by rewrite upd_eq|].
    rewrite Hu by done. destruct (Hh o' Ho' Hne) as [_ ->]. by apply Hw.
  - intros o' x Ho'. destruct (decide (o' = o)) as [->|Hne].
    + rewrite upd_eq. intros Hx. by destruct (Hblk x Hx) as (_ & ? & ? & ?).
    + rewrite Hu by done. by apply Hw.
  - intros o' Ho'. destruct (decide (o' = o)) as [->|Hne]; [by rewrite upd_eq|].
    rewrite Hu by done. by apply Hw.
  - intros o1 o2 x1 x2 p Ho1 Ho2 H1 H2 P1 P2. destruct (decide (o1 = o)) as [->|Hne1].
    + rewrite upd_eq in H1. by apply (Hdisj x1 o2 x2 p).
    + destruct (decide (o2 = o)) as [->|Hne2].
      * pose proof H2 as H2'. rewrite upd_eq in H2'.
        destruct (Hdisj x2 o1 x1 p H2' Ho1 H1 P2 P1) as [-> ->]. done.
      * rewrite Hu in * by done. by apply (bw_disj _ _ Hw o1 o2 x1 x2 p).
  - intros x o' Ho' Hx. by apply Hmap.
Qed.

(** Putting a block on its list. *)
Lemma push_spec s free o x :
  buddy_wf s free -> block_ok s o x -> block_out free o x ->
  buddy_wf (push o x s) (upd free o (x :: free o)).
Proof.
  intros Hw Hblk Hout. destruct Hblk as (Ho & Hx0 & Hxt & Hxd).
  pose proof (pow2_pos o ltac:(lia)) as Hpow.
  assert (forall o', 0 <= o' <= 10 -> x ∉ free o') as Hnew.
  { intros o' Ho' Hx. apply (Hout x); [lia|]. by apply (wf_in_page s free o'). }
  destruct (push_fields s o x) as (E1 & E2 & E3 & E4 & E5 & E6 & E7 & _).
  apply (wf_change s); try done; rewrite ?E1, ?E2, ?E3, ?E4, ?E5.
  - rewrite upd_eq. by apply dll_push; [apply Hnew|apply Hw|apply Hw].
  - intros o' Ho' Hne. by rewrite !upd_ne.
  - intros o' y Ho' Hne Hy. assert (y <> x) by (intros ->; by apply (Hnew o')).
    rewrite upd_ne by done. split; [done|]. destruct (head s o) as [h|] eqn:Eh; [|by apply upd_ne].
    rewrite !upd_ne; [done|done|]. intros ->. apply Hne. symmetry. apply (wf_other_list s free o o' h); try done.
    pose proof (bw_dll _ _ Hw o Ho) as Hd. destruct (free o) as [|h' l]; simpl in Hd; [congruence|].
    destruct Hd as [Hd _]. rewrite Hd in Eh. injection Eh as ->. apply elem_of_cons. by left.
  - rewrite upd_eq, (bw_count _ _ Hw) by done. pose proof (wf_len s free o Hw Ho).
    rewrite u32_small; cbn [length]; lia.
  - constructor; [by apply Hnew|by apply Hw].
  - intros y [->|Hy]%elem_of_cons; [done|]. split; [done|]. by apply Hw.
  - intros y o2 x2 p [->|Hy]%elem_of_cons Ho2 H2 P1 P2.
    + unfold upd in H2. destruct (Z.eqb_spec o2 o) as [->|Hne].
      * apply elem_of_cons in H2 as [->|H2]; [done|]. exfalso. apply (Hout p); [done|]. by exists o, x2.
      * exfalso. apply (Hout p); [done|]. by exists o2, x2.
    + unfold upd in H2. destruct (Z.eqb_spec o2 o) as [->|Hne].
      * apply elem_of_cons in H2 as [->|H2]; [exfalso; apply (Hout p); [done|]; by exists o, y|].
        by apply (bw_disj _ _ Hw o o y x2 p).
      * by apply (bw_disj _ _ Hw o o2 y x2 p).
  - intros y o' Ho' Hy. unfold upd at 1. destruct (Z.eqb_spec y x) as [->|Hne].
    + rewrite u8_small by lia. unfold upd. destruct (Z.eqb_spec o' o) as [->|Hne'].
      * split; [|done]. intros _. apply elem_of_cons. by left.
      * split; [congruence|]. intros Hx. by destruct (Hnew o' Ho').
    + rewrite (bw_map _ _ Hw) by done. unfold upd. destruct (Z.eqb_spec o' o) as [->|]; [|done].
      rewrite elem_of_cons. split; [by right|]. by intros [?|?].
Qed.

Lemma remove_fields s o x :
  let s' := remove o x s in
  head s' = (match prev s x with Some _ => head s | None => upd (head s) o (next s x) end) /\
  count s' = upd (count s) o (u32 (count s o - 1)) /\ order_map s' = upd (order_map s) x 0xFF /\
  next s' = (match prev s x with Some y => upd (next s) y (next s x) | None => next s end) /\
  prev s' = (match next s x with Some z => upd (prev s) z (prev s x) | None => prev s end) /\
  total_pages s' = total_pages s /\ base_virt s' = base_virt s /\ free_pages s' = free_pages s /\
  initialized s' = initialized s.
Proof. unfold remove. destruct (prev s x), (next s x); by split_and!. Qed.

(** Taking a block off its list. *)
Lemma remove_spec s free o x :
  buddy_wf s free -> 0 <= o <= 10 -> x ∈ free o ->
  exists l, (free o ≡ₚ x :: l) /\ buddy_wf (remove o x s) (upd free o l) /\
    block_ok s o x /\ block_out (upd free o l) o x.
Proof.
  intros Hw Ho Hx. apply list_elem_of_split in Hx as Hsp. destruct Hsp as (l1 & l2 & El).
  exists (l1 ++ l2). assert (free o ≡ₚ (x :: l1 ++ l2)) as Hp by (rewrite El; symmetry; apply Permutation_middle).
  pose proof (bw_nodup _ _ Hw o Ho) as Hnd. pose proof (bw_dll _ _ Hw o Ho) as Hd. rewrite El in Hnd, Hd.
  destruct (dll_remove _ _ _ _ _ _ _ Hnd Hd) as [Hpx Hd'].
  assert ((x ∉ l1 ++ l2) /\ NoDup (l1 ++ l2)) as [Hxl Hndl].
  { rewrite <- Permutation_middle in Hnd. by apply NoDup_cons in Hnd. }
  assert (forall y, y ∈ l1 ++ l2 -> y ∈ free o) as Hsub by (intros y Hy; rewrite Hp; apply elem_of_cons; by right).
  destruct (bw_block _ _ Hw o x Ho Hx) as (B1 & B2 & B3).
  destruct (remove_fields s o x) as (E1 & E2 & E3 & E4 & E5 & E6 & E7 & _).
  assert (forall o' y, 0 <= o' <= 10 -> o' <> o -> y ∈ free o' -> y ∉ free o) as Hoth.
  { intros o' y Ho' Hne Hy Hy'. apply Hne. by apply (wf_other_list s free o' o y). }
  split; [done|]. split; [|split; [done|]].
  - apply (wf_change s); try done; rewrite ?E1, ?E2, ?E3, ?E4, ?E5.
    + rewrite Hpx in Hd' |- *. destruct (last l1) eqn:El1; [done|]. by rewrite upd_eq.
    + intros o' Ho' Hne. rewrite upd_ne by done. split; [|done]. destruct (prev s x); [done|]. by apply upd_ne.
    + intros o' y Ho' Hne Hy. pose proof (Hoth o' y Ho' Hne Hy) as Hyo.
      pose proof (dll_next _ _ _ _ _ _ _ Hd) as Hnx. split.
      * rewrite Hpx. destruct (last l1) as [w|] eqn:El1; [|done]. apply upd_ne. intros ->.
        apply Hyo. rewrite El. apply elem_of_app. left. by apply last_Some_elem_of.
      * destruct (next s x) as [z|]; [|done]. apply upd_ne. intros ->.
        apply Hyo. rewrite El. apply elem_of_app. right. apply elem_of_cons. right.
        by apply list_elem_of_lookup_2 with 0%nat.
    + rewrite upd_eq, (bw_count _ _ Hw) by done. pose proof (wf_len s free o Hw Ho).
      apply Permutation_length in Hp. cbn [length] in Hp. rewrite Hp in *. rewrite u32_small; lia.
    + intros y Hy. split; [done|]. by apply (bw_block _ _ Hw), Hsub.
    + intros y o2 x2 p Hy Ho2 H2 P1 P2. apply (bw_disj _ _ Hw o o2 y x2 p); try done; [by apply Hsub|].
      unfold upd in H2. destruct (Z.eqb_spec o2 o) as [->|]; [by apply Hsub|done].
    + intros y o' Ho' Hy. unfold upd at 1. destruct (Z.eqb_spec y x) as [->|Hne].
      * split; [lia|]. unfold upd. destruct (Z.eqb_spec o' o) as [->|Hne']; [done|].
        intros Hx'. by destruct (Hoth o' x).
      * rewrite (bw_map _ _ Hw) by done. unfold upd. destruct (Z.eqb_spec o' o) as [->|]; [|done].
        rewrite Hp, elem_of_cons. split; [by intros [?|?]|by right].
  - intros p Hpr (o2 & x2 & Ho2 & H2 & P2).
    assert (o = o2 /\ x = x2) as [<- <-].
    { apply (bw_disj _ _ Hw o o2 x x2 p); try done.
      unfold upd in H2. destruct (Z.eqb_spec o2 o) as [->|]; [by apply Hsub|done]. }
    rewrite upd_eq in H2. done.
Qed.

(** ** Allocation *)

(** The pages of the free lists when one list gains or loses a block. *)
Lemma free_page_perm free o x l p :
  0 <= o <= 10 -> free o ≡ₚ x :: l ->
  free_page free p <-> free_page (upd free o l) p \/ x <= p < x + 2 ^ o.
Proof.
  intros Ho Hp. split.
  - intros (o' & y & Ho' & Hy & Hr). destruct (decide (o' = o)) as [->|Hne].
    + rewrite Hp in Hy. apply elem_of_cons in Hy as [->|Hy]; [by right|left].
      exists o, y. rewrite upd_eq. done.
    + left. exists o', y. by rewrite upd_ne.
  - intros [(o' & y & Ho' & Hy & Hr)|Hr].
    + exists o', y. split; [done|]. split; [|done]. unfold upd in Hy.
      destruct (Z.eqb_spec o' o) as [->|]; [|done]. rewrite Hp. apply elem_of_cons. by right.
    + exists o, x. split; [done|]. split; [|done]. rewrite Hp. apply elem_of_cons. by left.
Qed.

Lemma free_page_push free o x p :
  0 <= o <= 10 ->
  free_page (upd free o (x :: free o)) p <-> free_page free p \/ x <= p < x + 2 ^ o.
Proof.
  intros Ho. rewrite (free_page_perm (upd free o (x :: free o)) o x (free o)); [|done|by rewrite upd_eq].
  assert (forall q, free_page (upd (upd free o (x :: free o)) o (free o)) q <-> free_page free q) as Heq.
  { assert (forall o', upd (upd free o (x :: free o)) o (free o) o' = free o') as Hu.
    { intros o'. destruct (decide (o' = o)) as [->|]; [apply upd_eq|by rewrite !upd_ne]. }
    intros q. unfold free_page. by setoid_rewrite Hu. }
  by rewrite Heq.
Qed.

(** The head of a list is unlinked by [pop] as by [remove]. *)
Lemma pop_spec s free o :
  buddy_wf s free -> 0 <= o <= 10 -> free o <> [] ->
  exists x l s', pop o s = (x, s') /\ (free o ≡ₚ x :: l) /\ buddy_wf s' (upd free o l) /\
    block_ok s o x /\ block_out (upd free o l) o x /\
    total_pages s' = total_pages s /\ base_virt s' = base_virt s.
Proof.
  intros Hw Ho Hne. pose proof (bw_dll _ _ Hw o Ho) as Hd.
  destruct (free o) as [|x r] eqn:E; [done|]. destruct Hd as (Hh & Hp & _).
  assert (x ∈ free o) as Hx by (rewrite E; apply elem_of_cons; by left).
  destruct (remove_spec s free o x Hw Ho Hx) as (l & Hpl & Hw' & Hb & Hout).
  exists x, l, (remove o x s). rewrite E in Hpl. split_and!; try done.
  - unfold pop, remove. rewrite Hh, Hp. by destruct (next s x).
  - by destruct (remove_fields s o x) as (_ & _ & _ & _ & _ & ? & _).
  - by destruct (remove_fields s o x) as (_ & _ & _ & _ & _ & _ & ? & _).
Qed.

Lemma find_order_spec n s free order :
  buddy_wf s free -> 0 <= order <= 11 -> 11 - order <= Z.of_nat n ->
  let a := find_order n s order in
  order <= a <= 11 /\ (forall o, order <= o < a -> free o = []) /\ (a <= 10 -> free a <> []).
Proof.
  intros Hw. revert order. induction n as [|n IH]; intros order Ho Hn; cbn [find_order].
  { split; [lia|]. split; lia. }
  unfold BUDDY_MAX_ORDER. destruct (Z.leb_spec order 10); cbn [andb]; [|split; [lia|]; split; lia].
  destruct (Z.eqb_spec (count s order) 0) as [Hc|Hc].
  - destruct (IH (order + 1)) as (H1 & H2 & H3); [lia|lia|]. split; [lia|]. split; [|done].
    intros o Hr. destruct (decide (o = order)) as [->|]; [|apply H2; lia].
    rewrite (bw_count _ _ Hw) in Hc by lia. destruct (free order); [done|simpl in Hc; lia].
  - split; [lia|]. split; [lia|]. intros _ Hf. apply Hc. rewrite (bw_count _ _ Hw), Hf by lia. done.
Qed.

(** Splitting: the upper halves go back, the lowest [2 ^ order] pages stay. *)
Lemma split_spec n s free order avail idx :
  buddy_wf s free -> 0 <= order <= avail -> avail - order <= Z.of_nat n ->
  block_ok s avail idx -> block_out free avail idx ->
  exists free', buddy_wf (split n order avail idx s) free' /\
    block_ok (split n order avail idx s) order idx /\ block_out free' order idx /\
    (forall p, free_page free' p <-> free_page free p \/ idx + 2 ^ order <= p < idx + 2 ^ avail) /\
    base_virt (split n order avail idx s) = base_virt s /\
    total_pages (split n order avail idx s) = total_pages s.
Proof.
  revert s free avail. induction n as [|n IH]; intros s free avail Hw Ho Hn Hb Hout; cbn [split].
  { assert (avail = order) as -> by lia. exists free. split_and!; try done. intros p. split; [by left|].
    intros [?|?]; [done|lia]. }
  destruct (Z.ltb_spec order avail) as [Hlt|Hge].
  2: { assert (avail = order) as -> by lia. exists free. split_and!; try done. intros p. split; [by left|].
       intros [?|?]; [done|lia]. }
  destruct Hb as (Ha & Hi0 & Hit & [q Hq]).
  assert (2 ^ avail = 2 * 2 ^ (avail - 1)) as Hpow by (rewrite <- Z.pow_succ_r by lia; f_equal; lia).
  pose proof (pow2_pos (avail - 1) ltac:(lia)) as Hpp.
  rewrite Z.shiftl_1_l. set (h := idx + 2 ^ (avail - 1)).
  destruct (push_fields s (avail - 1) h) as (_ & _ & _ & _ & _ & Ht & Hv & _).
  destruct (IH (push (avail - 1) h s) (upd free (avail - 1) (h :: free (avail - 1))) (avail - 1))
    as (free' & F1 & F2 & F3 & F4 & F5 & F6).
  - apply push_spec; [done| |].
    + unfold block_ok, h. split_and!; try lia. exists (2 * q + 1). lia.
    + intros p Hr. apply Hout. unfold h in Hr. lia.
  - lia.
  - lia.
  - unfold block_ok. rewrite Ht. split_and!; try lia. exists (2 * q). lia.
  - intros p Hr Hf. apply free_page_push in Hf; [|lia]. unfold h in Hf.
    destruct Hf as [Hf|Hf]; [|lia]. apply (Hout p); [lia|done].
  - exists free'. rewrite F5, F6. split_and!; try done. intros p. rewrite F4, free_page_push by lia.
    assert (2 ^ order <= 2 ^ (avail - 1)) by (apply Z.pow_le_mono_r; lia). unfold h.
    split; [intros [[?|?]|?]; [by left|right; lia|right; lia]|].
    intros [?|?]; [by left; left|]. destruct (decide (p < idx + 2 ^ (avail - 1))); [right; lia|left; right; lia].
Qed.

Lemma wf_add_free s free d : buddy_wf s free -> buddy_wf (add_free d s) free.
Proof. intros [H1 H2 H3 H4 H5 H6 H7 H8]. by split. Qed.

(** C14: [buddy_alloc] returns an aligned block of [2 ^ order] pages,
    all of them free before, and afterwards exactly the other pages are free;
    it fails, changing nothing, only when no block of that order or above is
    free.  The free lists, the counts and the order map stay consistent. *)
Theorem buddy_alloc_correct (s : buddy) (free : Z -> list Z) (order : Z) :
  buddy_wf s free -> initialized s = true -> 0 <= order <= 10 ->
  let '(a, s') := buddy_alloc order s in
  (exists idx free', a = base_virt s + idx * 4096 /\ block_ok s order idx /\
     buddy_wf s' free' /\ block_out free' order idx /\
     forall p, free_page free p <-> free_page free' p \/ idx <= p < idx + 2 ^ order) \/
  (a = 0 /\ s' = s /\ forall o, order <= o <= 10 -> free o = []).
Proof.
  intros Hw Hi Ho. unfold buddy_alloc. rewrite Hi. cbn [negb]. unfold BUDDY_MAX_ORDER.
  rewrite (proj2 (Z.ltb_ge order 0)), (proj2 (Z.ltb_ge 10 order)) by lia. cbn [orb].
  destruct (find_order_spec 11 s free order Hw ltac:(lia) ltac:(lia)) as (Ha & Hempty & Hne).
  set (avail := find_order 11 s order) in *. destruct (Z.ltb_spec 10 avail) as [Hgt|Hle].
  { right. split_and!; try done. intros o Hr. apply Hempty. lia. }
  destruct (pop_spec s free avail Hw ltac:(lia) (Hne Hle))
    as (x & l & s1 & -> & Hperm & Hw1 & Hb & Hout & Ht & Hv). left.
  destruct (split_spec 10 s1 (upd free avail l) order avail x) as (free' & F1 & F2 & F3 & F4 & F5 & F6);
    [done|lia|lia|unfold block_ok in *; by rewrite Ht|done|].
  exists x, free'. assert (block_ok s order x) as Hbx by (unfold block_ok in *; by rewrite F6, Ht in F2).
  split_and!; try done.
  - unfold page_addr, BUDDY_PAGE_SIZE. cbn [base_virt add_free]. rewrite F5, Hv.
    destruct (bw_virt _ _ Hw) as (V1 & V2 & _). pose proof (bw_total _ _ Hw).
    destruct Hbx as (_ & X1 & X2 & _). pose proof (pow2_pos order). rewrite u64_small; lia.
  - by apply wf_add_free.
  - intros p. rewrite (free_page_perm free avail x l) by (done || lia). rewrite F4.
    assert (2 ^ order <= 2 ^ avail) by (apply Z.pow_le_mono_r; lia).
    split; [intros [?|?]; [by left; left|]|intros [[?|?]|?]; [by left|right; lia|right; lia]].
    destruct (decide (p < x + 2 ^ order)); [right; lia|left; right; lia].
Qed.

(** ** Release *)

Lemma lxor_1_even k : Z.lxor (2 * k) 1 = 2 * k + 1.
Proof.
  apply Z.bits_inj_iff'. intros n Hn. rewrite Z.lxor_spec.
  destruct (decide (n = 0)) as [->|]; [by rewrite Z.testbit_even_0, Z.testbit_odd_0|].
  rewrite (Z.bits_above_log2 1 n) by (simpl; lia). rewrite xorb_false_r.
  replace n with (Z.succ (n - 1)) by lia. by rewrite Z.testbit_even_succ, Z.testbit_odd_succ by lia.
Qed.

Lemma lxor_1 q : Z.lxor q 1 = if Z.even q then q + 1 else q - 1.
Proof.
  destruct (Z.even q) eqn:E.
  - apply Z.even_spec in E as [k ->]. apply lxor_1_even.
  - rewrite <- Z.negb_odd in E. apply negb_false_iff, Z.odd_spec in E as [k ->].
    rewrite <- lxor_1_even at 1. rewrite Z.lxor_assoc, Z.lxor_nilpotent, Z.lxor_0_r. lia.
Qed.

(** The buddy of an aligned block is its other half at the next order. *)
Lemma buddy_idx_cases x o :
  0 <= o -> (2 ^ o | x) ->
  let b := buddy_idx x o in
  (b = x + 2 ^ o /\ (2 ^ (o + 1) | x)) \/ (b = x - 2 ^ o /\ (2 ^ (o + 1) | b)).
Proof.
  intros Ho [q ->]. unfold buddy_idx. simpl. pose proof (pow2_pos o Ho).
  rewrite <- !Z.shiftl_mul_pow2, <- Z.shiftl_lxor, lxor_1 by lia.
  replace (2 ^ (o + 1)) with (2 * 2 ^ o) by (rewrite <- Z.pow_succ_r by lia; f_equal; lia).
  rewrite !Z.shiftl_mul_pow2 by lia.
  destruct (Z.even q) eqn:E.
  - left. split; [lia|]. apply Z.even_spec in E as [k ->]. exists k. lia.
  - right. split; [lia|]. rewrite <- Z.negb_odd in E. apply negb_false_iff, Z.odd_spec in E as [k ->].
    exists k. lia.
Qed.

(** Free blocks start outside a block that is out. *)
Lemma apart_of_block s free order idx :
  buddy_wf s free -> block_out free order idx -> forall o x, 0 <= o <= 10 ->
  x ∈ free o <-> x ∈ free o /\ ~ (idx <= x < idx + 2 ^ order).
Proof.
  intros Hw Hout o x Ho. split; [|tauto]. intros Hx. split; [done|]. intros Hr.
  apply (Hout x Hr). by apply (wf_in_page s free o).
Qed.

Lemma is_free_in s free x o : buddy_wf s free -> 0 <= o <= 10 -> x ∈ free o -> is_free s x o = true.
Proof.
  intros Hw Ho Hx. destruct (bw_block _ _ Hw o x Ho Hx) as (B1 & B2 & _). pose proof (pow2_pos o ltac:(lia)).
  unfold is_free. rewrite (proj2 (Z.ltb_lt _ _)), u8_small by lia. apply Z.eqb_eq.
  apply (bw_map _ _ Hw); [done|lia|done].
Qed.

(** Merging keeps the set of free pages together with the block in hand, and
    ends with a block whose buddy is not free; the blocks that it absorbed are
    the only ones that leave the lists. *)
Lemma coalesce_spec n s free order idx :
  buddy_wf s free -> block_ok s order idx -> block_out free order idx -> 10 <= order + Z.of_nat n ->
  let '(o', x', s') := coalesce n order idx s in
  exists free', buddy_wf s' free' /\ block_ok s' o' x' /\ block_out free' o' x' /\ order <= o' /\
    (forall p, free_page free' p \/ x' <= p < x' + 2 ^ o' <->
               free_page free p \/ idx <= p < idx + 2 ^ order) /\
    total_pages s' = total_pages s /\ free_pages s' = free_pages s /\
    (x' <= idx /\ idx + 2 ^ order <= x' + 2 ^ o') /\
    (forall o x, 0 <= o <= 10 -> x ∈ free' o <-> x ∈ free o /\ ~ (x' <= x < x' + 2 ^ o')) /\
    (o' < 10 -> buddy_idx x' o' ∉ free' o').
Proof.
  revert s free order idx. induction n as [|n IH]; intros s free order idx Hw Hb Hout Hn; cbn [coalesce].
  { exists free. split_and!; try done; [by eapply apart_of_block|]. lia. }
  unfold BUDDY_MAX_ORDER. destruct (Z.ltb_spec order 10) as [Hlt|].
  2: { exists free. split_and!; try done; [by eapply apart_of_block|]. lia. }
  set (b := buddy_idx idx order). destruct (is_free s b order) eqn:Ef; cbn [negb].
  2: { exists free. split_and!; try done; [by eapply apart_of_block|]. intros _ Hin. fold b in Hin.
       by rewrite (is_free_in s free b order Hw (proj1 Hb) Hin) in Ef. }
  destruct Hb as (Ho & Hi0 & Hit & Hd). unfold is_free in Ef. bools.
  rewrite u8_small in * by lia. pose proof (pow2_pos order ltac:(lia)) as Hpos.
  assert (2 ^ (order + 1) = 2 * 2 ^ order) as Hpow by (rewrite <- Z.pow_succ_r by lia; f_equal; lia).
  assert (0 <= b) as Hb0.
  { destruct (buddy_idx_cases idx order ltac:(lia) Hd) as [[E _]|[E [k Hk]]]; fold b in E; [lia|].
    fold b in Hk. rewrite Hpow in Hk.
    assert (0 <= 2 * k + 1) by (apply (Z.mul_le_mono_pos_r _ _ (2 ^ order)); lia). nia. }
  assert (b ∈ free order) as Hbin by by apply (bw_map _ _ Hw).
  destruct (remove_spec s free order b Hw Ho Hbin) as (l & Hpl & Hw1 & (_ & Hbl & Hbt & _) & Hout1).
  destruct (remove_fields s order b) as (_ & _ & _ & _ & _ & Ht & _ & Hfp & _).
  set (x1 := if b <? idx then b else idx).
  assert (x1 <= idx < x1 + 2 ^ (order + 1) /\ (2 ^ (order + 1) | x1) /\ 0 <= order_map_pages (total_pages s) <= x1 /\
          x1 + 2 ^ (order + 1) <= total_pages s /\
          forall p, x1 <= p < x1 + 2 ^ (order + 1) <->
                    idx <= p < idx + 2 ^ order \/ b <= p < b + 2 ^ order) as (X1 & X2 & X3 & X4 & X5).
  { unfold x1. destruct (buddy_idx_cases idx order ltac:(lia) Hd) as [[E E']|[E E']];
      fold b in E, E'; rewrite Hpow in *.
    - rewrite (proj2 (Z.ltb_ge b idx)) by lia. split_and!; (done || lia).
    - rewrite (proj2 (Z.ltb_lt b idx)) by lia. split_and!; (done || lia). }
  specialize (IH (remove order b s) (upd free order l) (order + 1) x1 Hw1).
  assert (block_ok (remove order b s) (order + 1) x1) as Hok1 by (unfold block_ok; rewrite Ht; split_and!; (done || lia)).
  assert (block_out (upd free order l) (order + 1) x1) as Hout2.
  { intros p Hp Hf. apply X5 in Hp as [Hp|Hp]; [|by apply (Hout1 p)].
    apply (Hout p); [done|]. apply (free_page_perm free order b l); [lia|done|by left]. }
  specialize (IH Hok1 Hout2 ltac:(lia)).
  destruct (coalesce n (order + 1) x1 (remove order b s)) as [[o' x'] s'].
  destruct IH as (free' & F1 & F2 & F3 & F4 & F5 & F6 & F7 & F8 & F9 & F10). exists free'.
  pose proof (proj2 (X5 idx) ltac:(left; lia)). pose proof (proj2 (X5 (idx + 2 ^ order - 1)) ltac:(left; lia)).
  pose proof (proj2 (X5 b) ltac:(right; lia)).
  split_and!; try done; [lia| |congruence|congruence|lia|lia|].
  - intros p. rewrite F5, X5, (free_page_perm free order b l) by (done || lia). tauto.
  - intros o x Hox. rewrite F9 by done. unfold upd. destruct (Z.eqb_spec o order) as [->|]; [|done].
    rewrite Hpl, elem_of_cons. split; [tauto|]. intros [[->|?] Hx]; [exfalso; apply Hx; lia|done].
Qed.

(** No two buddies of an order below the largest are both free. *)
Definition merged (free : Z -> list Z) : Prop :=
  forall o x, 0 <= o < 10 -> x ∈ free o -> buddy_idx x o ∉ free o.

Lemma buddy_idx_twice x o : buddy_idx (buddy_idx x o) o = x.
Proof. unfold buddy_idx. by rewrite Z.lxor_assoc, Z.lxor_nilpotent, Z.lxor_0_r. Qed.

Lemma merged_add free free' o' x' :
  0 <= o' <= 10 ->
  (forall o x, 0 <= o <= 10 -> x ∈ free' o <-> (o = o' /\ x = x') \/ (x ∈ free o /\ ~ (x' <= x < x' + 2 ^ o'))) ->
  (o' < 10 -> buddy_idx x' o' ∉ free' o') -> merged free -> merged free'.
Proof.
  intros Ho' Hin Hb Hm o x Ho Hx Hx2. apply Hin in Hx as Hx'; [|lia]. apply Hin in Hx2 as Hx2'; [|lia].
  destruct Hx' as [[-> ->]|[Hx' _]]; [by apply Hb in Hx2; [|lia]|].
  destruct Hx2' as [[-> E]|[Hx2' _]]; [|by apply (Hm o x)].
  apply Hb; [lia|]. by rewrite <- E, buddy_idx_twice.
Qed.

(** C15: releasing an allocated block of the region merges it with its buddy
    as long as that is free: one block that contains it joins the lists, and
    either has the largest order or a buddy that is not free; the free blocks
    inside it are gone and all others are as before.  Exactly the pages of the
    block that was released become free, the lists, counts and map stay
    consistent, and when no two buddies were both free none are afterwards.  The
    block lies behind the pages that hold the order map, as every block does
    that [buddy_alloc] returns. *)
Theorem buddy_free_correct (s : buddy) (free : Z -> list Z) (order idx : Z) :
  buddy_wf s free -> initialized s = true -> block_ok s order idx -> block_out free order idx ->
  exists free' o' x', buddy_wf (buddy_free (base_virt s + idx * 4096) order s) free' /\
    (forall p, free_page free' p <-> free_page free p \/ idx <= p < idx + 2 ^ order) /\
    order <= o' /\ block_ok s o' x' /\ x' <= idx /\ idx + 2 ^ order <= x' + 2 ^ o' /\
    (forall o x, 0 <= o <= 10 ->
       x ∈ free' o <-> (o = o' /\ x = x') \/ (x ∈ free o /\ ~ (x' <= x < x' + 2 ^ o'))) /\
    (o' < 10 -> buddy_idx x' o' ∉ free' o') /\ (merged free -> merged free').
Proof.
  intros Hw Hi Hb Hout. pose proof Hb as (Ho & Hi0 & Hit & Hd). unfold buddy_free. rewrite Hi.
  unfold BUDDY_MAX_ORDER. rewrite (proj2 (Z.ltb_ge order 0)), (proj2 (Z.ltb_ge 10 order)) by lia.
  cbn [negb orb]. pose proof (bw_total _ _ Hw). pose proof (pow2_pos order ltac:(lia)).
  assert (page_idx s (base_virt s + idx * 4096) = idx) as ->.
  { unfold page_idx, BUDDY_PAGE_SIZE. replace (base_virt s + idx * 4096 - base_virt s) with (idx * 4096) by lia.
    rewrite u64_small by lia. by apply Z.div_mul. }
  rewrite (proj2 (Z.leb_gt _ _)) by lia.
  pose proof (coalesce_spec 10 s free order idx Hw Hb Hout ltac:(lia)) as Hc.
  destruct (coalesce 10 order idx s) as [[o' x'] s'].
  destruct Hc as (free' & F1 & F2 & F3 & F4 & F5 & F6 & F7 & F8 & F9 & F10). pose proof F2 as (Ho' & _).
  assert (forall o x, 0 <= o <= 10 -> x ∈ upd free' o' (x' :: free' o') o <->
    (o = o' /\ x = x') \/ (x ∈ free o /\ ~ (x' <= x < x' + 2 ^ o'))) as Hin.
  { intros o x Hox. rewrite <- F9 by done. unfold upd. destruct (Z.eqb_spec o o') as [->|]; [|naive_solver].
    rewrite elem_of_cons. naive_solver. }
  assert (o' < 10 -> buddy_idx x' o' ∉ upd free' o' (x' :: free' o') o') as Hbud.
  { intros Hlt. rewrite upd_eq. intros [E|Hx]%elem_of_cons; [|by apply F10].
    pose proof (pow2_pos o' ltac:(lia)). destruct (buddy_idx_cases x' o') as [[? _]|[? _]]; [lia|apply F2|lia|lia]. }
  exists (upd free' o' (x' :: free' o')), o', x'.
  split_and!; try done; try lia; [by apply wf_add_free, push_spec| |unfold block_ok in *; by rewrite F6 in F2|].
  - intros p. rewrite free_page_push by apply F2. apply F5.
  - by apply (merged_add free _ o' x').
Qed.

Lemma coalesce_le n order idx s : order <= (coalesce n order idx s).1.1.
Proof.
  revert order idx s. induction n as [|n IH]; intros order idx s; cbn [coalesce]; [simpl; lia|].
  destruct (order <? BUDDY_MAX_ORDER); [|simpl; lia].
  destruct (negb (is_free s (buddy_idx idx order) order)); [simpl; lia|].
  etransitivity; [|apply IH]. lia.
Qed.

Lemma coalesce_step n order idx s :
  order < 10 -> is_free s (buddy_idx idx order) order = true ->
  order < (coalesce (S n) order idx s).1.1.
Proof.
  intros Hlt Hf. cbn [coalesce]. unfold BUDDY_MAX_ORDER.
  rewrite (proj2 (Z.ltb_lt order 10)), Hf by lia. cbn [negb].
  eapply Z.lt_le_trans; [|apply coalesce_le]. lia.
Qed.

(** when the released block merges, [free_pages] grows by the
    size of the merged block although only [2 ^ order] pages were returned:
    the statistic over-counts. *)
Theorem buddy_free_overcounts (s : buddy) (free : Z -> list Z) (order idx : Z) :
  buddy_wf s free -> initialized s = true -> block_ok s order idx -> block_out free order idx ->
  order < 10 -> buddy_idx idx order ∈ free order -> 0 <= free_pages s < 2 ^ 63 ->
  free_pages s + 2 ^ order < free_pages (buddy_free (base_virt s + idx * 4096) order s).
Proof.
  intros Hw Hi Hb Hout Hlt Hbuddy Hfp. pose proof Hb as (Ho & Hi0 & Hit & Hd). unfold buddy_free. rewrite Hi.
  unfold BUDDY_MAX_ORDER. rewrite (proj2 (Z.ltb_ge order 0)), (proj2 (Z.ltb_ge 10 order)) by lia.
  cbn [negb orb]. pose proof (bw_total _ _ Hw). pose proof (pow2_pos order ltac:(lia)).
  assert (page_idx s (base_virt s + idx * 4096) = idx) as ->.
  { unfold page_idx, BUDDY_PAGE_SIZE. replace (base_virt s + idx * 4096 - base_virt s) with (idx * 4096) by lia.
    rewrite u64_small by lia. by apply Z.div_mul. }
  rewrite (proj2 (Z.leb_gt _ _)) by lia.
  pose proof (coalesce_spec 10 s free order idx Hw Hb Hout ltac:(lia)) as Hc.
  assert (order < (coalesce 10 order idx s).1.1) as Hgt.
  { apply (coalesce_step 9); [done|]. by apply (is_free_in s free). }
  destruct (coalesce 10 order idx s) as [[o' x'] s']. simpl in Hgt.
  destruct Hc as (free' & F1 & (F2 & _) & F3 & F4 & F5 & F6 & F7 & _).
  destruct (push_fields s' o' x') as (_ & _ & _ & _ & _ & _ & _ & E & _).
  cbn [free_pages add_free]. rewrite E, F7, Z.shiftl_1_l.
  assert (2 ^ order < 2 ^ o' <= 2 ^ 10) by (split; [apply Z.pow_lt_mono_r|apply Z.pow_le_mono_r]; lia).
  rewrite u64_small; lia.
Qed.

(** ** Initialisation *)

Lemma wf_empty phys virt total b :
  0 <= total <= 65536 -> 0 < virt -> virt + 65536 * 4096 < 2 ^ 64 ->
  buddy_wf (Buddy phys virt total 0 (fun _ => None) (fun _ => 0) (fun _ => 0xFF)
              (fun _ => None) (fun _ => None) b) (fun _ => []).
Proof.
  intros Ht Hv Hv'.
  split; cbn [next prev head count order_map total_pages base_virt dll length].
  - done.
  - done.
  - by intros o x _ ?%not_elem_of_nil.
  - intros o _. constructor.
  - by intros o1 o2 x1 x2 p _ _ ?%not_elem_of_nil.
  - intros x o Ho Hx. split; [lia|]. by intros ?%not_elem_of_nil.
  - done.
  - split; [lia|]. split; [done|lia].
Qed.

(** The pages freed so far lie between [start] and [p]. *)
Definition seeded (s : buddy) (start p : Z) : Prop :=
  exists free, buddy_wf s free /\ forall q, free_page free q -> start <= q < p.

Lemma seed_order_spec fuel ord blk ap limit p s start :
  blk = 2 ^ ord -> 0 <= ord <= 10 -> (blk | ap) -> 0 <= order_map_pages (total_pages s) <= start -> start <= p -> p <= ap -> limit <= total_pages s ->
  seeded s start p ->
  let '(p', s') := seed_order fuel ord blk ap limit p s in
  p <= p' /\ seeded s' start p' /\ total_pages s' = total_pages s.
Proof.
  intros Hblk Ho. revert ap p s. induction fuel as [|fuel IH]; intros ap p s Hd Hmp Hst Hp Hl Hs;
    cbn [seed_order]; [by split_and!|].
  destruct (Z.leb_spec (ap + blk) limit) as [Hle|]; [|by split_and!].
  pose proof (pow2_pos ord ltac:(lia)) as Hpos.
  destruct (push_fields s ord ap) as (_ & _ & _ & _ & _ & Ht & _).
  specialize (IH (ap + blk) (ap + blk) (add_free blk (push ord ap s))).
  destruct (seed_order fuel ord blk (ap + blk) limit (ap + blk) (add_free blk (push ord ap s))) as [p' s'].
  destruct IH as (I1 & I2 & I3).
  - apply Z.divide_add_r; [done|apply Z.divide_refl].
  - cbn [total_pages add_free]. by rewrite Ht.
  - lia.
  - lia.
  - cbn [total_pages add_free]. by rewrite Ht.
  - destruct Hs as (free & Hw & Hf). exists (upd free ord (ap :: free ord)). split.
    + apply wf_add_free, push_spec; [done|unfold block_ok; subst; split_and!; (done || lia)|].
      intros q Hq Hfq. specialize (Hf q Hfq). lia.
    + intros q Hq. apply free_page_push in Hq as [Hq|Hq]; [|subst; lia|lia]. specialize (Hf q Hq). lia.
  - split; [lia|]. split; [done|]. rewrite I3. exact Ht.
Qed.

Lemma align_up_spec p blk ord :
  blk = 2 ^ ord -> 0 <= ord -> p <= (p + blk - 1) .&~ (blk - 1) /\ (blk | (p + blk - 1) .&~ (blk - 1)).
Proof.
  intros -> Ho. pose proof (pow2_pos ord Ho). rewrite ldiff_ones_div by done.
  pose proof (Z.div_mod (p + 2 ^ ord - 1) (2 ^ ord) ltac:(lia)).
  pose proof (Z.mod_pos_bound (p + 2 ^ ord - 1) (2 ^ ord) ltac:(lia)).
  split; [nia|apply Z.divide_factor_r].
Qed.

Lemma seed_spec n limit p s start :
  (n <= 11)%nat -> 0 <= order_map_pages (total_pages s) <= start -> start <= p -> limit <= total_pages s -> seeded s start p ->
  exists p', seeded (seed n limit p s) start p' /\ total_pages (seed n limit p s) = total_pages s.
Proof.
  revert p s. induction n as [|n IH]; intros p s Hn Hmp Hst Hl Hs; cbn [seed]; [by exists p|].
  destruct (Z.ltb_spec p limit); [|by exists p]. rewrite Z.shiftl_1_l.
  destruct (align_up_spec p (2 ^ Z.of_nat n) (Z.of_nat n) eq_refl ltac:(lia)) as [A1 A2].
  pose proof (seed_order_spec (Z.to_nat BUDDY_MAX_PAGES) (Z.of_nat n) (2 ^ Z.of_nat n) _ limit p s start
    eq_refl ltac:(lia) A2 Hmp Hst A1 Hl Hs) as H1.
  destruct (seed_order _ _ _ _ _ _ _) as [p1 s1]. destruct H1 as (I1 & I2 & I3).
  destruct (IH p1 s1) as (p' & J1 & J2); [lia|by rewrite I3|lia|congruence|done|].
  exists p'. split; [done|congruence].
Qed.

Lemma seed_order_virt fuel ord blk ap limit p s :
  base_virt (seed_order fuel ord blk ap limit p s).2 = base_virt s.
Proof.
  revert ap p s. induction fuel as [|fuel IH]; intros ap p s; cbn [seed_order]; [done|].
  case_if; [|done]. rewrite IH. by destruct (push_fields s ord ap) as (_ & _ & _ & _ & _ & _ & ? & _).
Qed.

Lemma seed_virt n limit p s : base_virt (seed n limit p s) = base_virt s.
Proof.
  revert p s. induction n as [|n IH]; intros p s; cbn [seed]; [done|]. case_if; [|done].
  pose proof (seed_order_virt (Z.to_nat BUDDY_MAX_PAGES) (Z.of_nat n) (Z.shiftl 1 (Z.of_nat n))
    ((p + Z.shiftl 1 (Z.of_nat n) - 1) .&~ (Z.shiftl 1 (Z.of_nat n) - 1)) limit p s) as H1.
  destruct (seed_order _ _ _ _ _ _ _) as [p' s']. by rewrite IH.
Qed.

Lemma buddy_init_spec (phys virt size : Z) :
  0 < virt -> virt + 65536 * 4096 < 2 ^ 64 -> 0 <= size ->
  let s := buddy_init phys virt size in
  initialized s = true /\ base_virt s = virt /\
  exists free, buddy_wf s free /\
    forall p, free_page free p -> (total_pages s + 4095) / 4096 <= p < total_pages s.
Proof.
  intros Hv Hv' Hs. unfold buddy_init, BUDDY_MAX_PAGES, BUDDY_PAGE_SIZE.
  set (total := Z.min (size / 4096) 65536). set (mp := (total + 4096 - 1) / 4096).
  assert (0 <= total <= 65536) as Ht by (unfold total; pose proof (Z.div_pos size 4096); lia).
  assert (0 <= mp <= total) as Hm.
  { unfold mp. split; [apply Z.div_pos; lia|]. destruct (decide (total = 0)) as [->|]; [done|].
    apply Z.div_le_upper_bound; lia. }
  rewrite (u64_small (total - mp)) by lia. rewrite u64_small by lia.
  replace (mp + (total - mp)) with total by lia. set (s0 := Buddy phys virt total _ _ _ _ _ _ _).
  assert (seeded s0 mp mp) as Hs0.
  { exists (fun _ => []). split; [by apply wf_empty; [|lia|]|].
    by intros q (o & x & _ & ?%not_elem_of_nil & _). }
  destruct (seed_spec 11 total mp s0 mp) as (p' & (free & Hw & Hf) & Htot); [lia| |lia|simpl; lia|done|].
  { cbn [total_pages s0]. unfold order_map_pages. replace (total + 4095) with (total + 4096 - 1) by lia. fold mp. lia. }
  split; [done|]. split; [by apply seed_virt|]. exists free. split.
  - destruct Hw as [H1 H2 H3 H4 H5 H6 H7 H8]. by split.
  - cbn [total_pages]. rewrite Htot. cbn [total_pages s0]. intros q Hq.
    destruct Hq as (o & x & Ho & Hx & Hr) eqn:E. destruct (bw_block _ _ Hw o x Ho Hx) as (_ & Hb & _).
    rewrite Htot in Hb. cbn [total_pages s0] in Hb.
    assert (mp <= q) by (apply (Hf q); by exists o, x). unfold mp in *.
    replace (total + 4095) with (total + 4096 - 1) by lia. lia.
Qed.

(** initialisation yields consistent lists whose pages all lie in
    the region and after the pages that hold the order map. *)
Theorem buddy_init_correct (phys virt size : Z) :
  0 < virt -> virt + 65536 * 4096 < 2 ^ 64 -> 0 <= size ->
  let s := buddy_init phys virt size in
  initialized s = true /\ base_virt s = virt /\
  exists free, buddy_wf s free /\
    forall p, free_page free p -> (total_pages s + 4095) / 4096 <= p < total_pages s.
Proof. apply buddy_init_spec. Qed.

(** A region of 16 MiB. *)
Definition demo_base : Z := KERNEL_VMA_BASE + 0x4000000.
Definition demo_buddy : buddy := buddy_init 0x4000000 demo_base 0x1000000.

Lemma buddy_init_correct_witness :
  initialized demo_buddy = true /\ base_virt demo_buddy = demo_base /\
  exists free, buddy_wf demo_buddy free /\
    forall p, free_page free p -> (total_pages demo_buddy + 4095) / 4096 <= p < total_pages demo_buddy.
Proof. apply (buddy_init_correct 0x4000000 demo_base 0x1000000); by vm_compute. Defined.

Lemma demo_buddy_wf : initialized demo_buddy = true /\ exists free, buddy_wf demo_buddy free.
Proof.
  destruct (buddy_init_spec 0x4000000 demo_base 0x1000000) as (Hi & _ & free & Hw & _);
    [by vm_compute|by vm_compute|lia|]. split; [exact Hi|]. exists free. exact Hw.
Qed.

Lemma buddy_alloc_correct_witness :
  exists free, buddy_wf demo_buddy free /\
  let '(a, s') := buddy_alloc 3 demo_buddy in
  (exists idx free', a = base_virt demo_buddy + idx * 4096 /\ block_ok demo_buddy 3 idx /\
     buddy_wf s' free' /\ block_out free' 3 idx /\
     forall p, free_page free p <-> free_page free' p \/ idx <= p < idx + 2 ^ 3) \/
  (a = 0 /\ s' = demo_buddy /\ forall o, 3 <= o <= 10 -> free o = []).
Proof.
  destruct demo_buddy_wf as (Hi & free & Hw). exists free. split; [exact Hw|].
  apply (buddy_alloc_correct demo_buddy free 3 Hw Hi). lia.
Defined.

(** Four pages: page 0 holds the map, page 2 is allocated and its buddy free. *)
Definition demo_pair : buddy :=
  add_free 1 (push 0 3 (Buddy 0x4000000 demo_base 4 0 (fun _ => None) (fun _ => 0) (fun _ => 0xFF)
                          (fun _ => None) (fun _ => None) true)).
Definition demo_pair_free : Z -> list Z := upd (fun _ => []) 0 [3].

Lemma demo_pair_ok :
  buddy_wf demo_pair demo_pair_free /\ block_ok demo_pair 0 2 /\ block_out demo_pair_free 0 2.
Proof.
  split; [|split].
  - apply wf_add_free, (push_spec _ (fun _ => [])).
    + apply wf_empty; by vm_compute.
    + split_and!; first [apply Z.divide_1_l|vm_compute; discriminate|vm_compute; lia].
    + by intros p _ (o & x & _ & ?%not_elem_of_nil & _).
  - split_and!; first [apply Z.divide_1_l|vm_compute; discriminate|vm_compute; lia].
  - intros p Hp (o & x & Ho & Hx & Hr). unfold demo_pair_free, upd in Hx. case_if; bools.
    + apply elem_of_cons in Hx as [->|?%not_elem_of_nil]; [|done]. simpl in Hp. lia.
    + by apply not_elem_of_nil in Hx.
Qed.

(** The two pages end up in one block. *)
Lemma buddy_free_correct_witness :
  exists free', buddy_wf (buddy_free (base_virt demo_pair + 2 * 4096) 0 demo_pair) free' /\
    (forall p, free_page free' p <-> free_page demo_pair_free p \/ 2 <= p < 2 + 2 ^ 0) /\ 3 ∉ free' 0.
Proof.
  destruct demo_pair_ok as (H1 & H2 & H3).
  destruct (buddy_free_correct demo_pair demo_pair_free 0 2 H1) as (free' & o' & x' & W & P & B1 & (_ & _ & _ & [k Hk]) & B2 & B3 & F & N & _);
    [reflexivity|exact H2|exact H3|].
  exists free'. split; [exact W|]. split; [exact P|]. intros Hin. pose proof Hin as Hin'.
  apply F in Hin' as [[<- <-]|[_ Hx]]; [lia| |lia].
  assert (o' = 0) as ->.
  { destruct (Z.eq_dec o' 0) as [E|E]; [exact E|exfalso].
    replace (2 ^ o') with (2 * 2 ^ (o' - 1)) in * by (rewrite <- Z.pow_succ_r by lia; f_equal; lia).
    assert (0 < 2 ^ (o' - 1)) by (apply Z.pow_pos_nonneg; lia). apply Hx.
    rewrite Hk in *. replace (k * (2 * 2 ^ (o' - 1)) + 2 * 2 ^ (o' - 1)) with (2 * ((k + 1) * 2 ^ (o' - 1))) in * by lia.
    change (2 ^ 0) with 1 in *. lia. }
  apply N; [reflexivity|]. change (2 ^ 0) with 1 in *. assert (x' = 2) as -> by lia. exact Hin.
Defined.

Lemma buddy_free_overcounts_witness :
  free_pages demo_pair + 2 ^ 0 < free_pages (buddy_free (base_virt demo_pair + 2 * 4096) 0 demo_pair).
Proof.
  destruct demo_pair_ok as (H1 & H2 & H3).
  apply (buddy_free_overcounts demo_pair demo_pair_free 0 2 H1); [reflexivity|exact H2|exact H3|lia| |by vm_compute].
  apply elem_of_cons. by left.
Defined.

(** The seeding loop starts at the first 4 MiB boundary after the map and
    never returns to the pages below it: of 4095 pages only 3072 are free, and
    pages 1 to 1023 are in no block. *)
Lemma buddy_init_skips_pages :
  free_pages demo_buddy = 3072 /\
  forallb (fun p => order_map demo_buddy p =? 0xFF) (seqZ 1 1023) = true.
Proof. by vm_compute. Qed.
