(* ===== verification/Pcb.v ===== *)
(** * Process control blocks and the state of the process subsystem

    The data of [include/process.h], [include/kernel/signal.h] and of the static
    variables of [process/process.c] and [scheduler/scheduler.c], shared by the
    models of the scheduler ([Scheduler.v]), of process management
    ([Process.v]) and of signals ([Signal.v]).

    A [process_t*] is the index of a slot of [process_table] and NULL is
    [None].  A [struct file*] and a [vfs_node_t*] are indices as well.  The
    registers that [context_switch] saves and loads are the field [cpu]: what
    the executing code would have when its current call returns. *)

From S2P Require Import Prelude FrameAlloc Vmm.

Definition MAX_PROCESSES : nat := 256.
Definition MAX_FDS : nat := 64.
Definition PROC_MAX_CAPS : Z := 16.
Definition NSIG : Z := 32.

Inductive proc_state :=
| PROC_STATE_UNUSED
| PROC_STATE_CREATED
| PROC_STATE_RUNNING
| PROC_STATE_READY
| PROC_STATE_SLEEPING
| PROC_STATE_WAITING
| PROC_STATE_ZOMBIE
| PROC_STATE_DEAD.

#[global] Instance proc_state_eq_dec : EqDecision proc_state.
Proof. solve_decision. Defined.

(** [proc->state == st] *)
Definition state_is (a b : proc_state) : bool := bool_decide (a = b).

(** [p == q] on process pointers. *)
Definition ptr_eq (a b : option Z) : bool := bool_decide (a = b).

(** ** Signals *)

Record sigaction := SigAction { sa_handler : Z; sa_mask : Z; sa_flags : Z }.

Record signal_state := SigState {
  actions : Z -> sigaction;      (* actions[sig - 1] *)
  pending : Z;
  blocked : Z;
  alt_stack : Z;
  alt_stack_sz : Z
}.

(** ** Processes *)

Record cpu_context := Ctx {
  r15 : Z; r14 : Z; r13 : Z; r12 : Z; rbx : Z; rbp : Z;
  rsp : Z; rip : Z; rflags : Z; cs : Z; ss : Z
}.

Definition ctx_zero : cpu_context := Ctx 0 0 0 0 0 0 0 0 0 0 0.

Record fd_entry := FdEntry { fd_file : option Z; fd_flags : Z; fd_offset : Z }.

Definition fd_none : fd_entry := FdEntry None 0 0.

Record process := Process {
  pid : Z;
  ppid : Z;
  pgid : Z;
  sid : Z;
  name : list Z;
  cwd : list Z;
  state : proc_state;
  exit_code : Z;
  address_space : Z;
  kernel_stack : Z;
  kernel_stack_size : Z;
  user_stack : Z;
  heap_start : Z;
  heap_end : Z;
  p_context : cpu_context;
  priority : Z;
  time_slice : Z;
  total_ticks : Z;
  sleep_until : Z;
  sigstate : signal_state;
  uid : Z;
  gid : Z;
  euid : Z;
  egid : Z;
  fds : Z -> fd_entry;
  cap_ids : Z -> Z;
  cap_count : Z;
  start_tick : Z;
  user_ticks : Z;
  sys_ticks : Z;
  p_next : option Z;
  p_prev : option Z;
  children : option Z;
  sibling : option Z
}.

Definition sig_zero : signal_state := SigState (fun _ => SigAction 0 0 0) 0 0 0 0.

(** [memset(proc, 0, sizeof(process_t))] *)
Definition proc_zero : process :=
  Process 0 0 0 0 (replicate 64 0) (replicate 256 0) PROC_STATE_UNUSED 0 0 0 0 0 0 0 ctx_zero 0 0 0 0
    sig_zero 0 0 0 0 (fun _ => fd_none) (fun _ => 0) 0 0 0 0 None None None None.

Definition process_eta (p : process) : process :=
  Process (pid p) (ppid p) (pgid p) (sid p) (name p) (cwd p) (state p) (exit_code p)
    (address_space p) (kernel_stack p) (kernel_stack_size p) (user_stack p) (heap_start p)
    (heap_end p) (p_context p) (priority p) (time_slice p) (total_ticks p) (sleep_until p)
    (sigstate p) (uid p) (gid p) (euid p) (egid p) (fds p) (cap_ids p) (cap_count p)
    (start_tick p) (user_ticks p) (sys_ticks p) (p_next p) (p_prev p) (children p) (sibling p).

Definition set_pid (v : Z) (p : process) : process := ltac:(set_field process_eta pid p v).
Definition set_ppid (v : Z) (p : process) : process := ltac:(set_field process_eta ppid p v).
Definition set_pgid (v : Z) (p : process) : process := ltac:(set_field process_eta pgid p v).
Definition set_sid (v : Z) (p : process) : process := ltac:(set_field process_eta sid p v).
Definition set_name (v : list Z) (p : process) : process := ltac:(set_field process_eta name p v).
Definition set_cwd (v : list Z) (p : process) : process := ltac:(set_field process_eta cwd p v).
Definition set_state (v : proc_state) (p : process) : process := ltac:(set_field process_eta state p v).
Definition set_exit_code (v : Z) (p : process) : process := ltac:(set_field process_eta exit_code p v).
Definition set_address_space (v : Z) (p : process) : process :=
  ltac:(set_field process_eta address_space p v).
Definition set_kernel_stack (v : Z) (p : process) : process :=
  ltac:(set_field process_eta kernel_stack p v).
Definition set_kernel_stack_size (v : Z) (p : process) : process :=
  ltac:(set_field process_eta kernel_stack_size p v).
Definition set_context (v : cpu_context) (p : process) : process :=
  ltac:(set_field process_eta p_context p v).
Definition set_priority (v : Z) (p : process) : process := ltac:(set_field process_eta priority p v).
Definition set_time_slice (v : Z) (p : process) : process := ltac:(set_field process_eta time_slice p v).
Definition set_total_ticks (v : Z) (p : process) : process :=
  ltac:(set_field process_eta total_ticks p v).
Definition set_start_tick (v : Z) (p : process) : process := ltac:(set_field process_eta start_tick p v).
Definition set_sigstate (v : signal_state) (p : process) : process :=
  ltac:(set_field process_eta sigstate p v).
Definition set_uid (v : Z) (p : process) : process := ltac:(set_field process_eta uid p v).
Definition set_gid (v : Z) (p : process) : process := ltac:(set_field process_eta gid p v).
Definition set_euid (v : Z) (p : process) : process := ltac:(set_field process_eta euid p v).
Definition set_egid (v : Z) (p : process) : process := ltac:(set_field process_eta egid p v).
Definition set_fds (v : Z -> fd_entry) (p : process) : process := ltac:(set_field process_eta fds p v).
Definition set_p_next (v : option Z) (p : process) : process := ltac:(set_field process_eta p_next p v).
Definition set_p_prev (v : option Z) (p : process) : process := ltac:(set_field process_eta p_prev p v).

(** ** The state of the subsystem *)

(** An open file object and the reference counts of the nodes ([fs/vfs.h]). *)
Record file := File { f_node : option Z; f_offset : Z; f_flags : Z; f_refcount : Z }.

Section kstate.
Context {A : Type}.

Record kstate := KState {
  process_table : Z -> process;
  process_list : option Z;
  current_process : option Z;
  next_pid : Z;
  ready_queue : list (option Z);
  ready_head : nat;
  ready_tail : nat;
  ready_count : nat;
  sched_ticks : Z;
  idle_proc : option Z;
  cpu : cpu_context;
  tss_rsp0 : Z;
  vmem : vm (A := A);
  files : Z -> file;
  node_refs : Z -> Z;            (* node->refcount *)
  node_closes : list Z           (* the calls of node->ops->close, last first *)
}.

Definition kstate_eta (s : kstate) : kstate :=
  KState (process_table s) (process_list s) (current_process s) (next_pid s) (ready_queue s)
    (ready_head s) (ready_tail s) (ready_count s) (sched_ticks s) (idle_proc s) (cpu s)
    (tss_rsp0 s) (vmem s) (files s) (node_refs s) (node_closes s).

Definition set_table (v : Z -> process) (s : kstate) : kstate :=
  ltac:(set_field kstate_eta process_table s v).
Definition set_list (v : option Z) (s : kstate) : kstate := ltac:(set_field kstate_eta process_list s v).
Definition set_current (v : option Z) (s : kstate) : kstate :=
  ltac:(set_field kstate_eta current_process s v).
Definition set_next_pid (v : Z) (s : kstate) : kstate := ltac:(set_field kstate_eta next_pid s v).
Definition set_queue (v : list (option Z)) (s : kstate) : kstate :=
  ltac:(set_field kstate_eta ready_queue s v).
Definition set_ready_head (v : nat) (s : kstate) : kstate := ltac:(set_field kstate_eta ready_head s v).
Definition set_ready_tail (v : nat) (s : kstate) : kstate := ltac:(set_field kstate_eta ready_tail s v).
Definition set_ready_count (v : nat) (s : kstate) : kstate :=
  ltac:(set_field kstate_eta ready_count s v).
Definition set_sched_ticks (v : Z) (s : kstate) : kstate := ltac:(set_field kstate_eta sched_ticks s v).
Definition set_idle (v : option Z) (s : kstate) : kstate := ltac:(set_field kstate_eta idle_proc s v).
Definition set_cpu (v : cpu_context) (s : kstate) : kstate := ltac:(set_field kstate_eta cpu s v).
Definition set_vmem (v : vm (A := A)) (s : kstate) : kstate := ltac:(set_field kstate_eta vmem s v).
Definition set_files (v : Z -> file) (s : kstate) : kstate := ltac:(set_field kstate_eta files s v).
Definition set_node_refs (v : Z -> Z) (s : kstate) : kstate := ltac:(set_field kstate_eta node_refs s v).
Definition set_node_closes (v : list Z) (s : kstate) : kstate :=
  ltac:(set_field kstate_eta node_closes s v).

(** [tss.rsp0 = rsp0] ([boot/gdt.c]) *)
Definition tss_set_kernel_stack (rsp0 : Z) (s : kstate) : kstate :=
  ltac:(set_field kstate_eta tss_rsp0 s rsp0).

(** [*p] and an assignment through [p]. *)
Definition proc (s : kstate) (p : Z) : process := process_table s p.
Definition mod_proc (p : Z) (f : process -> process) (s : kstate) : kstate :=
  set_table (upd (process_table s) p (f (process_table s p))) s.

Lemma proc_mod_eq p f s : proc (mod_proc p f s) p = f (proc s p).
Proof. apply upd_eq. Qed.
Lemma proc_mod_ne p q f s : q <> p -> proc (mod_proc p f s) q = proc s q.
Proof. apply upd_ne. Qed.
End kstate.

Arguments kstate : clear implicits.

Lemma proc_mod {A} p q f (s : kstate A) :
  proc (mod_proc p f s) q = if q =? p then f (proc s p) else proc s q.
Proof. done. Qed.
