(* ===== verification/Scheduler.v ===== *)
(** * The round-robin scheduler, [scheduler/scheduler.c] and [process/context.asm]

    The ready queue is a circular buffer of process pointers.  An operation
    that would dereference NULL has the result [None]; the invariant excludes
    it. *)

From Stdlib Require Import FunctionalExtensionality.
From S2P Require Import Prelude Ring FrameAlloc Vmm Pcb.

Definition MAX_READY : nat := 256.
Definition SCHED_DEFAULT_QUANTUM : Z := 5.

Section scheduler.
Context {A : Type}.
Implicit Types (s : kstate A) (p : Z).

(** ** The ready queue *)

Definition ready_queue_empty s : bool := (ready_count s =? 0)%nat.

Definition ready_enqueue p s : kstate A :=
  if (MAX_READY <=? ready_count s)%nat then s
  else
    let s := set_queue (<[ready_tail s := Some p]> (ready_queue s)) s in
    let s := set_ready_tail ((ready_tail s + 1) mod MAX_READY)%nat s in
    let s := set_ready_count (ready_count s + 1)%nat s in
    mod_proc p (set_state PROC_STATE_READY) s.

Definition ready_dequeue s : option Z * kstate A :=
  if (ready_count s =? 0)%nat then (idle_proc s, s)
  else
    let p := default None (ready_queue s !! ready_head s) in
    let s := set_ready_head ((ready_head s + 1) mod MAX_READY)%nat s in
    (p, set_ready_count (ready_count s - 1)%nat s).

(** The scheduler's part of [scheduler_init]; [idle] is the result of
    [process_create("idle", ...)], NULL is the panic. *)
Definition scheduler_init (idle : option Z) s : option (kstate A) :=
  match idle with
  | None => None
  | Some i =>
      Some (set_idle (Some i) (set_sched_ticks 0 (set_ready_count 0%nat
             (set_ready_tail 0%nat (set_ready_head 0%nat s)))))
  end.

Definition scheduler_add (p : option Z) s : kstate A :=
  match p with None => s | Some p => ready_enqueue p s end.

(** The first [i < n + i0] from [i0] on with [queue[(head + i) % MAX_READY] == p]. *)
Fixpoint find_ready (n i : nat) p s : option nat :=
  match n with
  | O => None
  | S n => if ptr_eq (default None (ready_queue s !! ((ready_head s + i) mod MAX_READY)%nat)) (Some p)
           then Some i else find_ready n (S i) p s
  end.

Definition scheduler_remove p s : kstate A :=
  match find_ready (ready_count s) 0 p s with
  | None => s
  | Some i =>
      let s := set_queue (ring_close MAX_READY (ready_count s - 1 - i) (ready_head s) i
                            (ready_queue s)) s in
      let s := set_ready_tail ((ready_tail s + MAX_READY - 1) mod MAX_READY)%nat s in
      set_ready_count (ready_count s - 1)%nat s
  end.

(** ** Switching *)

(** [context_switch(&old->context, &next->context)]: the registers are saved,
    then those of the next process are loaded; CS and SS are only saved. *)
Definition context_switch (old next : Z) s : kstate A :=
  let s := mod_proc old (set_context (cpu s)) s in
  let c := p_context (proc s next) in
  set_cpu (Ctx (r15 c) (r14 c) (r13 c) (r12 c) (rbx c) (rbp c) (rsp c) (rip c) (rflags c)
             (cs (cpu s)) (ss (cpu s))) s.

(** [current_process = next] with a fresh quantum and its kernel stack. *)
Definition dispatch (next : Z) s : kstate A :=
  let s := set_current (Some next) s in
  let s := mod_proc next (set_state PROC_STATE_RUNNING) s in
  let s := mod_proc next (set_time_slice SCHED_DEFAULT_QUANTUM) s in
  tss_set_kernel_stack (u64 (kernel_stack (proc s next) + kernel_stack_size (proc s next))) s.

Definition switch_space (next : Z) s : kstate A :=
  set_vmem (vmm_switch_address_space (address_space (proc s next)) (vmem s)) s.

(** The common end of [scheduler_tick] and [scheduler_yield]. *)
Definition reschedule (old : Z) s : option (kstate A) :=
  let s := if state_is (state (proc s old)) PROC_STATE_RUNNING
           then ready_enqueue old (mod_proc old (set_state PROC_STATE_READY) s) else s in
  let '(next, s) := ready_dequeue s in
  let next := match next with None => idle_proc s | Some _ => next end in
  match next with
  | None => None
  | Some next =>
      let s := dispatch next s in
      let s := if address_space (proc s old) =? address_space (proc s next) then s
               else switch_space next s in
      Some (context_switch old next s)
  end.

Definition scheduler_tick s : option (kstate A) :=
  let s := set_sched_ticks (u64 (sched_ticks s + 1)) s in
  match current_process s with
  | None =>
      let '(next, s) := ready_dequeue s in
      match next with
      | None => Some s
      | Some next => Some (switch_space next (dispatch next s))
      end
  | Some c =>
      if 0 <? time_slice (proc s c) then
        let s := mod_proc c (fun q => set_time_slice (time_slice q - 1) q) s in
        let s := mod_proc c (fun q => set_total_ticks (u64 (total_ticks q + 1)) q) s in
        if 0 <? time_slice (proc s c) then Some s else reschedule c s
      else reschedule c s
  end.

(** Interrupts are off except around the switch itself. *)
Definition scheduler_yield s : option (kstate A) :=
  match current_process s with
  | None => Some s
  | Some c => reschedule c s
  end.

Definition scheduler_block (p : option Z) (reason : proc_state) s : kstate A :=
  match p with
  | None => s
  | Some p => scheduler_remove p (mod_proc p (set_state reason) s)
  end.

Definition scheduler_unblock (p : option Z) s : kstate A :=
  match p with
  | None => s
  | Some p =>
      if state_is (state (proc s p)) PROC_STATE_READY || state_is (state (proc s p)) PROC_STATE_RUNNING
      then s else ready_enqueue p s
  end.

Definition scheduler_next s : option Z :=
  if ready_queue_empty s then idle_proc s else default None (ready_queue s !! ready_head s).

Definition scheduler_ticks s : Z := sched_ticks s.
End scheduler.

(** ** The queue as a list *)

(** A slot of the process table. *)
Definition valid_slot (p : Z) : Prop := 0 <= p < 256.

Lemma valid_slots_bound l p :
  NoDup l -> (forall q, q ∈ l -> valid_slot q) -> valid_slot p -> p ∉ l -> (length l < 256)%nat.
Proof.
  intros Hnd Hv Hp Hl. assert (p :: l ⊆+ seqZ 0 256) as Hs.
  { apply NoDup_submseteq; [by constructor|]. intros q Hq. apply elem_of_seqZ.
    apply elem_of_cons in Hq as [->|Hq]; [|apply Hv in Hq]; unfold valid_slot in *; lia. }
  apply submseteq_length in Hs. rewrite length_seqZ in Hs. simpl in Hs. lia.
Qed.

#[local] Arguments Nat.modulo : simpl never.

Section queue.
Context {A : Type}.
Implicit Types (s : kstate A) (p : Z) (l : list Z).

Record queue_rep s l : Prop := {
  qr_ring : ring_rep MAX_READY (ready_queue s) (ready_head s) (ready_count s) (Some <$> l);
  qr_tail : ready_tail s = ((ready_head s + ready_count s) mod MAX_READY)%nat
}.

(** The part of the state the queue operations leave alone. *)
Definition rest s :=
  (current_process s, idle_proc s, cpu s, tss_rsp0 s, vmem s, sched_ticks s, process_list s, next_pid s).

Lemma queue_rep_count s l : queue_rep s l -> ready_count s = length l.
Proof. intros [H _]. rewrite (rr_count _ _ _ _ _ H). apply length_fmap. Qed.

Lemma queue_rep_mod s l p f : queue_rep s l -> queue_rep (mod_proc p f s) l.
Proof. intros [H1 H2]. by split. Qed.

Lemma enqueue_rep s l p :
  queue_rep s l -> (length l < 256)%nat ->
  queue_rep (ready_enqueue p s) (l ++ [p]) /\
  rest (ready_enqueue p s) = rest s /\
  process_table (ready_enqueue p s) = upd (process_table s) p (set_state PROC_STATE_READY (proc s p)).
Proof.
  intros Hq Hl. pose proof (queue_rep_count s l Hq) as Hc. destruct Hq as [H1 H2].
  unfold ready_enqueue. rewrite (proj2 (Nat.leb_gt _ _)) by (unfold MAX_READY; lia).
  split; [|by split]. split; simpl.
  - rewrite fmap_app, H2, Nat.add_1_r. apply ring_push; [done|]. unfold MAX_READY. lia.
  - rewrite H2, ring_tail_push. do 2 f_equal. lia.
Qed.

Lemma dequeue_rep s l p :
  queue_rep s (p :: l) ->
  exists s', ready_dequeue s = (Some p, s') /\ queue_rep s' l /\ rest s' = rest s /\
             process_table s' = process_table s.
Proof.
  intros Hq. pose proof (queue_rep_count _ _ Hq) as Hc. destruct Hq as [H1 H2]. simpl in *.
  destruct (ring_pop _ _ _ _ _ _ H1) as [Hp Hr]. unfold ready_dequeue.
  rewrite (proj2 (Nat.eqb_neq _ 0)) by lia. rewrite Hp. eexists. split; [done|].
  split; [|by split]. split; simpl; [done|]. rewrite H2. apply ring_tail_pop. lia.
Qed.

Lemma dequeue_empty s : queue_rep s [] -> ready_dequeue s = (idle_proc s, s).
Proof. intros Hq. unfold ready_dequeue. by rewrite (queue_rep_count _ _ Hq). Qed.

(** The scan finds the position of the process. *)
Lemma find_ready_spec s l1 l2 p n :
  queue_rep s (l1 ++ l2) -> n = length l2 -> p ∉ l1 ->
  find_ready n (length l1) p s =
  match list_find (eq p) l2 with Some (i, _) => Some (length l1 + i)%nat | None => None end.
Proof.
  intros Hq ->. revert l1 Hq. induction l2 as [|x l2 IH]; intros l1 Hq Hp; [done|].
  cbn [length find_ready].
  assert (ready_queue s !! ((ready_head s + length l1) mod MAX_READY)%nat = Some (Some x)) as ->.
  { rewrite (rr_get _ _ _ _ _ (qr_ring _ _ Hq)) by (rewrite length_fmap, length_app; simpl; lia).
    by rewrite list_lookup_fmap, lookup_app_r, Nat.sub_diag by lia. }
  cbn [default list_find]. unfold ptr_eq. destruct (decide (p = x)) as [->|Hne].
  - rewrite bool_decide_true by done. cbn [id]. by rewrite Nat.add_0_r.
  - rewrite bool_decide_false by (cbn; congruence).
    specialize (IH (l1 ++ [x])). rewrite length_app in IH. simpl in IH.
    rewrite Nat.add_1_r, <- app_assoc in IH. rewrite IH; [|done|set_solver].
    destruct (list_find (eq p) l2) as [[i y]|]; simpl; [|done]. f_equal. lia.
Qed.

Lemma filter_ne_id p l : p ∉ l -> filter (fun q => q <> p) l = l.
Proof.
  induction l as [|x l IH]; intros Hp; [done|]. apply not_elem_of_cons in Hp as [Hx Hp].
  rewrite filter_cons_True by congruence. by rewrite IH.
Qed.

(** Removal takes the process out and keeps the order of the others. *)
Lemma remove_rep s l p :
  queue_rep s l -> NoDup l ->
  queue_rep (scheduler_remove p s) (filter (fun q => q <> p) l) /\
  rest (scheduler_remove p s) = rest s /\
  process_table (scheduler_remove p s) = process_table s.
Proof.
  intros Hq Hnd. unfold scheduler_remove. pose proof (queue_rep_count _ _ Hq) as Hc.
  pose proof (find_ready_spec s [] l p (ready_count s) Hq Hc ltac:(set_solver)) as Hf.
  simpl in Hf. rewrite Hf. destruct (list_find (eq p) l) as [[i x]|] eqn:E.
  - apply list_find_Some in E as (Hi & <- & _). apply list_elem_of_split_length in Hi as (l1 & l2 & -> & ->).
    split; [|by split]. apply NoDup_app in Hnd as (Hn1 & Hd & Hn2). apply NoDup_cons in Hn2 as [Hp2 _].
    rewrite filter_app, filter_cons_False by (intros H; by apply H).
    rewrite (filter_ne_id p l2), (filter_ne_id p l1) by (done || (intros Hx; apply (Hd p Hx); by left)).
    rewrite length_app in Hc. simpl in Hc. destruct Hq as [H1 H2]. split; simpl.
    + rewrite fmap_app in *. simpl in H1. apply ring_close_spec in H1. rewrite !length_fmap in H1.
      by replace (ready_count s - 1 - length l1)%nat with (length l2) by lia.
    + rewrite H2, <- Nat.add_sub_assoc by (unfold MAX_READY; lia).
      rewrite Nat.Div0.add_mod_idemp_l.
      replace (ready_head s + ready_count s + (MAX_READY - 1))%nat
        with (ready_head s + (ready_count s - 1) + 1 * MAX_READY)%nat by (unfold MAX_READY; lia).
      apply Nat.Div0.mod_add.
  - apply list_find_None in E. rewrite Forall_forall in E.
    rewrite filter_ne_id; [by split|]. intros Hx. by apply (E p).
Qed.
End queue.

(** ** The invariant *)

Section invariant.
Context {A : Type}.
Implicit Types (s : kstate A) (p c : Z) (l : list Z).

(** The READY processes are the queue, each once; only the current process is
    RUNNING, CR3 is its page table and the TSS has its kernel stack. *)
Record sched_inv s l : Prop := {
  si_rep : queue_rep s l;
  si_nodup : NoDup l;
  si_valid p : p ∈ l -> valid_slot p;
  si_ready p : valid_slot p -> state (proc s p) = PROC_STATE_READY <-> p ∈ l;
  si_running p : valid_slot p -> state (proc s p) = PROC_STATE_RUNNING -> current_process s = Some p;
  si_current c : current_process s = Some c ->
    valid_slot c /\
    cr3 (vmem s) = virt_to_phys_kernel (address_space (proc s c)) /\
    tss_rsp0 s = u64 (kernel_stack (proc s c) + kernel_stack_size (proc s c));
  si_idle : exists i, idle_proc s = Some i /\ valid_slot i
}.

(** Same as [s] for the scheduler, up to the fields it does not read. *)
Definition same_sched s s' : Prop :=
  ready_queue s' = ready_queue s /\ ready_head s' = ready_head s /\ ready_tail s' = ready_tail s /\
  ready_count s' = ready_count s /\ current_process s' = current_process s /\
  idle_proc s' = idle_proc s /\ cr3 (vmem s') = cr3 (vmem s) /\ tss_rsp0 s' = tss_rsp0 s /\
  forall p, state (proc s' p) = state (proc s p) /\
            address_space (proc s' p) = address_space (proc s p) /\
            kernel_stack (proc s' p) = kernel_stack (proc s p) /\
            kernel_stack_size (proc s' p) = kernel_stack_size (proc s p).

Lemma sched_inv_ext s s' l : sched_inv s l -> same_sched s s' -> sched_inv s' l.
Proof.
  intros [[Q1 Q2] N V R U C I] (E1 & E2 & E3 & E4 & E5 & E6 & E7 & E8 & E9). split.
  - split; congruence.
  - done.
  - done.
  - intros p Hp. destruct (E9 p) as (-> & _). by apply R.
  - intros p Hp. destruct (E9 p) as (-> & _). rewrite E5. by apply U.
  - intros c. rewrite E5. destruct (E9 c) as (_ & -> & -> & ->). rewrite E7, E8. apply C.
  - by rewrite E6.
Qed.

(** A process that is not in the queue is appended, whatever its state was. *)
Lemma enqueue_inv s l p st :
  sched_inv s l -> valid_slot p -> p ∉ l ->
  let s1 := ready_enqueue p (mod_proc p (set_state st) s) in
  sched_inv s1 (l ++ [p]) /\ rest s1 = rest s /\
  (forall q, proc s1 q = if q =? p then set_state PROC_STATE_READY (proc s p) else proc s q).
Proof.
  intros [Q N V R U C I] Hp Hl s1. pose proof (valid_slots_bound l p N V Hp Hl) as Hlen.
  destruct (enqueue_rep (mod_proc p (set_state st) s) l p) as (HQ & HR & HT); [by apply queue_rep_mod|done|].
  assert (forall q, proc s1 q = if q =? p then set_state PROC_STATE_READY (proc s p) else proc s q) as HP.
  { intros q. unfold proc, s1. rewrite HT. unfold upd, proc. simpl. unfold upd. rewrite Z.eqb_refl.
    by destruct (q =? p). }
  split; [|by split]. injection HR as E1 E2 E3 E4 E5 E6 E7 E8.
  split; unfold s1 in *; rewrite ?E1, ?E2, ?E4, ?E5.
  - done.
  - apply NoDup_app. split; [done|]. split; [|apply NoDup_singleton].
    intros q Hq Hq'. apply list_elem_of_singleton in Hq' as ->. done.
  - intros q [Hq|Hq%list_elem_of_singleton]%elem_of_app; [by apply V|by subst].
  - intros q Hq. rewrite elem_of_app, list_elem_of_singleton, HP.
    destruct (Z.eqb_spec q p) as [->|Hne]; simpl; [naive_solver|]. rewrite (R q Hq). naive_solver.
  - intros q Hq. rewrite HP. destruct (Z.eqb_spec q p) as [->|Hne]; simpl; [done|]. by apply U.
  - intros c Hc. destruct (C c Hc) as (C1 & C2 & C3). split; [done|]. rewrite HP.
    destruct (Z.eqb_spec c p) as [->|Hne]; simpl; by rewrite C2, C3.
  - done.
Qed.

Lemma mod_proc_id p s : mod_proc p (set_state (state (proc s p))) s = s.
Proof.
  unfold mod_proc, set_table. destruct s as [t]. simpl. f_equal. extensionality q. unfold upd.
  destruct (Z.eqb_spec q p) as [->|]; [|done]. unfold proc. simpl. by destruct (t p).
Qed.

Lemma remove_inv s l p st :
  sched_inv s l -> valid_slot p -> st <> PROC_STATE_READY -> st <> PROC_STATE_RUNNING ->
  sched_inv (scheduler_block (Some p) st s) (filter (fun q => q <> p) l).
Proof.
  intros [Q N V R U C I] Hp H1 H2. simpl. set (s1 := mod_proc p (set_state st) s).
  destruct (remove_rep s1 l p (queue_rep_mod s l p _ Q) N) as (HQ & HR & HT).
  injection HR as E1 E2 E3 E4 E5 E6 E7 E8. split; unfold proc; rewrite ?HT, ?E1, ?E2, ?E4, ?E5.
  - done.
  - by apply NoDup_filter.
  - intros q [_ Hq]%list_elem_of_filter. by apply V.
  - intros q Hq. rewrite list_elem_of_filter. change (process_table s1 q) with (proc s1 q).
    unfold s1. rewrite proc_mod. destruct (Z.eqb_spec q p) as [->|]; simpl; [naive_solver|].
    rewrite (R q Hq). naive_solver.
  - intros q Hq. change (process_table s1 q) with (proc s1 q). unfold s1. rewrite proc_mod.
    destruct (Z.eqb_spec q p) as [->|]; simpl; [done|]. by apply U.
  - intros c Hc. destruct (C c Hc) as (C1 & C2 & C3). split; [done|].
    change (process_table s1 c) with (proc s1 c). unfold s1. rewrite proc_mod.
    destruct (Z.eqb_spec c p) as [->|]; simpl; by rewrite C2, C3.
  - done.
Qed.

(** The next process: the head of the queue, or the idle process. *)
Lemma dequeue_next s l :
  sched_inv s l ->
  exists next s', ready_dequeue s = (Some next, s') /\ Some next = default (idle_proc s) (Some <$> head l) /\
    valid_slot next /\ queue_rep s' (tail l) /\ rest s' = rest s /\ process_table s' = process_table s /\
    (next ∉ tail l) /\ (forall p, p <> next -> p ∈ tail l <-> p ∈ l).
Proof.
  intros [Q N V R U C I]. destruct l as [|p l]; simpl.
  - destruct I as (i & Hi & Hv). exists i, s. rewrite dequeue_empty, Hi by done.
    split_and!; try done. set_solver.
  - destruct (dequeue_rep s l p Q) as (s' & -> & HQ & HR & HT). exists p, s'.
    apply NoDup_cons in N as [Hn _]. split_and!; try done; [apply V; by left|]. set_solver.
Qed.

(** Dispatching it, when no process is RUNNING. *)
Lemma dispatch_inv s t l next :
  sched_inv s l -> (forall p, valid_slot p -> state (proc s p) <> PROC_STATE_RUNNING) ->
  valid_slot next -> next ∉ tail l -> (forall p, p <> next -> p ∈ tail l <-> p ∈ l) ->
  queue_rep t (tail l) -> current_process t = Some next -> idle_proc t = idle_proc s ->
  (forall p, p <> next -> state (proc t p) = state (proc s p)) ->
  state (proc t next) = PROC_STATE_RUNNING ->
  cr3 (vmem t) = virt_to_phys_kernel (address_space (proc t next)) ->
  tss_rsp0 t = u64 (kernel_stack (proc t next) + kernel_stack_size (proc t next)) ->
  sched_inv t (tail l).
Proof.
  intros [Q N V R U C I] Hno Hv Hnin Hin HQ Hc Hi Hst Hrun Hcr3 Htss. split.
  - done.
  - destruct l; [done|]. by apply NoDup_cons in N as [_ N].
  - intros p Hp. apply V. destruct l; [done|]. by right.
  - intros p Hp. destruct (decide (p = next)) as [->|Hne]; [rewrite Hrun; naive_solver|].
    rewrite Hst, Hin by done. by apply R.
  - intros p Hp Hr. destruct (decide (p = next)) as [->|Hne]; [done|].
    rewrite Hst in Hr by done. by apply Hno in Hr.
  - intros c Hc'. rewrite Hc in Hc'. by injection Hc' as <-.
  - by rewrite Hi.
Qed.

(** The queue after the old process was put back. *)
Definition requeued s l c : list Z :=
  if state_is (state (proc s c)) PROC_STATE_RUNNING then l ++ [c] else l.

Lemma requeue_inv s l c :
  sched_inv s l -> current_process s = Some c ->
  let s1 := if state_is (state (proc s c)) PROC_STATE_RUNNING
            then ready_enqueue c (mod_proc c (set_state PROC_STATE_READY) s) else s in
  sched_inv s1 (requeued s l c) /\ rest s1 = rest s /\
  (forall p, valid_slot p -> state (proc s1 p) <> PROC_STATE_RUNNING) /\
  (forall p, exists st, proc s1 p = set_state st (proc s p)).
Proof.
  intros Hi Hc. destruct (si_current _ _ Hi c Hc) as (Hv & _ & _). unfold requeued, state_is.
  destruct (decide (state (proc s c) = PROC_STATE_RUNNING)) as [Hr|Hr].
  - rewrite bool_decide_true by done.
    assert (c ∉ l) as Hl by (rewrite <- (si_ready _ _ Hi c Hv), Hr; done).
    destruct (enqueue_inv s l c PROC_STATE_READY Hi Hv Hl) as (H1 & H2 & H3).
    split_and!; [done|done| |].
    + intros p Hp Hrp. apply (si_running _ _ H1 p Hp) in Hrp as Hcp. injection H2 as E1 _ _ _ _ _ _ _.
      rewrite E1, Hc in Hcp. injection Hcp as ->. by rewrite H3, Z.eqb_refl in Hrp.
    + intros p. rewrite H3. destruct (Z.eqb_spec p c) as [->|]; [by eexists|].
      exists (state (proc s p)). by destruct (proc s p).
  - rewrite bool_decide_false by done. split_and!; [done|done| |].
    + intros p Hp Hrp. apply (si_running _ _ Hi p Hp) in Hrp as Hcp. rewrite Hc in Hcp.
      injection Hcp as ->. done.
    + intros p. exists (state (proc s p)). by destruct (proc s p).
Qed.

(** What a dispatch gives the next process. *)
Lemma dispatch_facts next s :
  current_process (dispatch next s) = Some next /\
  (forall p, proc (dispatch next s) p =
     if p =? next then set_time_slice SCHED_DEFAULT_QUANTUM (set_state PROC_STATE_RUNNING (proc s p))
     else proc s p) /\
  tss_rsp0 (dispatch next s) = u64 (kernel_stack (proc s next) + kernel_stack_size (proc s next)).
Proof.
  unfold dispatch, proc. simpl. unfold upd. rewrite Z.eqb_refl. split_and!; [done| |done].
  intros p. by destruct (Z.eqb_spec p next) as [->|].
Qed.

(** The process chosen when the queue is [l]. *)
Definition chosen s l : option Z := default (idle_proc s) (Some <$> head l).

Lemma reschedule_spec s l c :
  sched_inv s l -> current_process s = Some c ->
  exists next s', reschedule c s = Some s' /\ chosen s (requeued s l c) = Some next /\
    sched_inv s' (tail (requeued s l c)) /\ current_process s' = Some next /\
    time_slice (proc s' next) = SCHED_DEFAULT_QUANTUM /\ state (proc s' next) = PROC_STATE_RUNNING /\
    p_context (proc s' c) = cpu s /\
    rip (cpu s') = rip (p_context (proc s' next)) /\ rsp (cpu s') = rsp (p_context (proc s' next)) /\
    sched_ticks s' = sched_ticks s.
Proof.
  intros Hi Hc. destruct (requeue_inv s l c Hi Hc) as (H1 & HR1 & Hno & Hst). unfold reschedule.
  set (s1 := if state_is _ _ then _ else s) in *. injection HR1 as E1 E2 E3 E4 E5 E6 _ _.
  destruct (dequeue_next s1 _ H1) as (next & s2 & -> & Hn & Hv & HQ & HR2 & HT & Hnin & Hin).
  rewrite E2 in Hn. injection HR2 as F1 F2 F3 F4 F5 F6 _ _.
  destruct (dispatch_facts next s2) as (D1 & D2 & D3). set (s3 := dispatch next s2) in *.
  set (s4 := if address_space (proc s3 c) =? _ then _ else _).
  assert (forall p, proc s4 p = proc s3 p) as P4 by (intros p; unfold s4; by case_if).
  assert (forall p, address_space (proc s3 p) = address_space (proc s p) /\
                    (p <> next -> state (proc s3 p) = state (proc s1 p))) as P3.
  { intros p. destruct (Hst p) as [st Hp]. assert (proc s2 p = proc s1 p) as P2 by (unfold proc; by rewrite HT).
    rewrite D2, P2, Hp. destruct (Z.eqb_spec p next); by split. }
  assert (cr3 (vmem s4) = virt_to_phys_kernel (address_space (proc s3 next))) as Hcr3.
  { unfold s4. case_if; bools; [|done]. change (vmem s3) with (vmem s2). rewrite F5, E5.
    destruct (si_current _ _ Hi c Hc) as (_ & -> & _). f_equal.
    by rewrite <- (proj1 (P3 c)). }
  assert (cpu s4 = cpu s) as Hcpu by (unfold s4; case_if; simpl; congruence).
  assert (sched_ticks s4 = sched_ticks s) as Hticks by (unfold s4; case_if; simpl; congruence).
  exists next, (context_switch c next s4). split; [done|]. split; [done|].
  assert (forall p, exists x, proc (context_switch c next s4) p = set_context x (proc s3 p)) as P5.
  { intros p. unfold context_switch. change (proc (set_cpu _ ?t) p) with (proc t p).
    rewrite proc_mod, !P4. destruct (Z.eqb_spec p c) as [->|]; [by eexists|].
    exists (p_context (proc s3 p)). by destruct (proc s3 p). }
  destruct (P5 next) as [x Hx].
  split.
  { apply (dispatch_inv s1 _ (requeued s l c) next); try done.
    - unfold s4. destruct HQ. by case_if; split.
    - unfold s4. by case_if.
    - simpl. unfold s4. case_if; simpl; congruence.
    - intros p Hp. destruct (P5 p) as [y ->]. by apply P3.
    - by rewrite Hx, D2, Z.eqb_refl.
    - by rewrite Hx.
    - rewrite Hx, D2, Z.eqb_refl. transitivity (tss_rsp0 s3); [unfold s4; by case_if|done]. }
  split_and!.
  - simpl. unfold s4. by case_if.
  - by rewrite Hx, D2, Z.eqb_refl.
  - by rewrite Hx, D2, Z.eqb_refl.
  - unfold context_switch. change (proc (set_cpu _ ?t) c) with (proc t c). by rewrite proc_mod_eq.
  - done.
  - done.
  - done.
Qed.
End invariant.

(** ** Theorems *)

Section theorems.
Context {A : Type}.
Implicit Types (s : kstate A) (p c : Z) (l : list Z).

Lemma tick_same s c :
  same_sched s (mod_proc c (fun q => set_total_ticks (u64 (total_ticks q + 1)) q)
                  (mod_proc c (fun q => set_time_slice (time_slice q - 1) q)
                     (set_sched_ticks (u64 (sched_ticks s + 1)) s))).
Proof.
  unfold same_sched. split_and!; try done. intros p. rewrite !proc_mod, Z.eqb_refl.
  by destruct (Z.eqb_spec p c) as [->|].
Qed.

Lemma ticks_same s : same_sched s (set_sched_ticks (u64 (sched_ticks s + 1)) s).
Proof. unfold same_sched. by split_and!. Qed.

(** What a tick does when there is a current process, by its remaining time. *)
Lemma tick_current s l c :
  sched_inv s l -> current_process s = Some c ->
  exists s1, same_sched s s1 /\ cpu s1 = cpu s /\ sched_ticks s1 = u64 (sched_ticks s + 1) /\
    (1 < time_slice (proc s c) -> time_slice (proc s1 c) = time_slice (proc s c) - 1) /\
    scheduler_tick s = if 1 <? time_slice (proc s c) then Some s1 else reschedule c s1.
Proof.
  intros Hi Hc. unfold scheduler_tick. set (s0 := set_sched_ticks _ s).
  change (current_process s0) with (current_process s). rewrite Hc.
  change (proc s0 c) with (proc s c). destruct (Z.ltb_spec 0 (time_slice (proc s c))) as [H0|H0].
  - eexists. split; [apply tick_same|]. split; [done|]. split; [done|].
    rewrite !proc_mod_eq. change (time_slice (set_total_ticks ?x ?q)) with (time_slice q).
    change (time_slice (set_time_slice ?x ?q)) with x. split; [done|].
    fold s0. change (proc s0 c) with (proc s c).
    destruct (Z.ltb_spec 0 (time_slice (proc s c) - 1)), (Z.ltb_spec 1 (time_slice (proc s c)));
      (done || lia).
  - exists s0. split; [apply ticks_same|]. split; [done|]. split; [done|]. split; [lia|].
    by rewrite (proj2 (Z.ltb_ge _ _)) by lia.
Qed.

Lemma requeued_same s s' l c : same_sched s s' -> requeued s' l c = requeued s l c.
Proof. intros (_ & _ & _ & _ & _ & _ & _ & _ & H). unfold requeued. by destruct (H c) as (-> & _). Qed.

Lemma chosen_same s s' l : same_sched s s' -> chosen s' l = chosen s l.
Proof. intros (_ & _ & _ & _ & _ & H & _). unfold chosen. by rewrite H. Qed.

(** The whole effect of a tick on the current process and the queue. *)
Lemma tick_spec s l :
  sched_inv s l ->
  exists s', scheduler_tick s = Some s' /\ sched_ticks s' = u64 (sched_ticks s + 1) /\
    match current_process s with
    | Some c =>
        if 1 <? time_slice (proc s c) then
          sched_inv s' l /\ current_process s' = Some c /\
          time_slice (proc s' c) = time_slice (proc s c) - 1
        else
          exists next, chosen s (requeued s l c) = Some next /\ current_process s' = Some next /\
            sched_inv s' (tail (requeued s l c)) /\
            time_slice (proc s' next) = SCHED_DEFAULT_QUANTUM /\ p_context (proc s' c) = cpu s
    | None =>
        exists next, chosen s l = Some next /\ current_process s' = Some next /\
          sched_inv s' (tail l) /\ time_slice (proc s' next) = SCHED_DEFAULT_QUANTUM /\ cpu s' = cpu s
    end.
Proof.
  intros Hi. destruct (current_process s) as [c|] eqn:Hc.
  - destruct (tick_current s l c Hi Hc) as (s1 & Hs & Hcpu & Ht & Hsl & ->).
    pose proof (sched_inv_ext _ _ _ Hi Hs) as H1.
    assert (current_process s1 = Some c) as Hc1 by (destruct Hs as (_ & _ & _ & _ & -> & _); done).
    destruct (Z.ltb_spec 1 (time_slice (proc s c))) as [Hlt|Hge].
    + exists s1. split_and!; try done. by apply Hsl.
    + destruct (reschedule_spec s1 l c H1 Hc1) as (next & s' & -> & Hn & HI & Hcur & Hq & _ & Hx & _ & _ & Ht').
      exists s'. split; [done|]. split; [congruence|]. exists next.
      rewrite (requeued_same s s1 l c Hs) in *. rewrite (chosen_same s s1 _ Hs) in Hn.
      split_and!; try done. congruence.
  - unfold scheduler_tick. set (s0 := set_sched_ticks _ s).
    change (current_process s0) with (current_process s). rewrite Hc.
    pose proof (sched_inv_ext _ s0 _ Hi (ticks_same s)) as H0.
    destruct (dequeue_next s0 l H0) as (next & s2 & -> & Hn & Hv & HQ & HR & HT & Hnin & Hin).
    injection HR as F1 F2 F3 F4 F5 F6 _ _. destruct (dispatch_facts next s2) as (D1 & D2 & D3).
    assert (proc s2 = proc s0) as P2 by (unfold proc; by rewrite HT).
    eexists. split; [done|]. split; [done|]. exists next. split; [done|]. split; [done|].
    assert (forall p, proc (switch_space next (dispatch next s2)) p = proc (dispatch next s2) p) as P3 by done.
    split; [|split; [rewrite P3, D2, Z.eqb_refl; done|done]].
    apply (dispatch_inv s0 _ l next); try done.
    + intros p Hp Hr. apply (si_running _ _ H0 p Hp) in Hr. simpl in Hr. congruence.
    + by destruct HQ.
    + intros p Hp. by rewrite P3, D2, (proj2 (Z.eqb_neq _ _) Hp), P2.
    + by rewrite P3, D2, Z.eqb_refl.
Qed.

(** The operations of the scheduler, called in any order.  A process is added
    when it is not READY already, and blocks with a reason that is neither
    READY nor RUNNING. *)
Inductive sched_step : kstate A -> kstate A -> Prop :=
| step_add s p : valid_slot p -> state (proc s p) <> PROC_STATE_READY ->
    sched_step s (scheduler_add (Some p) s)
| step_tick s s' : scheduler_tick s = Some s' -> sched_step s s'
| step_yield s s' : scheduler_yield s = Some s' -> sched_step s s'
| step_block s p reason : valid_slot p -> reason <> PROC_STATE_READY -> reason <> PROC_STATE_RUNNING ->
    sched_step s (scheduler_block (Some p) reason s)
| step_unblock s p : valid_slot p -> sched_step s (scheduler_unblock (Some p) s).

Lemma add_inv s l p :
  sched_inv s l -> valid_slot p -> state (proc s p) <> PROC_STATE_READY ->
  sched_inv (ready_enqueue p s) (l ++ [p]).
Proof.
  intros Hi Hp Hs. rewrite (si_ready _ _ Hi p Hp) in Hs.
  destruct (enqueue_inv s l p (state (proc s p)) Hi Hp Hs) as [H _]. by rewrite mod_proc_id in H.
Qed.

Lemma step_inv s s' l : sched_inv s l -> sched_step s s' -> exists l', sched_inv s' l'.
Proof.
  intros Hi Hst. destruct Hst as [s0 p Hp Hs|s0 s1 Ht|s0 s1 Hy|s0 p reason Hp H1 H2|s0 p Hp].
  - exists (l ++ [p]). by apply add_inv.
  - destruct (tick_spec s0 l Hi) as (s2 & Ht' & _ & H). rewrite Ht' in Ht. injection Ht as ->.
    destruct (current_process s0) as [c|]; [case_if|].
    + exists l. apply H.
    + destruct H as (n & _ & _ & H & _). by eexists.
    + destruct H as (n & _ & _ & H & _). by eexists.
  - unfold scheduler_yield in Hy. destruct (current_process s0) as [c|] eqn:Hc.
    + destruct (reschedule_spec s0 l c Hi Hc) as (n & s2 & Hr & _ & H & _).
      rewrite Hr in Hy. injection Hy as ->. by eexists.
    + injection Hy as <-. by exists l.
  - eexists. by apply remove_inv.
  - unfold scheduler_unblock, state_is. destruct (decide (state (proc s0 p) = PROC_STATE_READY)) as [E|E].
    + rewrite bool_decide_true by done. by exists l.
    + rewrite bool_decide_false by done. simpl. case_bool_decide; [by exists l|].
      exists (l ++ [p]). by apply add_inv.
Qed.

(** C8: In every state the scheduler reaches, the ready queue holds
    exactly the READY processes, each once; at most one process is RUNNING and
    it is [current_process]; CR3 is its page table and the TSS its kernel
    stack.  The queue never overflows and no operation dereferences NULL. *)
Theorem scheduler_reachable s l s' :
  sched_inv s l -> reach sched_step s s' ->
  (exists l', sched_inv s' l' /\ (length l' <= MAX_READY)%nat) /\
  is_Some (scheduler_tick s') /\ is_Some (scheduler_yield s').
Proof.
  intros Hi Hr. assert (exists l', sched_inv s' l') as [l' H'].
  { refine (reach_invariant sched_step (fun t => exists k, sched_inv t k) s s' _ _ Hr); [|by exists l].
    intros a b [k Hk] Hs. by eapply step_inv. }
  split_and!.
  - exists l'. split; [done|]. pose proof (rr_cap _ _ _ _ _ (qr_ring _ _ (si_rep _ _ H'))) as Hl.
    by rewrite length_fmap in Hl.
  - destruct (tick_spec s' l' H') as (s2 & -> & _). by eexists.
  - unfold scheduler_yield. destruct (current_process s') as [c|] eqn:Hc; [|by eexists].
    destruct (reschedule_spec s' l' c H' Hc) as (n & s2 & -> & _). by eexists.
Qed.

(** After [scheduler_init] the invariant holds with an empty queue. *)
Lemma scheduler_init_inv s s' i :
  scheduler_init (Some i) s = Some s' -> length (ready_queue s) = MAX_READY ->
  valid_slot i -> current_process s = None ->
  (forall p, valid_slot p -> state (proc s p) <> PROC_STATE_READY /\
                             state (proc s p) <> PROC_STATE_RUNNING) ->
  sched_inv s' [].
Proof.
  intros [= <-] Hq Hi Hc Hst. split; simpl.
  - split; [|done]. simpl. apply ring_empty; [done|]. unfold MAX_READY. lia.
  - constructor.
  - set_solver.
  - intros p Hp. destruct (Hst p Hp) as [H _]. split; [done|set_solver].
  - intros p Hp Hr. by destruct (Hst p Hp) as [_ H].
  - congruence.
  - by exists i.
Qed.

(** [n] timer interrupts. *)
Fixpoint ticks (n : nat) s : option (kstate A) :=
  match n with
  | O => Some s
  | S n => match scheduler_tick s with Some s => ticks n s | None => None end
  end.

Lemma ticks_app n m s s1 : ticks n s = Some s1 -> ticks (n + m) s = ticks m s1.
Proof.
  revert s. induction n as [|n IH]; intros s; simpl; [by intros [= ->]|].
  destruct (scheduler_tick s) as [t|]; [apply IH|done].
Qed.

(** The time left to the current process. *)
Definition slice s : Z :=
  match current_process s with Some c => time_slice (proc s c) | None => 0 end.

(** The quantum runs out within five ticks; then the first process of a
    non-empty queue runs, and the others keep their order. *)
Lemma quantum_ends s p l n :
  sched_inv s (p :: l) -> slice s <= Z.of_nat (S n) ->
  exists k s' l', (1 <= k <= S n)%nat /\ ticks k s = Some s' /\ sched_inv s' (l ++ l') /\
    current_process s' = Some p /\ slice s' = SCHED_DEFAULT_QUANTUM.
Proof.
  revert s. induction n as [|n IH]; intros s Hi Hs; destruct (tick_spec s _ Hi) as (s1 & Ht & _ & H);
    unfold slice in Hs; destruct (current_process s) as [c|] eqn:Hc.
  1: rewrite (proj2 (Z.ltb_ge _ _)) in H by lia. 
  3: destruct (Z.ltb_spec 1 (time_slice (proc s c))) as [Hlt|_];
     [destruct H as (H1 & H2 & H3);
      destruct (IH s1 H1) as (k & s2 & l' & Hk & Ht2 & R); [unfold slice; rewrite H2; lia|];
      exists (S k), s2, l'; split; [lia|]; cbn [ticks]; by rewrite Ht|].
  all: exists 1%nat, s1; destruct H as (next & Hn & Hcur & HI & Hq & _);
    cbn [ticks]; rewrite Ht; unfold slice; rewrite Hcur; unfold chosen, requeued in *.
  2, 4: simpl in *; injection Hn as <-; exists []; rewrite app_nil_r; split_and!; (done || lia).
  all: destruct (state_is _ _); simpl in *; injection Hn as <-;
    [exists [c]|exists []; rewrite app_nil_r]; split_and!; (done || lia).
Qed.

(** C23: Round robin.  When only the timer acts, a process with [k]
    processes ahead of it in the ready queue runs after at most [5 (k + 1)]
    ticks: every process waits a bounded time for its quantum. *)
Theorem round_robin_fair s l1 p l2 :
  sched_inv s (l1 ++ p :: l2) -> slice s <= SCHED_DEFAULT_QUANTUM ->
  exists n s', (1 <= n <= 5 * (length l1 + 1))%nat /\ ticks n s = Some s' /\
    current_process s' = Some p.
Proof.
  revert s l2. induction l1 as [|q l1 IH]; intros s l2 Hi Hs; simpl in Hi.
  - destruct (quantum_ends s p l2 4 Hi Hs) as (k & s' & l' & Hk & Ht & _ & Hc & _).
    exists k, s'. split; [simpl; lia|done].
  - destruct (quantum_ends s q _ 4 Hi Hs) as (k & s1 & l' & Hk & Ht & H1 & _ & Hs1).
    rewrite <- app_assoc in H1. destruct (IH s1 (l2 ++ l') H1 ltac:(lia)) as (n & s' & Hn & Ht' & Hc).
    exists (k + n)%nat, s'. split; [simpl; lia|]. by rewrite (ticks_app k n s s1 Ht).
Qed.

(** The idle process is queued like any other once it has run: the comment in
    [scheduler_init] means it to be a fallback only. *)
Lemma idle_is_queued s l i :
  sched_inv s l -> current_process s = Some i -> idle_proc s = Some i ->
  state (proc s i) = PROC_STATE_RUNNING -> time_slice (proc s i) <= 1 -> l <> [] ->
  exists s' l', scheduler_tick s = Some s' /\ sched_inv s' l' /\ i ∈ l'.
Proof.
  intros Hi Hc _ Hr Ht Hl. destruct (tick_spec s l Hi) as (s' & Htick & _ & H). rewrite Hc in H.
  rewrite (proj2 (Z.ltb_ge _ _)) in H by lia. destruct H as (n & _ & _ & HI & _).
  exists s', (tail (requeued s l i)). split; [done|]. split; [done|].
  unfold requeued, state_is. rewrite bool_decide_true by done. destruct l as [|q l]; [done|].
  simpl. apply elem_of_app. right. by apply list_elem_of_singleton.
Qed.
End theorems.

(** ** Witnesses *)

(** Three processes that were created and not started; slot 0 is idle. *)
Definition demo_procs : Z -> process := fun p =>
  if p <=? 2 then set_state PROC_STATE_CREATED (set_pid (p + 1) proc_zero) else proc_zero.

Definition demo_start : kstate unit :=
  KState demo_procs None None 4 (replicate MAX_READY None) 0 0 0 0 (Some 0) ctx_zero 0
    (Vm (fun _ _ => 0) tt 0 0) (fun _ => File None 0 0 0) (fun _ => 0) [].

Lemma demo_start_inv : sched_inv demo_start [].
Proof.
  apply (scheduler_init_inv demo_start _ 0 eq_refl); [done|by split|done|]. intros p Hp.
  unfold proc, demo_start, demo_procs. simpl. by case_if.
Qed.

Definition demo_queued : kstate unit := scheduler_add (Some 2) (scheduler_add (Some 1) demo_start).

Lemma demo_queued_inv : sched_inv demo_queued [1; 2].
Proof.
  apply (add_inv (ready_enqueue 1 demo_start) [1] 2); [|by split|done].
  apply (add_inv demo_start [] 1); [apply demo_start_inv|by split|done].
Qed.

#[global] Opaque demo_start demo_queued.

Lemma scheduler_reachable_witness :
  is_Some (scheduler_yield (scheduler_add (Some 1) demo_start)).
Proof.
  refine (proj2 (proj2 (scheduler_reachable demo_start [] _ demo_start_inv _))).
  eapply reach_step; [apply reach_refl|]. apply step_add; [by split|]. by vm_compute.
Defined.

Lemma round_robin_fair_witness :
  exists n s', (1 <= n <= 10)%nat /\ ticks n demo_queued = Some s' /\ current_process s' = Some 2.
Proof. apply (round_robin_fair demo_queued [1] 2 [] demo_queued_inv). by vm_compute. Defined.
