(* ===== verification/Process.v ===== *)
(** * Process management, [process/process.c]

    The process table, the list of all processes, creation, fork, exit,
    waiting, credentials and file descriptors.  Frames and address spaces come
    from the interface of [FrameAlloc.v] and from [Vmm.v]; the timer's tick
    counter and the address of the assembly routine [kernel_thread_entry] are
    arguments.  [process_exec] is not modelled: it needs the file systems. *)

From S2P Require Import Prelude Ring Dll CString FrameAlloc Vmm Pcb Scheduler.

Definition EPERM : Z := 1.
Definition ESRCH : Z := 3.
Definition EBADF : Z := 9.
Definition ECHILD : Z := 10.
Definition EINVAL : Z := 22.
Definition EMFILE : Z := 24.

Definition SIG_DFL : Z := 0.
Definition SIG_IGN : Z := 1.
Definition SIGCHLD : Z := 17.
Definition SIGCONT : Z := 18.
Definition SIGWINCH : Z := 28.

Definition KSTACK_SIZE : Z := 16 * 1024.
Definition GDT_KERNEL_CODE : Z := 0x08.
Definition GDT_KERNEL_DATA : Z := 0x10.

(** [signal_init_process] of [kernel/signal.c]: [memset], then the dispositions. *)
Definition signal_init_process : signal_state :=
  let acts := fun _ => SigAction SIG_DFL 0 0 in
  let acts := upd acts (SIGCHLD - 1) (SigAction SIG_IGN 0 0) in
  let acts := upd acts (SIGCONT - 1) (SigAction SIG_IGN 0 0) in
  let acts := upd acts (SIGWINCH - 1) (SigAction SIG_IGN 0 0) in
  SigState acts 0 0 0 0.

Section process.
Context {A : Type} `{FrameAlloc A}.
Implicit Types (s : kstate A) (p : Z).

(** ** The table and the list *)

(** The first free slot, zeroed. *)
Fixpoint find_unused (n : nat) (i : Z) s : option Z :=
  match n with
  | O => None
  | S n => if state_is (state (proc s i)) PROC_STATE_UNUSED then Some i else find_unused n (i + 1) s
  end.

Definition alloc_process_slot s : option (Z * kstate A) :=
  match find_unused MAX_PROCESSES 0 s with
  | None => None
  | Some i => Some (i, mod_proc i (fun _ => proc_zero) s)
  end.

Definition process_list_add p s : kstate A :=
  let s := mod_proc p (set_p_next (process_list s)) s in
  let s := mod_proc p (set_p_prev None) s in
  let s := match process_list s with
           | Some h => mod_proc h (set_p_prev (Some p)) s
           | None => s
           end in
  set_list (Some p) s.

Definition process_list_remove p s : kstate A :=
  let s := match p_prev (proc s p) with
           | Some q => mod_proc q (set_p_next (p_next (proc s p))) s
           | None => set_list (p_next (proc s p)) s
           end in
  let s := match p_next (proc s p) with
           | Some q => mod_proc q (set_p_prev (p_prev (proc s p))) s
           | None => s
           end in
  mod_proc p (set_p_prev None) (mod_proc p (set_p_next None) s).

(** [while (proc)] over [process_list]; the fuel is the size of the table. *)
Fixpoint list_find_proc (n : nat) (f : Z -> bool) (q : option Z) s : option Z :=
  match n, q with
  | S n, Some q => if f q then Some q else list_find_proc n f (p_next (proc s q)) s
  | _, _ => None
  end.

Definition process_get_by_pid (id : Z) s : option Z :=
  list_find_proc MAX_PROCESSES (fun q => pid (proc s q) =? id) (process_list s) s.

(** ** Creation *)

(** A word written through its kernel virtual address. *)
Definition write_word (a v : Z) (m : vm (A := A)) : vm := put_entry (a .&~ 0xFFF) ((a .& 0xFFF) / 8) v m.

(** The initial stack pointer; 0 when there is no memory. *)
Definition setup_kernel_stack (thread_entry p entry : Z) s : Z * kstate A :=
  let '(stack_phys, f) := alloc_frames (KSTACK_SIZE / PAGE_SIZE) (frames (vmem s)) in
  let s := set_vmem (with_frames f (vmem s)) s in
  if stack_phys =? 0 then (0, s)
  else
    let stack_virt := PHYS_TO_VIRT stack_phys in
    let s := mod_proc p (set_kernel_stack stack_virt) s in
    let s := mod_proc p (set_kernel_stack_size KSTACK_SIZE) s in
    let sp := u64 (stack_virt + KSTACK_SIZE) in
    let sp := u64 (sp - 8) in
    let s := set_vmem (write_word sp entry (vmem s)) s in
    let sp := u64 (sp - 8) in
    let s := set_vmem (write_word sp thread_entry (vmem s)) s in
    (sp, s).

Definition process_init s : kstate A :=
  set_next_pid 1 (set_current None (set_list None (set_table (fun _ => proc_zero) s))).

(** The fields set before the address space exists. *)
Definition new_process (pname : list Z) (id parent now : Z) (q : process) : process :=
  let q := set_pid id q in
  let q := set_ppid parent q in
  let q := set_pgid (pid q) q in
  let q := set_sid (pid q) q in
  let q := set_state PROC_STATE_CREATED q in
  let q := set_name (<[63%nat := 0]> (strncpy (name q) pname 63)) q in
  let q := set_cwd (strncpy (cwd q) [47] 255) q in
  let q := set_priority 5 q in
  let q := set_time_slice SCHED_DEFAULT_QUANTUM q in
  let q := set_start_tick now q in
  set_sigstate signal_init_process q.

Definition process_create (thread_entry : Z) (pname : list Z) (entry : Z) (kernel : bool) (now : Z) s
    : option Z * kstate A :=
  match alloc_process_slot s with
  | None => (None, s)
  | Some (p, s) =>
      let id := next_pid s in
      let s := set_next_pid (u32 (id + 1)) s in
      let parent := match current_process s with Some c => pid (proc s c) | None => 0 end in
      let s := mod_proc p (new_process pname id parent now) s in
      let '(space, s) :=
        if kernel then (kernel_pml4 (vmem s), s)
        else let '(a, m) := vmm_create_address_space (vmem s) in (a, set_vmem m s) in
      let s := mod_proc p (set_address_space space) s in
      if negb kernel && (space =? 0) then (None, mod_proc p (set_state PROC_STATE_UNUSED) s)
      else
        let '(initial_rsp, s) := setup_kernel_stack thread_entry p entry s in
        if initial_rsp =? 0 then
          let s := if kernel then s
                   else set_vmem (vmm_destroy_address_space (address_space (proc s p)) (vmem s)) s in
          (None, mod_proc p (set_state PROC_STATE_UNUSED) s)
        else
          let s := mod_proc p (set_context (Ctx 0 0 0 0 0 0 initial_rsp thread_entry 0x202
                                              GDT_KERNEL_CODE GDT_KERNEL_DATA)) s in
          (Some p, process_list_add p s)
  end.

(** ** Fork *)

Definition process_fork (parent : Z) s : option Z * kstate A :=
  match alloc_process_slot s with
  | None => (None, s)
  | Some (c, s) =>
      let s := mod_proc c (fun _ => proc s parent) s in
      let id := next_pid s in
      let s := set_next_pid (u32 (id + 1)) s in
      let s := mod_proc c (set_pid id) s in
      let s := mod_proc c (set_ppid (pid (proc s parent))) s in
      let s := mod_proc c (set_state PROC_STATE_CREATED) s in
      let s := mod_proc c (fun q => set_p_next None (set_p_prev None q)) s in
      let s := mod_proc c (set_total_ticks 0) s in
      let s := mod_proc c (set_time_slice SCHED_DEFAULT_QUANTUM) s in
      let '(space, m) := vmm_clone_address_space (address_space (proc s parent)) (vmem s) in
      let s := set_vmem m s in
      let s := mod_proc c (set_address_space space) s in
      if space =? 0 then (None, mod_proc c (set_state PROC_STATE_UNUSED) s)
      else
        let '(kstack_phys, f) := alloc_frames (KSTACK_SIZE / PAGE_SIZE) (frames (vmem s)) in
        let s := set_vmem (with_frames f (vmem s)) s in
        if kstack_phys =? 0 then
          let s := set_vmem (vmm_destroy_address_space (address_space (proc s c)) (vmem s)) s in
          (None, mod_proc c (set_state PROC_STATE_UNUSED) s)
        else
          let s := mod_proc c (set_kernel_stack (PHYS_TO_VIRT kstack_phys)) s in
          let s := mod_proc c (set_kernel_stack_size KSTACK_SIZE) s in
          (Some c, process_list_add c s)
  end.

(** ** File descriptors *)

(** [vfs_close] of [fs/vfs.c]; the driver's [close] is recorded. *)
Definition vfs_close (node : option Z) s : kstate A :=
  match node with
  | None => s
  | Some n =>
      let s := set_node_closes (n :: node_closes s) s in
      if 0 <? node_refs s n then set_node_refs (upd (node_refs s) n (node_refs s n - 1)) s else s
  end.

(** [for (i = 0; i < MAX_FDS; i++) if (!proc->fds[i].file) return i;] *)
Fixpoint find_fd (n : nat) (i : Z) (t : Z -> fd_entry) : Z :=
  match n with
  | O => -1
  | S n => match fd_file (t i) with None => i | Some _ => find_fd n (i + 1) t end
  end.

Definition fd_alloc p s : Z := find_fd MAX_FDS 0 (fds (proc s p)).

Definition fd_close p (fd : Z) s : kstate A :=
  if (fd <? 0) || (64 <=? fd) then s
  else match fd_file (fds (proc s p) fd) with
       | None => s
       | Some f =>
           let s := vfs_close (f_node (files s f)) s in
           mod_proc p (fun q => set_fds (upd (fds q) fd fd_none) q) s
       end.

(** [file->refcount++] *)
Definition file_addref (f : option Z) s : kstate A :=
  match f with
  | None => s
  | Some f => set_files (upd (files s) f (File (f_node (files s f)) (f_offset (files s f))
                                            (f_flags (files s f)) (f_refcount (files s f) + 1))) s
  end.

Definition fd_dup p (fd : Z) s : Z * kstate A :=
  if (fd <? 0) || (64 <=? fd) then (- EBADF, s)
  else match fd_file (fds (proc s p) fd) with
       | None => (- EBADF, s)
       | Some f =>
           let new_fd := fd_alloc p s in
           if new_fd <? 0 then (- EMFILE, s)
           else
             let s := mod_proc p (fun q => set_fds (upd (fds q) new_fd (fds q fd)) q) s in
             (new_fd, file_addref (fd_file (fds (proc s p) new_fd)) s)
       end.

Definition fd_dup2 p (oldfd newfd : Z) s : Z * kstate A :=
  if (oldfd <? 0) || (64 <=? oldfd) || (newfd <? 0) || (64 <=? newfd) then (- EBADF, s)
  else match fd_file (fds (proc s p) oldfd) with
       | None => (- EBADF, s)
       | Some f =>
           if oldfd =? newfd then (newfd, s)
           else
             let s := match fd_file (fds (proc s p) newfd) with
                      | Some _ => fd_close p newfd s
                      | None => s
                      end in
             let s := mod_proc p (fun q => set_fds (upd (fds q) newfd (fds q oldfd)) q) s in
             (newfd, file_addref (fd_file (fds (proc s p) newfd)) s)
       end.

(** ** Exit and wait *)

(** The three releases of [process_exit]. *)
Definition close_fds p s : kstate A :=
  iter_range MAX_FDS 0
    (fun i s => match fd_file (fds (proc s p) i) with Some _ => fd_close p i s | None => s end) s.

Definition free_space p s : kstate A :=
  if address_space (proc s p) =? kernel_pml4 (vmem s) then s
  else mod_proc p (set_address_space 0)
         (set_vmem (vmm_destroy_address_space (address_space (proc s p)) (vmem s)) s).

Definition free_kernel_stack p s : kstate A :=
  if kernel_stack (proc s p) =? 0 then s
  else mod_proc p (set_kernel_stack 0)
         (set_vmem (with_frames (free_frames (VIRT_TO_PHYS (kernel_stack (proc s p)))
            (kernel_stack_size (proc s p) / PAGE_SIZE) (frames (vmem s))) (vmem s)) s).

(** [None] is a NULL dereference in the scheduler. *)
Definition process_exit (p : option Z) (code : Z) s : option (kstate A) :=
  match p with
  | None => Some s
  | Some p =>
      if state_is (state (proc s p)) PROC_STATE_DEAD then Some s
      else
        let s := mod_proc p (set_exit_code code) s in
        let s := mod_proc p (set_state PROC_STATE_ZOMBIE) s in
        let s := close_fds p s in
        let s := free_space p s in
        let s := free_kernel_stack p s in
        let s := mod_proc p (set_state PROC_STATE_DEAD) s in
        let s := process_list_remove p s in
        let s := mod_proc p (set_state PROC_STATE_UNUSED) s in
        if ptr_eq (Some p) (current_process s) then scheduler_yield (set_current None s) else Some s
  end.

Definition process_wake (p : option Z) s : kstate A := scheduler_unblock p s.

(** The child [process_waitpid] looks for; [id = 2 ^ 32 - 1] is [(pid_t)-1]. *)
Definition reapable (id c q : Z) s : bool :=
  ((id =? 2 ^ 32 - 1) || (pid (proc s q) =? id)) && (ppid (proc s q) =? pid (proc s c)) &&
  state_is (state (proc s q)) PROC_STATE_ZOMBIE.

(** The attempts of [process_waitpid]: [env] is what runs between the call of
    [scheduler_yield] and its return. *)
Fixpoint waitpid_loop (n : nat) (env : nat -> kstate A -> kstate A) (c id : Z) s
    : Z * option Z * kstate A :=
  match n with
  | O => (- ECHILD, None, s)
  | S n =>
      match list_find_proc MAX_PROCESSES (fun q => reapable id c q s) (process_list s) s with
      | Some q => (pid (proc s q), Some (exit_code (proc s q)),
                   mod_proc q (set_state PROC_STATE_DEAD) s)
      | None => waitpid_loop n env c id (env n s)
      end
  end.

(** The return value, the status written, the state. *)
Definition process_waitpid (env : nat -> kstate A -> kstate A) (id : Z) s : Z * option Z * kstate A :=
  match current_process s with
  | None => (- ESRCH, None, s)
  | Some c => waitpid_loop (Z.to_nat 10000) env c id s
  end.

(** ** Credentials *)

Definition process_is_root (p : option Z) s : bool :=
  match p with None => false | Some p => euid (proc s p) =? 0 end.

Definition process_setuid (p : option Z) (u : Z) s : Z * kstate A :=
  match p with
  | None => (- ESRCH, s)
  | Some p =>
      if negb (euid (proc s p) =? 0) && negb (u =? uid (proc s p)) then (- EPERM, s)
      else (0, mod_proc p (fun q => set_euid u (set_uid u q)) s)
  end.

Definition process_setgid (p : option Z) (g : Z) s : Z * kstate A :=
  match p with
  | None => (- ESRCH, s)
  | Some p =>
      if negb (egid (proc s p) =? 0) && negb (g =? gid (proc s p)) then (- EPERM, s)
      else (0, mod_proc p (fun q => set_egid g (set_gid g q)) s)
  end.
End process.
