(* ===== verification/ProcInv.v ===== *)
(** * The process subsystem: invariant and theorems

    Properties of [Process.v] and of its composition with the scheduler
    ([Scheduler.v]): which slots are processes, what the linked list holds, what
    creation, fork, exit, waiting, credentials and descriptors do. *)

From S2P Require Import Prelude Ring Dll CString FrameAlloc Vmm Pmm Pcb Scheduler Process.

(** ** Frames of the operations *)

Section vm_frame.
Context {A : Type} `{FrameAlloc A}.

(** CR3 and the kernel's page table are left alone. *)
Definition same_regs (m m' : vm (A := A)) : Prop := cr3 m' = cr3 m /\ kernel_pml4 m' = kernel_pml4 m.

Lemma same_regs_refl m : same_regs m m.
Proof. done. Qed.
Lemma same_regs_trans m1 m2 m3 : same_regs m1 m2 -> same_regs m2 m3 -> same_regs m1 m3.
Proof. intros [H1 H2] [H3 H4]. split; congruence. Qed.

Lemma iter_range_regs n a (body : Z -> vm -> vm) m :
  (forall k t, same_regs t (body k t)) -> same_regs m (iter_range n a body m).
Proof.
  intros Hb. apply (iter_range_ind (fun _ t => same_regs m t)); [done|].
  intros k t _ Ht. by eapply same_regs_trans.
Qed.

Lemma iter_until_regs n a (body : Z -> vm -> bool * vm) m :
  (forall k t, same_regs t (body k t).2) -> same_regs m (iter_until n a body m).2.
Proof.
  intros Hb. revert a m. induction n as [|n IH]; intros a m; [done|]. cbn [iter_until].
  specialize (Hb a m). destruct (body a m) as [[] t]; [|done].
  eapply same_regs_trans; [done|apply IH].
Qed.

Lemma alloc_page_table_regs m : same_regs m (alloc_page_table m).2.
Proof. unfold alloc_page_table. destruct (alloc_frame _). by case_if. Qed.

Lemma get_or_create_regs t i fl m : same_regs m (get_or_create_table t i fl m).2.
Proof.
  unfold get_or_create_table. case_if; [by case_if|]. pose proof (alloc_page_table_regs m) as Ha.
  destruct (alloc_page_table m) as [c m1]. by case_if.
Qed.

Lemma map_page_regs r v pa fl m : same_regs m (vmm_map_page r v pa fl m).2.
Proof.
  unfold vmm_map_page.
  match goal with |- context [get_or_create_table r ?i ?f m] => pose proof (get_or_create_regs r i f m) as H1;
    destruct (get_or_create_table r i f m) as [t1 m1] end. simpl in H1. case_if; [done|].
  match goal with |- context [get_or_create_table t1 ?i ?f m1] => pose proof (get_or_create_regs t1 i f m1) as H2;
    destruct (get_or_create_table t1 i f m1) as [t2 m2] end. simpl in H2.
  pose proof (same_regs_trans _ _ _ H1 H2) as H12. case_if; [done|]. case_if; [done|].
  match goal with |- context [get_or_create_table t2 ?i ?f m2] => pose proof (get_or_create_regs t2 i f m2) as H3;
    destruct (get_or_create_table t2 i f m2) as [t3 m3] end. simpl in H3.
  pose proof (same_regs_trans _ _ _ H12 H3) as H13. by case_if.
Qed.

Lemma create_space_regs m : same_regs m (vmm_create_address_space m).2.
Proof.
  unfold vmm_create_address_space. pose proof (alloc_page_table_regs m) as Ha.
  destruct (alloc_page_table m) as [t m1]. simpl in Ha. case_if; [done|].
  eapply same_regs_trans; [done|]. apply iter_range_regs. done.
Qed.

Lemma release_after x m m' : same_regs m m' -> same_regs m (release x m').
Proof. done. Qed.

Lemma destroy_space_regs r m : same_regs m (vmm_destroy_address_space r m).
Proof.
  unfold vmm_destroy_address_space. apply release_after, iter_range_regs. intros i m1.
  case_if; [done|]. apply release_after. unfold destroy_pdpt. apply iter_range_regs. intros j m2.
  case_if; [done|]. apply release_after. unfold destroy_pd. apply iter_range_regs. intros k m3.
  case_if; [done|]. case_if; [done|]. apply release_after. unfold destroy_pt.
  apply iter_range_regs. intros l m4. by case_if.
Qed.

Lemma copy_pages_regs n d r m : same_regs m (copy_pages n d r m).
Proof. unfold copy_pages. by apply iter_range_regs. Qed.

Lemma clone_pte_regs d i j k t l m : same_regs m (clone_pte d i j k t l m).2.
Proof.
  unfold clone_pte. case_if; [done|].
  match goal with |- context [vmm_map_page ?a ?b ?c ?e m] =>
    pose proof (map_page_regs a b c e m) as H3; destruct (vmm_map_page a b c e m) as [x m6] end.
  simpl in H3. by case_if.
Qed.

Lemma clone_pde_regs d i j t k m : same_regs m (clone_pde d i j t k m).2.
Proof.
  unfold clone_pde. case_if; [done|]. case_if; [|apply iter_until_regs; intros; apply clone_pte_regs].
  destruct (alloc_frames 512 (frames m)) as [np f]. case_if; [done|].
  match goal with |- context [vmm_map_page ?a ?b ?c ?e ?t] =>
    pose proof (map_page_regs a b c e t) as H3; destruct (vmm_map_page a b c e t) as [x m6] end.
  refine (same_regs_trans _ _ _ _ H3). apply (same_regs_trans _ (with_frames f m)); [done|].
  apply copy_pages_regs.
Qed.

Lemma clone_pml4e_regs r d i m : same_regs m (clone_pml4e r d i m).2.
Proof.
  unfold clone_pml4e. case_if; [done|]. apply iter_until_regs. intros j m3.
  unfold clone_pdpte. case_if; [done|]. apply iter_until_regs. intros k m4. apply clone_pde_regs.
Qed.

Lemma clone_space_regs r m : same_regs m (vmm_clone_address_space r m).2.
Proof.
  unfold vmm_clone_address_space. pose proof (create_space_regs m) as H1.
  destruct (vmm_create_address_space m) as [d m1]. cbn [snd] in H1. case_if; [done|].
  pose proof (iter_until_regs 256 0 (clone_pml4e r d) m1 (clone_pml4e_regs r d)) as H2.
  destruct (iter_until 256 0 _ m1) as [[] m2]; cbn [snd] in *; [by eapply same_regs_trans|].
  eapply same_regs_trans; [by eapply same_regs_trans|]. apply destroy_space_regs.
Qed.
End vm_frame.

(** ** The list of processes *)

Section table.
Context {A : Type} `{FrameAlloc A}.
Implicit Types (s : kstate A) (p q c : Z) (l : list Z).

(** The states of a process that exists. *)
Definition live (st : proc_state) : Prop :=
  match st with
  | PROC_STATE_CREATED | PROC_STATE_RUNNING | PROC_STATE_READY | PROC_STATE_SLEEPING
  | PROC_STATE_WAITING => True
  | _ => False
  end.

Definition nx s : Z -> option Z := fun q => p_next (proc s q).
Definition pv s : Z -> option Z := fun q => p_prev (proc s q).

(** The linked list holds the used slots of the table, and identifiers are unique. *)
Record table_inv s l : Prop := {
  ti_dll : dll (nx s) (pv s) None (process_list s) l;
  ti_nodup : NoDup l;
  ti_valid p : p ∈ l -> valid_slot p;
  ti_live p : p ∈ l -> live (state (proc s p));
  ti_free p : valid_slot p -> p ∉ l -> state (proc s p) = PROC_STATE_UNUSED;
  ti_pid p : p ∈ l -> 0 < pid (proc s p) < next_pid s;
  ti_unique p q : p ∈ l -> q ∈ l -> pid (proc s p) = pid (proc s q) -> p = q
}.

(** The scan finds the first match of the list. *)
Lemma list_find_proc_spec s f n h pr l :
  dll (nx s) (pv s) pr h l -> (length l <= n)%nat ->
  list_find_proc n f h s = snd <$> list_find (fun q => f q = true) l.
Proof.
  revert h pr l. induction n as [|n IH]; intros h pr l Hd Hl.
  - destruct l; [|simpl in Hl; lia]. done.
  - destruct l as [|q l]; simpl in Hd; [by rewrite Hd|]. destruct Hd as (-> & _ & Hd).
    cbn [list_find_proc list_find]. destruct (f q) eqn:E.
    + by rewrite decide_True.
    + rewrite decide_False by congruence. change (p_next (proc s q)) with (nx s q). rewrite (IH _ _ l Hd) by (simpl in Hl; lia).
      by destruct (list_find _ l) as [[]|].
Qed.

Lemma table_length s l : table_inv s l -> (length l <= MAX_PROCESSES)%nat.
Proof.
  intros Hi. assert (l ⊆+ seqZ 0 256) as Hs.
  { apply NoDup_submseteq; [apply (ti_nodup _ _ Hi)|]. intros q Hq. apply elem_of_seqZ.
    apply (ti_valid _ _ Hi) in Hq. unfold valid_slot in Hq. lia. }
  apply submseteq_length in Hs. by rewrite length_seqZ in Hs.
Qed.

(** What the list operations leave alone. *)
Definition not_links (q q' : process) : Prop := exists n b, q' = set_p_prev b (set_p_next n q).

Lemma not_links_refl (q : process) : not_links q q.
Proof. exists (p_next q), (p_prev q). by destruct q. Qed.

Lemma not_links_next (q q' : process) n : not_links q q' -> not_links q (set_p_next n q').
Proof. intros (a & b & ->). by exists n, b. Qed.
Lemma not_links_prev (q q' : process) n : not_links q q' -> not_links q (set_p_prev n q').
Proof. intros (a & b & ->). by exists a, n. Qed.

Hint Resolve not_links_refl not_links_next not_links_prev : aether.

Lemma mod_proc_links p f s0 s :
  (forall q, not_links (proc s0 q) (proc s q)) ->
  (forall x y, not_links x y -> not_links x (f y)) ->
  forall q, not_links (proc s0 q) (proc (mod_proc p f s) q).
Proof. intros H1 H2 q. rewrite proc_mod. destruct (Z.eqb_spec q p) as [->|]; auto. Qed.

Lemma list_add_links p s q : not_links (proc s q) (proc (process_list_add p s) q).
Proof.
  revert q. unfold process_list_add. intros q. change (proc (set_list ?v ?t) q) with (proc t q). revert q.
  destruct (process_list _); repeat (apply mod_proc_links; [|by auto with aether]); auto with aether.
Qed.

Lemma list_remove_links p s q : not_links (proc s q) (proc (process_list_remove p s) q).
Proof.
  unfold process_list_remove.
  set (s1 := match p_prev (proc s p) with Some _ => _ | None => _ end).
  assert (forall q, not_links (proc s q) (proc s1 q)) as H1.
  { unfold s1. destruct (p_prev (proc s p)); [|auto with aether].
    apply mod_proc_links; auto with aether. }
  set (s2 := match p_next (proc s1 p) with Some _ => _ | None => _ end).
  assert (forall q, not_links (proc s q) (proc s2 q)) as H2.
  { unfold s2. destruct (p_next (proc s1 p)); [|done]. apply mod_proc_links; auto with aether. }
  revert q. do 2 (apply mod_proc_links; [|by auto with aether]). done.
Qed.

Lemma process_list_mod p f s : process_list (mod_proc p f s) = process_list s.
Proof. done. Qed.
Lemma nx_mod_next p n s x : nx (mod_proc p (set_p_next n) s) x = upd (nx s) p n x.
Proof. unfold nx, upd. rewrite proc_mod. by destruct (x =? p). Qed.
Lemma nx_mod_prev p n s x : nx (mod_proc p (set_p_prev n) s) x = nx s x.
Proof. unfold nx. rewrite proc_mod. by destruct (Z.eqb_spec x p) as [->|]. Qed.
Lemma pv_mod_prev p n s x : pv (mod_proc p (set_p_prev n) s) x = upd (pv s) p n x.
Proof. unfold pv, upd. rewrite proc_mod. by destruct (x =? p). Qed.
Lemma pv_mod_next p n s x : pv (mod_proc p (set_p_next n) s) x = pv s x.
Proof. unfold pv. rewrite proc_mod. by destruct (Z.eqb_spec x p) as [->|]. Qed.

(** Linking a new process at the front. *)
Lemma list_add_dll s l p :
  dll (nx s) (pv s) None (process_list s) l -> NoDup l -> p ∉ l ->
  dll (nx (process_list_add p s)) (pv (process_list_add p s)) None
    (process_list (process_list_add p s)) (p :: l).
Proof.
  intros Hd Hn Hp. pose proof (dll_push _ _ _ _ p Hp Hn Hd) as Hd'.
  change (process_list (process_list_add p s)) with (Some p).
  refine (dll_ext _ _ _ _ _ _ _ _ Hd'). intros x _. unfold process_list_add. cbv zeta.
  change (nx (set_list ?v ?t) x) with (nx t x). change (pv (set_list ?v ?t) x) with (pv t x).
  rewrite !process_list_mod.
  destruct (process_list s) as [h|].
  - rewrite !nx_mod_prev, nx_mod_next. split; [done|]. rewrite pv_mod_prev. unfold upd.
    rewrite pv_mod_prev. unfold upd. by rewrite pv_mod_next.
  - rewrite nx_mod_prev, nx_mod_next. split; [done|]. rewrite pv_mod_prev. unfold upd.
    by rewrite pv_mod_next.
Qed.

(** Unlinking one. *)
Lemma list_remove_dll s l1 p l2 :
  dll (nx s) (pv s) None (process_list s) (l1 ++ p :: l2) -> NoDup (l1 ++ p :: l2) ->
  dll (nx (process_list_remove p s)) (pv (process_list_remove p s)) None
    (process_list (process_list_remove p s)) (l1 ++ l2).
Proof.
  intros Hd Hn. pose proof (dll_remove _ _ _ _ _ _ _ Hn Hd) as [Hp Hd'].
  pose proof (dll_next _ _ _ _ _ _ _ Hd) as Hx. unfold process_list_remove. cbv zeta.
  change (p_prev (proc s p)) with (pv s p). rewrite Hp.
  set (s1 := match match last l1 with Some y => Some y | None => None end with Some _ => _ | None => _ end).
  assert (p ∉ l1 ++ l2) as Hpl.
  { apply NoDup_app in Hn as (_ & Hd1 & Hn2). apply NoDup_cons in Hn2 as [Hp2 _].
    rewrite elem_of_app. intros [Hx1|Hx2]; [|done]. apply (Hd1 p Hx1). by left. }
  assert ((forall x, nx s1 x = (match last l1 with Some y => upd (nx s) y (nx s p) | None => nx s end) x) /\
          (forall x, pv s1 x = pv s x) /\
          process_list s1 = match last l1 with Some _ => process_list s | None => nx s p end) as (N1 & P1 & L1).
  { unfold s1. destruct (last l1) as [y|]; split_and!; try done; intros x.
    - by rewrite nx_mod_next.
    - by rewrite pv_mod_next. }
  assert (nx s1 p = nx s p) as Np.
  { rewrite N1. destruct (last l1) as [y|] eqn:E; [|done]. apply upd_ne. intros ->.
    apply Hpl, elem_of_app. left. by apply last_Some_elem_of. }
  assert (pv s1 p = pv s p) as Pp by apply P1.
  change (p_next (proc s1 p)) with (nx s1 p). change (p_prev (proc s1 p)) with (pv s1 p). rewrite Np, Pp.
  rewrite !process_list_mod.
  assert (process_list (match nx s p with Some q => mod_proc q (set_p_prev (pv s p)) s1 | None => s1 end) =
          process_list s1) as -> by by destruct (nx s p).
  rewrite L1. refine (dll_ext _ _ _ _ _ _ _ _ Hd'). intros x Hxl.
  assert (x <> p) as Hne by (intros ->; done).
  rewrite nx_mod_prev, nx_mod_next, pv_mod_prev, (upd_ne _ p), (upd_ne _ p), pv_mod_next by done.
  destruct (nx s p) as [q|]; rewrite ?nx_mod_prev, ?pv_mod_prev; [|by rewrite N1, P1].
  rewrite N1. split; [done|]. unfold upd. by rewrite P1.
Qed.
End table.

(** ** What the operations leave alone *)

Section frames.
Context {A : Type} `{FrameAlloc A}.
Implicit Types (s : kstate A) (p q c : Z) (l rq : list Z).

(** Only slot [p], memory and open files change. *)
Record slot_frame p s s' : Prop := {
  sf_other q : q <> p -> proc s' q = proc s q;
  sf_list : process_list s' = process_list s;
  sf_queue : ready_queue s' = ready_queue s /\ ready_head s' = ready_head s /\
             ready_tail s' = ready_tail s /\ ready_count s' = ready_count s;
  sf_rest : current_process s' = current_process s /\ idle_proc s' = idle_proc s /\
            cpu s' = cpu s /\ tss_rsp0 s' = tss_rsp0 s /\ sched_ticks s' = sched_ticks s;
  sf_vm : same_regs (vmem s) (vmem s')
}.

Lemma slot_frame_refl p s : slot_frame p s s.
Proof. by split. Qed.

Lemma slot_frame_trans p s1 s2 s3 : slot_frame p s1 s2 -> slot_frame p s2 s3 -> slot_frame p s1 s3.
Proof.
  intros [A1 A2 (A3 & A4 & A5 & A6) (A7 & A8 & A9 & A10 & A11) A12]
         [B1 B2 (B3 & B4 & B5 & B6) (B7 & B8 & B9 & B10 & B11) B12]. split.
  - intros q Hq. rewrite B1, A1; done.
  - congruence.
  - split_and!; congruence.
  - split_and!; congruence.
  - by eapply same_regs_trans.
Qed.

Lemma slot_frame_mod p f s : slot_frame p s (mod_proc p f s).
Proof. split; try done. intros q Hq. by apply proc_mod_ne. Qed.

Lemma slot_frame_vm p m s : same_regs (vmem s) m -> slot_frame p s (set_vmem m s).
Proof. by split. Qed.

Lemma slot_frame_pid p n s : slot_frame p s (set_next_pid n s).
Proof. by split. Qed.

Lemma slot_frame_close p fd s : slot_frame p s (fd_close p fd s).
Proof.
  unfold fd_close. case_if; [apply slot_frame_refl|].
  destruct (fd_file _) as [f|]; [|apply slot_frame_refl].
  refine (slot_frame_trans p _ _ _ _ (slot_frame_mod p _ _)).
  unfold vfs_close. destruct (f_node _); [|apply slot_frame_refl]. by case_if; split.
Qed.

Lemma setup_stack_frame te p e s :
  slot_frame p s (setup_kernel_stack te p e s).2 /\
  (exists a b, proc (setup_kernel_stack te p e s).2 p =
               set_kernel_stack_size b (set_kernel_stack a (proc s p))) /\
  next_pid (setup_kernel_stack te p e s).2 = next_pid s.
Proof.
  unfold setup_kernel_stack. destruct (alloc_frames _ _) as [ph f]. case_if; cbn [snd].
  - split; [by apply slot_frame_vm|]. split; [|done].
    exists (kernel_stack (proc s p)), (kernel_stack_size (proc s p)).
    change (proc (set_vmem ?m s) p) with (proc s p). by destruct (proc s p).
  - split; [|split; [|done]].
    2: { eexists _, _. change (proc (set_vmem ?m ?t) p) with (proc t p).
         change (proc (set_vmem ?m ?t) p) with (proc t p). by rewrite !proc_mod_eq. }
    apply (slot_frame_trans p _ (mod_proc p (set_kernel_stack_size KSTACK_SIZE) (mod_proc p
             (set_kernel_stack (PHYS_TO_VIRT ph)) (set_vmem (with_frames f (vmem s)) s)))); [|by split].
    eapply slot_frame_trans; [|apply slot_frame_mod]. eapply slot_frame_trans; [|apply slot_frame_mod].
    by apply slot_frame_vm.
Qed.

(** The scheduler's invariant, when a slot it does not use changes. *)
Lemma sched_inv_slot p s s' rq :
  sched_inv s rq -> slot_frame p s s' -> p ∉ rq -> current_process s <> Some p ->
  state (proc s' p) <> PROC_STATE_READY -> state (proc s' p) <> PROC_STATE_RUNNING ->
  sched_inv s' rq.
Proof.
  intros [[Q1 Q2] N V R U C I] [F1 F2 (F3 & F4 & F5 & F6) (F7 & F8 & F9 & F10 & F11) [F12 _]] Hp Hc H1 H2.
  split.
  - split; congruence.
  - done.
  - done.
  - intros q Hq. destruct (decide (q = p)) as [->|Hne]; [naive_solver|]. rewrite F1 by done. by apply R.
  - intros q Hq. destruct (decide (q = p)) as [->|Hne]; [done|]. rewrite F1, F7 by done. by apply U.
  - intros c. rewrite F7, F10, F12. intros Hcc. rewrite F1 by congruence. by apply C.
  - by rewrite F8.
Qed.

(** Links do not matter to the scheduler. *)
Lemma sched_inv_links s s' rq :
  sched_inv s rq -> (forall q, not_links (proc s q) (proc s' q)) ->
  ready_queue s' = ready_queue s -> ready_head s' = ready_head s -> ready_tail s' = ready_tail s ->
  ready_count s' = ready_count s -> current_process s' = current_process s ->
  idle_proc s' = idle_proc s -> tss_rsp0 s' = tss_rsp0 s -> vmem s' = vmem s -> sched_inv s' rq.
Proof.
  intros Hi Hl H1 H2 H3 H4 H5 H6 H7 H8. apply (sched_inv_ext s); [done|].
  unfold same_sched. rewrite H8. split_and!; try done. intros q. by destruct (Hl q) as (a & b & ->).
Qed.
End frames.

(** ** The invariant of the process subsystem *)

Section kernel_inv.
Context {A : Type} `{FrameAlloc A}.
Implicit Types (s : kstate A) (p q c : Z) (l rq : list Z).

(** [rq] is the ready queue and [l] the list of all processes. *)
Record kernel_inv s rq l : Prop := {
  ki_sched : sched_inv s rq;
  ki_table : table_inv s l;
  ki_current c : current_process s = Some c -> c ∈ l;
  ki_idle i : idle_proc s = Some i -> i ∈ l;
  ki_pids : 0 < next_pid s
}.

Lemma ki_ready_in s rq l p : kernel_inv s rq l -> p ∈ rq -> p ∈ l.
Proof.
  intros Hk Hp. pose proof (si_valid _ _ (ki_sched _ _ _ Hk) p Hp) as Hv.
  destruct (decide (p ∈ l)) as [|Hn]; [done|].
  apply (ti_free _ _ (ki_table _ _ _ Hk) p Hv) in Hn.
  apply (si_ready _ _ (ki_sched _ _ _ Hk) p Hv) in Hp. congruence.
Qed.

Lemma find_unused_spec n a s i :
  find_unused n a s = Some i -> a <= i < a + Z.of_nat n /\ state (proc s i) = PROC_STATE_UNUSED.
Proof.
  revert a. induction n as [|n IH]; intros a; cbn [find_unused]; [done|].
  unfold state_is. case_bool_decide as E.
  - intros [= <-]. split; [lia|done].
  - intros Hf. apply IH in Hf as [H1 H2]. split; [lia|done].
Qed.

(** Every used slot is taken when none is found. *)
Lemma find_unused_None n a s :
  find_unused n a s = None -> forall i, a <= i < a + Z.of_nat n -> state (proc s i) <> PROC_STATE_UNUSED.
Proof.
  revert a. induction n as [|n IH]; intros a; cbn [find_unused]; [lia|].
  unfold state_is. case_bool_decide as E; [done|]. intros Hf i Hi.
  destruct (decide (i = a)) as [->|]; [done|]. apply (IH (a + 1) Hf). lia.
Qed.

Lemma alloc_slot_spec s rq l p s' :
  kernel_inv s rq l -> alloc_process_slot s = Some (p, s') ->
  valid_slot p /\ (p ∉ l) /\ s' = mod_proc p (fun _ => proc_zero) s.
Proof.
  intros Hk. unfold alloc_process_slot. destruct (find_unused _ 0 s) as [i|] eqn:E; [|done].
  intros [= -> <-]. apply find_unused_spec in E as [Hv Hu]. split; [exact Hv|]. split; [|done].
  intros Hp. apply (ti_live _ _ (ki_table _ _ _ Hk)) in Hp. by rewrite Hu in Hp.
Qed.

(** A slot outside the list that stays free. *)
Lemma slot_unused_inv s s' rq l p :
  kernel_inv s rq l -> valid_slot p -> p ∉ l -> slot_frame p s s' ->
  state (proc s' p) = PROC_STATE_UNUSED -> next_pid s <= next_pid s' -> kernel_inv s' rq l.
Proof.
  intros Hk Hv Hp Hf Hu Hn. pose proof (ki_ready_in s rq l p Hk) as Hrq.
  destruct Hk as [Hs [D N V L F P U] C I Pd]. pose proof (sf_other _ _ _ Hf) as Ho.
  assert (forall q, q ∈ l -> proc s' q = proc s q) as Hl by (intros q Hq; apply Ho; by intros ->).
  destruct (sf_rest _ _ _ Hf) as (R1 & R2 & _). split.
  - apply (sched_inv_slot p s); [done|done|by intros ?%Hrq|by intros ?%C|by rewrite Hu|by rewrite Hu].
  - split.
    + rewrite (sf_list _ _ _ Hf). refine (dll_ext _ _ _ _ _ _ _ _ D). intros q Hq. unfold nx, pv.
      by rewrite Hl.
    + done.
    + done.
    + intros q Hq. rewrite Hl by done. by apply L.
    + intros q Hq Hq'. destruct (decide (q = p)) as [->|]; [done|]. rewrite Ho by done. by apply F.
    + intros q Hq. rewrite Hl by done. specialize (P q Hq). lia.
    + intros q q' Hq Hq'. rewrite !Hl by done. by apply U.
  - rewrite R1. apply C.
  - rewrite R2. apply I.
  - lia.
Qed.

Lemma list_add_rest p s :
  process_list (process_list_add p s) = Some p /\
  ready_queue (process_list_add p s) = ready_queue s /\
  ready_head (process_list_add p s) = ready_head s /\
  ready_tail (process_list_add p s) = ready_tail s /\
  ready_count (process_list_add p s) = ready_count s /\
  current_process (process_list_add p s) = current_process s /\
  idle_proc (process_list_add p s) = idle_proc s /\
  tss_rsp0 (process_list_add p s) = tss_rsp0 s /\
  vmem (process_list_add p s) = vmem s /\ next_pid (process_list_add p s) = next_pid s.
Proof. unfold process_list_add. rewrite !process_list_mod. by destruct (process_list s). Qed.

(** A slot outside the list that becomes a process. *)
Lemma slot_added_inv s s' rq l p :
  kernel_inv s rq l -> valid_slot p -> p ∉ l -> slot_frame p s s' ->
  state (proc s' p) = PROC_STATE_CREATED -> pid (proc s' p) = next_pid s ->
  next_pid s' = next_pid s + 1 ->
  kernel_inv (process_list_add p s') rq (p :: l).
Proof.
  intros Hk Hv Hp Hf Hc Hpid Hn. pose proof (ki_ready_in s rq l p Hk) as Hrq.
  destruct Hk as [Hs [D N V L F P U] C I Pd]. pose proof (sf_other _ _ _ Hf) as Ho.
  destruct (sf_rest _ _ _ Hf) as (R1 & R2 & _).
  assert (forall q, q ∈ l -> proc s' q = proc s q) as Hl by (intros q Hq; apply Ho; by intros ->).
  assert (forall q, state (proc (process_list_add p s') q) = state (proc s' q) /\
                    pid (proc (process_list_add p s') q) = pid (proc s' q)) as Hk.
  { intros q. by destruct (list_add_links p s' q) as (a & b & ->). }
  destruct (list_add_rest p s') as (_ & A1 & A2 & A3 & A4 & A5 & A6 & A7 & A8 & A9). split.
  - apply (sched_inv_links s'); try done; [|by apply list_add_links].
    apply (sched_inv_slot p s); [done|done|by intros ?%Hrq|by intros ?%C|by rewrite Hc|by rewrite Hc].
  - split.
    + apply list_add_dll; [|done|done]. rewrite (sf_list _ _ _ Hf).
      refine (dll_ext _ _ _ _ _ _ _ _ D). intros q Hq. unfold nx, pv. by rewrite Hl.
    + by constructor.
    + intros q [->|Hq]%elem_of_cons; [done|by apply V].
    + intros q Hq. destruct (Hk q) as [-> _]. apply elem_of_cons in Hq as [->|Hq]; [by rewrite Hc|].
      rewrite Hl by done. by apply L.
    + intros q Hq [Hne Hq']%not_elem_of_cons. destruct (Hk q) as [-> _]. rewrite Ho by done. by apply F.
    + intros q Hq. destruct (Hk q) as [_ ->]. rewrite A9, Hn.
      apply elem_of_cons in Hq as [->|Hq]; [lia|]. rewrite Hl by done. specialize (P q Hq). lia.
    + intros q q' Hq Hq'. destruct (Hk q) as [_ ->], (Hk q') as [_ ->].
      apply elem_of_cons in Hq as [->|Hq], Hq' as [->|Hq']; [done| | |].
      * rewrite Hpid, Hl by done. specialize (P q' Hq'). lia.
      * rewrite Hpid, Hl by done. specialize (P q Hq). lia.
      * rewrite !Hl by done. by apply U.
  - intros c Hcc. apply elem_of_cons. right. apply C. congruence.
  - intros i Hi. apply elem_of_cons. right. apply I. congruence.
  - lia.
Qed.

(** A failed creation or fork leaves the slot free. *)
Lemma create_failed s t rq l p :
  kernel_inv s rq l -> valid_slot p -> p ∉ l -> slot_frame p s t -> next_pid t = next_pid s + 1 ->
  kernel_inv (mod_proc p (set_state PROC_STATE_UNUSED) t) rq l.
Proof.
  intros Hk Hv Hp Ft Nt. apply (slot_unused_inv s _ rq l p); try done.
  - eapply slot_frame_trans; [done|apply slot_frame_mod].
  - by rewrite proc_mod_eq.
  - change (next_pid (mod_proc ?a ?f ?b)) with (next_pid b). lia.
Qed.

(** [process_create]: a new process with the next identifier, or nothing. *)
Lemma create_inv te nm e k now s rq l :
  kernel_inv s rq l -> next_pid s + 1 < 2 ^ 32 ->
  let '(r, s') := process_create te nm e k now s in
  match r with
  | Some p => valid_slot p /\ (p ∉ l) /\ kernel_inv s' rq (p :: l) /\
              pid (proc s' p) = next_pid s /\ state (proc s' p) = PROC_STATE_CREATED /\
              sigstate (proc s' p) = signal_init_process /\
              name (proc s' p) = <[63%nat := 0]> (strncpy (replicate 64 0) nm 63) /\
              exists sp, p_context (proc s' p) =
                         Ctx 0 0 0 0 0 0 sp te 0x202 GDT_KERNEL_CODE GDT_KERNEL_DATA
  | None => kernel_inv s' rq l
  end.
Proof.
  intros Hk Hw. unfold process_create. pose proof (ki_pids _ _ _ Hk) as Hpos.
  destruct (alloc_process_slot s) as [[p s1]|] eqn:Ea; [|done].
  destruct (alloc_slot_spec s rq l p s1 Hk Ea) as (Hv & Hp & ->). cbv zeta.
  set (s1 := mod_proc p (fun _ => proc_zero) s).
  set (s2 := set_next_pid (u32 (next_pid s1 + 1)) s1).
  set (par := match current_process s2 with Some c => _ | None => _ end).
  set (s3 := mod_proc p (new_process nm (next_pid s1) par now) s2).
  assert (slot_frame p s s3) as F3.
  { apply (slot_frame_trans p _ s1); [apply slot_frame_mod|].
    apply (slot_frame_trans p _ s2); [apply slot_frame_pid|apply slot_frame_mod]. }
  assert (next_pid s3 = next_pid s + 1) as N3 by (apply u32_small; lia).
  set (sp := if k then _ else _). destruct sp as [space s4] eqn:Esp.
  assert (slot_frame p s s4 /\ proc s4 = proc s3 /\ next_pid s4 = next_pid s3) as (F4 & P4 & N4).
  { unfold sp in Esp. destruct k; [by injection Esp as <- <-|].
    pose proof (create_space_regs (vmem s3)) as Hr. destruct (vmm_create_address_space (vmem s3)) as [a m].
    injection Esp as <- <-. split; [|done]. eapply slot_frame_trans; [done|]. by apply slot_frame_vm. }
  set (s5 := mod_proc p (set_address_space space) s4).
  assert (slot_frame p s s5) as F5 by (eapply slot_frame_trans; [done|apply slot_frame_mod]).
  assert (proc s5 p = set_address_space space (new_process nm (next_pid s) par now proc_zero)) as S5.
  { unfold s5. rewrite proc_mod_eq, P4. unfold s3, s2, s1. rewrite proc_mod_eq.
    change (proc (set_next_pid ?x ?t) p) with (proc t p). by rewrite proc_mod_eq. }
  case_if; [apply (create_failed s); try done; change (next_pid s5) with (next_pid s4); congruence|].
  destruct (setup_stack_frame te p e s5) as (F6 & (ka & kb & S6) & N6).
  destruct (setup_kernel_stack te p e s5) as [rsp0 s6]. cbn [snd] in *.
  pose proof (slot_frame_trans _ _ _ _ F5 F6) as F7. change (next_pid s5) with (next_pid s4) in N6.
  case_if.
  - destruct k; apply (create_failed s); try done; try congruence.
    + eapply slot_frame_trans; [done|]. apply slot_frame_vm, destroy_space_regs.
    + change (next_pid (set_vmem ?m ?b)) with (next_pid b). congruence.
  - split; [done|]. split; [done|]. split.
    + apply (slot_added_inv s); try done; rewrite ?proc_mod_eq, ?S6, ?S5; try done.
      * eapply slot_frame_trans; [done|apply slot_frame_mod].
      * change (next_pid (mod_proc ?a ?f ?b)) with (next_pid b). congruence.
    + match goal with |- context [process_list_add p ?t] =>
        destruct (list_add_links p t p) as (a & b & ->) end.
      rewrite proc_mod_eq, S6, S5. split_and!; try done. by exists rsp0.
Qed.

(** [process_fork] *)
Lemma fork_inv parent s rq l :
  kernel_inv s rq l -> next_pid s + 1 < 2 ^ 32 ->
  let '(r, s') := process_fork parent s in
  match r with
  | Some c => valid_slot c /\ (c ∉ l) /\ kernel_inv s' rq (c :: l) /\
              pid (proc s' c) = next_pid s /\ state (proc s' c) = PROC_STATE_CREATED
  | None => kernel_inv s' rq l
  end.
Proof.
  intros Hk Hw. unfold process_fork. pose proof (ki_pids _ _ _ Hk) as Hpos.
  destruct (alloc_process_slot s) as [[c s1]|] eqn:Ea; [|done].
  destruct (alloc_slot_spec s rq l c s1 Hk Ea) as (Hv & Hp & ->). clear Ea. cbv zeta.
  set (s3 := mod_proc c (set_time_slice SCHED_DEFAULT_QUANTUM) _).
  assert (slot_frame c s s3 /\ next_pid s3 = next_pid s + 1 /\
          state (proc s3 c) = PROC_STATE_CREATED /\ pid (proc s3 c) = next_pid s) as (F3 & N3 & S3 & I3).
  { split; [|split; [apply u32_small; lia|unfold s3; by rewrite !proc_mod_eq]]. unfold s3.
    do 6 (eapply slot_frame_trans; [|apply slot_frame_mod]).
    eapply slot_frame_trans; [|apply slot_frame_pid].
    do 2 (eapply slot_frame_trans; [|apply slot_frame_mod]). apply slot_frame_refl. }
  clearbody s3. pose proof (clone_space_regs (address_space (proc s3 parent)) (vmem s3)) as Hr.
  destruct (vmm_clone_address_space _ (vmem s3)) as [space m]. cbn [snd] in Hr.
  set (s5 := mod_proc c (set_address_space space) (set_vmem m s3)).
  assert (slot_frame c s s5) as F5.
  { eapply slot_frame_trans; [|apply slot_frame_mod]. eapply slot_frame_trans; [done|]. by apply slot_frame_vm. }
  case_if; [by apply (create_failed s)|]. destruct (alloc_frames _ (frames (vmem s5))) as [ph f].
  assert (slot_frame c s (set_vmem (with_frames f (vmem s5)) s5)) as F6.
  { eapply slot_frame_trans; [done|]. by apply slot_frame_vm. }
  case_if.
  - apply (create_failed s); try done. eapply slot_frame_trans; [done|]. apply slot_frame_vm, destroy_space_regs.
  - split; [done|]. split; [done|].
    assert (state (proc s5 c) = PROC_STATE_CREATED /\ pid (proc s5 c) = next_pid s) as [S5 I5].
    { unfold s5. rewrite proc_mod_eq. by split. }
    split.
    + apply (slot_added_inv s); try done; rewrite ?proc_mod_eq; try done.
      do 2 (eapply slot_frame_trans; [|apply slot_frame_mod]). done.
    + match goal with |- context [process_list_add c ?t] =>
        destruct (list_add_links c t c) as (a & b & ->) end.
      rewrite !proc_mod_eq. by split.
Qed.

(** The stages of [process_exit] on slot [p], started in [s], once the exit
    code has been stored. *)
Definition exiting code p s t : Prop :=
  slot_frame p s t /\ next_pid t = next_pid s /\ nx t p = nx s p /\ pv t p = pv s p /\
  sigstate (proc t p) = sigstate (proc s p) /\ exit_code (proc t p) = code.

Lemma exiting_mod code p s t (f : process -> process) :
  (forall x : process, p_next (f x) = p_next x /\ p_prev (f x) = p_prev x /\ sigstate (f x) = sigstate x /\
     exit_code (f x) = exit_code x) ->
  exiting code p s t -> exiting code p s (mod_proc p f t).
Proof.
  intros Hf (H1 & H2 & H3 & H4 & H5 & H6). destruct (Hf (proc t p)) as (Hn & Hp & Hs & Hx). split_and!.
  - eapply slot_frame_trans; [done|apply slot_frame_mod].
  - done.
  - unfold nx in *. rewrite proc_mod_eq. congruence.
  - unfold pv in *. rewrite proc_mod_eq. congruence.
  - rewrite proc_mod_eq. congruence.
  - rewrite proc_mod_eq. congruence.
Qed.

Lemma exiting_vm code p s t m : same_regs (vmem t) m -> exiting code p s t -> exiting code p s (set_vmem m t).
Proof.
  intros Hm (H1 & H2 & H3 & H4 & H5 & H6). split_and!; try done. eapply slot_frame_trans; [done|by apply slot_frame_vm].
Qed.

Lemma exiting_close code p s t fd : exiting code p s t -> exiting code p s (fd_close p fd t).
Proof.
  intros Ht. unfold fd_close. case_if; [done|]. destruct (fd_file _) as [f|]; [|done].
  apply exiting_mod; [done|]. unfold vfs_close. destruct (f_node _); [|done].
  destruct Ht as (H1 & H2). split; [|by case_if]. eapply slot_frame_trans; [exact H1|]. by case_if; split.
Qed.

Lemma exiting_fds code p s t : exiting code p s t -> exiting code p s (close_fds p t).
Proof.
  intros Ht. unfold close_fds. apply (iter_range_ind (fun _ t => exiting code p s t)); [done|].
  intros k u _ Hu. destruct (fd_file _); [by apply exiting_close|done].
Qed.

Lemma exiting_space code p s t : exiting code p s t -> exiting code p s (free_space p t).
Proof.
  intros Ht. unfold free_space. case_if; [done|]. apply exiting_mod; [done|].
  apply exiting_vm; [apply destroy_space_regs|done].
Qed.

Lemma exiting_stack code p s t : exiting code p s t -> exiting code p s (free_kernel_stack p t).
Proof.
  intros Ht. unfold free_kernel_stack. case_if; [done|]. apply exiting_mod; [done|]. by apply exiting_vm.
Qed.

(** [process_exit] up to the removal from the list. *)
Lemma exit_frame p code s :
  state (proc s p) <> PROC_STATE_DEAD ->
  exists t, exiting code p s t /\
    process_exit (Some p) code s =
    let u := mod_proc p (set_state PROC_STATE_UNUSED) (process_list_remove p t) in
    if ptr_eq (Some p) (current_process u) then scheduler_yield (set_current None u) else Some u.
Proof.
  intros Hd. unfold process_exit, state_is. rewrite bool_decide_false by done.
  eexists. split; [|reflexivity]. apply exiting_mod; [done|]. apply exiting_stack, exiting_space, exiting_fds.
  apply exiting_mod; [done|]. split; [apply slot_frame_mod|]. unfold nx, pv. by rewrite !proc_mod_eq.
Qed.

Lemma list_remove_rest p s :
  ready_queue (process_list_remove p s) = ready_queue s /\
  ready_head (process_list_remove p s) = ready_head s /\
  ready_tail (process_list_remove p s) = ready_tail s /\
  ready_count (process_list_remove p s) = ready_count s /\
  current_process (process_list_remove p s) = current_process s /\
  idle_proc (process_list_remove p s) = idle_proc s /\
  tss_rsp0 (process_list_remove p s) = tss_rsp0 s /\
  vmem (process_list_remove p s) = vmem s /\ next_pid (process_list_remove p s) = next_pid s /\
  cpu (process_list_remove p s) = cpu s.
Proof.
  unfold process_list_remove. cbv zeta. set (s1 := match p_prev (proc s p) with Some _ => _ | None => _ end).
  assert (s1 = set_list (process_list s1) (set_table (process_table s1) s)) as E1.
  { unfold s1. by destruct (p_prev (proc s p)), s. }
  clearbody s1. destruct (p_next (proc s1 p)); simpl; rewrite E1; by split_and!.
Qed.

Definition queue_same s s' : Prop :=
  ready_queue s' = ready_queue s /\ ready_head s' = ready_head s /\ ready_tail s' = ready_tail s /\
  ready_count s' = ready_count s.

(** The scheduler's invariant when a process that is not queued disappears. *)
Lemma sched_inv_gone p s s' rq :
  sched_inv s rq -> p ∉ rq -> queue_same s s' -> idle_proc s' = idle_proc s ->
  tss_rsp0 s' = tss_rsp0 s -> cr3 (vmem s') = cr3 (vmem s) ->
  (forall q, q <> p -> state (proc s' q) = state (proc s q) /\
     address_space (proc s' q) = address_space (proc s q) /\
     kernel_stack (proc s' q) = kernel_stack (proc s q) /\
     kernel_stack_size (proc s' q) = kernel_stack_size (proc s q)) ->
  state (proc s' p) = PROC_STATE_UNUSED ->
  ((current_process s' = None /\ current_process s = Some p) \/
   (current_process s' = current_process s /\ current_process s <> Some p)) ->
  sched_inv s' rq.
Proof.
  intros [[Q1 Q2] N V R U C I] Hp (E1 & E2 & E3 & E4) Hi Ht Hr Hq Hu Hc. split.
  - split; congruence.
  - done.
  - done.
  - intros q Hv. destruct (decide (q = p)) as [->|Hne]; [rewrite Hu; naive_solver|].
    destruct (Hq q Hne) as (-> & _). by apply R.
  - intros q Hv. destruct (decide (q = p)) as [->|Hne]; [by rewrite Hu|].
    destruct (Hq q Hne) as (-> & _). intros Hrun. apply (U q Hv) in Hrun. destruct Hc as [[_ Hc]|[Hc _]]; congruence.
  - intros c Hcc. destruct Hc as [[Hc _]|[Hc Hc']]; [congruence|]. rewrite Hc in Hcc.
    destruct (Hq c) as (_ & -> & -> & ->); [congruence|]. rewrite Ht, Hr. by apply C.
  - by rewrite Hi.
Qed.

(** A process that is not in the ready queue exits: its slot is free again and
    it has left the list. *)
Lemma exit_inv p code s rq l s' :
  kernel_inv s rq l -> p ∈ l -> p ∉ rq -> idle_proc s <> Some p ->
  process_exit (Some p) code s = Some s' ->
  kernel_inv s' rq (filter (fun q => q <> p) l) /\
  (current_process s = Some p -> current_process s' = None /\ cpu s' = cpu s) /\
  (current_process s <> Some p -> current_process s' = current_process s) /\
  exit_code (proc s' p) = code.
Proof.
  intros Hk Hp Hq Hidle He.
  destruct Hk as [Hs [D N V L F P U] C I Pd].
  assert (state (proc s p) <> PROC_STATE_DEAD) as Hnd by (intros Hx; apply L in Hp; by rewrite Hx in Hp).
  destruct (exit_frame p code s Hnd) as (t & (Ft & Nt & Xt & Yt & _ & Zt) & Ht). rewrite Ht in He. clear Ht.
  cbv zeta in He. set (u := mod_proc p (set_state PROC_STATE_UNUSED) (process_list_remove p t)) in *.
  destruct (list_remove_rest p t) as (A1 & A2 & A3 & A4 & A5 & A6 & A7 & A8 & A9 & A10).
  destruct (sf_rest _ _ _ Ft) as (R1 & R2 & R3 & R4 & _). destruct (sf_queue _ _ _ Ft) as (Q1 & Q2 & Q3 & Q4).
  destruct (sf_vm _ _ _ Ft) as [V1 _].
  assert (forall q, q <> p -> not_links (proc s q) (proc u q)) as Hu.
  { intros q Hne. unfold u. rewrite proc_mod_ne, <- (sf_other _ _ _ Ft q) by done. apply list_remove_links. }
  assert (exists u', s' = u' /\ process_table u' = process_table u /\ process_list u' = process_list u /\
            next_pid u' = next_pid s /\ queue_same s u' /\ idle_proc u' = idle_proc s /\
            tss_rsp0 u' = tss_rsp0 s /\ cr3 (vmem u') = cr3 (vmem s) /\ cpu u' = cpu s /\
            current_process u' = if ptr_eq (Some p) (current_process s) then None else current_process s)
    as (u' & -> & T1 & T2 & T3 & T4 & T5 & T6 & T7 & T8 & T9).
  { unfold queue_same. change (current_process u) with (current_process (process_list_remove p t)) in He.
    rewrite A5, R1 in He. unfold u in *. clear u Hu. set (w := process_list_remove p t) in *. clearbody w.
    destruct (ptr_eq (Some p) (current_process s)); simpl in He; injection He as <-;
      eexists; (split; [done|]); simpl; split_and!; congruence. }
  assert (forall q, proc u' q = proc u q) as Tp by (intros q; unfold proc; by rewrite T1).
  apply list_elem_of_split in Hp as (l1 & l2 & ->).
  assert ((p ∉ l1) /\ (p ∉ l2)) as [Hp1 Hp2].
  { apply NoDup_app in N as (_ & N1 & N2). apply NoDup_cons in N2 as [N2 _]. split; [|done].
    intros Hx. apply (N1 p Hx). by left. }
  rewrite filter_app, filter_cons_False, !filter_ne_id by (done || (intros Hx; by apply Hx)).
  split; [|split; [|split]].
  - split.
    + apply (sched_inv_gone p s); try done.
      * intros q Hne. rewrite Tp. destruct (Hu q Hne) as (a & b & ->). done.
      * rewrite Tp. unfold u. by rewrite proc_mod_eq.
      * rewrite T9. unfold ptr_eq. case_bool_decide as E; [by left|right]. split; [done|congruence].
    + split.
      * rewrite T2. apply (dll_ext (nx (process_list_remove p t)) (pv (process_list_remove p t))).
        { intros q Hx. unfold nx, pv. rewrite Tp. unfold u. rewrite proc_mod_ne; [done|].
          intros ->. apply elem_of_app in Hx as [?|?]; done. }
        apply list_remove_dll; [|done]. rewrite (sf_list _ _ _ Ft).
        refine (dll_ext _ _ _ _ _ _ _ _ D). intros q Hx.
        destruct (decide (q = p)) as [->|Hne]; [done|]. unfold nx, pv. by rewrite (sf_other _ _ _ Ft).
      * apply NoDup_app in N as (N1 & N2 & N3). apply NoDup_cons in N3 as [_ N3].
        apply NoDup_app. split_and!; try done. intros q Hx Hx'. apply (N2 q Hx). by right.
      * intros q Hx. apply V. rewrite elem_of_app, elem_of_cons in *. naive_solver.
      * intros q Hx. assert (q <> p) as Hne by (intros ->; apply elem_of_app in Hx as [?|?]; done).
        rewrite Tp. destruct (Hu q Hne) as (a & b & ->). apply L.
        rewrite elem_of_app, elem_of_cons in *. naive_solver.
      * intros q Hv Hx. rewrite Tp. destruct (decide (q = p)) as [->|Hne]; [unfold u; by rewrite proc_mod_eq|].
        destruct (Hu q Hne) as (a & b & ->). apply F; [done|].
        rewrite elem_of_app, elem_of_cons in *. naive_solver.
      * intros q Hx. assert (q <> p) as Hne by (intros ->; apply elem_of_app in Hx as [?|?]; done).
        rewrite Tp, T3. destruct (Hu q Hne) as (a & b & ->). apply P.
        rewrite elem_of_app, elem_of_cons in *. naive_solver.
      * intros q q' Hx Hx'.
        assert (q <> p) as Hne by (intros ->; apply elem_of_app in Hx as [?|?]; done).
        assert (q' <> p) as Hne' by (intros ->; apply elem_of_app in Hx' as [?|?]; done).
        rewrite !Tp. destruct (Hu q Hne) as (a & b & ->), (Hu q' Hne') as (a' & b' & ->).
        apply U; rewrite elem_of_app, elem_of_cons in *; naive_solver.
    + intros c. rewrite T9. unfold ptr_eq. case_bool_decide as E; [done|]. intros Hc. pose proof (C c Hc) as Hx.
      rewrite elem_of_app, elem_of_cons in *. naive_solver.
    + intros i. rewrite T5. intros Hi. pose proof (I i Hi) as Hx. rewrite elem_of_app, elem_of_cons in *.
      naive_solver.
    + lia.
  - intros Hc. rewrite T9, T8. unfold ptr_eq. by rewrite bool_decide_true.
  - intros Hc. rewrite T9. unfold ptr_eq. by rewrite bool_decide_false by congruence.
  - rewrite Tp. unfold u. rewrite proc_mod_eq. cbn [exit_code set_state].
    destruct (list_remove_links p t p) as (a & b & ->). exact Zt.
Qed.

(** The running process can always exit. *)
Lemma exit_returns p code s :
  state (proc s p) <> PROC_STATE_DEAD -> current_process s = Some p -> is_Some (process_exit (Some p) code s).
Proof.
  intros Hd Hc. destruct (exit_frame p code s Hd) as (t & _ & ->). cbv zeta. case_if; eexists; reflexivity.
Qed.
End kernel_inv.

(** ** Scheduling keeps the table *)

Section scheduling.
Context {A : Type} `{FrameAlloc A}.
Implicit Types (s : kstate A) (p q c : Z) (l rq : list Z).

(** Links and identifiers stay; only processes of [T] change state, among the
    states of a process that exists. *)
Record kept (T : Z -> Prop) s s' : Prop := {
  kp_list : process_list s' = process_list s;
  kp_pid : next_pid s' = next_pid s;
  kp_idle : idle_proc s' = idle_proc s;
  kp_proc q : pid (proc s' q) = pid (proc s q) /\ p_next (proc s' q) = p_next (proc s q) /\
              p_prev (proc s' q) = p_prev (proc s q) /\
              (state (proc s' q) = state (proc s q) \/ (T q /\ live (state (proc s' q))))
}.

Lemma kept_refl T s : kept T s s.
Proof. split; try done. intros q. split_and!; try done. by left. Qed.

Lemma kept_trans T s1 s2 s3 : kept T s1 s2 -> kept T s2 s3 -> kept T s1 s3.
Proof.
  intros [A1 A2 A3 A4] [B1 B2 B3 B4]. split; try congruence. intros q.
  destruct (A4 q) as (C1 & C2 & C3 & C4), (B4 q) as (D1 & D2 & D3 & D4). split_and!; try congruence.
  destruct D4 as [D4|D4]; [|by right]. destruct C4 as [C4|C4]; [left; congruence|].
  right. by rewrite D4.
Qed.

Lemma kept_mod T p (f : process -> process) s :
  (forall x, pid (f x) = pid x /\ p_next (f x) = p_next x /\ p_prev (f x) = p_prev x) ->
  (state (f (proc s p)) = state (proc s p) \/ (T p /\ live (state (f (proc s p))))) ->
  kept T s (mod_proc p f s).
Proof.
  intros Hf Hs. split; try done. intros q. rewrite proc_mod. destruct (Z.eqb_spec q p) as [->|Hne].
  - destruct (Hf (proc s p)) as (-> & -> & ->). by split_and!.
  - split_and!; try done. by left.
Qed.

Lemma kept_same T s s' :
  process_table s' = process_table s -> process_list s' = process_list s ->
  next_pid s' = next_pid s -> idle_proc s' = idle_proc s -> kept T s s'.
Proof.
  intros H1 H2 H3 H4. split; try done. intros q. unfold proc. rewrite H1. split_and!; try done. by left.
Qed.

Lemma kept_table T s s' l : table_inv s l -> (forall q, T q -> q ∈ l) -> kept T s s' -> table_inv s' l.
Proof.
  intros [D N V L F P U] HT [K1 K2 K3 K4]. split.
  - rewrite K1. refine (dll_ext _ _ _ _ _ _ _ _ D). intros q _. unfold nx, pv.
    by destruct (K4 q) as (_ & -> & -> & _).
  - done.
  - done.
  - intros q Hq. destruct (K4 q) as (_ & _ & _ & [->|[_ Hl]]); [by apply L|done].
  - intros q Hv Hq. destruct (K4 q) as (_ & _ & _ & [->|[Hx _]]); [by apply F|]. by apply HT in Hx.
  - intros q Hq. destruct (K4 q) as (-> & _). rewrite K2. by apply P.
  - intros q q' Hq Hq'. destruct (K4 q) as (-> & _), (K4 q') as (-> & _). by apply U.
Qed.

Lemma kept_enqueue (T : Z -> Prop) p s : T p -> kept T s (ready_enqueue p s).
Proof.
  intros Hp. unfold ready_enqueue. case_if; [apply kept_refl|].
  refine (kept_trans T _ _ _ _ (kept_mod T p _ _ _ _)); [by apply kept_same|done|by right].
Qed.

Lemma kept_dispatch (T : Z -> Prop) p s : T p -> kept T s (dispatch p s).
Proof.
  intros Hp. unfold dispatch.
  apply (kept_trans T _ (set_current (Some p) s)); [by apply kept_same|].
  refine (kept_trans T _ _ _ (kept_mod T p (set_state PROC_STATE_RUNNING) _ _ _) _);
    [done|by right|].
  refine (kept_trans T _ _ _ (kept_mod T p (set_time_slice SCHED_DEFAULT_QUANTUM) _ _ _) _);
    [done|by left|]. by apply kept_same.
Qed.

Lemma kept_switch T old next s : kept T s (context_switch old next s).
Proof.
  unfold context_switch. refine (kept_trans T _ _ _ (kept_mod T old (set_context (cpu s)) s _ _) _);
    [done|by left|]. by apply kept_same.
Qed.

Lemma kept_reschedule T s rq c s' :
  sched_inv s rq -> current_process s = Some c -> T c -> (forall q, q ∈ rq -> T q) ->
  (forall i, idle_proc s = Some i -> T i) -> reschedule c s = Some s' -> kept T s s'.
Proof.
  intros Hi Hc Tc Trq Ti Hr. unfold reschedule in Hr.
  set (s1 := if state_is _ _ then _ else s) in Hr.
  assert (kept T s s1) as K1.
  { unfold s1. case_if; [|apply kept_refl].
    refine (kept_trans T _ _ _ (kept_mod T c (set_state PROC_STATE_READY) s _ _) _); [done|by right|].
    by apply kept_enqueue. }
  destruct (requeue_inv s rq c Hi Hc) as (H1 & HR & _). fold s1 in H1, HR.
  destruct (dequeue_next s1 _ H1) as (next & s2 & Hd & Hn & _ & _ & HR2 & HT2 & _).
  rewrite Hd in Hr. injection HR as _ E2 _ _ _ _ E7 E8. injection HR2 as _ F2 _ _ _ _ F7 F8.
  assert (T next) as Tn.
  { unfold requeued in Hn. destruct (state_is _ _), rq as [|q rq]; simpl in Hn.
    - by injection Hn as ->.
    - injection Hn as ->. apply Trq. by left.
    - apply Ti. congruence.
    - injection Hn as ->. apply Trq. by left. }
  assert (kept T s s2) as K2 by (eapply kept_trans; [exact K1|]; by apply kept_same).
  injection Hr as <-. eapply kept_trans; [|apply kept_switch].
  eapply kept_trans; [exact K2|]. pose proof (kept_dispatch T next s2 Tn) as K3.
  case_if; [done|]. eapply kept_trans; [done|]. by apply kept_same.
Qed.

Lemma kept_tick T s rq s' :
  sched_inv s rq -> (forall c, current_process s = Some c -> T c) -> (forall q, q ∈ rq -> T q) ->
  (forall i, idle_proc s = Some i -> T i) -> scheduler_tick s = Some s' -> kept T s s'.
Proof.
  intros Hi Tc Trq Ti Ht. destruct (current_process s) as [c|] eqn:Hc.
  - unfold scheduler_tick in Ht. set (s0 := set_sched_ticks _ s) in Ht.
    change (current_process s0) with (current_process s) in Ht. rewrite Hc in Ht.
    pose proof (Tc c eq_refl) as Tcc. case_if.
    + cbv zeta in Ht. set (s1 := mod_proc c _ (mod_proc c _ s0)) in Ht.
      pose proof (sched_inv_ext _ s1 _ Hi (tick_same s c)) as H1.
      assert (kept T s s1) as K.
      { apply (kept_trans T _ s0); [by apply kept_same|]. unfold s1.
        refine (kept_trans T _ _ _ _ (kept_mod T c _ _ _ _)); [|done|by left].
        apply kept_mod; [done|by left]. }
      case_if; [by injection Ht as <-|]. eapply kept_trans; [exact K|]. by apply (kept_reschedule T s1 rq c).
    + pose proof (sched_inv_ext _ s0 _ Hi (ticks_same s)) as H0.
      apply (kept_trans T _ s0); [by apply kept_same|]. by apply (kept_reschedule T s0 rq c).
  - unfold scheduler_tick in Ht. set (s0 := set_sched_ticks _ s) in Ht.
    change (current_process s0) with (current_process s) in Ht. rewrite Hc in Ht.
    pose proof (sched_inv_ext _ s0 _ Hi (ticks_same s)) as H0.
    destruct (dequeue_next s0 rq H0) as (next & s2 & Hd & Hn & _ & _ & HR & HT & _).
    rewrite Hd in Ht. injection Ht as <-. injection HR as _ F2 _ _ _ _ F7 F8.
    assert (kept T s s2) as K by (by apply kept_same).
    eapply kept_trans; [exact K|]. eapply kept_trans; [apply kept_dispatch|by apply kept_same].
    destruct rq as [|q rq]; simpl in Hn; [by apply Ti|]. injection Hn as ->. apply Trq. by left.
Qed.

Lemma kept_block (T : Z -> Prop) p st s l : queue_rep s l -> NoDup l -> T p -> live st -> kept T s (scheduler_block (Some p) st s).
Proof.
  intros Hq Hn Hp Hl. simpl.
  refine (kept_trans T _ _ _ (kept_mod T p (set_state st) s _ _) _); [done|by right|].
  destruct (remove_rep (mod_proc p (set_state st) s) l p (queue_rep_mod s l p _ Hq) Hn) as (_ & HR & HT).
  injection HR as _ E2 _ _ _ _ E7 E8. by apply kept_same.
Qed.

(** The operations of the process subsystem, in any order.  A process that
    exits is not READY and is not the idle process: the callers of
    [process_exit] pass the running process, or one that was created and never
    started ([exit_ready_stays_queued] below is what happens otherwise).  A
    process that is started is not READY already; one blocks for a timer or an
    event; identifiers have not wrapped around. *)
Inductive kernel_step (te : Z) : kstate A -> kstate A -> Prop :=
| ks_create s nm e k now : next_pid s + 1 < 2 ^ 32 ->
    kernel_step te s (process_create te nm e k now s).2
| ks_fork s parent : next_pid s + 1 < 2 ^ 32 -> kernel_step te s (process_fork parent s).2
| ks_exit s p code s' : valid_slot p -> live (state (proc s p)) ->
    state (proc s p) <> PROC_STATE_READY -> idle_proc s <> Some p ->
    process_exit (Some p) code s = Some s' -> kernel_step te s s'
| ks_start s p : valid_slot p -> live (state (proc s p)) -> state (proc s p) <> PROC_STATE_READY ->
    kernel_step te s (scheduler_add (Some p) s)
| ks_tick s s' : scheduler_tick s = Some s' -> kernel_step te s s'
| ks_yield s s' : scheduler_yield s = Some s' -> kernel_step te s s'
| ks_block s p st : valid_slot p -> live (state (proc s p)) ->
    st = PROC_STATE_SLEEPING \/ st = PROC_STATE_WAITING -> kernel_step te s (scheduler_block (Some p) st s)
| ks_unblock s p : valid_slot p -> live (state (proc s p)) ->
    kernel_step te s (scheduler_unblock (Some p) s).

Lemma live_in s rq l p : kernel_inv s rq l -> valid_slot p -> live (state (proc s p)) -> p ∈ l.
Proof.
  intros Hk Hv Hl. destruct (decide (p ∈ l)) as [|Hn]; [done|].
  apply (ti_free _ _ (ki_table _ _ _ Hk) p Hv) in Hn. by rewrite Hn in Hl.
Qed.

(** A scheduler step that keeps the table keeps the whole invariant. *)
Lemma kept_inv s s' rq rq' l :
  kernel_inv s rq l -> sched_inv s' rq' -> kept (fun q => q ∈ l) s s' ->
  (forall c, current_process s' = Some c -> c ∈ l) -> kernel_inv s' rq' l.
Proof.
  intros [Hs Ht C I P] Hs' Hk Hc. split; try done.
  - by apply (kept_table (fun q => q ∈ l) s).
  - rewrite (kp_idle _ _ _ Hk). done.
  - by rewrite (kp_pid _ _ _ Hk).
Qed.

(** The process chosen is on the list. *)
Lemma chosen_in s rq l cs n :
  kernel_inv s rq l -> (forall q, q ∈ cs -> q ∈ l) -> chosen s cs = Some n -> n ∈ l.
Proof.
  intros Hk Hc. unfold chosen. destruct cs as [|q cs]; simpl.
  - intros Hi. by apply (ki_idle _ _ _ Hk).
  - intros [= <-]. apply Hc. by left.
Qed.

Lemma requeued_in s rq l c :
  kernel_inv s rq l -> c ∈ l -> forall q, q ∈ requeued s rq c -> q ∈ l.
Proof.
  intros Hk Hc q. unfold requeued. case_if; [|by eapply ki_ready_in].
  intros [Hq|Hq%list_elem_of_singleton]%elem_of_app; [by eapply ki_ready_in|by subst].
Qed.

Lemma reschedule_inv s rq l c s' :
  kernel_inv s rq l -> current_process s = Some c -> reschedule c s = Some s' ->
  exists rq', kernel_inv s' rq' l.
Proof.
  intros Hk Hc Hr. pose proof (ki_sched _ _ _ Hk) as Hs. pose proof (ki_current _ _ _ Hk c Hc) as Hcl.
  destruct (reschedule_spec s rq c Hs Hc) as (n & s2 & Hr2 & Hn & HI & Hcur & _).
  rewrite Hr in Hr2. injection Hr2 as <-. eexists. apply (kept_inv s s' rq _ l Hk HI).
  - apply (kept_reschedule _ s rq c); try done; [by intros; eapply ki_ready_in|apply (ki_idle _ _ _ Hk)].
  - rewrite Hcur. intros ? [= <-]. eapply (chosen_in s rq l); [done|by apply (requeued_in s rq)|done].
Qed.

Lemma kernel_step_inv te s s' rq l :
  kernel_inv s rq l -> kernel_step te s s' -> exists rq' l', kernel_inv s' rq' l'.
Proof.
  intros Hk Hst. pose proof (ki_sched _ _ _ Hk) as Hs.
  destruct Hst as [s nm e k now Hw|s parent Hw|s p code s' Hv Hl Hr Hi He|s p Hv Hl Hr|s s' Ht|s s' Hy
    |s p st Hv Hl Hst|s p Hv Hl].
  - pose proof (create_inv te nm e k now s rq l Hk Hw) as Hc.
    destruct (process_create te nm e k now s) as [[p|] s']; [|by eexists _, _].
    destruct Hc as (_ & _ & Hc & _). by eexists _, _.
  - pose proof (fork_inv parent s rq l Hk Hw) as Hc.
    destruct (process_fork parent s) as [[p|] s']; [|by eexists _, _].
    destruct Hc as (_ & _ & Hc & _). by eexists _, _.
  - pose proof (live_in s rq l p Hk Hv Hl) as Hp. rewrite (si_ready _ _ Hs p Hv) in Hr.
    destruct (exit_inv p code s rq l s' Hk Hp Hr Hi He) as [Hx _]. by eexists _, _.
  - pose proof (live_in s rq l p Hk Hv Hl) as Hp. exists (rq ++ [p]), l.
    apply (kept_inv s _ rq _ l Hk); [by apply add_inv|by apply kept_enqueue|].
    intros c Hc. apply (ki_current _ _ _ Hk). rewrite <- Hc. simpl. unfold ready_enqueue. by case_if.
  - destruct (tick_spec s rq Hs) as (s2 & Ht2 & _ & Hx). rewrite Ht in Ht2. injection Ht2 as <-.
    pose proof (kept_tick (fun q => q ∈ l) s rq s' Hs (ki_current _ _ _ Hk)
      (fun q => ki_ready_in s rq l q Hk) (ki_idle _ _ _ Hk) Ht) as HK.
    destruct (current_process s) as [c|] eqn:Hc.
    + pose proof (ki_current _ _ _ Hk c Hc) as Hcl. case_if.
      * destruct Hx as (HI & Hc' & _). exists rq, l. apply (kept_inv s s' rq _ l Hk HI HK).
        rewrite Hc'. by intros ? [= <-].
      * destruct Hx as (n & Hn & Hc' & HI & _). eexists _, l. apply (kept_inv s s' rq _ l Hk HI HK).
        rewrite Hc'. intros ? [= <-]. eapply (chosen_in s rq l); [done|by apply (requeued_in s rq)|done].
    + destruct Hx as (n & Hn & Hc' & HI & _). eexists _, l. apply (kept_inv s s' rq _ l Hk HI HK).
      rewrite Hc'. intros ? [= <-]. eapply (chosen_in s rq l); [done|by intros; eapply ki_ready_in|done].
  - unfold scheduler_yield in Hy. destruct (current_process s) as [c|] eqn:Hc.
    + destruct (reschedule_inv s rq l c s' Hk Hc Hy) as [rq' Hx]. by exists rq', l.
    + injection Hy as <-. by exists rq, l.
  - pose proof (live_in s rq l p Hk Hv Hl) as Hp. eexists _, l.
    apply (kept_inv s _ rq _ l Hk).
    + apply remove_inv; (done || by destruct Hst as [->| ->]).
    + apply (kept_block _ p st s rq); [apply Hs|apply Hs|done|by destruct Hst as [->| ->]].
    + intros c Hc. apply (ki_current _ _ _ Hk). rewrite <- Hc.
      destruct (remove_rep (mod_proc p (set_state st) s) rq p (queue_rep_mod s rq p _ (si_rep _ _ Hs))
        (si_nodup _ _ Hs)) as (_ & HR & _). injection HR as E1 _ _ _ _ _ _ _. simpl. by rewrite E1.
  - unfold scheduler_unblock, state_is. case_bool_decide as E1; [by exists rq, l|]. simpl.
    case_bool_decide as E2; [by exists rq, l|].
    pose proof (live_in s rq l p Hk Hv Hl) as Hp. exists (rq ++ [p]), l.
    apply (kept_inv s _ rq _ l Hk); [by apply add_inv|by apply kept_enqueue|].
    intros c Hc. apply (ki_current _ _ _ Hk). rewrite <- Hc. unfold ready_enqueue. by case_if.
Qed.

Lemma reach_kernel_inv te s rq l s' :
  kernel_inv s rq l -> reach (kernel_step te) s s' -> exists rq' l', kernel_inv s' rq' l'.
Proof.
  intros Hk Hr.
  refine (reach_invariant (kernel_step te) (fun t => exists rq' l', kernel_inv t rq' l') s s' _ _ Hr).
  - intros a b (rq' & l' & Hi) Hs. by eapply kernel_step_inv.
  - by exists rq, l.
Qed.

(** The lookup finds the process with the identifier. *)
Lemma get_by_pid_spec s rq l id p :
  kernel_inv s rq l -> process_get_by_pid id s = Some p <-> p ∈ l /\ pid (proc s p) = id.
Proof.
  intros Hk. pose proof (ki_table _ _ _ Hk) as Ht. unfold process_get_by_pid.
  rewrite (list_find_proc_spec s _ _ _ None l (ti_dll _ _ Ht) (table_length _ _ Ht)). split.
  - intros Hf. destruct (list_find _ l) as [[i q]|] eqn:E; [|done]. simpl in Hf. injection Hf as ->.
    apply list_find_Some in E as (Hq & Hz & _). bools. split; [by eapply list_elem_of_lookup_2|done].
  - intros [Hp Hid]. destruct (list_find _ l) as [[i q]|] eqn:E.
    + apply list_find_Some in E as (Hq & Hz & _). bools. simpl. f_equal.
      apply (ti_unique _ _ Ht); [by eapply list_elem_of_lookup_2|done|congruence].
    + apply list_find_None in E. rewrite Forall_forall in E. exfalso. apply (E p Hp). by apply Z.eqb_eq.
Qed.


(** In these states the scan of [process_waitpid] finds no zombie. *)
Lemma no_zombie s rq l id c :
  kernel_inv s rq l ->
  list_find_proc MAX_PROCESSES (fun q => reapable id c q s) (process_list s) s = None.
Proof.
  intros Hk. pose proof (ki_table _ _ _ Hk) as Ht.
  rewrite (list_find_proc_spec s _ _ _ None l (ti_dll _ _ Ht) (table_length _ _ Ht)).
  destruct (list_find _ l) as [[i q]|] eqn:E; [|done]. apply list_find_Some in E as (Hq & Hz & _).
  apply list_elem_of_lookup_2, (ti_live _ _ Ht) in Hq. unfold reapable, state_is in Hz. bools.
  match goal with H : bool_decide _ = true |- _ => apply bool_decide_eq_true in H; by rewrite H in Hq end.
Qed.

(** A wait never reaps a child: [process_exit] frees the slot and
    unlinks the process before any other code runs, so no zombie is ever on
    the list and [process_waitpid] gives up with [-ECHILD] after its 10000
    attempts, whatever runs in between. *)
Theorem waitpid_never_reaps te s rq l env id :
  kernel_inv s rq l -> (forall n t, reach (kernel_step te) t (env n t)) ->
  exists r s', process_waitpid env id s = (r, None, s') /\ (r = - ECHILD \/ r = - ESRCH).
Proof.
  intros Hk He. unfold process_waitpid. destruct (current_process s) as [c|]; [|by eexists _, _; auto].
  generalize (Z.to_nat 10000). intros n. exists (- ECHILD). revert s rq l Hk.
  induction n as [|n IH]; intros s rq l Hk; cbn [waitpid_loop]; [eauto|].
  rewrite (no_zombie s rq l id c Hk).
  destruct (reach_kernel_inv te s rq l (env n s) Hk (He n s)) as (rq' & l' & Hk').
  by apply (IH _ rq' l').
Qed.

(** [process_create] either returns a new process -- the next
    identifier, state CREATED, default signal dispositions, the name truncated
    to 63 bytes, a context that starts at [kernel_thread_entry] -- linked at the
    front of the list, or NULL with the list and the queue as they were; in
    both cases every other process is untouched and the invariant holds. *)
Theorem process_create_correct te nm e k now s rq l :
  kernel_inv s rq l -> next_pid s + 1 < 2 ^ 32 ->
  let '(r, s') := process_create te nm e k now s in
  match r with
  | Some p => valid_slot p /\ (p ∉ l) /\ kernel_inv s' rq (p :: l) /\
              pid (proc s' p) = next_pid s /\ state (proc s' p) = PROC_STATE_CREATED /\
              sigstate (proc s' p) = signal_init_process /\
              name (proc s' p) = <[63%nat := 0]> (strncpy (replicate 64 0) nm 63) /\
              exists sp, p_context (proc s' p) =
                         Ctx 0 0 0 0 0 0 sp te 0x202 GDT_KERNEL_CODE GDT_KERNEL_DATA
  | None => kernel_inv s' rq l
  end.
Proof. apply create_inv. Qed.

(** The entry function is left on the new stack, while [kernel_thread_entry]
    calls the address in RBX, which is 0 in the context of every new process. *)
Lemma create_entry_lost te nm e k now s rq l p s' :
  kernel_inv s rq l -> next_pid s + 1 < 2 ^ 32 ->
  process_create te nm e k now s = (Some p, s') ->
  rip (p_context (proc s' p)) = te /\ rbx (p_context (proc s' p)) = 0.
Proof.
  intros Hk Hw Hc. pose proof (create_inv te nm e k now s rq l Hk Hw) as Hx. rewrite Hc in Hx.
  by destruct Hx as (_ & _ & _ & _ & _ & _ & _ & sp & ->).
Qed.

(** When the current process exits it leaves the list and its slot is
    free, but the processor is not given away: [current_process] is NULL when
    [process_exit] calls [scheduler_yield], which then returns at once, and the
    next timer tick makes another process current without a context switch.
    The registers stay those of the process that exited. *)
Theorem process_exit_keeps_cpu s rq l p code s1 s2 :
  kernel_inv s rq l -> current_process s = Some p -> p ∉ rq -> idle_proc s <> Some p ->
  process_exit (Some p) code s = Some s1 -> scheduler_tick s1 = Some s2 ->
  kernel_inv s1 rq (filter (fun q => q <> p) l) /\ current_process s1 = None /\
  scheduler_yield s1 = Some s1 /\
  exists next, next <> p /\ current_process s2 = Some next /\ cpu s2 = cpu s.
Proof.
  intros Hk Hc Hp Hi He Ht. pose proof (ki_current _ _ _ Hk p Hc) as Hpl.
  destruct (exit_inv p code s rq l s1 Hk Hpl Hp Hi He) as (Hk1 & Hcur & _).
  destruct (Hcur Hc) as [Hn Hcpu]. split; [done|]. split; [done|].
  split; [unfold scheduler_yield; by rewrite Hn|].
  destruct (tick_spec s1 rq (ki_sched _ _ _ Hk1)) as (s3 & Ht3 & _ & Hx).
  rewrite Ht in Ht3. injection Ht3 as <-. rewrite Hn in Hx.
  destruct Hx as (next & Hnx & Hc2 & _ & _ & Hcpu2). exists next. split; [|split; [done|congruence]].
  intros ->. assert (p ∈ filter (fun q => q <> p) l) as Hin.
  { apply (chosen_in s1 rq _ rq p Hk1); [by intros; eapply ki_ready_in|done]. }
  apply list_elem_of_filter in Hin as [Hne _]. done.
Qed.
End scheduling.

(** ** Descriptors and credentials *)

Section descriptors.
Context {A : Type}.
Implicit Types (s : kstate A) (p fd : Z).

Lemma find_fd_spec n a (t : Z -> fd_entry) :
  let r := find_fd n a t in
  (a <= r < a + Z.of_nat n /\ fd_file (t r) = None /\
   forall i, a <= i < r -> fd_file (t i) <> None) \/
  (r = -1 /\ forall i, a <= i < a + Z.of_nat n -> fd_file (t i) <> None).
Proof.
  revert a. induction n as [|n IH]; intros a; cbn [find_fd].
  - right. split; [done|lia].
  - destruct (fd_file (t a)) eqn:E.
    + destruct (IH (a + 1)) as [(H1 & H2 & H3)|(H1 & H2)]; [left|right].
      * split; [lia|]. split; [done|]. intros i Hi. destruct (decide (i = a)) as [->|]; [congruence|].
        apply H3. lia.
      * split; [done|]. intros i Hi. destruct (decide (i = a)) as [->|]; [congruence|]. apply H2. lia.
    + left. split; [lia|]. split; [done|lia].
Qed.

(** [dup] takes the lowest free descriptor, which then names the same file
    with one more holder; with no free descriptor it fails and changes nothing. *)
Lemma fd_dup_correct p fd s f :
  0 <= fd < 64 -> fd_file (fds (proc s p) fd) = Some f ->
  let '(r, s') := fd_dup p fd s in
  (0 <= r < 64 /\ fd_file (fds (proc s p) r) = None /\
   (forall i, 0 <= i < r -> fd_file (fds (proc s p) i) <> None) /\
   (forall i, fds (proc s' p) i = if i =? r then fds (proc s p) fd else fds (proc s p) i) /\
   f_refcount (files s' f) = f_refcount (files s f) + 1 /\
   f_node (files s' f) = f_node (files s f) /\ node_refs s' = node_refs s) \/
  (r = - EMFILE /\ s' = s /\ forall i, 0 <= i < 64 -> fd_file (fds (proc s p) i) <> None).
Proof.
  intros Hfd Hf. unfold fd_dup. rewrite (proj2 (Z.ltb_ge _ _)), (proj2 (Z.leb_gt _ _)) by lia. cbn [orb].
  rewrite Hf. destruct (find_fd_spec MAX_FDS 0 (fds (proc s p))) as [(H1 & H2 & H3)|(H1 & H2)];
    fold (fd_alloc p s) in *.
  - rewrite (proj2 (Z.ltb_ge _ _)) by lia. rewrite proc_mod_eq.
    change (fds (set_fds ?x ?y)) with x. rewrite upd_eq, Hf. left. cbn [file_addref].
    split_and!; try done; try (apply H1).
    + intros i. change (proc (set_files ?x ?t) p) with (proc t p). by rewrite proc_mod_eq.
    + simpl. unfold upd. by rewrite Z.eqb_refl.
    + simpl. unfold upd. by rewrite Z.eqb_refl.
  - rewrite H1. right. by split_and!.
Qed.

(** Closing the copy closes the node, although the first descriptor still
    names the file: the count of holders is never looked at. *)
Lemma dup_then_close_closes p fd s f n :
  0 <= fd < 64 -> fd_file (fds (proc s p) fd) = Some f -> f_node (files s f) = Some n ->
  let '(r, s1) := fd_dup p fd s in
  0 <= r ->
  node_closes (fd_close p r s1) = n :: node_closes s /\
  fd_file (fds (proc (fd_close p r s1) p) fd) = Some f.
Proof.
  intros Hfd Hf Hn. pose proof (fd_dup_correct p fd s f Hfd Hf) as Hd.
  destruct (fd_dup p fd s) as [r s1] eqn:Ed. intros Hr.
  destruct Hd as [(H1 & H2 & _ & H3 & _ & H4 & _)|(-> & _ & _)]; [|unfold EMFILE in Hr; lia].
  assert (node_closes s1 = node_closes s) as Hc.
  { unfold fd_dup in Ed. rewrite (proj2 (Z.ltb_ge fd _)), (proj2 (Z.leb_gt _ fd)), Hf in Ed by lia.
    cbn [orb] in Ed. case_if; injection Ed as <- <-; [done|].
    unfold file_addref. by case_match. }
  unfold fd_close. rewrite (proj2 (Z.ltb_ge r _)), (proj2 (Z.leb_gt _ r)) by lia. cbn [orb].
  rewrite H3, Z.eqb_refl, Hf, H4, Hn. split.
  - unfold vfs_close. case_if; simpl; by rewrite Hc.
  - rewrite proc_mod_eq. change (fds (set_fds ?x ?y)) with x. rewrite upd_ne by congruence.
    assert (forall t : kstate A, proc (vfs_close (Some n) t) p = proc t p) as ->
      by (intros t; unfold vfs_close; by case_if).
    rewrite H3. destruct (Z.eqb_spec fd r); [done|done].
Qed.

(** A process without privileges keeps its identity: every call either fails
    or sets the identity it has already. *)
Lemma setuid_unprivileged p u s :
  euid (proc s p) <> 0 -> uid (proc s p) = euid (proc s p) ->
  let '(r, s') := process_setuid (Some p) u s in
  uid (proc s' p) = uid (proc s p) /\ euid (proc s' p) = euid (proc s p) /\
  (r = 0 <-> u = uid (proc s p)).
Proof.
  intros He Hu. unfold process_setuid. rewrite (proj2 (Z.eqb_neq _ _) He). cbn [negb andb].
  destruct (Z.eqb_spec u (uid (proc s p))) as [->|Hne]; cbn [negb].
  - rewrite proc_mod_eq. split_and!; done.
  - by split_and!.
Qed.
End descriptors.

(** ** Witnesses *)

(** The idle process alone, as after [scheduler_init]. *)
Definition idle_pcb : process := set_state PROC_STATE_CREATED (set_pid 1 proc_zero).

Definition demo_kernel : kstate pmm :=
  KState (fun p => if p =? 0 then idle_pcb else proc_zero) (Some 0) None 2
    (replicate MAX_READY None) 0 0 0 0 (Some 0) ctx_zero 0 (Vm (fun _ _ => 0) demo_pmm 0 0)
    (fun _ => File None 0 0 0) (fun _ => 0) [].

Lemma demo_kernel_inv : kernel_inv demo_kernel [] [0].
Proof.
  assert (forall p, state (proc demo_kernel p) = if p =? 0 then PROC_STATE_CREATED else PROC_STATE_UNUSED)
    as Hst by (intros p; unfold proc; simpl; by case_if).
  split.
  - apply (scheduler_init_inv demo_kernel _ 0 eq_refl); [done|by split|done|].
    intros p Hp. rewrite Hst. by case_if.
  - split.
    + by split_and!.
    + apply NoDup_singleton.
    + by intros p ->%list_elem_of_singleton.
    + by intros p ->%list_elem_of_singleton.
    + intros p _ Hp. rewrite Hst. case_if; [|done]. bools. subst. exfalso. apply Hp. by left.
    + by intros p ->%list_elem_of_singleton.
    + by intros p q ->%list_elem_of_singleton ->%list_elem_of_singleton.
  - done.
  - intros i [= <-]. by left.
  - done.
Qed.

#[global] Opaque demo_pmm.

Lemma process_create_correct_witness :
  let '(r, s') := process_create 0x1000 [105; 110] 0x2000 true 0 demo_kernel in
  match r with
  | Some p => pid (proc s' p) = 2 /\ state (proc s' p) = PROC_STATE_CREATED
  | None => kernel_inv s' [] [0]
  end.
Proof.
  pose proof (process_create_correct 0x1000 [105; 110] 0x2000 true 0 demo_kernel [] [0]
    demo_kernel_inv ltac:(by vm_compute)) as Hc.
  destruct (process_create 0x1000 [105; 110] 0x2000 true 0 demo_kernel) as [[p|] s']; [|exact Hc].
  destruct Hc as (_ & _ & _ & H1 & H2 & _). split; [exact H1|exact H2].
Defined.

Lemma waitpid_never_reaps_witness :
  exists r s', process_waitpid (fun _ t => t) 2 demo_kernel = (r, None, s') /\ (r = - ECHILD \/ r = - ESRCH).
Proof.
  apply (waitpid_never_reaps 0x1000 demo_kernel [] [0] _ 2 demo_kernel_inv). intros n t. apply reach_refl.
Defined.

(** The idle process and a second one, which runs. *)
Definition running_pcb : process := set_p_next (Some 0) (set_state PROC_STATE_RUNNING (set_pid 2 proc_zero)).

Definition demo_running : kstate pmm :=
  KState (fun p => if p =? 0 then set_p_prev (Some 1) idle_pcb else if p =? 1 then running_pcb else proc_zero)
    (Some 1) (Some 1) 3 (replicate MAX_READY None) 0 0 0 0 (Some 0) ctx_zero 0
    (Vm (fun _ _ => 0) demo_pmm 0 (virt_to_phys_kernel 0))
    (fun _ => File None 0 0 0) (fun _ => 0) [].

Lemma demo_running_inv : kernel_inv demo_running [] [1; 0].
Proof.
  assert (forall p, state (proc demo_running p) = if p =? 0 then PROC_STATE_CREATED
            else if p =? 1 then PROC_STATE_RUNNING else PROC_STATE_UNUSED)
    as Hst by (intros p; unfold proc; simpl; case_if; [done|]; by case_if).
  assert (forall p : Z, p ∈ [1; 0] -> p = 1 \/ p = 0) as Hin by set_solver.
  split.
  - split.
    + split; [|done]. apply ring_empty; [done|]. by apply Nat.ltb_lt.
    + constructor.
    + set_solver.
    + intros p _. rewrite Hst. split; [by repeat case_if|set_solver].
    + intros p _. rewrite Hst. case_if; [done|]. case_if; [|done]. bools. by subst.
    + intros c [= <-]. by split_and!.
    + by exists 0.
  - split.
    + by split_and!.
    + apply NoDup_cons. split; [set_solver|apply NoDup_singleton].
    + by intros p [->| ->]%Hin.
    + by intros p [->| ->]%Hin.
    + intros p _ Hp. rewrite Hst. repeat case_if; try done; bools; subst; exfalso; apply Hp; set_solver.
    + by intros p [->| ->]%Hin.
    + by intros p q [->| ->]%Hin [->| ->]%Hin.
  - intros c [= <-]. set_solver.
  - intros i [= <-]. set_solver.
  - done.
Qed.


(** A process that exits while it is READY stays in the queue: the scheduler
    later makes its unused slot the running process. *)
Definition demo_queued : kstate pmm :=
  scheduler_add (Some 1) (set_current (Some 0) (mod_proc 1 (set_state PROC_STATE_CREATED) demo_running)).

Example exit_ready_stays_queued :
  state (proc demo_queued 1) = PROC_STATE_READY /\
  (s1 ← process_exit (Some 1) 7 demo_queued; s2 ← scheduler_yield s1;
   Some (state (proc s1 1), current_process s2)) = Some (PROC_STATE_UNUSED, Some 1).
Proof. split; lazy; reflexivity. Qed.

Lemma process_exit_keeps_cpu_witness :
  match process_exit (Some 1) 7 demo_running with
  | Some s1 => current_process s1 = None /\
      match scheduler_tick s1 with
      | Some s2 => exists next, next <> 1 /\ current_process s2 = Some next /\ cpu s2 = cpu demo_running
      | None => False
      end
  | None => False
  end.
Proof.
  assert (idle_proc demo_running <> Some 1) as Hi by done.
  assert (1 ∈ [1; 0]) as Hin by set_solver.
  destruct (process_exit (Some 1) 7 demo_running) as [s1|] eqn:E1; [|by vm_compute in E1].
  destruct (scheduler_tick s1) as [s2|] eqn:E2.
  - destruct (process_exit_keeps_cpu demo_running [] [1; 0] 1 7 s1 s2 demo_running_inv eq_refl
      (not_elem_of_nil 1) Hi E1 E2) as (_ & Hc & _ & Hn). by split.
  - exfalso. destruct (exit_inv 1 7 demo_running [] [1; 0] s1 demo_running_inv Hin
      (not_elem_of_nil 1) Hi E1) as [Hk _].
    destruct (tick_spec s1 [] (ki_sched _ _ _ Hk)) as (s3 & E3 & _). congruence.
Defined.
