(* ===== verification/Signal.v ===== *)
(** * Signals, [kernel/signal.c]

    Pending and blocked sets, dispositions, delivery, and the frame built on
    the user stack for a handler.  The interrupt frame ([cpu_registers_t]) and
    the memory of the interrupted process are explicit arguments.

    [signal_deliver_pending] may give the processor away in the middle of its
    loop ([scheduler_yield] after a stop): it then has the result [DYielded],
    which says at which signal the loop goes on when the process runs again. *)

From S2P Require Import Prelude Ring CString FrameAlloc Pmm Vmm Pcb Scheduler Process ProcInv.

Definition SIGINT : Z := 2.
Definition SIGKILL : Z := 9.
Definition SIGSTOP : Z := 19.
Definition SIGTSTP : Z := 20.
Definition SIGTTIN : Z := 21.
Definition SIGTTOU : Z := 22.

Definition SA_NODEFER : Z := 0x0040.
Definition SA_RESETHAND : Z := 0x0080.

Definition SIG_BLOCK : Z := 0.
Definition SIG_UNBLOCK : Z := 1.
Definition SIG_SETMASK : Z := 2.

(** The macros on [sigset_t], a 32-bit mask. *)
Definition sigaddset (set sig : Z) : Z := set .| Z.shiftl 1 (sig - 1).
Definition sigdelset (set sig : Z) : Z := set .&~ Z.shiftl 1 (sig - 1).
Definition sigismember (set sig : Z) : bool := negb (set .& Z.shiftl 1 (sig - 1) =? 0).

Definition sig_valid (sig : Z) : bool := (1 <=? sig) && (sig <? NSIG).

(** ** The interrupt frame *)

Record cpu_registers := Regs {
  u_r15 : Z; u_r14 : Z; u_r13 : Z; u_r12 : Z; u_r11 : Z; u_r10 : Z; u_r9 : Z; u_r8 : Z;
  u_rbp : Z; u_rdi : Z; u_rsi : Z; u_rdx : Z; u_rcx : Z; u_rbx : Z; u_rax : Z;
  u_int_no : Z; u_err_code : Z;
  u_rip : Z; u_cs : Z; u_rflags : Z; u_rsp : Z; u_ss : Z
}.

(** [B8 34 00 00 00  mov eax, 52;  CD 80  int 0x80] *)
Definition g_sigreturn_tramp : list Z := [0xB8; 52; 0; 0; 0; 0xCD; 0x80].
Definition SIGTRAMP_SIZE : Z := 7.

Fixpoint store_bytes (m : mem) (a : Z) (bs : list Z) : mem :=
  match bs with
  | [] => m
  | b :: bs => store_bytes (store8 m a b) (a + 1) bs
  end.

(** Consecutive 64-bit fields of a structure. *)
Fixpoint store_words (m : mem) (a : Z) (ws : list Z) : mem :=
  match ws with
  | [] => m
  | w :: ws => store_words (store64 m a w) (a + 8) ws
  end.

Fixpoint load_words (n : nat) (m : mem) (a : Z) : list Z :=
  match n with
  | O => []
  | S n => load64 m a :: load_words n m (a + 8)
  end.

(** [sig_frame_t], in the order of its fields; 19 words. *)
Definition sig_frame (r : cpu_registers) (sig : Z) : list Z :=
  [u_r15 r; u_r14 r; u_r13 r; u_r12 r; u_r11 r; u_r10 r; u_r9 r; u_r8 r;
   u_rbp r; u_rdi r; u_rsi r; u_rdx r; u_rcx r; u_rbx r; u_rax r;
   u_rflags r; u_rip r; u_rsp r; u64 sig].
Definition SIG_FRAME_SIZE : Z := 152.

Definition signal_setup_frame (r : cpu_registers) (handler sig : Z) (m : mem) : cpu_registers * mem :=
  let usp := u64 (u_rsp r - SIGTRAMP_SIZE) in
  let m := store_bytes m usp g_sigreturn_tramp in
  let tramp_addr := usp in
  let usp := usp .&~ 0xF in
  let usp := u64 (usp - SIG_FRAME_SIZE) in
  let m := store_words m usp (sig_frame r sig) in
  let usp := u64 (usp - 8) in
  let m := store64 m usp tramp_addr in
  (Regs (u_r15 r) (u_r14 r) (u_r13 r) (u_r12 r) (u_r11 r) (u_r10 r) (u_r9 r) (u_r8 r)
     (u_rbp r) (u64 sig) 0 0 (u_rcx r) (u_rbx r) (u_rax r) (u_int_no r) (u_err_code r)
     handler (u_cs r) (u_rflags r) usp (u_ss r), m).

(** The frame is at the stack pointer of the trampoline's system call. *)
Definition signal_do_sigreturn (r : cpu_registers) (m : mem) : cpu_registers :=
  match load_words 18 m (u_rsp r) with
  | [x15; x14; x13; x12; x11; x10; x9; x8; xbp; xdi; xsi; xdx; xcx; xbx; xax; xflags; xip; xsp] =>
      Regs x15 x14 x13 x12 x11 x10 x9 x8 xbp xdi xsi xdx xcx xbx xax (u_int_no r) (u_err_code r)
        xip (u_cs r) xflags xsp (u_ss r)
  | _ => r
  end.

Section signal.
Context {A : Type} `{FrameAlloc A}.
Implicit Types (s : kstate A) (p sig : Z).

Definition mod_sig p (f : signal_state -> signal_state) s : kstate A :=
  mod_proc p (fun q => set_sigstate (f (sigstate q)) q) s.

Definition set_pending (v : Z) (ss : signal_state) : signal_state :=
  SigState (actions ss) v (blocked ss) (alt_stack ss) (alt_stack_sz ss).
Definition set_blocked (v : Z) (ss : signal_state) : signal_state :=
  SigState (actions ss) (pending ss) v (alt_stack ss) (alt_stack_sz ss).
Definition set_action (i : Z) (a : sigaction) (ss : signal_state) : signal_state :=
  SigState (upd (actions ss) i a) (pending ss) (blocked ss) (alt_stack ss) (alt_stack_sz ss).

(** ** Sending *)

Definition add_pending (sig : Z) (ss : signal_state) : signal_state :=
  set_pending (sigaddset (pending ss) sig) ss.

Definition signal_send_proc (p : option Z) sig s : Z * kstate A :=
  match p with
  | None => (- EINVAL, s)
  | Some p =>
      if negb (sig_valid sig) then (- EINVAL, s)
      else if negb (sig =? SIGKILL) && negb (sig =? SIGSTOP) &&
              sigismember (blocked (sigstate (proc s p))) sig
      then (0, mod_sig p (add_pending sig) s)
      else
        let s := mod_sig p (add_pending sig) s in
        if state_is (state (proc s p)) PROC_STATE_SLEEPING || state_is (state (proc s p)) PROC_STATE_WAITING
        then (0, process_wake (Some p) s) else (0, s)
  end.

Definition signal_send (id sig : Z) s : Z * kstate A :=
  if negb (sig_valid sig) then (- EINVAL, s)
  else match process_get_by_pid id s with
       | None => (- ESRCH, s)
       | Some p => signal_send_proc (Some p) sig s
       end.

Definition process_kill (id sig : Z) s : kstate A :=
  match process_get_by_pid id s with
  | None => s
  | Some p => (signal_send_proc (Some p) sig s).2
  end.

(** ** Delivery *)

(** [process_exit(proc, -sig); scheduler_yield();] *)
Definition exit_by_signal p sig s : option (kstate A) :=
  match process_exit (Some p) (- sig) s with
  | Some s => scheduler_yield s
  | None => None
  end.

(** [proc->state = PROC_STATE_WAITING; scheduler_yield();] *)
Definition stop_process p s : option (kstate A) :=
  scheduler_yield (mod_proc p (set_state PROC_STATE_WAITING) s).

Definition stop_signal (sig : Z) : bool :=
  (sig =? SIGSTOP) || (sig =? SIGTSTP) || (sig =? SIGTTIN) || (sig =? SIGTTOU).
Definition ignored_signal (sig : Z) : bool := (sig =? SIGCHLD) || (sig =? SIGCONT) || (sig =? SIGWINCH).

(** The terminating signals and the default case do the same. *)
Definition signal_default_action p sig s : option (kstate A) :=
  if stop_signal sig then stop_process p s
  else if ignored_signal sig then Some s
  else exit_by_signal p sig s.

Inductive delivery :=
| DReturn (s : kstate A) (r : option cpu_registers) (m : mem)
| DYielded (s : kstate A) (resume : Z)
| DFault.

(** A default action ends the call when it returns. *)
Definition default_then_return p sig s (r : option cpu_registers) (m : mem) : delivery :=
  match signal_default_action p sig s with
  | Some s => DReturn s r m
  | None => DFault
  end.

(** The loop from signal [sig] on; [n] signals are left. *)
Fixpoint deliver_loop (n : nat) p sig (deliverable : Z) s (r : option cpu_registers) (m : mem) : delivery :=
  match n with
  | O => DReturn s r m
  | S n =>
      if negb (sigismember deliverable sig) then deliver_loop n p (sig + 1) deliverable s r m
      else
        let s := mod_sig p (fun ss => set_pending (sigdelset (pending ss) sig) ss) s in
        let act := actions (sigstate (proc s p)) (sig - 1) in
        let handler := sa_handler act in
        if handler =? SIG_IGN then deliver_loop n p (sig + 1) deliverable s r m
        else if sig =? SIGKILL then
          match exit_by_signal p sig s with Some s => DReturn s r m | None => DFault end
        else if sig =? SIGSTOP then
          match stop_process p s with Some s => DYielded s (sig + 1) | None => DFault end
        else if sig =? SIGCONT then
          let s := if state_is (state (proc s p)) PROC_STATE_WAITING
                   then scheduler_add (Some p) (mod_proc p (set_state PROC_STATE_READY) s) else s in
          deliver_loop n p (sig + 1) deliverable s r m
        else if handler =? SIG_DFL then default_then_return p sig s r m
        else
          match r with
          | Some regs =>
              if (u_cs regs) .& 3 =? 3 then
                let s := if sa_flags act .& SA_NODEFER =? 0
                         then mod_sig p (fun ss => set_blocked (sigaddset (blocked ss) sig) ss) s else s in
                let s := if sa_flags act .& SA_RESETHAND =? 0 then s
                         else mod_sig p (set_action (sig - 1)
                                (SigAction SIG_DFL (sa_mask act) (sa_flags act))) s in
                let '(regs, m) := signal_setup_frame regs handler sig m in
                DReturn s (Some regs) m
              else default_then_return p sig s r m
          | None => default_then_return p sig s r m
          end
  end.

Definition deliverable_set (ss : signal_state) : Z := pending ss .&~ blocked ss.

Definition signal_deliver_pending (p : option Z) (r : option cpu_registers) (m : mem) s : delivery :=
  match p with
  | None => DReturn s r m
  | Some p =>
      let deliverable := deliverable_set (sigstate (proc s p)) in
      if deliverable =? 0 then DReturn s r m
      else deliver_loop 31 p 1 deliverable s r m
  end.

Definition signal_has_pending (p : option Z) s : bool :=
  match p with
  | None => false
  | Some p => negb (deliverable_set (sigstate (proc s p)) =? 0)
  end.

(** ** Dispositions and masks *)

(** The result, the old disposition ([old] set), the state. *)
Definition signal_do_sigaction (sig : Z) (act : option sigaction) s : Z * option sigaction * kstate A :=
  if negb (sig_valid sig) then (- EINVAL, None, s)
  else if (sig =? SIGKILL) || (sig =? SIGSTOP) then (- EINVAL, None, s)
  else match current_process s with
       | None => (- ESRCH, None, s)
       | Some p =>
           let old := actions (sigstate (proc s p)) (sig - 1) in
           (0, Some old, match act with Some a => mod_sig p (set_action (sig - 1) a) s | None => s end)
       end.

Definition signal_do_sigprocmask (how : Z) (set : option Z) s : Z * option Z * kstate A :=
  match current_process s with
  | None => (- ESRCH, None, s)
  | Some p =>
      let old := blocked (sigstate (proc s p)) in
      match set with
      | None => (0, Some old, s)
      | Some mask =>
          let mask := sigdelset mask SIGKILL in
          let mask := sigdelset mask SIGSTOP in
          if how =? SIG_BLOCK then (0, Some old, mod_sig p (set_blocked (old .| mask)) s)
          else if how =? SIG_UNBLOCK then (0, Some old, mod_sig p (set_blocked (old .&~ mask)) s)
          else if how =? SIG_SETMASK then (0, Some old, mod_sig p (set_blocked mask) s)
          else (- EINVAL, Some old, s)
      end
  end.

Definition signal_raise_fault (sig : Z) (m : mem) s : delivery :=
  match current_process s with
  | None => DReturn s None m
  | Some p => signal_deliver_pending (Some p) None m (signal_send_proc (Some p) sig s).2
  end.
End signal.

(** ** The frame on the user stack *)

Lemma load_le_ext n m m' a :
  (forall k, 0 <= k < Z.of_nat n -> m' (a + k) = m (a + k)) -> load_le n m' a = load_le n m a.
Proof.
  revert a. induction n as [|n IH]; intros a Hm; [done|]. cbn [load_le].
  pose proof (Hm 0 ltac:(lia)) as H0. rewrite Z.add_0_r in H0. rewrite H0, (IH (a + 1)); [done|].
  intros k Hk. rewrite <- Z.add_assoc. apply Hm. lia.
Qed.

Lemma load_store_le n m a v :
  0 <= v < 256 ^ Z.of_nat n -> load_le n (store_le n m a v) a = v.
Proof.
  revert m a v. induction n as [|n IH]; intros m a v Hv; [simpl in *; lia|].
  rewrite Nat2Z.inj_succ, Z.pow_succ_r in Hv by lia. cbn [load_le store_le].
  rewrite IH by (split; [apply Z.div_pos|apply Z.div_lt_upper_bound]; lia).
  rewrite store_le_spec, (proj2 (Z.leb_gt _ _)) by lia. cbn [andb]. unfold store8. rewrite Z.eqb_refl.
  unfold u8. change (2 ^ 8) with 256. pose proof (Z.div_mod v 256). lia.
Qed.

Lemma load_words_ext n m m' a :
  (forall x, a <= x < a + 8 * Z.of_nat n -> m' x = m x) -> load_words n m' a = load_words n m a.
Proof.
  revert a. induction n as [|n IH]; intros a Hm; [done|]. cbn [load_words]. f_equal.
  - apply load_le_ext. intros k Hk. apply Hm. lia.
  - apply IH. intros x Hx. apply Hm. lia.
Qed.

Lemma store64_outside m a v x : x < a \/ a + 8 <= x -> store64 m a v x = m x.
Proof.
  intros Hx. unfold store64. rewrite store_le_spec. change (Z.of_nat 8) with 8.
  case_if; [bools; lia|done].
Qed.

Lemma store_words_outside ws m a x :
  x < a \/ a + 8 * Z.of_nat (length ws) <= x -> store_words m a ws x = m x.
Proof.
  revert m a. induction ws as [|w ws IH]; intros m a Hx; [done|]. cbn [store_words length] in *.
  rewrite IH by lia. apply store64_outside. lia.
Qed.

Lemma store_bytes_spec bs m a x :
  store_bytes m a bs x =
  match bs !! Z.to_nat (x - a) with Some b => if a <=? x then u8 b else m x | None => m x end.
Proof.
  revert m a. induction bs as [|b bs IH]; intros m a; cbn [store_bytes]; [done|]. rewrite IH.
  unfold store8. destruct (Z.eqb_spec x a) as [->|Hne].
  - rewrite Z.sub_diag, Z.leb_refl, (proj2 (Z.leb_gt (a + 1) a)) by lia. simpl. by case_match.
  - destruct (Z.leb_spec a x).
    + replace (Z.to_nat (x - a)) with (S (Z.to_nat (x - (a + 1)))) by lia. simpl.
      by rewrite (proj2 (Z.leb_le _ _)) by lia.
    + rewrite (proj2 (Z.leb_gt _ _)) by lia. by repeat case_match.
Qed.

Lemma load_store_words ws m a :
  Forall (fun w => 0 <= w < 2 ^ 64) ws -> load_words (length ws) (store_words m a ws) a = ws.
Proof.
  intros Hw. revert m a. induction Hw as [|w ws Hw Hws IH]; intros m a; [done|].
  cbn [length load_words store_words]. f_equal; [|apply IH].
  transitivity (load64 (store64 m a w) a); [|by apply load_store_le].
  apply load_le_ext. intros k Hk. apply store_words_outside. lia.
Qed.

(** The registers hold 64-bit values. *)
Definition regs_ok (r : cpu_registers) : Prop := Forall (fun w => 0 <= w < 2 ^ 64) (sig_frame r 0).

(** C25: A handler runs on a frame that brings the process back: when
    the handler returns (its [ret] leaves the stack pointer at the frame) and
    has not overwritten the frame, [signal_do_sigreturn] restores every saved
    register.  The return address is the trampoline, whose bytes are the
    system call, and nothing at or above the interrupted stack pointer is
    written. *)
Theorem sigreturn_roundtrip r handler sig m :
  regs_ok r -> 176 <= u_rsp r -> 0 <= sig < 32 ->
  let '(r1, m1) := signal_setup_frame r handler sig m in
  let tramp := u_rsp r - 7 in
  u_rip r1 = handler /\ u_rdi r1 = sig /\ load64 m1 (u_rsp r1) = tramp /\
  (forall i b, g_sigreturn_tramp !! i = Some b -> m1 (tramp + Z.of_nat i) = b) /\
  (forall x, u_rsp r <= x -> m1 x = m x) /\
  forall r2 m2, u_rsp r2 = u_rsp r1 + 8 ->
    (forall x, u_rsp r2 <= x < u_rsp r2 + SIG_FRAME_SIZE -> m2 x = m1 x) ->
    signal_do_sigreturn r2 m2 =
    Regs (u_r15 r) (u_r14 r) (u_r13 r) (u_r12 r) (u_r11 r) (u_r10 r) (u_r9 r) (u_r8 r)
      (u_rbp r) (u_rdi r) (u_rsi r) (u_rdx r) (u_rcx r) (u_rbx r) (u_rax r)
      (u_int_no r2) (u_err_code r2) (u_rip r) (u_cs r2) (u_rflags r) (u_rsp r) (u_ss r2).
Proof.
  intros Hr Hsp Hsig. assert (u_rsp r < 2 ^ 64) as Hsp'.
  { apply (Forall_lookup_1 _ _ 17%nat (u_rsp r) Hr). done. }
  unfold signal_setup_frame, SIGTRAMP_SIZE, SIG_FRAME_SIZE.
  rewrite (u64_small (u_rsp r - 7)) by lia.
  change 0xF with (2 ^ 4 - 1). rewrite ldiff_ones_div by lia.
  set (fa := (u_rsp r - 7) / 2 ^ 4 * 2 ^ 4). assert (u_rsp r - 22 <= fa <= u_rsp r - 7) as Hfa.
  { unfold fa. pose proof (Z.div_mod (u_rsp r - 7) (2 ^ 4)). pose proof (Z.mod_pos_bound (u_rsp r - 7) (2 ^ 4)).
    lia. }
  rewrite (u64_small (fa - 152)), (u64_small (fa - 152 - 8)) by lia.
  set (m0 := store_bytes m (u_rsp r - 7) g_sigreturn_tramp).
  set (m1 := store_words m0 (fa - 152) (sig_frame r sig)).
  assert (forall x, fa <= x -> store64 m1 (fa - 152 - 8) (u_rsp r - 7) x = m0 x) as Habove.
  { intros x Hx. rewrite store64_outside by lia. apply store_words_outside. simpl. lia. }
  simpl u_rip. simpl u_rdi. simpl u_rsp. split_and!.
  - done.
  - apply u64_small. lia.
  - apply load_store_le. change (256 ^ Z.of_nat 8) with (2 ^ 64). lia.
  - intros i b Hb. rewrite Habove by lia. unfold m0. rewrite store_bytes_spec.
    replace (Z.to_nat (u_rsp r - 7 + Z.of_nat i - (u_rsp r - 7))) with i by lia.
    rewrite Hb, (proj2 (Z.leb_le _ _)) by lia. apply u8_small.
    repeat (destruct i as [|i]; [injection Hb as <-; lia|]). by rewrite lookup_nil in Hb || done.
  - intros x Hx. rewrite Habove by lia. unfold m0. rewrite store_bytes_spec, lookup_ge_None_2; [done|].
    simpl. lia.
  - intros r2 m2 Hr2 Hm2. unfold signal_do_sigreturn. rewrite Hr2 in *.
    replace (fa - 152 - 8 + 8) with (fa - 152) in * by lia.
    assert (load_words 18 m2 (fa - 152) = take 18 (sig_frame r sig)) as ->; [|done].
    assert (load_words 19 m2 (fa - 152) = sig_frame r sig) as H19.
    { rewrite (load_words_ext 19 m1).
      - apply (load_store_words (sig_frame r sig)). unfold sig_frame, regs_ok in *.
        repeat (apply Forall_cons in Hr as [? Hr]). repeat (apply Forall_cons; split; [done|]).
        apply Forall_cons. split; [apply u64_range|constructor].
      - intros x Hx. rewrite Hm2 by lia. apply store64_outside. lia. }
    by rewrite <- H19.
Qed.

(** The handler starts with a stack pointer divisible by 16, where a function
    called by the System V convention starts at 8 modulo 16. *)
Lemma handler_stack_alignment r handler sig m :
  176 <= u_rsp r < 2 ^ 64 -> (16 | u_rsp (signal_setup_frame r handler sig m).1).
Proof.
  intros Hsp. unfold signal_setup_frame, SIGTRAMP_SIZE, SIG_FRAME_SIZE.
  rewrite (u64_small (u_rsp r - 7)) by lia. change 0xF with (2 ^ 4 - 1). rewrite ldiff_ones_div by lia.
  simpl u_rsp. pose proof (Z.div_mod (u_rsp r - 7) (2 ^ 4)). pose proof (Z.mod_pos_bound (u_rsp r - 7) (2 ^ 4)).
  rewrite (u64_small (_ - 152)), u64_small by lia. exists ((u_rsp r - 7) / 2 ^ 4 - 10). lia.
Qed.

(** ** Sets of signals *)

Lemma sigismember_testbit set sig : 1 <= sig -> sigismember set sig = Z.testbit set (sig - 1).
Proof.
  intros Hs. unfold sigismember. rewrite Z.shiftl_1_l. apply land_pow2_testbit. lia.
Qed.

Lemma sigaddset_testbit set sig k :
  1 <= sig -> 0 <= k -> Z.testbit (sigaddset set sig) k = Z.testbit set k || (k =? sig - 1).
Proof.
  intros Hs Hk. unfold sigaddset. rewrite Z.shiftl_1_l, Z.lor_spec, Z.pow2_bits_eqb by lia.
  f_equal. apply Z.eqb_sym.
Qed.

Lemma sigdelset_testbit set sig k :
  1 <= sig -> 0 <= k -> Z.testbit (sigdelset set sig) k = Z.testbit set k && negb (k =? sig - 1).
Proof.
  intros Hs Hk. unfold sigdelset. rewrite Z.shiftl_1_l, Z.ldiff_spec, Z.pow2_bits_eqb by lia.
  do 2 f_equal. apply Z.eqb_sym.
Qed.

(** ** SIGKILL and SIGSTOP *)

(** They are never blocked, caught or ignored. *)
Record unblockable (ss : signal_state) : Prop := {
  ub_kill : Z.testbit (blocked ss) 8 = false;
  ub_stop : Z.testbit (blocked ss) 18 = false;
  ub_kill_dfl : sa_handler (actions ss 8) = SIG_DFL;
  ub_stop_dfl : sa_handler (actions ss 18) = SIG_DFL
}.

Section kill.
Context {A : Type} `{FrameAlloc A}.
Implicit Types (s : kstate A) (p q sig : Z).

Definition sigs_kept s s' : Prop := forall q, sigstate (proc s' q) = sigstate (proc s q).

Lemma sigs_trans s1 s2 s3 : sigs_kept s1 s2 -> sigs_kept s2 s3 -> sigs_kept s1 s3.
Proof. intros H1 H2 q. by rewrite H2, H1. Qed.

Lemma sigs_mod p (f : process -> process) s :
  (forall x, sigstate (f x) = sigstate x) -> sigs_kept s (mod_proc p f s).
Proof. intros Hf q. rewrite proc_mod. destruct (Z.eqb_spec q p) as [->|]; auto. Qed.

Lemma sigs_mod_after p (f : process -> process) s0 s :
  (forall x, sigstate (f x) = sigstate x) -> sigs_kept s0 s -> sigs_kept s0 (mod_proc p f s).
Proof. intros Hf Hs. eapply sigs_trans; [done|by apply sigs_mod]. Qed.

Lemma sigs_current c s0 s : sigs_kept s0 s -> sigs_kept s0 (set_current c s).
Proof. done. Qed.

Lemma sigs_enqueue p s0 s : sigs_kept s0 s -> sigs_kept s0 (ready_enqueue p s).
Proof. intros Hs. unfold ready_enqueue. case_if; [done|]. by apply sigs_mod_after. Qed.

Lemma sigs_reschedule c s s' : reschedule c s = Some s' -> sigs_kept s s'.
Proof.
  unfold reschedule. set (s1 := if state_is _ _ then _ else s).
  assert (sigs_kept s s1) as H1.
  { unfold s1. case_if; [|done]. apply sigs_enqueue. by apply sigs_mod. }
  clearbody s1. destruct (ready_dequeue s1) as [next s2] eqn:Hd.
  assert (sigs_kept s s2) as H2.
  { unfold ready_dequeue in Hd. by case_if; injection Hd as <- <-. }
  destruct (match next with None => _ | Some _ => _ end) as [n|]; [|done]. intros [= <-].
  assert (sigs_kept s (dispatch n s2)) as H3.
  { unfold dispatch. intros q. change (proc (tss_set_kernel_stack ?x ?t) q) with (proc t q). revert q.
    do 2 (apply sigs_mod_after; [done|]). done. }
  intros q. unfold context_switch. change (proc (set_cpu ?x ?t) q) with (proc t q). revert q.
  apply sigs_mod_after; [done|]. by case_if.
Qed.

Lemma sigs_yield s s' : scheduler_yield s = Some s' -> sigs_kept s s'.
Proof.
  unfold scheduler_yield. destruct (current_process s); [apply sigs_reschedule|by intros [= <-]].
Qed.

Lemma sigs_links s s' : (forall q, not_links (proc s q) (proc s' q)) -> sigs_kept s s'.
Proof. intros Hl q. by destruct (Hl q) as (a & b & ->). Qed.

Lemma sigs_exit p code s s' : process_exit (Some p) code s = Some s' -> sigs_kept s s'.
Proof.
  intros He. destruct (decide (state (proc s p) = PROC_STATE_DEAD)) as [Hd|Hd].
  { unfold process_exit, state_is in He. rewrite bool_decide_true in He by done. by injection He as <-. }
  destruct (exit_frame p code s Hd) as (t & (Ft & _ & _ & _ & Ht & _) & Hx). rewrite Hx in He. clear Hx.
  cbv zeta in He.
  assert (sigs_kept s t) as H1.
  { intros q. destruct (decide (q = p)) as [->|Hne]; [done|]. by rewrite (sf_other _ _ _ Ft). }
  assert (sigs_kept s (process_list_remove p t)) as H2
    by (eapply sigs_trans; [exact H1|]; apply sigs_links, list_remove_links).
  set (w := process_list_remove p t) in *. clearbody w.
  assert (sigs_kept s (mod_proc p (set_state PROC_STATE_UNUSED) w)) as H3 by by apply sigs_mod_after.
  case_if; [|by injection He as <-]. apply sigs_yield in He.
  exact (sigs_trans _ _ _ (sigs_current None _ _ H3) He).
Qed.

Definition all_unblockable s : Prop := forall q, unblockable (sigstate (proc s q)).

Lemma kept_unblockable s s' : all_unblockable s -> sigs_kept s s' -> all_unblockable s'.
Proof. intros Hs Hk q. by rewrite Hk. Qed.

Lemma mod_sig_unblockable p f s :
  all_unblockable s -> unblockable (f (sigstate (proc s p))) -> all_unblockable (mod_sig p f s).
Proof.
  intros Hs Hf q. unfold mod_sig. rewrite proc_mod. destruct (Z.eqb_spec q p) as [->|]; [done|apply Hs].
Qed.

Lemma proc_mod_sig p f s : sigstate (proc (mod_sig p f s) p) = f (sigstate (proc s p)).
Proof. unfold mod_sig. by rewrite proc_mod_eq. Qed.

Lemma set_pending_unblockable ss v : unblockable ss -> unblockable (set_pending v ss).
Proof. by intros []. Qed.

Lemma block_unblockable ss sig :
  unblockable ss -> 1 <= sig -> sig <> SIGKILL -> sig <> SIGSTOP ->
  unblockable (set_blocked (sigaddset (blocked ss) sig) ss).
Proof.
  intros [H1 H2 H3 H4] Hs Hk Hst. unfold SIGKILL, SIGSTOP in *.
  split; cbn [set_blocked blocked actions]; [| |done|done]; rewrite sigaddset_testbit by lia.
  - rewrite H1. apply Z.eqb_neq. lia.
  - rewrite H2. apply Z.eqb_neq. lia.
Qed.

Lemma action_unblockable ss sig a :
  unblockable ss -> sig <> SIGKILL -> sig <> SIGSTOP -> unblockable (set_action (sig - 1) a ss).
Proof.
  intros [H1 H2 H3 H4] Hk Hst. unfold SIGKILL, SIGSTOP in *.
  split; simpl; try done; rewrite upd_ne by lia; done.
Qed.

Lemma exit_by_signal_unblockable p sig s s' :
  all_unblockable s -> exit_by_signal p sig s = Some s' -> all_unblockable s'.
Proof.
  intros Hs. unfold exit_by_signal. destruct (process_exit _ _ s) as [t|] eqn:E; [|done].
  intros Hy. apply (kept_unblockable t); [|by apply sigs_yield]. eapply kept_unblockable; [done|].
  by eapply sigs_exit.
Qed.

Lemma stop_unblockable p s s' : all_unblockable s -> stop_process p s = Some s' -> all_unblockable s'.
Proof.
  intros Hs Hy. unfold stop_process in Hy. apply sigs_yield in Hy.
  apply (kept_unblockable s); [done|]. eapply sigs_trans; [|exact Hy]. by apply sigs_mod.
Qed.

Lemma default_unblockable p sig s s' :
  all_unblockable s -> signal_default_action p sig s = Some s' -> all_unblockable s'.
Proof.
  intros Hs. unfold signal_default_action. case_if; [by apply stop_unblockable|].
  case_if; [by intros [= <-]|]. by apply exit_by_signal_unblockable.
Qed.

(** The state a delivery ends or pauses in. *)
Definition delivery_ok (P : kstate A -> Prop) (d : delivery) : Prop :=
  match d with DReturn s _ _ => P s | DYielded s _ => P s | DFault => True end.

Lemma default_return_unblockable p sig s r m :
  all_unblockable s -> delivery_ok all_unblockable (default_then_return p sig s r m).
Proof.
  intros Hs. unfold default_then_return. destruct (signal_default_action p sig s) eqn:E; [|done].
  by eapply default_unblockable.
Qed.

Lemma deliver_unblockable n p sig d s r m :
  all_unblockable s -> 1 <= sig -> delivery_ok all_unblockable (deliver_loop n p sig d s r m).
Proof.
  revert sig s. induction n as [|n IH]; intros sig s Hs Hsig; [done|]. cbn [deliver_loop].
  case_if; [apply IH; [done|lia]|]. cbv zeta.
  set (s1 := mod_sig p (fun ss => set_pending (sigdelset (pending ss) sig) ss) s).
  assert (all_unblockable s1) as H1.
  { apply mod_sig_unblockable; [done|]. apply set_pending_unblockable, Hs. }
  clearbody s1. case_if; [apply IH; [done|lia]|].
  case_if; [destruct (exit_by_signal p sig s1) eqn:E; [|done]; by eapply exit_by_signal_unblockable|].
  case_if; [destruct (stop_process p s1) eqn:E; [|done]; by eapply stop_unblockable|].
  case_if.
  { apply IH; [|lia]. case_if; [|done]. apply (kept_unblockable s1); [done|].
    simpl. apply sigs_enqueue. by apply sigs_mod. }
  case_if; [by apply default_return_unblockable|].
  destruct r as [regs|]; [|by apply default_return_unblockable].
  case_if; [|by apply default_return_unblockable]. bools.
  set (s2 := if _ =? 0 then mod_sig p _ s1 else s1).
  assert (all_unblockable s2) as H2.
  { unfold s2. case_if; [|done]. apply mod_sig_unblockable; [done|]. by apply block_unblockable. }
  clearbody s2. set (s3 := if _ =? 0 then s2 else _).
  assert (all_unblockable s3) as H3.
  { unfold s3. case_if; [done|]. apply mod_sig_unblockable; [done|]. by apply action_unblockable. }
  by destruct (signal_setup_frame regs _ sig m).
Qed.

Lemma send_unblockable (t : option Z) sig s : all_unblockable s -> all_unblockable (signal_send_proc t sig s).2.
Proof.
  intros Hs. unfold signal_send_proc. destruct t as [p|]; [|done]. case_if; [done|].
  assert (all_unblockable (mod_sig p (add_pending sig) s)) as H1.
  { apply mod_sig_unblockable; [done|]. apply set_pending_unblockable, Hs. }
  case_if; [done|]. case_if; [|done]. simpl. case_if; [done|].
  apply (kept_unblockable (mod_sig p (add_pending sig) s)); [done|]. by apply sigs_enqueue.
Qed.

Lemma sigaction_unblockable sig act s :
  all_unblockable s -> all_unblockable (signal_do_sigaction sig act s).2.
Proof.
  intros Hs. unfold signal_do_sigaction. case_if; [done|]. case_if; [done|]. bools.
  destruct (current_process s) as [p|]; [|done]. destruct act as [a|]; [|done].
  apply mod_sig_unblockable; [done|]. by apply action_unblockable.
Qed.

Lemma sigprocmask_unblockable how set s :
  all_unblockable s -> all_unblockable (signal_do_sigprocmask how set s).2.
Proof.
  intros Hs. unfold signal_do_sigprocmask. destruct (current_process s) as [p|]; [|done].
  destruct set as [mask|]; [|done]. destruct (Hs p) as [H1 H2 H3 H4].
  assert (forall b, Z.testbit b 8 = false -> Z.testbit b 18 = false ->
            all_unblockable (mod_sig p (set_blocked b) s)) as Hb.
  { intros b B1 B2. apply mod_sig_unblockable; [done|]. by split. }
  assert (forall k, k = 8 \/ k = 18 -> Z.testbit (sigdelset (sigdelset mask SIGKILL) SIGSTOP) k = false) as Hm.
  { unfold SIGKILL, SIGSTOP. intros k [->| ->]; rewrite !sigdelset_testbit by lia; simpl;
      by rewrite ?andb_false_r. }
  repeat case_if; try done; apply Hb; rewrite ?Z.lor_spec, ?Z.ldiff_spec, ?Hm, ?H1, ?H2 by auto; done.
Qed.

(** *** New processes *)

Lemma alloc_unblockable s p s' :
  all_unblockable s -> alloc_process_slot s = Some (p, s') -> all_unblockable s'.
Proof.
  intros Hs. unfold alloc_process_slot. destruct (find_unused _ 0 s) as [i|]; [|done]. intros [= <- <-] q.
  rewrite proc_mod. destruct (q =? i); [by split|apply Hs].
Qed.

Lemma mod_unblockable p (f : process -> process) s :
  all_unblockable s -> unblockable (sigstate (f (proc s p))) -> all_unblockable (mod_proc p f s).
Proof. intros Hs Hf q. rewrite proc_mod. destruct (Z.eqb_spec q p) as [->|]; [done|apply Hs]. Qed.

Lemma sigs_stack te p e s : sigs_kept s (setup_kernel_stack te p e s).2.
Proof.
  unfold setup_kernel_stack. destruct (alloc_frames _ _) as [a f]. case_if; [done|]. cbn [snd].
  intros q. change (proc (set_vmem ?m ?t) q) with (proc t q). revert q. do 2 (apply sigs_mod_after; [done|]). done.
Qed.

Lemma sigs_list_add p s0 s : sigs_kept s0 s -> sigs_kept s0 (process_list_add p s).
Proof. intros Hs. eapply sigs_trans; [exact Hs|]. apply sigs_links, list_add_links. Qed.

Lemma create_unblockable te nm e k now s :
  all_unblockable s -> all_unblockable (process_create te nm e k now s).2.
Proof.
  intros Hs. unfold process_create. destruct (alloc_process_slot s) as [[p s1]|] eqn:Ea; [|done].
  pose proof (alloc_unblockable s p s1 Hs Ea) as H1. cbv zeta. set (s2 := mod_proc p (new_process _ _ _ _) _).
  assert (all_unblockable s2) as H2 by (apply mod_unblockable; [exact H1|by split]). clearbody s2. clear s Hs s1 Ea H1.
  destruct (if k then _ else _) as [space s3] eqn:E3. assert (sigs_kept s2 s3) as K3.
  { destruct k; [by injection E3 as _ <-|]. destruct (vmm_create_address_space _). by injection E3 as _ <-. }
  set (s4 := mod_proc p (set_address_space space) s3). assert (sigs_kept s2 s4) as K4 by by apply sigs_mod_after.
  clearbody s4. case_if; [eapply kept_unblockable; [exact H2|by apply sigs_mod_after]|].
  pose proof (sigs_stack te p e s4) as K5. destruct (setup_kernel_stack te p e s4) as [rsp s5]. cbn [snd] in K5.
  pose proof (sigs_trans _ _ _ K4 K5) as K6. eapply kept_unblockable; [exact H2|]. case_if; cbn [snd].
  - apply sigs_mod_after; [done|]. by case_if.
  - apply sigs_list_add. by apply sigs_mod_after.
Qed.

Lemma same_unblockable p (f : process -> process) s :
  (forall x, sigstate (f x) = sigstate x) -> all_unblockable s -> all_unblockable (mod_proc p f s).
Proof. intros Hf Hs. apply mod_unblockable; [done|]. rewrite Hf. apply Hs. Qed.

Lemma list_add_unblockable p s : all_unblockable s -> all_unblockable (process_list_add p s).
Proof. intros Hs. apply (kept_unblockable s); [done|]. by apply sigs_list_add. Qed.

Lemma vmem_unblockable m s : all_unblockable s -> all_unblockable (set_vmem m s).
Proof. done. Qed.

Lemma fork_unblockable parent s : all_unblockable s -> all_unblockable (process_fork parent s).2.
Proof.
  intros Hs. unfold process_fork. destruct (alloc_process_slot s) as [[c s1]|] eqn:Ea; [|done].
  pose proof (alloc_unblockable s c s1 Hs Ea) as H1. clear Ea. cbv zeta.
  set (s3 := mod_proc c (set_time_slice SCHED_DEFAULT_QUANTUM) _).
  assert (all_unblockable s3) as H3.
  { unfold s3. do 6 (apply same_unblockable; [done|]). apply mod_unblockable; [exact H1|apply H1]. }
  clearbody s3. destruct (vmm_clone_address_space _ _) as [space m].
  set (s4 := mod_proc c (set_address_space space) (set_vmem m s3)).
  assert (all_unblockable s4) as H4 by (unfold s4; apply same_unblockable; [done|]; by apply vmem_unblockable).
  clearbody s4. destruct (space =? 0); [by apply same_unblockable|].
  destruct (alloc_frames _ _) as [a f]. destruct (a =? 0); cbn [snd].
  - apply same_unblockable; [done|]. by do 2 apply vmem_unblockable.
  - apply list_add_unblockable. do 2 (apply same_unblockable; [done|]). by apply vmem_unblockable.
Qed.

(** Signal calls in any order, deliveries that pause and go on included,
    processes that are created and forked, and anything else that leaves signal
    states alone, as scheduling and exits do. *)
Inductive sig_step (te : Z) : kstate A -> kstate A -> Prop :=
| ss_send s (t : option Z) sig : sig_step te s (signal_send_proc t sig s).2
| ss_deliver s n p sig d r m s' : 1 <= sig ->
    (exists r' m', deliver_loop n p sig d s r m = DReturn s' r' m') \/
    (exists k, deliver_loop n p sig d s r m = DYielded s' k) -> sig_step te s s'
| ss_action s sig act : sig_step te s (signal_do_sigaction sig act s).2
| ss_mask s how set : sig_step te s (signal_do_sigprocmask how set s).2
| ss_create s nm e k now : sig_step te s (process_create te nm e k now s).2
| ss_fork s parent : sig_step te s (process_fork parent s).2
| ss_other s s' : sigs_kept s s' -> sig_step te s s'.

Lemma sig_step_unblockable te s s' : all_unblockable s -> sig_step te s s' -> all_unblockable s'.
Proof.
  intros Hs Hst. destruct Hst as [s p sig|s n p sig d r m s' Hsig Hd|s sig act|s how set|s nm e k now|s parent|s s' Hk].
  - by apply send_unblockable.
  - pose proof (deliver_unblockable n p sig d s r m Hs Hsig) as Hx.
    destruct Hd as [(r' & m' & E)|(k & E)]; by rewrite E in Hx.
  - by apply sigaction_unblockable.
  - by apply sigprocmask_unblockable.
  - by apply create_unblockable.
  - by apply fork_unblockable.
  - by eapply kept_unblockable.
Qed.

(** Signals that are not deliverable are skipped. *)
Lemma deliver_skip j n p sig d s r m :
  (forall k, sig <= k < sig + Z.of_nat j -> sigismember d k = false) ->
  deliver_loop (j + n) p sig d s r m = deliver_loop n p (sig + Z.of_nat j) d s r m.
Proof.
  revert sig. induction j as [|j IH]; intros sig Hd; [by rewrite Z.add_0_r|].
  cbn [Nat.add deliver_loop]. rewrite Hd by lia. cbn [negb]. rewrite IH by (intros k Hk; apply Hd; lia).
  f_equal. lia.
Qed.

Lemma deliver_kill n p d s r m :
  sigismember d SIGKILL = true -> sa_handler (actions (sigstate (proc s p)) 8) = SIG_DFL ->
  deliver_loop (S n) p SIGKILL d s r m =
  match exit_by_signal p SIGKILL
          (mod_sig p (fun x => set_pending (sigdelset (pending x) SIGKILL) x) s) with
  | Some t => DReturn t r m
  | None => DFault
  end.
Proof.
  intros Hd Ha. cbn [deliver_loop]. rewrite Hd. cbn [negb]. cbv zeta. rewrite proc_mod_sig.
  change (SIGKILL - 1) with 8. cbn [set_pending actions]. by rewrite Ha.
Qed.

(** Signal state does not matter to the process subsystem. *)
Lemma mod_sig_inv p f s rq l : kernel_inv s rq l -> kernel_inv (mod_sig p f s) rq l.
Proof.
  intros Hk. apply (kept_inv s _ rq rq l Hk).
  - apply (sched_inv_ext s); [apply (ki_sched _ _ _ Hk)|]. unfold same_sched, mod_sig. split_and!; try done.
    intros q. rewrite proc_mod. by destruct (Z.eqb_spec q p) as [->|].
  - unfold mod_sig. apply kept_mod; [done|by left].
  - apply (ki_current _ _ _ Hk).
Qed.

(** The running process is ended. *)
Lemma exit_by_signal_running p sig s rq l :
  kernel_inv s rq l -> state (proc s p) = PROC_STATE_RUNNING -> valid_slot p -> idle_proc s <> Some p ->
  exists t, exit_by_signal p sig s = Some t /\ kernel_inv t rq (filter (fun q => q <> p) l) /\
    current_process t = None /\ exit_code (proc t p) = - sig.
Proof.
  intros Hk Hst Hv Hi. pose proof (si_running _ _ (ki_sched _ _ _ Hk) p Hv Hst) as Hc.
  assert (p ∉ rq) as Hp. { intros Hp. apply (si_ready _ _ (ki_sched _ _ _ Hk) p Hv) in Hp. congruence. }
  destruct (exit_returns p (- sig) s ltac:(congruence) Hc) as [t E].
  destruct (exit_inv p (- sig) s rq l t Hk (ki_current _ _ _ Hk p Hc) Hp Hi E) as (Hk' & Hcur & _ & Hx).
  exists t. unfold exit_by_signal, scheduler_yield. rewrite E. destruct (Hcur Hc) as [-> _]. done.
Qed.


(** ** Handled signals *)

(** A signal given to a handler is blocked while the handler runs, and nothing
    unblocks it: [signal_do_sigreturn] restores registers only.  The same
    signal sent again stays pending. *)
Lemma handled_signal_stays_blocked n p sig d s regs m :
  1 <= sig < 32 -> sig <> SIGKILL -> sig <> SIGSTOP -> sig <> SIGCONT ->
  sigismember d sig = true ->
  let act := actions (sigstate (proc s p)) (sig - 1) in
  sa_handler act <> SIG_IGN -> sa_handler act <> SIG_DFL -> sa_flags act .& SA_NODEFER = 0 ->
  u_cs regs .& 3 = 3 ->
  exists s' r' m', deliver_loop (S n) p sig d s (Some regs) m = DReturn s' (Some r') m' /\
    sigismember (blocked (sigstate (proc s' p))) sig = true /\
    sigismember (deliverable_set (sigstate (proc (signal_send_proc (Some p) sig s').2 p))) sig = false.
Proof.
  intros Hs Hk Hst Hc Hd act Hi Hf Hn Hcs. cbn [deliver_loop]. rewrite Hd. cbn [negb]. cbv zeta.
  rewrite proc_mod_sig. cbn [set_pending actions]. fold act.
  rewrite (proj2 (Z.eqb_neq _ _) Hi), (proj2 (Z.eqb_neq _ _) Hk), (proj2 (Z.eqb_neq _ _) Hst),
    (proj2 (Z.eqb_neq _ _) Hc), (proj2 (Z.eqb_neq _ _) Hf), Hn, Hcs. cbn [Z.eqb].
  set (s2 := mod_sig p (fun ss => set_blocked _ ss) _).
  assert (Z.testbit (blocked (sigstate (proc s2 p))) (sig - 1) = true) as H2.
  { unfold s2. rewrite proc_mod_sig. cbn [set_blocked blocked].
    rewrite sigaddset_testbit, Z.eqb_refl by lia. apply orb_true_r. }
  clearbody s2. set (s3 := if _ =? 0 then s2 else _).
  assert (Z.testbit (blocked (sigstate (proc s3 p))) (sig - 1) = true) as H3.
  { unfold s3. case_if; [done|]. by rewrite proc_mod_sig. }
  clearbody s3. destruct (signal_setup_frame regs _ sig m) as [r' m']. exists s3, r', m'.
  split; [done|]. rewrite !sigismember_testbit by lia. split; [done|].
  unfold signal_send_proc, sig_valid, NSIG.
  rewrite (proj2 (Z.leb_le 1 sig)), (proj2 (Z.ltb_lt sig 32)), (proj2 (Z.eqb_neq _ _) Hk),
    (proj2 (Z.eqb_neq _ _) Hst) by lia. cbn [negb andb].
  rewrite sigismember_testbit, H3 by lia. cbn [snd]. rewrite proc_mod_sig.
  unfold deliverable_set, add_pending. cbn [set_pending pending blocked].
  by rewrite Z.ldiff_spec, H3, andb_false_r.
Qed.

(** A stopped process is in the state WAITING, and any signal it does not
    block makes it READY again, not only SIGCONT. *)
Lemma stop_ended_by_any_signal p sig s :
  1 <= sig < 32 -> sigismember (blocked (sigstate (proc s p))) sig = false ->
  state (proc s p) = PROC_STATE_WAITING -> (ready_count s < 256)%nat ->
  state (proc (signal_send_proc (Some p) sig s).2 p) = PROC_STATE_READY.
Proof.
  intros Hs Hb Hst Hc. unfold signal_send_proc, sig_valid, NSIG.
  rewrite (proj2 (Z.leb_le 1 sig)), (proj2 (Z.ltb_lt sig 32)), Hb, andb_false_r by lia. cbn [negb andb].
  set (s1 := mod_sig p (add_pending sig) s).
  assert (state (proc s1 p) = PROC_STATE_WAITING) as H1.
  { unfold s1, mod_sig. by rewrite proc_mod_eq. }
  rewrite H1. change (state_is PROC_STATE_WAITING PROC_STATE_WAITING) with true. rewrite orb_true_r.
  cbn [snd]. unfold process_wake, scheduler_unblock. rewrite H1.
  change (state_is PROC_STATE_WAITING PROC_STATE_READY || state_is PROC_STATE_WAITING PROC_STATE_RUNNING)
    with false. cbn [orb].
  unfold ready_enqueue. rewrite (proj2 (Nat.leb_gt _ _)) by exact Hc. by rewrite proc_mod_eq.
Qed.
End kill.

(** ** Witnesses *)

Definition demo_regs : cpu_registers :=
  Regs 15 14 13 12 11 10 9 8 7 6 5 4 3 2 1 0x80 0 0x401000 0x23 0x202 0x7FFFFFFF0000 0x1B.

Lemma sigreturn_roundtrip_witness :
  let '(r1, m1) := signal_setup_frame demo_regs 0x402000 10 (fun _ => 0) in
  u_rip r1 = 0x402000 /\ load64 m1 (u_rsp r1) = u_rsp demo_regs - 7.
Proof.
  assert (regs_ok demo_regs) as Hr by (repeat constructor; vm_compute; discriminate).
  pose proof (sigreturn_roundtrip demo_regs 0x402000 10 (fun _ => 0) Hr
    ltac:(vm_compute; discriminate) ltac:(lia)) as Hx.
  destruct (signal_setup_frame demo_regs 0x402000 10 (fun _ => 0)) as [r1 m1].
  destruct Hx as (H1 & _ & H2 & _). split; [exact H1|exact H2].
Defined.

Lemma demo_running_unblockable : all_unblockable demo_running.
Proof. intros q. unfold proc. simpl. repeat case_if; by split. Qed.

(** The running process tries to block every signal and to handle SIGKILL, and
    is then sent SIGKILL. *)
Definition demo_killed : kstate pmm :=
  (signal_send_proc (Some 1) SIGKILL
     (signal_do_sigaction SIGKILL (Some (SigAction 0x402000 0 0))
        (signal_do_sigprocmask SIG_BLOCK (Some (2 ^ 31 - 1)) demo_running).2).2).2.

