(* ===== verification/Tty.v ===== *)
(** * Terminals, [kernel/tty.c]

    Ring buffers, the line discipline, reading and writing, and
    pseudo-terminals.  A ring of 4096 slots holds at most 4095 bytes: it is
    empty when its two indices agree.  Control characters send signals to the
    foreground process ([Signal.v]), so the operations thread the state of the
    process subsystem. *)

From S2P Require Import Prelude Ring CString FrameAlloc Pmm Vmm Pcb Scheduler Process ProcInv Signal.

Definition TTY_MAX : nat := 8.
Definition PTY_MAX : nat := 32.
Definition TTY_BUF_SIZE : nat := Z.to_nat 4096.

Definition TTY_ECHO : Z := 2 ^ 0.
Definition TTY_ICANON : Z := 2 ^ 1.
Definition TTY_ISIG : Z := 2 ^ 2.
Definition TTY_ONLCR : Z := 2 ^ 3.
Definition TTY_ICRNL : Z := 2 ^ 4.

Definition SIGQUIT : Z := 3.
Definition ENOMEM : Z := 12.

Definition CR : Z := 13.
Definition LF : Z := 10.
Definition BS : Z := 8.
Definition SPACE : Z := 32.

(** ** Rings *)

Record tty_ring := TtyRing { rbuf : list Z; rhead : nat; rtail : nat }.

Definition ring_zero : tty_ring := TtyRing (replicate TTY_BUF_SIZE 0) 0 0.

Definition tty_ring_empty (r : tty_ring) : bool := (rhead r =? rtail r)%nat.
Definition tty_ring_full (r : tty_ring) : bool := ((rtail r + 1) mod TTY_BUF_SIZE =? rhead r)%nat.

Definition tty_ring_push (r : tty_ring) (c : Z) : tty_ring :=
  if tty_ring_full r then r
  else TtyRing (<[rtail r := c]> (rbuf r)) (rhead r) ((rtail r + 1) mod TTY_BUF_SIZE)%nat.

(** -1 when the ring is empty. *)
Definition tty_ring_pop (r : tty_ring) : Z * tty_ring :=
  if tty_ring_empty r then (-1, r)
  else (default 0 (rbuf r !! rhead r), TtyRing (rbuf r) ((rhead r + 1) mod TTY_BUF_SIZE)%nat (rtail r)).

(** ** Terminals *)

Record tty_cc := TtyCc { c_intr : Z; c_quit : Z; c_erase : Z; c_kill : Z; c_eof : Z; c_susp : Z }.

Record tty := Tty {
  t_index : Z;
  t_valid : bool;
  t_flags : Z;
  t_cc : tty_cc;
  t_input : tty_ring;
  t_canon : tty_ring;
  t_output : tty_ring;
  t_fg_pgid : Z;
  t_pty : option nat
}.

Definition with_input (r : tty_ring) (t : tty) : tty :=
  Tty (t_index t) (t_valid t) (t_flags t) (t_cc t) r (t_canon t) (t_output t) (t_fg_pgid t) (t_pty t).
Definition with_canon (r : tty_ring) (t : tty) : tty :=
  Tty (t_index t) (t_valid t) (t_flags t) (t_cc t) (t_input t) r (t_output t) (t_fg_pgid t) (t_pty t).
Definition with_output (r : tty_ring) (t : tty) : tty :=
  Tty (t_index t) (t_valid t) (t_flags t) (t_cc t) (t_input t) (t_canon t) r (t_fg_pgid t) (t_pty t).

Definition flag (t : tty) (f : Z) : bool := negb (t_flags t .& f =? 0).

Definition push_input (c : Z) (t : tty) : tty := with_input (tty_ring_push (t_input t) c) t.
Definition push_canon (c : Z) (t : tty) : tty := with_canon (tty_ring_push (t_canon t) c) t.
Definition push_output (c : Z) (t : tty) : tty := with_output (tty_ring_push (t_output t) c) t.

Definition tty_default (i : Z) : tty :=
  Tty i true (TTY_ECHO .| TTY_ICANON .| TTY_ISIG .| TTY_ONLCR .| TTY_ICRNL)
    (TtyCc 0x03 0x1C 0x7F 0x15 0x04 0x1A) ring_zero ring_zero ring_zero 1 None.

(** [while (canon.head != canon.tail)]: the finished line moves to the input
    ring; the fuel is the size of the ring. *)
Fixpoint flush_canon (n : nat) (t : tty) : tty :=
  match n with
  | O => t
  | S n =>
      if tty_ring_empty (t_canon t) then t
      else
        let '(ch, r) := tty_ring_pop (t_canon t) in
        let t := with_canon r t in
        flush_canon n (if 0 <=? ch then push_input (u8 ch) t else t)
  end.

(** Line editing: the part of [tty_input_char] after the signal characters. *)
Definition tty_edit (t : tty) (c : Z) : tty :=
  if negb (flag t TTY_ICANON) then
    let t := push_input c t in
    if flag t TTY_ECHO then push_output c t else t
  else if c =? c_erase (t_cc t) then
    if (rtail (t_canon t) =? rhead (t_canon t))%nat then t
    else
      let r := t_canon t in
      let t := with_canon (TtyRing (rbuf r) (rhead r)
                 (if (rtail r =? 0)%nat then TTY_BUF_SIZE - 1 else rtail r - 1)%nat) t in
      if flag t TTY_ECHO then push_output BS (push_output SPACE (push_output BS t)) else t
  else if c =? c_kill (t_cc t) then
    let t := with_canon (TtyRing (rbuf (t_canon t)) 0 0) t in
    if flag t TTY_ECHO then push_output LF (push_output CR t) else t
  else if c =? c_eof (t_cc t) then push_input 0xFF t
  else
    let t := push_canon c t in
    let t := if flag t TTY_ECHO then
               let t := if flag t TTY_ONLCR && (c =? LF) then push_output CR t else t in
               push_output c t
             else t in
    if c =? LF then flush_canon TTY_BUF_SIZE t else t.

(** [if ((flags & TTY_ICRNL) && c == '\r') c = '\n';] *)
Definition translate (t : tty) (c : Z) : Z := if flag t TTY_ICRNL && (c =? CR) then LF else c.

(** The signal a control character asks for. *)
Definition control_signal (t : tty) (c : Z) : option Z :=
  if flag t TTY_ISIG then
    if c =? c_intr (t_cc t) then Some SIGINT
    else if c =? c_quit (t_cc t) then Some SIGQUIT
    else if c =? c_susp (t_cc t) then Some SIGTSTP
    else None
  else None.

Section tty.
Context {A : Type} `{FrameAlloc A}.
Implicit Types (s : kstate A).

Definition tty_input_char (t : tty) (c : Z) s : tty * kstate A :=
  if negb (t_valid t) then (t, s)
  else
    let c := translate t c in
    match control_signal t c with
    | Some sig => (t, (signal_send (t_fg_pgid t) sig s).2)
    | None => (tty_edit t c, s)
    end.
End tty.

(** The second loop of [tty_read]: [n] more bytes may be stored. *)
Fixpoint read_loop (n : nat) (t : tty) : list Z * tty :=
  match n with
  | O => ([], t)
  | S n =>
      if tty_ring_empty (t_input t) then ([], t)
      else
        let '(c, r) := tty_ring_pop (t_input t) in
        let t := with_input r t in
        if c <? 0 then ([], t)
        else if u8 c =? 0xFF then ([], t)
        else if (u8 c =? LF) && flag t TTY_ICANON then ([c], t)
        else let '(l, t) := read_loop n t in (c :: l, t)
  end.

(** The blocking wait: [env] is what happens during a [scheduler_yield]; the
    result is [None] when there is no input after [fuel] rounds. *)
Fixpoint wait_input (fuel : nat) (env : nat -> tty -> tty) (t : tty) : option tty :=
  if tty_ring_empty (t_input t) then
    match fuel with
    | O => None
    | S fuel => wait_input fuel env (env fuel t)
    end
  else Some t.

(** The bytes stored in the buffer; -1 is the result for an empty request. *)
Definition tty_read (fuel : nat) (env : nat -> tty -> tty) (t : tty) (n : nat) : option (Z * list Z * tty) :=
  if (n =? 0)%nat then Some (-1, [], t)
  else
    match wait_input fuel env t with
    | None => None
    | Some t => let '(l, t) := read_loop n t in Some (Z.of_nat (length l), l, t)
    end.

Fixpoint write_loop (t : tty) (buf : list Z) : tty :=
  match buf with
  | [] => t
  | c :: buf =>
      let c := u8 c in
      let t := if flag t TTY_ONLCR && (c =? LF) then push_output CR t else t in
      write_loop (push_output c t) buf
  end.

Definition tty_write (t : tty) (buf : list Z) : Z * tty := (Z.of_nat (length buf), write_loop t buf).

(** ** Pseudo-terminals *)

Record pty := Pty {
  y_valid : bool;
  y_index : Z;
  y_slave : option nat;
  y_m2s : tty_ring;
  y_s2m : tty_ring
}.

Definition pty_zero : pty := Pty false 0 None ring_zero ring_zero.

Record ttys := Ttys { tt_ttys : list tty; tt_ptys : list pty; tt_active : Z }.

Definition tty_init (s : ttys) : ttys :=
  Ttys ((fun i => tty_default (Z.of_nat i)) <$> seq 0 TTY_MAX) (replicate PTY_MAX pty_zero) (tt_active s).

Definition tty_get (index : Z) : option nat :=
  if (index <? 0) || (8 <=? index) then None else Some (Z.to_nat index).

Definition tty_switch (index : Z) (s : ttys) : ttys :=
  if (index <? 0) || (8 <=? index) then s else Ttys (tt_ttys s) (tt_ptys s) index.

(** The index of the pair and the two descriptors. *)
Definition pty_open (s : ttys) : Z * option (Z * Z) * ttys :=
  match find_idx (fun y => negb (y_valid y)) (tt_ptys s) with
  | None => (- ENOMEM, None, s)
  | Some i =>
      let y := Pty true (Z.of_nat i) (Some 0%nat) ring_zero ring_zero in
      (Z.of_nat i, Some (100 + Z.of_nat i * 2, 100 + Z.of_nat i * 2 + 1),
       Ttys (tt_ttys s) (<[i := y]> (tt_ptys s)) (tt_active s))
  end.

Section pty.
Context {A : Type} `{FrameAlloc A}.

(** One byte written by the master: recorded, and typed at the slave. *)
Definition master_put (i : nat) (c : Z) (s : ttys * kstate A) : ttys * kstate A :=
  let '(s, k) := s in
  match tt_ptys s !! i with
  | None => (s, k)
  | Some y =>
      let y := Pty (y_valid y) (y_index y) (y_slave y) (tty_ring_push (y_m2s y) (u8 c)) (y_s2m y) in
      let s := Ttys (tt_ttys s) (<[i := y]> (tt_ptys s)) (tt_active s) in
      match y_slave y with
      | None => (s, k)
      | Some j =>
          match tt_ttys s !! j with
          | None => (s, k)
          | Some t => let '(t, k) := tty_input_char t (u8 c) k in
                      (Ttys (<[j := t]> (tt_ttys s)) (tt_ptys s) (tt_active s), k)
          end
      end
  end.

Definition pty_master_write (i : nat) (buf : list Z) (s : ttys * kstate A) : Z * (ttys * kstate A) :=
  (Z.of_nat (length buf), fold_left (fun s c => master_put i c s) buf s).
End pty.

(** [n] more bytes may be stored. *)
Fixpoint master_read_loop (n : nat) (r : tty_ring) : list Z * tty_ring :=
  match n with
  | O => ([], r)
  | S n =>
      if tty_ring_empty r then ([], r)
      else
        let '(c, r) := tty_ring_pop r in
        if c <? 0 then ([], r)
        else let '(l, r) := master_read_loop n r in (c :: l, r)
  end.

Definition pty_master_read (i : nat) (n : nat) (s : ttys) : Z * list Z * ttys :=
  match tt_ptys s !! i with
  | None => (-1, [], s)
  | Some y =>
      let '(l, r) := master_read_loop n (y_s2m y) in
      let y := Pty (y_valid y) (y_index y) (y_slave y) (y_m2s y) r in
      (Z.of_nat (length l), l, Ttys (tt_ttys s) (<[i := y]> (tt_ptys s)) (tt_active s))
  end.

(** ** Rings as lists *)

Lemma buf_size : Z.of_nat TTY_BUF_SIZE = 4096.
Proof. unfold TTY_BUF_SIZE. lia. Qed.

#[global] Opaque TTY_BUF_SIZE.

(** The ring holds exactly the bytes of [l], oldest first. *)
Record holds (r : tty_ring) (l : list Z) : Prop := {
  h_ring : ring_rep TTY_BUF_SIZE (rbuf r) (rhead r) (length l) l;
  h_tail : rtail r = ((rhead r + length l) mod TTY_BUF_SIZE)%nat;
  h_len : (length l < TTY_BUF_SIZE)%nat
}.

Lemma holds_zero : holds ring_zero [].
Proof.
  pose proof buf_size. split.
  - apply ring_empty; [apply length_replicate|simpl; lia].
  - symmetry. apply Nat.Div0.mod_0_l.
  - simpl. lia.
Qed.

Lemma window_eq h n N : (h < N)%nat -> (n < N)%nat -> ((h + n) mod N = h)%nat <-> n = 0%nat.
Proof.
  intros Hh Hn. split; [|intros ->; rewrite Nat.add_0_r; by apply Nat.mod_small].
  intros Heq. destruct (decide (n = 0%nat)) as [|Hne]; [done|]. exfalso.
  apply (mod_window_inj h (h + n) N); [lia|lia|]. by rewrite Heq, Nat.mod_small by lia.
Qed.

Lemma empty_spec r l : holds r l -> tty_ring_empty r = bool_decide (l = []).
Proof.
  intros [H1 H2 H3]. pose proof (rr_head _ _ _ _ _ H1) as Hh. unfold tty_ring_empty. rewrite H2.
  pose proof (window_eq _ _ _ Hh H3) as Hw. destruct l as [|x l].
  - rewrite bool_decide_true by done. apply Nat.eqb_eq. symmetry. by apply Hw.
  - rewrite bool_decide_false by done. apply Nat.eqb_neq. intros E. symmetry in E. apply Hw in E. done.
Qed.

Lemma full_spec r l : holds r l -> tty_ring_full r = (S (length l) =? TTY_BUF_SIZE)%nat.
Proof.
  intros [H1 H2 H3]. pose proof (rr_head _ _ _ _ _ H1) as Hh. unfold tty_ring_full.
  rewrite H2, ring_tail_push. destruct (Nat.eqb_spec (S (length l)) TTY_BUF_SIZE) as [E|E].
  - apply Nat.eqb_eq. rewrite E, Nat.Div0.add_mod, Nat.Div0.mod_same, Nat.add_0_r, Nat.Div0.mod_mod.
    by apply Nat.mod_small.
  - apply Nat.eqb_neq. rewrite window_eq by lia. lia.
Qed.

(** A byte put into a ring is dropped when the ring is full. *)
Definition put (l : list Z) (c : Z) : list Z :=
  if (S (length l) =? TTY_BUF_SIZE)%nat then l else l ++ [c].

Lemma ring_push_spec r l c : holds r l -> holds (tty_ring_push r c) (put l c).
Proof.
  intros Hr. unfold tty_ring_push, put. rewrite (full_spec r l Hr).
  destruct (Nat.eqb_spec (S (length l)) TTY_BUF_SIZE) as [E|E]; [done|].
  destruct Hr as [H1 H2 H3]. split; simpl.
  - rewrite H2, length_app, (Nat.add_comm (length l)). apply ring_push; [done|lia].
  - rewrite H2, length_app, (Nat.add_comm (length l)). apply ring_tail_push.
  - rewrite length_app. simpl. lia.
Qed.

Lemma ring_pop_spec r l c : holds r (c :: l) -> exists r', tty_ring_pop r = (c, r') /\ holds r' l.
Proof.
  intros Hr. unfold tty_ring_pop. rewrite (empty_spec _ _ Hr), bool_decide_false by done.
  destruct Hr as [H1 H2 H3]. destruct (ring_pop _ _ _ _ _ _ H1) as [Hx Hp]. rewrite Hx.
  eexists. split; [done|]. simpl in *. split; simpl; [|rewrite H2|lia].
  - by replace (length l) with (S (length l) - 1)%nat by lia.
  - rewrite ring_tail_pop by lia. do 2 f_equal. lia.
Qed.

(** Dropping the newest byte: the decrement with wrap-around of the tail. *)
Lemma unpush_spec r l c :
  holds r (l ++ [c]) ->
  (rtail r =? rhead r)%nat = false /\
  holds (TtyRing (rbuf r) (rhead r) (if (rtail r =? 0)%nat then TTY_BUF_SIZE - 1 else rtail r - 1)%nat) l.
Proof.
  intros Hr. pose proof (empty_spec _ _ Hr) as He. rewrite bool_decide_false in He by (by destruct l).
  split; [rewrite Nat.eqb_sym; exact He|]. destruct Hr as [[R1 R2 R3 R4 R5] H2 H3].
  rewrite length_app in *. simpl in *. split; simpl; [|rewrite H2|lia].
  - split; try done; [lia|]. intros k Hk. rewrite R5 by lia.
    by rewrite lookup_app_l.
  - rewrite Nat.add_assoc, <- (Nat.Div0.add_mod_idemp_l _ 1).
    set (x := ((rhead r + length l) mod TTY_BUF_SIZE)%nat).
    assert (x < TTY_BUF_SIZE)%nat by (apply Nat.mod_upper_bound; lia).
    destruct (decide (x + 1 = TTY_BUF_SIZE)%nat) as [E|E].
    + rewrite E, Nat.Div0.mod_same. simpl. lia.
    + rewrite Nat.mod_small by lia. rewrite (proj2 (Nat.eqb_neq _ _)) by lia. lia.
Qed.

Lemma reset_spec r l : holds r l -> holds (TtyRing (rbuf r) 0 0) [].
Proof.
  intros [H1 _ _]. split; simpl.
  - apply ring_empty; [apply (rr_len _ _ _ _ _ H1)|]. pose proof buf_size. lia.
  - symmetry. apply Nat.Div0.mod_0_l.
  - pose proof buf_size. lia.
Qed.

#[export] Hint Resolve ring_push_spec reset_spec holds_zero : aether.

(** ** The line discipline on lists *)

(** The three rings of a terminal, and the part that never changes. *)
Record tty_rep (t0 t : tty) (cn inp out : list Z) : Prop := {
  tr_canon : holds (t_canon t) cn;
  tr_input : holds (t_input t) inp;
  tr_output : holds (t_output t) out;
  tr_same : t_flags t = t_flags t0 /\ t_cc t = t_cc t0 /\ t_valid t = t_valid t0 /\
            t_fg_pgid t = t_fg_pgid t0
}.

Lemma rep_flag t0 t cn inp out f : tty_rep t0 t cn inp out -> flag t f = flag t0 f.
Proof. intros [_ _ _ (E & _)]. unfold flag. by rewrite E. Qed.

Lemma rep_out t0 t cn inp out c : tty_rep t0 t cn inp out -> tty_rep t0 (push_output c t) cn inp (put out c).
Proof. intros []. split; simpl; auto with aether. Qed.

Lemma rep_in t0 t cn inp out c : tty_rep t0 t cn inp out -> tty_rep t0 (push_input c t) cn (put inp c) out.
Proof. intros []. split; simpl; auto with aether. Qed.

Lemma rep_canon t0 t cn inp out c : tty_rep t0 t cn inp out -> tty_rep t0 (push_canon c t) (put cn c) inp out.
Proof. intros []. split; simpl; auto with aether. Qed.

Lemma put_fits l c : (S (length l) < TTY_BUF_SIZE)%nat -> put l c = l ++ [c].
Proof. intros Hl. unfold put. by rewrite (proj2 (Nat.eqb_neq _ _)) by lia. Qed.

(** Flushing moves the line to the input ring. *)
Lemma flush_spec n t0 t cn inp out :
  tty_rep t0 t cn inp out -> (length cn <= n)%nat -> (length inp + length cn < TTY_BUF_SIZE)%nat ->
  Forall (fun c => 0 <= c < 256) cn ->
  tty_rep t0 (flush_canon n t) [] (inp ++ cn) out.
Proof.
  revert t cn inp. induction n as [|n IH]; intros t cn inp Hr Hn Hl Hb; cbn [flush_canon].
  - destruct cn; [|simpl in Hn; lia]. by rewrite app_nil_r.
  - rewrite (empty_spec _ _ (tr_canon _ _ _ _ _ Hr)). destruct cn as [|c cn].
    + rewrite bool_decide_true, app_nil_r by done. done.
    + rewrite bool_decide_false by done. apply Forall_cons in Hb as [Hc Hb].
      destruct (ring_pop_spec _ _ _ (tr_canon _ _ _ _ _ Hr)) as (r & -> & Hr').
      rewrite (proj2 (Z.leb_le 0 c)), (u8_small c) by lia. simpl in *.
      replace (inp ++ c :: cn) with ((inp ++ [c]) ++ cn) by by rewrite <- app_assoc.
      apply IH; [|lia|rewrite length_app; simpl; lia|done].
      rewrite <- (put_fits inp c) by lia. apply rep_in. destruct Hr. by split.
Qed.

(** ** Typing a line *)

(** What the keys amount to: erase takes the last character back, kill all. *)
Definition edit_key (cc : tty_cc) (l : list Z) (c : Z) : list Z :=
  if c =? c_erase cc then removelast l else if c =? c_kill cc then [] else l ++ [c].

Definition edit_line (cc : tty_cc) (ks : list Z) : list Z := fold_left (edit_key cc) ks [].

(** A key that takes part in line editing. *)
Definition ordinary (t : tty) (c : Z) : Prop :=
  translate t c = c /\ control_signal t c = None /\ c <> LF /\ c <> c_eof (t_cc t) /\ 0 <= c < 255.

(** LF has no other meaning on this terminal. *)
Definition plain_newline (t : tty) : Prop :=
  control_signal t LF = None /\ c_erase (t_cc t) <> LF /\ c_kill (t_cc t) <> LF /\ c_eof (t_cc t) <> LF.

Lemma length_edit_key cc l c : (length (edit_key cc l c) <= S (length l))%nat.
Proof.
  unfold edit_key. case_if; [|case_if; [simpl; lia|rewrite length_app; simpl; lia]].
  induction l as [|y l IH]; [simpl; lia|]. destruct l; simpl in *; lia.
Qed.

Lemma edit_key_forall (P : Z -> Prop) cc l c : Forall P l -> P c -> Forall P (edit_key cc l c).
Proof.
  intros Hl Hc. unfold edit_key. case_if; [|case_if; [constructor|]].
  - destruct (decide (l = [])) as [->|Hne]; [done|].
    rewrite (app_removelast_last 0 Hne) in Hl. by apply Forall_app in Hl as [? _].
  - apply Forall_app. by split; [|constructor].
Qed.

(** One ordinary key edits the line that is being typed. *)
Lemma edit_spec t0 t l inp out c :
  tty_rep t0 t l inp out -> flag t0 TTY_ICANON = true -> ordinary t0 c ->
  (S (length l) < TTY_BUF_SIZE)%nat ->
  exists out', tty_rep t0 (tty_edit t c) (edit_key (t_cc t0) l c) inp out'.
Proof.
  intros Hr Hc (_ & _ & Hlf & He & _) Hl. unfold tty_edit, edit_key.
  rewrite (rep_flag _ _ _ _ _ TTY_ICANON Hr), Hc. destruct (tr_same _ _ _ _ _ Hr) as (Ef & Ec & _).
  rewrite Ec. cbn [negb].
  destruct (Z.eqb_spec c (c_erase (t_cc t0))) as [_|_].
  { destruct (decide (l = [])) as [->|Hne].
    - pose proof (empty_spec _ _ (tr_canon _ _ _ _ _ Hr)) as Hem. rewrite bool_decide_true in Hem by done.
      unfold tty_ring_empty in Hem. rewrite Nat.eqb_sym, Hem. by exists out.
    - pose proof (tr_canon _ _ _ _ _ Hr) as Hcn. rewrite (app_removelast_last 0 Hne) in Hcn.
      destruct (unpush_spec _ _ _ Hcn) as [-> Hh]. cbv zeta.
      set (t1 := with_canon _ t). assert (tty_rep t0 t1 (removelast l) inp out) as H1.
      { destruct Hr. by split. }
      case_if; [eexists; by do 3 apply rep_out|by exists out]. }
  destruct (Z.eqb_spec c (c_kill (t_cc t0))) as [_|_].
  { cbv zeta. set (t1 := with_canon _ t). assert (tty_rep t0 t1 [] inp out) as H1.
    { destruct Hr as [R1 R2 R3 R4]. split; try done. by eapply reset_spec. }
    case_if; [eexists; by do 2 apply rep_out|by exists out]. }
  rewrite (proj2 (Z.eqb_neq _ _) He), (proj2 (Z.eqb_neq _ _) Hlf), andb_false_r.
  rewrite <- (put_fits l c) by done. pose proof (rep_canon _ _ _ _ _ c Hr) as H1.
  case_if; [eexists; by apply rep_out|by exists out].
Qed.

(** LF ends the line: it becomes readable. *)
Lemma newline_spec t0 t l out :
  tty_rep t0 t l [] out -> flag t0 TTY_ICANON = true -> plain_newline t0 ->
  (S (length l) < TTY_BUF_SIZE)%nat -> Forall (fun c => 0 <= c < 256) l ->
  exists out', tty_rep t0 (tty_edit t LF) [] (l ++ [LF]) out'.
Proof.
  intros Hr Hc (_ & He & Hk & Hf) Hl Hb. unfold tty_edit.
  rewrite (rep_flag _ _ _ _ _ TTY_ICANON Hr), Hc. destruct (tr_same _ _ _ _ _ Hr) as (Ef & Ec & _).
  rewrite Ec. cbn [negb]. rewrite !(proj2 (Z.eqb_neq LF _)) by congruence. cbv zeta.
  rewrite Z.eqb_refl, andb_true_r. pose proof (rep_canon _ _ _ _ _ LF Hr) as H1.
  rewrite put_fits in H1 by done. set (t1 := push_canon LF t) in *.
  set (t2 := if flag t1 TTY_ECHO then _ else t1).
  assert (exists out', tty_rep t0 t2 (l ++ [LF]) [] out') as [out' H2].
  { unfold t2. case_if; [|by exists out]. case_if; eexists; repeat apply rep_out; done. }
  exists out'.
  apply (flush_spec TTY_BUF_SIZE t0 t2 (l ++ [LF]) [] out' H2); rewrite ?length_app; simpl; try lia.
  apply Forall_app. split; [done|]. constructor; [done|constructor].
Qed.

(** Reading stops behind the first LF. *)
Lemma read_line_spec n t0 t l rest cn out :
  tty_rep t0 t cn (l ++ LF :: rest) out -> flag t0 TTY_ICANON = true ->
  Forall (fun c => c <> LF /\ 0 <= c < 255) l -> (length l < n)%nat ->
  exists t', read_loop n t = (l ++ [LF], t') /\ tty_rep t0 t' cn rest out.
Proof.
  intros Hr Hc Hl. revert t n Hr. induction Hl as [|c l [Hc1 Hc2] Hl IH]; intros t n Hr Hn;
    (destruct n as [|n]; [simpl in Hn; lia|]); cbn [read_loop];
    rewrite (empty_spec _ _ (tr_input _ _ _ _ _ Hr)), bool_decide_false by done;
    destruct (ring_pop_spec _ _ _ (tr_input _ _ _ _ _ Hr)) as (r & -> & Hr').
  - change (LF <? 0) with false. change (u8 LF =? 0xFF) with false. change (u8 LF =? LF) with true. cbn [andb].
    assert (tty_rep t0 (with_input r t) cn rest out) as H1 by (destruct Hr; by split).
    rewrite (rep_flag _ _ _ _ _ TTY_ICANON H1), Hc. by eexists.
  - assert (tty_rep t0 (with_input r t) cn (l ++ LF :: rest) out) as H1 by (destruct Hr; by split).
    rewrite (u8_small c), (proj2 (Z.ltb_ge c 0)), (proj2 (Z.eqb_neq c 0xFF)), (proj2 (Z.eqb_neq c LF)) by lia.
    cbn [andb]. destruct (IH _ n H1 ltac:(simpl in Hn; lia)) as (t' & -> & Ht'). by exists t'.
Qed.

Section typing.
Context {A : Type} `{FrameAlloc A}.

(** Keys typed one after the other. *)
Definition type_keys (t : tty) (ks : list Z) (s : kstate A) : tty * kstate A :=
  fold_left (fun ts c => tty_input_char ts.1 c ts.2) ks (t, s).

Lemma input_same t0 t c cn inp out (s : kstate A) :
  tty_rep t0 t cn inp out -> t_valid t0 = true -> translate t0 c = c -> control_signal t0 c = None ->
  tty_input_char t c s = (tty_edit t c, s).
Proof.
  intros Hr Hv Ht Hc. destruct (tr_same _ _ _ _ _ Hr) as (Ef & Ec & Ev & _).
  unfold tty_input_char. rewrite Ev, Hv. cbn [negb].
  assert (translate t c = c) as ->.
  { rewrite <- Ht at 2. unfold translate, flag. by rewrite Ef. }
  assert (control_signal t c = None) as ->; [|done].
  rewrite <- Hc. unfold control_signal, flag. by rewrite Ef, Ec.
Qed.

Lemma type_spec t0 t ks l out (s : kstate A) :
  tty_rep t0 t l [] out -> t_valid t0 = true -> flag t0 TTY_ICANON = true ->
  Forall (ordinary t0) ks -> (length l + length ks < TTY_BUF_SIZE - 1)%nat ->
  exists t' out', type_keys t ks s = (t', s) /\
    tty_rep t0 t' (fold_left (edit_key (t_cc t0)) ks l) [] out'.
Proof.
  intros Hr Hv Hc Hks Hl. revert t l out Hr Hl. unfold type_keys.
  induction Hks as [|c ks Ho Hks IH]; intros t l out Hr Hl; cbn [fold_left]; [by eauto|].
  cbn [fst snd]. rewrite (input_same t0 t c l [] out s Hr Hv) by apply Ho. cbn [length] in Hl.
  destruct (edit_spec t0 t l [] out c Hr Hc Ho) as [out1 H1]; [lia|].
  pose proof (length_edit_key (t_cc t0) l c) as Hle. apply (IH _ _ _ H1). lia.
Qed.

(** C36: In canonical mode, typing any sequence of ordinary characters,
    erases and kills and then Enter, and reading with a large enough buffer,
    returns exactly the edited line and its newline, leaves both rings empty
    and disturbs no process. *)
Theorem tty_line_roundtrip t ks fuel env n (s : kstate A) :
  holds (t_canon t) [] -> holds (t_input t) [] -> (exists out, holds (t_output t) out) ->
  t_valid t = true -> flag t TTY_ICANON = true -> plain_newline t -> translate t LF = LF ->
  Forall (ordinary t) ks -> (length ks < 4095)%nat ->
  let line := edit_line (t_cc t) ks ++ [LF] in
  (length line <= n)%nat ->
  exists t1 t2, type_keys t (ks ++ [LF]) s = (t1, s) /\
    tty_read fuel env t1 n = Some (Z.of_nat (length line), line, t2) /\
    holds (t_canon t2) [] /\ holds (t_input t2) [].
Proof.
  intros Hcn Hin [out Hout] Hv Hc Hp Htr Hks Hl line Hn. pose proof buf_size as HB.
  assert (tty_rep t t [] [] out) as Hr by by split.
  destruct (type_spec t t ks [] out s Hr Hv Hc Hks ltac:(simpl; lia)) as (t1 & out1 & Ht1 & Hr1).
  fold (edit_line (t_cc t) ks) in Hr1. set (l := edit_line (t_cc t) ks) in *.
  assert (length l <= length ks)%nat as Hll.
  { unfold l, edit_line. rewrite <- (Nat.add_0_r (length ks)). change 0%nat with (length (@nil Z)).
    generalize (@nil Z). clear. induction ks as [|k ks IH]; intros l; simpl; [lia|].
    specialize (IH (edit_key (t_cc t) l k)). pose proof (length_edit_key (t_cc t) l k). lia. }
  assert (Forall (fun c => c <> LF /\ 0 <= c < 255) l) as Hfl.
  { unfold l, edit_line. assert (Forall (fun c => c <> LF /\ 0 <= c < 255) (@nil Z)) as H0 by constructor.
    revert H0. generalize (@nil Z). clear -Hks. induction Hks as [|k ks Hk Hks IH]; intros l Hl; simpl; [done|].
    apply IH, edit_key_forall; [done|]. by destruct Hk as (_ & _ & ? & _ & ?). }
  destruct (newline_spec t t1 l out1 Hr1 Hc Hp) as [out2 Hr2]; [lia| |].
  { eapply Forall_impl; [exact Hfl|]. simpl. lia. }
  exists (tty_edit t1 LF). unfold line in *. rewrite length_app in Hn. simpl in Hn.
  destruct (read_line_spec n t _ l [] [] out2 Hr2 Hc Hfl ltac:(lia)) as (t2 & Hrd & Hr3).
  exists t2. split; [|split; [|split; apply Hr3]].
  - unfold type_keys in *. rewrite fold_left_app, Ht1. simpl. apply (input_same t t1 LF l [] out1); try done.
    apply Hp.
  - unfold tty_read. rewrite (proj2 (Nat.eqb_neq n 0)) by lia.
    assert (wait_input fuel env (tty_edit t1 LF) = Some (tty_edit t1 LF)) as ->; [|by rewrite Hrd].
    destruct fuel; cbn [wait_input];
      by rewrite (empty_spec _ _ (tr_input _ _ _ _ _ Hr2)), bool_decide_false by (by destruct l).
Qed.
End typing.

(** ** Pseudo-terminal output *)

(** No code writes the ring from slave to master: it stays empty in every
    pair, so [pty_master_read] always returns 0. *)
Definition s2m_empty (s : ttys) : Prop := forall i y, tt_ptys s !! i = Some y -> holds (y_s2m y) [].

Lemma init_s2m s : s2m_empty (tty_init s).
Proof.
  intros i y. unfold tty_init. cbn [tt_ptys]. intros Hy. apply lookup_replicate in Hy as [-> _]. apply holds_zero.
Qed.

Lemma open_s2m s : s2m_empty s -> s2m_empty (pty_open s).2.
Proof.
  intros Hs. unfold pty_open. destruct (find_idx _ _) as [k|]; [|done]. intros i y. simpl.
  rewrite list_lookup_insert. case_decide as E; [|apply Hs]. intros [= <-]. apply holds_zero.
Qed.

Section pty_output.
Context {A : Type} `{FrameAlloc A}.

Lemma master_put_s2m i c (s : ttys * kstate A) : s2m_empty s.1 -> s2m_empty (master_put i c s).1.
Proof.
  destruct s as [s k]. intros Hs. unfold master_put. destruct (tt_ptys s !! i) as [y|] eqn:Ey; [|done].
  assert (s2m_empty (Ttys (tt_ttys s) (<[i := Pty (y_valid y) (y_index y) (y_slave y)
            (tty_ring_push (y_m2s y) (u8 c)) (y_s2m y)]> (tt_ptys s)) (tt_active s))) as H1.
  { intros j z. simpl. rewrite list_lookup_insert. case_decide as E; [|apply Hs].
    intros [= <-]. simpl. by apply (Hs i). }
  cbv zeta. simpl y_slave. destruct (y_slave y) as [j|]; [|done]. simpl tt_ttys.
  destruct (tt_ttys s !! j) as [t|]; [|done]. by destruct (tty_input_char t (u8 c) k).
Qed.

Lemma master_write_s2m i buf (s : ttys * kstate A) :
  s2m_empty s.1 -> s2m_empty (pty_master_write i buf s).2.1.
Proof.
  unfold pty_master_write. simpl. revert s. induction buf as [|c buf IH]; intros s Hs; [done|].
  simpl. apply IH. by apply master_put_s2m.
Qed.

(** After any writes by the master there is nothing for it to read. *)
Lemma pty_output_lost i j bufs n (s : ttys * kstate A) y :
  s2m_empty s.1 ->
  let s' := fold_left (fun s b => (pty_master_write i b s).2) bufs s in
  tt_ptys s'.1 !! j = Some y -> (pty_master_read j n s'.1).1 = (0, []).
Proof.
  intros Hs s' Hy. assert (s2m_empty s'.1) as Hs'.
  { unfold s'. clear Hy s'. revert s Hs. induction bufs as [|b bufs IH]; intros s Hs; [done|].
    simpl. apply IH. by apply master_write_s2m. }
  unfold pty_master_read. rewrite Hy. pose proof (Hs' j y Hy) as Hh.
  assert (master_read_loop n (y_s2m y) = ([], y_s2m y)) as ->; [|done].
  destruct n; [done|]. cbn [master_read_loop]. by rewrite (empty_spec _ _ Hh), bool_decide_true.
Qed.
End pty_output.

(** A data byte 0xFF ends a read like the end-of-file mark. *)
Lemma raw_ff_ends_read t0 t cn rest out n :
  tty_rep t0 t cn (0xFF :: rest) out -> exists t', read_loop (S n) t = ([], t').
Proof.
  intros Hr. cbn [read_loop].
  rewrite (empty_spec _ _ (tr_input _ _ _ _ _ Hr)), bool_decide_false by done.
  destruct (ring_pop_spec _ _ _ (tr_input _ _ _ _ _ Hr)) as (r & -> & _). by eexists.
Qed.

(** ** Witness *)

Lemma tty_line_roundtrip_witness :
  exists t1 t2, type_keys (tty_default 0) ([97; 98; 127; 99] ++ [LF]) demo_kernel = (t1, demo_kernel) /\
    tty_read 0 (fun _ t => t) t1 64 = Some (3, [97; 99; 10], t2) /\
    holds (t_canon t2) [] /\ holds (t_input t2) [].
Proof.
  apply (tty_line_roundtrip (tty_default 0) [97; 98; 127; 99] 0 (fun _ t => t) 64 demo_kernel).
  - apply holds_zero.
  - apply holds_zero.
  - exists []. apply holds_zero.
  - reflexivity.
  - reflexivity.
  - repeat split; discriminate.
  - reflexivity.
  - repeat constructor; vm_compute; discriminate.
  - simpl. lia.
  - simpl. lia.
Defined.
