(* ===== verification/Ports.v ===== *)
(** * Port I/O and block devices: the interfaces to the hardware

    The drivers talk to devices with the [in] and [out] instructions
    ([inb], [outb], [inw], [outw], [inl], [outl] of [include/kernel.h]).  What a
    device answers is not in the source: it is an instance of the class
    [PortIO] on a type of machine states.  The storage code above the disk
    driver is proved against the class [BlockDev], which the driver
    implements. *)

From S2P Require Import Prelude.

Class PortIO (W : Type) := {
  inb : Z -> W -> Z * W;
  outb : Z -> Z -> W -> W;
  inw : Z -> W -> Z * W;
  outw : Z -> Z -> W -> W
}.

(** [io_wait]: a write to the unused port 0x80. *)
Definition io_wait `{PortIO W} (w : W) : W := outb 0x80 0 w.

(** ** Block devices

    [bd_present i] is [ata_drives[i].present]; [bd_read] and [bd_write]
    transfer one sector and return 0 or -1.  [bd_sector] is the contents of
    the medium and [bd_size] the number of sectors; reads and writes below it
    succeed, and a write changes one sector. *)
Class BlockDev (D : Type) := {
  bd_present : Z -> bool;
  bd_read : Z -> Z -> D -> Z * list Z * D;
  bd_write : Z -> Z -> list Z -> D -> Z * D;
  bd_ok : D -> Prop;
  bd_size : Z -> Z;
  bd_sector : D -> Z -> Z -> list Z;
  bd_sector_len d i lba :
    bd_ok d -> bd_present i = true -> 0 <= lba < bd_size i -> length (bd_sector d i lba) = 256%nat;
  bd_read_ok d i lba :
    bd_ok d -> bd_present i = true -> 0 <= lba < bd_size i ->
    exists d', bd_read i lba d = (0, bd_sector d i lba, d') /\ bd_ok d' /\
      forall j k, bd_sector d' j k = bd_sector d j k;
  bd_write_ok d i lba ws :
    bd_ok d -> bd_present i = true -> 0 <= lba < bd_size i -> length ws = 256%nat ->
    exists d', bd_write i lba ws d = (0, d') /\ bd_ok d' /\
      forall j k, bd_sector d' j k = if (j =? i) && (k =? lba) then ws else bd_sector d j k
}.
