(* ===== verification/Ata.v ===== *)
(** * ATA disks in programmed-I/O mode ([drivers/ata.c])

    The driver over an abstract port space, and its correctness against the
    documented behaviour of an ATA device: the task-file registers, the data
    port and the status bits.  A sector is the list of its 256 words, as the
    driver reads and writes it. *)

From S2P Require Import Prelude Ports.

Definition ATA_PRIMARY_BASE : Z := 0x1F0.
Definition ATA_PRIMARY_CTRL : Z := 0x3F6.
Definition ATA_SECONDARY_BASE : Z := 0x170.
Definition ATA_SECONDARY_CTRL : Z := 0x376.

Definition ATA_REG_DATA : Z := 0.
Definition ATA_REG_SECCOUNT : Z := 2.
Definition ATA_REG_LBA_LOW : Z := 3.
Definition ATA_REG_LBA_MID : Z := 4.
Definition ATA_REG_LBA_HIGH : Z := 5.
Definition ATA_REG_HDDEVSEL : Z := 6.
Definition ATA_REG_STATUS : Z := 7.
Definition ATA_REG_COMMAND : Z := 7.

Definition ATA_SR_BSY : Z := 0x80.
Definition ATA_SR_DRQ : Z := 0x08.
Definition ATA_SR_ERR : Z := 0x01.

Definition ATA_CMD_READ_PIO : Z := 0x20.
Definition ATA_CMD_READ_PIO_EXT : Z := 0x24.
Definition ATA_CMD_WRITE_PIO : Z := 0x30.
Definition ATA_CMD_WRITE_PIO_EXT : Z := 0x34.
Definition ATA_CMD_CACHE_FLUSH : Z := 0xE7.
Definition ATA_CMD_IDENTIFY : Z := 0xEC.

(** ** The driver *)

Record ata_drive := AtaDrive {
  base : Z;
  ctrl : Z;
  drive : Z;
  present : bool;
  lba48 : bool;
  sectors : Z;
  model : list Z
}.

Definition with_present (b : bool) (d : ata_drive) : ata_drive :=
  AtaDrive (base d) (ctrl d) (drive d) b (lba48 d) (sectors d) (model d).

(** Status of the selected drive; the number of polls is that of the loops. *)
Definition ATA_POLLS : nat := Z.to_nat 100000.

Section driver.
Context {W : Type} `{PortIO W}.
Implicit Types (d : ata_drive) (w : W).

Fixpoint poll_ready (n : nat) d w : Z * W :=
  match n with
  | O => (-1, w)
  | S n =>
      let '(status, w) := inb (base d + ATA_REG_STATUS) w in
      if status .& ATA_SR_BSY =? 0 then (0, w) else poll_ready n d (io_wait w)
  end.
Definition ata_wait_ready d w : Z * W := poll_ready ATA_POLLS d w.

Fixpoint poll_drq (n : nat) d w : Z * W :=
  match n with
  | O => (-1, w)
  | S n =>
      let '(status, w) := inb (base d + ATA_REG_STATUS) w in
      if negb (status .& ATA_SR_ERR =? 0) then (-1, w)
      else if negb (status .& ATA_SR_DRQ =? 0) then (0, w)
      else poll_drq n d (io_wait w)
  end.
Definition ata_wait_drq d w : Z * W := poll_drq ATA_POLLS d w.

Fixpoint read_ctrl (n : nat) d w : W :=
  match n with
  | O => w
  | S n => read_ctrl n d (inb (ctrl d) w).2
  end.
Definition ata_delay400 d w : W := read_ctrl 4 d w.

(** [n] reads of the data port. *)
Fixpoint read_words (n : nat) d w : list Z * W :=
  match n with
  | O => ([], w)
  | S n =>
      let '(x, w) := inw (base d + ATA_REG_DATA) w in
      let '(xs, w) := read_words n d w in (x :: xs, w)
  end.

Fixpoint write_words (ws : list Z) d w : W :=
  match ws with
  | [] => w
  | x :: ws => write_words ws d (outw (base d + ATA_REG_DATA) x w)
  end.

(** The task file of a transfer: sector count, address and command, with the
    high halves first for a drive with 48-bit addresses. *)
Definition ata_setup d (lba count cmd cmd_ext : Z) w : W :=
  if lba48 d then
    let w := outb (base d + ATA_REG_HDDEVSEL) (u8 (0x40 .| Z.shiftl (drive d) 4)) w in
    let w := outb (base d + ATA_REG_SECCOUNT) (u8 (Z.shiftr count 8 .& 0xFF)) w in
    let w := outb (base d + ATA_REG_LBA_LOW) (u8 (Z.shiftr lba 24 .& 0xFF)) w in
    let w := outb (base d + ATA_REG_LBA_MID) (u8 (Z.shiftr lba 32 .& 0xFF)) w in
    let w := outb (base d + ATA_REG_LBA_HIGH) (u8 (Z.shiftr lba 40 .& 0xFF)) w in
    let w := outb (base d + ATA_REG_SECCOUNT) (u8 (count .& 0xFF)) w in
    let w := outb (base d + ATA_REG_LBA_LOW) (u8 (lba .& 0xFF)) w in
    let w := outb (base d + ATA_REG_LBA_MID) (u8 (Z.shiftr lba 8 .& 0xFF)) w in
    let w := outb (base d + ATA_REG_LBA_HIGH) (u8 (Z.shiftr lba 16 .& 0xFF)) w in
    outb (base d + ATA_REG_COMMAND) cmd_ext w
  else
    let w := outb (base d + ATA_REG_HDDEVSEL)
               (u8 (0xE0 .| Z.shiftl (drive d) 4 .| (Z.shiftr lba 24 .& 0x0F))) w in
    let w := outb (base d + ATA_REG_SECCOUNT) (u8 count) w in
    let w := outb (base d + ATA_REG_LBA_LOW) (u8 (lba .& 0xFF)) w in
    let w := outb (base d + ATA_REG_LBA_MID) (u8 (Z.shiftr lba 8 .& 0xFF)) w in
    let w := outb (base d + ATA_REG_LBA_HIGH) (u8 (Z.shiftr lba 16 .& 0xFF)) w in
    outb (base d + ATA_REG_COMMAND) cmd w.

(** The words stored in the buffer, from its start. *)
Fixpoint read_sectors (n : nat) d w : Z * list Z * W :=
  match n with
  | O => (0, [], w)
  | S n =>
      let w := ata_delay400 d w in
      let '(rc, w) := ata_wait_drq d w in
      if rc <? 0 then (-1, [], w)
      else
        let '(xs, w) := read_words 256 d w in
        let '(rc, ys, w) := read_sectors n d w in (rc, xs ++ ys, w)
  end.

Definition ata_read d (lba count : Z) w : Z * list Z * W :=
  if negb (present d) then (-1, [], w)
  else if (count =? 0) || (256 <? count) then (-1, [], w)
  else
    let '(_, w) := ata_wait_ready d w in
    let w := ata_setup d lba count ATA_CMD_READ_PIO ATA_CMD_READ_PIO_EXT w in
    read_sectors (Z.to_nat count) d w.

Fixpoint write_sectors (n : nat) (buf : list Z) d w : Z * W :=
  match n with
  | O => (0, w)
  | S n =>
      let w := ata_delay400 d w in
      let '(rc, w) := ata_wait_drq d w in
      if rc <? 0 then (-1, w)
      else write_sectors n (drop 256 buf) d (write_words (take 256 buf) d w)
  end.

Definition ata_write d (lba count : Z) (buf : list Z) w : Z * W :=
  if negb (present d) then (-1, w)
  else if (count =? 0) || (256 <? count) then (-1, w)
  else
    let '(_, w) := ata_wait_ready d w in
    let w := ata_setup d lba count ATA_CMD_WRITE_PIO ATA_CMD_WRITE_PIO_EXT w in
    let '(rc, w) := write_sectors (Z.to_nat count) buf d w in
    if rc <? 0 then (-1, w)
    else
      let w := outb (base d + ATA_REG_COMMAND) ATA_CMD_CACHE_FLUSH w in
      (0, (ata_wait_ready d w).2).

(** *** Identification and probing *)

(** Words 27 to 46, high byte first. *)
Definition model_bytes (id : list Z) : list Z :=
  concat ((fun i => let x := default 0 (id !! (27 + i)%nat) in [Z.shiftr x 8; x .& 0xFF]) <$> seq 0 20).

(** [for (i = 39; i >= 0 && model[i] == ' '; i--) model[i] = 0;] *)
Fixpoint strip_spaces (n : nat) (l : list Z) : list Z :=
  match n with
  | O => l
  | S i => match l !! i with
           | Some c => if c =? 32 then strip_spaces i (<[i := 0]> l) else l
           | None => l
           end
  end.

Definition parse_identify (id : list Z) d : ata_drive :=
  let word i := default 0 (id !! i) in
  let big := negb (word 83%nat .& Z.shiftl 1 10 =? 0) in
  AtaDrive (base d) (ctrl d) (drive d) (present d) big
    (if big then Z.shiftl (word 103%nat) 48 .| Z.shiftl (word 102%nat) 32 .|
                 Z.shiftl (word 101%nat) 16 .| word 100%nat
     else u32 (Z.shiftl (word 61%nat) 16) .| word 60%nat)
    (strip_spaces 40 (model_bytes id) ++ [0]).

Definition ata_identify d w : ata_drive * W :=
  if negb (present d) then (d, w)
  else
    let w := outb (base d + ATA_REG_HDDEVSEL) (u8 (0xA0 .| Z.shiftl (drive d) 4)) w in
    let w := ata_delay400 d w in
    let w := outb (base d + ATA_REG_SECCOUNT) 0 w in
    let w := outb (base d + ATA_REG_LBA_LOW) 0 w in
    let w := outb (base d + ATA_REG_LBA_MID) 0 w in
    let w := outb (base d + ATA_REG_LBA_HIGH) 0 w in
    let w := outb (base d + ATA_REG_COMMAND) ATA_CMD_IDENTIFY w in
    let w := ata_delay400 d w in
    let '(status, w) := inb (base d + ATA_REG_STATUS) w in
    if status =? 0 then (with_present false d, w)
    else
      let '(rc, w) := ata_wait_ready d w in
      if rc <? 0 then (with_present false d, w)
      else
        let '(cl, w) := inb (base d + ATA_REG_LBA_MID) w in
        let '(ch, w) := inb (base d + ATA_REG_LBA_HIGH) w in
        if negb (cl =? 0) || negb (ch =? 0) then (with_present false d, w)
        else
          let '(rc, w) := ata_wait_drq d w in
          if rc <? 0 then (with_present false d, w)
          else let '(id, w) := read_words 256 d w in (parse_identify id d, w).

(** The drive table and [ata_drive_count]. *)
Record ata_state := AtaState { ata_drives : list ata_drive; ata_drive_count : nat }.

(** There are four probes for the four entries of the table, so the index is
    in range. *)
Definition ata_probe_drive (drive_idx b c : Z) (s : ata_state) w : ata_state * W :=
  match ata_drives s !! ata_drive_count s with
  | None => (s, w)
  | Some old =>
      let d := AtaDrive b c (u8 drive_idx) false false 0 (model old) in
      let put d := AtaState (<[ata_drive_count s := d]> (ata_drives s)) (ata_drive_count s) in
      let w := outb (b + ATA_REG_HDDEVSEL) (u8 (0xA0 .| Z.shiftl drive_idx 4)) w in
      let w := io_wait w in
      let w := outb (b + ATA_REG_COMMAND) ATA_CMD_IDENTIFY w in
      let w := io_wait w in
      let '(status, w) := inb (b + ATA_REG_STATUS) w in
      if status =? 0 then (put d, w)
      else
        let '(d, w) := ata_identify (with_present true d) w in
        if present d then (AtaState (ata_drives (put d)) (S (ata_drive_count s)), w) else (put d, w)
  end.

Definition ata_init (s : ata_state) w : ata_state * W :=
  let s := AtaState (ata_drives s) 0 in
  let w := io_wait (outb ATA_PRIMARY_CTRL 0x04 w) in
  let w := outb ATA_PRIMARY_CTRL 0x00 w in
  let w := io_wait (outb ATA_SECONDARY_CTRL 0x04 w) in
  let w := io_wait (outb ATA_SECONDARY_CTRL 0x00 w) in
  let '(s, w) := ata_probe_drive 0 ATA_PRIMARY_BASE ATA_PRIMARY_CTRL s w in
  let '(s, w) := ata_probe_drive 1 ATA_PRIMARY_BASE ATA_PRIMARY_CTRL s w in
  let '(s, w) := ata_probe_drive 0 ATA_SECONDARY_BASE ATA_SECONDARY_CTRL s w in
  ata_probe_drive 1 ATA_SECONDARY_BASE ATA_SECONDARY_CTRL s w.

Definition ata_get_drive (s : ata_state) (bus drv : Z) : option ata_drive :=
  let idx := bus * 2 + drv in
  if (idx <? 0) || (4 <=? idx) then None
  else match ata_drives s !! Z.to_nat idx with
       | Some d => if present d then Some d else None
       | None => None
       end.
End driver.

(** ** The device

    The documented behaviour of an ATA channel (two drives, one task file):
    every register remembers its last two values; a command reads the address
    and the count from the registers and starts a transfer of sectors through
    the data port; a command for sectors that do not exist ends with the error
    bit. *)

Inductive transfer :=
| Idle
| PioIn (ws : list Z)
| PioOut (drv lba : Z) (n : nat) (ws : list Z)
| Failed.

(** The previous and the last value written. *)
Record reg := Reg { prev : Z; cur : Z }.
Definition reg_write (v : Z) (r : reg) : reg := Reg (cur r) v.

Record channel := Channel {
  r_count : reg;
  r_low : reg;
  r_mid : reg;
  r_high : reg;
  r_dev : Z;
  ch_mode : transfer;
  ch_size : Z -> Z;
  ch_disk : Z -> Z -> list Z
}.

Definition with_mode (m : transfer) (c : channel) : channel :=
  Channel (r_count c) (r_low c) (r_mid c) (r_high c) (r_dev c) m (ch_size c) (ch_disk c).
Definition with_disk (f : Z -> Z -> list Z) (c : channel) : channel :=
  Channel (r_count c) (r_low c) (r_mid c) (r_high c) (r_dev c) (ch_mode c) (ch_size c) f.

Definition selected (c : channel) : Z := Z.shiftr (r_dev c) 4 .& 1.
Definition address28 (c : channel) : Z :=
  cur (r_low c) + cur (r_mid c) * 2 ^ 8 + cur (r_high c) * 2 ^ 16 + (r_dev c .& 0xF) * 2 ^ 24.
Definition address48 (c : channel) : Z :=
  cur (r_low c) + cur (r_mid c) * 2 ^ 8 + cur (r_high c) * 2 ^ 16 +
  prev (r_low c) * 2 ^ 24 + prev (r_mid c) * 2 ^ 32 + prev (r_high c) * 2 ^ 40.
Definition count28 (c : channel) : Z := if cur (r_count c) =? 0 then 256 else cur (r_count c).
Definition count48 (c : channel) : Z :=
  let n := cur (r_count c) + prev (r_count c) * 2 ^ 8 in if n =? 0 then 65536 else n.

(** The words of [n] sectors. *)
Fixpoint sector_words (disk : Z -> list Z) (lba : Z) (n : nat) : list Z :=
  match n with
  | O => []
  | S n => disk lba ++ sector_words disk (lba + 1) n
  end.

Definition start_in (lba n : Z) (c : channel) : channel :=
  let drv := selected c in
  with_mode (if lba + n <=? ch_size c drv then PioIn (sector_words (ch_disk c drv) lba (Z.to_nat n))
             else Failed) c.
Definition start_out (lba n : Z) (c : channel) : channel :=
  let drv := selected c in
  with_mode (if lba + n <=? ch_size c drv then PioOut drv lba (Z.to_nat n) [] else Failed) c.

Definition command (v : Z) (c : channel) : channel :=
  if v =? ATA_CMD_READ_PIO then start_in (address28 c) (count28 c) c
  else if v =? ATA_CMD_READ_PIO_EXT then start_in (address48 c) (count48 c) c
  else if v =? ATA_CMD_WRITE_PIO then start_out (address28 c) (count28 c) c
  else if v =? ATA_CMD_WRITE_PIO_EXT then start_out (address48 c) (count48 c) c
  else if v =? ATA_CMD_CACHE_FLUSH then with_mode Idle c
  else c.

Definition reg_out (r v : Z) (c : channel) : channel :=
  if r =? ATA_REG_SECCOUNT then
    Channel (reg_write v (r_count c)) (r_low c) (r_mid c) (r_high c) (r_dev c) (ch_mode c) (ch_size c) (ch_disk c)
  else if r =? ATA_REG_LBA_LOW then
    Channel (r_count c) (reg_write v (r_low c)) (r_mid c) (r_high c) (r_dev c) (ch_mode c) (ch_size c) (ch_disk c)
  else if r =? ATA_REG_LBA_MID then
    Channel (r_count c) (r_low c) (reg_write v (r_mid c)) (r_high c) (r_dev c) (ch_mode c) (ch_size c) (ch_disk c)
  else if r =? ATA_REG_LBA_HIGH then
    Channel (r_count c) (r_low c) (r_mid c) (reg_write v (r_high c)) (r_dev c) (ch_mode c) (ch_size c) (ch_disk c)
  else if r =? ATA_REG_HDDEVSEL then
    Channel (r_count c) (r_low c) (r_mid c) (r_high c) v (ch_mode c) (ch_size c) (ch_disk c)
  else if r =? ATA_REG_COMMAND then command v c
  else c.

Definition put_sector (drv lba : Z) (ws : list Z) (disk : Z -> Z -> list Z) : Z -> Z -> list Z :=
  upd disk drv (upd (disk drv) lba ws).

(** A word written to the data port; the 256th stores the sector. *)
Definition data_out (x : Z) (c : channel) : channel :=
  match ch_mode c with
  | PioOut drv lba (S n) ws =>
      let ws := ws ++ [x] in
      if (length ws =? 256)%nat then
        with_mode (match n with O => Idle | _ => PioOut drv (lba + 1) n [] end)
          (with_disk (put_sector drv lba ws (ch_disk c)) c)
      else with_mode (PioOut drv lba (S n) ws) c
  | _ => c
  end.

Definition data_ready (m : transfer) : bool :=
  match m with PioIn (_ :: _) | PioOut _ _ (S _) _ => true | _ => false end.

(** At a sector boundary the device may be busy again. *)
Definition at_boundary (m : transfer) : bool :=
  match m with
  | PioIn ws => (length ws mod 256 =? 0)%nat
  | PioOut _ _ _ [] => true
  | PioOut _ _ _ _ => false
  | _ => true
  end.

(** What the driver relies on: [chan w b] is the state of the channel with
    command registers at [b], and [busy w b] how often the status register
    still shows BSY.  A register written while the device is busy may be
    taken or ignored ([al_out_busy]).  Two laws are about time: the device is
    busy for fewer polls than the driver's loops make ([al_busy]), and it shows
    neither DRQ nor ERR while it is busy ([al_quiet]).  The PIO protocols have
    the device clear DRQ when it sets BSY and ERR when it takes a command, but
    the description of the status register gives the other bits no meaning
    while BSY is set; [ata_wait_drq] does not look at BSY, so it needs the law
    ([wait_drq_ignores_bsy]). *)
Record ata_laws {W} `{PortIO W} (chan : W -> Z -> channel) (busy : W -> Z -> nat) : Prop := {
  al_busy w b : (busy w b < ATA_POLLS)%nat;
  al_wait w b : chan (io_wait w) b = chan w b /\ busy (io_wait w) b = busy w b;
  al_ctrl w b c : c = ATA_PRIMARY_CTRL \/ c = ATA_SECONDARY_CTRL ->
    chan (inb c w).2 b = chan w b /\ (busy w b = 0%nat -> busy (inb c w).2 b = 0%nat);
  al_status w b : b = ATA_PRIMARY_BASE \/ b = ATA_SECONDARY_BASE ->
    let '(st, w') := inb (b + ATA_REG_STATUS) w in
    (forall b', chan w' b' = chan w b') /\ busy w' b = pred (busy w b) /\
    match busy w b with
    | O => st .& ATA_SR_BSY = 0 /\ (st .& ATA_SR_DRQ =? 0) = negb (data_ready (ch_mode (chan w b))) /\
           ((st .& ATA_SR_ERR =? 0) = false <-> ch_mode (chan w b) = Failed)
    | S _ => st .& ATA_SR_BSY <> 0
    end;
  al_quiet w b : b = ATA_PRIMARY_BASE \/ b = ATA_SECONDARY_BASE -> busy w b <> 0%nat ->
    (inb (b + ATA_REG_STATUS) w).1 .& ATA_SR_DRQ = 0 /\ (inb (b + ATA_REG_STATUS) w).1 .& ATA_SR_ERR = 0;
  al_out w b r v : b = ATA_PRIMARY_BASE \/ b = ATA_SECONDARY_BASE -> 1 <= r <= 7 -> busy w b = 0%nat ->
    let w' := outb (b + r) v w in
    chan w' b = reg_out r v (chan w b) /\ (forall b', b' <> b -> chan w' b' = chan w b') /\
    (r <> ATA_REG_COMMAND -> busy w' b = 0%nat);
  al_out_busy w b r v : b = ATA_PRIMARY_BASE \/ b = ATA_SECONDARY_BASE -> 1 <= r <= 7 ->
    let w' := outb (b + r) v w in
    (chan w' b = chan w b \/ chan w' b = reg_out r v (chan w b)) /\ forall b', b' <> b -> chan w' b' = chan w b';
  al_in w b x xs : b = ATA_PRIMARY_BASE \/ b = ATA_SECONDARY_BASE -> busy w b = 0%nat ->
    ch_mode (chan w b) = PioIn (x :: xs) ->
    let '(y, w') := inw (b + ATA_REG_DATA) w in
    y = x /\ chan w' b = with_mode (PioIn xs) (chan w b) /\ (forall b', b' <> b -> chan w' b' = chan w b') /\
    (at_boundary (PioIn xs) = false -> busy w' b = 0%nat);
  al_outw w b x : b = ATA_PRIMARY_BASE \/ b = ATA_SECONDARY_BASE -> busy w b = 0%nat ->
    let w' := outw (b + ATA_REG_DATA) x w in
    chan w' b = data_out x (chan w b) /\ (forall b', b' <> b -> chan w' b' = chan w b') /\
    (at_boundary (ch_mode (data_out x (chan w b))) = false -> busy w' b = 0%nat)
}.

(** ** Bytes of an address *)

Lemma byte_at x k : 0 <= k -> u8 (Z.shiftr x k .& 0xFF) = (x / 2 ^ k) mod 256.
Proof.
  intros Hk. unfold u8. change 0xFF with (Z.ones 8). rewrite Z.land_ones, Z.shiftr_div_pow2 by lia.
  by rewrite Z.mod_mod.
Qed.

Lemma byte_at_0 x : u8 (x .& 0xFF) = x mod 256.
Proof. unfold u8. change 0xFF with (Z.ones 8). rewrite Z.land_ones by lia. by rewrite Z.mod_mod. Qed.

Lemma div_pow_bytes x k : 0 <= k -> x / (2 ^ k) / 256 = x / 2 ^ (k + 8).
Proof. intros Hk. rewrite Z.pow_add_r, Z.div_div by lia. done. Qed.

Lemma bytes_sum28 x :
  0 <= x < 2 ^ 28 ->
  x mod 256 + (x / 2 ^ 8) mod 256 * 2 ^ 8 + (x / 2 ^ 16) mod 256 * 2 ^ 16 + (x / 2 ^ 24) mod 16 * 2 ^ 24 = x.
Proof.
  intros Hx. pose proof (div_pow_bytes x 8 ltac:(lia)) as E1. pose proof (div_pow_bytes x 16 ltac:(lia)) as E2.
  change (8 + 8) with 16 in E1. change (16 + 8) with 24 in E2. rewrite <- E2, <- E1. change (2 ^ 8) with 256 in *.
  change (2 ^ 16) with 65536. change (2 ^ 24) with 16777216. change (2 ^ 28) with 268435456 in *.
  Z.to_euclidean_division_equations. lia.
Qed.

Lemma bytes_sum48 x :
  0 <= x < 2 ^ 48 ->
  x mod 256 + (x / 2 ^ 8) mod 256 * 2 ^ 8 + (x / 2 ^ 16) mod 256 * 2 ^ 16 + (x / 2 ^ 24) mod 256 * 2 ^ 24 +
  (x / 2 ^ 32) mod 256 * 2 ^ 32 + (x / 2 ^ 40) mod 256 * 2 ^ 40 = x.
Proof.
  intros Hx.
  pose proof (div_pow_bytes x 8 ltac:(lia)) as E1. pose proof (div_pow_bytes x 16 ltac:(lia)) as E2.
  pose proof (div_pow_bytes x 24 ltac:(lia)) as E3. pose proof (div_pow_bytes x 32 ltac:(lia)) as E4.
  change (8 + 8) with 16 in E1. change (16 + 8) with 24 in E2.
  change (24 + 8) with 32 in E3. change (32 + 8) with 40 in E4. rewrite <- E4, <- E3, <- E2, <- E1. change (2 ^ 8) with 256 in *.
  assert (x / 256 / 256 / 256 / 256 / 256 < 256) as Hb.
  { rewrite !Z.div_div by lia. apply Z.div_lt_upper_bound; lia. }
  change (2 ^ 16) with (256 * 256). change (2 ^ 24) with (256 * (256 * 256)).
  change (2 ^ 32) with (256 * (256 * (256 * 256))). change (2 ^ 40) with (256 * (256 * (256 * (256 * 256)))).
  pose proof (Z.div_mod x 256 ltac:(lia)). set (x1 := x / 256) in *.
  pose proof (Z.div_mod x1 256 ltac:(lia)). set (x2 := x1 / 256) in *.
  pose proof (Z.div_mod x2 256 ltac:(lia)). set (x3 := x2 / 256) in *.
  pose proof (Z.div_mod x3 256 ltac:(lia)). set (x4 := x3 / 256) in *.
  pose proof (Z.div_mod x4 256 ltac:(lia)). set (x5 := x4 / 256) in *.
  rewrite (Z.mod_small x5) by (split; [repeat apply Z.div_pos; lia|lia]). lia.
Qed.

Lemma dev_byte48 k : k = 0 \/ k = 1 -> Z.shiftr (u8 (0x40 .| Z.shiftl k 4)) 4 .& 1 = k.
Proof. by intros [->| ->]. Qed.

Lemma dev_byte28 k x :
  k = 0 \/ k = 1 -> 0 <= x < 16 ->
  Z.shiftr (u8 (0xE0 .| Z.shiftl k 4 .| x)) 4 .& 1 = k /\ u8 (0xE0 .| Z.shiftl k 4 .| x) .& 0xF = x.
Proof.
  intros Hk Hx. assert (x ∈ seqZ 0 16) as Hin by (rewrite elem_of_seqZ; lia).
  revert x Hin Hx. apply (proj1 (Forall_forall (fun x => 0 <= x < 16 -> _ /\ _) _)).
  destruct Hk as [->| ->]; repeat (constructor; [by vm_compute|]); constructor.
Qed.

Lemma count_byte28 n : 0 < n <= 256 -> (if u8 n =? 0 then 256 else u8 n) = n.
Proof.
  intros Hn. unfold u8. destruct (decide (n = 256)) as [->|]; [done|]. rewrite Z.mod_small by lia.
  case_if; bools; lia.
Qed.

Lemma count_byte48 n :
  0 < n <= 256 ->
  (let k := n mod 256 + (n / 2 ^ 8) mod 256 * 2 ^ 8 in if k =? 0 then 65536 else k) = n.
Proof.
  intros Hn. destruct (decide (n = 256)) as [->|]; [done|].
  rewrite (Z.div_small n), Z.mod_small by lia. cbv zeta. rewrite Zmod_0_l. case_if; bools; lia.
Qed.

(** ** Correctness against the device *)

Section correct.
Context {W : Type} `{PortIO W} (chan : W -> Z -> channel) (busy : W -> Z -> nat).
Hypothesis laws : ata_laws chan busy.
Implicit Types (d : ata_drive) (w : W).

(** A drive of the table: its ports and its position on the channel. *)
Record drive_ok d : Prop := {
  dr_base : base d = ATA_PRIMARY_BASE \/ base d = ATA_SECONDARY_BASE;
  dr_ctrl : ctrl d = ATA_PRIMARY_CTRL \/ ctrl d = ATA_SECONDARY_CTRL;
  dr_drive : drive d = 0 \/ drive d = 1;
  dr_present : present d = true
}.

(** Nothing but polling happened; the device is ready. *)
Definition settled (b : Z) w w' : Prop := (forall b', chan w' b' = chan w b') /\ busy w' b = 0%nat.

Lemma poll_ready_spec d n w :
  drive_ok d -> (busy w (base d) < n)%nat -> exists w', poll_ready n d w = (0, w') /\ settled (base d) w w'.
Proof.
  intros Hd. revert w. induction n as [|n IH]; intros w Hn; [lia|]. cbn [poll_ready].
  pose proof (al_status _ _ laws w (base d) (dr_base d Hd)) as Hs.
  destruct (inb _ w) as [st w1]. destruct Hs as (Hc & Hb & Hs).
  destruct (busy w (base d)) as [|k] eqn:Eb.
  - destruct Hs as (-> & _). exists w1. by rewrite Z.eqb_refl.
  - rewrite (proj2 (Z.eqb_neq _ _) Hs).
    destruct (al_wait _ _ laws w1 (base d)) as [_ Hw].
    destruct (IH (io_wait w1)) as (w' & -> & Hc' & Hb'); [simpl in Hb; lia|]. exists w'. split; [done|].
    split; [|done]. intros b'. destruct (al_wait _ _ laws w1 b') as [E _]. by rewrite Hc', E, Hc.
Qed.

Lemma wait_ready_spec d w :
  drive_ok d -> exists w', ata_wait_ready d w = (0, w') /\ settled (base d) w w'.
Proof. intros Hd. apply poll_ready_spec; [done|]. apply (al_busy _ _ laws). Qed.

Lemma poll_drq_spec d n w :
  drive_ok d -> (busy w (base d) < n)%nat ->
  let m := ch_mode (chan w (base d)) in
  (data_ready m = true -> exists w', poll_drq n d w = (0, w') /\ settled (base d) w w') /\
  (m = Failed -> exists w', poll_drq n d w = (-1, w') /\ settled (base d) w w').
Proof.
  intros Hd. revert w. induction n as [|n IH]; intros w Hn m; [lia|]. cbn [poll_drq].
  pose proof (al_status _ _ laws w (base d) (dr_base d Hd)) as Hs.
  pose proof (al_quiet _ _ laws w (base d) (dr_base d Hd)) as Hquiet.
  destruct (inb _ w) as [st w1]. destruct Hs as (Hc & Hb & Hs).
  destruct (busy w (base d)) as [|k] eqn:Eb.
  - destruct Hs as (_ & Hq & He). fold m in Hq, He. split; intros Hm.
    + rewrite Hm in Hq. destruct (st .& ATA_SR_ERR =? 0) eqn:Ee; [|by rewrite (proj1 He eq_refl) in Hm].
      rewrite Hq. by exists w1.
    + rewrite (proj2 He Hm). by exists w1.
  - destruct Hquiet as [Hq He]; [lia|]. cbn [fst] in Hq, He. rewrite Hq, He, Z.eqb_refl. simpl negb. cbv iota.
    destruct (al_wait _ _ laws w1 (base d)) as [Ew Hw].
    assert (forall w', settled (base d) (io_wait w1) w' -> settled (base d) w w') as Hset.
    { intros w' [Hc' Hb']. split; [|done]. intros b'. destruct (al_wait _ _ laws w1 b') as [E _].
      by rewrite Hc', E, Hc. }
    destruct (IH (io_wait w1) ltac:(simpl in Hb; lia)) as [I1 I2]. rewrite Ew, Hc in I1, I2.
    split; intros Hm; [destruct (I1 Hm) as (w' & -> & ?)|destruct (I2 Hm) as (w' & -> & ?)]; eauto.
Qed.

(** *** The task file *)

Definition outs d (l : list (Z * Z)) w : W :=
  fold_left (fun w rv => outb (base d + rv.1) rv.2 w) l w.
Definition reg_outs (l : list (Z * Z)) (c : channel) : channel :=
  fold_left (fun c rv => reg_out rv.1 rv.2 c) l c.

Lemma outs_spec d l w :
  drive_ok d -> Forall (fun rv => 1 <= rv.1 < 7) l -> busy w (base d) = 0%nat ->
  busy (outs d l w) (base d) = 0%nat /\ chan (outs d l w) (base d) = reg_outs l (chan w (base d)) /\
  forall b, b <> base d -> chan (outs d l w) b = chan w b.
Proof.
  intros Hd Hl. revert w. induction Hl as [|rv l Hr Hl IH]; intros w Hb; [done|]. simpl.
  destruct (al_out _ _ laws w (base d) rv.1 rv.2 (dr_base d Hd) ltac:(lia) Hb) as (Hc & Ho & Hb').
  destruct (IH (outb (base d + rv.1) rv.2 w)) as (I1 & I2 & I3).
  { apply Hb'. unfold ATA_REG_COMMAND. lia. }
  rewrite I2, Hc. split; [done|]. split; [done|]. intros b Hne. by rewrite I3, Ho.
Qed.

(** The registers a transfer writes before its command. *)
Definition setup_regs d (lba count : Z) : list (Z * Z) :=
  if lba48 d then
    [(6, u8 (0x40 .| Z.shiftl (drive d) 4)); (2, u8 (Z.shiftr count 8 .& 0xFF));
     (3, u8 (Z.shiftr lba 24 .& 0xFF)); (4, u8 (Z.shiftr lba 32 .& 0xFF)); (5, u8 (Z.shiftr lba 40 .& 0xFF));
     (2, u8 (count .& 0xFF)); (3, u8 (lba .& 0xFF)); (4, u8 (Z.shiftr lba 8 .& 0xFF));
     (5, u8 (Z.shiftr lba 16 .& 0xFF))]
  else
    [(6, u8 (0xE0 .| Z.shiftl (drive d) 4 .| (Z.shiftr lba 24 .& 0x0F))); (2, u8 count); (3, u8 (lba .& 0xFF));
     (4, u8 (Z.shiftr lba 8 .& 0xFF)); (5, u8 (Z.shiftr lba 16 .& 0xFF))].

Lemma setup_outs d lba count cmd ext w :
  ata_setup d lba count cmd ext w =
  outb (base d + ATA_REG_COMMAND) (if lba48 d then ext else cmd) (outs d (setup_regs d lba count) w).
Proof. unfold ata_setup, setup_regs, outs. by destruct (lba48 d). Qed.

(** The largest address a drive takes. *)
Definition lba_limit d : Z := if lba48 d then 2 ^ 48 else 2 ^ 28.

(** The device decodes the registers to the drive, the address and the count
    that the driver encoded. *)
Lemma setup_regs_decode d lba count c :
  drive_ok d -> 0 <= lba < lba_limit d -> 0 < count <= 256 ->
  let c' := reg_outs (setup_regs d lba count) c in
  selected c' = drive d /\ ch_disk c' = ch_disk c /\ ch_size c' = ch_size c /\
  if lba48 d then address48 c' = lba /\ count48 c' = count else address28 c' = lba /\ count28 c' = count.
Proof.
  intros Hd Hl Hn. unfold lba_limit in Hl. unfold setup_regs. destruct (lba48 d).
  - unfold selected, address48, count48. cbn.
    rewrite dev_byte48, !byte_at, !byte_at_0 by (lia || apply (dr_drive d Hd)).
    split; [done|]. split; [done|]. split; [done|]. split; [by apply bytes_sum48|by apply count_byte48].
  - assert (Z.shiftr lba 24 .& 0xF = (lba / 2 ^ 24) mod 16) as Hx.
    { change 0xF with (Z.ones 4). by rewrite Z.land_ones, Z.shiftr_div_pow2 by lia. }
    pose proof (Z.mod_pos_bound (lba / 2 ^ 24) 16 ltac:(lia)) as Hb.
    destruct (dev_byte28 (drive d) ((lba / 2 ^ 24) mod 16) (dr_drive d Hd) Hb) as [E1 E2].
    rewrite <- Hx in E1, E2.
    unfold selected, address28, count28. cbn [reg_outs fold_left]. cbn -[u8 Z.lor Z.land Z.shiftl Z.shiftr Z.mul].
    split; [exact E1|]. split; [done|]. split; [done|]. split; [|by apply count_byte28].
    rewrite E2, Hx, !byte_at, !byte_at_0 by lia. by apply bytes_sum28.
Qed.

(** *** Transfers *)

(** The channel at [b] becomes [c]; the other channel is untouched. *)
Definition moved (b : Z) w w' (c : channel) : Prop :=
  chan w' b = c /\ forall b', b' <> b -> chan w' b' = chan w b'.

Lemma moved_trans b w1 w2 w3 c2 c3 : moved b w1 w2 c2 -> moved b w2 w3 c3 -> moved b w1 w3 c3.
Proof. intros [_ H1] [H2 H3]. split; [done|]. intros b' Hne. by rewrite H3, H1. Qed.

Lemma settled_moved b w w' : settled b w w' -> moved b w w' (chan w b).
Proof. intros [Hc _]. by split. Qed.

Lemma with_mode_id c : with_mode (ch_mode c) c = c.
Proof. by destruct c. Qed.

Lemma delay_spec d w : drive_ok d -> moved (base d) w (ata_delay400 d w) (chan w (base d)).
Proof.
  intros Hd. unfold ata_delay400. generalize 4%nat. intros n. revert w.
  induction n as [|n IH]; intros w; [by split|]. cbn [read_ctrl].
  assert (forall b, chan (inb (ctrl d) w).2 b = chan w b) as E.
  { intros b. by destruct (al_ctrl _ _ laws w b _ (dr_ctrl d Hd)). }
  destruct (IH (inb (ctrl d) w).2) as [I1 I2]. split; [by rewrite I1, E|]. intros b Hb. by rewrite I2, E.
Qed.

Lemma drq_spec d w :
  drive_ok d ->
  let m := ch_mode (chan w (base d)) in
  (data_ready m = true -> exists w', ata_wait_drq d (ata_delay400 d w) = (0, w') /\
     moved (base d) w w' (chan w (base d)) /\ busy w' (base d) = 0%nat) /\
  (m = Failed -> exists w', ata_wait_drq d (ata_delay400 d w) = (-1, w') /\ moved (base d) w w' (chan w (base d))).
Proof.
  intros Hd m. pose proof (delay_spec d w Hd) as Hm. destruct (Hm) as [E _].
  destruct (poll_drq_spec d ATA_POLLS (ata_delay400 d w) Hd (al_busy _ _ laws _ _)) as [I1 I2].
  fold (ata_wait_drq d (ata_delay400 d w)) in I1, I2. rewrite E in I1, I2. split; intros Hr.
  - destruct (I1 Hr) as (w' & -> & Hs). exists w'. split; [done|]. split; [|by apply Hs].
    eapply moved_trans; [done|]. rewrite <- E. by apply settled_moved.
  - destruct (I2 Hr) as (w' & -> & Hs). exists w'. split; [done|].
    eapply moved_trans; [done|]. rewrite <- E. by apply settled_moved.
Qed.

Lemma read_words_spec d xs ys w :
  drive_ok d -> (length xs <= 256)%nat -> (length ys mod 256 = 0)%nat ->
  (xs <> [] -> busy w (base d) = 0%nat) -> ch_mode (chan w (base d)) = PioIn (xs ++ ys) ->
  exists w', read_words (length xs) d w = (xs, w') /\
    moved (base d) w w' (with_mode (PioIn ys) (chan w (base d))).
Proof.
  intros Hd. revert w. induction xs as [|x xs IH]; intros w Hl Hy Hb Hm.
  - exists w. split; [done|]. split; [|done]. simpl in Hm. by rewrite <- Hm, with_mode_id.
  - cbn [read_words length]. simpl in Hm, Hl.
    pose proof (al_in _ _ laws w (base d) x (xs ++ ys) (dr_base d Hd) (Hb ltac:(done)) Hm) as Hi.
    destruct (inw _ w) as [y w1]. destruct Hi as (-> & Hc & Ho & Hb1).
    destruct (IH w1) as (w' & -> & Hmv); [lia|done| |by rewrite Hc|].
    + intros Hne. apply Hb1. unfold at_boundary. apply Nat.eqb_neq. rewrite length_app.
      assert (0 < length xs)%nat by (destruct xs; [done|simpl; lia]).
      rewrite Nat.Div0.add_mod, Hy, Nat.add_0_r, Nat.Div0.mod_mod, Nat.mod_small; lia.
    + exists w'. split; [done|]. rewrite Hc in Hmv. eapply moved_trans; [|exact Hmv]. by split.
Qed.

(** Every sector has 256 words. *)
Definition medium_ok (disk : Z -> Z -> list Z) : Prop := forall drv lba, length (disk drv lba) = 256%nat.

Lemma length_sector_words disk drv lba n : medium_ok disk -> length (sector_words (disk drv) lba n) = (256 * n)%nat.
Proof.
  intros Hd. revert lba. induction n as [|n IH]; intros lba; [done|]. cbn [sector_words].
  rewrite length_app, Hd, IH. lia.
Qed.

Lemma read_sectors_spec d n w disk lba :
  drive_ok d -> medium_ok disk ->
  ch_mode (chan w (base d)) = PioIn (sector_words (disk (drive d)) lba n) ->
  exists w', read_sectors n d w = (0, sector_words (disk (drive d)) lba n, w') /\
    moved (base d) w w' (with_mode (PioIn []) (chan w (base d))).
Proof.
  intros Hd Hok. revert w lba. induction n as [|n IH]; intros w lba Hm.
  - exists w. split; [done|]. split; [|done]. simpl in Hm. by rewrite <- Hm, with_mode_id.
  - cbn [read_sectors]. destruct (drq_spec d w Hd) as [Hdrq _]. rewrite Hm in Hdrq. cbn [sector_words] in *.
    set (xs := disk (drive d) lba) in *. assert (length xs = 256%nat) as Hx by apply Hok. clearbody xs.
    destruct Hdrq as (w1 & -> & Hm1 & Hb1); [destruct xs; [simpl in Hx; lia|done]|]. destruct Hm1 as [Ec Eo]. change (0 <? 0) with false. cbv iota.
    destruct (read_words_spec d xs (sector_words (disk (drive d)) (lba + 1) n) w1) as (w2 & Hrd & Hmv);
      [done|lia| |done|by rewrite Ec|].
    { rewrite length_sector_words by done. rewrite Nat.mul_comm. apply Nat.Div0.mod_mul. }
    rewrite Hx in Hrd. rewrite Hrd. destruct (Hmv) as [E2 _].
    destruct (IH w2 (lba + 1)) as (w3 & -> & Hm3); [by rewrite E2|]. exists w3. split; [done|].
    rewrite E2, Ec in Hm3. eapply moved_trans; [exact (conj Ec Eo)|]. eapply moved_trans; [exact Hmv|exact Hm3].
Qed.

(** The medium after [n] sectors of [buf] are stored from [lba] on. *)
Fixpoint put_sectors (drv lba : Z) (n : nat) (buf : list Z) (disk : Z -> Z -> list Z) : Z -> Z -> list Z :=
  match n with
  | O => disk
  | S n => put_sectors drv (lba + 1) n (drop 256 buf) (put_sector drv lba (take 256 buf) disk)
  end.

Definition next_out (drv lba : Z) (n : nat) : transfer :=
  match n with O => Idle | _ => PioOut drv (lba + 1) n [] end.

Lemma write_words_spec d drv lba n ws acc w :
  drive_ok d -> ws <> [] -> (length acc + length ws = 256)%nat -> busy w (base d) = 0%nat ->
  ch_mode (chan w (base d)) = PioOut drv lba (S n) acc ->
  moved (base d) w (write_words ws d w)
    (with_mode (next_out drv lba n)
       (with_disk (put_sector drv lba (acc ++ ws) (ch_disk (chan w (base d)))) (chan w (base d)))).
Proof.
  intros Hd. revert acc w. induction ws as [|x ws IH]; intros acc w Hne Hl Hb Hm; [done|]. cbn [write_words].
  destruct (al_outw _ _ laws w (base d) x (dr_base d Hd) Hb) as (Hc & Ho & Hb').
  set (w1 := outw _ x w) in *. unfold data_out in Hc, Hb'. rewrite Hm in Hc, Hb'.
  simpl in Hl. rewrite length_app in Hc, Hb'. simpl length in Hc, Hb'.
  destruct ws as [|y ws].
  - simpl in Hl. rewrite (proj2 (Nat.eqb_eq _ _)) in Hc by lia. cbn [write_words]. by split.
  - simpl in Hl. rewrite (proj2 (Nat.eqb_neq _ _)) in Hc, Hb' by lia.
    specialize (IH (acc ++ [x]) w1 ltac:(done)). rewrite Hc in IH. simpl ch_mode in IH. simpl ch_disk in IH.
    eapply moved_trans; [exact (conj Hc Ho)|]. rewrite <- app_assoc in IH. apply IH; [rewrite length_app; simpl; lia| |done].
    apply Hb'. simpl. by destruct acc.
Qed.

Lemma write_sectors_spec d drv n lba buf w :
  drive_ok d -> length buf = (256 * n)%nat ->
  ch_mode (chan w (base d)) = match n with O => Idle | _ => PioOut drv lba n [] end ->
  exists w', write_sectors n buf d w = (0, w') /\
    moved (base d) w w'
      (with_mode Idle (with_disk (put_sectors drv lba n buf (ch_disk (chan w (base d)))) (chan w (base d)))).
Proof.
  intros Hd. revert lba buf w. induction n as [|n IH]; intros lba buf w Hl Hm.
  - exists w. split; [done|]. split; [|done]. simpl. rewrite <- Hm. by destruct (chan w (base d)).
  - cbn [write_sectors put_sectors]. destruct (drq_spec d w Hd) as [Hdrq _]. rewrite Hm in Hdrq.
    destruct Hdrq as (w1 & -> & [Ec Eo] & Hb1); [done|]. change (0 <? 0) with false. cbv iota.
    assert (length (take 256 buf) = 256)%nat as Ht by (rewrite length_take; lia).
    pose proof (write_words_spec d drv lba n (take 256 buf) [] w1 Hd) as Hw. rewrite Ec in Hw.
    specialize (Hw ltac:(by destruct (take 256 buf)) Ht Hb1 Hm). simpl app in Hw.
    set (w2 := write_words _ d w1) in *. destruct (Hw) as [E2 _].
    destruct (IH (lba + 1) (drop 256 buf) w2) as (w3 & -> & Hm3); [rewrite length_drop; lia| |].
    { rewrite E2. by destruct n. }
    exists w3. split; [done|]. rewrite E2 in Hm3. eapply moved_trans; [exact (conj Ec Eo)|].
    eapply moved_trans; [exact Hw|exact Hm3].
Qed.

(** A transfer of [count] sectors at [lba] that the drive can address. *)
Definition transfer_ok d (lba count : Z) : Prop :=
  0 <= lba /\ lba + count <= lba_limit d /\ 0 < count <= 256.

(** What the command leaves in the channel. *)
Lemma setup_spec d lba count cmd ext w :
  drive_ok d -> transfer_ok d lba count -> busy w (base d) = 0%nat ->
  exists c, selected c = drive d /\ ch_disk c = ch_disk (chan w (base d)) /\
    ch_size c = ch_size (chan w (base d)) /\
    (if lba48 d then address48 c = lba /\ count48 c = count else address28 c = lba /\ count28 c = count) /\
    moved (base d) w (ata_setup d lba count cmd ext w) (command (if lba48 d then ext else cmd) c).
Proof.
  intros Hd (Hl & Hl' & Hn) Hb. rewrite setup_outs.
  destruct (outs_spec d (setup_regs d lba count) w Hd) as (Hb1 & Hc1 & Ho1); [|done|].
  { unfold setup_regs. destruct (lba48 d); repeat (apply Forall_cons_2; [simpl; lia|]); apply Forall_nil_2. }
  set (w1 := outs _ _ w) in *. exists (chan w1 (base d)). rewrite Hc1.
  destruct (setup_regs_decode d lba count (chan w (base d)) Hd) as (E1 & E2 & E3 & E4); [lia|done|].
  split; [done|]. split; [done|]. split; [done|]. split; [done|].
  destruct (al_out _ _ laws w1 (base d) ATA_REG_COMMAND (if lba48 d then ext else cmd) (dr_base d Hd))
    as (Hc2 & Ho2 & _); [by split|done|].
  split; [by rewrite Hc2, Hc1|]. intros b Hne. by rewrite Ho2, Ho1.
Qed.

Lemma start_in_fits drv lba n c :
  selected c = drv -> lba + n <= ch_size c drv ->
  start_in lba n c = with_mode (PioIn (sector_words (ch_disk c drv) lba (Z.to_nat n))) c.
Proof. intros <- Hl. unfold start_in. by rewrite (proj2 (Z.leb_le _ _) Hl). Qed.
Lemma start_out_fits drv lba n c :
  selected c = drv -> lba + n <= ch_size c drv ->
  start_out lba n c = with_mode (PioOut drv lba (Z.to_nat n) []) c.
Proof. intros <- Hl. unfold start_out. by rewrite (proj2 (Z.leb_le _ _) Hl). Qed.
Lemma start_beyond lba n c :
  ch_size c (selected c) < lba + n ->
  start_in lba n c = with_mode Failed c /\ start_out lba n c = with_mode Failed c.
Proof. intros Hl. unfold start_in, start_out. by rewrite (proj2 (Z.leb_gt _ _) Hl). Qed.

(** The contents and the sizes of the four drives. *)
Definition media w w' (disk : Z -> Z -> list Z) (b : Z) : Prop :=
  (forall drv lba, ch_disk (chan w' b) drv lba = disk drv lba) /\ ch_size (chan w' b) = ch_size (chan w b) /\
  forall b', b' <> b -> chan w' b' = chan w b'.

Lemma ata_read_spec d lba count w :
  drive_ok d -> transfer_ok d lba count -> medium_ok (ch_disk (chan w (base d))) ->
  exists w', media w w' (ch_disk (chan w (base d))) (base d) /\
  if lba + count <=? ch_size (chan w (base d)) (drive d)
  then ata_read d lba count w = (0, sector_words (ch_disk (chan w (base d)) (drive d)) lba (Z.to_nat count), w')
  else ata_read d lba count w = (-1, [], w').
Proof.
  intros Hd Ht Hok. unfold ata_read. rewrite (dr_present d Hd).
  destruct (Ht) as (_ & _ & Hn). rewrite (proj2 (Z.eqb_neq count 0)), (proj2 (Z.ltb_ge 256 count)) by lia.
  simpl. destruct (wait_ready_spec d w Hd) as (w1 & -> & Hc1 & Hb1).
  destruct (setup_spec d lba count ATA_CMD_READ_PIO ATA_CMD_READ_PIO_EXT w1 Hd Ht Hb1)
    as (c & Es & Ed & Ez & Ea & [Ec Eo]).
  set (w2 := ata_setup _ _ _ _ _ w1) in *. rewrite Hc1 in Ed, Ez. rewrite <- Ed, <- Ez in *.
  assert (command (if lba48 d then ATA_CMD_READ_PIO_EXT else ATA_CMD_READ_PIO) c = start_in lba count c) as E.
  { destruct (lba48 d); destruct Ea as [<- <-]; done. }
  rewrite E in Ec. clear E Ea. destruct (lba + count <=? ch_size c (drive d)) eqn:El; bools.
  - rewrite (start_in_fits (drive d)) in Ec by done.
    destruct (read_sectors_spec d (Z.to_nat count) w2 (ch_disk c) lba Hd Hok) as (w3 & -> & [E3 O3]);
      [by rewrite Ec|].
    exists w3. split; [|done]. rewrite Ec in E3. split; [by rewrite E3|]. split; [by rewrite E3|].
    intros b Hb. by rewrite O3, Eo, Hc1.
  - destruct (start_beyond lba count c) as [E _]; [rewrite Es; lia|]. rewrite E in Ec.
    destruct (Z.to_nat count) as [|n] eqn:En; [lia|]. cbn [read_sectors].
    destruct (drq_spec d w2 Hd) as [_ Hf]. rewrite Ec in Hf. destruct (Hf eq_refl) as (w3 & -> & [E3 O3]).
    exists w3. split; [|done]. split; [by rewrite E3|]. split; [by rewrite E3|].
    intros b Hb. by rewrite O3, Eo, Hc1.
Qed.

(** The flush after a write, whether or not the device is still busy. *)
Lemma write_flush_spec d w :
  drive_ok d -> exists w', ata_wait_ready d (outb (base d + ATA_REG_COMMAND) ATA_CMD_CACHE_FLUSH w) = (0, w') /\
    media w w' (ch_disk (chan w (base d))) (base d).
Proof.
  intros Hd. set (w1 := outb _ _ w). destruct (wait_ready_spec d w1 Hd) as (w2 & -> & Hc & _).
  destruct (al_out_busy _ _ laws w (base d) ATA_REG_COMMAND ATA_CMD_CACHE_FLUSH (dr_base d Hd)) as [Hor Ho]; [by split|].
  fold w1 in Hor, Ho. exists w2. split; [done|]. split; [|split].
  - intros drv k. rewrite Hc. by destruct Hor as [->| ->].
  - rewrite Hc. by destruct Hor as [->| ->].
  - intros b Hb. by rewrite Hc, Ho.
Qed.

Lemma ata_write_spec d lba count buf w :
  drive_ok d -> transfer_ok d lba count -> length buf = (256 * Z.to_nat count)%nat ->
  exists w' rc, ata_write d lba count buf w = (rc, w') /\
  if lba + count <=? ch_size (chan w (base d)) (drive d)
  then rc = 0 /\ media w w' (put_sectors (drive d) lba (Z.to_nat count) buf (ch_disk (chan w (base d)))) (base d)
  else rc = -1 /\ media w w' (ch_disk (chan w (base d))) (base d).
Proof.
  intros Hd Ht Hlen. unfold ata_write. rewrite (dr_present d Hd).
  destruct (Ht) as (_ & _ & Hn). rewrite (proj2 (Z.eqb_neq count 0)), (proj2 (Z.ltb_ge 256 count)) by lia.
  simpl. destruct (wait_ready_spec d w Hd) as (w1 & -> & Hc1 & Hb1).
  destruct (setup_spec d lba count ATA_CMD_WRITE_PIO ATA_CMD_WRITE_PIO_EXT w1 Hd Ht Hb1)
    as (c & Es & Ed & Ez & Ea & [Ec Eo]).
  set (w2 := ata_setup _ _ _ _ _ w1) in *. rewrite Hc1 in Ed, Ez. unfold media. rewrite <- Ed, <- Ez in *.
  assert (command (if lba48 d then ATA_CMD_WRITE_PIO_EXT else ATA_CMD_WRITE_PIO) c = start_out lba count c) as E.
  { destruct (lba48 d); destruct Ea as [<- <-]; done. }
  rewrite E in Ec. clear E Ea. destruct (Z.to_nat count) as [|n] eqn:En; [lia|].
  destruct (lba + count <=? ch_size c (drive d)) eqn:El; bools.
  - rewrite (start_out_fits (drive d)) in Ec by done. rewrite En in Ec.
    destruct (write_sectors_spec d (drive d) (S n) lba buf w2 Hd Hlen) as (w3 & -> & [E3 O3]);
      [by rewrite Ec|].
    destruct (write_flush_spec d w3 Hd) as (w4 & Hf & Hd4 & Hs4 & Ho4). change (0 <? 0) with false. cbv iota.
    exists w4, 0. rewrite Hf. split; [done|]. split; [done|]. rewrite E3, Ec in Hd4, Hs4.
    split; [exact Hd4|]. split; [exact Hs4|]. intros b Hb. by rewrite Ho4, O3, Eo, Hc1.
  - destruct (start_beyond lba count c) as [_ E]; [rewrite Es; lia|]. rewrite E in Ec.
    cbn [write_sectors]. destruct (drq_spec d w2 Hd) as [_ Hf]. rewrite Ec in Hf.
    destruct (Hf eq_refl) as (w3 & -> & [E3 O3]). exists w3, (-1). split; [done|]. split; [done|].
    split; [by rewrite E3|]. split; [by rewrite E3|]. intros b Hb. by rewrite O3, Eo, Hc1.
Qed.
End correct.

(** *** The sectors of a write *)

Lemma put_sector_at drv lba ws disk i k :
  put_sector drv lba ws disk i k = if (i =? drv) && (k =? lba) then ws else disk i k.
Proof.
  unfold put_sector, upd. destruct (Z.eqb_spec i drv) as [->|]; [|done]. by destruct (k =? lba).
Qed.

Lemma put_sectors_at drv lba n buf disk i k :
  put_sectors drv lba n buf disk i k =
  if (i =? drv) && (lba <=? k) && (k <? lba + Z.of_nat n) then take 256 (drop (256 * Z.to_nat (k - lba)) buf)
  else disk i k.
Proof.
  revert lba buf disk. induction n as [|n IH]; intros lba buf disk.
  { simpl. case_if; [bools; lia|done]. }
  cbn [put_sectors]. rewrite IH, put_sector_at. destruct (Z.eqb_spec i drv) as [->|]; [|done]. simpl andb.
  destruct (Z.leb_spec (lba + 1) k); simpl.
  - rewrite (proj2 (Z.leb_le lba k)), (proj2 (Z.eqb_neq k lba)) by lia. simpl.
    replace (k <? lba + 1 + Z.of_nat n) with (k <? lba + Z.of_nat (S n)) by (f_equal; lia).
    case_if; [|done]. rewrite drop_drop. do 2 f_equal. bools. lia.
  - destruct (Z.eqb_spec k lba) as [->|].
    + rewrite Z.leb_refl, (proj2 (Z.ltb_lt _ _)), Z.sub_diag by lia. done.
    + rewrite (proj2 (Z.leb_gt lba k)) by lia. done.
Qed.

Lemma sector_words_put drv lba n buf disk :
  length buf = (256 * n)%nat -> sector_words (put_sectors drv lba n buf disk drv) lba n = buf.
Proof.
  intros Hl.
  assert (forall m p, (p + m = n)%nat ->
    sector_words (put_sectors drv lba n buf disk drv) (lba + Z.of_nat p) m = drop (256 * p) buf) as Hg.
  { induction m as [|m IH]; intros p Hp.
    - simpl. symmetry. apply drop_ge. nia.
    - cbn [sector_words]. replace (lba + Z.of_nat p + 1) with (lba + Z.of_nat (S p)) by lia.
      rewrite IH, put_sectors_at by lia. rewrite Z.eqb_refl, (proj2 (Z.leb_le _ _)), (proj2 (Z.ltb_lt _ _)) by lia.
      simpl andb. cbv iota. replace (Z.to_nat (lba + Z.of_nat p - lba)) with p by lia.
      replace (256 * S p)%nat with (256 * p + 256)%nat by lia. rewrite <- drop_drop. apply take_drop. }
  specialize (Hg n 0%nat ltac:(lia)). simpl Z.of_nat in Hg. rewrite Z.add_0_r in Hg. exact Hg.
Qed.

Lemma sector_words_ext f g lba n :
  (forall k, f k = g k) -> sector_words f lba n = sector_words g lba n.
Proof. intros E. revert lba. induction n as [|n IH]; intros lba; simpl; [done|]. by rewrite E, IH. Qed.

Lemma put_sectors_ok drv lba n buf disk :
  medium_ok disk -> length buf = (256 * n)%nat -> medium_ok (put_sectors drv lba n buf disk).
Proof.
  intros Hd Hl i k. rewrite put_sectors_at. case_if; [|apply Hd]. bools.
  rewrite length_take, length_drop. nia.
Qed.

(** ** Theorems *)

Section theorems.
Context {W : Type} `{PortIO W} (chan : W -> Z -> channel) (busy : W -> Z -> nat).
Hypothesis laws : ata_laws chan busy.

(** The contents of the four drives. *)
Definition sector (w : W) (b drv lba : Z) : list Z := ch_disk (chan w b) drv lba.


(** *** The drive table as a block device *)

Context (ds : list ata_drive) (size : nat -> Z).

(** Entries for different drives are on different positions. *)
Record table_ok : Prop := {
  to_drive i d : ds !! i = Some d -> present d = true -> drive_ok d;
  to_inj i j d e : ds !! i = Some d -> ds !! j = Some e -> present d = true -> present e = true ->
    base d = base e -> drive d = drive e -> i = j
}.
Hypothesis table : table_ok.

(** [&ata_drives[i]] when it is present. *)
Definition drive_at (i : Z) : option ata_drive :=
  if i <? 0 then None
  else match ds !! Z.to_nat i with
       | Some d => if present d then Some d else None
       | None => None
       end.

Lemma drive_at_Some i d :
  drive_at i = Some d -> 0 <= i /\ ds !! Z.to_nat i = Some d /\ present d = true.
Proof.
  unfold drive_at. case_if; [done|]. bools. destruct (ds !! Z.to_nat i) as [e|]; [|done].
  destruct (present e) eqn:E; [|done]. by intros [= ->].
Qed.

Definition table_ready (w : W) : Prop :=
  (forall b, medium_ok (ch_disk (chan w b))) /\
  forall i d, drive_at i = Some d -> ch_size (chan w (base d)) (drive d) = size (Z.to_nat i).

Definition table_size (i : Z) : Z :=
  match drive_at i with Some d => Z.min (size (Z.to_nat i)) (lba_limit d) | None => 0 end.
Definition table_sector (w : W) (i lba : Z) : list Z :=
  match drive_at i with Some d => sector w (base d) (drive d) lba | None => [] end.

Lemma table_fits w i d lba :
  table_ready w -> drive_at i = Some d -> 0 <= lba < table_size i ->
  drive_ok d /\ transfer_ok d lba 1 /\ (lba + 1 <=? ch_size (chan w (base d)) (drive d)) = true.
Proof.
  intros [_ Hs] Hi Hl. unfold table_size in Hl. rewrite Hi in Hl.
  destruct (drive_at_Some i d Hi) as (_ & Hd & Hp). pose proof (to_drive table _ _ Hd Hp).
  split; [done|]. split; [split; lia|]. rewrite (Hs i d Hi). apply Z.leb_le. lia.
Qed.

Lemma table_sector_len w i lba :
  table_ready w -> bool_decide (is_Some (drive_at i)) = true -> 0 <= lba < table_size i ->
  length (table_sector w i lba) = 256%nat.
Proof.
  intros [Hok _] [d Hi]%bool_decide_eq_true _. unfold table_sector. rewrite Hi. apply Hok.
Qed.

Lemma table_read_ok w i lba :
  table_ready w -> bool_decide (is_Some (drive_at i)) = true -> 0 <= lba < table_size i ->
  exists w', match drive_at i with Some d => ata_read d lba 1 w | None => (-1, [], w) end =
      (0, table_sector w i lba, w') /\ table_ready w' /\ forall j k, table_sector w' j k = table_sector w j k.
Proof.
  intros Hw [d Hi]%bool_decide_eq_true Hl. destruct (table_fits w i d lba Hw Hi Hl) as (Hd & Ht & Hf).
  destruct (ata_read_spec chan busy laws d lba 1 w Hd Ht (proj1 Hw _)) as (w' & (Hd1 & Hs1 & Ho1) & Hr).
  rewrite Hf in Hr. exists w'. unfold table_sector at 1. rewrite Hi, Hr.
  split; [simpl; by rewrite app_nil_r|].
  assert (forall b drv k, ch_disk (chan w' b) drv k = ch_disk (chan w b) drv k) as E.
  { intros b drv k. destruct (decide (b = base d)) as [->|Hb]; [done|by rewrite Ho1]. }
  assert (forall b, ch_size (chan w' b) = ch_size (chan w b)) as Es.
  { intros b. destruct (decide (b = base d)) as [->|Hb]; [done|by rewrite Ho1]. }
  split.
  - split; [intros b drv k; rewrite E; apply (proj1 Hw)|]. intros j e He. rewrite Es. by apply (proj2 Hw).
  - intros j k. unfold table_sector. destruct (drive_at j); [|done]. apply E.
Qed.

Lemma table_write_ok w i lba ws :
  table_ready w -> bool_decide (is_Some (drive_at i)) = true -> 0 <= lba < table_size i -> length ws = 256%nat ->
  exists w', match drive_at i with Some d => ata_write d lba 1 ws w | None => (-1, w) end = (0, w') /\
    table_ready w' /\
    forall j k, table_sector w' j k = if (j =? i) && (k =? lba) then ws else table_sector w j k.
Proof.
  intros Hw [d Hi]%bool_decide_eq_true Hl Hlen. destruct (table_fits w i d lba Hw Hi Hl) as (Hd & Ht & Hf).
  destruct (ata_write_spec chan busy laws d lba 1 ws w Hd Ht Hlen) as (w' & rc & Hwr & Hr).
  rewrite Hf in Hr. destruct Hr as (-> & Hd1 & Hs1 & Ho1). exists w'. rewrite Hi. split; [done|].
  destruct (drive_at_Some i d Hi) as (Hi0 & Hdi & Hp). split; [split|].
  - intros b. destruct (decide (b = base d)) as [->|Hb]; [|rewrite Ho1 by done; apply (proj1 Hw)].
    intros drv k. rewrite Hd1. apply put_sectors_ok; [apply (proj1 Hw)|done].
  - intros j e He. rewrite <- (proj2 Hw j e He). destruct (decide (base e = base d)) as [->|Hb]; [by rewrite Hs1|].
    by rewrite Ho1.
  - intros j k. unfold table_sector. destruct (drive_at j) as [e|] eqn:He.
    + unfold sector. destruct (drive_at_Some j e He) as (Hj0 & Hdj & Hq).
      destruct (decide (base e = base d)) as [Eb|Hb].
      * change (Z.to_nat 1) with 1%nat in Hd1. rewrite Eb, Hd1. cbn [put_sectors]. rewrite put_sector_at, take_ge by lia.
        destruct (Z.eqb_spec (drive e) (drive d)) as [Ev|Hne].
        -- assert (j = i) as -> by (pose proof (to_inj table _ _ _ _ Hdj Hdi Hq Hp Eb Ev); lia).
           by rewrite Z.eqb_refl.
        -- destruct (Z.eqb_spec j i) as [->|]; [by simplify_eq|]. done.
      * rewrite Ho1 by done. destruct (Z.eqb_spec j i) as [->|]; [by simplify_eq|]. done.
    + destruct (Z.eqb_spec j i) as [->|]; [congruence|done].
Qed.

(** The driver provides the interface the block cache is proved against. *)
Definition ata_block_dev : BlockDev W := {|
  bd_present i := bool_decide (is_Some (drive_at i));
  bd_read i lba w := match drive_at i with Some d => ata_read d lba 1 w | None => (-1, [], w) end;
  bd_write i lba ws w := match drive_at i with Some d => ata_write d lba 1 ws w | None => (-1, w) end;
  bd_ok := table_ready;
  bd_size := table_size;
  bd_sector := table_sector;
  bd_sector_len := table_sector_len;
  bd_read_ok := table_read_ok;
  bd_write_ok := table_write_ok
|}.
End theorems.

(** ** A device that follows the laws

    Two channels; after a command and at every sector boundary the status
    register shows BSY once. *)

Record machine := Machine { m_chan : Z -> channel; m_busy : Z -> bool }.

Definition decode_port (p : Z) : option (Z * Z) :=
  if (ATA_PRIMARY_BASE <=? p) && (p <=? ATA_PRIMARY_BASE + 7) then Some (ATA_PRIMARY_BASE, p - ATA_PRIMARY_BASE)
  else if (ATA_SECONDARY_BASE <=? p) && (p <=? ATA_SECONDARY_BASE + 7) then
    Some (ATA_SECONDARY_BASE, p - ATA_SECONDARY_BASE)
  else None.

Definition status_byte (m : transfer) : Z :=
  (if data_ready m then ATA_SR_DRQ else 0) .| match m with Failed => ATA_SR_ERR | _ => 0 end.

Definition machine_inb (p : Z) (w : machine) : Z * machine :=
  match decode_port p with
  | Some (b, r) =>
      if r =? ATA_REG_STATUS then
        if m_busy w b then (ATA_SR_BSY, Machine (m_chan w) (upd (m_busy w) b false))
        else (status_byte (ch_mode (m_chan w b)), w)
      else (0, w)
  | None => (0, w)
  end.

Definition machine_outb (p v : Z) (w : machine) : machine :=
  match decode_port p with
  | Some (b, r) =>
      if m_busy w b then w
      else Machine (upd (m_chan w) b (reg_out r v (m_chan w b))) (upd (m_busy w) b (r =? ATA_REG_COMMAND))
  | None => w
  end.

Definition machine_inw (p : Z) (w : machine) : Z * machine :=
  match decode_port p with
  | Some (b, _) =>
      match ch_mode (m_chan w b) with
      | PioIn (x :: xs) =>
          (x, Machine (upd (m_chan w) b (with_mode (PioIn xs) (m_chan w b))) (upd (m_busy w) b (at_boundary (PioIn xs))))
      | _ => (0, w)
      end
  | None => (0, w)
  end.

Definition machine_outw (p x : Z) (w : machine) : machine :=
  match decode_port p with
  | Some (b, _) =>
      let c := data_out x (m_chan w b) in
      Machine (upd (m_chan w) b c) (upd (m_busy w) b (at_boundary (ch_mode c)))
  | None => w
  end.

#[export] Instance machine_ports : PortIO machine := {|
  inb := machine_inb;
  outb := machine_outb;
  inw := machine_inw;
  outw := machine_outw
|}.

Definition machine_wait (w : machine) (b : Z) : nat := if m_busy w b then 1 else 0.

Lemma decode_base b r :
  b = ATA_PRIMARY_BASE \/ b = ATA_SECONDARY_BASE -> 0 <= r <= 7 -> decode_port (b + r) = Some (b, r).
Proof.
  unfold decode_port, ATA_PRIMARY_BASE, ATA_SECONDARY_BASE. intros [->| ->] Hr; repeat case_if; bools;
    first [lia|do 2 f_equal; lia].
Qed.

Lemma status_bits m :
  status_byte m .& ATA_SR_BSY = 0 /\ (status_byte m .& ATA_SR_DRQ =? 0) = negb (data_ready m) /\
  ((status_byte m .& ATA_SR_ERR =? 0) = false <-> m = Failed).
Proof. unfold status_byte. destruct m as [|[]|? ? [] ?|]; done. Qed.

Lemma ATA_POLLS_val : Z.of_nat ATA_POLLS = 100000.
Proof. unfold ATA_POLLS. by rewrite Z2Nat.id. Qed.
#[global] Opaque ATA_POLLS.

Lemma machine_laws : ata_laws m_chan machine_wait.
Proof.
  assert (forall w b, b = ATA_PRIMARY_BASE \/ b = ATA_SECONDARY_BASE -> machine_wait w b = 0%nat -> m_busy w b = false)
    as Hidle by (intros w b _; unfold machine_wait; by destruct (m_busy w b)).
  split.
  - intros w b. pose proof ATA_POLLS_val. unfold machine_wait. case_if; lia.
  - intros w b. split; [done|]. unfold machine_wait. done.
  - intros w b c [->| ->]; done.
  - intros w b Hb. cbn [inb machine_ports]. unfold machine_inb. rewrite decode_base by (done || by unfold ATA_REG_STATUS).
    rewrite Z.eqb_refl. unfold machine_wait. destruct (m_busy w b) eqn:E; simpl.
    + rewrite upd_eq. done.
    + rewrite E. split; [done|]. split; [done|]. apply status_bits.
  - intros w b Hb. cbn [inb machine_ports]. unfold machine_inb. rewrite decode_base by (done || by unfold ATA_REG_STATUS).
    rewrite Z.eqb_refl. unfold machine_wait. by destruct (m_busy w b).
  - intros w b r v Hb Hr Hw. specialize (Hidle w b Hb Hw). cbn [outb machine_ports]. unfold machine_outb.
    rewrite decode_base, Hidle by (done || lia). cbn [m_chan]. rewrite upd_eq. split; [done|]. split.
    + intros b' Hne. by rewrite upd_ne.
    + intros Hc. unfold machine_wait. cbn [m_busy]. by rewrite upd_eq, (proj2 (Z.eqb_neq _ _) Hc).
  - intros w b r v Hb Hr. cbn [outb machine_ports]. unfold machine_outb. rewrite decode_base by (done || lia).
    destruct (m_busy w b); [by auto|]. cbn [m_chan]. rewrite upd_eq. split; [by right|].
    intros b' Hne. by rewrite upd_ne.
  - intros w b x xs Hb Hw Hm. cbn [inw machine_ports]. unfold machine_inw. rewrite decode_base by (done || by unfold ATA_REG_DATA).
    rewrite Hm. cbn [m_chan]. rewrite upd_eq. split; [done|]. split; [done|]. split.
    + intros b' Hne. by rewrite upd_ne.
    + intros Ha. unfold machine_wait. cbn [m_busy]. by rewrite upd_eq, Ha.
  - intros w b x Hb Hw. cbn [outw machine_ports]. unfold machine_outw. rewrite decode_base by (done || by unfold ATA_REG_DATA).
    cbn [m_chan]. rewrite upd_eq. split; [done|]. split.
    + intros b' Hne. by rewrite upd_ne.
    + intros Ha. unfold machine_wait. cbn [m_busy]. by rewrite upd_eq, Ha.
Qed.

Definition zero_reg : reg := Reg 0 0.
Definition demo_channel : channel :=
  Channel zero_reg zero_reg zero_reg zero_reg 0 Idle (fun _ => 1000) (fun _ _ => replicate 256 0).
Definition demo_machine : machine := Machine (fun _ => demo_channel) (fun _ => true).
Definition demo_drive : ata_drive := AtaDrive ATA_SECONDARY_BASE ATA_SECONDARY_CTRL 1 true true 1000 [].

Lemma demo_drive_ok : drive_ok demo_drive.
Proof. split; auto. Qed.


(** *** Remarks on the driver *)

(** [ata_wait_drq] takes DRQ or ERR for an answer also while BSY is set, when
    the status register says nothing about them. *)
Lemma wait_drq_ignores_bsy `{PortIO W} (d : ata_drive) (w : W) :
  let '(st, w1) := inb (base d + ATA_REG_STATUS) w in
  (st .& ATA_SR_ERR <> 0 -> ata_wait_drq d w = (-1, w1)) /\
  (st .& ATA_SR_ERR = 0 -> st .& ATA_SR_DRQ <> 0 -> ata_wait_drq d w = (0, w1)).
Proof.
  pose proof ATA_POLLS_val as Hp. unfold ata_wait_drq. destruct ATA_POLLS as [|n]; [lia|]. cbn [poll_drq].
  destruct (inb _ w) as [st w1]. split.
  - intros He. by rewrite (proj2 (Z.eqb_neq _ _) He).
  - intros -> Hq. by rewrite (proj2 (Z.eqb_neq _ _) Hq).
Qed.

(** A drive without 48-bit addresses gets the address modulo [2 ^ 28]: nothing
    compares it with the size of the drive. *)
Lemma lba28_wraps d lba count cmd ext `{PortIO W} (w : W) :
  lba48 d = false -> 0 <= lba ->
  ata_setup d (lba + 2 ^ 28) count cmd ext w = ata_setup d lba count cmd ext w.
Proof.
  intros Hd Hl. unfold ata_setup. rewrite Hd.
  assert (forall k, 0 <= k <= 20 -> Z.shiftr (lba + 2 ^ 28) k .& 0xFF = Z.shiftr lba k .& 0xFF) as E.
  { intros k Hk. change 0xFF with (Z.ones 8). rewrite !Z.land_ones, !Z.shiftr_div_pow2 by lia.
    replace (2 ^ 28) with (2 ^ (20 - k) * 2 ^ 8 * 2 ^ k).
    - rewrite Z.div_add by (apply Z.pow_nonzero; lia). apply Z_mod_plus_full.
    - rewrite <- !Z.pow_add_r by lia. f_equal. lia. }
  assert (Z.shiftr (lba + 2 ^ 28) 24 .& 0x0F = Z.shiftr lba 24 .& 0x0F) as E24.
  { change 0x0F with (Z.ones 4). rewrite !Z.land_ones, !Z.shiftr_div_pow2 by lia.
    replace (2 ^ 28) with (1 * 2 ^ 4 * 2 ^ 24) by done. rewrite Z.div_add by done. apply Z_mod_plus_full. }
  pose proof (E 0 ltac:(lia)) as E0. rewrite !Z.shiftr_0_r in E0. by rewrite E0, E24, !E by lia.
Qed.

(** The table is packed in the order of detection, while [ata_get_drive]
    computes the index from the position: with a single drive on the secondary
    channel it finds nothing at the drive's position and the drive at another. *)
Lemma ata_get_drive_packed d s :
  ata_drives s = [d; with_present false d; with_present false d; with_present false d] -> present d = true ->
  base d = ATA_SECONDARY_BASE -> drive d = 0 ->
  ata_get_drive s 1 0 = None /\ ata_get_drive s 0 0 = Some d.
Proof. intros Hs Hp _ _. unfold ata_get_drive. simpl. rewrite Hs. simpl. by rewrite Hp. Qed.
