(* ===== verification/BlockCache.v ===== *)
(** * The write-back block cache ([fs/blockcache.c])

    128 slots, each with one sector, found by a scan and evicted in the order
    of their last use, clean ones first.  The cache is proved against the
    interface [BlockDev] of a disk driver: whatever is cached, written back
    or evicted, its clients see one array of sectors, and a flush makes the
    medium equal to it. *)

From S2P Require Import Prelude Ports Ata.

Definition BCACHE_SLOTS : nat := 128.
Definition NO_USE : Z := 0xFFFFFFFF.

Record bcache_slot := Slot {
  s_lba : Z;
  s_drive : Z;
  s_data : list Z;
  s_valid : bool;
  s_dirty : bool;
  s_use : Z
}.

(** The static variables, and the state [b_disk] of the disks behind them. *)
Record bcache (D : Type) := Bcache {
  g_slots : list bcache_slot;
  g_lru_clock : Z;
  g_hits : Z;
  g_misses : Z;
  g_writes : Z;
  b_disk : D
}.
Arguments Bcache {D}.
Arguments g_slots {D}.
Arguments g_lru_clock {D}.
Arguments g_hits {D}.
Arguments g_misses {D}.
Arguments g_writes {D}.
Arguments b_disk {D}.

Section cache.
Context {D : Type} `{BlockDev D}.
Implicit Types (s : bcache D) (y : bcache_slot) (i k : Z) (j : nat).

(** ** Updates of single variables *)

Definition eta s : bcache D :=
  Bcache (g_slots s) (g_lru_clock s) (g_hits s) (g_misses s) (g_writes s) (b_disk s).
Definition set_slot j y s : bcache D := ltac:(set_field eta (@g_slots D) s (<[j := y]> (g_slots s))).
Definition set_clock (v : Z) s : bcache D := ltac:(set_field eta (@g_lru_clock D) s v).
Definition add_hit s : bcache D := ltac:(set_field eta (@g_hits D) s (u32 (g_hits s + 1))).
Definition add_miss s : bcache D := ltac:(set_field eta (@g_misses D) s (u32 (g_misses s + 1))).
Definition add_write s : bcache D := ltac:(set_field eta (@g_writes D) s (u32 (g_writes s + 1))).
Definition set_disk (d : D) s : bcache D := ltac:(set_field eta (@b_disk D) s d).

Definition with_valid (b : bool) y : bcache_slot := Slot (s_lba y) (s_drive y) (s_data y) b (s_dirty y) (s_use y).
Definition with_dirty (b : bool) y : bcache_slot := Slot (s_lba y) (s_drive y) (s_data y) (s_valid y) b (s_use y).
Definition with_use (v : Z) y : bcache_slot := Slot (s_lba y) (s_drive y) (s_data y) (s_valid y) (s_dirty y) v.
Definition with_data (ws : list Z) y : bcache_slot := Slot (s_lba y) (s_drive y) ws (s_valid y) (s_dirty y) (s_use y).

(** ** Operations *)

Definition holds_sector i k y : bool := s_valid y && (s_drive y =? i) && (s_lba y =? k).

(** [find_slot]: the index of the slot and its contents. *)
Definition find_cached i k s : option (nat * bcache_slot) := find_slot (holds_sector i k) (g_slots s).

(** The first loop of [evict_slot]: a free slot, or the clean slot with the
    least use below [oldest]. *)
Fixpoint scan_clean (j : nat) (l : list bcache_slot) (oldest : Z) (best : option nat) : nat + option nat :=
  match l with
  | [] => inr best
  | y :: l =>
      if negb (s_valid y) then inl j
      else if negb (s_dirty y) && (s_use y <? oldest) then scan_clean (S j) l (s_use y) (Some j)
      else scan_clean (S j) l oldest best
  end.

(** The second loop. *)
Fixpoint scan_oldest (j : nat) (l : list bcache_slot) (oldest : Z) (best : option nat) : option nat :=
  match l with
  | [] => best
  | y :: l =>
      if s_use y <? oldest then scan_oldest (S j) l (s_use y) (Some j) else scan_oldest (S j) l oldest best
  end.

(** Write-back of the victim: its result is not looked at. *)
Definition write_back j y s : bcache D :=
  let s := if (s_drive y <? 4) && bd_present (s_drive y)
           then set_disk (bd_write (s_drive y) (s_lba y) (s_data y) (b_disk s)).2 s else s in
  set_slot j (with_dirty false y) (add_write s).

(** [None] when no slot is found and [best] is dereferenced as NULL. *)
Definition evict_slot s : option (nat * bcache D) :=
  match scan_clean 0 (g_slots s) NO_USE None with
  | inl j => Some (j, s)
  | inr (Some j) =>
      y ← g_slots s !! j;
      Some (j, set_slot j (with_valid false y) s)
  | inr None =>
      j ← scan_oldest 0 (g_slots s) NO_USE None;
      y ← g_slots s !! j;
      let s := if s_dirty y then write_back j y s else s in
      y ← g_slots s !! j;
      Some (j, set_slot j (with_valid false y) s)
  end.

Definition next_use s : Z := u32 (g_lru_clock s + 1).

(** The index of the slot whose data is returned, or NULL; [None] outside is
    the failure of [evict_slot]. *)
Definition bcache_get i k s : option (option nat * bcache D) :=
  if (i <? 0) || (4 <=? i) then Some (None, s)
  else
    match find_cached i k s with
    | Some (j, y) =>
        let s := add_hit s in
        Some (Some j, set_slot j (with_use (next_use s) y) (set_clock (next_use s) s))
    | None =>
        '(j, s) ← evict_slot (add_miss s);
        if negb (bd_present i) then Some (None, s)
        else
          y ← g_slots s !! j;
          let '(rc, ws, d) := bd_read i k (b_disk s) in
          let s := set_disk d s in
          if negb (rc =? 0) then Some (None, set_slot j (with_data (ws ++ drop (length ws) (s_data y)) y) s)
          else Some (Some j, set_slot j (Slot k i ws true false (next_use s)) (set_clock (next_use s) s))
    end.

Definition bcache_dirty i k s : bcache D :=
  match find_cached i k s with
  | Some (j, y) => set_slot j (with_dirty true y) s
  | None => s
  end.

Definition bcache_write_through i k (ws : list Z) s : option (Z * bcache D) :=
  if (i <? 0) || (4 <=? i) then Some (-1, s)
  else
    '(j, s) ← match find_cached i k s with
              | Some (j, _) => Some (j, s)
              | None => evict_slot s
              end;
    let s := set_slot j (Slot k i ws true false (next_use s)) (set_clock (next_use s) s) in
    if negb (bd_present i) then Some (-1, s)
    else
      let '(rc, d) := bd_write i k ws (b_disk s) in
      Some (rc, add_write (set_disk d s)).

(** One round of the loop of [bcache_flush], with the error count. *)
Definition flush_slot i j (es : Z * bcache D) : Z * bcache D :=
  let '(errors, s) := es in
  match g_slots s !! j with
  | Some y =>
      if negb (s_valid y) || negb (s_dirty y) || negb (s_drive y =? i) then (errors, s)
      else
        let '(rc, d) := bd_write i (s_lba y) (s_data y) (b_disk s) in
        let s := set_disk d s in
        if negb (rc =? 0) then (errors + 1, s) else (errors, add_write (set_slot j (with_dirty false y) s))
  | None => (errors, s)
  end.

Definition flush_loop i (js : list nat) (es : Z * bcache D) : Z * bcache D :=
  fold_left (fun es j => flush_slot i j es) js es.

Definition bcache_flush i s : Z * bcache D :=
  if (i <? 0) || (4 <=? i) then (-1, s)
  else if negb (bd_present i) then (-1, s)
  else let '(errors, s) := flush_loop i (seq 0 BCACHE_SLOTS) (0, s) in (if errors =? 0 then 0 else -1, s).

Definition bcache_flush_all s : Z * bcache D :=
  fold_left (fun rs i => let '(r, s) := bcache_flush i rs.2 in (rs.1 .| r, s)) [0; 1; 2; 3] (0, s).

Definition bcache_invalidate i s : bcache D :=
  Bcache ((fun y => if s_valid y && (s_drive y =? i) then with_valid false y else y) <$> g_slots s)
    (g_lru_clock s) (g_hits s) (g_misses s) (g_writes s) (b_disk s).

Definition bcache_stats s : Z * Z * Z := (g_hits s, g_misses s, g_writes s).

(** The use the interface describes: the caller changes the sector in place
    and marks it. *)
Definition bcache_modify i k (ws : list Z) s : option (bool * bcache D) :=
  '(r, s) ← bcache_get i k s;
  match r with
  | None => Some (false, s)
  | Some j =>
      y ← g_slots s !! j;
      Some (true, bcache_dirty i k (set_slot j (with_data ws y) s))
  end.

Definition slot_zero : bcache_slot := Slot 0 0 (replicate 256 0) false false 0.
Definition bcache_start (d : D) : bcache D := Bcache (replicate BCACHE_SLOTS slot_zero) 0 0 0 0 d.

(** ** The contents the clients see *)

Definition view s i k : list Z :=
  match find_cached i k s with
  | Some (_, y) => s_data y
  | None => bd_sector (b_disk s) i k
  end.

Definition in_range i k : Prop := 0 <= i < 4 /\ bd_present i = true /\ 0 <= k < bd_size i.

Record slot_ok (d : D) y : Prop := {
  so_range : in_range (s_drive y) (s_lba y);
  so_len : length (s_data y) = 256%nat;
  so_clean : s_dirty y = false -> s_data y = bd_sector d (s_drive y) (s_lba y)
}.

Record cache_ok s : Prop := {
  co_len : length (g_slots s) = BCACHE_SLOTS;
  co_slot j y : g_slots s !! j = Some y -> s_valid y = true -> slot_ok (b_disk s) y;
  co_unique j j' y y' : g_slots s !! j = Some y -> g_slots s !! j' = Some y' ->
    s_valid y = true -> s_valid y' = true -> s_drive y = s_drive y' -> s_lba y = s_lba y' -> j = j';
  co_use j y : g_slots s !! j = Some y -> s_use y <= g_lru_clock s;
  co_clock : 0 <= g_lru_clock s;
  co_disk : bd_ok (b_disk s)
}.

Lemma holds_sector_true i k y : holds_sector i k y = true <-> s_valid y = true /\ s_drive y = i /\ s_lba y = k.
Proof. unfold holds_sector. rewrite !andb_true_iff, !Z.eqb_eq. tauto. Qed.

Lemma find_cached_Some i k s j y :
  find_cached i k s = Some (j, y) ->
  g_slots s !! j = Some y /\ s_valid y = true /\ s_drive y = i /\ s_lba y = k.
Proof. intros [Hy Hh]%find_slot_Some. apply holds_sector_true in Hh. tauto. Qed.

Lemma find_cached_at i k s j y :
  cache_ok s -> g_slots s !! j = Some y -> s_valid y = true -> s_drive y = i -> s_lba y = k ->
  find_cached i k s = Some (j, y).
Proof.
  intros Hs Hy Hv Hi Hk. apply find_slot_unique; [done|by apply holds_sector_true|].
  intros j' y' Hy' (Hv' & Hi' & Hk')%holds_sector_true. by apply (co_unique s Hs j' j y' y); try congruence.
Qed.

Lemma find_cached_None i k s :
  find_cached i k s = None <->
  forall j y, g_slots s !! j = Some y -> s_valid y = true -> s_drive y = i -> s_lba y = k -> False.
Proof.
  unfold find_cached. rewrite find_slot_None. split.
  - intros Hn j y Hy Hv Hi Hk. specialize (Hn j y Hy). rewrite (proj2 (holds_sector_true i k y)) in Hn; done.
  - intros Hn j y Hy. destruct (holds_sector i k y) eqn:E; [|done].
    apply holds_sector_true in E as (? & ? & ?). by destruct (Hn j y).
Qed.

(** Two caches that hold the same sectors over media with the same contents
    look the same. *)
Lemma view_at s i k j y :
  cache_ok s -> g_slots s !! j = Some y -> s_valid y = true -> s_drive y = i -> s_lba y = k -> view s i k = s_data y.
Proof. intros Hs Hy Hv Hi Hk. unfold view. by rewrite (find_cached_at i k s j y). Qed.

(** A slot that is free, or holds the sector already, receives it. *)
Lemma put_spec s j old y c d hits misses writes :
  cache_ok s -> g_slots s !! j = Some old ->
  (s_valid old = false \/ s_drive old = s_drive y /\ s_lba old = s_lba y) ->
  (forall j' y', j' <> j -> g_slots s !! j' = Some y' -> s_valid y' = true ->
     s_drive y' = s_drive y -> s_lba y' = s_lba y -> False) ->
  s_valid y = true -> in_range (s_drive y) (s_lba y) -> length (s_data y) = 256%nat ->
  (s_dirty y = false -> s_data y = bd_sector d (s_drive y) (s_lba y)) ->
  bd_ok d ->
  (forall i k, (i, k) <> (s_drive y, s_lba y) -> bd_sector d i k = bd_sector (b_disk s) i k) ->
  g_lru_clock s <= c -> s_use y <= c ->
  let s' := Bcache (<[j := y]> (g_slots s)) c hits misses writes d in
  cache_ok s' /\
  forall i k, view s' i k = if (i =? s_drive y) && (k =? s_lba y) then s_data y else view s i k.
Proof.
  intros Hs Hold Hkey Hno Hv Hr Hl Hc Hd Hsec Hclk Huse s'.
  assert (j < length (g_slots s))%nat as Hj by (by eapply lookup_lt_Some).
  assert (cache_ok s') as Hs'.
  { split; simpl; [| | | | |done].
    - rewrite length_insert. apply (co_len s Hs).
    - intros j' y' [[-> ->]|[Hne Hy']]%lookup_put Hv'; [by split| |done].
      destruct (co_slot s Hs j' y' Hy' Hv') as [R L C]. split; [done|done|]. simpl. intros Hdi.
      rewrite Hsec; [by apply C|]. intros [=]. by destruct (Hno j' y').
    - intros j1 j2 y1 y2 [[-> ->]|[N1 H1]]%lookup_put [[-> ->]|[N2 H2]]%lookup_put V1 V2 E1 E2; try done.
      + by destruct (Hno j2 y2).
      + by destruct (Hno j1 y1).
      + by apply (co_unique s Hs j1 j2 y1 y2).
    - intros j' y' [[-> ->]|[Hne Hy']]%lookup_put; [done| |done]. pose proof (co_use s Hs j' y' Hy'). lia.
    - pose proof (co_clock s Hs). lia. }
  split; [done|]. intros i k. destruct ((i =? s_drive y) && (k =? s_lba y)) eqn:E.
  - bools. subst. apply (view_at s' _ _ j y); try done. simpl. by apply list_lookup_insert_eq.
  - assert ((i, k) <> (s_drive y, s_lba y)) as Hne by (intros [=]; bools; lia).
    unfold view at 2. destruct (find_cached i k s) as [[j' y']|] eqn:Ef.
    + apply find_cached_Some in Ef as (Hy' & Hv' & Ei & Ek). apply (view_at s' _ _ j' y'); try done. simpl.
      rewrite list_lookup_insert_ne; [done|]. intros <-. simplify_eq.
      destruct Hkey as [?|[? ?]]; [congruence|]. by destruct Hne; f_equal.
    + unfold view. replace (find_cached i k s') with (@None (nat * bcache_slot)); [by apply Hsec|].
      symmetry. apply find_cached_None. simpl. rewrite find_cached_None in Ef.
      intros j' y' [[-> ->]|[_ Hy']]%lookup_put Hv' Ei Ek; [|by apply (Ef j' y')|done].
      by destruct Hne; f_equal.
Qed.

(** A clean slot is given up. *)
Lemma drop_slot_spec s j y :
  cache_ok s -> g_slots s !! j = Some y -> (s_valid y = true -> s_dirty y = false) ->
  let s' := set_slot j (with_valid false y) s in
  cache_ok s' /\ (forall i k, view s' i k = view s i k) /\
  forall i k, find_cached i k s = None -> find_cached i k s' = None.
Proof.
  intros Hs Hy Hc s'. assert (j < length (g_slots s))%nat as Hj by (by eapply lookup_lt_Some).
  assert (cache_ok s') as Hs'.
  { split; simpl; [by rewrite length_insert; apply (co_len s Hs)| | | |apply (co_clock s Hs)|apply (co_disk s Hs)].
    - intros j' y' [[-> ->]|[_ Hy']]%lookup_put Hv'; [done| |done]. by destruct (co_slot s Hs j' y' Hy' Hv').
    - intros j1 j2 y1 y2 [[-> ->]|[N1 H1]]%lookup_put [[-> ->]|[N2 H2]]%lookup_put V1 V2 E1 E2; try done.
      by apply (co_unique s Hs j1 j2 y1 y2).
    - intros j' y' [[-> ->]|[_ Hy']]%lookup_put; [by apply (co_use s Hs j y)|by apply (co_use s Hs j' y')|done]. }
  assert (forall i k, find_cached i k s = None -> find_cached i k s' = None) as Hnone.
  { intros i k Hn. rewrite find_cached_None in *. simpl.
    intros j' y' [[-> ->]|[_ Hy']]%lookup_put Hv'; [done|by apply (Hn j' y')|done]. }
  split; [done|]. split; [|done]. intros i k. unfold view at 2.
  destruct (find_cached i k s) as [[j' y']|] eqn:Ef; [|unfold view; by rewrite Hnone].
  apply find_cached_Some in Ef as (Hy' & Hv' & Ei & Ek). destruct (decide (j' = j)) as [->|Hne].
  - simplify_eq. destruct (co_slot s Hs j y Hy Hv') as [_ _ C]. rewrite (C (Hc Hv')). unfold view.
    replace (find_cached _ _ s') with (@None (nat * bcache_slot)); [done|]. symmetry. apply find_cached_None. simpl.
    intros j' y' [[-> ->]|[N Hy']]%lookup_put V Ei Ek; [done| |done]. by apply N, (co_unique s Hs j' j y' y).
  - apply (view_at s' _ _ j' y'); try done. simpl. by rewrite list_lookup_insert_ne.
Qed.

(** A dirty slot is written back. *)
Lemma write_back_slot_spec s j y d hits misses writes :
  cache_ok s -> g_slots s !! j = Some y -> s_valid y = true -> bd_ok d ->
  (forall i k, bd_sector d i k =
     if (i =? s_drive y) && (k =? s_lba y) then s_data y else bd_sector (b_disk s) i k) ->
  let s' := Bcache (<[j := with_dirty false y]> (g_slots s)) (g_lru_clock s) hits misses writes d in
  cache_ok s' /\ forall i k, view s' i k = view s i k.
Proof.
  intros Hs Hy Hv Hd Hsec s'. destruct (co_slot s Hs j y Hy Hv) as [R L _].
  destruct (put_spec s j y (with_dirty false y) (g_lru_clock s) d hits misses writes) as [Hs' Hview]; simpl; try done.
  - by right.
  - intros j' y' Hne Hy' Hv' Ei Ek. by apply Hne, (co_unique s Hs j' j y' y).
  - intros _. by rewrite Hsec, !Z.eqb_refl.
  - intros i k Hne. rewrite Hsec. case_if; [|done]. bools. by destruct Hne; f_equal.
  - by apply (co_use s Hs j y).
  - split; [done|]. intros i k. rewrite Hview. simpl. case_if; [|done]. bools. subst. symmetry.
    by apply (view_at s _ _ j y).
Qed.

(** ** Eviction *)

Lemma scan_clean_spec l j0 oldest best :
  match scan_clean j0 l oldest best with
  | inl j => exists n y, j = (j0 + n)%nat /\ l !! n = Some y /\ s_valid y = false
  | inr r =>
      Forall (fun y => s_valid y = true) l /\
      (r = best \/ exists n y, r = Some (j0 + n)%nat /\ l !! n = Some y /\ s_dirty y = false) /\
      (r = None -> Forall (fun y => s_dirty y = true \/ oldest <= s_use y) l)
  end.
Proof.
  revert j0 oldest best. induction l as [|y l IH]; intros j0 oldest best; simpl; [auto|].
  destruct (s_valid y) eqn:Hv; simpl; [|by exists 0%nat, y; rewrite Nat.add_0_r].
  destruct (negb (s_dirty y) && (s_use y <? oldest)) eqn:E; bools.
  - specialize (IH (S j0) (s_use y) (Some j0)). destruct (scan_clean _ _ _ _) as [j|r].
    + destruct IH as (n & z & -> & Hz & Hzv). exists (S n), z. split; [lia|done].
    + destruct IH as (Hall & Hr & Hn). split; [by constructor|]. split.
      * right. destruct Hr as [->|(n & z & -> & Hz & Hd)]; [by exists 0%nat, y; rewrite Nat.add_0_r|].
        exists (S n), z. split; [f_equal; lia|done].
      * intros ->. by destruct Hr as [?|(?&?&?&_)].
  - specialize (IH (S j0) oldest best). destruct (scan_clean _ _ _ _) as [j|r].
    + destruct IH as (n & z & -> & Hz & Hzv). exists (S n), z. split; [lia|done].
    + destruct IH as (Hall & Hr & Hn). split; [by constructor|]. split.
      * destruct Hr as [->|(n & z & -> & Hz & Hd)]; [by left|]. right. exists (S n), z. split; [f_equal; lia|done].
      * intros Hr'. constructor; [|by apply Hn]. destruct E as [E|E]; bools; auto.
Qed.

Lemma scan_oldest_spec l j0 oldest best :
  match scan_oldest j0 l oldest best with
  | Some r => Some r = best \/ exists n, r = (j0 + n)%nat /\ (n < length l)%nat
  | None => best = None /\ Forall (fun y => oldest <= s_use y) l
  end.
Proof.
  revert j0 oldest best. induction l as [|y l IH]; intros j0 oldest best; simpl; [destruct best; auto|].
  destruct (s_use y <? oldest) eqn:E; bools.
  - specialize (IH (S j0) (s_use y) (Some j0)). destruct (scan_oldest _ _ _ _) as [r|]; [|by destruct IH].
    right. destruct IH as [[= ->]|(n & -> & Hn)]; [exists 0%nat|exists (S n)]; lia.
  - specialize (IH (S j0) oldest best). destruct (scan_oldest _ _ _ _) as [r|].
    + destruct IH as [?|(n & -> & Hn)]; [by left|]. right. exists (S n). lia.
    + destruct IH as [-> Hall]. split; [done|]. by constructor.
Qed.

(** What an eviction leaves: a free slot and the same contents. *)
Definition evicted s j s' : Prop :=
  cache_ok s' /\ (exists y, g_slots s' !! j = Some y /\ s_valid y = false) /\
  g_lru_clock s' = g_lru_clock s /\ (forall i k, view s' i k = view s i k) /\
  forall i k, find_cached i k s = None -> find_cached i k s' = None.

Lemma dirty_slot_written s j y :
  cache_ok s -> g_slots s !! j = Some y -> s_valid y = true ->
  let s' := write_back j y s in
  cache_ok s' /\ g_slots s' !! j = Some (with_dirty false y) /\ g_lru_clock s' = g_lru_clock s /\
  (forall i k, view s' i k = view s i k) /\ forall i k, find_cached i k s = None -> find_cached i k s' = None.
Proof.
  intros Hs Hy Hv. assert (j < length (g_slots s))%nat as Hj by (by eapply lookup_lt_Some).
  destruct (co_slot s Hs j y Hy Hv) as [(Hi & Hp & Hk) L _].
  unfold write_back. rewrite (proj2 (Z.ltb_lt (s_drive y) 4)), Hp by lia. simpl andb. cbv iota.
  destruct (bd_write_ok (b_disk s) (s_drive y) (s_lba y) (s_data y) (co_disk s Hs) Hp Hk L) as (d & -> & Hd & Hsec).
  simpl. destruct (write_back_slot_spec s j y d (g_hits s) (g_misses s) (u32 (g_writes s + 1)) Hs Hy Hv Hd Hsec)
    as [Hs' Hview].
  split; [done|]. split; [by apply list_lookup_insert_eq|]. split; [done|]. split; [done|].
  intros i k. rewrite !find_cached_None. simpl. intros Hn j' y' [[-> ->]|[_ Hy']]%lookup_put Hv' Ei Ek; [|eauto|done].
  by apply (Hn j y).
Qed.

Lemma evict_spec s :
  cache_ok s -> g_lru_clock s < NO_USE -> exists j s', evict_slot s = Some (j, s') /\ evicted s j s'.
Proof.
  intros Hs Hclk. unfold evict_slot. pose proof (scan_clean_spec (g_slots s) 0 NO_USE None) as Hsc.
  destruct (scan_clean 0 (g_slots s) NO_USE None) as [j|[j|]].
  - destruct Hsc as (n & y & -> & Hy & Hv). exists n, s. split; [done|]. split; [done|]. split; [by exists y|done].
  - destruct Hsc as (_ & [?|(n & y & [= ->] & Hy & Hd)] & _); [done|]. simpl. rewrite Hy. simpl.
    destruct (drop_slot_spec s n y Hs Hy ltac:(done)) as (H1 & H2 & H3). eexists _, _. split; [done|].
    split; [done|]. split; [|done]. exists (with_valid false y). split; [|done]. simpl.
    apply list_lookup_insert_eq. by eapply lookup_lt_Some.
  - destruct Hsc as (Hall & _ & Hdirty). specialize (Hdirty eq_refl).
    pose proof (scan_oldest_spec (g_slots s) 0 NO_USE None) as Hso.
    destruct (scan_oldest 0 (g_slots s) NO_USE None) as [j|].
    2: { destruct Hso as [_ Hge]. destruct (g_slots s) as [|y l] eqn:El.
         - pose proof (co_len s Hs) as Hlen. by rewrite El in Hlen.
         - apply Forall_cons in Hge as [Hge _]. pose proof (co_use s Hs 0 y) as Hu. rewrite El in Hu.
           specialize (Hu eq_refl). lia. }
    destruct Hso as [?|(n & -> & Hn)]; [done|]. simpl. destruct (lookup_lt_is_Some_2 _ _ Hn) as [y Hy].
    rewrite Hy. simpl. assert (s_valid y = true) as Hv by (by eapply Forall_lookup_1 in Hall).
    assert (s_dirty y = true) as ->.
    { eapply Forall_lookup_1 in Hdirty as [?|Hge]; [done| |done]. pose proof (co_use s Hs n y Hy). lia. }
    destruct (dirty_slot_written s n y Hs Hy Hv) as (W1 & W2 & W3 & W4 & W5).
    set (s1 := write_back n y s) in *. clearbody s1. rewrite W2. simpl.
    destruct (drop_slot_spec s1 n _ W1 W2 ltac:(done)) as (H1 & H2 & H3). eexists _, _. split; [done|].
    split; [done|]. split; [|split; [exact W3|split; [intros i k; by rewrite H2|auto]]].
    exists (with_valid false (with_dirty false y)). split; [|done]. simpl. apply list_lookup_insert_eq.
    by eapply lookup_lt_Some.
Qed.

(** ** The operations *)

Lemma miss_ok s : cache_ok s -> cache_ok (add_miss s).
Proof. by intros []. Qed.

Lemma next_use_val s : cache_ok s -> g_lru_clock s < NO_USE -> next_use s = g_lru_clock s + 1.
Proof. intros Hs Hc. unfold next_use. pose proof (co_clock s Hs). apply u32_small. unfold NO_USE in Hc. lia. Qed.

(** After a read or a write of sector [k] of drive [i]: the new contents. *)
Definition updated s s' i k (ws : list Z) : Prop :=
  cache_ok s' /\ g_lru_clock s' <= g_lru_clock s + 1 /\
  forall i' k', view s' i' k' = if (i' =? i) && (k' =? k) then ws else view s i' k'.

Lemma no_other s i k j y :
  cache_ok s -> find_cached i k s = Some (j, y) ->
  forall j' y', j' <> j -> g_slots s !! j' = Some y' -> s_valid y' = true -> s_drive y' = i -> s_lba y' = k -> False.
Proof.
  intros Hs (Hy & Hv & Hi & Hk)%find_cached_Some j' y' Hne Hy' Hv' Hi' Hk'.
  apply Hne, (co_unique s Hs j' j y' y); congruence.
Qed.

Lemma get_spec s i k :
  cache_ok s -> g_lru_clock s < NO_USE -> in_range i k ->
  exists j y s', bcache_get i k s = Some (Some j, s') /\ updated s s' i k (view s i k) /\
    find_cached i k s' = Some (j, y) /\ s_data y = view s i k.
Proof.
  intros Hs Hclk Hr. destruct (Hr) as (Hi & Hp & Hk). unfold bcache_get.
  rewrite (proj2 (Z.ltb_ge i 0)), (proj2 (Z.leb_gt 4 i)) by lia. simpl orb. cbv iota.
  unfold view at 1 2. destruct (find_cached i k s) as [[j y]|] eqn:Ef.
  - pose proof (no_other s i k j y Hs Ef) as Hno.
    apply find_cached_Some in Ef as (Hy & Hv & Ei & Ek). destruct (co_slot s Hs j y Hy Hv) as [R L C].
    change (next_use (add_hit s)) with (next_use s). rewrite next_use_val by done.
    destruct (put_spec s j y (with_use (g_lru_clock s + 1) y) (g_lru_clock s + 1) (b_disk s)
                (u32 (g_hits s + 1)) (g_misses s) (g_writes s)) as [Hs' Hview]; simpl; try done.
    { by right. }
    { rewrite Ei, Ek. exact Hno. }
    { by apply (co_disk s Hs). }
    { lia. }
    simpl in Hview. rewrite Ei, Ek in Hview.
    eexists j, (with_use (g_lru_clock s + 1) y), _. split; [done|]. split; [split; [done|]; split; [simpl; lia|done]|].
    split; [|done]. apply find_cached_at; try done. simpl. apply list_lookup_insert_eq. by eapply lookup_lt_Some.
  - destruct (evict_spec (add_miss s) (miss_ok s Hs) Hclk) as (j & s1 & -> & H1 & (y & Hy & Hv) & Hc & Hview & Hnone).
    specialize (Hnone i k Ef). simpl in Hc. simpl. rewrite Hp. simpl. rewrite Hy. simpl.
    destruct (bd_read_ok (b_disk s1) i k (co_disk s1 H1) Hp Hk) as (d & -> & Hd & Hsec). simpl.
    assert (bd_sector (b_disk s1) i k = bd_sector (b_disk s) i k) as Esec.
    { specialize (Hview i k). unfold view in Hview. rewrite Hnone in Hview.
      change (find_cached i k (add_miss s)) with (find_cached i k s) in Hview. by rewrite Ef in Hview. }
    change (next_use (set_disk d s1)) with (next_use s1). rewrite next_use_val by (done || lia).
    assert (length (bd_sector (b_disk s1) i k) = 256%nat) as Hlen
      by (apply bd_sector_len; [by apply (co_disk s1 H1)|done|done]).
    destruct (put_spec s1 j y (Slot k i (bd_sector (b_disk s1) i k) true false (g_lru_clock s1 + 1))
                (g_lru_clock s1 + 1) d (g_hits s1) (g_misses s1) (g_writes s1)) as [Hs' Hview']; simpl; try done.
    { by left. }
    { intros j' y' _ Hy' Hv' Ei Ek. rewrite find_cached_None in Hnone. by apply (Hnone j' y'). }
    { lia. }
    simpl in Hview'.
    eexists j, (Slot k i (bd_sector (b_disk s1) i k) true false (g_lru_clock s1 + 1)), _. split; [done|]. rewrite <- Esec. split; [split; [done|]; split; [simpl; lia|]|].
    + intros i' k'. rewrite Hview', Hview. done.
    + split; [|done]. apply find_cached_at; try done. simpl. apply list_lookup_insert_eq. by eapply lookup_lt_Some.
Qed.

(** The contents a client stores in a cached sector. *)
Lemma modify_spec s i k ws :
  cache_ok s -> g_lru_clock s < NO_USE -> in_range i k -> length ws = 256%nat ->
  exists s', bcache_modify i k ws s = Some (true, s') /\ updated s s' i k ws.
Proof.
  intros Hs Hclk Hr Hl. destruct (get_spec s i k Hs Hclk Hr) as (j & y & s1 & Hg & (H1 & Hc1 & Hv1) & Hf & _).
  unfold bcache_modify. rewrite Hg. simpl. pose proof (no_other s1 i k j y H1 Hf) as Hno.
  apply find_cached_Some in Hf as (Hy & Hv & Ei & Ek). rewrite Hy. simpl.
  assert (j < length (g_slots s1))%nat as Hj by (by eapply lookup_lt_Some).
  assert (find_cached i k (set_slot j (with_data ws y) s1) = Some (j, with_data ws y)) as Hf'.
  { apply find_slot_unique; [by apply list_lookup_insert_eq|by apply holds_sector_true|]. simpl.
    intros j' y' [[-> _]|[Hne Hy']]%lookup_put (Hv' & Hi' & Hk')%holds_sector_true; [done| |done].
    by destruct (Hno j' y'). }
  unfold bcache_dirty. rewrite Hf'. eexists. split; [done|]. unfold set_slot. simpl. rewrite list_insert_insert_eq.
  destruct (put_spec s1 j y (with_dirty true (with_data ws y)) (g_lru_clock s1) (b_disk s1)
              (g_hits s1) (g_misses s1) (g_writes s1)) as [Hs' Hview]; simpl; try done.
  { by right. }
  { by rewrite Ei, Ek. }
  { by rewrite Ei, Ek. }
  { by apply (co_disk s1 H1). }
  { by apply (co_use s1 H1 j y). }
  split; [done|]. split; [done|]. intros i' k'. rewrite Hview. simpl. rewrite Ei, Ek, Hv1.
  by destruct ((i' =? i) && (k' =? k)).
Qed.

Lemma write_through_spec s i k ws :
  cache_ok s -> g_lru_clock s < NO_USE -> in_range i k -> length ws = 256%nat ->
  exists s', bcache_write_through i k ws s = Some (0, s') /\ updated s s' i k ws /\
    bd_sector (b_disk s') i k = ws.
Proof.
  intros Hs Hclk Hr Hl. destruct (Hr) as (Hi & Hp & Hk). unfold bcache_write_through.
  rewrite (proj2 (Z.ltb_ge i 0)), (proj2 (Z.leb_gt 4 i)) by lia. simpl orb. cbv iota.
  assert (exists j y s1, match find_cached i k s with Some (j, _) => Some (j, s) | None => evict_slot s end = Some (j, s1) /\
    cache_ok s1 /\ g_slots s1 !! j = Some y /\ (s_valid y = false \/ s_drive y = i /\ s_lba y = k) /\
    (forall j' y', j' <> j -> g_slots s1 !! j' = Some y' -> s_valid y' = true -> s_drive y' = i -> s_lba y' = k -> False) /\
    g_lru_clock s1 = g_lru_clock s /\ (forall i k, view s1 i k = view s i k))
    as (j & y & s1 & -> & H1 & Hy & Hkey & Hno & Hc & Hview).
  { destruct (find_cached i k s) as [[j y]|] eqn:Ef.
    - exists j, y, s. pose proof (no_other s i k j y Hs Ef). apply find_cached_Some in Ef as (? & ? & ? & ?). auto 10.
    - destruct (evict_spec s Hs Hclk) as (j & s1 & -> & H1 & (y & Hy & Hv) & Hc & Hview & Hnone).
      specialize (Hnone i k Ef). rewrite find_cached_None in Hnone. exists j, y, s1. eauto 10. }
  simpl. rewrite Hp. simpl. rewrite next_use_val by (done || lia).
  destruct (bd_write_ok (b_disk s1) i k ws (co_disk s1 H1) Hp Hk Hl) as (d & -> & Hd & Hsec).
  destruct (put_spec s1 j y (Slot k i ws true false (g_lru_clock s1 + 1)) (g_lru_clock s1 + 1) d
              (g_hits s1) (g_misses s1) (u32 (g_writes s1 + 1))) as [Hs' Hview']; simpl; try done.
  { intros _. by rewrite Hsec, !Z.eqb_refl. }
  { intros i' k' Hne. rewrite Hsec. case_if; [|done]. bools. by destruct Hne; f_equal. }
  { lia. }
  eexists. split; [done|]. split; [split; [exact Hs'|]; split; [simpl; lia|]|].
  - intros i' k'. rewrite Hview'. simpl. by rewrite Hview.
  - simpl. by rewrite Hsec, !Z.eqb_refl.
Qed.

(** ** Flushing *)

(** The slot has nothing to write to drive [i]. *)
Definition slot_settled i y : Prop := s_valid y = true -> s_drive y = i -> s_dirty y = false.

(** Only the media and the dirty marks change. *)
Record flushed s s' : Prop := {
  fl_ok : cache_ok s';
  fl_clock : g_lru_clock s' = g_lru_clock s;
  fl_view i k : view s' i k = view s i k;
  fl_settled i j y y' : g_slots s !! j = Some y -> g_slots s' !! j = Some y' -> slot_settled i y -> slot_settled i y'
}.

Lemma flushed_refl s : cache_ok s -> flushed s s.
Proof. intros Hs. split; try done. intros i j y y' Hy Hy'. by simplify_eq. Qed.

Lemma flushed_trans s1 s2 s3 : flushed s1 s2 -> flushed s2 s3 -> flushed s1 s3.
Proof.
  intros [O1 C1 V1 S1] [O2 C2 V2 S2]. split; [done|congruence|intros; by rewrite V2, V1|].
  intros i j y z Hy Hz Hset. assert (j < length (g_slots s2))%nat as Hj.
  { rewrite (co_len _ O1). rewrite <- (co_len _ O2). by eapply lookup_lt_Some. }
  apply lookup_lt_is_Some_2 in Hj as [x Hx]. eauto.
Qed.

Lemma flush_slot_spec s i j e y :
  cache_ok s -> g_slots s !! j = Some y ->
  exists s', flush_slot i j (e, s) = (e, s') /\ flushed s s' /\
    forall y', g_slots s' !! j = Some y' -> slot_settled i y'.
Proof.
  intros Hs Hy. unfold flush_slot. rewrite Hy.
  destruct (negb (s_valid y) || negb (s_dirty y) || negb (s_drive y =? i)) eqn:E.
  - exists s. split; [done|]. split; [by apply flushed_refl|]. intros y' Hy' Hv Hi. simplify_eq.
    rewrite Hv, Z.eqb_refl in E. by destruct (s_dirty y).
  - apply orb_false_iff in E as [[E1 E2]%orb_false_iff E3]. bools. subst i.
    destruct (co_slot s Hs j y Hy E1) as [(Hi & Hp & Hk) L _].
    destruct (bd_write_ok (b_disk s) (s_drive y) (s_lba y) (s_data y) (co_disk s Hs) Hp Hk L) as (d & -> & Hd & Hsec).
    simpl. destruct (write_back_slot_spec s j y d (g_hits s) (g_misses s) (u32 (g_writes s + 1)) Hs Hy E1 Hd Hsec)
      as [Hs' Hview].
    assert (j < length (g_slots s))%nat as Hj by (by eapply lookup_lt_Some).
    eexists. split; [done|]. split.
    + split; [done|done|done|]. simpl. intros i j' z z' Hz [[-> ->]|[_ Hz']]%lookup_put Hset; [|by simplify_eq|done].
      by intros _ _.
    + simpl. rewrite list_lookup_insert_eq by done. by intros y' [= <-] _ _.
Qed.

Lemma flush_loop_spec i js s e :
  cache_ok s -> Forall (fun j => (j < BCACHE_SLOTS)%nat) js ->
  exists s', flush_loop i js (e, s) = (e, s') /\ flushed s s' /\
    forall j y', j ∈ js -> g_slots s' !! j = Some y' -> slot_settled i y'.
Proof.
  intros Hs Hjs. revert s Hs. induction Hjs as [|j js Hj Hjs IH]; intros s Hs.
  { exists s. split; [done|]. split; [by apply flushed_refl|]. intros j y' Hin. by apply elem_of_nil in Hin. }
  rewrite <- (co_len s Hs) in Hj. apply lookup_lt_is_Some_2 in Hj as [y Hy].
  destruct (flush_slot_spec s i j e y Hs Hy) as (s1 & E1 & F1 & S1).
  destruct (IH s1 (fl_ok _ _ F1)) as (s2 & E2 & F2 & S2). exists s2. split; [|split].
  - unfold flush_loop in *. cbn [fold_left]. by rewrite E1.
  - by eapply flushed_trans.
  - intros j' z Hin Hz. apply elem_of_cons in Hin as [->|Hin]; [|by eapply S2].
    assert (j < length (g_slots s1))%nat as Hj.
    { rewrite (co_len _ (fl_ok _ _ F1)), <- (co_len _ (fl_ok _ _ F2)). by eapply lookup_lt_Some. }
    apply lookup_lt_is_Some_2 in Hj as [x Hx]. eapply (fl_settled _ _ F2); eauto.
Qed.

(** The medium of drive [i] has the contents the clients see. *)
Definition synced i s : Prop := forall k, in_range i k -> bd_sector (b_disk s) i k = view s i k.

Lemma flush_drive_spec s i :
  cache_ok s -> 0 <= i < 4 -> bd_present i = true ->
  exists s', bcache_flush i s = (0, s') /\ flushed s s' /\
    forall j y, g_slots s' !! j = Some y -> slot_settled i y.
Proof.
  intros Hs Hi Hp. unfold bcache_flush. rewrite (proj2 (Z.ltb_ge i 0)), (proj2 (Z.leb_gt 4 i)), Hp by lia. simpl orb.
  simpl negb. cbv iota. destruct (flush_loop_spec i (seq 0 BCACHE_SLOTS) s 0 Hs) as (s' & -> & F & S).
  { apply Forall_forall. intros j Hj. apply elem_of_seq in Hj. lia. }
  exists s'. split; [done|]. split; [done|]. intros j y Hy. apply (S j y); [|done]. apply elem_of_seq.
  rewrite <- (co_len _ (fl_ok _ _ F)). apply lookup_lt_Some in Hy. lia.
Qed.

Lemma settled_synced s i : cache_ok s -> (forall j y, g_slots s !! j = Some y -> slot_settled i y) -> synced i s.
Proof.
  intros Hs Hset k Hr. unfold view. destruct (find_cached i k s) as [[j y]|] eqn:Ef; [|done].
  apply find_cached_Some in Ef as (Hy & Hv & Ei & Ek). destruct (co_slot s Hs j y Hy Hv) as [_ _ C].
  rewrite C; [by rewrite Ei, Ek|]. by apply (Hset j y Hy).
Qed.

(** Flushing every drive: the result is 0 when all four are present. *)
Definition flush_round (rs : Z * bcache D) i : Z * bcache D :=
  let '(r, s) := bcache_flush i rs.2 in (rs.1 .| r, s).

Lemma flush_rounds_spec drs s r :
  cache_ok s -> Forall (fun i => 0 <= i < 4) drs ->
  exists s', fold_left flush_round drs (r, s) = (if forallb bd_present drs then r else -1, s') /\ flushed s s' /\
    forall i j y, i ∈ drs -> bd_present i = true -> g_slots s' !! j = Some y -> slot_settled i y.
Proof.
  intros Hs Hdrs. revert r s Hs. induction Hdrs as [|i drs Hi Hdrs IH]; intros r s Hs.
  { exists s. split; [done|]. split; [by apply flushed_refl|]. intros i j y Hin. by apply elem_of_nil in Hin. }
  cbn [fold_left forallb]. unfold flush_round at 2. cbn [fst snd].
  destruct (bd_present i) eqn:Hp.
  - destruct (flush_drive_spec s i Hs Hi Hp) as (s1 & -> & F1 & S1). rewrite Z.lor_0_r.
    destruct (IH r s1 (fl_ok _ _ F1)) as (s2 & -> & F2 & S2). exists s2. split; [done|]. split; [by eapply flushed_trans|].
    intros i' j y Hin Hp' Hy. apply elem_of_cons in Hin as [->|Hin]; [|by eapply S2].
    assert (j < length (g_slots s1))%nat as Hj.
    { rewrite (co_len _ (fl_ok _ _ F1)), <- (co_len _ (fl_ok _ _ F2)). by eapply lookup_lt_Some. }
    apply lookup_lt_is_Some_2 in Hj as [x Hx]. eapply (fl_settled _ _ F2); eauto.
  - unfold bcache_flush. rewrite Hp. simpl negb. cbv iota. rewrite (proj2 (Z.ltb_ge i 0)), (proj2 (Z.leb_gt 4 i)) by lia.
    simpl orb. cbv iota. destruct (IH (r .| -1) s Hs) as (s2 & -> & F2 & S2). exists s2.
    split; [rewrite Z.lor_m1_r; simpl; by destruct (forallb _ _)|]. split; [done|].
    intros i' j y Hin Hp' Hy. apply elem_of_cons in Hin as [->|Hin]; [congruence|]. by eapply S2.
Qed.

Lemma flush_all_spec s :
  cache_ok s ->
  exists s', bcache_flush_all s = (if forallb bd_present [0; 1; 2; 3] then 0 else -1, s') /\ flushed s s' /\
    forall i, 0 <= i < 4 -> bd_present i = true -> synced i s'.
Proof.
  intros Hs. destruct (flush_rounds_spec [0; 1; 2; 3] s 0 Hs) as (s' & E & F & S).
  { repeat (apply Forall_cons_2; [lia|]). apply Forall_nil_2. }
  exists s'. split; [exact E|]. split; [done|]. intros i Hi Hp. apply settled_synced; [by apply F|].
  intros j y. apply S; [|done]. rewrite !elem_of_cons. lia.
Qed.

(** ** The cache as an array of sectors *)

Inductive cache_op :=
| OpRead (i k : Z)
| OpModify (i k : Z) (ws : list Z)
| OpWriteThrough (i k : Z) (ws : list Z)
| OpFlush (i : Z)
| OpFlushAll.

Inductive cache_result :=
| GotSector (ws : list Z)
| Done
| Error.

Definition cache_exec (op : cache_op) s : option (cache_result * bcache D) :=
  match op with
  | OpRead i k =>
      '(r, s) ← bcache_get i k s;
      match r with
      | Some j => y ← g_slots s !! j; Some (GotSector (s_data y), s)
      | None => Some (Error, s)
      end
  | OpModify i k ws => '(ok, s) ← bcache_modify i k ws s; Some (if (ok : bool) then Done else Error, s)
  | OpWriteThrough i k ws =>
      '(rc, s) ← bcache_write_through i k ws s; Some (if rc =? 0 then Done else Error, s)
  | OpFlush i => let '(rc, s) := bcache_flush i s in Some (if rc =? 0 then Done else Error, s)
  | OpFlushAll => Some (Done, (bcache_flush_all s).2)
  end.

(** The specification: an array of sectors. *)
Definition array_exec (op : cache_op) (m : Z -> Z -> list Z) : cache_result * (Z -> Z -> list Z) :=
  match op with
  | OpRead i k => (GotSector (m i k), m)
  | OpModify i k ws | OpWriteThrough i k ws =>
      (Done, fun i' k' => if (i' =? i) && (k' =? k) then ws else m i' k')
  | OpFlush _ | OpFlushAll => (Done, m)
  end.

Definition op_ok (op : cache_op) : Prop :=
  match op with
  | OpRead i k => in_range i k
  | OpModify i k ws | OpWriteThrough i k ws => in_range i k /\ length ws = 256%nat
  | OpFlush i => 0 <= i < 4 /\ bd_present i = true
  | OpFlushAll => True
  end.

Fixpoint cache_run (ops : list cache_op) s : option (list cache_result * bcache D) :=
  match ops with
  | [] => Some ([], s)
  | op :: ops => '(r, s) ← cache_exec op s; '(rs, s) ← cache_run ops s; Some (r :: rs, s)
  end.

Fixpoint array_run (ops : list cache_op) (m : Z -> Z -> list Z) : list cache_result * (Z -> Z -> list Z) :=
  match ops with
  | [] => ([], m)
  | op :: ops => let '(r, m) := array_exec op m in let '(rs, m) := array_run ops m in (r :: rs, m)
  end.

Lemma exec_spec op s :
  cache_ok s -> g_lru_clock s < NO_USE -> op_ok op ->
  exists s', cache_exec op s = Some ((array_exec op (view s)).1, s') /\ cache_ok s' /\
    g_lru_clock s' <= g_lru_clock s + 1 /\ forall i k, view s' i k = (array_exec op (view s)).2 i k.
Proof.
  intros Hs Hc Hop. destruct op as [i k|i k ws|i k ws|i|]; simpl in *.
  - destruct (get_spec s i k Hs Hc Hop) as (j & y & s' & -> & (H1 & H2 & H3) & Hf & Hd). simpl.
    apply find_cached_Some in Hf as (Hy & _). rewrite Hy. simpl. rewrite Hd. exists s'. split; [done|]. split; [done|].
    split; [done|]. intros i' k'. rewrite H3. case_if; [|done]. bools. by subst.
  - destruct (modify_spec s i k ws Hs Hc) as (s' & -> & H1 & H2 & H3); [apply Hop|apply Hop|]. by exists s'.
  - destruct (write_through_spec s i k ws Hs Hc) as (s' & -> & (H1 & H2 & H3) & _); [apply Hop|apply Hop|].
    by exists s'.
  - destruct (flush_drive_spec s i Hs) as (s' & -> & [O C V _] & _); [apply Hop|apply Hop|]. exists s'.
    split; [done|]. split; [done|]. split; [lia|done].
  - destruct (flush_all_spec s Hs) as (s' & -> & [O C V _] & _). exists s'. split; [done|]. split; [done|]. split; [lia|done].
Qed.

Lemma array_exec_ext op m m' :
  (forall i k, m i k = m' i k) ->
  (array_exec op m).1 = (array_exec op m').1 /\ forall i k, (array_exec op m).2 i k = (array_exec op m').2 i k.
Proof.
  intros E. destruct op; simpl; (split; [by rewrite ?E|]); intros; try done; by rewrite E.
Qed.

Lemma run_spec ops s m :
  cache_ok s -> g_lru_clock s + Z.of_nat (length ops) < NO_USE -> Forall op_ok ops ->
  (forall i k, view s i k = m i k) ->
  exists s', cache_run ops s = Some ((array_run ops m).1, s') /\ cache_ok s' /\
    forall i k, view s' i k = (array_run ops m).2 i k.
Proof.
  intros Hs Hc Hops. revert s m Hs Hc. induction Hops as [|op ops Hop Hops IH]; intros s m Hs Hc Hm; [by exists s|].
  cbn [cache_run array_run]. simpl in Hc. destruct (exec_spec op s Hs ltac:(lia) Hop) as (s1 & -> & H1 & C1 & V1).
  destruct (array_exec_ext op (view s) m Hm) as [E1 E2]. simpl. rewrite E1.
  destruct (array_exec op m) as [r m1]. simpl in *.
  destruct (IH s1 m1 H1 ltac:(lia)) as (s2 & -> & H2 & V2); [intros i k; by rewrite V1|]. exists s2.
  simpl. by destruct (array_run ops m1).
Qed.

Lemma start_slot (d : D) j y : g_slots (bcache_start d) !! j = Some y -> y = slot_zero.
Proof. unfold bcache_start. cbn [g_slots]. by intros [-> _]%lookup_replicate. Qed.

(** C3: Through the cache a client sees an array of sectors: for every
    sequence of reads, in-place modifications, write-throughs and flushes of
    existing sectors, starting with an empty cache, every read returns the
    last contents written, or those of the medium, whatever was evicted in
    between; and a final [bcache_flush_all] leaves exactly these contents on
    the medium.  The cache never runs out of a slot to evict.  The counter of
    uses must not wrap: the sequence has fewer than [2 ^ 32 - 1] operations. *)
Theorem bcache_refines_array (d : D) ops :
  bd_ok d -> Forall op_ok ops -> Z.of_nat (length ops) < NO_USE ->
  let '(rs, m) := array_run ops (bd_sector d) in
  exists s, cache_run ops (bcache_start d) = Some (rs, s) /\ (forall i k, view s i k = m i k) /\
    forall i k, in_range i k -> bd_sector (b_disk (bcache_flush_all s).2) i k = m i k.
Proof.
  intros Hd Hops Hl. assert (cache_ok (bcache_start d)) as H0.
  { split; [done| | | |done|done].
    - by intros j y ->%start_slot.
    - by intros j j' y y' ->%start_slot.
    - by intros j y ->%start_slot. }
  destruct (run_spec ops (bcache_start d) (bd_sector d) H0) as (s & Hrun & Hs & Hv); [simpl; lia|done| |].
  { intros i k. unfold view. replace (find_cached i k _) with (@None (nat * bcache_slot)); [done|].
    symmetry. apply find_cached_None. by intros j y ->%start_slot. }
  destruct (array_run ops (bd_sector d)) as [rs m]. simpl in *. exists s. split; [done|]. split; [done|].
  intros i k Hr. destruct (flush_all_spec s Hs) as (s' & -> & F & S). simpl. destruct (Hr) as (Hi & Hp & _).
  by rewrite (S i Hi Hp k Hr), (fl_view _ _ F), Hv.
Qed.

(** *** Remarks *)

(** A write-through to a drive that is not there fails, but stays in the cache
    as if it had been stored. *)
Lemma write_through_missing_cached s i k ws :
  cache_ok s -> g_lru_clock s < NO_USE -> 0 <= i < 4 -> bd_present i = false ->
  exists s' s'' j y, bcache_write_through i k ws s = Some (-1, s') /\
    bcache_get i k s' = Some (Some j, s'') /\ g_slots s'' !! j = Some y /\ s_data y = ws.
Proof.
  intros Hs Hc Hi Hp. unfold bcache_write_through, bcache_get.
  rewrite (proj2 (Z.ltb_ge i 0)), (proj2 (Z.leb_gt 4 i)) by lia. simpl orb. cbv iota.
  destruct (find_cached i k s) as [[j y]|] eqn:Ef.
  { apply find_cached_Some in Ef as (Hy & Hv & Ei & Ek). destruct (co_slot s Hs j y Hy Hv) as [(_ & Hp' & _) _ _]. congruence. }
  destruct (evict_spec s Hs Hc) as (j & s1 & -> & H1 & (y & Hy & Hv) & _ & _ & Hnone). specialize (Hnone i k Ef).
  simpl. rewrite Hp. simpl. set (y' := Slot k i ws true false (next_use s1)). set (s' := set_slot j y' _).
  assert (j < length (g_slots s1))%nat as Hj by (by eapply lookup_lt_Some).
  assert (find_cached i k s' = Some (j, y')) as Hf.
  { apply find_slot_unique; [by apply list_lookup_insert_eq|by apply holds_sector_true|]. simpl.
    intros j' z [[-> _]|[_ Hz]]%lookup_put (Hv' & Hi' & Hk')%holds_sector_true; [done| |done].
    rewrite find_cached_None in Hnone. by destruct (Hnone j' z). }
  exists s'. rewrite Hf. eexists _, j, (with_use (next_use (add_hit s')) y'). split; [done|]. split; [done|].
  split; [|done]. simpl. apply list_lookup_insert_eq. by rewrite length_insert.
Qed.
End cache.

(** ** The cache on the ATA driver

    The interface of the theorem instantiated with the driver and a device. *)

Definition demo_disks : BlockDev machine.
Proof.
  refine (ata_block_dev m_chan machine_wait machine_laws [demo_drive] (fun _ => 1000) _). split.
  - intros i d Hd _. apply list_elem_of_lookup_2, list_elem_of_singleton in Hd as ->. apply demo_drive_ok.
  - intros i j d e Hi Hj _ _ _ _. apply lookup_lt_Some in Hi, Hj. simpl in *. lia.
Defined.

Definition demo_ops : list cache_op :=
  [OpModify 0 7 (replicate 256 1); OpRead 0 3; OpWriteThrough 0 8 (replicate 256 2); OpRead 0 7].

Lemma bcache_refines_array_witness :
  exists s : bcache machine,
    cache_run (H := demo_disks) demo_ops (bcache_start demo_machine) =
      Some ([Done; GotSector (replicate 256 0); Done; GotSector (replicate 256 1)], s) /\
    bd_sector (BlockDev := demo_disks) (b_disk (bcache_flush_all (H := demo_disks) s).2) 0 7 = replicate 256 1.
Proof.
  destruct (bcache_refines_array (H := demo_disks) demo_machine demo_ops) as (s & Hrun & _ & Hf).
  - split; [done|]. intros i d. unfold drive_at. destruct (i <? 0); [done|].
    destruct (Z.to_nat i) as [|[]]; [|done|done]. by intros [= <-].
  - repeat (apply Forall_cons_2; [repeat split; vm_compute; congruence|]). apply Forall_nil_2.
  - vm_compute. done.
  - exists s. split; [exact Hrun|]. apply Hf. repeat split; vm_compute; congruence.
Defined.
