(* ===== verification/Net.v ===== *)
(** * Ethernet, ARP, IPv4 and ICMP ([net/net.c], [net/ethernet.c], [net/ip.c])

    Packets are lists of bytes.  A received packet is the memory from its
    pointer on, together with the length the caller passes, since the code
    also reads by lengths found in the packet.  The driver behind
    [net_iface.send] is a parameter. *)

From S2P Require Import Prelude.

Definition NET_BUF_SIZE : Z := 2048.
Definition NET_BUF_COUNT : nat := 64.
Definition ARP_CACHE_SIZE : nat := 16.

Definition PROTO_ICMP : Z := 0x01.
Definition PROTO_TCP : Z := 0x06.
Definition PROTO_UDP : Z := 0x11.
Definition ETH_TYPE_IP4 : Z := 0x0800.
Definition ETH_TYPE_ARP : Z := 0x0806.
Definition IP4_VERSION_IHL : Z := 0x45.
Definition IP4_DEFAULT_TTL : Z := 64.
Definition ICMP_ECHO_REQUEST : Z := 8.
Definition ICMP_ECHO_REPLY : Z := 0.
Definition IP_BROADCAST : Z := 0xFFFFFFFF.

(** ** Byte order *)

Definition htons (x : Z) : Z := u16 (Z.shiftr x 8 .| Z.shiftl x 8).
Definition ntohs (x : Z) : Z := htons x.
Definition htonl (x : Z) : Z :=
  (Z.shiftr x 24 .& 0xFF) .| Z.shiftl (Z.shiftr x 16 .& 0xFF) 8 .|
  Z.shiftl (Z.shiftr x 8 .& 0xFF) 16 .| Z.shiftl (x .& 0xFF) 24.
Definition ntohl (x : Z) : Z := htonl x.

(** The bytes of a field, and the field at an offset. *)
Definition le16 (x : Z) : list Z := [x mod 256; x / 256 mod 256].
Definition le32 (x : Z) : list Z := [x mod 256; x / 256 mod 256; x / 65536 mod 256; x / 16777216 mod 256].
Definition get8 (p : list Z) (off : nat) : Z := default 0 (p !! off).
Definition get16 (p : list Z) (off : nat) : Z := get8 p off + 256 * get8 p (off + 1).
Definition get32 (p : list Z) (off : nat) : Z := get16 p off + 65536 * get16 p (off + 2).

(** [n] bytes of memory from the pointer on. *)
Definition mem_take (n : nat) (p : list Z) : list Z := take n p ++ replicate (n - length p) 0.

(** ** The Internet checksum *)

(** [while (len > 1) { acc += *p++; len -= 2; }], and the last byte of an odd
    length. *)
Fixpoint sum16 (len : nat) (p : list Z) (acc : Z) : Z :=
  match len with
  | O => acc
  | S O => u32 (acc + get8 p 0)
  | S (S len) => sum16 len (drop 2 p) (u32 (acc + get16 p 0))
  end.

(** [while (acc >> 16) acc = (acc & 0xFFFF) + (acc >> 16);]; two rounds are
    enough for 32 bits. *)
Fixpoint fold16 (fuel : nat) (acc : Z) : Z :=
  match fuel with
  | O => acc
  | S fuel => if Z.shiftr acc 16 =? 0 then acc else fold16 fuel ((acc .& 0xFFFF) + Z.shiftr acc 16)
  end.

Definition net_checksum (p : list Z) (len : nat) : Z := u16 (Z.lnot (fold16 3 (sum16 len p 0))).

(** ** Headers *)

Record ip4_hdr := Ip4 {
  version_ihl : Z;
  dscp_ecn : Z;
  total_len : Z;
  ip_id : Z;
  flags_frag : Z;
  ttl : Z;
  protocol : Z;
  ip_checksum : Z;
  ip_src : Z;
  ip_dst : Z
}.

(** The 20 bytes of the packed structure, fields as stored. *)
Definition ip4_bytes (h : ip4_hdr) : list Z :=
  [version_ihl h; dscp_ecn h] ++ le16 (total_len h) ++ le16 (ip_id h) ++ le16 (flags_frag h) ++
  [ttl h; protocol h] ++ le16 (ip_checksum h) ++ le32 (ip_src h) ++ le32 (ip_dst h).

Definition ip4_parse (p : list Z) : ip4_hdr :=
  Ip4 (get8 p 0) (get8 p 1) (get16 p 2) (get16 p 4) (get16 p 6) (get8 p 8) (get8 p 9) (get16 p 10)
    (get32 p 12) (get32 p 16).

Definition with_checksum (c : Z) (h : ip4_hdr) : ip4_hdr :=
  Ip4 (version_ihl h) (dscp_ecn h) (total_len h) (ip_id h) (flags_frag h) (ttl h) (protocol h) c (ip_src h) (ip_dst h).

Record arp_hdr := Arp {
  htype : Z;
  ptype : Z;
  hlen : Z;
  plen : Z;
  oper : Z;
  sha : list Z;
  spa : Z;
  tha : list Z;
  tpa : Z
}.

Definition arp_bytes (a : arp_hdr) : list Z :=
  le16 (htype a) ++ le16 (ptype a) ++ [hlen a; plen a] ++ le16 (oper a) ++ sha a ++ le32 (spa a) ++
  tha a ++ le32 (tpa a).

Definition arp_parse (p : list Z) : arp_hdr :=
  Arp (get16 p 0) (get16 p 2) (get8 p 4) (get8 p 5) (get16 p 6) (take 6 (drop 8 p)) (get32 p 14)
    (take 6 (drop 18 p)) (get32 p 24).

(** ** State *)

Record arp_entry := ArpEntry { a_ip : Z; a_mac : list Z; a_timestamp : Z; a_valid : bool }.

(** [net_iface], the buffer pool, the ARP cache, the two counters of [ip.c]
    and the state of the network card. *)
Record net (Nic : Type) := Net {
  if_mac : list Z;
  if_ip : Z;
  if_netmask : Z;
  if_gateway : Z;
  if_up : bool;
  if_send : bool;
  buf_used : list bool;
  arp_cache : list arp_entry;
  ip4_id : Z;
  g_icmp_reply_seq : Z;
  nic : Nic
}.
Arguments Net {Nic}.
Arguments if_mac {Nic}.
Arguments if_ip {Nic}.
Arguments if_netmask {Nic}.
Arguments if_gateway {Nic}.
Arguments if_up {Nic}.
Arguments if_send {Nic}.
Arguments buf_used {Nic}.
Arguments arp_cache {Nic}.
Arguments ip4_id {Nic}.
Arguments g_icmp_reply_seq {Nic}.
Arguments nic {Nic}.

Definition eth_broadcast : list Z := replicate 6 0xFF.
Definition arp_zero : arp_entry := ArpEntry 0 (replicate 6 0) 0 false.

(** The driver's [send] callback, and what happens to the state during one
    [pause] of the polling loop of [arp_resolve] (interrupts that receive
    packets). *)
Class NetDriver (Nic : Type) := {
  nic_send : list Z -> Nic -> Z * Nic;
  net_pause : net Nic -> net Nic
}.

Section net.
Context {Nic : Type} `{NetDriver Nic}.
Implicit Types (s : net Nic).

Definition eta_net s : net Nic :=
  Net (if_mac s) (if_ip s) (if_netmask s) (if_gateway s) (if_up s) (if_send s) (buf_used s) (arp_cache s)
    (ip4_id s) (g_icmp_reply_seq s) (nic s).
Definition set_if_ip v s : net Nic := ltac:(set_field eta_net (@if_ip Nic) s v).
Definition set_if_netmask v s : net Nic := ltac:(set_field eta_net (@if_netmask Nic) s v).
Definition set_if_gateway v s : net Nic := ltac:(set_field eta_net (@if_gateway Nic) s v).
Definition set_buf_used v s : net Nic := ltac:(set_field eta_net (@buf_used Nic) s v).
Definition set_arp_cache v s : net Nic := ltac:(set_field eta_net (@arp_cache Nic) s v).
Definition set_ip4_id v s : net Nic := ltac:(set_field eta_net (@ip4_id Nic) s v).
Definition set_reply_seq v s : net Nic := ltac:(set_field eta_net (@g_icmp_reply_seq Nic) s v).
Definition set_nic v s : net Nic := ltac:(set_field eta_net (@nic Nic) s v).

(** *** Buffer pool: the index of the zeroed buffer *)

Definition net_alloc_buf s : option nat * net Nic :=
  match find_idx negb (buf_used s) with
  | Some i => (Some i, set_buf_used (<[i := true]> (buf_used s)) s)
  | None => (None, s)
  end.

Definition net_free_buf (i : nat) s : net Nic := set_buf_used (<[i := false]> (buf_used s)) s.

Definition net_send_raw (data : list Z) s : Z * net Nic :=
  if negb (if_up s) || negb (if_send s) then (-1, s)
  else let '(r, d) := nic_send data (nic s) in (r, set_nic d s).

(** *** Ethernet *)

Definition eth_send (dst : list Z) (ethertype : Z) (payload : list Z) s : Z * net Nic :=
  if negb (if_up s) || negb (if_send s) then (-1, s)
  else
    let frame_len := 14 + Z.of_nat (length payload) in
    if NET_BUF_SIZE <? frame_len then (-1, s)
    else
      match net_alloc_buf s with
      | (None, s) => (-1, s)
      | (Some i, s) =>
          let data := dst ++ if_mac s ++ le16 (htons ethertype) ++ payload in
          let '(r, d) := nic_send (take (Z.to_nat (u16 frame_len)) data) (nic s) in
          (r, net_free_buf i (set_nic d s))
      end.

(** [eth_receive]: the payload goes to the handler of its type.  A handler
    returns [None] when it writes outside its buffers. *)
Definition eth_receive {S} (ip4_rx arp_rx : list Z -> Z -> S -> option S) (frame : list Z) (len : Z) (st : S) : option S :=
  if len <? 14 then Some st
  else
    let etype := ntohs (get16 frame 12) in
    if etype =? ETH_TYPE_IP4 then ip4_rx (drop 14 frame) (len - 14) st
    else if etype =? ETH_TYPE_ARP then arp_rx (drop 14 frame) (len - 14) st
    else Some st.

(** *** ARP *)

Definition arp_init s : net Nic := set_arp_cache (replicate ARP_CACHE_SIZE arp_zero) s.

Definition arp_matches (ip : Z) (e : arp_entry) : bool := a_valid e && (a_ip e =? ip).

Definition arp_lookup (ip : Z) s : option arp_entry := snd <$> find_slot (arp_matches ip) (arp_cache s).

Definition arp_cache_add (ip : Z) (mac : list Z) s : net Nic :=
  match find_slot (arp_matches ip) (arp_cache s) with
  | Some (i, e) => set_arp_cache (<[i := ArpEntry (a_ip e) mac (a_timestamp e) (a_valid e)]> (arp_cache s)) s
  | None =>
      let i := default 0%nat (find_idx (fun e => negb (a_valid e)) (arp_cache s)) in
      let e := default arp_zero (arp_cache s !! i) in
      set_arp_cache (<[i := ArpEntry ip mac (a_timestamp e) true]> (arp_cache s)) s
  end.

Definition arp_send_request (target_ip : Z) s : net Nic :=
  (eth_send eth_broadcast ETH_TYPE_ARP
     (arp_bytes (Arp (htons 1) (htons 0x0800) 6 4 (htons 1) (if_mac s) (if_ip s) (replicate 6 0) target_ip)) s).2.

Definition arp_send_reply (target_ip : Z) (target_mac : list Z) s : net Nic :=
  (eth_send target_mac ETH_TYPE_ARP
     (arp_bytes (Arp (htons 1) (htons 0x0800) 6 4 (htons 2) (if_mac s) (if_ip s) target_mac target_ip)) s).2.

Definition arp_receive (pkt : list Z) (len : Z) s : net Nic :=
  if len <? 28 then s
  else
    let a := arp_parse pkt in
    if negb (ntohs (htype a) =? 1) || negb (ntohs (ptype a) =? 0x0800) then s
    else
      let s := arp_cache_add (spa a) (sha a) s in
      if (ntohs (oper a) =? 1) && (tpa a =? if_ip s) then arp_send_reply (spa a) (sha a) s else s.

Definition ARP_WAIT : nat := Z.to_nat 100000.

Fixpoint arp_wait (n : nat) (ip : Z) s : option (list Z) * net Nic :=
  match n with
  | O => (None, s)
  | S n =>
      let s := net_pause s in
      match arp_lookup ip s with
      | Some e => (Some (a_mac e), s)
      | None => arp_wait n ip s
      end
  end.

(** The resolved address; [None] is the result -1. *)
Definition arp_resolve (ip : Z) s : option (list Z) * net Nic :=
  if ip =? IP_BROADCAST then (Some eth_broadcast, s)
  else
    match arp_lookup ip s with
    | Some e => (Some (a_mac e), s)
    | None => arp_wait ARP_WAIT ip (arp_send_request ip s)
    end.

Definition arp_announce s : Z * net Nic :=
  eth_send eth_broadcast ETH_TYPE_ARP
    (arp_bytes (Arp (htons 1) (htons 0x0800) 6 4 (htons 2) (if_mac s) (if_ip s) eth_broadcast (if_ip s))) s.

(** *** IPv4 *)

Definition ip4_init s : net Nic := set_ip4_id 1 (set_arp_cache (replicate ARP_CACHE_SIZE arp_zero) s).

(** The header of a packet of [len] payload bytes, its checksum filled in. *)
Definition ip4_header (dst_ip proto : Z) (len : Z) s : ip4_hdr :=
  let h := Ip4 IP4_VERSION_IHL 0 (htons (u16 (20 + len))) (htons (ip4_id s)) 0 IP4_DEFAULT_TTL proto 0
             (if_ip s) dst_ip in
  with_checksum (net_checksum (ip4_bytes h) 20) h.

(** The gateway unless the destination is on the local network. *)
Definition next_hop (dst_ip : Z) s : Z :=
  if negb (dst_ip .& if_netmask s =? if_ip s .& if_netmask s) then if_gateway s else dst_ip.

Definition ip4_send (dst_ip proto : Z) (payload : list Z) s : Z * net Nic :=
  if negb (if_up s) then (-1, s)
  else
    let pkt_len := 20 + Z.of_nat (length payload) in
    if NET_BUF_SIZE - 14 <? pkt_len then (-1, s)
    else
      match net_alloc_buf s with
      | (None, s) => (-1, s)
      | (Some i, s) =>
          let h := ip4_header dst_ip proto (Z.of_nat (length payload)) s in
          let s := set_ip4_id (u16 (ip4_id s + 1)) s in
          match arp_resolve (next_hop dst_ip s) s with
          | (None, s) => (-1, net_free_buf i s)
          | (Some mac, s) =>
              let '(r, s) := eth_send mac ETH_TYPE_IP4 (ip4_bytes h ++ payload) s in
              (r, net_free_buf i s)
          end
      end.

(** The checks of [ip4_receive]: the header, the payload pointer and its
    length when the packet is for this host.  The length is the difference of
    two fields of the packet, as a [size_t]. *)
Definition ip4_accept (pkt : list Z) (len : Z) s : option (ip4_hdr * list Z * Z) :=
  if len <? 20 then None
  else
    let h := ip4_parse pkt in
    let ihl := u8 ((version_ihl h .& 0x0F) * 4) in
    if (ihl <? 20) || (len <? ihl) then None
    else if negb (net_checksum pkt (Z.to_nat ihl) =? 0) then None
    else if negb (ip_dst h =? if_ip s) && negb (ip_dst h =? IP_BROADCAST) then None
    else Some (h, drop (Z.to_nat ihl) pkt, u64 (ntohs (total_len h) - ihl)).

(** *** ICMP *)

Definition icmp_data : list Z := seqZ 0 32.

(** The echo request of [icmp_ping]. *)
Definition icmp_request (seq : Z) : list Z :=
  let pkt c := [ICMP_ECHO_REQUEST; 0] ++ le16 c ++ le16 (htons 0x1234) ++ le16 (htons seq) ++ icmp_data in
  pkt (net_checksum (pkt 0) 40).

Definition icmp_ping (target seq : Z) s : Z * net Nic := ip4_send target PROTO_ICMP (icmp_request seq) s.

(** The reply to an echo request of [len] bytes. *)
Definition icmp_reply (payload : list Z) (len : nat) : list Z :=
  let pkt c := [ICMP_ECHO_REPLY; 0] ++ le16 c ++ drop 4 (mem_take len payload) in
  pkt (net_checksum (pkt 0) len).

(** [None] when the copy of [len] bytes leaves the buffer. *)
Definition icmp_receive (h : ip4_hdr) (payload : list Z) (len : Z) s : option (net Nic) :=
  if len <? 8 then Some s
  else
    let type := get8 payload 0 in
    s ← (if type =? ICMP_ECHO_REQUEST then
           match net_alloc_buf s with
           | (None, s) => Some s
           | (Some i, s) =>
               if NET_BUF_SIZE <? len then None
               else
                 let '(_, s) := ip4_send (ip_src h) PROTO_ICMP (icmp_reply payload (Z.to_nat len)) s in
                 Some (net_free_buf i s)
           end
         else Some s);
    if type =? ICMP_ECHO_REPLY then Some (set_reply_seq (ntohs (get16 payload 6)) s) else Some s.

(** [ip4_receive] and [net_receive] for a state that contains that of the
    network layer; the transport protocols are arguments. *)
Section dispatch.
Context {S : Type} (get : S -> net Nic) (put : net Nic -> S -> S)
  (tcp_rx udp_rx : ip4_hdr -> list Z -> Z -> S -> option S).

Definition ip4_receive (pkt : list Z) (len : Z) (st : S) : option S :=
  match ip4_accept pkt len (get st) with
  | None => Some st
  | Some (h, payload, n) =>
      if protocol h =? PROTO_ICMP then (fun s => put s st) <$> icmp_receive h payload n (get st)
      else if protocol h =? PROTO_TCP then tcp_rx h payload n st
      else if protocol h =? PROTO_UDP then udp_rx h payload n st
      else Some st
  end.

Definition net_receive (frame : list Z) (len : Z) (st : S) : option S :=
  eth_receive ip4_receive (fun pkt len st => Some (put (arp_receive pkt len (get st)) st)) frame len st.
End dispatch.

Definition ip_set_addr (addr : Z) s : net Nic := set_if_ip addr s.
Definition ip_set_gateway (gw : Z) s : net Nic := set_if_gateway gw s.
Definition ip_set_netmask (mask : Z) s : net Nic := set_if_netmask mask s.
Definition ip_get_addr s : Z := if_ip s.
End net.

(** ** Byte order *)

Definition byte (x : Z) : Prop := 0 <= x < 256.

Lemma mod_256 x : byte (x mod 256).
Proof. apply Z.mod_pos_bound. lia. Qed.

Lemma le16_bytes x : Forall byte (le16 x).
Proof. repeat constructor; apply mod_256. Qed.
Lemma le32_bytes x : Forall byte (le32 x).
Proof. repeat constructor; apply mod_256. Qed.
#[local] Hint Resolve mod_256 le16_bytes le32_bytes : core.

Lemma lor_add_256 a b : 0 <= a < 256 -> a .| (b * 256) = a + b * 256.
Proof. intros Ha. apply (lor_low_high a b 8); [lia|done]. Qed.

Lemma htons_val x : 0 <= x < 65536 -> htons x = x / 256 + x mod 256 * 256.
Proof.
  intros Hx. unfold htons. rewrite Z.shiftr_div_pow2, Z.shiftl_mul_pow2 by lia. change (2 ^ 8) with 256.
  rewrite lor_add_256 by (split; [apply Z.div_pos; lia|apply Z.div_lt_upper_bound; lia]).
  unfold u16. change (2 ^ 16) with 65536. Z.to_euclidean_division_equations. lia.
Qed.

Lemma htons_range x : 0 <= x < 65536 -> 0 <= htons x < 65536.
Proof. intros Hx. rewrite htons_val by done. Z.to_euclidean_division_equations. lia. Qed.

Lemma ntohs_htons x : 0 <= x < 65536 -> ntohs (htons x) = x.
Proof.
  intros Hx. unfold ntohs. pose proof (htons_range x Hx). rewrite htons_val by done. rewrite htons_val by done.
  Z.to_euclidean_division_equations. lia.
Qed.

Lemma le32_val x :
  0 <= x < 2 ^ 32 ->
  x mod 256 + 256 * (x / 256 mod 256) + 65536 * (x / 65536 mod 256 + 256 * (x / 16777216 mod 256)) = x.
Proof. intros Hx. Z.to_euclidean_division_equations. lia. Qed.

Lemma htonl_val x :
  htonl x = x / 16777216 mod 256 + x / 65536 mod 256 * 256 + x / 256 mod 256 * 65536 + x mod 256 * 16777216.
Proof.
  unfold htonl. rewrite !Z.shiftr_div_pow2, !Z.shiftl_mul_pow2 by lia. change 0xFF with (Z.ones 8).
  rewrite !Z.land_ones by lia. change (2 ^ 8) with 256. change (2 ^ 16) with 65536. change (2 ^ 24) with 16777216.
  pose proof (mod_256 (x / 16777216)) as B3. pose proof (mod_256 (x / 65536)) as B2. pose proof (mod_256 (x / 256)) as B1.
  unfold byte in *. rewrite lor_add_256 by done.
  rewrite (lor_low_high _ (x / 256 mod 256) 16) by (change (2 ^ 16) with 65536; lia).
  rewrite (lor_low_high _ (x mod 256) 24) by (change (2 ^ 16) with 65536; change (2 ^ 24) with 16777216; lia).
  done.
Qed.

Lemma htonl_range x : 0 <= htonl x < 2 ^ 32.
Proof.
  rewrite htonl_val. pose proof (mod_256 (x / 16777216)) as B3. pose proof (mod_256 (x / 65536)) as B2.
  pose proof (mod_256 (x / 256)) as B1. pose proof (mod_256 x) as B0. unfold byte in *. lia.
Qed.

Lemma ntohl_htonl x : 0 <= x < 2 ^ 32 -> ntohl (htonl x) = x.
Proof.
  intros Hx. unfold ntohl. rewrite (htonl_val (htonl x)), htonl_val.
  rewrite <- (le32_val x) at 17 by done. unfold byte in *.
  pose proof (mod_256 (x / 16777216)) as B3. pose proof (mod_256 (x / 65536)) as B2.
  pose proof (mod_256 (x / 256)) as B1. pose proof (mod_256 x) as B0. unfold byte in *.
  generalize dependent (x mod 256). intros b0 B0. generalize dependent (x / 256 mod 256). intros b1 B1.
  generalize dependent (x / 65536 mod 256). intros b2 B2. generalize dependent (x / 16777216 mod 256). intros b3 B3.
  Z.to_euclidean_division_equations. lia.
Qed.

Lemma get16_le16 x r : 0 <= x < 65536 -> get16 (le16 x ++ r) 0 = x.
Proof. intros Hx. unfold get16, get8. simpl. Z.to_euclidean_division_equations. lia. Qed.

Lemma le16_val x : 0 <= x < 65536 -> x mod 256 + 256 * (x / 256 mod 256) = x.
Proof. intros Hx. Z.to_euclidean_division_equations. lia. Qed.


(** ** The checksum

    The sum of the 16-bit words; the checksum is 0 when it is a non-zero
    multiple of 65535. *)

Fixpoint word_sum (len : nat) (p : list Z) : Z :=
  match len with
  | O => 0
  | S O => get8 p 0
  | S (S len) => get16 p 0 + word_sum len (drop 2 p)
  end.

(** Induction by words. *)
Lemma words_ind (P : nat -> Prop) : P 0%nat -> P 1%nat -> (forall n, P n -> P (S (S n))) -> forall n, P n.
Proof. intros H0 H1 H2. fix IH 1. intros [|[|n]]; [done|done|]. apply H2, IH. Qed.

Lemma sum16_spec len p acc : 0 <= acc < 2 ^ 32 -> sum16 len p acc = u32 (acc + word_sum len p).
Proof.
  revert p acc. induction len as [| |len IH] using words_ind; intros p acc Ha; cbn [sum16 word_sum].
  - rewrite Z.add_0_r. symmetry. by apply u32_small.
  - done.
  - rewrite IH by apply u32_range. unfold u32. rewrite Zplus_mod_idemp_l. f_equal. lia.
Qed.

Lemma get8_byte p k : Forall byte p -> byte (get8 p k).
Proof.
  intros Hp. unfold get8. destruct (p !! k) as [x|] eqn:E; simpl; [by eapply Forall_lookup_1|]. unfold byte. lia.
Qed.

Lemma word_sum_range len p : Forall byte p -> 0 <= word_sum len p <= 65535 * Z.of_nat len.
Proof.
  revert p. induction len as [| |len IH] using words_ind; intros p Hp; cbn [word_sum]; [lia| |].
  - pose proof (get8_byte p 0 Hp) as Hb. unfold byte in Hb. lia.
  - pose proof (get8_byte p 0 Hp) as H0. pose proof (get8_byte p 1 Hp) as H1. unfold byte in *.
    specialize (IH (drop 2 p) (Forall_drop _ _ _ Hp)). unfold get16. simpl plus. lia.
Qed.

Lemma fold_step a : (a .& 0xFFFF) + Z.shiftr a 16 = a mod 65536 + a / 65536.
Proof. change 0xFFFF with (Z.ones 16). by rewrite Z.land_ones, Z.shiftr_div_pow2 by lia. Qed.

Lemma fold16_spec acc :
  0 <= acc < 2 ^ 32 ->
  0 <= fold16 3 acc < 65536 /\ (fold16 3 acc) mod 65535 = acc mod 65535 /\ (fold16 3 acc = 0 <-> acc = 0).
Proof.
  intros Ha. assert (forall a, (a mod 65536 + a / 65536) mod 65535 = a mod 65535) as Hm.
  { intros a. rewrite (Z.div_mod a 65536) at 3 by lia.
    replace (65536 * (a / 65536) + a mod 65536) with (a mod 65536 + a / 65536 + a / 65536 * 65535) by lia.
    by rewrite Z.mod_add by lia. }
  assert (forall a, (Z.shiftr a 16 =? 0) = (a / 65536 =? 0)) as Hs by (intros; by rewrite Z.shiftr_div_pow2).
  cbn [fold16]. rewrite !fold_step, !Hs. set (a1 := acc mod 65536 + acc / 65536).
  set (a2 := a1 mod 65536 + a1 / 65536). pose proof (Hm acc) as M1. pose proof (Hm a1) as M2. fold a1 in M1. fold a2 in M2.
  assert (0 <= a1 < 131071) by (unfold a1; Z.to_euclidean_division_equations; lia).
  assert (0 <= a2 < 65536) by (unfold a2; Z.to_euclidean_division_equations; lia).
  assert (a1 = 0 -> acc = 0) by (unfold a1; Z.to_euclidean_division_equations; lia).
  assert (acc / 65536 <> 0 -> a1 <> 0) by (unfold a1; Z.to_euclidean_division_equations; lia).
  assert (a1 / 65536 <> 0 -> a2 <> 0) as Hnz by (unfold a2; Z.to_euclidean_division_equations; lia).
  assert (a2 / 65536 = 0) as E2 by (apply Z.div_small; lia). rewrite E2, Z.eqb_refl.
  destruct (Z.eqb_spec (acc / 65536) 0) as [E0|E0]; [|destruct (Z.eqb_spec (a1 / 65536) 0) as [E1|E1]].
  - apply Z.div_small_iff in E0 as [?|?]; [|lia|lia]. done.
  - apply Z.div_small_iff in E1 as [?|?]; [|lia|lia]. split; [done|]. split; [done|]. split; [auto|]. intros ->. by destruct E0.
  - split; [done|]. split; [congruence|]. split; [|intros ->; by destruct E0]. intros E. by destruct (Hnz E1).
Qed.

Lemma lnot_u16 x : 0 <= x < 65536 -> u16 (Z.lnot x) = 65535 - x.
Proof.
  intros Hx. unfold u16, Z.lnot. change (2 ^ 16) with 65536. replace (Z.pred (- x)) with (65535 - x + -1 * 65536) by lia.
  rewrite Z_mod_plus_full. apply Z.mod_small. lia.
Qed.

(** A packet of at most 65535 bytes. *)
Definition packet (p : list Z) : Prop := Forall byte p /\ Z.of_nat (length p) <= 65535.

Lemma checksum_fold p len :
  Forall byte p -> Z.of_nat len <= 65536 ->
  let sum := word_sum len p in
  exists f, net_checksum p len = 65535 - f /\ 0 <= f < 65536 /\ f mod 65535 = sum mod 65535 /\ (f = 0 <-> sum = 0).
Proof.
  intros Hp Hl sum. pose proof (word_sum_range len p Hp) as Hr. fold sum in Hr. exists (fold16 3 sum).
  destruct (fold16_spec sum) as (R & M & Z0); [lia|]. split; [|done]. unfold net_checksum.
  rewrite sum16_spec by lia. simpl (0 + _). fold sum. rewrite u32_small by lia. by apply lnot_u16.
Qed.

(** The check of a receiver, in terms of the words. *)
Lemma checksum_zero p len :
  Forall byte p -> Z.of_nat len <= 65536 ->
  (net_checksum p len = 0 <-> word_sum len p mod 65535 = 0 /\ word_sum len p <> 0).
Proof.
  intros Hp Hl. destruct (checksum_fold p len Hp Hl) as (f & -> & Hf & Hm & H0). split.
  - intros E. assert (f = 65535) as -> by lia. split; [by rewrite <- Hm|]. rewrite <- H0. lia.
  - intros [E1 E2]. rewrite <- Hm in E1. rewrite <- H0 in E2.
    destruct (decide (f = 65535)) as [->|]; [done|]. rewrite Z.mod_small in E1; lia.
Qed.

Lemma net_checksum_range p len : Forall byte p -> Z.of_nat len <= 65536 -> 0 <= net_checksum p len < 65536.
Proof. intros Hp Hl. destruct (checksum_fold p len Hp Hl) as (f & -> & Hf & _). lia. Qed.

Lemma word_sum_app k n pre q :
  length pre = (2 * k)%nat -> word_sum (length pre + n) (pre ++ q) = word_sum (length pre) pre + word_sum n q.
Proof.
  revert pre. induction k as [|k IH]; intros pre Hk.
  - destruct pre; [done|simpl in Hk; lia].
  - destruct pre as [|x [|y pre]]; simpl in Hk; [lia|lia|]. specialize (IH pre ltac:(lia)).
    cbn [length plus word_sum app]. unfold get16, get8. simpl. rewrite !drop_0, IH. lia.
Qed.

(** The words of the first [n] bytes only. *)
Lemma word_sum_prefix n p r : (n <= length p)%nat -> word_sum n (p ++ r) = word_sum n p.
Proof.
  revert p. induction n as [| |n IH] using words_ind; intros p Hn; [done| |].
  - destruct p; [simpl in Hn; lia|done].
  - destruct p as [|x [|y p]]; simpl in Hn; [lia|lia|]. cbn [word_sum app]. unfold get16, get8. simpl.
    rewrite !drop_0. rewrite IH by lia. done.
Qed.

Lemma net_checksum_prefix n p r : (n <= length p)%nat -> net_checksum (p ++ r) n = net_checksum p n.
Proof. intros Hn. unfold net_checksum. by rewrite !sum16_spec, word_sum_prefix by (done || lia). Qed.

(** A packet with a 16-bit field at an even offset. *)
Definition field_at (pre post : list Z) (c : Z) : list Z := pre ++ le16 c ++ post.

Lemma word_sum_field k pre post c :
  length pre = (2 * k)%nat -> 0 <= c < 65536 ->
  word_sum (length (field_at pre post c)) (field_at pre post c) =
  word_sum (length pre) pre + c + word_sum (length post) post.
Proof.
  intros Hk Hc. unfold field_at. rewrite length_app, (word_sum_app k) by done. cbn [le16 app length word_sum].
  unfold get16, get8. simpl. rewrite drop_0, le16_val by done. lia.
Qed.

Lemma length_field pre post c : length (field_at pre post c) = (length pre + (2 + length post))%nat.
Proof. unfold field_at. by rewrite !length_app. Qed.

Lemma field_at_bytes pre post c : Forall byte pre -> Forall byte post -> Forall byte (field_at pre post c).
Proof. intros H1 H2. unfold field_at. rewrite !Forall_app. auto. Qed.

(** A field that holds the checksum of the packet with a zero field makes the
    packet verify. *)
Lemma checksum_verifies k pre post :
  length pre = (2 * k)%nat -> Forall byte pre -> Forall byte post ->
  Z.of_nat (length pre + (2 + length post)) <= 65535 ->
  let c := net_checksum (field_at pre post 0) (length pre + (2 + length post)) in
  0 <= c < 65536 /\ net_checksum (field_at pre post c) (length pre + (2 + length post)) = 0.
Proof.
  intros Hk Hpre Hpost Hl c. set (len := (length pre + (2 + length post))%nat) in *.
  assert (0 <= c < 65536) as Hc by (apply net_checksum_range; [by apply field_at_bytes|lia]).
  split; [done|]. apply checksum_zero; [by apply field_at_bytes|lia|].
  destruct (checksum_fold (field_at pre post 0) len) as (f & Ec & Hf & Hm & H0); [by apply field_at_bytes|lia|].
  fold c in Ec. unfold len in *. rewrite <- (length_field pre post 0) in Hm, H0. rewrite <- (length_field pre post c).
  rewrite (word_sum_field k) in Hm, H0 by (done || lia). rewrite (word_sum_field k) by done.
  pose proof (word_sum_range (length pre) pre Hpre). pose proof (word_sum_range (length post) post Hpost).
  set (a := word_sum (length pre) pre) in *. set (b := word_sum (length post) post) in *. split; [|lia].
  replace (a + c + b) with (65535 - f + (a + 0 + b)) by lia.
  rewrite <- Zplus_mod_idemp_r, <- Hm, Zplus_mod_idemp_r. by replace (65535 - f + f) with 65535 by lia.
Qed.

(** A packet whose checksum field, at any even offset, is filled with
    [net_checksum] of the packet with a zero field is accepted by the check
    of a receiver; and if any one aligned 16-bit word of it is changed, other
    than from 0x0000 to 0xFFFF or back, the receiver rejects it. *)
Theorem checksum_detects k pre post :
  length pre = (2 * k)%nat -> Forall byte pre -> Forall byte post ->
  let len := (length pre + (2 + length post))%nat in
  Z.of_nat len <= 65535 ->
  let pkt := field_at pre post (net_checksum (field_at pre post 0) len) in
  net_checksum pkt len = 0 /\
  forall j a b w w', pkt = field_at a b w -> length a = (2 * j)%nat -> 0 <= w < 65536 -> 0 <= w' < 65536 ->
    w <> w' -> ~ (w = 0 /\ w' = 65535) -> ~ (w = 65535 /\ w' = 0) -> net_checksum (field_at a b w') len <> 0.
Proof.
  intros Hk Hpre Hpost len Hl pkt. destruct (checksum_verifies k pre post Hk Hpre Hpost Hl) as [Hc Hv].
  fold len in Hc, Hv. fold pkt in Hv. split; [done|]. intros j a b w w' E Hj Hw Hw' Hne N1 N2 Hz.
  assert (Forall byte pkt) as Hb by (by apply field_at_bytes). rewrite E in Hb, Hv.
  assert (Forall byte (field_at a b w')) as Hb'.
  { unfold field_at in *. rewrite !Forall_app in *. by destruct Hb as (? & _ & ?). }
  assert (len = length (field_at a b w)) as El by (by rewrite <- E; unfold pkt; rewrite length_field).
  apply checksum_zero in Hv as [Hv _]; [|done|lia]. apply checksum_zero in Hz as [Hz _]; [|done|lia].
  assert (len = length (field_at a b w')) as El' by (rewrite El, !length_field; done).
  rewrite El, (word_sum_field j) in Hv by done. rewrite El', (word_sum_field j) in Hz by done.
  set (x := word_sum (length a) a) in *. set (y := word_sum (length b) b) in *.
  assert ((w - w') mod 65535 = 0) as Hd.
  { replace (w - w') with (x + w + y - (x + w' + y)) by lia. by rewrite Zminus_mod, Hv, Hz. }
  Z.to_euclidean_division_equations. lia.
Qed.

(** ** Headers *)

Lemma mem_take_app p r n : length p = n -> mem_take n (p ++ r) = p.
Proof.
  intros <-. unfold mem_take. rewrite take_app_length, length_app. replace (_ - _)%nat with 0%nat by lia. apply app_nil_r.
Qed.

Lemma length_mem_take n p : length (mem_take n p) = n.
Proof. unfold mem_take. rewrite length_app, length_take, length_replicate. lia. Qed.

Lemma get8_app p q k : get8 (p ++ q) (length p + k) = get8 q k.
Proof. unfold get8. by rewrite lookup_app_r, Nat.add_comm, Nat.add_sub by lia. Qed.

Lemma get16_app p q k : get16 (p ++ q) (length p + k) = get16 q k.
Proof. unfold get16. by rewrite <- Nat.add_assoc, !get8_app. Qed.

Record ip4_ok (h : ip4_hdr) : Prop := {
  io_ver : byte (version_ihl h);
  io_dscp : byte (dscp_ecn h);
  io_len : 0 <= total_len h < 65536;
  io_id : 0 <= ip_id h < 65536;
  io_frag : 0 <= flags_frag h < 65536;
  io_ttl : byte (ttl h);
  io_proto : byte (protocol h);
  io_sum : 0 <= ip_checksum h < 65536;
  io_src : 0 <= ip_src h < 2 ^ 32;
  io_dst : 0 <= ip_dst h < 2 ^ 32
}.

Lemma length_ip4_bytes h : length (ip4_bytes h) = 20%nat.
Proof. done. Qed.

Lemma ip4_parse_bytes h r : ip4_ok h -> ip4_parse (ip4_bytes h ++ r) = h.
Proof.
  intros [? ? ? ? ? ? ? ? ? ?]. destruct h; simpl in *. unfold ip4_parse, get32, get16, get8. simpl.
  rewrite !le16_val, !le32_val by done. done.
Qed.

(** The header around its checksum. *)
Definition ip4_front (h : ip4_hdr) : list Z :=
  [version_ihl h; dscp_ecn h] ++ le16 (total_len h) ++ le16 (ip_id h) ++ le16 (flags_frag h) ++ [ttl h; protocol h].
Definition ip4_back (h : ip4_hdr) : list Z := le32 (ip_src h) ++ le32 (ip_dst h).

Lemma ip4_bytes_field h c : ip4_bytes (with_checksum c h) = field_at (ip4_front h) (ip4_back h) c.
Proof. done. Qed.

Lemma ip4_front_bytes h : ip4_ok h -> Forall byte (ip4_front h).
Proof. intros []. unfold ip4_front. rewrite !Forall_app. repeat split; auto. Qed.
Lemma ip4_back_bytes h : Forall byte (ip4_back h).
Proof. unfold ip4_back. rewrite Forall_app. auto. Qed.

(** ** Sending and receiving *)

Section frames.
Context {Nic : Type} `{NetDriver Nic}.
Implicit Types (s t : net Nic).

Definition free_bufs s : nat := count_if negb (buf_used s).

Lemma alloc_buf_spec s :
  (0 < free_bufs s)%nat ->
  exists i, net_alloc_buf s = (Some i, set_buf_used (<[i := true]> (buf_used s)) s) /\
    buf_used s !! i = Some false /\ free_bufs (set_buf_used (<[i := true]> (buf_used s)) s) = pred (free_bufs s).
Proof.
  intros Hf. unfold net_alloc_buf. destruct (find_idx negb (buf_used s)) as [i|] eqn:E.
  - exists i. apply find_idx_Some in E as ([] & Hx & Hn & _); [done|]. split; [done|]. split; [done|].
    unfold free_bufs in *. simpl. pose proof (count_if_insert negb (buf_used s) i false true Hx) as Hc. simpl in Hc. lia.
  - exfalso. unfold free_bufs in Hf. rewrite find_idx_None in E. revert Hf E. generalize (buf_used s). intros l.
    induction l as [|x l IH]; simpl; [lia|]. intros Hf E. rewrite (E 0%nat x eq_refl) in Hf.
    apply IH; [done|]. intros i y Hy. by apply (E (S i)).
Qed.

Lemma set_buf_used_id s : set_buf_used (buf_used s) s = s.
Proof. by destruct s. Qed.

(** A buffer that is taken and given back leaves no trace. *)
Lemma free_restores i d v s :
  buf_used s !! i = Some false ->
  net_free_buf i (set_nic d (set_ip4_id v (set_buf_used (<[i := true]> (buf_used s)) s))) = set_nic d (set_ip4_id v s).
Proof.
  intros Hi. destruct s; simpl in *. unfold net_free_buf, set_buf_used, set_nic, set_ip4_id. simpl. f_equal.
  rewrite list_insert_insert_eq. by apply list_insert_id.
Qed.

(** The frame on the wire. *)
Definition eth_frame (dst : list Z) (ethertype : Z) (payload : list Z) s : list Z :=
  dst ++ if_mac s ++ le16 (htons ethertype) ++ payload.

(** The card accepts frames, and there is room for the payload. *)
Definition can_send s (payload : list Z) (bufs : nat) : Prop :=
  if_up s = true /\ if_send s = true /\ length (if_mac s) = 6%nat /\ (bufs <= free_bufs s)%nat /\
  Z.of_nat (length payload) <= NET_BUF_SIZE - 14.

Lemma eth_send_spec dst et payload s :
  can_send s payload 1 -> length dst = 6%nat ->
  let '(r, d) := nic_send (eth_frame dst et payload s) (nic s) in eth_send dst et payload s = (r, set_nic d s).
Proof.
  intros (Hup & Hsend & Hmac & Hbuf & Hlen) Hdst. unfold eth_send. rewrite Hup, Hsend. simpl orb. cbv iota zeta.
  rewrite (proj2 (Z.ltb_ge _ _)) by lia. destruct (alloc_buf_spec s Hbuf) as (i & -> & Hi & _).
  simpl if_mac. simpl nic. fold (eth_frame dst et payload s).
  assert (take (Z.to_nat (u16 (14 + Z.of_nat (length payload)))) (eth_frame dst et payload s) = eth_frame dst et payload s) as ->.
  { apply take_ge. unfold NET_BUF_SIZE in Hlen. rewrite u16_small by lia. unfold eth_frame.
    rewrite !length_app, Hdst, Hmac. simpl. lia. }
  destruct (nic_send _ _) as [r d]. f_equal. unfold net_free_buf. destruct s; simpl in *. unfold set_buf_used, set_nic. simpl.
  f_equal. rewrite list_insert_insert_eq. by apply list_insert_id.
Qed.

(** The address of the next hop is known. *)
Definition resolved (dst_ip : Z) (mac : list Z) s : Prop :=
  length mac = 6%nat /\
  if next_hop dst_ip s =? IP_BROADCAST then mac = eth_broadcast
  else exists e, arp_lookup (next_hop dst_ip s) s = Some e /\ a_mac e = mac.

Lemma resolve_spec dst_ip mac s : resolved dst_ip mac s -> arp_resolve (next_hop dst_ip s) s = (Some mac, s).
Proof.
  intros [_ Hr]. unfold arp_resolve. destruct (next_hop dst_ip s =? IP_BROADCAST); [by subst|].
  destruct Hr as (e & -> & <-). done.
Qed.

(** The packet [ip4_send] builds. *)
Definition ip4_packet (dst_ip proto : Z) (payload : list Z) s : list Z :=
  ip4_bytes (ip4_header dst_ip proto (Z.of_nat (length payload)) s) ++ payload.

Lemma ip4_send_spec dst_ip proto payload mac s :
  can_send s payload 2 -> Z.of_nat (length payload) <= NET_BUF_SIZE - 34 -> resolved dst_ip mac s ->
  let '(r, d) := nic_send (eth_frame mac ETH_TYPE_IP4 (ip4_packet dst_ip proto payload s) s) (nic s) in
  ip4_send dst_ip proto payload s = (r, set_nic d (set_ip4_id (u16 (ip4_id s + 1)) s)).
Proof.
  intros (Hup & Hsend & Hmac & Hbuf & _) Hlen Hres. unfold ip4_send. rewrite Hup. simpl negb. cbv iota zeta.
  rewrite (proj2 (Z.ltb_ge _ _)) by lia. destruct (alloc_buf_spec s) as (i & -> & Hi & Hf); [lia|].
  set (s1 := set_ip4_id _ _). change (next_hop dst_ip s1) with (next_hop dst_ip s).
  assert (resolved dst_ip mac s1) as Hres1 by done. apply resolve_spec in Hres1.
  change (next_hop dst_ip s1) with (next_hop dst_ip s) in Hres1. rewrite Hres1.
  change (ip4_bytes _ ++ payload) with (ip4_packet dst_ip proto payload s).
  pose proof (eth_send_spec mac ETH_TYPE_IP4 (ip4_packet dst_ip proto payload s) s1) as Hs.
  change (eth_frame mac ETH_TYPE_IP4 _ s1) with (eth_frame mac ETH_TYPE_IP4 (ip4_packet dst_ip proto payload s) s) in Hs.
  change (nic s1) with (nic s) in Hs. destruct (nic_send _ (nic s)) as [r d]. rewrite Hs; [| |apply Hres].
  - f_equal. by apply free_restores.
  - split; [done|]. split; [done|]. split; [done|]. split; [change (free_bufs s1) with (free_bufs (set_buf_used (<[i := true]> (buf_used s)) s)); lia|].
    unfold ip4_packet. rewrite length_app, length_ip4_bytes. lia.
Qed.

(** Addresses and counters in range. *)
Definition host_ok s : Prop := 0 <= if_ip s < 2 ^ 32 /\ 0 <= ip4_id s < 65536.

(** A header with the checksum that [ip4_send] computes. *)
Definition seal (h : ip4_hdr) : ip4_hdr := with_checksum (net_checksum (ip4_bytes (with_checksum 0 h)) 20) h.

Lemma seal_spec h :
  ip4_ok h -> ip4_ok (seal h) /\ forall r, net_checksum (ip4_bytes (seal h) ++ r) 20 = 0.
Proof.
  intros Hh. destruct (checksum_verifies 5 (ip4_front h) (ip4_back h) eq_refl (ip4_front_bytes h Hh) (ip4_back_bytes h) ltac:(done))
    as [Hc Hv].
  rewrite <- !ip4_bytes_field in Hc, Hv.
  change (length (ip4_front h) + (2 + length (ip4_back h)))%nat with 20%nat in Hc, Hv. split.
  - destruct Hh. by split.
  - intros r. by rewrite net_checksum_prefix.
Qed.

Lemma ip4_header_spec dst_ip proto len s :
  host_ok s -> 0 <= dst_ip < 2 ^ 32 -> byte proto -> 0 <= len <= 65515 ->
  let h := ip4_header dst_ip proto len s in
  ip4_ok h /\ (forall r, net_checksum (ip4_bytes h ++ r) 20 = 0) /\ version_ihl h = IP4_VERSION_IHL /\
  ntohs (total_len h) = 20 + len /\ protocol h = proto /\ ip_src h = if_ip s /\ ip_dst h = dst_ip.
Proof.
  intros [Hip Hid] Hdst Hproto Hlen. unfold ip4_header. set (h0 := Ip4 _ _ _ _ _ _ _ _ _ _).
  assert (ip4_ok h0) as Hh0.
  { split; simpl; try done; try (unfold byte; lia).
    - apply htons_range. unfold u16. apply Z.mod_pos_bound. lia.
    - by apply htons_range. }
  destruct (seal_spec h0 Hh0) as [H1 H2]. split; [exact H1|]. split; [exact H2|]. split; [done|]. split; [|done].
  simpl. rewrite u16_small by lia. apply ntohs_htons. lia.
Qed.

(** A sealed header for this host is accepted; the length of the payload is
    what the header says, whatever the length of the packet. *)
Lemma accept_header h p len t :
  ip4_ok h -> (forall r, net_checksum (ip4_bytes h ++ r) 20 = 0) -> version_ihl h = IP4_VERSION_IHL -> 20 <= len ->
  ip_dst h = if_ip t \/ ip_dst h = IP_BROADCAST ->
  ip4_accept (ip4_bytes h ++ p) len t = Some (h, p, u64 (ntohs (total_len h) - 20)).
Proof.
  intros Hok Hck Hver Hlen Hto. unfold ip4_accept. rewrite (proj2 (Z.ltb_ge len 20)) by lia.
  rewrite ip4_parse_bytes by done. rewrite Hver. change (u8 ((IP4_VERSION_IHL .& 0x0F) * 4)) with 20. cbv zeta.
  rewrite (proj2 (Z.ltb_ge len 20)) by lia. change (20 <? 20) with false. simpl orb. cbv iota.
  change (Z.to_nat 20) with 20%nat. rewrite Hck, Z.eqb_refl. simpl negb. cbv iota.
  assert (negb (ip_dst h =? if_ip t) && negb (ip_dst h =? IP_BROADCAST) = false) as ->.
  { destruct Hto as [<-| ->]; rewrite Z.eqb_refl; [done|]. apply andb_false_r. }
  by rewrite drop_app_length'.
Qed.

(** A header for another host is refused. *)
Lemma refuse_header h p len t :
  ip4_ok h -> ip_dst h <> if_ip t -> ip_dst h <> IP_BROADCAST -> ip4_accept (ip4_bytes h ++ p) len t = None.
Proof.
  intros Hok Hip Hb. unfold ip4_accept. rewrite ip4_parse_bytes by done. cbv zeta.
  rewrite (proj2 (Z.eqb_neq _ _) Hip), (proj2 (Z.eqb_neq _ _) Hb). by repeat case_if.
Qed.

Lemma ip4_refuse_spec dst_ip proto payload rest len s t :
  host_ok s -> 0 <= dst_ip < 2 ^ 32 -> byte proto -> Z.of_nat (length payload) <= 65515 ->
  dst_ip <> if_ip t -> dst_ip <> IP_BROADCAST ->
  ip4_accept (ip4_packet dst_ip proto payload s ++ rest) len t = None.
Proof.
  intros Hs Hdst Hproto Hlen Hip Hb.
  destruct (ip4_header_spec dst_ip proto (Z.of_nat (length payload)) s Hs Hdst Hproto ltac:(lia))
    as (Hok & _ & _ & _ & _ & _ & Hd).
  unfold ip4_packet. rewrite <- app_assoc. apply refuse_header; [done|by rewrite Hd|by rewrite Hd].
Qed.

(** The receiver's checks accept the packet and return its payload. *)
Lemma ip4_accept_spec dst_ip proto payload rest s t :
  host_ok s -> 0 <= dst_ip < 2 ^ 32 -> byte proto -> Z.of_nat (length payload) <= 65515 ->
  dst_ip = if_ip t \/ dst_ip = IP_BROADCAST ->
  exists h, ip4_accept (ip4_packet dst_ip proto payload s ++ rest) (20 + Z.of_nat (length payload)) t =
    Some (h, payload ++ rest, Z.of_nat (length payload)) /\
    protocol h = proto /\ ip_src h = if_ip s /\ ip_dst h = dst_ip.
Proof.
  intros Hs Hdst Hproto Hlen Hto.
  destruct (ip4_header_spec dst_ip proto (Z.of_nat (length payload)) s Hs Hdst Hproto ltac:(lia))
    as (Hok & Hck & Hver & Htl & Hp & Hsrc & Hd).
  unfold ip4_packet. set (h := ip4_header _ _ _ _) in *. clearbody h. exists h. split; [|done].
  rewrite <- app_assoc, accept_header, Htl by (done || lia || by rewrite Hd). do 2 f_equal.
  rewrite u64_small; lia.
Qed.

Lemma eth_frame_type dst et payload s :
  length dst = 6%nat -> length (if_mac s) = 6%nat -> 0 <= et < 65536 ->
  ntohs (get16 (eth_frame dst et payload s) 12) = et /\ drop 14 (eth_frame dst et payload s) = payload /\
  length (eth_frame dst et payload s) = (14 + length payload)%nat.
Proof.
  intros Hd Hm He. unfold eth_frame. split; [|split].
  - rewrite app_assoc. assert (length (dst ++ if_mac s) = 12%nat) as Hl by (rewrite length_app; lia).
    pose proof (get16_app (dst ++ if_mac s) (le16 (htons et) ++ payload) 0) as E. rewrite Hl in E. simpl plus in E.
    rewrite E, get16_le16 by (by apply htons_range). by apply ntohs_htons.
  - rewrite !app_assoc. apply drop_app_length'. rewrite !length_app. simpl. lia.
  - rewrite !length_app, Hd, Hm. simpl. lia.
Qed.

(** The memory from a frame on is the frame and what follows it. *)
Lemma eth_frame_app dst et payload rest s :
  eth_frame dst et payload s ++ rest = eth_frame dst et (payload ++ rest) s.
Proof. unfold eth_frame. by rewrite <- !app_assoc. Qed.

Lemma eth_receive_frame {S} (ip4_rx arp_rx : list Z -> Z -> S -> option S) dst et payload rest s st :
  length dst = 6%nat -> length (if_mac s) = 6%nat -> et = ETH_TYPE_IP4 \/ et = ETH_TYPE_ARP ->
  let frame := eth_frame dst et payload s in
  eth_receive ip4_rx arp_rx (frame ++ rest) (Z.of_nat (length frame)) st =
  (if et =? ETH_TYPE_IP4 then ip4_rx else arp_rx) (payload ++ rest) (Z.of_nat (length payload)) st.
Proof.
  intros Hd Hm Het. assert (0 <= et < 65536) as Hr by (unfold ETH_TYPE_IP4, ETH_TYPE_ARP in Het; lia).
  destruct (eth_frame_type dst et payload s Hd Hm Hr) as (_ & _ & Hl). cbv zeta. rewrite eth_frame_app, Hl.
  destruct (eth_frame_type dst et (payload ++ rest) s Hd Hm Hr) as (Ht & Hdr & _).
  unfold eth_receive. rewrite (proj2 (Z.ltb_ge (Z.of_nat (14 + length payload)) 14)) by lia. cbv zeta. rewrite Ht, Hdr.
  replace (Z.of_nat (14 + length payload) - 14) with (Z.of_nat (length payload)) by lia. by destruct Het as [->| ->].
Qed.

(** C27: An IPv4 packet sent by one host arrives at another unchanged: when
    the next hop is resolved and two buffers are free, [ip4_send] hands one
    frame to the card, releases its buffers and changes nothing but the
    identification counter; and the host with the destination address, or any
    host for a broadcast, passes the frame through [eth_receive] to IPv4 and
    accepts it with the same payload, protocol and source address, whatever
    lies in memory behind the frame; any other host drops it.  The payload fits
    a buffer with the two headers. *)
Theorem ip4_delivered dst_ip proto payload mac s :
  host_ok s -> can_send s payload 2 -> Z.of_nat (length payload) <= NET_BUF_SIZE - 34 ->
  0 <= dst_ip < 2 ^ 32 -> byte proto -> resolved dst_ip mac s ->
  exists frame r d, nic_send frame (nic s) = (r, d) /\
    ip4_send dst_ip proto payload s = (r, set_nic d (set_ip4_id (u16 (ip4_id s + 1)) s)) /\
    take 6 frame = mac /\
    forall rest S (ip4_rx arp_rx : list Z -> Z -> S -> option S) st,
      exists pkt len, eth_receive ip4_rx arp_rx (frame ++ rest) (Z.of_nat (length frame)) st = ip4_rx pkt len st /\
      forall t,
        (dst_ip = if_ip t \/ dst_ip = IP_BROADCAST -> exists h,
           ip4_accept pkt len t = Some (h, payload ++ rest, Z.of_nat (length payload)) /\
           protocol h = proto /\ ip_src h = if_ip s /\ ip_dst h = dst_ip) /\
        (dst_ip <> if_ip t -> dst_ip <> IP_BROADCAST -> ip4_accept pkt len t = None).
Proof.
  intros Hs Hc Hl Hdst Hproto Hres. pose proof (ip4_send_spec dst_ip proto payload mac s Hc Hl Hres) as Hsend.
  destruct (nic_send _ (nic s)) as [r d] eqn:En. eexists _, r, d. split; [exact En|]. split; [exact Hsend|].
  destruct Hc as (_ & _ & Hmac & _). destruct Hres as [Hm6 _]. split; [unfold eth_frame; by apply take_app_length'|].
  intros rest S ip4_rx arp_rx st. unfold NET_BUF_SIZE in Hl.
  eexists _, _. split; [apply eth_receive_frame; [done|done|by left]|]. intros t.
  split; [|intros Hip Hb; apply ip4_refuse_spec; (done || lia)]. intros Hto.
  destruct (ip4_accept_spec dst_ip proto payload rest s t) as (h & Ha & Hh); [done|done|done|lia|done|].
  exists h. split; [|exact Hh].
  replace (Z.of_nat (length (ip4_packet dst_ip proto payload s))) with (20 + Z.of_nat (length payload)); [exact Ha|].
  unfold ip4_packet. rewrite length_app, length_ip4_bytes. lia.
Qed.

(** ** Address resolution *)

Record arp_ok (a : arp_hdr) : Prop := {
  ao_htype : 0 <= htype a < 65536;
  ao_ptype : 0 <= ptype a < 65536;
  ao_oper : 0 <= oper a < 65536;
  ao_sha : length (sha a) = 6%nat;
  ao_spa : 0 <= spa a < 2 ^ 32;
  ao_tha : length (tha a) = 6%nat;
  ao_tpa : 0 <= tpa a < 2 ^ 32
}.

Lemma length6 (l : list Z) : length l = 6%nat -> exists a b c d e f, l = [a; b; c; d; e; f].
Proof.
  intros Hl. destruct l as [|a [|b [|c [|d [|e [|f [|]]]]]]]; simpl in Hl; try lia. by exists a, b, c, d, e, f.
Qed.

Lemma arp_parse_bytes a r : arp_ok a -> arp_parse (arp_bytes a ++ r) = a.
Proof.
  intros [H1 H2 H3 H4 H5 H6 H7]. apply length6 in H4 as (?&?&?&?&?&?&E4), H6 as (?&?&?&?&?&?&E6).
  destruct a; simpl in *. subst. unfold arp_parse, get32, get16, get8. simpl. rewrite !le16_val, !le32_val by done. done.
Qed.

Lemma length_arp_bytes a : arp_ok a -> length (arp_bytes a) = 28%nat.
Proof. intros [_ _ _ H4 _ H6 _]. unfold arp_bytes. rewrite !length_app, H4, H6. done. Qed.

(** An address that was entered is found. *)
Lemma arp_add_lookup ip mac s :
  arp_cache s <> [] -> exists e, arp_lookup ip (arp_cache_add ip mac s) = Some e /\ a_mac e = mac.
Proof.
  intros Hne. unfold arp_lookup, arp_cache_add.
  assert (forall i e, (i < length (arp_cache s))%nat -> arp_matches ip e = true ->
    (forall j y, (j < i)%nat -> arp_cache s !! j = Some y -> arp_matches ip y = false) ->
    snd <$> find_slot (arp_matches ip) (<[i := e]> (arp_cache s)) = Some e) as Hput.
  { intros i e Hi He Hbefore. unfold find_slot. assert (<[i := e]> (arp_cache s) !! i = Some e) as Hie by (by apply list_lookup_insert_eq).
    destruct (find_idx_is_Some (arp_matches ip) _ i e Hie He) as [k Hk]. rewrite Hk. simpl.
    apply find_idx_Some in Hk as (y & Hy & Hm & Hmin). destruct (decide (k = i)) as [->|Hki]; [by rewrite Hie|].
    assert (k < i)%nat as Hlt.
    { destruct (decide (k < i)%nat); [done|]. rewrite (Hmin i e ltac:(lia) Hie) in He. done. }
    rewrite list_lookup_insert_ne in Hy by done. by rewrite (Hbefore k y Hlt Hy) in Hm. }
  destruct (find_slot (arp_matches ip) (arp_cache s)) as [[i e]|] eqn:Ef.
  - exists (ArpEntry (a_ip e) mac (a_timestamp e) (a_valid e)). split; [|done]. apply Hput.
    + apply find_slot_Some in Ef as [Hi _]. by eapply lookup_lt_Some.
    + by apply find_slot_Some in Ef as [_ Hm].
    + unfold find_slot in Ef. destruct (find_idx _ _) as [k|] eqn:Ek; [|done]. simpl in Ef.
      apply find_idx_Some in Ek as (y & Hy & _ & Hmin). rewrite Hy in Ef. simpl in Ef. by simplify_eq.
  - rewrite find_slot_None in Ef. eexists (ArpEntry ip mac _ true). split; [|done]. apply Hput.
    + destruct (find_idx _ _) as [k|] eqn:Ek; simpl.
      * apply find_idx_Some in Ek as (y & Hy & _). by eapply lookup_lt_Some.
      * destruct (arp_cache s); [done|simpl; lia].
    + unfold arp_matches. simpl. apply Z.eqb_refl.
    + intros j y _ Hy. by apply (Ef j).
Qed.

(** The cache takes any address; only the sending host's own data is kept. *)
Lemma arp_cache_add_same ip mac s :
  set_arp_cache (arp_cache s) (arp_cache_add ip mac s) = s /\ (arp_cache s <> [] -> arp_cache (arp_cache_add ip mac s) <> []).
Proof.
  unfold arp_cache_add. assert (forall i e, arp_cache s <> [] -> <[i := e]> (arp_cache s) <> []) as Hne.
  { intros i e Hs E. apply (f_equal length) in E. rewrite length_insert in E. by destruct (arp_cache s). }
  destruct (find_slot _ _) as [[i e]|]; (split; [by destruct s|apply Hne]).
Qed.

(** The packets of the protocol, as [s] sends them. *)
Definition arp_packet (op : Z) (tmac : list Z) (tip : Z) s : arp_hdr :=
  Arp (htons 1) (htons 0x0800) 6 4 (htons op) (if_mac s) (if_ip s) tmac tip.

Lemma arp_packet_ok op tmac tip s :
  0 <= op < 65536 -> length tmac = 6%nat -> 0 <= tip < 2 ^ 32 -> host_ok s -> length (if_mac s) = 6%nat ->
  arp_ok (arp_packet op tmac tip s).
Proof. intros Ho Ht Hi [Hh _] Hm. split; simpl; try done; apply htons_range; lia. Qed.

(** What a host does with such a packet. *)
Lemma arp_receive_packet op tmac tip rest s t :
  0 <= op < 65536 -> arp_ok (arp_packet op tmac tip s) ->
  arp_receive (arp_bytes (arp_packet op tmac tip s) ++ rest) 28 t =
  let t' := arp_cache_add (if_ip s) (if_mac s) t in
  if (op =? 1) && (tip =? if_ip t) then arp_send_reply (if_ip s) (if_mac s) t' else t'.
Proof.
  intros Ho Ha. unfold arp_receive. rewrite arp_parse_bytes by done. simpl (28 <? 28). cbv iota zeta.
  cbn [arp_packet htype ptype oper spa sha tpa]. rewrite !ntohs_htons by lia. simpl orb. cbv iota.
  assert (if_ip (arp_cache_add (if_ip s) (if_mac s) t) = if_ip t) as ->; [|done].
  unfold arp_cache_add. by destruct (find_slot _ _) as [[]|].
Qed.

(** Address resolution works between two hosts: the frame that [s]
    broadcasts to ask for the address of [t] makes [t] remember the hardware
    address of [s] and answer with one frame, and that frame makes any host
    that receives it, in particular [s], resolve the address of [t] to the
    hardware address of [t]. *)
Theorem arp_exchange tcp_rx udp_rx s t rest :
  host_ok s -> host_ok t -> length (if_mac s) = 6%nat -> length (if_mac t) = 6%nat ->
  can_send s (replicate 28 0) 1 -> can_send t (replicate 28 0) 1 -> arp_cache t <> [] ->
  let receive := net_receive (fun x => x) (fun x _ => x) tcp_rx udp_rx in
  exists f1 r1 d1 t1, nic_send f1 (nic s) = (r1, d1) /\ arp_send_request (if_ip t) s = set_nic d1 s /\
    receive (f1 ++ rest) (Z.of_nat (length f1)) t = Some t1 /\
    (exists e, arp_lookup (if_ip s) t1 = Some e /\ a_mac e = if_mac s) /\
    exists f2 r2 d2, nic_send f2 (nic t) = (r2, d2) /\ nic t1 = d2 /\
      forall u, arp_cache u <> [] -> if_ip u = if_ip s ->
        exists u1 e, receive (f2 ++ rest) (Z.of_nat (length f2)) u = Some u1 /\
          arp_lookup (if_ip t) u1 = Some e /\ a_mac e = if_mac t.
Proof.
  intros Hs Ht Hms Hmt Cs Ct Hne receive.
  assert (arp_ok (arp_packet 1 (replicate 6 0) (if_ip t) s)) as A1 by (apply arp_packet_ok; done || lia || apply Ht).
  assert (arp_ok (arp_packet 2 (if_mac s) (if_ip s) t)) as A2 by (apply arp_packet_ok; done || lia || apply Hs).
  set (t0 := arp_cache_add (if_ip s) (if_mac s) t). destruct (arp_cache_add_same (if_ip s) (if_mac s) t) as [Et Hne0].
  assert (forall a u, arp_ok a -> can_send u (replicate 28 0) 1 -> can_send u (arp_bytes a) 1) as Hcan.
  { intros a u Ha. unfold can_send. by rewrite length_arp_bytes by done. }
  pose proof (eth_send_spec eth_broadcast ETH_TYPE_ARP _ s (Hcan _ _ A1 Cs) eq_refl) as E1.
  assert (can_send t0 (replicate 28 0) 1) as Ct0 by (rewrite <- Et in Ct; exact Ct).
  pose proof (eth_send_spec (if_mac s) ETH_TYPE_ARP _ t0 (Hcan _ _ A2 Ct0) Hms) as E2.
  assert (if_mac t0 = if_mac t /\ nic t0 = nic t /\ if_ip t0 = if_ip t) as (Em & En & Ei) by (rewrite <- Et; done).
  unfold eth_frame in E2. rewrite Em, En in E2. fold (eth_frame (if_mac s) ETH_TYPE_ARP (arp_bytes (arp_packet 2 (if_mac s) (if_ip s) t)) t) in E2.
  destruct (nic_send _ (nic s)) as [r1 d1] eqn:N1. destruct (nic_send _ (nic t)) as [r2 d2] eqn:N2.
  assert (arp_send_reply (if_ip s) (if_mac s) t0 = set_nic d2 t0) as Erep.
  { unfold arp_send_reply. rewrite Em, Ei. fold (arp_packet 2 (if_mac s) (if_ip s) t). by rewrite E2. }
  eexists _, r1, d1, (set_nic d2 t0). split; [exact N1|]. split.
  { unfold arp_send_request. fold (arp_packet 1 (replicate 6 0) (if_ip t) s). by rewrite E1. }
  split; [|split].
  - unfold receive, net_receive. rewrite eth_receive_frame by (done || by right). change (ETH_TYPE_ARP =? ETH_TYPE_IP4) with false.
    cbv iota. rewrite length_arp_bytes by done. change (Z.of_nat 28) with 28. rewrite arp_receive_packet by (done || lia).
    rewrite !Z.eqb_refl. simpl andb. cbv iota zeta. fold t0. by rewrite Erep.
  - by apply arp_add_lookup.
  - eexists _, r2, d2. split; [exact N2|]. split; [done|]. intros u Hu Hiu.
    destruct (arp_add_lookup (if_ip t) (if_mac t) u Hu) as (e & He & Hmac).
    exists (arp_cache_add (if_ip t) (if_mac t) u), e. split; [|done].
    unfold receive, net_receive. rewrite eth_receive_frame by (done || by right). change (ETH_TYPE_ARP =? ETH_TYPE_IP4) with false.
    cbv iota. rewrite length_arp_bytes by done. change (Z.of_nat 28) with 28. by rewrite arp_receive_packet by (done || lia).
Qed.

(** ** Echo *)

Lemma icmp_request_fields seq rest :
  0 <= seq < 65536 ->
  length (icmp_request seq) = 40%nat /\ get8 (icmp_request seq ++ rest) 0 = ICMP_ECHO_REQUEST /\
  exists c, icmp_reply (icmp_request seq ++ rest) 40 = [ICMP_ECHO_REPLY; 0] ++ le16 c ++ drop 4 (icmp_request seq).
Proof.
  intros Hs. split; [done|]. split; [done|]. eexists. unfold icmp_reply.
  by rewrite (mem_take_app (icmp_request seq)).
Qed.

(** The whole receive path for an echo request, and for a reply. *)
Lemma echo_request_received tcp_rx udp_rx seq mac rest s t :
  host_ok s -> host_ok t -> 0 <= seq < 65536 -> can_send t (replicate 40 0) 3 -> resolved (if_ip s) mac t ->
  let reply := icmp_reply (icmp_request seq ++ rest) 40 in
  let '(r, d) := nic_send (eth_frame mac ETH_TYPE_IP4 (ip4_packet (if_ip s) PROTO_ICMP reply t) t) (nic t) in
  ip4_receive (fun x => x) (fun x _ => x) tcp_rx udp_rx
    (ip4_packet (if_ip t) PROTO_ICMP (icmp_request seq) s ++ rest) 60 t =
  Some (set_nic d (set_ip4_id (u16 (ip4_id t + 1)) t)).
Proof.
  intros Hs Ht Hseq (Hup & Hsend & Hmac & Hbuf & _) Hres reply.
  destruct (icmp_request_fields seq rest Hseq) as (Hl & Hty & (c & Hrep)). fold reply in Hrep.
  destruct (ip4_accept_spec (if_ip t) PROTO_ICMP (icmp_request seq) rest s t Hs (proj1 Ht)) as (h & Ha & Hp & Hsrc & _);
    [done|by rewrite Hl|by left|]. rewrite Hl in Ha. change (20 + Z.of_nat 40) with 60 in Ha.
  unfold ip4_receive. rewrite Ha, Hp, Z.eqb_refl. change (Z.of_nat 40) with 40. unfold icmp_receive.
  rewrite Hty, Z.eqb_refl. change (40 <? 8) with false. cbv iota zeta.
  destruct (alloc_buf_spec t) as (i & -> & Hi & Hfree); [lia|]. change (NET_BUF_SIZE <? 40) with false. cbv iota.
  change (Z.to_nat 40) with 40%nat. fold reply. rewrite Hsrc. set (t' := set_buf_used _ t) in *.
  assert (length reply = 40%nat) as Hlr by (by rewrite Hrep).
  pose proof (ip4_send_spec (if_ip s) PROTO_ICMP reply mac t') as Hip.
  change (eth_frame mac ETH_TYPE_IP4 (ip4_packet (if_ip s) PROTO_ICMP reply t') t')
    with (eth_frame mac ETH_TYPE_IP4 (ip4_packet (if_ip s) PROTO_ICMP reply t) t) in Hip.
  change (nic t') with (nic t) in Hip. destruct (nic_send _ (nic t)) as [r d]. rewrite Hip;
    [|unfold can_send; rewrite Hlr; split_and!; done || lia|by rewrite Hlr|done].
  change (ICMP_ECHO_REQUEST =? ICMP_ECHO_REPLY) with false. cbn [mbind option_bind fmap option_fmap option_map].
  f_equal. by apply free_restores.
Qed.

Lemma echo_reply_received tcp_rx udp_rx seq rest rest' t u :
  host_ok t -> 0 <= if_ip u < 2 ^ 32 -> 0 <= seq < 65536 ->
  ip4_receive (fun x => x) (fun x _ => x) tcp_rx udp_rx
    (ip4_packet (if_ip u) PROTO_ICMP (icmp_reply (icmp_request seq ++ rest) 40) t ++ rest') 60 u =
  Some (set_reply_seq seq u).
Proof.
  intros Ht Hu Hseq. destruct (icmp_request_fields seq rest Hseq) as (_ & _ & (c & Hrep)). rewrite Hrep. clear Hrep.
  set (reply := [ICMP_ECHO_REPLY; 0] ++ _).
  destruct (ip4_accept_spec (if_ip u) PROTO_ICMP reply rest' t u Ht Hu) as (h & Ha & Hp & _);
    [done|done|by left|]. change (20 + Z.of_nat (length reply)) with 60 in Ha.
  unfold ip4_receive. rewrite Ha, Hp, Z.eqb_refl. change (Z.of_nat (length reply)) with 40. unfold icmp_receive.
  change (get8 (reply ++ rest') 0) with ICMP_ECHO_REPLY. change (40 <? 8) with false. cbv iota zeta.
  change (ICMP_ECHO_REPLY =? ICMP_ECHO_REQUEST) with false. cbv iota.
  change (ICMP_ECHO_REPLY =? ICMP_ECHO_REPLY) with true. cbn [mbind option_bind fmap option_fmap option_map].
  assert (get16 (reply ++ rest') 6 = htons seq) as ->.
  { change (get16 (reply ++ rest') 6) with ((htons seq) mod 256 + 256 * (htons seq / 256 mod 256)).
    by apply le16_val, htons_range. }
  by rewrite ntohs_htons.
Qed.

(** A ping is answered: the frame sent by [icmp_ping] makes the target
    send one frame back and leaves it otherwise unchanged, buffers included,
    and that frame makes the sender record the sequence number of the ping. *)
Theorem ping_answered tcp_rx udp_rx seq mac_t mac_s rest s t :
  host_ok s -> host_ok t -> 0 <= seq < 65536 ->
  can_send s (replicate 40 0) 2 -> can_send t (replicate 40 0) 3 ->
  resolved (if_ip t) mac_t s -> resolved (if_ip s) mac_s t ->
  let receive := net_receive (fun x => x) (fun x _ => x) tcp_rx udp_rx in
  exists f1 r1 d1 f2 r2 d2, nic_send f1 (nic s) = (r1, d1) /\ nic_send f2 (nic t) = (r2, d2) /\
    icmp_ping (if_ip t) seq s = (r1, set_nic d1 (set_ip4_id (u16 (ip4_id s + 1)) s)) /\
    receive (f1 ++ rest) (Z.of_nat (length f1)) t = Some (set_nic d2 (set_ip4_id (u16 (ip4_id t + 1)) t)) /\
    forall u, if_ip u = if_ip s -> receive (f2 ++ rest) (Z.of_nat (length f2)) u = Some (set_reply_seq seq u).
Proof.
  intros Hs Ht Hseq Cs Ct Rt Rs receive. destruct (icmp_request_fields seq rest Hseq) as (Hl & _ & (c & Hrep)).
  pose proof (ip4_send_spec (if_ip t) PROTO_ICMP (icmp_request seq) mac_t s) as Hsend.
  pose proof (echo_request_received tcp_rx udp_rx seq mac_s rest s t Hs Ht Hseq Ct Rs) as Hrecv. cbv zeta in Hrecv.
  destruct (nic_send _ (nic s)) as [r1 d1] eqn:N1. destruct (nic_send _ (nic t)) as [r2 d2] eqn:N2.
  eexists _, r1, d1, _, r2, d2. split; [exact N1|]. split; [exact N2|].
  destruct Cs as (S1 & S2 & S3 & S4 & _). destruct Ct as (_ & _ & T3 & _). split; [|split].
  - apply Hsend; [unfold can_send; rewrite Hl; by split_and!|by rewrite Hl|done].
  - unfold receive, net_receive. rewrite eth_receive_frame by (apply Rt || done || by left). exact Hrecv.
  - intros u Hu. unfold receive, net_receive. rewrite eth_receive_frame by (apply Rs || done || by left).
    change (ETH_TYPE_IP4 =? ETH_TYPE_IP4) with true. cbv iota. rewrite <- Hu.
    replace (Z.of_nat (length _)) with 60 by (by rewrite Hrep).
    apply echo_reply_received; [done|rewrite Hu; apply Hs|done].
Qed.

(** ** A forged packet *)

(** 21 bytes: a header with a total length of 19, and the type of an echo
    request. *)
Definition forged_packet (src dst : Z) : list Z :=
  ip4_bytes (seal (Ip4 IP4_VERSION_IHL 0 (htons 19) 0 0 IP4_DEFAULT_TTL PROTO_ICMP 0 src dst)) ++ [ICMP_ECHO_REQUEST].

(** [ip4_receive] subtracts the header length from the total
    length of the packet without a check, and [icmp_receive] copies that many
    bytes: a packet of 21 bytes from anywhere makes a host with a free buffer
    copy [2 ^ 64 - 1] bytes into a buffer of 2048. *)
Theorem forged_echo_overflows tcp_rx udp_rx src s :
  host_ok s -> (0 < free_bufs s)%nat -> 0 <= src < 2 ^ 32 ->
  length (forged_packet src (if_ip s)) = 21%nat /\
  ip4_receive (fun x => x) (fun x _ => x) tcp_rx udp_rx (forged_packet src (if_ip s)) 21 s = None.
Proof.
  intros [Hip _] Hfree Hsrc. split; [done|]. unfold forged_packet. set (h0 := Ip4 _ _ _ _ _ _ _ _ _ _).
  assert (ip4_ok h0) as Hh0 by (split; simpl; done || (unfold byte; lia)).
  destruct (seal_spec h0 Hh0) as [H1 H2]. unfold ip4_receive.
  rewrite accept_header by (done || by left). change (u64 (ntohs (total_len (seal h0)) - 20)) with (2 ^ 64 - 1).
  change (protocol (seal h0) =? PROTO_ICMP) with true. cbv iota. unfold icmp_receive. change (2 ^ 64 - 1 <? 8) with false.
  cbv iota zeta. change (get8 [ICMP_ECHO_REQUEST] 0 =? ICMP_ECHO_REQUEST) with true. cbv iota.
  destruct (alloc_buf_spec s Hfree) as (i & -> & _). by change (NET_BUF_SIZE <? 2 ^ 64 - 1) with true.
Qed.
End frames.

(** ** Witnesses

    Two hosts whose card keeps the frames it is given. *)

#[export] Instance wire : NetDriver (list (list Z)) := {|
  nic_send f d := (0, d ++ [f]);
  net_pause s := s
|}.

Definition demo_host (n : Z) (known : list arp_entry) : net (list (list Z)) :=
  Net [2; 0; 0; 0; 0; n] (10 + n * 2 ^ 24) 0x00FFFFFF (10 + 2 ^ 24) true true (replicate NET_BUF_COUNT false)
    (known ++ replicate 8 arp_zero) 1 0 [].
Definition demo_entry (n : Z) : arp_entry := ArpEntry (10 + n * 2 ^ 24) [2; 0; 0; 0; 0; n] 0 true.

Lemma checksum_detects_witness :
  let pkt := field_at [1; 2] [3; 4; 5] (net_checksum (field_at [1; 2] [3; 4; 5] 0) 7) in
  net_checksum pkt 7 = 0 /\ net_checksum (field_at [] (drop 2 pkt) 0x0102) 7 <> 0.
Proof.
  destruct (checksum_detects 1 [1; 2] [3; 4; 5] eq_refl ltac:(repeat constructor; done) ltac:(repeat constructor; done) ltac:(done))
    as [H1 H2].
  split; [exact H1|]. apply (H2 0%nat [] _ 0x0201 0x0102); [reflexivity|reflexivity|lia|lia|lia|lia|lia].
Defined.

Lemma demo_host_ok n known : 0 <= n < 256 -> host_ok (demo_host n known).
Proof. intros Hn. split; simpl; lia. Qed.

Lemma demo_can_send n known p k :
  (k <= 64)%nat -> Z.of_nat (length p) <= 2034 -> can_send (demo_host n known) p k.
Proof. intros Hk Hp. split; [done|]. split; [done|]. split; [done|]. split; [|done]. by change (free_bufs _) with 64%nat. Qed.

Lemma demo_resolved m n :
  0 <= m < 256 -> 0 <= n < 256 -> resolved (10 + n * 2 ^ 24) [2; 0; 0; 0; 0; n] (demo_host m [demo_entry n]).
Proof.
  intros Hm Hn. split; [done|]. unfold next_hop. cbn [demo_host if_netmask if_ip if_gateway].
  assert (forall k, (10 + k * 2 ^ 24) .& 0x00FFFFFF = 10) as E.
  { intros k. change 0x00FFFFFF with (Z.ones 24). rewrite Z.land_ones by lia. by rewrite Z.mod_add. }
  rewrite !E, Z.eqb_refl. simpl negb. cbv iota. unfold IP_BROADCAST. rewrite (proj2 (Z.eqb_neq _ _)) by lia.
  exists (demo_entry n). split; [|done]. unfold arp_lookup, find_slot. simpl. unfold arp_matches. simpl.
  by rewrite Z.eqb_refl.
Qed.

Lemma ip4_delivered_witness :
  exists frame s', ip4_send (10 + 3 * 2 ^ 24) PROTO_UDP [7; 8; 9] (demo_host 2 [demo_entry 3]) = (0, s') /\
    nic s' = [frame] /\
    exists pkt len h, eth_receive (fun p l _ => Some (p, l)) (fun _ _ x => Some x) (frame ++ [66]) (Z.of_nat (length frame)) ([], 0)
        = Some (pkt, len) /\
      ip4_accept pkt len (demo_host 3 []) = Some (h, [7; 8; 9; 66], 3) /\ protocol h = PROTO_UDP /\
      ip4_accept pkt len (demo_host 4 []) = None.
Proof.
  destruct (ip4_delivered (10 + 3 * 2 ^ 24) PROTO_UDP [7; 8; 9] [2; 0; 0; 0; 0; 3] (demo_host 2 [demo_entry 3]))
    as (frame & r & d & Hn & Hs & _ & Hr).
  - by apply demo_host_ok.
  - by apply demo_can_send; [lia|].
  - done.
  - done.
  - done.
  - by apply demo_resolved.
  - injection Hn as <- <-. eexists frame, _. split; [exact Hs|]. split; [done|].
    destruct (Hr [66] (list Z * Z)%type (fun p l _ => Some (p, l)) (fun _ _ x => Some x) ([], 0)) as (pkt & len & E & Ht).
    destruct (proj1 (Ht (demo_host 3 [])) (or_introl eq_refl)) as (h & Ha & Hp & _).
    exists pkt, len, h. split; [exact E|]. split; [exact Ha|]. split; [exact Hp|].
    apply (Ht (demo_host 4 [])); discriminate.
Defined.

Lemma arp_exchange_witness :
  exists f1 t1, arp_send_request (10 + 3 * 2 ^ 24) (demo_host 2 []) = set_nic [f1] (demo_host 2 []) /\
    net_receive (fun x => x) (fun x _ => x) (fun _ _ _ => Some) (fun _ _ _ => Some) (f1 ++ []) (Z.of_nat (length f1)) (demo_host 3 [])
      = Some t1 /\ (exists f2, nic t1 = [f2]) /\
    exists e, arp_lookup (10 + 2 * 2 ^ 24) t1 = Some e /\ a_mac e = [2; 0; 0; 0; 0; 2].
Proof.
  destruct (arp_exchange (fun _ _ _ => Some) (fun _ _ _ => Some) (demo_host 2 []) (demo_host 3 []) [])
    as (f1 & r1 & d1 & t1 & Hn & Hs & Hr & He & f2 & r2 & d2 & Hn2 & Ht & _);
    [by apply demo_host_ok|by apply demo_host_ok|done|done|by apply demo_can_send; [lia|]|by apply demo_can_send; [lia|]|done|].
  injection Hn as <- <-. injection Hn2 as <- <-. exists f1, t1. split; [exact Hs|]. split; [exact Hr|]. split; [by exists f2|exact He].
Defined.

Lemma ping_answered_witness :
  exists f1 f2 t1, icmp_ping (10 + 3 * 2 ^ 24) 77 (demo_host 2 [demo_entry 3]) = (0, set_nic [f1] (set_ip4_id 2 (demo_host 2 [demo_entry 3]))) /\
    net_receive (fun x => x) (fun x _ => x) (fun _ _ _ => Some) (fun _ _ _ => Some) (f1 ++ []) (Z.of_nat (length f1)) (demo_host 3 [demo_entry 2])
      = Some t1 /\ nic t1 = [f2] /\
    net_receive (fun x => x) (fun x _ => x) (fun _ _ _ => Some) (fun _ _ _ => Some) (f2 ++ []) (Z.of_nat (length f2)) (demo_host 2 [])
      = Some (set_reply_seq 77 (demo_host 2 [])).
Proof.
  destruct (ping_answered (fun _ _ _ => Some) (fun _ _ _ => Some) 77 [2; 0; 0; 0; 0; 3] [2; 0; 0; 0; 0; 2] []
              (demo_host 2 [demo_entry 3]) (demo_host 3 [demo_entry 2]))
    as (f1 & r1 & d1 & f2 & r2 & d2 & N1 & N2 & Hp & Hr & Hu);
    [by apply demo_host_ok|by apply demo_host_ok|done|by apply demo_can_send; [lia|]|by apply demo_can_send; [lia|]
    |by apply demo_resolved|by apply demo_resolved|].
  injection N1 as <- <-. injection N2 as <- <-. eexists f1, f2, _. split; [exact Hp|]. split; [exact Hr|]. split; [done|].
  by apply Hu.
Defined.

Lemma forged_echo_overflows_witness :
  ip4_receive (fun x => x) (fun x _ => x) (fun _ _ _ => Some) (fun _ _ _ => Some) (forged_packet 1 (10 + 3 * 2 ^ 24)) 21 (demo_host 3 [])
  = None.
Proof.
  exact (proj2 (forged_echo_overflows (fun _ _ _ => Some) (fun _ _ _ => Some) 1 (demo_host 3 [])
    (demo_host_ok 3 [] ltac:(lia)) ltac:(change (free_bufs _) with 64%nat; lia) ltac:(lia))).
Defined.
