(* ===== verification/Tcp.v ===== *)
(** * TCP ([net/tcp.c])

    The socket table, the state machine, the receive ring and the
    retransmission timer, over the IPv4 layer of [Net].  Sequence numbers are
    32-bit and wrap; a segment is the list of its bytes. *)

From S2P Require Import Prelude Ring Net.

Definition TCP_FIN : Z := 0x01.
Definition TCP_SYN : Z := 0x02.
Definition TCP_RST : Z := 0x04.
Definition TCP_PSH : Z := 0x08.
Definition TCP_ACK : Z := 0x10.

Inductive tcp_state :=
| TCP_CLOSED
| TCP_LISTEN
| TCP_SYN_RCVD
| TCP_SYN_SENT
| TCP_ESTABLISHED
| TCP_FIN_WAIT
| TCP_CLOSE_WAIT
| TCP_TIME_WAIT.

#[export] Instance tcp_state_eq : EqDecision tcp_state.
Proof. solve_decision. Defined.

Definition TCP_MAX_SOCKETS : nat := 16.
Definition TCP_RTO_INITIAL : Z := 300.
Definition TCP_RTO_MAX : Z := 6000.
Definition TCP_MAX_RETRIES : Z := 5.
Definition TCP_RTX_BUF : nat := Z.to_nat 2048.
Definition RX_SIZE : nat := Z.to_nat 4096.
Definition TIMER_FREQ : Z := 100.

Record tcp_socket := TcpSocket {
  k_used : bool;
  k_state : tcp_state;
  k_local_ip : Z;
  k_remote_ip : Z;
  k_local_port : Z;
  k_remote_port : Z;
  k_tx_seq : Z;
  k_rx_seq : Z;
  k_rx_buf : list Z;
  k_rx_head : nat;
  k_rx_tail : nat;
  k_rtx_buf : list Z;
  k_rtx_len : Z;
  k_rtx_flags : Z;
  k_rtx_seq : Z;
  k_rtx_end_seq : Z;
  k_rtx_time : Z;
  k_rto : Z;
  k_rtx_count : Z
}.

Definition eta_sock (k : tcp_socket) : tcp_socket :=
  TcpSocket (k_used k) (k_state k) (k_local_ip k) (k_remote_ip k) (k_local_port k) (k_remote_port k) (k_tx_seq k)
    (k_rx_seq k) (k_rx_buf k) (k_rx_head k) (k_rx_tail k) (k_rtx_buf k) (k_rtx_len k) (k_rtx_flags k) (k_rtx_seq k)
    (k_rtx_end_seq k) (k_rtx_time k) (k_rto k) (k_rtx_count k).
Definition set_used v k : tcp_socket := ltac:(set_field eta_sock k_used k v).
Definition set_state v k : tcp_socket := ltac:(set_field eta_sock k_state k v).
Definition set_tx_seq v k : tcp_socket := ltac:(set_field eta_sock k_tx_seq k v).
Definition set_rx_seq v k : tcp_socket := ltac:(set_field eta_sock k_rx_seq k v).
Definition set_rx_head v k : tcp_socket := ltac:(set_field eta_sock k_rx_head k v).
Definition set_rtx_len v k : tcp_socket := ltac:(set_field eta_sock k_rtx_len k v).
Definition set_rtx_time v k : tcp_socket := ltac:(set_field eta_sock k_rtx_time k v).
Definition set_rtx_count v k : tcp_socket := ltac:(set_field eta_sock k_rtx_count k v).
Definition set_rto v k : tcp_socket := ltac:(set_field eta_sock k_rto k v).

(** [memset(s, 0, sizeof( *s))] *)
Definition sock_zero : tcp_socket :=
  TcpSocket false TCP_CLOSED 0 0 0 0 0 0 (replicate RX_SIZE 0) 0 0 (replicate TCP_RTX_BUF 0) 0 0 0 0 0 0 0.

(** A fresh socket of the given state and addresses. *)
Definition sock_open (st : tcp_state) (lip rip lport rport tx rx : Z) : tcp_socket :=
  TcpSocket true st lip rip lport rport tx rx (replicate RX_SIZE 0) 0 0 (replicate TCP_RTX_BUF 0) 0 0 0 0 0 0 0.

(** The tests of the loops that look for a socket. *)
Definition listen_match (port : Z) (k : tcp_socket) : bool :=
  k_used k && bool_decide (k_state k = TCP_LISTEN) && (k_local_port k =? port).
Definition conn_match (lport rport rip : Z) (k : tcp_socket) : bool :=
  k_used k && (k_local_port k =? lport) && (k_remote_port k =? rport) && (k_remote_ip k =? rip).

(** The socket table, the network layer, the timer, and the calls made to
    [sock_notify_accept] of the socket layer. *)
Record tcp (Nic : Type) := Tcp {
  t_sockets : list tcp_socket;
  t_ephemeral : Z;
  t_net : net Nic;
  t_ticks : Z;
  t_accepted : list (Z * Z * Z * nat)
}.
Arguments Tcp {Nic}.
Arguments t_sockets {Nic}.
Arguments t_ephemeral {Nic}.
Arguments t_net {Nic}.
Arguments t_ticks {Nic}.
Arguments t_accepted {Nic}.

(** ** Segments *)

Record tcp_hdr := TcpHdr {
  src_port : Z;
  dst_port : Z;
  h_seq : Z;
  h_ack : Z;
  data_offset : Z;
  h_flags : Z;
  window : Z;
  h_checksum : Z;
  urgent : Z
}.

Definition tcp_bytes (h : tcp_hdr) : list Z :=
  le16 (src_port h) ++ le16 (dst_port h) ++ le32 (h_seq h) ++ le32 (h_ack h) ++ [data_offset h; h_flags h] ++
  le16 (window h) ++ le16 (h_checksum h) ++ le16 (urgent h).

Definition tcp_parse (p : list Z) : tcp_hdr :=
  TcpHdr (get16 p 0) (get16 p 2) (get32 p 4) (get32 p 8) (get8 p 12) (get8 p 13) (get16 p 14) (get16 p 16) (get16 p 18).

(** The sum over the pseudo-header and the segment. *)
Definition pseudo_header (src dst proto : Z) (seg_len : Z) : list Z :=
  le32 src ++ le32 dst ++ [0; proto] ++ le16 (htons (u16 seg_len)).
Definition tcp_checksum (src dst proto : Z) (seg : list Z) : Z :=
  u16 (Z.lnot (fold16 3 (sum16 (length seg) seg
                  (sum16 12 (pseudo_header src dst proto (Z.of_nat (length seg))) 0)))).

(** The segment that is sent: header, checksum and data. *)
Definition tcp_segment (ip rip lport rport seq ack flags : Z) (data : list Z) : list Z :=
  let seg c := tcp_bytes (TcpHdr (htons lport) (htons rport) (htonl seq)
                            (if negb (flags .& TCP_ACK =? 0) then htonl ack else 0)
                            (Z.shiftl 5 4) flags (htons 4096) c 0) ++ data in
  seg (tcp_checksum ip rip PROTO_TCP (seg 0)).

Section tcp.
Context {Nic : Type} `{NetDriver Nic}.
Implicit Types (s : tcp Nic) (i : nat) (k : tcp_socket).

Definition eta_tcp s : tcp Nic := Tcp (t_sockets s) (t_ephemeral s) (t_net s) (t_ticks s) (t_accepted s).
Definition set_sockets v s : tcp Nic := ltac:(set_field eta_tcp (@t_sockets Nic) s v).
Definition set_ephemeral v s : tcp Nic := ltac:(set_field eta_tcp (@t_ephemeral Nic) s v).
Definition set_net v s : tcp Nic := ltac:(set_field eta_tcp (@t_net Nic) s v).
Definition set_ticks v s : tcp Nic := ltac:(set_field eta_tcp (@t_ticks Nic) s v).
Definition set_accepted v s : tcp Nic := ltac:(set_field eta_tcp (@t_accepted Nic) s v).

Definition sock s i : tcp_socket := default sock_zero (t_sockets s !! i).
Definition set_sock i k s : tcp Nic := set_sockets (<[i := k]> (t_sockets s)) s.
Definition mod_sock i (f : tcp_socket -> tcp_socket) s : tcp Nic := set_sock i (f (sock s i)) s.

Definition rand_seq s : Z := u32 (Z.lxor (u64 (t_ticks s * 0xDEADBEEF)) 0x12345678).

Definition tcp_init s : tcp Nic := set_ephemeral 49152 (set_sockets (replicate TCP_MAX_SOCKETS sock_zero) s).

Definition get_socket (n : Z) s : option nat :=
  if (n <? 0) || (16 <=? n) then None
  else if k_used (sock s (Z.to_nat n)) then Some (Z.to_nat n) else None.

Definition free_socket s : option nat := find_idx (fun k => negb (k_used k)) (t_sockets s).

Definition tcp_listen (port : Z) s : Z * tcp Nic :=
  match find_idx (listen_match port) (t_sockets s) with
  | Some i => (Z.of_nat i, s)
  | None =>
      match free_socket s with
      | None => (-1, s)
      | Some i => (Z.of_nat i, set_sock i (sock_open TCP_LISTEN (if_ip (t_net s)) 0 port 0 0 0) s)
      end
  end.

(** What is kept for a retransmission of a segment that takes [data] from
    sequence number [seq] on. *)
Definition save_rtx (flags : Z) (data : list Z) (now : Z) k : tcp_socket :=
  let end_seq := k_tx_seq k in
  let end_seq := if negb (flags .& TCP_SYN =? 0) then u32 (end_seq + 1) else end_seq in
  let end_seq := if negb (flags .& TCP_FIN =? 0) then u32 (end_seq + 1) else end_seq in
  let saved := take TCP_RTX_BUF data in
  TcpSocket (k_used k) (k_state k) (k_local_ip k) (k_remote_ip k) (k_local_port k) (k_remote_port k) (k_tx_seq k)
    (k_rx_seq k) (k_rx_buf k) (k_rx_head k) (k_rx_tail k) (saved ++ drop (length saved) (k_rtx_buf k))
    (Z.of_nat (length saved)) flags (u32 (k_tx_seq k - Z.of_nat (length data))) end_seq (u32 now)
    (if k_rtx_count k =? 0 then TCP_RTO_INITIAL else k_rto k) (k_rtx_count k).

(** The changes to the socket after a segment went out. *)
Definition after_send (flags : Z) (data : list Z) (now : Z) k : tcp_socket :=
  let k := set_tx_seq (u32 (k_tx_seq k + Z.of_nat (length data))) k in
  if negb (flags .& (TCP_SYN .| TCP_FIN) =? 0) || (0 <? Z.of_nat (length data)) then save_rtx flags data now k else k.

(** [None] when the data does not fit into the buffer. *)
Definition tcp_send_segment i (flags : Z) (data : list Z) s : option (Z * tcp Nic) :=
  let k := sock s i in
  match net_alloc_buf (t_net s) with
  | (None, n) => Some (-1, set_net n s)
  | (Some b, n) =>
      if NET_BUF_SIZE <? 20 + Z.of_nat (length data) then None
      else
        let seg := tcp_segment (if_ip n) (k_remote_ip k) (k_local_port k) (k_remote_port k) (k_tx_seq k) (k_rx_seq k)
                     flags data in
        let '(ret, n) := ip4_send (k_remote_ip k) PROTO_TCP seg n in
        let s := set_net (net_free_buf b n) s in
        Some (ret, if ret =? 0 then mod_sock i (after_send flags data (t_ticks s)) s else s)
  end.

(** *** The retransmission timer *)

Definition tcp_rtx_send k (n : net Nic) : net Nic :=
  match net_alloc_buf n with
  | (None, n) => n
  | (Some b, n) =>
      let seg := tcp_segment (if_ip n) (k_remote_ip k) (k_local_port k) (k_remote_port k) (k_rtx_seq k) (k_rx_seq k)
                   (k_rtx_flags k) (take (Z.to_nat (k_rtx_len k)) (k_rtx_buf k)) in
      net_free_buf b (ip4_send (k_remote_ip k) PROTO_TCP seg n).2
  end.

Definition rtx_due (now : Z) k : bool :=
  k_used k && negb (k_rtx_time k =? 0) && negb (u32 (now - k_rtx_time k) <? k_rto k).

(** The socket after its round of [tcp_tick], and whether it retransmits. *)
Definition tick_socket (now : Z) k : bool * tcp_socket :=
  if negb (rtx_due now k) then (false, k)
  else if TCP_MAX_RETRIES <=? k_rtx_count k then
    (false, set_used false (set_state TCP_CLOSED (set_rtx_count 0 (set_rtx_len 0 (set_rtx_time 0 k)))))
  else
    let rto := if u32 (k_rto k * 2) <? TCP_RTO_MAX then u32 (k_rto k * 2) else TCP_RTO_MAX in
    (true, set_rtx_time now (set_rto rto (set_rtx_count (k_rtx_count k + 1) k))).

Definition tick_round (now : Z) i s : tcp Nic :=
  let '(send, k) := tick_socket now (sock s i) in
  let s := set_sock i k s in
  if send then set_net (tcp_rtx_send k (t_net s)) s else s.

Definition tcp_tick s : tcp Nic :=
  fold_left (fun s i => tick_round (u32 (t_ticks s)) i s) (seq 0 TCP_MAX_SOCKETS) s.

Definition tcp_rtx_clear_if_acked (ack : Z) k : tcp_socket :=
  if k_rtx_time k =? 0 then k
  else if ack <? k_rtx_end_seq k then k
  else set_rtx_count 0 (set_rtx_len 0 (set_rtx_time 0 k)).

(** *** Calls *)

(** [poll] is [net_iface.poll] followed by the rest of the loop body up to the
    next round: what the driver and the other processes do meanwhile. *)
Fixpoint connect_wait (fuel : nat) (poll yield : tcp Nic -> tcp Nic) (start : Z) i s : option (Z * tcp Nic) :=
  match fuel with
  | O => None
  | S fuel =>
      if u64 (t_ticks s - start) <? TIMER_FREQ * 5 then
        let s := tcp_tick (poll s) in
        if bool_decide (k_state (sock s i) = TCP_ESTABLISHED) then Some (Z.of_nat i, s)
        else connect_wait fuel poll yield start i (yield s)
      else Some (-1, mod_sock i (set_used false) s)
  end.

(** The part of [tcp_connect] before the wait: the slot, or the result -1. *)
Definition connect_start (ip port : Z) s : option (option nat * tcp Nic) :=
  match free_socket s with
  | None => Some (None, s)
  | Some i =>
      let k := sock_open TCP_SYN_SENT (if_ip (t_net s)) ip (t_ephemeral s) port (rand_seq s) 0 in
      let s := set_ephemeral (u16 (t_ephemeral s + 1)) (set_sock i k s) in
      '(ret, s) ← tcp_send_segment i TCP_SYN [] s;
      if ret <? 0 then Some (None, mod_sock i (set_used false) s)
      else Some (Some i, mod_sock i (fun k => set_tx_seq (u32 (k_tx_seq k + 1)) k) s)
  end.

Definition tcp_connect (fuel : nat) (poll yield : tcp Nic -> tcp Nic) (ip port : Z) s : option (Z * tcp Nic) :=
  '(r, s) ← connect_start ip port s;
  match r with
  | None => Some (-1, s)
  | Some i => connect_wait fuel poll yield (u32 (t_ticks s)) i s
  end.

Definition tcp_send (n : Z) (data : list Z) s : option (Z * tcp Nic) :=
  match get_socket n s with
  | None => Some (-1, s)
  | Some i =>
      if bool_decide (k_state (sock s i) = TCP_ESTABLISHED) then tcp_send_segment i (TCP_ACK .| TCP_PSH) data s
      else Some (-1, s)
  end.

(** [to_read] bytes from the ring. *)
Fixpoint ring_read (n : nat) k : list Z * tcp_socket :=
  match n with
  | O => ([], k)
  | S n =>
      let x := default 0 (k_rx_buf k !! (k_rx_head k mod RX_SIZE)%nat) in
      let '(xs, k) := ring_read n (set_rx_head (S (k_rx_head k)) k) in (x :: xs, k)
  end.

Definition rx_available k : nat := ((k_rx_tail k + RX_SIZE - k_rx_head k) mod RX_SIZE)%nat.

Definition tcp_recv (n : Z) (len : nat) s : Z * list Z * tcp Nic :=
  match get_socket n s with
  | None => (-1, [], s)
  | Some i =>
      let k := sock s i in
      let available := rx_available k in
      if (available =? 0)%nat then (0, [], s)
      else
        let to_read := if (available <? len)%nat then available else len in
        let '(xs, k) := ring_read to_read k in
        (Z.of_nat to_read, xs, set_sock i k s)
  end.

Definition tcp_close (n : Z) s : option (tcp Nic) :=
  match get_socket n s with
  | None => Some s
  | Some i =>
      s ← (if bool_decide (k_state (sock s i) = TCP_ESTABLISHED) then
             '(_, s) ← tcp_send_segment i (TCP_FIN .| TCP_ACK) [] s;
             Some (mod_sock i (fun k => set_state TCP_FIN_WAIT (set_tx_seq (u32 (k_tx_seq k + 1)) k)) s)
           else Some s);
      Some (mod_sock i (fun k => set_state TCP_CLOSED (set_used false (set_rtx_len 0 (set_rtx_time 0 k)))) s)
  end.

(** *** Receiving *)

(** One byte into the ring; it is dropped when the ring is full. *)
Definition ring_put k (x : Z) : tcp_socket :=
  let next := ((k_rx_tail k + 1) mod RX_SIZE)%nat in
  if (next =? k_rx_head k mod RX_SIZE)%nat then k
  else TcpSocket (k_used k) (k_state k) (k_local_ip k) (k_remote_ip k) (k_local_port k) (k_remote_port k) (k_tx_seq k)
         (k_rx_seq k) (<[(k_rx_tail k mod RX_SIZE)%nat := x]> (k_rx_buf k)) (k_rx_head k) (S (k_rx_tail k)) (k_rtx_buf k)
         (k_rtx_len k) (k_rtx_flags k) (k_rtx_seq k) (k_rtx_end_seq k) (k_rtx_time k) (k_rto k) (k_rtx_count k).

Definition has_flag (flags f : Z) : bool := negb (flags .& f =? 0).

(** A SYN for a listening port opens a socket and is answered. *)
Definition tcp_accept_syn (src_ip sport dport seq flags : Z) s : option (tcp Nic) :=
  if negb (has_flag flags TCP_SYN) then Some s
  else if has_flag flags TCP_ACK then Some s
  else
    match find_idx (listen_match dport) (t_sockets s) with
    | None => Some s
    | Some _ =>
        match free_socket s with
        | None => Some s
        | Some i =>
            let k := sock_open TCP_SYN_RCVD (if_ip (t_net s)) src_ip dport sport (rand_seq s) (u32 (seq + 1)) in
            '(_, s) ← tcp_send_segment i (TCP_SYN .| TCP_ACK) [] (set_sock i k s);
            Some (mod_sock i (fun k => set_tx_seq (u32 (k_tx_seq k + 1)) k) s)
        end
    end.

(** The segment of an established connection. *)
Definition established_rx i (seq ack flags : Z) (data : list Z) s : option (tcp Nic) :=
  if has_flag flags TCP_RST then Some (mod_sock i (fun k => set_used false (set_state TCP_CLOSED k)) s)
  else if has_flag flags TCP_FIN then
    let s := mod_sock i (fun k => set_state TCP_CLOSE_WAIT (set_rx_seq (u32 (seq + 1)) k)) s in
    '(_, s) ← tcp_send_segment i TCP_ACK [] s;
    '(_, s) ← tcp_send_segment i (TCP_FIN .| TCP_ACK) [] s;
    Some (mod_sock i (fun k => set_state TCP_TIME_WAIT (set_tx_seq (u32 (k_tx_seq k + 1)) k)) s)
  else
    let s := if has_flag flags TCP_ACK && negb (k_rtx_time (sock s i) =? 0)
             then mod_sock i (tcp_rtx_clear_if_acked ack) s else s in
    if (0 <? Z.of_nat (length data)) && (seq =? k_rx_seq (sock s i)) then
      let s := mod_sock i (fun k =>
                 let k := fold_left ring_put data k in
                 set_rx_seq (u32 (k_rx_seq k + Z.of_nat (length data))) k) s in
      '(_, s) ← tcp_send_segment i TCP_ACK [] s;
      Some s
    else Some s.

(** The switch on the state of the socket. *)
Definition socket_rx i (seq ack flags : Z) (data : list Z) s : option (tcp Nic) :=
  let k := sock s i in
  match k_state k with
  | TCP_SYN_RCVD =>
      if has_flag flags TCP_RST then Some (set_sock i (set_state TCP_CLOSED (set_used false (set_rtx_time 0 k))) s)
      else if has_flag flags TCP_ACK && (ack =? k_tx_seq k) then
        let s := set_sock i (set_state TCP_ESTABLISHED (tcp_rtx_clear_if_acked ack k)) s in
        Some (set_accepted (t_accepted s ++ [(k_local_port k, k_remote_ip k, k_remote_port k, i)]) s)
      else Some s
  | TCP_SYN_SENT =>
      if (flags .& (TCP_SYN .| TCP_ACK) =? TCP_SYN .| TCP_ACK) && (ack =? k_tx_seq k) then
        let s := set_sock i (set_state TCP_ESTABLISHED (set_rx_seq (u32 (seq + 1)) (tcp_rtx_clear_if_acked ack k))) s in
        '(_, s) ← tcp_send_segment i TCP_ACK [] s;
        Some s
      else Some s
  | TCP_ESTABLISHED => established_rx i seq ack flags data s
  | TCP_FIN_WAIT => Some (if has_flag flags TCP_ACK then set_sock i (set_state TCP_TIME_WAIT k) s else s)
  | TCP_TIME_WAIT => Some (set_sock i (set_used false (set_state TCP_CLOSED k)) s)
  | _ => Some s
  end.

Definition tcp_receive (ip : ip4_hdr) (segment : list Z) (len : Z) s : option (tcp Nic) :=
  if len <? 20 then Some s
  else
    let h := tcp_parse segment in
    let dport := ntohs (dst_port h) in
    let sport := ntohs (src_port h) in
    let seq := ntohl (h_seq h) in
    let ack := ntohl (h_ack h) in
    let flags := h_flags h in
    match find_idx (conn_match dport sport (ip_src ip)) (t_sockets s) with
    | None => tcp_accept_syn (ip_src ip) sport dport seq flags s
    | Some i =>
        let data_off := u8 (Z.shiftr (data_offset h) 4 * 4) in
        let data_len := if data_off <=? len then len - data_off else 0 in
        socket_rx i seq ack flags (mem_take (Z.to_nat data_len) (drop (Z.to_nat data_off) segment)) s
    end.
End tcp.

#[global] Opaque RX_SIZE TCP_RTX_BUF.
#[local] Arguments Nat.modulo : simpl never.

(** ** Segments on the wire *)

Record tcp_ok (h : tcp_hdr) : Prop := {
  th_src : 0 <= src_port h < 65536;
  th_dst : 0 <= dst_port h < 65536;
  th_seq : 0 <= h_seq h < 2 ^ 32;
  th_ack : 0 <= h_ack h < 2 ^ 32;
  th_win : 0 <= window h < 65536;
  th_sum : 0 <= h_checksum h < 65536;
  th_urg : 0 <= urgent h < 65536
}.

Lemma tcp_parse_bytes h r : tcp_ok h -> tcp_parse (tcp_bytes h ++ r) = h.
Proof.
  intros [? ? ? ? ? ? ?]. destruct h; simpl in *. unfold tcp_parse, get32, get16, get8. simpl.
  rewrite !le32_val, !le16_val by done. done.
Qed.

(** What a receiver reads from a segment. *)
Lemma tcp_segment_parse ip rip lport rport seq ack flags data rest :
  0 <= lport < 65536 -> 0 <= rport < 65536 -> 0 <= seq < 2 ^ 32 -> 0 <= ack < 2 ^ 32 ->
  let seg := tcp_segment ip rip lport rport seq ack flags data in
  let h := tcp_parse (seg ++ rest) in
  length seg = (20 + length data)%nat /\ ntohs (src_port h) = lport /\ ntohs (dst_port h) = rport /\
  ntohl (h_seq h) = seq /\ (flags .& TCP_ACK <> 0 -> ntohl (h_ack h) = ack) /\ h_flags h = flags /\
  u8 (Z.shiftr (data_offset h) 4 * 4) = 20 /\ drop 20 (seg ++ rest) = data ++ rest.
Proof.
  intros Hl Hr Hs Ha. unfold tcp_segment. set (c := tcp_checksum _ _ _ _).
  assert (0 <= c < 65536) as Hc by (apply Z.mod_pos_bound; lia). clearbody c.
  set (h0 := TcpHdr _ _ _ _ _ _ _ _ _). assert (tcp_ok h0) as Hh.
  { split; simpl; try done; try (by apply htons_range); try apply htonl_range. case_if; [apply htonl_range|lia]. }
  cbv zeta. rewrite <- app_assoc, tcp_parse_bytes by done. split; [done|]. split; [by apply ntohs_htons|].
  split; [by apply ntohs_htons|]. split; [by apply ntohl_htonl|]. split; [|done].
  intros Hf. simpl. rewrite (proj2 (Z.eqb_neq _ _) Hf). by apply ntohl_htonl.
Qed.

Section wire.
Context {Nic : Type} `{NetDriver Nic}.
Implicit Types (s : tcp Nic) (i : nat) (k : tcp_socket).

(** *** The socket table *)

Lemma sock_set_eq i k s : (i < length (t_sockets s))%nat -> sock (set_sock i k s) i = k.
Proof. intros Hi. unfold sock. simpl. by rewrite list_lookup_insert_eq. Qed.
Lemma sock_set_ne i j k s : j <> i -> sock (set_sock i k s) j = sock s j.
Proof. intros Hj. unfold sock. simpl. by rewrite list_lookup_insert_ne. Qed.
Lemma sock_mod_eq i f s : (i < length (t_sockets s))%nat -> sock (mod_sock i f s) i = f (sock s i).
Proof. apply sock_set_eq. Qed.
Lemma length_sockets i k s : length (t_sockets (set_sock i k s)) = length (t_sockets s).
Proof. simpl. apply length_insert. Qed.
Lemma set_sock_id i s : set_sock i (sock s i) s = s.
Proof.
  unfold set_sock, sock. destruct s as [l e n t a]. simpl. unfold set_sockets. simpl. f_equal.
  destruct (l !! i) as [k|] eqn:E; simpl; [by apply list_insert_id|].
  apply list_insert_ge. by apply lookup_ge_None.
Qed.

Lemma sock_set_net n i s : sock (set_net n s) i = sock s i.
Proof. done. Qed.

(** *** Sending one segment *)

(** A card that takes every frame, and an interface that can send to [rip]. *)
Definition card_ok : Prop := forall f (d : Nic), (nic_send f d).1 = 0.

Record link_ok (rip : Z) (mac : list Z) (n : net Nic) : Prop := {
  lk_host : host_ok n;
  lk_up : if_up n = true;
  lk_send : if_send n = true;
  lk_mac : length (if_mac n) = 6%nat;
  lk_bufs : (3 <= free_bufs n)%nat;
  lk_rip : 0 <= rip < 2 ^ 32;
  lk_res : resolved rip mac n
}.

(** The frame that carries a segment. *)
Definition seg_frame (rip : Z) (mac seg : list Z) (n : net Nic) : list Z :=
  eth_frame mac ETH_TYPE_IP4 (ip4_packet rip PROTO_TCP seg n) n.

(** The interface after the frame went out. *)
Definition sent (rip : Z) (mac seg : list Z) (n : net Nic) : net Nic :=
  set_nic (nic_send (seg_frame rip mac seg n) (nic n)).2 (set_ip4_id (u16 (ip4_id n + 1)) n).

Lemma sent_link rip mac seg n rip' mac' : link_ok rip mac n -> link_ok rip' mac' n -> link_ok rip' mac' (sent rip mac seg n).
Proof.
  intros _ [[Hh1 Hh2] ? ? ? ? ? ?]. split; try done. split; [done|]. simpl. apply Z.mod_pos_bound. lia.
Qed.

Lemma send_segment_spec i flags data s mac :
  card_ok -> let k := sock s i in link_ok (k_remote_ip k) mac (t_net s) ->
  Z.of_nat (length data) <= NET_BUF_SIZE - 54 ->
  let seg := tcp_segment (if_ip (t_net s)) (k_remote_ip k) (k_local_port k) (k_remote_port k) (k_tx_seq k) (k_rx_seq k) flags data in
  tcp_send_segment i flags data s =
  Some (0, mod_sock i (after_send flags data (t_ticks s)) (set_net (sent (k_remote_ip k) mac seg (t_net s)) s)).
Proof.
  intros Hcard k [Hh Hu Hsd Hm Hb Hr Hres] Hlen seg. unfold tcp_send_segment. fold k.
  destruct (alloc_buf_spec (t_net s)) as (b & -> & Hbi & Hf); [lia|].
  rewrite (proj2 (Z.ltb_ge NET_BUF_SIZE _)) by lia. set (n := set_buf_used _ (t_net s)) in *.
  change (if_ip n) with (if_ip (t_net s)). fold seg. cbv zeta.
  assert (length seg = (20 + length data)%nat) as Hl by done.
  pose proof (ip4_send_spec (k_remote_ip k) PROTO_TCP seg mac n) as Hs.
  change (eth_frame mac ETH_TYPE_IP4 (ip4_packet (k_remote_ip k) PROTO_TCP seg n) n)
    with (seg_frame (k_remote_ip k) mac seg (t_net s)) in Hs. change (nic n) with (nic (t_net s)) in Hs.
  unfold sent. pose proof (Hcard (seg_frame (k_remote_ip k) mac seg (t_net s)) (nic (t_net s))) as Hc.
  destruct (nic_send (seg_frame _ _ _ _) _) as [r d]. simpl in Hc. subst r.
  rewrite Hs; [|unfold can_send; split_and!; try done; lia|lia|done]. rewrite Z.eqb_refl.
  change (u16 (ip4_id n + 1)) with (u16 (ip4_id (t_net s) + 1)). unfold n. rewrite free_restores by done. done.
Qed.

(** *** Receiving a frame that carries a segment *)

Definition receive udp_rx (frame : list Z) (len : Z) s : option (tcp Nic) :=
  net_receive t_net set_net tcp_receive udp_rx frame len s.

Lemma receive_frame udp_rx rip mac seg rest n s :
  link_ok rip mac n -> Z.of_nat (length seg) <= NET_BUF_SIZE - 34 -> if_ip (t_net s) = rip ->
  exists h, ip_src h = if_ip n /\
    receive udp_rx (seg_frame rip mac seg n ++ rest) (Z.of_nat (length (seg_frame rip mac seg n))) s =
    tcp_receive h (seg ++ rest) (Z.of_nat (length seg)) s.
Proof.
  intros [Hh Hu Hsd Hm Hb Hr Hres] Hl Hip. unfold NET_BUF_SIZE in Hl.
  destruct (ip4_accept_spec rip PROTO_TCP seg rest n (t_net s)) as (h & Ha & Hp & Hsrc & _); [done|done|done|lia|by left|].
  exists h. split; [done|]. unfold receive, net_receive, seg_frame.
  rewrite eth_receive_frame by (apply Hres || done || by left). change (ETH_TYPE_IP4 =? ETH_TYPE_IP4) with true. cbv iota.
  unfold ip4_receive. replace (Z.of_nat (length (ip4_packet rip PROTO_TCP seg n))) with (20 + Z.of_nat (length seg))
    by (unfold ip4_packet; rewrite length_app, length_ip4_bytes; lia).
  by rewrite Ha, Hp.
Qed.

(** *** What sending and acknowledging leave alone *)

(** The connection of two sockets is the same; sequence numbers, state and the
    retransmission fields may differ. *)
Definition same_conn k k' : Prop :=
  k_used k' = k_used k /\ k_local_port k' = k_local_port k /\ k_remote_port k' = k_remote_port k /\
  k_remote_ip k' = k_remote_ip k /\ k_rx_buf k' = k_rx_buf k /\ k_rx_head k' = k_rx_head k /\ k_rx_tail k' = k_rx_tail k.

Lemma after_send_conn flags data now k :
  let k' := after_send flags data now k in
  same_conn k k' /\ k_state k' = k_state k /\ k_rx_seq k' = k_rx_seq k /\
  k_tx_seq k' = u32 (k_tx_seq k + Z.of_nat (length data)).
Proof. unfold after_send. case_if; done. Qed.

Lemma rtx_clear_conn ack k :
  let k' := tcp_rtx_clear_if_acked ack k in
  same_conn k k' /\ k_state k' = k_state k /\ k_rx_seq k' = k_rx_seq k /\ k_tx_seq k' = k_tx_seq k.
Proof. unfold tcp_rtx_clear_if_acked. repeat case_if; done. Qed.

Lemma find_idx_unique (f : tcp_socket -> bool) l i k :
  l !! i = Some k -> f k = true -> (forall j y, l !! j = Some y -> f y = true -> j = i) -> find_idx f l = Some i.
Proof.
  intros Hi Hf Hu. destruct (find_idx_is_Some f l i k Hi Hf) as [j Hj]. rewrite Hj. f_equal.
  apply find_idx_Some in Hj as (y & Hy & Hfy & _). by apply (Hu j y).
Qed.

Lemma sock_lookup s i : (i < length (t_sockets s))%nat -> t_sockets s !! i = Some (sock s i).
Proof. intros Hi. unfold sock. by destruct (lookup_lt_is_Some_2 _ _ Hi) as [k ->]. Qed.

(** Socket [i] is the only one of the connection. *)
Definition connected s i (lport rport rip : Z) : Prop :=
  (i < length (t_sockets s))%nat /\ conn_match lport rport rip (sock s i) = true /\
  forall j, j <> i -> (j < length (t_sockets s))%nat -> conn_match lport rport rip (sock s j) = false.

Lemma connected_find s i lport rport rip :
  connected s i lport rport rip -> find_idx (conn_match lport rport rip) (t_sockets s) = Some i.
Proof.
  intros (Hi & Hm & Ho). apply (find_idx_unique _ _ i (sock s i)); [by apply sock_lookup|done|].
  intros j y Hy Hf. destruct (decide (j = i)) as [|Hne]; [done|].
  assert (j < length (t_sockets s))%nat as Hj by (by eapply lookup_lt_Some).
  rewrite (sock_lookup s j Hj) in Hy. simplify_eq. by rewrite (Ho j Hne Hj) in Hf.
Qed.

Lemma connected_mod s i lport rport rip f :
  connected s i lport rport rip ->
  (forall k, k_used (f k) = k_used k /\ k_local_port (f k) = k_local_port k /\ k_remote_port (f k) = k_remote_port k /\
     k_remote_ip (f k) = k_remote_ip k) ->
  connected (mod_sock i f s) i lport rport rip.
Proof.
  intros (Hi & Hm & Ho) Hf. unfold connected, mod_sock. rewrite length_sockets, sock_set_eq by done. split; [done|]. split.
  - destruct (Hf (sock s i)) as (E1 & E2 & E3 & E4). unfold conn_match in *. by rewrite E1, E2, E3, E4.
  - intros j Hne Hj. rewrite sock_set_ne by done. by apply Ho.
Qed.

(** A segment for a connection reaches its socket. *)
Lemma receive_segment h seg_ip rip lport rport seq ack flags data rest s :
  0 <= lport < 65536 -> 0 <= rport < 65536 -> 0 <= seq < 2 ^ 32 -> 0 <= ack < 2 ^ 32 ->
  let seg := tcp_segment seg_ip rip lport rport seq ack flags data in
  tcp_receive h (seg ++ rest) (Z.of_nat (length seg)) s =
  match find_idx (conn_match rport lport (ip_src h)) (t_sockets s) with
  | None => tcp_accept_syn (ip_src h) lport rport seq flags s
  | Some i => socket_rx i seq (ntohl (h_ack (tcp_parse (seg ++ rest)))) flags data s
  end /\ (flags .& TCP_ACK <> 0 -> ntohl (h_ack (tcp_parse (seg ++ rest))) = ack).
Proof.
  intros Hl Hr Hs Ha seg.
  destruct (tcp_segment_parse seg_ip rip lport rport seq ack flags data rest Hl Hr Hs Ha)
    as (Hlen & E1 & E2 & E3 & E4 & E5 & E6 & E7). fold seg in Hlen, E1, E2, E3, E4, E5, E6, E7.
  split; [|done]. unfold tcp_receive. rewrite (proj2 (Z.ltb_ge _ 20)) by lia. cbv zeta. rewrite E1, E2, E3, E5, E6.
  change (Z.to_nat 20) with 20%nat. rewrite E7, (proj2 (Z.leb_le 20 _)) by lia.
  rewrite mem_take_app by lia. done.
Qed.

(** ** The three-way handshake *)

(** The facts on a socket that matter for a connection. *)
Record endpoint s i (st : tcp_state) (lport rport rip tx rx : Z) : Prop := {
  ep_conn : connected s i lport rport rip;
  ep_state : k_state (sock s i) = st;
  ep_tx : k_tx_seq (sock s i) = tx;
  ep_rx : k_rx_seq (sock s i) = rx
}.

Lemma ep_fields s i st lport rport rip tx rx :
  endpoint s i st lport rport rip tx rx ->
  (i < length (t_sockets s))%nat /\ k_used (sock s i) = true /\ k_local_port (sock s i) = lport /\
  k_remote_port (sock s i) = rport /\ k_remote_ip (sock s i) = rip.
Proof.
  intros [(Hi & Hm & _) _ _ _]. split; [done|]. unfold conn_match in Hm. bools. done.
Qed.

(** A segment sent by an endpoint: the frame, and the endpoint afterwards. *)
Lemma endpoint_send s i st lport rport rip mac tx rx flags data :
  card_ok -> endpoint s i st lport rport rip tx rx -> link_ok rip mac (t_net s) ->
  Z.of_nat (length data) <= NET_BUF_SIZE - 54 ->
  let seg := tcp_segment (if_ip (t_net s)) rip lport rport tx rx flags data in
  exists s', tcp_send_segment i flags data s = Some (0, s') /\
    t_net s' = sent rip mac seg (t_net s) /\ t_ticks s' = t_ticks s /\ t_accepted s' = t_accepted s /\
    endpoint s' i st lport rport rip (u32 (tx + Z.of_nat (length data))) rx /\
    (forall j, j <> i -> sock s' j = sock s j) /\ length (t_sockets s') = length (t_sockets s).
Proof.
  intros Hc He Hlk Hl seg. destruct (ep_fields _ _ _ _ _ _ _ _ He) as (Hi & Hu & E1 & E2 & E3). destruct He as [Hcn Hst Htx Hrx].
  pose proof (send_segment_spec i flags data s mac Hc) as Hs. cbv zeta in Hs. rewrite E1, E2, E3, Htx, Hrx in Hs.
  rewrite Hs by done. fold seg. eexists. split; [done|]. split; [done|]. split; [done|]. split; [done|].
  set (s1 := set_net (sent rip mac seg (t_net s)) s). assert (sock s1 i = sock s i) as Ek by done.
  destruct (after_send_conn flags data (t_ticks s) (sock s i)) as ((A1 & A2 & A3 & A4 & _) & A5 & A6 & A7). split; [split|split].
  - apply connected_mod; [done|]. intros k. by destruct (after_send_conn flags data (t_ticks s) k) as ((? & ? & ? & ? & _) & _).
  - rewrite sock_mod_eq by done. by rewrite Ek, A5.
  - rewrite sock_mod_eq by done. by rewrite Ek, A7, Htx.
  - rewrite sock_mod_eq by done. by rewrite Ek, A6.
  - intros j Hj. unfold mod_sock. by rewrite sock_set_ne.
  - unfold mod_sock. by rewrite length_sockets.
Qed.

Lemma endpoint_mod s i st st' lport rport rip tx tx' rx rx' f :
  endpoint s i st lport rport rip tx rx ->
  (forall k, k_used (f k) = k_used k /\ k_local_port (f k) = k_local_port k /\ k_remote_port (f k) = k_remote_port k /\
     k_remote_ip (f k) = k_remote_ip k) ->
  k_state (f (sock s i)) = st' -> k_tx_seq (f (sock s i)) = tx' -> k_rx_seq (f (sock s i)) = rx' ->
  endpoint (mod_sock i f s) i st' lport rport rip tx' rx'.
Proof.
  intros [Hcn Hst Htx Hrx] Hf E1 E2 E3. pose proof (proj1 Hcn) as Hi.
  split; [by apply connected_mod|by rewrite sock_mod_eq..].
Qed.

(** A fresh socket in a free slot. *)
Lemma endpoint_open s i st lip lport rport rip tx rx :
  free_socket s = Some i -> find_idx (conn_match lport rport rip) (t_sockets s) = None ->
  endpoint (set_sock i (sock_open st lip rip lport rport tx rx) s) i st lport rport rip tx rx.
Proof.
  intros Hfree Hno. apply find_idx_Some in Hfree as (k0 & Hk0 & _).
  assert (i < length (t_sockets s))%nat as Hi by (by eapply lookup_lt_Some).
  split; [|by rewrite sock_set_eq..]. split; [by rewrite length_sockets|]. rewrite sock_set_eq by done. split.
  - unfold conn_match. simpl. by rewrite !Z.eqb_refl.
  - intros j Hne Hj. rewrite length_sockets in Hj. rewrite sock_set_ne by done. rewrite find_idx_None in Hno.
    apply (Hno j). by apply sock_lookup.
Qed.

Lemma endpoint_net s i st lport rport rip tx rx f :
  endpoint s i st lport rport rip tx rx ->
  t_sockets (f s) = t_sockets s -> endpoint (f s) i st lport rport rip tx rx.
Proof. intros [Hc H1 H2 H3] E. unfold connected, sock in *. split; unfold connected, sock; by rewrite E. Qed.

(** The client's first step. *)
Lemma connect_syn c i rip port mac :
  card_ok -> link_ok rip mac (t_net c) -> free_socket c = Some i ->
  find_idx (conn_match (t_ephemeral c) port rip) (t_sockets c) = None ->
  let isn := rand_seq c in
  let seg := tcp_segment (if_ip (t_net c)) rip (t_ephemeral c) port isn 0 TCP_SYN [] in
  exists c1, connect_start rip port c = Some (Some i, c1) /\ t_net c1 = sent rip mac seg (t_net c) /\
    endpoint c1 i TCP_SYN_SENT (t_ephemeral c) port rip (u32 (isn + 1)) 0.
Proof.
  intros Hc Hlk Hfree Hno isn seg. unfold connect_start. rewrite Hfree. cbv zeta. fold isn.
  set (c0 := set_ephemeral _ _).
  assert (endpoint c0 i TCP_SYN_SENT (t_ephemeral c) port rip isn 0) as He.
  { apply (endpoint_net _ _ _ _ _ _ _ _ (set_ephemeral (u16 (t_ephemeral c + 1)))); [|done]. by apply endpoint_open. }
  destruct (endpoint_send c0 i _ _ _ _ mac _ _ TCP_SYN [] Hc He Hlk) as (c1 & -> & Hn & _ & _ & He1 & _ & _); [done|].
  simpl. eexists. split; [done|]. split; [exact Hn|]. simpl in He1. rewrite Z.add_0_r in He1.
  eapply endpoint_mod; [exact He1|done|apply He1| |apply He1]. simpl. rewrite (ep_tx _ _ _ _ _ _ _ _ He1).
  unfold u32. by rewrite Zplus_mod_idemp_l.
Qed.

(** The server's answer to a SYN. *)
Lemma accept_syn v j l rip sport dport seq mac :
  card_ok -> link_ok rip mac (t_net v) -> free_socket v = Some j ->
  find_idx (listen_match dport) (t_sockets v) = Some l ->
  find_idx (conn_match dport sport rip) (t_sockets v) = None ->
  let isn := rand_seq v in
  let seg := tcp_segment (if_ip (t_net v)) rip dport sport isn (u32 (seq + 1)) (TCP_SYN .| TCP_ACK) [] in
  exists v1, tcp_accept_syn rip sport dport seq TCP_SYN v = Some v1 /\ t_net v1 = sent rip mac seg (t_net v) /\
    t_accepted v1 = t_accepted v /\
    endpoint v1 j TCP_SYN_RCVD dport sport rip (u32 (isn + 1)) (u32 (seq + 1)).
Proof.
  intros Hc Hlk Hfree Hls Hno isn seg. unfold tcp_accept_syn. change (negb (has_flag TCP_SYN TCP_SYN)) with false.
  change (has_flag TCP_SYN TCP_ACK) with false. cbv iota. rewrite Hls, Hfree. fold isn. set (v0 := set_sock j _ v).
  assert (endpoint v0 j TCP_SYN_RCVD dport sport rip isn (u32 (seq + 1))) as He by (by apply endpoint_open).
  destruct (endpoint_send v0 j _ _ _ _ mac _ _ (TCP_SYN .| TCP_ACK) [] Hc He Hlk) as (v1 & -> & Hn & _ & Ha & He1 & _ & _); [done|].
  simpl. eexists. split; [done|]. split; [exact Hn|]. split; [exact Ha|]. simpl in He1. rewrite Z.add_0_r in He1.
  eapply endpoint_mod; [exact He1|done|apply He1| |apply He1]. simpl. rewrite (ep_tx _ _ _ _ _ _ _ _ He1).
  unfold u32. by rewrite Zplus_mod_idemp_l.
Qed.

(** The client completes the connection. *)
Lemma finish_connect c i lport rport rip tx rx seq mac :
  card_ok -> link_ok rip mac (t_net c) -> endpoint c i TCP_SYN_SENT lport rport rip tx rx -> 0 <= tx < 2 ^ 32 ->
  let seg := tcp_segment (if_ip (t_net c)) rip lport rport tx (u32 (seq + 1)) TCP_ACK [] in
  exists c1, socket_rx i seq tx (TCP_SYN .| TCP_ACK) [] c = Some c1 /\ t_net c1 = sent rip mac seg (t_net c) /\
    endpoint c1 i TCP_ESTABLISHED lport rport rip tx (u32 (seq + 1)).
Proof.
  intros Hc Hlk He Htx seg. unfold socket_rx. rewrite (ep_state _ _ _ _ _ _ _ _ He), (ep_tx _ _ _ _ _ _ _ _ He), (Z.eqb_refl tx).
  change (_ =? TCP_SYN .| TCP_ACK) with true. simpl andb. cbv iota.
  set (c0 := set_sock i _ c).
  assert (endpoint c0 i TCP_ESTABLISHED lport rport rip tx (u32 (seq + 1))) as He0.
  { apply (endpoint_mod c i TCP_SYN_SENT _ _ _ _ tx _ rx _
      (fun k => set_state TCP_ESTABLISHED (set_rx_seq (u32 (seq + 1)) (tcp_rtx_clear_if_acked tx k)))); try done.
    - intros k. by destruct (rtx_clear_conn tx k) as ((? & ? & ? & ? & _) & _).
    - simpl. destruct (rtx_clear_conn tx (sock c i)) as (_ & _ & _ & ->). apply He. }
  destruct (endpoint_send c0 i _ _ _ _ mac _ _ TCP_ACK [] Hc He0 Hlk) as (c1 & -> & Hn & _ & _ & He1 & _ & _); [done|].
  simpl. eexists. split; [done|]. split; [exact Hn|]. simpl in He1. by rewrite Z.add_0_r, u32_small in He1.
Qed.

(** The server completes the connection. *)
Lemma finish_accept v j lport rport rip tx rx seq :
  endpoint v j TCP_SYN_RCVD lport rport rip tx rx ->
  exists v1, socket_rx j seq tx TCP_ACK [] v = Some v1 /\
    t_accepted v1 = t_accepted v ++ [(lport, rip, rport, j)] /\
    endpoint v1 j TCP_ESTABLISHED lport rport rip tx rx.
Proof.
  intros He. destruct (ep_fields _ _ _ _ _ _ _ _ He) as (Hi & _ & E1 & E2 & E3). unfold socket_rx.
  rewrite (ep_state _ _ _ _ _ _ _ _ He), (ep_tx _ _ _ _ _ _ _ _ He), (Z.eqb_refl tx), E1, E2, E3.
  change (has_flag TCP_ACK TCP_RST) with false. change (has_flag TCP_ACK TCP_ACK) with true. simpl andb. cbv iota.
  eexists. split; [done|]. split; [done|]. set (v0 := set_sock j _ v).
  apply (endpoint_net v0 _ _ _ _ _ _ _ (set_accepted (t_accepted v0 ++ [(lport, rip, rport, j)]))); [|done].
  apply (endpoint_mod v j TCP_SYN_RCVD _ _ _ _ tx _ rx _ (fun k => set_state TCP_ESTABLISHED (tcp_rtx_clear_if_acked tx k)));
    try done.
  - intros k. by destruct (rtx_clear_conn tx k) as ((? & ? & ? & ? & _) & _).
  - simpl. destruct (rtx_clear_conn tx (sock v j)) as (_ & _ & _ & ->). apply He.
  - simpl. destruct (rtx_clear_conn tx (sock v j)) as (_ & _ & -> & _). apply He.
Qed.

(** The card of [n'] was given exactly the frame [f] since [n]. *)
Definition transmitted (f : list Z) (n n' : net Nic) : Prop := nic n' = (nic_send f (nic n)).2.

(** C26: The three-way handshake: when a client calls [tcp_connect] to a
    port a server listens on, the frames that the two machines send each other
    lead both sockets to ESTABLISHED, each expecting the sequence number the
    other will send next, and the server hands the connection to the socket
    layer once. *)
Theorem tcp_handshake udp_rx c v i j l port mac_c mac_v rest :
  card_ok -> link_ok (if_ip (t_net v)) mac_v (t_net c) -> link_ok (if_ip (t_net c)) mac_c (t_net v) ->
  0 <= port < 65536 -> 0 <= t_ephemeral c < 65536 ->
  free_socket c = Some i -> free_socket v = Some j ->
  find_idx (listen_match port) (t_sockets v) = Some l ->
  find_idx (conn_match (t_ephemeral c) port (if_ip (t_net v))) (t_sockets c) = None ->
  find_idx (conn_match port (t_ephemeral c) (if_ip (t_net c))) (t_sockets v) = None ->
  exists f1 f2 f3 c1 v1 c2 v2 x y,
    connect_start (if_ip (t_net v)) port c = Some (Some i, c1) /\ transmitted f1 (t_net c) (t_net c1) /\
    receive udp_rx (f1 ++ rest) (Z.of_nat (length f1)) v = Some v1 /\ transmitted f2 (t_net v) (t_net v1) /\
    receive udp_rx (f2 ++ rest) (Z.of_nat (length f2)) c1 = Some c2 /\ transmitted f3 (t_net c1) (t_net c2) /\
    receive udp_rx (f3 ++ rest) (Z.of_nat (length f3)) v1 = Some v2 /\
    endpoint c2 i TCP_ESTABLISHED (t_ephemeral c) port (if_ip (t_net v)) x y /\
    endpoint v2 j TCP_ESTABLISHED port (t_ephemeral c) (if_ip (t_net c)) y x /\
    t_accepted v2 = t_accepted v ++ [(port, if_ip (t_net c), t_ephemeral c, j)].
Proof.
  intros Hcard Lc Lv Hport Heph Fc Fv Hls Nc Nv.
  destruct (connect_syn c i _ port mac_v Hcard Lc Fc Nc) as (c1 & Ec1 & Nc1 & Pc1).
  set (isn := rand_seq c) in *. assert (0 <= isn < 2 ^ 32) as Hisn by apply u32_range.
  set (seg1 := tcp_segment _ _ _ _ isn 0 TCP_SYN []) in *.
  destruct (accept_syn v j l _ (t_ephemeral c) port isn mac_c Hcard Lv Fv Hls Nv) as (v1 & Ev1 & Nv1 & Av1 & Pv1).
  set (isv := rand_seq v) in *. assert (0 <= isv < 2 ^ 32) as Hisv by apply u32_range.
  set (seg2 := tcp_segment _ _ _ _ isv _ (TCP_SYN .| TCP_ACK) []) in *.
  assert (link_ok (if_ip (t_net v)) mac_v (t_net c1)) as Lc1 by (rewrite Nc1; by apply sent_link).
  assert (if_ip (t_net c1) = if_ip (t_net c)) as Ipc by (by rewrite Nc1).
  assert (if_ip (t_net v1) = if_ip (t_net v)) as Ipv by (by rewrite Nv1).
  destruct (finish_connect c1 i _ _ _ _ _ isv mac_v Hcard Lc1 Pc1 (u32_range _)) as (c2 & Ec2 & Nc2 & Pc2).
  set (seg3 := tcp_segment _ _ _ _ _ _ TCP_ACK []) in *.
  destruct (finish_accept v1 j _ _ _ _ _ (u32 (isn + 1)) Pv1) as (v2 & Ev2 & Av2 & Pv2).
  exists (seg_frame (if_ip (t_net v)) mac_v seg1 (t_net c)), (seg_frame (if_ip (t_net c)) mac_c seg2 (t_net v)),
    (seg_frame (if_ip (t_net v)) mac_v seg3 (t_net c1)), c1, v1, c2, v2, (u32 (isn + 1)), (u32 (isv + 1)).
  split; [done|]. split; [by rewrite Nc1|]. split; [|split; [by rewrite Nv1|split; [|split; [by rewrite Nc2|split; [|split; [done|split; [done|]]]]]]].
  - destruct (receive_frame udp_rx _ mac_v seg1 rest (t_net c) v Lc) as (h & Hsrc & ->); [done|done|].
    destruct (receive_segment h (if_ip (t_net c)) (if_ip (t_net v)) (t_ephemeral c) port isn 0 TCP_SYN [] rest v) as [E _];
      [done|done|done|lia|]. fold seg1 in E. by rewrite E, Hsrc, Nv.
  - destruct (receive_frame udp_rx _ mac_c seg2 rest (t_net v) c1 Lv) as (h & Hsrc & ->); [done|done|].
    destruct (receive_segment h (if_ip (t_net v)) (if_ip (t_net c)) port (t_ephemeral c) isv (u32 (isn + 1)) (TCP_SYN .| TCP_ACK) []
      rest c1) as [E Hack]; [done|done|done|apply u32_range|]. fold seg2 in E, Hack. rewrite E, Hack by done.
    rewrite Hsrc, (connected_find _ _ _ _ _ (ep_conn _ _ _ _ _ _ _ _ Pc1)). done.
  - destruct (receive_frame udp_rx _ mac_v seg3 rest (t_net c1) v1 Lc1) as (h & Hsrc & ->); [done|done|].
    destruct (receive_segment h (if_ip (t_net c1)) (if_ip (t_net v)) (t_ephemeral c) port (u32 (isn + 1)) (u32 (isv + 1)) TCP_ACK []
      rest v1) as [E Hack]; [done|done|apply u32_range|apply u32_range|]. fold seg3 in E, Hack.
    rewrite E, Hack by done.
    rewrite Hsrc, Ipc, (connected_find _ _ _ _ _ (ep_conn _ _ _ _ _ _ _ _ Pv1)). done.
  - by rewrite Av2, Av1.
Qed.

(** ** The byte stream *)

(** The receive ring holds [l]. *)
Definition rx_holds k (l : list Z) : Prop :=
  ring_rep RX_SIZE (k_rx_buf k) (k_rx_head k mod RX_SIZE) (k_rx_tail k - k_rx_head k) l /\
  (k_rx_head k <= k_rx_tail k)%nat /\ (length l < RX_SIZE)%nat.

(** Only the ring differs. *)
Definition kept_but_ring k k' : Prop :=
  k_used k' = k_used k /\ k_state k' = k_state k /\ k_local_port k' = k_local_port k /\
  k_remote_port k' = k_remote_port k /\ k_remote_ip k' = k_remote_ip k /\ k_tx_seq k' = k_tx_seq k /\ k_rx_seq k' = k_rx_seq k.

Lemma kept_but_ring_trans k1 k2 k3 : kept_but_ring k1 k2 -> kept_but_ring k2 k3 -> kept_but_ring k1 k3.
Proof. intros (?&?&?&?&?&?&?) (?&?&?&?&?&?&?). repeat split; by etransitivity. Qed.

Lemma rx_size_val : Z.of_nat RX_SIZE = 4096.
Proof. done. Qed.

Lemma rx_tail_mod k l : rx_holds k l -> (k_rx_tail k mod RX_SIZE = (k_rx_head k mod RX_SIZE + length l) mod RX_SIZE)%nat.
Proof.
  intros (Hr & Hle & _). pose proof (rr_count _ _ _ _ _ Hr) as Hc. rewrite Nat.Div0.add_mod_idemp_l. f_equal. lia.
Qed.

Lemma ring_put_spec k l x :
  rx_holds k l -> (length l + 1 < RX_SIZE)%nat ->
  let k' := ring_put k x in
  rx_holds k' (l ++ [x]) /\ kept_but_ring k k'.
Proof.
  intros Hh Hl. pose proof (rx_tail_mod k l Hh) as Ht. destruct Hh as (Hr & Hle & Hlt).
  pose proof (rr_count _ _ _ _ _ Hr) as Hc. pose proof (rr_head _ _ _ _ _ Hr) as Hhd. unfold ring_put.
  assert (((k_rx_tail k + 1) mod RX_SIZE =? k_rx_head k mod RX_SIZE)%nat = false) as ->.
  { apply Nat.eqb_neq. intros E. replace (k_rx_tail k + 1)%nat with (k_rx_head k + (length l + 1))%nat in E by lia.
    assert (k_rx_head k < k_rx_head k + (length l + 1))%nat as H1 by lia.
    apply (mod_window_inj _ (k_rx_head k + (length l + 1)) RX_SIZE) in H1; [by symmetry in E|lia]. }
  split; [|done]. split; [|split; [simpl; lia|rewrite length_app; simpl; lia]]. simpl.
  replace (S (k_rx_tail k) - k_rx_head k)%nat with (S (k_rx_tail k - k_rx_head k)) by lia.
  rewrite Ht, <- Hc. apply ring_push; [done|]. lia.
Qed.

(** The bytes that still fit. *)
Definition room (l : list Z) : nat := (RX_SIZE - 1 - length l)%nat.

Lemma ring_put_full k l x : rx_holds k l -> (length l + 1 = RX_SIZE)%nat -> ring_put k x = k.
Proof.
  intros (Hr & Hle & Hlt) Hl. pose proof (rr_count _ _ _ _ _ Hr) as Hc. unfold ring_put.
  replace (k_rx_tail k + 1)%nat with (k_rx_head k + 1 * RX_SIZE)%nat by lia.
  by rewrite Nat.Div0.mod_add, Nat.eqb_refl.
Qed.

(** The ring takes what fits and drops the rest. *)
Lemma ring_fill_spec data k l :
  rx_holds k l ->
  let k' := fold_left ring_put data k in
  rx_holds k' (l ++ take (room l) data) /\ kept_but_ring k k'.
Proof.
  revert k l. induction data as [|x data IH]; intros k l Hh; cbn [fold_left]; [by rewrite take_nil, app_nil_r|].
  destruct (decide (length l + 1 < RX_SIZE)%nat) as [Hl|Hl].
  - destruct (ring_put_spec k l x Hh Hl) as [H1 K1]. destruct (IH (ring_put k x) (l ++ [x]) H1) as [H2 K2].
    replace (room l) with (S (room (l ++ [x]))) by (unfold room; rewrite length_app; simpl; lia).
    rewrite <- app_assoc in H2. split; [exact H2|]. exact (kept_but_ring_trans _ _ _ K1 K2).
  - pose proof Hh as (_ & _ & Hlt). rewrite (ring_put_full k l x Hh) by lia.
    destruct (IH k l Hh) as [H2 K2]. replace (room l) with 0%nat in * by (unfold room; lia). done.
Qed.

Lemma ring_read_spec n k l :
  rx_holds k l -> (n <= length l)%nat ->
  exists k', ring_read n k = (take n l, k') /\ rx_holds k' (drop n l) /\ kept_but_ring k k'.
Proof.
  revert k l. induction n as [|n IH]; intros k l Hh Hn; [by exists k|]. destruct l as [|x l]; simpl in Hn; [lia|].
  destruct Hh as (Hr & Hle & Hlt). pose proof (rr_count _ _ _ _ _ Hr) as Hc. simpl in Hc, Hlt.
  rewrite Hc in Hr. destruct (ring_pop _ _ _ _ _ _ Hr) as [Hx Hr'].
  simpl in Hr'. rewrite Nat.sub_0_r in Hr'.
  destruct (IH (set_rx_head (S (k_rx_head k)) k) l) as (k' & Hrd & Hrest); [|lia|].
  { split; [|simpl; lia]. simpl. replace (k_rx_tail k - S (k_rx_head k))%nat with (length l) by lia.
    replace (S (k_rx_head k) mod RX_SIZE)%nat with ((k_rx_head k mod RX_SIZE + 1) mod RX_SIZE)%nat; [done|].
    rewrite Nat.Div0.add_mod_idemp_l. f_equal. lia. }
  exists k'. cbn [ring_read]. rewrite Hrd, Hx. done.
Qed.

Lemma rx_available_spec k l : rx_holds k l -> rx_available k = length l.
Proof.
  intros (Hr & Hle & Hlt). pose proof (rr_count _ _ _ _ _ Hr) as Hc. unfold rx_available.
  replace (k_rx_tail k + RX_SIZE - k_rx_head k)%nat with (length l + 1 * RX_SIZE)%nat by lia.
  rewrite Nat.Div0.mod_add. by apply Nat.mod_small.
Qed.

(** An acknowledgement changes no socket, whether it could be sent or not. *)
Lemma send_ack_spec i s :
  0 <= k_tx_seq (sock s i) < 2 ^ 32 ->
  exists r s', tcp_send_segment i TCP_ACK [] s = Some (r, s') /\ t_sockets s' = t_sockets s.
Proof.
  intros Htx. unfold tcp_send_segment. destruct (net_alloc_buf (t_net s)) as [[b|] n]; [|by eexists _, _].
  change (NET_BUF_SIZE <? 20 + Z.of_nat (length [])) with false. cbv iota zeta. destruct (ip4_send _ _ _ n) as [ret n'].
  eexists _, _. split; [done|]. destruct (ret =? 0); [|done]. set (s1 := set_net _ s).
  assert (after_send TCP_ACK [] (t_ticks s1) (sock s1 i) = sock s1 i) as E.
  { unfold after_send. change (negb _ || _) with false. cbv iota. simpl length. rewrite Z.add_0_r, u32_small by done.
    by destruct (sock s1 i). }
  unfold mod_sock. by rewrite E, set_sock_id.
Qed.

(** The stream: the receiving socket has accepted the first [m] chunks that the
    peer sent and expects the next one.  [out] was read, [l] is in the ring, and
    [lost] bytes found the ring full. *)
Section stream.
Context (i : nat) (lport rport rip : Z) (isn : Z) (chunks : list (list Z)).

Definition offset (m : nat) : Z := Z.of_nat (length (concat (take m chunks))).
Definition chunk_seq (m : nat) : Z := u32 (isn + offset m).

Record streaming s (out : list Z) (m : nat) (l : list Z) (lost : nat) : Prop := {
  sm_conn : connected s i lport rport rip;
  sm_state : k_state (sock s i) = TCP_ESTABLISHED;
  sm_tx : 0 <= k_tx_seq (sock s i) < 2 ^ 32;
  sm_rx : k_rx_seq (sock s i) = chunk_seq m;
  sm_ring : rx_holds (sock s i) l;
  sm_bytes : out ++ l `sublist_of` concat (take m chunks);
  sm_lost : (length (out ++ l) + lost = length (concat (take m chunks)))%nat;
  sm_le : (m <= length chunks)%nat
}.

(** The chunks are not empty and together shorter than the sequence space. *)
Hypothesis chunks_ok : Forall (fun d => d <> []) chunks.
Hypothesis total_ok : Z.of_nat (length (concat chunks)) < 2 ^ 32.

Lemma offset_S m d : chunks !! m = Some d -> offset (S m) = offset m + Z.of_nat (length d).
Proof.
  intros Hd. unfold offset. rewrite (take_S_r _ _ _ Hd), concat_app, length_app. simpl. rewrite app_nil_r. lia.
Qed.

Lemma offset_mono m n : (m < n)%nat -> (n <= length chunks)%nat -> offset m < offset n.
Proof.
  intros Hlt Hn. induction Hlt as [|n Hlt IH].
  - destruct (lookup_lt_is_Some_2 chunks m) as [d Hd]; [lia|]. rewrite (offset_S m d Hd).
    assert (d <> []) by (by eapply Forall_lookup_1 in chunks_ok). destruct d; [done|]. simpl. lia.
  - destruct (lookup_lt_is_Some_2 chunks n) as [d Hd]; [lia|]. rewrite (offset_S n d Hd). specialize (IH ltac:(lia)). lia.
Qed.

Lemma offset_total m : 0 <= offset m < 2 ^ 32.
Proof.
  unfold offset. pose proof (take_drop m chunks) as E. apply (f_equal (@concat Z)) in E. rewrite concat_app in E.
  apply (f_equal length) in E. rewrite length_app in E. lia.
Qed.

Lemma chunk_seq_inj m n : (m <= length chunks)%nat -> (n <= length chunks)%nat -> chunk_seq m = chunk_seq n -> m = n.
Proof.
  intros Hm Hn E. pose proof (offset_total m). pose proof (offset_total n).
  assert (offset m = offset n) as Eo.
  { unfold chunk_seq, u32 in E. set (a := isn + offset m) in *. set (b := isn + offset n) in *.
    assert ((a - b) mod 2 ^ 32 = 0) as Hd by (by rewrite Zminus_mod, E, Z.sub_diag).
    assert (- 2 ^ 32 < a - b < 2 ^ 32) by lia. apply Z.mod_divide in Hd as [q Hq]; [|lia]. nia. }
  destruct (Nat.lt_trichotomy m n) as [Hlt|[->|Hlt]]; [|done|].
  - pose proof (offset_mono m n Hlt Hn). lia.
  - pose proof (offset_mono n m Hlt Hm). lia.
Qed.

(** The segment of chunk [j] as the peer sends it. *)
Definition chunk_segment (ip lip : Z) (j : nat) (ack : Z) (d : list Z) : list Z :=
  tcp_segment ip lip rport lport (chunk_seq j) ack (TCP_ACK .| TCP_PSH) d.

Lemma established_data s out m l lost j d ack :
  streaming s out m l lost -> chunks !! j = Some d ->
  exists s', established_rx i (chunk_seq j) ack (TCP_ACK .| TCP_PSH) d s = Some s' /\
    if bool_decide (j = m) then streaming s' out (S m) (l ++ take (room l) d) (lost + (length d - room l))
    else streaming s' out m l lost.
Proof.
  intros [Hcn Hst Htx Hrx Hring Hbytes Hlost Hle] Hd. pose proof (proj1 Hcn) as Hi. unfold established_rx.
  change (has_flag (TCP_ACK .| TCP_PSH) TCP_RST) with false. change (has_flag (TCP_ACK .| TCP_PSH) TCP_FIN) with false.
  change (has_flag (TCP_ACK .| TCP_PSH) TCP_ACK) with true. cbv iota. set (s1 := if _ && _ then _ else s).
  assert (streaming s1 out m l lost) as Hs1.
  { unfold s1. destruct (_ && _); [|done]. destruct (rtx_clear_conn ack (sock s i)) as ((E1 & E2 & E3 & E4 & E5 & E6 & E7) & F1 & F2 & F3).
    split; rewrite ?sock_mod_eq by done; try done; rewrite ?F1, ?F2, ?F3; try done.
    - apply connected_mod; [done|]. intros k. by destruct (rtx_clear_conn ack k) as ((? & ? & ? & ? & _) & _).
    - unfold rx_holds in *. by rewrite E5, E6, E7. }
  clearbody s1. clear Hcn Hst Htx Hrx Hring Hi s. destruct Hs1 as [Hcn Hst Htx Hrx Hring _ _ _]. pose proof (proj1 Hcn) as Hi.
  assert (d <> []) as Hne by (by eapply Forall_lookup_1 in chunks_ok).
  rewrite (proj2 (Z.ltb_lt 0 _)) by (destruct d; [done|simpl; lia]). simpl andb. rewrite Hrx.
  assert (j < length chunks)%nat as Hj by (by eapply lookup_lt_Some). case_bool_decide as Hjm.
  - subst j. rewrite Z.eqb_refl. set (s2 := mod_sock i _ s1).
    destruct (ring_fill_spec d (sock s1 i) l Hring) as (R1 & R2 & R3 & R4 & R5 & R6 & R7 & R8).
    assert (streaming s2 out (S m) (l ++ take (room l) d) (lost + (length d - room l))) as Hs2.
    { split; unfold s2; rewrite ?sock_mod_eq by done; simpl; rewrite ?R3, ?R7, ?R8, ?Hrx; try done.
      - destruct Hcn as (_ & Hm & Ho). split; [by unfold mod_sock; rewrite length_sockets|]. rewrite sock_mod_eq by done. split.
        + unfold conn_match in *. simpl. by rewrite R2, R4, R5, R6.
        + intros j Hjn Hjl. unfold mod_sock in *. rewrite length_sockets in Hjl. rewrite sock_set_ne by done. by apply Ho.
      - unfold chunk_seq, u32. rewrite Zplus_mod_idemp_l, (offset_S m d Hd). f_equal. lia.
      - rewrite app_assoc, (take_S_r _ _ _ Hd), concat_app. simpl. rewrite app_nil_r. apply sublist_app; [done|apply sublist_take].
      - rewrite app_assoc, (take_S_r _ _ _ Hd), concat_app, !(length_app _ (take _ _)), (length_app (concat _)), length_take.
        simpl. rewrite app_nil_r. lia. }
    destruct (send_ack_spec i s2 (sm_tx _ _ _ _ _ Hs2)) as (r & s3 & -> & Es). simpl. exists s3. split; [done|].
    destruct Hs2. split; unfold connected, sock in *; by rewrite ?Es.
  - rewrite (proj2 (Z.eqb_neq _ _)); [by exists s1|]. intros E. by apply Hjm, chunk_seq_inj; [lia| |].
Qed.

(** The network delivers segments of the stream in any order, any number of
    times or never; the application reads when it likes.  The last component
    counts the bytes of expected segments that find the ring full. *)
Inductive stream_step : tcp Nic * list Z * nat -> tcp Nic * list Z * nat -> Prop :=
| step_deliver h ip lip j d ack rest s s' out lost :
    ip_src h = rip -> chunks !! j = Some d -> 0 <= ack < 2 ^ 32 ->
    (let seg := chunk_segment ip lip j ack d in
     tcp_receive h (seg ++ rest) (Z.of_nat (length seg)) s = Some s') ->
    stream_step (s, out, lost)
      (s', out, if k_rx_seq (sock s i) =? chunk_seq j
                then (lost + (length d - (RX_SIZE - 1 - rx_available (sock s i))))%nat else lost)
| step_read n r xs s s' out lost :
    tcp_recv (Z.of_nat i) n s = (r, xs, s') -> stream_step (s, out, lost) (s', out ++ xs, lost).

Hypothesis slot_ok : (i < 16)%nat.
Hypothesis ports_ok : 0 <= lport < 65536 /\ 0 <= rport < 65536.

Lemma deliver_spec h ip lip j d ack rest s out m l lost :
  ip_src h = rip -> chunks !! j = Some d -> 0 <= ack < 2 ^ 32 -> streaming s out m l lost ->
  let seg := chunk_segment ip lip j ack d in
  exists s', tcp_receive h (seg ++ rest) (Z.of_nat (length seg)) s = Some s' /\
    if bool_decide (j = m) then streaming s' out (S m) (l ++ take (room l) d) (lost + (length d - room l))
    else streaming s' out m l lost.
Proof.
  intros Hh Hd Ha Hs seg. destruct ports_ok as [Hl Hr].
  destruct (receive_segment h ip lip rport lport (chunk_seq j) ack (TCP_ACK .| TCP_PSH) d rest s Hr Hl (u32_range _) Ha) as [E _].
  fold (chunk_segment ip lip j ack d) in E. fold seg in E. rewrite E, Hh, (connected_find _ _ _ _ _ (sm_conn _ _ _ _ _ Hs)).
  unfold socket_rx. rewrite (sm_state _ _ _ _ _ Hs). by apply (established_data s out m l lost j d).
Qed.

Lemma read_spec n s out m l lost :
  streaming s out m l lost ->
  exists xs l' s', tcp_recv (Z.of_nat i) n s = (Z.of_nat (length xs), xs, s') /\ l = xs ++ l' /\
    (n <= length l -> length xs = n)%nat /\ streaming s' (out ++ xs) m l' lost.
Proof.
  intros Hs. destruct (Hs) as [Hcn Hst Htx Hrx Hring Hbytes Hlost Hle]. pose proof (proj1 Hcn) as Hi.
  assert (k_used (sock s i) = true) as Hu by (destruct Hcn as (_ & Hm & _); unfold conn_match in Hm; by bools).
  unfold tcp_recv, get_socket. rewrite (proj2 (Z.ltb_ge _ 0)), (proj2 (Z.leb_gt 16 _)), Nat2Z.id, Hu by lia. simpl orb. cbv iota zeta.
  rewrite (rx_available_spec _ l Hring). destruct (length l =? 0)%nat eqn:E0; bools.
  { exists [], l, s. split; [done|]. split; [done|]. split; [simpl; lia|]. by rewrite app_nil_r. }
  set (t := if (length l <? n)%nat then length l else n). assert (t <= length l)%nat as Ht by (unfold t; case_if; bools; lia).
  destruct (ring_read_spec t (sock s i) l Hring Ht) as (k' & -> & R1 & R2 & R3 & R4 & R5 & R6 & R7 & R8).
  exists (take t l), (drop t l), (set_sock i k' s). assert (length (take t l) = t) as Hlt by (rewrite length_take; lia).
  split; [by rewrite Hlt|]. split; [by rewrite take_drop|]. split; [rewrite Hlt; unfold t; case_if; bools; lia|].
  split; rewrite ?sock_set_eq by done; rewrite ?R3, ?R7, ?R8; try done.
  - destruct Hcn as (_ & Hm & Ho). split; [by rewrite length_sockets|]. rewrite sock_set_eq by done. split.
    + unfold conn_match in *. by rewrite R2, R4, R5, R6.
    + intros j Hjn Hjl. rewrite length_sockets in Hjl. rewrite sock_set_ne by done. by apply Ho.
  - by rewrite <- app_assoc, take_drop.
  - by rewrite <- app_assoc, take_drop.
Qed.

Lemma stream_invariant s0 s out lost :
  streaming s0 [] 0 [] 0 -> reach stream_step (s0, [], 0%nat) (s, out, lost) -> exists m l, streaming s out m l lost.
Proof.
  intros H0 Hreach.
  apply (reach_invariant stream_step (fun p => exists m l, streaming p.1.1 p.1.2 m l p.2) (s0, [], 0%nat) (s, out, lost));
    [|by exists 0%nat, []|done].
  intros a b (m & l & Hs) Hstep. destruct Hstep as [h ip lip j d ack rest s1 s2 out1 lost1 Hh Hd Ha Hrx|n r xs s1 s2 out1 lost1 Hrd];
    cbn [fst snd] in *.
  - destruct (deliver_spec h ip lip j d ack rest s1 out1 m l lost1 Hh Hd Ha Hs) as (s3 & E & Hs3).
    cbv zeta in Hrx. rewrite E in Hrx. injection Hrx as <-. rewrite (sm_rx _ _ _ _ _ Hs), (rx_available_spec _ l (sm_ring _ _ _ _ _ Hs)).
    case_bool_decide as Hj; [subst j; rewrite Z.eqb_refl; eauto|]. rewrite (proj2 (Z.eqb_neq _ _)); [eauto|]. intros Eq.
    apply Hj. symmetry. apply chunk_seq_inj; [apply Hs| |done]. apply lookup_lt_Some in Hd. lia.
  - destruct (read_spec n s1 out1 m l lost1 Hs) as (ys & l' & s3 & E & _ & _ & Hs3). rewrite E in Hrd. simplify_eq. eauto.
Qed.

Lemma sublist_full {A} (l k : list A) : l `sublist_of` k -> length l = length k -> l = k.
Proof.
  induction 1 as [|x l k _ IH|x l k Hs _]; cbn; [done|intros [= E]; by rewrite IH|].
  apply sublist_length in Hs. lia.
Qed.

End stream.

(** ** Retransmission *)

Lemma tick_round_spec now j s :
  (j < length (t_sockets s))%nat ->
  let s' := tick_round now j s in
  t_ticks s' = t_ticks s /\ length (t_sockets s') = length (t_sockets s) /\
  sock s' j = (tick_socket now (sock s j)).2 /\ forall i, i <> j -> sock s' i = sock s i.
Proof.
  intros Hj. unfold tick_round. destruct (tick_socket now (sock s j)) as [send k].
  assert (forall s', t_ticks s' = t_ticks s /\ t_sockets s' = t_sockets (set_sock j k s) ->
    t_ticks s' = t_ticks s /\ length (t_sockets s') = length (t_sockets s) /\ sock s' j = (send, k).2 /\
    forall i, i <> j -> sock s' i = sock s i) as Hg.
  { intros s' [Ht Es]. split; [done|]. unfold sock at 1 2. rewrite Es. split; [by rewrite length_sockets|]. split.
    - by apply sock_set_eq.
    - intros i Hi. by apply sock_set_ne. }
  destruct send; by apply Hg.
Qed.

Lemma tick_rounds_spec js s :
  NoDup js -> Forall (fun j => (j < length (t_sockets s))%nat) js ->
  let s' := fold_left (fun s i => tick_round (u32 (t_ticks s)) i s) js s in
  t_ticks s' = t_ticks s /\ length (t_sockets s') = length (t_sockets s) /\
  forall i, sock s' i = if bool_decide (i ∈ js) then (tick_socket (u32 (t_ticks s)) (sock s i)).2 else sock s i.
Proof.
  revert s. induction js as [|j js IH]; intros s Hnd Hall.
  { split; [done|]. split; [done|]. intros i. by rewrite bool_decide_false by apply not_elem_of_nil. }
  apply NoDup_cons in Hnd as [Hnj Hnd]. apply Forall_cons in Hall as [Hj Hall]. cbn [fold_left].
  destruct (tick_round_spec (u32 (t_ticks s)) j s Hj) as (T1 & L1 & S1 & O1). set (s1 := tick_round _ j s) in *.
  destruct (IH s1 Hnd) as (T2 & L2 & S2); [by rewrite L1|]. cbv zeta. rewrite T2, L2, T1, L1. split; [done|]. split; [done|].
  intros i. rewrite S2, T1. destruct (decide (i = j)) as [->|Hne].
  - rewrite bool_decide_false, bool_decide_true, S1 by (done || apply elem_of_cons; by left). done.
  - rewrite (O1 i Hne). case_bool_decide as Hi; [by rewrite bool_decide_true by (apply elem_of_cons; by right)|].
    rewrite bool_decide_false; [done|]. rewrite elem_of_cons. tauto.
Qed.

Lemma tcp_tick_spec s :
  length (t_sockets s) = TCP_MAX_SOCKETS ->
  t_ticks (tcp_tick s) = t_ticks s /\ length (t_sockets (tcp_tick s)) = TCP_MAX_SOCKETS /\
  forall i, (i < TCP_MAX_SOCKETS)%nat -> sock (tcp_tick s) i = (tick_socket (u32 (t_ticks s)) (sock s i)).2.
Proof.
  intros Hl. destruct (tick_rounds_spec (seq 0 TCP_MAX_SOCKETS) s) as (T & L & S).
  - apply NoDup_seq.
  - apply Forall_forall. intros j Hj. apply elem_of_seq in Hj. lia.
  - split; [done|]. split; [by rewrite <- Hl|]. intros i Hi. unfold tcp_tick. rewrite S, bool_decide_true; [done|].
    apply elem_of_seq. lia.
Qed.

(** A timer tick, with [tcp_tick] called after it. *)
Definition tick_step s : tcp Nic := tcp_tick (set_ticks (t_ticks s + 1) s).

Lemma tick_step_spec s :
  length (t_sockets s) = TCP_MAX_SOCKETS ->
  t_ticks (tick_step s) = t_ticks s + 1 /\ length (t_sockets (tick_step s)) = TCP_MAX_SOCKETS /\
  forall i, (i < TCP_MAX_SOCKETS)%nat -> sock (tick_step s) i = (tick_socket (u32 (t_ticks s + 1)) (sock s i)).2.
Proof. intros Hl. exact (tcp_tick_spec (set_ticks (t_ticks s + 1) s) Hl). Qed.

(** [n] ticks. *)
Definition elapse (n : nat) s : tcp Nic := Nat.iter n tick_step s.

Fixpoint sock_elapse (n : nat) (t : Z) k : tcp_socket :=
  match n with
  | O => k
  | S n => (tick_socket (u32 (t + Z.of_nat n + 1)) (sock_elapse n t k)).2
  end.

Lemma iter_track {A} (f : A -> A) (P : nat -> A -> Prop) a n :
  P 0%nat a -> (forall m x, P m x -> P (S m) (f x)) -> P n (Nat.iter n f a).
Proof. intros H0 HS. induction n as [|n IH]; [done|]. by apply HS. Qed.

Lemma elapse_sock n s i :
  length (t_sockets s) = TCP_MAX_SOCKETS -> (i < TCP_MAX_SOCKETS)%nat ->
  sock (elapse n s) i = sock_elapse n (t_ticks s) (sock s i).
Proof.
  intros Hl Hi.
  apply (iter_track tick_step (fun m x => length (t_sockets x) = TCP_MAX_SOCKETS /\ t_ticks x = t_ticks s + Z.of_nat m /\
    sock x i = sock_elapse m (t_ticks s) (sock s i)) s n).
  - split; [exact Hl|]. split; [simpl; lia|done].
  - intros m x (L & T & S). destruct (tick_step_spec x L) as (T' & L' & S'). split; [exact L'|]. split; [lia|].
    rewrite (S' i Hi), T, S. reflexivity.
Qed.

Lemma sock_elapse_app m n t k : sock_elapse (m + n) t k = sock_elapse n (t + Z.of_nat m) (sock_elapse m t k).
Proof.
  induction n as [|n IH].
  - by rewrite Nat.add_0_r.
  - rewrite Nat.add_succ_r. cbn [sock_elapse]. rewrite IH. do 3 f_equal. lia.
Qed.

(** A segment sent at [t] waits for its acknowledgement. *)
Record pending (t r c : Z) k : Prop := {
  pd_used : k_used k = true;
  pd_time : k_rtx_time k = t;
  pd_rto : k_rto k = r;
  pd_count : k_rtx_count k = c
}.

Lemma pending_waits t r c k n :
  pending t r c k -> 0 < t -> t + Z.of_nat n < 2 ^ 32 -> Z.of_nat n < r -> sock_elapse n t k = k.
Proof.
  intros [Hu Ht Hr Hc] Ht0. induction n as [|n IH]; intros Hb Hn; [done|]. cbn [sock_elapse]. rewrite IH by lia. unfold tick_socket, rtx_due.
  rewrite Hu, Ht, Hr, (u32_small (t + Z.of_nat n + 1)), u32_small by lia.
  rewrite (proj2 (Z.ltb_lt _ _)) by lia. simpl. by rewrite andb_false_r.
Qed.

(** The next timeout. *)
Definition next_rto (r : Z) : Z := if r * 2 <? TCP_RTO_MAX then r * 2 else TCP_RTO_MAX.

Lemma pending_expires t r c k :
  pending t r c k -> 0 < t -> 0 < r <= TCP_RTO_MAX -> t + r < 2 ^ 32 ->
  let k' := sock_elapse (Z.to_nat r) t k in
  if TCP_MAX_RETRIES <=? c then k_used k' = false /\ k_state k' = TCP_CLOSED
  else pending (t + r) (next_rto r) (c + 1) k' /\ k_state k' = k_state k.
Proof.
  intros Hp Ht0 Hr0 Hb. replace (Z.to_nat r) with (S (Z.to_nat (r - 1))) by lia. cbn [sock_elapse].
  rewrite (pending_waits t r c k) by (done || lia). destruct Hp as [Hu Ht Hr Hc].
  unfold tick_socket, rtx_due. rewrite Hu, Ht, Hr, Hc, Z2Nat.id by lia.
  rewrite (u32_small (t + (r - 1) + 1)), (u32_small (_ - _)) by lia.
  rewrite (proj2 (Z.eqb_neq t 0)), (proj2 (Z.ltb_ge _ r)) by lia. simpl negb. cbv iota.
  destruct (TCP_MAX_RETRIES <=? c); [done|]. unfold TCP_RTO_MAX in *. rewrite (u32_small (r * 2)) by lia.
  split; [|done]. split; [done|simpl; lia|done|done].
Qed.

(** The time until a socket with [m] retries left gives up, and the number of
    retransmissions after [n] ticks. *)
Fixpoint rtx_total (m : nat) (r : Z) : Z :=
  match m with
  | O => r
  | S m => r + rtx_total m (next_rto r)
  end.
Fixpoint retries (m : nat) (r n : Z) : Z :=
  match m with
  | O => 0
  | S m => if n <? r then 0 else 1 + retries m (next_rto r) (n - r)
  end.

Lemma next_rto_range r : 0 < r <= TCP_RTO_MAX -> 0 < next_rto r <= TCP_RTO_MAX.
Proof. unfold next_rto, TCP_RTO_MAX. intros Hr. case_if; bools; lia. Qed.

Lemma rtx_total_ge m r : 0 < r <= TCP_RTO_MAX -> r <= rtx_total m r.
Proof.
  revert r. induction m as [|m IH]; intros r Hr; simpl; [lia|]. specialize (IH _ (next_rto_range r Hr)).
  pose proof (next_rto_range r Hr). lia.
Qed.

Lemma pending_schedule m t r k :
  pending t r (TCP_MAX_RETRIES - Z.of_nat m) k -> 0 < t -> 0 < r <= TCP_RTO_MAX -> t + rtx_total m r < 2 ^ 32 ->
  (forall n, Z.of_nat n < rtx_total m r ->
     let k' := sock_elapse n t k in
     k_used k' = true /\ k_state k' = k_state k /\
     k_rtx_count k' = TCP_MAX_RETRIES - Z.of_nat m + retries m r (Z.of_nat n)) /\
  let k' := sock_elapse (Z.to_nat (rtx_total m r)) t k in k_used k' = false /\ k_state k' = TCP_CLOSED.
Proof.
  revert t r k. induction m as [|m IH]; intros t r k Hp Ht Hr Hb; cbn [rtx_total retries] in *.
  - split.
    + intros n Hn. rewrite (pending_waits _ _ _ _ _ Hp) by lia. cbv zeta. destruct Hp as [Hu _ _ Hc].
      split; [done|]. split; [done|]. lia.
    + by pose proof (pending_expires t r _ k Hp Ht Hr Hb).
  - pose proof (next_rto_range r Hr) as Hr'. pose proof (rtx_total_ge m _ Hr') as Hge.
    pose proof (pending_expires t r _ k Hp Ht Hr ltac:(lia)) as He. cbv zeta in He.
    rewrite (proj2 (Z.leb_gt _ _)) in He by lia. destruct He as [Hp' Hst].
    replace (TCP_MAX_RETRIES - Z.of_nat (S m) + 1) with (TCP_MAX_RETRIES - Z.of_nat m) in Hp' by lia.
    destruct (IH (t + r) (next_rto r) _ Hp' ltac:(lia) Hr' ltac:(lia)) as [I1 I2]. split.
    + intros n Hn. destruct (Z.ltb_spec (Z.of_nat n) r) as [Hlt|Hgt].
      * rewrite (pending_waits _ _ _ _ _ Hp) by lia. cbv zeta. destruct Hp as [Hu _ _ Hc]. split; [done|]. split; [done|]. lia.
      * specialize (I1 (n - Z.to_nat r)%nat ltac:(lia)). replace n with (Z.to_nat r + (n - Z.to_nat r))%nat at 1 2 3 by lia.
        rewrite sock_elapse_app, Z2Nat.id by lia. destruct I1 as (U & S & C). split; [done|]. split; [by rewrite S|].
        rewrite C. replace (Z.of_nat (n - Z.to_nat r)) with (Z.of_nat n - r) by lia. lia.
    + replace (Z.to_nat (r + rtx_total m (next_rto r))) with (Z.to_nat r + Z.to_nat (rtx_total m (next_rto r)))%nat by lia.
      by rewrite sock_elapse_app, Z2Nat.id by lia.
Qed.

(** A segment that is never acknowledged is retransmitted exactly five
    times, after 300, 900, 2100, 4500 and 9300 ticks (the timeout doubles up to
    its limit), and the connection is reset after 15300 ticks and not before.
    The clock must not wrap around in between. *)
Theorem retransmission_schedule s i :
  length (t_sockets s) = TCP_MAX_SOCKETS -> (i < TCP_MAX_SOCKETS)%nat ->
  pending (t_ticks s) TCP_RTO_INITIAL 0 (sock s i) -> 0 < t_ticks s -> t_ticks s + 15300 < 2 ^ 32 ->
  (forall n, Z.of_nat n < 15300 ->
     let k := sock (elapse n s) i in
     k_used k = true /\ k_state k = k_state (sock s i) /\
     k_rtx_count k = Z.of_nat (length (filter (fun x => x <= Z.of_nat n) [300; 900; 2100; 4500; 9300]))) /\
  let k := sock (elapse (Z.to_nat 15300) s) i in k_used k = false /\ k_state k = TCP_CLOSED.
Proof.
  intros Hl Hi Hp Ht Hb. destruct (pending_schedule 5 (t_ticks s) TCP_RTO_INITIAL (sock s i) Hp Ht) as [H1 H2]; [done|done|].
  change (rtx_total 5 TCP_RTO_INITIAL) with 15300 in H1, H2. split.
  - intros n Hn. rewrite elapse_sock by done. destruct (H1 n Hn) as (U & S & C). split; [done|]. split; [done|]. rewrite C.
    change (TCP_MAX_RETRIES - Z.of_nat 5) with 0. rewrite Z.add_0_l. set (z := Z.of_nat n) in *. clearbody z. clear.
    cbn [retries]. change (next_rto TCP_RTO_INITIAL) with 600. change (next_rto 600) with 1200. change (next_rto 1200) with 2400.
    change (next_rto 2400) with 4800. unfold TCP_RTO_INITIAL.
    rewrite !filter_cons, filter_nil. cbv beta.
    repeat case_decide; cbn [length];
      repeat match goal with |- context [?a <? ?b] => destruct (Z.ltb_spec a b) end; lia.
  - rewrite elapse_sock by done. exact H2.
Qed.
End wire.

(** ** Instances *)

Definition demo_tcp (n : Z) (known : list arp_entry) (open : list tcp_socket) : tcp (list (list Z)) :=
  Tcp (open ++ replicate (TCP_MAX_SOCKETS - length open) sock_zero) 49152 (demo_host n known) 100 [].

Definition demo_ip (n : Z) : Z := 10 + n * 2 ^ 24.

Lemma demo_link m n :
  0 <= m < 256 -> 0 <= n < 256 -> link_ok (demo_ip n) [2; 0; 0; 0; 0; n] (demo_host m [demo_entry n]).
Proof.
  intros Hm Hn. split; [by apply demo_host_ok|done|done|done| |unfold demo_ip; lia|by apply demo_resolved].
  change (free_bufs _) with 64%nat. lia.
Qed.

Lemma tcp_handshake_witness :
  let c := demo_tcp 2 [demo_entry 3] [] in
  let v := demo_tcp 3 [demo_entry 2] [sock_open TCP_LISTEN (demo_ip 3) 0 80 0 0 0] in
  exists f1 f2 f3 c1 v1 c2 v2 x y,
    connect_start (demo_ip 3) 80 c = Some (Some 0%nat, c1) /\
    receive (fun _ _ _ => Some) (f1 ++ []) (Z.of_nat (length f1)) v = Some v1 /\
    receive (fun _ _ _ => Some) (f2 ++ []) (Z.of_nat (length f2)) c1 = Some c2 /\
    receive (fun _ _ _ => Some) (f3 ++ []) (Z.of_nat (length f3)) v1 = Some v2 /\
    endpoint c2 0 TCP_ESTABLISHED 49152 80 (demo_ip 3) x y /\
    endpoint v2 1 TCP_ESTABLISHED 80 49152 (demo_ip 2) y x /\
    t_accepted v2 = [(80, demo_ip 2, 49152, 1%nat)].
Proof.
  intros c v.
  destruct (tcp_handshake (fun _ _ _ => Some) c v 0 1 0 80 [2; 0; 0; 0; 0; 2] [2; 0; 0; 0; 0; 3] [])
    as (f1 & f2 & f3 & c1 & v1 & c2 & v2 & x & y & H1 & _ & H2 & _ & H3 & _ & H4 & H5 & H6 & H7);
    [done|by apply demo_link|by apply demo_link|done|done|reflexivity..|].
  exists f1, f2, f3, c1, v1, c2, v2, x, y. done.
Defined.

(** A connection to host 3 that expects sequence number 1000. *)
Definition demo_conn : tcp_socket := sock_open TCP_ESTABLISHED (demo_ip 2) (demo_ip 3) 49152 80 500 1000.

Lemma demo_connected : connected (demo_tcp 2 [demo_entry 3] [demo_conn]) 0 49152 80 (demo_ip 3).
Proof.
  split; [vm_compute; lia|]. split; [done|]. intros j Hj Hl. destruct j as [|j]; [done|].
  unfold sock. simpl. change (length _) with 16%nat in Hl. do 15 (destruct j as [|j]; [done|]). lia.
Qed.


Lemma retransmission_schedule_witness :
  let k := save_rtx TCP_ACK [7] 100 demo_conn in
  let s := demo_tcp 2 [demo_entry 3] [k] in
  k_rtx_count (sock (elapse (Z.to_nat 2500) s) 0) = 3 /\ k_state (sock (elapse (Z.to_nat 15300) s) 0) = TCP_CLOSED.
Proof.
  intros k s. destruct (retransmission_schedule s 0) as [H1 [_ H2]]; [done|vm_compute; lia|done|done|done|].
  split; [|exact H2]. apply (H1 (Z.to_nat 2500)). lia.
Defined.
