(* ===== verification/Bytes.v ===== *)
(** * Byte buffers

    Little-endian fields, sectors as words and as bytes, and [memcpy] into the
    middle of a buffer: the operations on raw bytes that the file systems and
    the ELF loader share. *)

From S2P Require Import Prelude CString.

(** The value of little-endian bytes, and the bytes of a value. *)
Definition le_val (l : list Z) : Z := foldr (fun b acc => b + 256 * acc) 0 l.

Fixpoint le_bytes (n : nat) (x : Z) : list Z :=
  match n with
  | O => []
  | S n => x mod 256 :: le_bytes n (x / 256)
  end.

(** A little-endian field of [n] bytes. *)
Definition field (data : list Z) (off : Z) (n : nat) : Z := le_val (take n (drop (Z.to_nat off) data)).

(** [memcpy(data + offset, buf, size)] *)
Definition write_at (bytes : list Z) (off : nat) (buf : list Z) : list Z :=
  take off bytes ++ buf ++ drop (off + length buf) bytes.

(** The 16-bit words of a sector and its bytes. *)
Fixpoint bytes_of_words (ws : list Z) : list Z :=
  match ws with
  | [] => []
  | w :: ws => w mod 256 :: (w / 256) mod 256 :: bytes_of_words ws
  end.

Fixpoint words_of_bytes (bs : list Z) : list Z :=
  match bs with
  | a :: b :: bs => a + 256 * b :: words_of_bytes bs
  | _ => []
  end.

(** ** Values *)

Lemma length_le_bytes n x : length (le_bytes n x) = n.
Proof. revert x. induction n as [|n IH]; intros x; cbn; [done|]. by rewrite IH. Qed.

Lemma le_bytes_bytes n x : byte_list (le_bytes n x).
Proof.
  revert x. induction n as [|n IH]; intros x; constructor; [|apply IH]. apply Z.mod_pos_bound. lia.
Qed.

Lemma le_val_bytes n x : le_val (le_bytes n x) = x mod 256 ^ Z.of_nat n.
Proof.
  revert x. induction n as [|n IH]; intros x; [by rewrite Z.mod_1_r|]. cbn [le_bytes le_val foldr]. fold (le_val (le_bytes n (x / 256))).
  rewrite IH, Nat2Z.inj_succ, Z.pow_succ_r by lia. symmetry. apply Z.rem_mul_r; [lia|]. apply Z.pow_pos_nonneg; lia.
Qed.

Lemma le_val_range l : byte_list l -> 0 <= le_val l < 256 ^ Z.of_nat (length l).
Proof.
  induction 1 as [|b l Hb _ IH]; [cbn; lia|]. cbn [le_val foldr length]. fold (le_val l). rewrite Nat2Z.inj_succ, Z.pow_succ_r by lia. lia.
Qed.

(** ** Writing into a buffer *)

Lemma length_write_at bytes off buf :
  (off + length buf <= length bytes)%nat -> length (write_at bytes off buf) = length bytes.
Proof. intros Hl. unfold write_at. rewrite !length_app, length_take, length_drop. lia. Qed.

Lemma write_at_bytes bytes off buf : byte_list bytes -> byte_list buf -> byte_list (write_at bytes off buf).
Proof.
  intros H1 H2. unfold write_at. apply Forall_app. split; [by apply Forall_take|].
  apply Forall_app. split; [done|by apply Forall_drop].
Qed.

Lemma lookup_write_at bytes off buf i :
  (off + length buf <= length bytes)%nat ->
  write_at bytes off buf !! i =
    if decide (off <= i < off + length buf)%nat then buf !! (i - off)%nat else bytes !! i.
Proof.
  intros Hl. unfold write_at. case_decide as Hd.
  - rewrite lookup_app_r by (rewrite length_take; lia). rewrite length_take, Nat.min_l by lia. by rewrite lookup_app_l by lia.
  - destruct (decide (i < off)%nat).
    + rewrite lookup_app_l by (rewrite length_take; lia). by rewrite lookup_take_lt by lia.
    + rewrite lookup_app_r by (rewrite length_take; lia). rewrite length_take, Nat.min_l by lia.
      rewrite lookup_app_r, lookup_drop by lia. f_equal. lia.
Qed.

(** A window of the buffer: the new bytes, or as before when it is apart. *)
Lemma window_write_at bytes off buf :
  (off + length buf <= length bytes)%nat -> take (length buf) (drop off (write_at bytes off buf)) = buf.
Proof.
  intros Hl. unfold write_at. rewrite drop_app_length' by (rewrite length_take; lia). by rewrite take_app_length.
Qed.

Lemma window_write_at_other bytes off buf o n :
  (off + length buf <= length bytes)%nat -> (o + n <= off \/ off + length buf <= o)%nat ->
  take n (drop o (write_at bytes off buf)) = take n (drop o bytes).
Proof.
  intros Hl Ho. apply list_eq. intros i. destruct (decide (i < n)%nat).
  - rewrite !lookup_take_lt, !lookup_drop, lookup_write_at by lia. by rewrite decide_False by lia.
  - by rewrite !lookup_take_ge by lia.
Qed.

(** ** Sectors *)

Lemma length_bytes_of_words ws : length (bytes_of_words ws) = (2 * length ws)%nat.
Proof. induction ws as [|w ws IH]; cbn; [done|]. rewrite IH. lia. Qed.

Lemma bytes_of_words_bytes ws : byte_list (bytes_of_words ws).
Proof. induction ws; cbn; repeat constructor; try done; apply Z.mod_pos_bound; lia. Qed.

Lemma words_roundtrip n bs :
  length bs = (2 * n)%nat -> byte_list bs ->
  bytes_of_words (words_of_bytes bs) = bs /\ length (words_of_bytes bs) = n.
Proof.
  revert bs. induction n as [|n IH]; intros bs Hl Hb; destruct bs as [|a [|b bs]]; try (cbn in Hl; lia); [done|].
  apply Forall_cons in Hb as [Ha Hb]. apply Forall_cons in Hb as [Hb Hbs]. cbn in Hl.
  destruct (IH bs ltac:(lia) Hbs) as [E1 E2]. cbn. rewrite E1, E2. split; [|done].
  rewrite (Z.mul_comm 256), Z.mod_add, Z.div_add, (Z.mod_small a), (Z.div_small a), Z.add_0_l, Z.mod_small by lia. done.
Qed.
