(* ===== verification/Udp.v ===== *)
(** * UDP ([net/udp.c])

    The table of listeners, the two receive modes that the kernel registers
    (a blocking slot and a polled slot), sending and receiving, over the IPv4
    layer of [Net].  [stack] joins UDP with TCP on one interface: it is the
    state that a received frame changes. *)

From S2P Require Import Prelude Bytes Net Tcp.

Definition UDP_MAX_LISTENERS : nat := 16.
Definition UDP_BLOCKING_MAX : nat := 4.
Definition UDP_POLL_SLOTS : nat := 8.
Definition UDP_POLL_BUF_SZ : Z := 1500.
Definition UDP_HDR_SIZE : Z := 8.

(** The callbacks that are ever registered; [l_ctx] is the index of the slot
    that the context pointer points to. *)
Inductive udp_recv_cb := BLOCKING_CB | POLL_CB.

Record udp_listener := Listener { l_port : Z; l_cb : option udp_recv_cb; l_ctx : nat }.

(** [b_buf] is the buffer of the caller that the slot points to. *)
Record udp_blocking_slot := Blocking {
  b_port : Z;
  b_buf : list Z;
  b_maxlen : Z;
  b_rxlen : Z;
  b_done : bool
}.

Record udp_poll_slot := Poll { p_port : Z; p_used : bool; p_len : Z; p_data : list Z }.

Record udp := Udp {
  g_listeners : list udp_listener;
  g_blocking : list udp_blocking_slot;
  g_poll_slots : list udp_poll_slot;
  g_poll_init : bool
}.

Definition listener_zero : udp_listener := Listener 0 None 0.
Definition blocking_zero : udp_blocking_slot := Blocking 0 [] 0 0 false.
Definition poll_zero : udp_poll_slot := Poll 0 false 0 (replicate (Z.to_nat UDP_POLL_BUF_SZ) 0).

Definition set_listeners v u : udp := Udp v (g_blocking u) (g_poll_slots u) (g_poll_init u).
Definition set_blocking v u : udp := Udp (g_listeners u) v (g_poll_slots u) (g_poll_init u).
Definition set_poll v u : udp := Udp (g_listeners u) (g_blocking u) v (g_poll_init u).

Definition udp_init (u : udp) : udp :=
  Udp (replicate UDP_MAX_LISTENERS listener_zero) (replicate UDP_BLOCKING_MAX blocking_zero)
    (g_poll_slots u) (g_poll_init u).

(** ** Listeners *)

Definition udp_listen (port : Z) (cb : option udp_recv_cb) (ctx : nat) (u : udp) : Z * udp :=
  match find_idx (fun l => l_port l =? port) (g_listeners u) with
  | Some i =>
      let l := match cb with
               | None => listener_zero
               | Some _ => Listener port cb ctx
               end in
      (0, set_listeners (<[i := l]> (g_listeners u)) u)
  | None =>
      match cb with
      | None => (0, u)
      | Some _ =>
          match find_idx (fun l => l_port l =? 0) (g_listeners u) with
          | Some i => (0, set_listeners (<[i := Listener port cb ctx]> (g_listeners u)) u)
          | None => (-1, u)
          end
      end
  end.

(** ** The callbacks *)

Definition udp_blocking_cb (data : list Z) (len : Z) (ctx : nat) (u : udp) : udp :=
  match g_blocking u !! ctx with
  | None => u
  | Some b =>
      if b_done b then u
      else
        let copy_len := if len <? b_maxlen b then len else b_maxlen b in
        set_blocking (<[ctx := Blocking (b_port b) (write_at (b_buf b) 0 (mem_take (Z.to_nat copy_len) data))
                                 (b_maxlen b) copy_len true]> (g_blocking u)) u
  end.

Definition udp_poll_cb (data : list Z) (len : Z) (ctx : nat) (u : udp) : udp :=
  match g_poll_slots u !! ctx with
  | None => u
  | Some p =>
      if p_used p then u
      else
        let copy_len := if len <? UDP_POLL_BUF_SZ then len else UDP_POLL_BUF_SZ in
        set_poll (<[ctx := Poll (p_port p) true copy_len
                             (write_at (p_data p) 0 (mem_take (Z.to_nat copy_len) data))]> (g_poll_slots u)) u
  end.

Definition run_cb (cb : udp_recv_cb) : list Z -> Z -> nat -> udp -> udp :=
  match cb with
  | BLOCKING_CB => udp_blocking_cb
  | POLL_CB => udp_poll_cb
  end.

(** ** Sending and receiving *)

Definition udp_packet (src_port dst_port : Z) (data : list Z) : list Z :=
  le16 (htons src_port) ++ le16 (htons dst_port) ++
  le16 (htons (u16 (UDP_HDR_SIZE + Z.of_nat (length data)))) ++ le16 0 ++ data.

(** One round of the dispatch loop of [udp_receive]. *)
Definition dispatch_to (dst_port : Z) (data : list Z) (data_len : Z) (u : udp) (i : nat) : udp :=
  match g_listeners u !! i with
  | Some l =>
      match l_cb l with
      | Some cb => if l_port l =? dst_port then run_cb cb data data_len (l_ctx l) u else u
      | None => u
      end
  | None => u
  end.

Definition udp_receive (payload : list Z) (len : Z) (u : udp) : udp :=
  if len <? UDP_HDR_SIZE then u
  else
    let dst_port := ntohs (get16 payload 2) in
    let udp_len := ntohs (get16 payload 4) in
    if (udp_len <? UDP_HDR_SIZE) || (len <? udp_len) then u
    else
      fold_left (dispatch_to dst_port (drop 8 payload) (u16 (udp_len - UDP_HDR_SIZE)))
        (seq 0 UDP_MAX_LISTENERS) u.

(** ** Polling *)

(** The slot of a port, taken and registered when the port has none. *)
Definition poll_slot (local_port : Z) (u : udp) : option nat * udp :=
  match find_idx (fun p => p_port p =? local_port) (g_poll_slots u) with
  | Some i => (Some i, u)
  | None =>
      match find_slot (fun p => p_port p =? 0) (g_poll_slots u) with
      | Some (i, p) =>
          let u := set_poll (<[i := Poll local_port false (p_len p) (p_data p)]> (g_poll_slots u)) u in
          (Some i, (udp_listen local_port (Some POLL_CB) i u).2)
      | None => (None, u)
      end
  end.

(** The bytes returned are the ones copied to the start of the buffer. *)
Definition udp_recv_poll (local_port bufsz : Z) (u : udp) : Z * list Z * udp :=
  let u := if g_poll_init u then u
           else Udp (g_listeners u) (g_blocking u) (replicate UDP_POLL_SLOTS poll_zero) true in
  match poll_slot local_port u with
  | (None, u) => (-1, [], u)
  | (Some i, u) =>
      match g_poll_slots u !! i with
      | None => (-1, [], u)
      | Some p =>
          if negb (p_used p) then (-1, [], u)
          else
            let n := if p_len p <? bufsz then p_len p else bufsz in
            (n, take (Z.to_nat n) (p_data p),
             set_poll (<[i := Poll (p_port p) false (p_len p) (p_data p)]> (g_poll_slots u)) u)
      end
  end.

(** ** The stack *)

Section stack.
Context {Nic : Type} `{NetDriver Nic}.

Record stack := Stack { st_tcp : tcp Nic; st_udp : udp }.
Implicit Types (s : stack) (n : net Nic).

Definition st_net s : net Nic := t_net (st_tcp s).
Definition st_ticks s : Z := t_ticks (st_tcp s).
Definition put_net n s : stack := Stack (set_net n (st_tcp s)) (st_udp s).
Definition put_udp u s : stack := Stack (st_tcp s) u.

Definition udp_send (dst_ip src_port dst_port : Z) (data : list Z) n : Z * net Nic :=
  if negb (if_up n) then (-1, n)
  else if NET_BUF_SIZE <? UDP_HDR_SIZE + Z.of_nat (length data) then (-1, n)
  else ip4_send dst_ip PROTO_UDP (udp_packet src_port dst_port data) n.

(** A frame taken from the card. *)
Definition stack_receive (frame : list Z) (len : Z) s : option stack :=
  net_receive st_net put_net
    (fun h seg len s => (fun t => Stack t (st_udp s)) <$> tcp_receive h seg len (st_tcp s))
    (fun _ payload len s => Some (put_udp (udp_receive payload len (st_udp s)) s)) frame len s.

(** *** Blocking receive *)

(** The loop; [yield] is [scheduler_yield] with the interrupts that come in
    before it returns.  [true] when the slot was filled. *)
Fixpoint recv_wait (fuel : nat) (yield : stack -> stack) (deadline : Z) (i : nat) s : option (bool * stack) :=
  match fuel with
  | O => None
  | S fuel =>
      if b_done (default blocking_zero (g_blocking (st_udp s) !! i)) then Some (true, s)
      else if deadline <=? st_ticks s then Some (false, s)
      else recv_wait fuel yield deadline i (yield s)
  end.

Definition recv_deadline (timeout_ms : Z) s : Z :=
  u32 (st_ticks s + u32 (timeout_ms * TIMER_FREQ) / 1000).

Definition set_slot (i : nat) (b : udp_blocking_slot) (u : udp) : udp :=
  set_blocking (<[i := b]> (g_blocking u)) u.

Definition free_slot (i : nat) (u : udp) : udp :=
  let b := default blocking_zero (g_blocking u !! i) in
  set_slot i (Blocking 0 (b_buf b) (b_maxlen b) (b_rxlen b) (b_done b)) u.

(** Result, the buffer of the caller, and the stack. *)
Definition udp_recv_blocking (fuel : nat) (yield : stack -> stack) (port : Z) (buf : list Z) (maxlen timeout_ms : Z) s
    : option (Z * list Z * stack) :=
  match find_idx (fun b => b_port b =? 0) (g_blocking (st_udp s)) with
  | None => Some (-1, buf, s)
  | Some i =>
      let u := set_slot i (Blocking port buf maxlen 0 false) (st_udp s) in
      let '(r, u) := udp_listen port (Some BLOCKING_CB) i u in
      if r <? 0 then Some (-1, buf, put_udp (free_slot i u) s)
      else
        '(done, s) ← recv_wait fuel yield (recv_deadline timeout_ms s) i (put_udp u s);
        let u := (udp_listen port None 0 (st_udp s)).2 in
        let b := default blocking_zero (g_blocking u !! i) in
        Some (if done : bool then b_rxlen b else -1, b_buf b, put_udp (free_slot i u) s)
  end.
End stack.
Arguments stack : clear implicits.

(** ** The table of listeners as a map from ports to callbacks *)

Definition lst_ok (ls : list udp_listener) : Prop :=
  (forall i l, ls !! i = Some l -> if l_port l =? 0 then l_cb l = None else is_Some (l_cb l)) /\
  (forall i j l l', ls !! i = Some l -> ls !! j = Some l' -> l_port l = l_port l' -> l_port l <> 0 -> i = j).

Definition bound_in (ls : list udp_listener) (p : Z) : option (udp_recv_cb * nat) :=
  '(_, l) ← find_slot (fun l => l_port l =? p) ls;
  (fun c => (c, l_ctx l)) <$> l_cb l.
Definition bound (u : udp) : Z -> option (udp_recv_cb * nat) := bound_in (g_listeners u).

Lemma bound_in_Some ls p c x :
  lst_ok ls -> bound_in ls p = Some (c, x) <-> p <> 0 /\ exists i, ls !! i = Some (Listener p (Some c) x).
Proof.
  intros [Hcb Hu]. unfold bound_in. split.
  - destruct (find_slot _ ls) as [[i [q cb y]]|] eqn:E; [|done]. cbn. apply find_slot_Some in E as [Hi Hp].
    cbn in Hp. apply Z.eqb_eq in Hp as ->. destruct cb as [c'|]; [|done]. intros [= -> ->].
    pose proof (Hcb i _ Hi) as Hz. cbn in Hz. split; [|by exists i]. intros ->. done.
  - intros (Hp & i & Hi). rewrite (find_slot_unique _ ls i (Listener p (Some c) x) Hi); [done|cbn; lia|].
    intros j y Hy Hpy%Z.eqb_eq. symmetry. by eapply (Hu i j).
Qed.

Lemma bound_in_None ls p :
  lst_ok ls -> bound_in ls p = None -> p <> 0 -> forall i l, ls !! i = Some l -> l_port l <> p.
Proof.
  intros Hok Hn Hp i l Hi <-. pose proof (proj1 Hok i l Hi) as Hz. rewrite (proj2 (Z.eqb_neq _ 0) Hp) in Hz.
  destruct Hz as [c Hc]. assert (bound_in ls (l_port l) = Some (c, l_ctx l)) as E; [|congruence].
  apply bound_in_Some; [done|]. split; [done|]. exists i. rewrite Hi. by destruct l; cbn in *; subst.
Qed.

(** Rewriting a slot that was free, or bound to the same port. *)
Lemma put_ok ls i l p c x :
  lst_ok ls -> ls !! i = Some l -> p <> 0 -> l_port l = p \/ (l_port l = 0 /\ bound_in ls p = None) ->
  lst_ok (<[i := Listener p (Some c) x]> ls) /\
  forall q, bound_in (<[i := Listener p (Some c) x]> ls) q = if q =? p then Some (c, x) else bound_in ls q.
Proof.
  intros Hok Hi Hp Hl. pose proof (lookup_lt_Some _ _ _ Hi) as Hlt.
  assert (forall j l', j <> i -> ls !! j = Some l' -> l_port l' <> p) as Hno.
  { intros j l' Hj Hl' Hq. destruct Hl as [Hl|[Hl Hn]]; [|by eapply bound_in_None].
    apply Hj. eapply (proj2 Hok); [done|done|congruence|congruence]. }
  assert (lst_ok (<[i := Listener p (Some c) x]> ls)) as Hok'.
  { split.
    - intros j l' [[-> ->]|[Hj Hl']]%(lookup_put ls i _ j l' Hlt); [|by apply (proj1 Hok j)].
      cbn. rewrite (proj2 (Z.eqb_neq p 0) Hp). by eexists.
    - intros j k l1 l2 [[-> ->]|[Hj H1]]%(lookup_put ls i _ j _ Hlt) [[-> ->]|[Hk H2]]%(lookup_put ls i _ k _ Hlt);
        cbn; intros Heq Hnz; [done| | |by eapply (proj2 Hok)].
      + by destruct (Hno k l2 Hk H2).
      + by destruct (Hno j l1 Hj H1). }
  split; [done|]. intros q. destruct (Z.eqb_spec q p) as [->|Hq].
  { apply bound_in_Some; [done|]. split; [done|]. exists i. by apply list_lookup_insert_eq. }
  apply option_eq. intros [c' y]. rewrite !bound_in_Some by done. apply and_iff_compat_l. split; intros [j Hj].
  - apply (lookup_put ls i _ j _ Hlt) in Hj as [[-> [= -> _ _]]|[_ Hj]]; [done|by exists j].
  - exists j. apply lookup_put; [done|]. right. split; [|done]. intros ->.
    rewrite Hi in Hj. injection Hj as ->. cbn in Hl. destruct Hl as [?|[? _]]; [done|].
    pose proof (proj1 Hok i _ Hi) as Hz. subst q. done.
Qed.

Lemma drop_ok ls i l p :
  lst_ok ls -> ls !! i = Some l -> l_port l = p -> p <> 0 ->
  lst_ok (<[i := listener_zero]> ls) /\
  forall q, bound_in (<[i := listener_zero]> ls) q = if q =? p then None else bound_in ls q.
Proof.
  intros Hok Hi Hp Hnz. pose proof (lookup_lt_Some _ _ _ Hi) as Hlt.
  assert (lst_ok (<[i := listener_zero]> ls)) as Hok'.
  { split.
    - by intros j l' [[-> ->]|[Hj Hl']]%(lookup_put ls i _ j l' Hlt); [|apply (proj1 Hok j)].
    - intros j k l1 l2 [[-> ->]|[Hj H1]]%(lookup_put ls i _ j _ Hlt) [[-> ->]|[Hk H2]]%(lookup_put ls i _ k _ Hlt);
        cbn; intros Heq Hz; [done|by destruct Hz|congruence|by eapply (proj2 Hok)]. }
  split; [done|]. intros q. apply option_eq. intros [c' y].
  destruct (Z.eqb_spec q p) as [->|Hq]; rewrite !bound_in_Some by done.
  - split; [|done]. intros (_ & j & [[-> ?]|[Hj Hl']]%(lookup_put ls i _ j _ Hlt)); [done|].
    destruct Hj. by eapply (proj2 Hok).
  - apply and_iff_compat_l. split; intros [j Hj].
    + apply (lookup_put ls i _ j _ Hlt) in Hj as [[-> ?]|[_ Hj]]; [done|by exists j].
    + exists j. apply lookup_put; [done|]. right. split; [|done]. intros ->. rewrite Hi in Hj. injection Hj as ->. done.
Qed.

(** Registering binds the port, or fails because no slot is free. *)
Lemma listen_spec p c x u :
  lst_ok (g_listeners u) -> p <> 0 ->
  let '(r, u') := udp_listen p (Some c) x u in
  (r = 0 /\ (exists ls, u' = set_listeners ls u /\ length ls = length (g_listeners u)) /\ lst_ok (g_listeners u') /\
   forall q, bound u' q = if q =? p then Some (c, x) else bound u q) \/
  (r = -1 /\ u' = u /\ bound u p = None /\ forall i l, g_listeners u !! i = Some l -> l_port l <> 0).
Proof.
  intros Hok Hp. unfold udp_listen.
  destruct (find_idx _ (g_listeners u)) as [i|] eqn:E.
  - apply find_idx_Some in E as (l & Hi & Hl%Z.eqb_eq & _). left. split; [done|].
    destruct (put_ok _ i l p c x Hok Hi Hp (or_introl Hl)) as [Ho Hb].
    split; [eexists; split; [done|apply length_insert]|done].
  - assert (bound u p = None) as Hn.
    { unfold bound, bound_in, find_slot. by rewrite E. }
    destruct (find_idx (fun l => l_port l =? 0) _) as [i|] eqn:E0.
    + apply find_idx_Some in E0 as (l & Hi & Hl%Z.eqb_eq & _). left. split; [done|].
      destruct (put_ok _ i l p c x Hok Hi Hp (or_intror (conj Hl Hn))) as [Ho Hb].
      split; [eexists; split; [done|apply length_insert]|done].
    + right. rewrite find_idx_None in E0. split_and!; [done|done|done|]. intros i l Hi.
      apply Z.eqb_neq. by eapply E0.
Qed.

Lemma unlisten_spec p u :
  lst_ok (g_listeners u) -> p <> 0 ->
  let '(r, u') := udp_listen p None 0 u in
  r = 0 /\ (exists ls, u' = set_listeners ls u /\ length ls = length (g_listeners u)) /\ lst_ok (g_listeners u') /\
  forall q, bound u' q = if q =? p then None else bound u q.
Proof.
  intros Hok Hp. unfold udp_listen. destruct (find_idx _ (g_listeners u)) as [i|] eqn:E.
  - apply find_idx_Some in E as (l & Hi & Hl%Z.eqb_eq & _). split; [done|].
    destruct (drop_ok _ i l p Hok Hi Hl Hp) as [Ho Hb].
    split; [eexists; split; [done|apply length_insert]|done].
  - split; [done|]. split; [exists (g_listeners u); by destruct u|]. split; [done|]. intros q.
    destruct (Z.eqb_spec q p) as [->|]; [|done]. unfold bound, bound_in, find_slot. by rewrite E.
Qed.

(** ** Dispatch *)

(** What a datagram for [p] does: it runs the callback bound to [p]. *)
Definition deliver (p : Z) (data : list Z) (u : udp) : udp :=
  match bound u p with
  | None => u
  | Some (cb, ctx) => run_cb cb data (Z.of_nat (length data)) ctx u
  end.

(** The port and the data of a datagram that passes the checks. *)
Definition datagram (payload : list Z) (len : Z) : option (Z * list Z) :=
  let udp_len := ntohs (get16 payload 4) in
  if (len <? UDP_HDR_SIZE) || (udp_len <? UDP_HDR_SIZE) || (len <? udp_len) then None
  else Some (ntohs (get16 payload 2), mem_take (Z.to_nat (u16 (udp_len - UDP_HDR_SIZE))) (drop 8 payload)).

Lemma mem_take_mem_take k n p : (k <= n)%nat -> mem_take k (mem_take n p) = mem_take k p.
Proof.
  intros Hk. unfold mem_take. rewrite !take_app, !take_take, length_take, take_replicate, length_app, length_take, length_replicate.
  replace (k - (min n (length p) + (n - length p)))%nat with 0%nat by lia. rewrite app_nil_r. f_equal; [f_equal; lia|].
  f_equal. lia.
Qed.

Lemma run_cb_listeners cb data len ctx u : g_listeners (run_cb cb data len ctx u) = g_listeners u.
Proof.
  destruct cb; cbn; unfold udp_blocking_cb, udp_poll_cb.
  - by destruct (_ !! _) as [b|]; [destruct (b_done b)|].
  - by destruct (_ !! _) as [b|]; [destruct (p_used b)|].
Qed.

Lemma run_cb_mem_take cb data n ctx u :
  run_cb cb data (Z.of_nat n) ctx u = run_cb cb (mem_take n data) (Z.of_nat n) ctx u.
Proof.
  destruct cb; cbn; unfold udp_blocking_cb, udp_poll_cb; destruct (_ !! _) as [b|]; try done.
  - destruct (b_done b); [done|]. rewrite mem_take_mem_take; [done|]. case_match; lia.
  - destruct (p_used b); [done|]. rewrite mem_take_mem_take; [done|]. case_match; lia.
Qed.

Lemma dispatch_none p data len u ks :
  (forall i l, i ∈ ks -> g_listeners u !! i = Some l -> l_cb l = None \/ l_port l <> p) ->
  fold_left (dispatch_to p data len) ks u = u.
Proof.
  induction ks as [|i ks IH]; intros Hn; [done|]. cbn.
  replace (dispatch_to p data len u i) with u; [apply IH; intros j l Hj; apply Hn; by right|].
  unfold dispatch_to. destruct (g_listeners u !! i) as [l|] eqn:E; [|done].
  destruct (Hn i l (list_elem_of_here i ks) E) as [Hc|Hp]; [by rewrite Hc|].
  destruct (l_cb l); [|done]. by rewrite (proj2 (Z.eqb_neq _ _) Hp).
Qed.

Lemma dispatch_spec p data n u :
  lst_ok (g_listeners u) -> length (g_listeners u) = UDP_MAX_LISTENERS ->
  fold_left (dispatch_to p data (Z.of_nat n)) (seq 0 UDP_MAX_LISTENERS) u = deliver p (mem_take n data) u.
Proof.
  intros Hok Hl. unfold deliver. destruct (bound u p) as [[c x]|] eqn:E.
  - apply bound_in_Some in E as (Hp & k & Hk); [|done].
    pose proof (lookup_lt_Some _ _ _ Hk) as Hlt. rewrite Hl in Hlt.
    assert (forall i l, i <> k -> g_listeners u !! i = Some l -> l_port l <> p) as Hno.
    { intros i l Hi Hil Hq. apply Hi. eapply (proj2 Hok); [done|exact Hk|done|by rewrite Hq]. }
    replace (seq 0 UDP_MAX_LISTENERS) with (seq 0 k ++ k :: seq (S k) (UDP_MAX_LISTENERS - S k)).
    2: { change (k :: seq (S k) (UDP_MAX_LISTENERS - S k)) with (seq k (S (UDP_MAX_LISTENERS - S k))).
         rewrite <- seq_app. f_equal. lia. }
    rewrite fold_left_app. cbn [fold_left].
    rewrite (dispatch_none p data _ u (seq 0 k)); [|intros i l Hi%elem_of_seq Hil; right; apply (Hno i l); [lia|done]].
    unfold dispatch_to at 2. rewrite Hk. cbn. rewrite Z.eqb_refl.
    rewrite dispatch_none; [rewrite length_mem_take; apply run_cb_mem_take|].
    intros i l Hi%elem_of_seq. rewrite run_cb_listeners. intros Hil. right. apply (Hno i l); [lia|done].
  - apply dispatch_none. intros i l _ Hil. destruct (decide (l_port l = p)) as [<-|]; [|by right]. left.
    pose proof (proj1 Hok i l Hil) as Hz. destruct (Z.eqb_spec (l_port l) 0); [done|].
    by destruct (bound_in_None _ _ Hok E n0 i l Hil).
Qed.

Lemma receive_spec payload len u :
  lst_ok (g_listeners u) -> length (g_listeners u) = UDP_MAX_LISTENERS ->
  udp_receive payload len u =
  match datagram payload len with
  | None => u
  | Some (p, data) => deliver p data u
  end.
Proof.
  intros Hok Hl. unfold udp_receive, datagram. cbv zeta. destruct (len <? UDP_HDR_SIZE); [done|].
  rewrite orb_false_l. destruct (_ || _) eqn:E; [done|].
  rewrite <- dispatch_spec by done. rewrite Z2Nat.id; [done|]. unfold u16. apply Z.mod_pos_bound. lia.
Qed.

(** ** From one host to another *)

Lemma length_udp_packet sp dp data : length (udp_packet sp dp data) = (8 + length data)%nat.
Proof. done. Qed.

Lemma datagram_packet sp dp data rest :
  0 <= dp < 65536 -> Z.of_nat (length data) <= 65527 ->
  datagram (udp_packet sp dp data ++ rest) (Z.of_nat (length (udp_packet sp dp data))) = Some (dp, data).
Proof.
  intros Hd Hl. unfold datagram, UDP_HDR_SIZE.
  set (n := 8 + Z.of_nat (length data)) in *.
  assert (get16 (udp_packet sp dp data ++ rest) 4 = htons (u16 n)) as ->.
  { unfold udp_packet, UDP_HDR_SIZE. fold n. rewrite <- !app_assoc.
    rewrite (get16_app (le16 (htons sp)) _ 2), (get16_app (le16 (htons dp)) _ 0). apply get16_le16.
    apply htons_range. rewrite u16_small; lia. }
  assert (get16 (udp_packet sp dp data ++ rest) 2 = htons dp) as ->.
  { unfold udp_packet. rewrite <- !app_assoc. rewrite (get16_app (le16 (htons sp)) _ 0). apply get16_le16.
    by apply htons_range. }
  rewrite u16_small by lia. rewrite !ntohs_htons by lia. rewrite length_udp_packet.
  rewrite !(proj2 (Z.ltb_ge _ _)) by lia. cbn [orb]. do 2 f_equal. rewrite u16_small by lia.
  change (drop 8 (udp_packet sp dp data ++ rest)) with (data ++ rest). apply mem_take_app. lia.
Qed.

Section wire.
Context {Nic : Type} `{NetDriver Nic}.
Implicit Types (s : stack Nic) (n : net Nic).

Lemma udp_send_spec dst_ip sp dp data n :
  if_up n = true -> Z.of_nat (length data) <= NET_BUF_SIZE - 42 ->
  udp_send dst_ip sp dp data n = ip4_send dst_ip PROTO_UDP (udp_packet sp dp data) n.
Proof.
  intros Hu Hl. unfold udp_send, UDP_HDR_SIZE. rewrite Hu. cbn. by rewrite (proj2 (Z.ltb_ge _ _)) by lia.
Qed.

(** A frame that carries a UDP packet to this host. *)
Lemma stack_receive_udp dst_ip mac pkt rest n s :
  host_ok n -> length (if_mac n) = 6%nat -> length mac = 6%nat -> Z.of_nat (length pkt) <= NET_BUF_SIZE - 34 ->
  0 <= dst_ip < 2 ^ 32 -> dst_ip = if_ip (st_net s) \/ dst_ip = IP_BROADCAST ->
  let frame := eth_frame mac ETH_TYPE_IP4 (ip4_packet dst_ip PROTO_UDP pkt n) n in
  stack_receive (frame ++ rest) (Z.of_nat (length frame)) s =
  Some (put_udp (udp_receive (pkt ++ rest) (Z.of_nat (length pkt)) (st_udp s)) s).
Proof.
  intros Hh Hm Hmac Hl Hd Hto frame. unfold NET_BUF_SIZE in Hl.
  destruct (ip4_accept_spec dst_ip PROTO_UDP pkt rest n (st_net s)) as (h & Ha & Hp & _); [done|done|done|lia|done|].
  unfold stack_receive, net_receive, frame. rewrite eth_receive_frame by (done || by left).
  change (ETH_TYPE_IP4 =? ETH_TYPE_IP4) with true. cbv iota. unfold ip4_receive.
  replace (Z.of_nat (length (ip4_packet dst_ip PROTO_UDP pkt n))) with (20 + Z.of_nat (length pkt))
    by (unfold ip4_packet; rewrite length_app, length_ip4_bytes; lia).
  by rewrite Ha, Hp.
Qed.

(** C-UDP: a datagram sent by one host reaches the callback bound to its port on
    the other, with exactly its data: [udp_send] hands one frame to the card and
    changes nothing but the identification counter, and the host with the
    destination address, or any host for a broadcast, runs the callback bound to
    the destination port and no other, and drops the datagram when there is none. *)
Theorem udp_delivered dst_ip sp dp data mac rest n s :
  host_ok n -> can_send n (udp_packet sp dp data) 2 -> Z.of_nat (length data) <= NET_BUF_SIZE - 42 ->
  0 <= dst_ip < 2 ^ 32 -> 0 <= dp < 65536 -> resolved dst_ip mac n ->
  lst_ok (g_listeners (st_udp s)) -> length (g_listeners (st_udp s)) = UDP_MAX_LISTENERS ->
  dst_ip = if_ip (st_net s) \/ dst_ip = IP_BROADCAST ->
  exists frame r d, nic_send frame (nic n) = (r, d) /\
    udp_send dst_ip sp dp data n = (r, set_nic d (set_ip4_id (u16 (ip4_id n + 1)) n)) /\
    stack_receive (frame ++ rest) (Z.of_nat (length frame)) s =
    Some (put_udp (match bound (st_udp s) dp with
                   | None => st_udp s
                   | Some (cb, ctx) => run_cb cb data (Z.of_nat (length data)) ctx (st_udp s)
                   end) s).
Proof.
  intros Hh Hc Hl Hd Hdp Hres Hok Hls Hto. pose proof (length_udp_packet sp dp data) as Hlen.
  pose proof (ip4_send_spec dst_ip PROTO_UDP (udp_packet sp dp data) mac n Hc ltac:(lia) Hres) as Hsend.
  destruct (nic_send _ (nic n)) as [r d] eqn:En. eexists _, r, d. split; [exact En|].
  destruct Hc as (Hup & _ & Hmac & _). destruct Hres as [Hm6 _]. split; [by rewrite udp_send_spec|].
  rewrite stack_receive_udp by (done || lia). unfold NET_BUF_SIZE in Hl.
  by rewrite receive_spec, datagram_packet by (done || lia).
Qed.
End wire.

(** ** The world while a caller waits

    Between two rounds of a waiting loop, in the yield or in interrupts, datagrams
    arrive ([arrivals]) and the interface and the clock move on ([next]).  A number
    of rounds, at most [rate], can pass within one tick; [left] says how many are
    left.  Nobody else changes the tables. *)

Definition arrive (u : udp) (d : list Z * Z) : udp := udp_receive d.1 d.2 u.

Section world.
Context {Nic : Type} (next : tcp Nic -> tcp Nic) (arrivals : tcp Nic -> list (list Z * Z))
  (left : tcp Nic -> nat) (rate : nat).
Implicit Types (s : stack Nic) (t : tcp Nic).

Definition step s : stack Nic :=
  Stack (next (st_tcp s)) (fold_left arrive (arrivals (st_tcp s)) (st_udp s)).

Record world : Prop := {
  w_rate t : (left t <= rate)%nat;
  w_clock t : t_ticks t < t_ticks (next t) \/ (t_ticks (next t) = t_ticks t /\ (left (next t) < left t)%nat)
}.

(** An upper bound of the rounds before a deadline. *)
Definition rounds (deadline : Z) t : nat :=
  if t_ticks t <? deadline then (Z.to_nat (deadline - t_ticks t) * S rate + left t)%nat else 0.

Lemma rounds_step deadline t : world -> t_ticks t < deadline -> (rounds deadline (next t) < rounds deadline t)%nat.
Proof.
  intros Hw Hd. unfold rounds. rewrite (proj2 (Z.ltb_lt _ _) Hd). pose proof (w_rate Hw (next t)) as Hr.
  destruct (Z.ltb_spec (t_ticks (next t)) deadline); [|nia]. destruct (w_clock Hw t) as [Hc|[-> Hc]]; [|lia].
  assert (Z.to_nat (deadline - t_ticks (next t)) < Z.to_nat (deadline - t_ticks t))%nat by lia. nia.
Qed.

Lemma rounds_bound deadline d t :
  world -> deadline - t_ticks t <= d -> (rounds deadline t <= Z.to_nat d * S rate + rate)%nat.
Proof.
  intros Hw Hd. unfold rounds. pose proof (w_rate Hw t) as Hr. case_match; [|lia].
  assert (Z.to_nat (deadline - t_ticks t) <= Z.to_nat d)%nat by lia. nia.
Qed.

Fixpoint later (n : nat) t : tcp Nic :=
  match n with O => t | S n => later n (next t) end.
Fixpoint arrived (n : nat) t : list (list Z * Z) :=
  match n with O => [] | S n => arrivals t ++ arrived n (next t) end.
End world.

(** ** Blocking receive *)

(** A listener with callback [c] points to a slot of its own port. *)
Definition ctx_for (c : udp_recv_cb) (ls : list udp_listener) (ports : list Z) : Prop :=
  forall k l, ls !! k = Some l -> l_cb l = Some c -> ports !! l_ctx l = Some (l_port l).
Definition ctx_ok := ctx_for BLOCKING_CB.
Definition pctx_ok := ctx_for POLL_CB.

Lemma bound_in_lookup ls k p c x :
  lst_ok ls -> ls !! k = Some (Listener p (Some c) x) -> bound_in ls p = Some (c, x).
Proof.
  intros Hok Hk. apply bound_in_Some; [done|]. split; [|by exists k]. intros ->. by pose proof (proj1 Hok k _ Hk).
Qed.

(** Binding a port to a free slot. *)
Lemma ctx_bind c ls ls' P port i :
  lst_ok ls -> lst_ok ls' -> (forall q, bound_in ls' q = if q =? port then Some (c, i) else bound_in ls q) ->
  ctx_for c ls P -> P !! i = Some 0 -> ctx_for c ls' (<[i := port]> P).
Proof.
  intros Hok Hok' Hb Hctx Hi k [q c' x] Hk Hc. cbn in Hc |- *. subst c'.
  pose proof (bound_in_lookup ls' k q c x Hok' Hk) as Hq. rewrite Hb in Hq. destruct (Z.eqb_spec q port) as [->|Hne].
  - injection Hq as <-. apply list_lookup_insert_eq. by eapply lookup_lt_Some.
  - apply bound_in_Some in Hq as (Hq0 & k' & Hk'); [|done]. pose proof (Hctx k' _ Hk' eq_refl) as Hx. cbn in Hx.
    rewrite list_lookup_insert_ne; [done|]. intros <-. congruence.
Qed.

Definition slot_ports (u : udp) : list Z := b_port <$> g_blocking u.

Record udp_inv (u : udp) : Prop := {
  ui_ok : lst_ok (g_listeners u);
  ui_len : length (g_listeners u) = UDP_MAX_LISTENERS;
  ui_ctx : ctx_ok (g_listeners u) (slot_ports u)
}.

Definition data_for (port : Z) (d : list Z * Z) : option (list Z) :=
  '(p, data) ← datagram d.1 d.2;
  if p =? port then Some data else None.

Fixpoint first_for (port : Z) (ds : list (list Z * Z)) : option (list Z) :=
  match ds with
  | [] => None
  | d :: ds => match data_for port d with Some data => Some data | None => first_for port ds end
  end.

Section slot.
Context (port : Z) (buf : list Z) (maxlen : Z) (i : nat).

(** The slot before and after the first datagram. *)
Definition slot_state (o : option (list Z)) : udp_blocking_slot :=
  match o with
  | None => Blocking port buf maxlen 0 false
  | Some data =>
      let n := if Z.of_nat (length data) <? maxlen then Z.of_nat (length data) else maxlen in
      Blocking port (write_at buf 0 (mem_take (Z.to_nat n) data)) maxlen n true
  end.

Record waiting (L : list udp_listener) (P : list Z) (o : option (list Z)) (u : udp) : Prop := {
  wt_listeners : g_listeners u = L;
  wt_ports : slot_ports u = P;
  wt_slot : g_blocking u !! i = Some (slot_state o)
}.

Definition or_first (o : option (list Z)) (ds : list (list Z * Z)) : option (list Z) :=
  match o with Some _ => o | None => first_for port ds end.

Context (L : list udp_listener) (P : list Z).
Hypotheses (HL : lst_ok L) (Hlen : length L = UDP_MAX_LISTENERS) (Hctx : ctx_ok L P)
  (Hb : bound_in L port = Some (BLOCKING_CB, i)).

Lemma insert_ports x b b' u :
  g_blocking u !! x = Some b -> b_port b' = b_port b -> slot_ports (set_blocking (<[x := b']> (g_blocking u)) u) = slot_ports u.
Proof.
  intros Hx Hp. unfold slot_ports. cbn. rewrite list_fmap_insert, Hp. apply list_insert_id. by rewrite list_lookup_fmap, Hx.
Qed.

Lemma blocking_cb_waiting o data u :
  waiting L P o u ->
  waiting L P (match o with Some _ => o | None => Some data end)
    (udp_blocking_cb data (Z.of_nat (length data)) i u).
Proof.
  intros [H1 H2 H3]. unfold udp_blocking_cb. rewrite H3. destruct o as [d|]; cbn [slot_state b_done]; [by split|].
  split; [done|rewrite <- H2; by eapply insert_ports|]. cbn. rewrite list_lookup_insert_eq; [done|by eapply lookup_lt_Some].
Qed.

Lemma deliver_other o p data u : p <> port -> waiting L P o u -> waiting L P o (deliver p data u).
Proof.
  intros Hp [H1 H2 H3]. unfold deliver, bound. rewrite H1.
  destruct (bound_in L p) as [[[|] x]|] eqn:E; [| |by split].
  - apply bound_in_Some in E as (_ & k & Hk); [|done]. pose proof (Hctx k _ Hk eq_refl) as Hx. cbn in Hx.
    cbn. unfold udp_blocking_cb. destruct (g_blocking u !! x) as [b|] eqn:Eb; [|by split].
    destruct (b_done b); [by split|]. split; [done|rewrite <- H2; by eapply insert_ports|].
    cbn. rewrite list_lookup_insert_ne; [done|]. intros ->. rewrite <- H2 in Hx. unfold slot_ports in Hx.
    rewrite list_lookup_fmap, H3 in Hx. apply Hp. by destruct o; injection Hx.
  - cbn. unfold udp_poll_cb. destruct (g_poll_slots u !! x) as [q|]; [destruct (p_used q)|]; by split.
Qed.

Lemma arrive_waiting o d u : waiting L P o u -> waiting L P (or_first o [d]) (arrive u d).
Proof.
  intros Hw. unfold arrive. rewrite receive_spec by (by rewrite (wt_listeners _ _ _ _ Hw)).
  unfold or_first. cbn. unfold data_for. destruct (datagram d.1 d.2) as [[p data]|]; [|by destruct o]. cbn.
  destruct (Z.eqb_spec p port) as [->|Hp].
  - unfold deliver, bound. rewrite (wt_listeners _ _ _ _ Hw), Hb. by apply blocking_cb_waiting.
  - replace (match o with Some _ => o | None => None end) with o by (by destruct o). by apply deliver_other.
Qed.

Lemma arrivals_waiting ds o u : waiting L P o u -> waiting L P (or_first o ds) (fold_left arrive ds u).
Proof.
  revert o u. induction ds as [|d ds IH]; intros o u Hw; [by destruct o|]. cbn.
  apply (arrive_waiting o d) in Hw. apply IH in Hw. revert Hw. unfold or_first. cbn.
  destruct o; [done|]. by destruct (data_for port d).
Qed.

(** *** The wait *)

Lemma first_for_app ds ds' :
  first_for port (ds ++ ds') = match first_for port ds with Some d => Some d | None => first_for port ds' end.
Proof. induction ds as [|d ds IH]; [done|]. cbn. rewrite IH. by destruct (data_for port d). Qed.

Context {Nic : Type} (next : tcp Nic -> tcp Nic) (arrivals : tcp Nic -> list (list Z * Z))
  (left : tcp Nic -> nat) (rate : nat).
Hypothesis Hworld : world next left rate.

Lemma recv_wait_spec fuel deadline o s :
  waiting L P o (st_udp s) -> (rounds left rate deadline (st_tcp s) < fuel)%nat ->
  exists n s', let o' := or_first o (arrived next arrivals n (st_tcp s)) in
    recv_wait fuel (step next arrivals) deadline i s = Some (bool_decide (is_Some o'), s') /\
    st_tcp s' = later next n (st_tcp s) /\ waiting L P o' (st_udp s') /\ (o' = None -> deadline <= st_ticks s').
Proof.
  revert o s. induction fuel as [|fuel IH]; intros o s Hw Hf; [lia|]. cbn [recv_wait].
  rewrite (wt_slot _ _ _ _ Hw). cbn [default]. destruct o as [d|].
  - exists 0%nat, s. by rewrite bool_decide_true by (by eexists).
  - cbn [slot_state b_done]. destruct (Z.leb_spec deadline (st_ticks s)) as [Hd|Hd].
    { exists 0%nat, s. by rewrite bool_decide_false by apply is_Some_None. }
    pose proof (rounds_step _ _ _ deadline _ Hworld Hd) as Ht.
    apply (arrivals_waiting (arrivals (st_tcp s))) in Hw.
    destruct (IH _ (step next arrivals s) Hw ltac:(cbn; lia)) as (n & s' & Hr & Hn & Hw' & Hdl).
    exists (S n), s'. cbv zeta.
    assert (or_first None (arrived next arrivals (S n) (st_tcp s)) =
            or_first (or_first None (arrivals (st_tcp s))) (arrived next arrivals n (next (st_tcp s)))) as ->.
    { cbn. rewrite first_for_app. by destruct (first_for port (arrivals (st_tcp s))). }
    done.
Qed.
End slot.

Section blocking.
Context {Nic : Type} (next : tcp Nic -> tcp Nic) (arrivals : tcp Nic -> list (list Z * Z))
  (left : tcp Nic -> nat) (rate : nat).
Implicit Types (s : stack Nic).

Definition can_listen (port : Z) (u : udp) : Prop :=
  is_Some (bound u port) \/ exists k l, g_listeners u !! k = Some l /\ l_port l = 0.

(** The slot is taken and the port bound to it. *)
Lemma block_start port buf maxlen i u :
  udp_inv u -> 0 < port -> can_listen port u -> find_idx (fun b => b_port b =? 0) (g_blocking u) = Some i ->
  exists u1, udp_listen port (Some BLOCKING_CB) i (set_slot i (Blocking port buf maxlen 0 false) u) = (0, u1) /\
    waiting port buf maxlen i (g_listeners u1) (<[i := port]> (slot_ports u)) None u1 /\
    udp_inv u1 /\ (forall q, bound u1 q = if q =? port then Some (BLOCKING_CB, i) else bound u q).
Proof.
  intros [Hok Hl Hctx] Hp Hcan Hi. apply find_idx_Some in Hi as (b & Hb & Hz%Z.eqb_eq & _).
  pose proof (lookup_lt_Some _ _ _ Hb) as Hlt. set (u0 := set_slot _ _ u).
  pose proof (listen_spec port BLOCKING_CB i u0 Hok ltac:(lia)) as Hs.
  destruct (udp_listen port (Some BLOCKING_CB) i u0) as [r u1].
  destruct Hs as [(-> & (ls & -> & Hls) & Hok1 & Hb1)|(_ & _ & Hn & Hfull)].
  2: { destruct Hcan as [[? Hs]|(k & l & Hk & Hl0)]; [change (bound u port = None) in Hn; congruence|by destruct (Hfull k l Hk)]. }
  eexists. split; [done|].
  assert (slot_ports u0 = <[i := port]> (slot_ports u)) as Hpts by apply list_fmap_insert.
  split; [split; [done|done|by apply list_lookup_insert_eq]|]. split; [|exact Hb1].
  split; [done|by etransitivity|]. change (slot_ports (set_listeners ls u0)) with (slot_ports u0). rewrite Hpts.
  apply (ctx_bind BLOCKING_CB (g_listeners u)); [done|done|exact Hb1|done|].
  unfold slot_ports. by rewrite list_lookup_fmap, Hb, <- Hz.
Qed.

Lemma block_end port i u P :
  udp_inv u -> 0 < port -> slot_ports u = <[i := port]> P -> P !! i = Some 0 ->
  let u' := free_slot i (udp_listen port None 0 u).2 in
  udp_inv u' /\ (forall q, bound u' q = if q =? port then None else bound u q) /\ slot_ports u' = P.
Proof.
  intros [Hok Hl Hctx] Hp HP Hi u'. pose proof (unlisten_spec port u Hok ltac:(lia)) as Hs. unfold u'.
  destruct (udp_listen port None 0 u) as [r u1]. destruct Hs as (_ & (ls & -> & Hls) & Hok1 & Hb1).
  assert (slot_ports (free_slot i (set_listeners ls u)) = P) as HP'.
  { unfold slot_ports, free_slot. cbn. rewrite list_fmap_insert. cbn. unfold slot_ports in HP. rewrite HP, list_insert_insert_eq.
    by apply list_insert_id. }
  split; [|by split]. split; [done|by etransitivity|]. cbn [snd]. rewrite HP'.
  intros k [q c x] Hk Hc. cbn in Hc |- *. subst c.
  pose proof (bound_in_lookup ls k q _ x Hok1 Hk : bound (set_listeners ls u) q = _) as Hq. rewrite Hb1 in Hq. destruct (Z.eqb_spec q port) as [->|Hne]; [done|].
  apply bound_in_Some in Hq as (_ & k' & Hk'); [|done]. pose proof (Hctx k' _ Hk' eq_refl) as Hx. cbn in Hx.
  rewrite HP in Hx. destruct (decide (x = i)) as [->|]; [|by rewrite list_lookup_insert_ne in Hx].
  rewrite list_lookup_insert_eq in Hx by (by eapply lookup_lt_Some). congruence.
Qed.

Lemma recv_deadline_spec timeout_ms s :
  0 <= timeout_ms -> timeout_ms * TIMER_FREQ < 2 ^ 32 -> 0 <= st_ticks s ->
  st_ticks s + timeout_ms * TIMER_FREQ / 1000 < 2 ^ 32 ->
  recv_deadline timeout_ms s = st_ticks s + timeout_ms * TIMER_FREQ / 1000.
Proof.
  intros H1 H2 H3 H4. unfold recv_deadline. rewrite (u32_small (timeout_ms * TIMER_FREQ)) by (unfold TIMER_FREQ in *; lia).
  apply u32_small. split; [|done]. apply Z.add_nonneg_nonneg; [done|]. apply Z.div_pos; unfold TIMER_FREQ in *; lia.
Qed.

(** C-UDPBLOCK: a blocking receive returns, at the deadline at the latest.  It returns the start of the first datagram for
    its port that arrives while it waits, cut to the size of the buffer, and
    leaves the rest of the buffer alone; or -1 with the buffer untouched, and
    then the deadline has passed and no such datagram came.  Afterwards the port
    is unbound, all other ports are bound as before, and the slot is free again. *)
Theorem udp_recv_blocking_correct fuel port buf maxlen timeout_ms i s :
  world next left rate -> udp_inv (st_udp s) -> 0 < port -> can_listen port (st_udp s) ->
  find_idx (fun b => b_port b =? 0) (g_blocking (st_udp s)) = Some i ->
  Z.of_nat (length buf) = maxlen -> 0 <= timeout_ms -> timeout_ms * TIMER_FREQ < 2 ^ 32 -> 0 <= st_ticks s ->
  st_ticks s + timeout_ms * TIMER_FREQ / 1000 < 2 ^ 32 ->
  (Z.to_nat (timeout_ms * TIMER_FREQ / 1000) * S rate + rate < fuel)%nat ->
  exists r buf' s' n,
    udp_recv_blocking fuel (step next arrivals) port buf maxlen timeout_ms s = Some (r, buf', s') /\
    st_tcp s' = later next n (st_tcp s) /\
    match first_for port (arrived next arrivals n (st_tcp s)) with
    | Some data => r = Z.min (Z.of_nat (length data)) maxlen /\
                   buf' = take (Z.to_nat r) data ++ drop (Z.to_nat r) buf
    | None => r = -1 /\ buf' = buf /\ st_ticks s + timeout_ms * TIMER_FREQ / 1000 <= st_ticks s'
    end /\
    udp_inv (st_udp s') /\ (forall q, bound (st_udp s') q = if q =? port then None else bound (st_udp s) q) /\
    slot_ports (st_udp s') = slot_ports (st_udp s).
Proof.
  intros Hworld Hinv Hp Hcan Hi Hm Ht1 Ht2 Ht3 Ht4 Hf. unfold udp_recv_blocking. rewrite Hi.
  destruct (block_start port buf maxlen i (st_udp s) Hinv Hp Hcan Hi) as (u1 & -> & Hw & Hinv1 & Hb1). cbn [Z.ltb Z.compare].
  rewrite recv_deadline_spec by done. set (s1 := put_udp u1 s).
  destruct Hinv1 as [Hok1 Hl1 Hc1]. pose proof Hc1 as Hc1'. rewrite (wt_ports _ _ _ _ _ _ _ _ Hw) in Hc1'.
  destruct (recv_wait_spec port buf maxlen i _ _ Hok1 Hl1 Hc1'
              ltac:(fold (bound u1 port); by rewrite Hb1, Z.eqb_refl) next arrivals left rate Hworld fuel
              (st_ticks s + timeout_ms * TIMER_FREQ / 1000) None s1 Hw) as (n & s' & -> & Hs' & [Hw1 Hw2 Hw3] & Hdl).
  { eapply Nat.le_lt_trans; [|exact Hf]. apply (rounds_bound next); [done|]. change (t_ticks (st_tcp s1)) with (st_ticks s). lia. }
  cbn [mbind option_bind]. cbn [or_first] in *. change (st_tcp s1) with (st_tcp s) in *.
  set (o := first_for port (arrived next arrivals n (st_tcp s))) in *.
  assert (slot_ports (st_udp s) !! i = Some 0) as Hz.
  { apply find_idx_Some in Hi as (b & Hb & Hbz%Z.eqb_eq & _). unfold slot_ports. by rewrite list_lookup_fmap, Hb, <- Hbz. }
  assert (udp_inv (st_udp s')) as Hinv' by (split; rewrite ?Hw1, ?Hw2; done).
  destruct (block_end port i (st_udp s') _ Hinv' Hp Hw2 Hz) as (He1 & He2 & He3).
  assert (g_blocking (udp_listen port None 0 (st_udp s')).2 !! i = Some (slot_state port buf maxlen o)) as Hslot.
  { rewrite <- Hw3. pose proof (unlisten_spec port (st_udp s') (ui_ok _ Hinv') ltac:(lia)) as Hs.
    destruct (udp_listen port None 0 (st_udp s')) as [r u2]. by destruct Hs as (_ & (ls & -> & _) & _). }
  rewrite Hslot. cbn [default]. eexists _, _, _, n. split; [done|]. split; [done|].
  split.
  - fold o. destruct o as [data|] eqn:Eo.
    + rewrite bool_decide_true by (by eexists). cbn. assert (0 <= maxlen) by lia.
      replace (if _ <? _ then _ else _) with (Z.min (Z.of_nat (length data)) maxlen) by (case_match; lia).
      split; [done|]. unfold write_at. rewrite length_mem_take. unfold mem_take. rewrite take_0.
      replace (_ - length data)%nat with 0%nat by lia. cbn. by rewrite app_nil_r.
    + rewrite bool_decide_false by apply is_Some_None. split; [done|]. split; [done|]. by apply Hdl.
  - split; [done|]. split; [|done]. intros q. cbn [st_udp put_udp]. rewrite He2. unfold bound at 1. rewrite Hw1. fold (bound u1 q). rewrite Hb1.
    by destruct (q =? port).
Qed.
End blocking.

(** ** Polling

    A polled port holds one datagram until the next poll; the ones that arrive
    meanwhile are dropped.  [dns.c] and [dhcp.c] wait in loops of this form:
    poll, test the message, go on until the deadline. *)

Section poll.
Context {Nic A : Type} (irq : stack Nic -> stack Nic) (port bufsz : Z) (accept : Z -> list Z -> option A).

Fixpoint poll_loop (fuel : nat) (deadline : Z) (s : stack Nic) : option (option A * stack Nic) :=
  match fuel with
  | O => None
  | S fuel =>
      if st_ticks s <? deadline then
        let '(n, msg, u) := udp_recv_poll port bufsz (st_udp s) in
        match accept n msg with
        | Some a => Some (Some a, put_udp u s)
        | None => poll_loop fuel deadline (irq (put_udp u s))
        end
      else Some (None, s)
  end.
End poll.

Definition poll_ports (u : udp) : list Z := p_port <$> g_poll_slots u.

(** What the slot keeps of a datagram. *)
Definition cut (d : list Z) : list Z := take (Z.to_nat UDP_POLL_BUF_SZ) d.

Definition holds (o : option (list Z)) (q : udp_poll_slot) : Prop :=
  length (p_data q) = Z.to_nat UDP_POLL_BUF_SZ /\
  match o with
  | None => p_used q = false
  | Some d => p_used q = true /\ p_len q = Z.of_nat (length d) /\ exists r, p_data q = d ++ r
  end.

Lemma find_idx_fmap {A B} (g : A -> B) (f : B -> bool) l : find_idx f (g <$> l) = find_idx (fun x => f (g x)) l.
Proof. induction l as [|x l IH]; [done|]. cbn. by rewrite IH. Qed.

Section polled.
Context (port : Z) (i : nat) (L : list udp_listener) (P : list Z).

Record polled (o : option (list Z)) (u : udp) : Prop := {
  pl_listeners : g_listeners u = L;
  pl_init : g_poll_init u = true;
  pl_ports : poll_ports u = P;
  pl_slot : exists q, g_poll_slots u !! i = Some q /\ holds o q
}.

Hypotheses (HL : lst_ok L) (Hlen : length L = UDP_MAX_LISTENERS) (Hctx : pctx_ok L P)
  (Hb : bound_in L port = Some (POLL_CB, i)) (Hi : find_idx (fun p => p =? port) P = Some i).

Lemma insert_poll_ports x q q' u :
  g_poll_slots u !! x = Some q -> p_port q' = p_port q -> poll_ports (set_poll (<[x := q']> (g_poll_slots u)) u) = poll_ports u.
Proof.
  intros Hx Hp. unfold poll_ports. cbn. rewrite list_fmap_insert, Hp. apply list_insert_id. by rewrite list_lookup_fmap, Hx.
Qed.

Lemma poll_cb_polled o data u :
  polled o u -> polled (match o with Some _ => o | None => Some (cut data) end)
                  (udp_poll_cb data (Z.of_nat (length data)) i u).
Proof.
  intros [H1 H2 H3 (q & Hq & Hl & Ho)]. unfold udp_poll_cb. rewrite Hq. destruct o as [d|].
  - rewrite (proj1 Ho). split; [done|done|done|by exists q].
  - rewrite Ho. split; [done|done|rewrite <- H3; by eapply insert_poll_ports|].
    eexists. cbn. split; [by apply list_lookup_insert_eq, (lookup_lt_Some _ _ _ Hq)|].
    set (n := if _ <? _ then _ else _).
    assert (mem_take (Z.to_nat n) data = cut data) as E.
    { unfold mem_take, cut, n. case_match.
      - rewrite !take_ge by lia. replace (_ - _)%nat with 0%nat by lia. apply app_nil_r.
      - replace (_ - _)%nat with 0%nat by lia. apply app_nil_r. }
    rewrite E. assert (length (cut data) = Z.to_nat n) as En by (unfold cut, n; rewrite length_take; case_match; lia).
    assert (0 <= n <= UDP_POLL_BUF_SZ) as Hn by (unfold n; case_match; unfold UDP_POLL_BUF_SZ in *; lia).
    split; cbn.
    + unfold write_at. rewrite !length_app, length_take, length_drop. lia.
    + split; [done|]. split; [lia|]. unfold write_at. rewrite take_0. cbn. by eexists.
Qed.

Lemma deliver_other_polled o p data u : p <> port -> polled o u -> polled o (deliver p data u).
Proof.
  intros Hp [H1 H2 H3 (q & Hq & Ho)]. unfold deliver, bound. rewrite H1.
  destruct (bound_in L p) as [[[|] x]|] eqn:E; [| |by split; [..|exists q]].
  - cbn. unfold udp_blocking_cb. destruct (g_blocking u !! x) as [b|]; [destruct (b_done b)|]; by split; [..|exists q].
  - apply bound_in_Some in E as (_ & k & Hk); [|done]. pose proof (Hctx k _ Hk eq_refl) as Hx. cbn in Hx.
    cbn. unfold udp_poll_cb. destruct (g_poll_slots u !! x) as [b|] eqn:Eb; [|by split; [..|exists q]].
    destruct (p_used b); [by split; [..|exists q]|].
    split; [done|done|rewrite <- H3; by eapply insert_poll_ports|]. exists q. split; [|done].
    cbn. rewrite list_lookup_insert_ne; [done|]. intros ->. apply Hp.
    apply find_idx_Some in Hi as (y & Hy & Hyp%Z.eqb_eq & _). congruence.
Qed.

Definition next_msg (o : option (list Z)) (ds : list (list Z * Z)) : option (list Z) :=
  match o with Some _ => o | None => cut <$> first_for port ds end.

Lemma arrivals_polled ds o u : polled o u -> polled (next_msg o ds) (fold_left arrive ds u).
Proof.
  revert o u. induction ds as [|d ds IH]; intros o u Hw; [by destruct o|]. cbn [fold_left].
  assert (polled (next_msg o [d]) (arrive u d)) as Hd.
  { unfold arrive. rewrite receive_spec by (by rewrite (pl_listeners _ _ Hw)). unfold next_msg. cbn. unfold data_for.
    destruct (datagram d.1 d.2) as [[p data]|]; [|by destruct o]. cbn. destruct (Z.eqb_spec p port) as [->|Hp].
    - unfold deliver, bound. rewrite (pl_listeners _ _ Hw), Hb. by apply poll_cb_polled.
    - replace (match o with Some _ => o | None => _ end) with o by (by destruct o). by apply deliver_other_polled. }
  apply IH in Hd. revert Hd. unfold next_msg. cbn. destruct o; [done|]. by destruct (data_for port d).
Qed.

(** A poll takes what the slot holds. *)
Lemma poll_spec bufsz o u :
  0 <= bufsz -> polled o u ->
  exists u', udp_recv_poll port bufsz u =
    (match o with
     | None => (-1, [])
     | Some d => let m := take (Z.to_nat bufsz) d in (Z.of_nat (length m), m)
     end, u') /\ polled None u'.
Proof.
  intros Hbz [H1 H2 H3 (q & Hq & Hl & Ho)]. unfold udp_recv_poll. rewrite H2. unfold poll_slot.
  replace (find_idx (fun p => p_port p =? port) (g_poll_slots u)) with (Some i)
    by (rewrite <- Hi, <- H3; unfold poll_ports; by rewrite (find_idx_fmap p_port (fun p => p =? port))).
  rewrite Hq. destruct o as [d|].
  - destruct Ho as (Hu & Hld & r & Hr). rewrite Hu. cbn [negb]. rewrite Hld, Hr. eexists. split.
    + f_equal. f_equal.
      * rewrite length_take. case_match; lia.
      * rewrite take_app_le by (case_match; lia). case_match; [|done]. by rewrite !take_ge by lia.
    + split; [done|done|rewrite <- H3; by eapply insert_poll_ports|]. eexists.
      split; [by apply list_lookup_insert_eq, (lookup_lt_Some _ _ _ Hq)|]. split; [by rewrite <- Hr|done].
  - rewrite Ho. cbn [negb]. exists u. split; [done|]. by split; [..|exists q].
Qed.

(** *** The loop *)

Context {Nic A : Type} (next : tcp Nic -> tcp Nic) (arrivals : tcp Nic -> list (list Z * Z))
  (left : tcp Nic -> nat) (rate : nat) (bufsz : Z) (accept : Z -> list Z -> option A).
Hypotheses (Hworld : world next left rate) (Hbz : 0 <= bufsz) (Hacc : accept (-1) [] = None).

(** The messages that [n] polls see, the first of them being [o]. *)
Fixpoint messages (n : nat) (o : option (list Z)) (t : tcp Nic) : list (list Z) :=
  match n with
  | O => []
  | S n => match o with Some d => [take (Z.to_nat bufsz) d] | None => [] end ++
           messages n (next_msg None (arrivals t)) (next t)
  end.

Definition accepted (ms : list (list Z)) : option A :=
  head (omap (fun m => accept (Z.of_nat (length m)) m) ms).

Lemma poll_loop_spec fuel deadline o s :
  polled o (st_udp s) -> (rounds left rate deadline (st_tcp s) < fuel)%nat ->
  exists n s', poll_loop (step next arrivals) port bufsz accept fuel deadline s =
      Some (accepted (messages n o (st_tcp s)), s') /\
    (exists m, st_tcp s' = later next m (st_tcp s)) /\ (exists o', polled o' (st_udp s')) /\
    (accepted (messages n o (st_tcp s)) = None -> deadline <= st_ticks s' /\ st_tcp s' = later next n (st_tcp s)).
Proof.
  revert o s. induction fuel as [|fuel IH]; intros o s Hp Hf; [lia|]. cbn [poll_loop].
  destruct (Z.ltb_spec (st_ticks s) deadline) as [Hd|Hd].
  2: { exists 0%nat, s. split; [done|]. split; [by exists 0%nat|]. split; [by exists o|]. done. }
  destruct (poll_spec bufsz o (st_udp s) Hbz Hp) as (u' & -> & Hp').
  assert (forall r : option A * stack Nic,
    match (match o with None => (-1, []) | Some d => let m := take (Z.to_nat bufsz) d in (Z.of_nat (length m), m) end) with
    | (n, m) => accept n m end = (m ← (take (Z.to_nat bufsz) <$> o); accept (Z.of_nat (length m)) m)) as Ha.
  { intros _. by destruct o. }
  set (nm := match o with None => _ | Some d => _ end) in *. destruct nm as [n0 m0]. rewrite (Ha (None, s)). clear Ha.
  destruct (m ← (take (Z.to_nat bufsz) <$> o); accept (Z.of_nat (length m)) m) as [a|] eqn:Ea.
  - exists 1%nat, (put_udp u' s).
    assert (accepted (messages 1 o (st_tcp s)) = Some a) as ->.
    { destruct o as [d|]; [|done]. cbn in Ea. unfold accepted. cbn. by rewrite Ea. }
    split; [done|]. split; [by exists 0%nat|]. split; [by exists None|done].
  - pose proof (rounds_step _ _ _ deadline _ Hworld Hd) as Ht.
    apply (arrivals_polled (arrivals (st_tcp s))) in Hp'.
    destruct (IH _ (step next arrivals (put_udp u' s)) Hp' ltac:(cbn; lia)) as (n & s' & Hr & (k & Hk) & Hpo & Hno).
    exists (S n), s'.
    assert (accepted (messages (S n) o (st_tcp s)) = accepted (messages n (next_msg None (arrivals (st_tcp s))) (next (st_tcp s)))) as ->.
    { unfold accepted. destruct o as [d|]; [|done]. cbn in Ea. cbn. by rewrite Ea. }
    split; [exact Hr|]. split; [by exists (S k)|]. split; [done|]. exact Hno.
Qed.
End polled.

(** *** The first poll of a port registers it *)

Definition poll_ready (u : udp) : udp :=
  if g_poll_init u then u else Udp (g_listeners u) (g_blocking u) (replicate UDP_POLL_SLOTS poll_zero) true.

Record poll_inv (u : udp) : Prop := {
  pi_ok : lst_ok (g_listeners u);
  pi_len : length (g_listeners u) = UDP_MAX_LISTENERS;
  pi_ctx : pctx_ok (g_listeners u) (poll_ports (poll_ready u));
  pi_slots i q : g_poll_slots (poll_ready u) !! i = Some q -> exists o, holds o q
}.

Lemma recv_poll_ready port bufsz u : udp_recv_poll port bufsz (poll_ready u) = udp_recv_poll port bufsz u.
Proof. unfold udp_recv_poll, poll_ready. by destruct (g_poll_init u) eqn:E; rewrite ?E. Qed.

(** The port is registered for polling, and its slot holds [o]. *)
Definition polling (port : Z) (o : option (list Z)) (u : udp) : Prop :=
  exists i L P, polled i L P o u /\ lst_ok L /\ length L = UDP_MAX_LISTENERS /\ pctx_ok L P /\
    bound_in L port = Some (POLL_CB, i) /\ find_idx (fun p => p =? port) P = Some i.

(** It is, or the next poll can register it. *)
Definition pollable (port : Z) (o : option (list Z)) (u : udp) : Prop :=
  polling port o u \/
  (o = None /\ poll_inv u /\ port ∉ poll_ports (poll_ready u) /\ 0 ∈ poll_ports (poll_ready u) /\ can_listen port u).

Lemma poll_register port bufsz u :
  poll_inv u -> g_poll_init u = true -> 0 < port ->
  port ∉ poll_ports u -> 0 ∈ poll_ports u -> can_listen port u ->
  exists u', udp_recv_poll port bufsz u = (-1, [], u') /\ polling port None u'.
Proof.
  intros [Hok Hl Hctx Hsl] Hin Hp Hno Hz Hcan. unfold poll_ready in Hctx, Hsl. rewrite Hin in Hctx, Hsl.
  unfold udp_recv_poll. rewrite Hin. unfold poll_slot.
  assert (find_idx (fun p => p_port p =? port) (g_poll_slots u) = None) as ->.
  { apply find_idx_None. intros k q Hk. apply Z.eqb_neq. intros <-. apply Hno. unfold poll_ports.
    apply list_elem_of_fmap. exists q. split; [done|]. by eapply list_elem_of_lookup_2. }
  destruct (find_slot (fun p => p_port p =? 0) (g_poll_slots u)) as [[i q]|] eqn:E.
  2: { apply list_elem_of_fmap in Hz as (q & Hq0 & Hq). apply list_elem_of_lookup_1 in Hq as [k Hk].
       rewrite find_slot_None in E. specialize (E k q Hk). rewrite <- Hq0 in E. done. }
  apply find_slot_Some in E as [Hq Hq0%Z.eqb_eq]. pose proof (lookup_lt_Some _ _ _ Hq) as Hlt.
  set (u0 := set_poll _ u). pose proof (listen_spec port POLL_CB i u0 Hok ltac:(lia)) as Hs.
  destruct (udp_listen port (Some POLL_CB) i u0) as [r u1].
  destruct Hs as [(_ & (ls & -> & Hls) & Hok1 & Hb1)|(_ & _ & Hn & Hfull)].
  2: { destruct Hcan as [[? Hs]|(k & l & Hk & Hl0)]; [change (bound u port = None) in Hn; congruence|by destruct (Hfull k l Hk)]. }
  cbn [snd]. change (g_poll_slots (set_listeners ls u0)) with (<[i := Poll port false (p_len q) (p_data q)]> (g_poll_slots u)).
  rewrite list_lookup_insert_eq by done. cbn [p_used negb].
  eexists. split; [done|]. exists i, ls, (<[i := port]> (poll_ports u)).
  assert (poll_ports u !! i = Some 0) as Hi0 by (unfold poll_ports; by rewrite list_lookup_fmap, Hq, <- Hq0).
  assert (i < length (poll_ports u))%nat as Hlt' by (by eapply lookup_lt_Some).
  split.
  { split; [done|done|apply list_fmap_insert|]. eexists. split; [by apply list_lookup_insert_eq|].
    destruct (Hsl i q Hq) as (o & Hld & _). done. }
  split; [done|]. split; [by etransitivity|].
  split; [by apply (ctx_bind POLL_CB (g_listeners u))|]. split; [pose proof (Hb1 port) as E; by rewrite Z.eqb_refl in E|].
  destruct (find_idx_is_Some (fun p => p =? port) (<[i := port]> (poll_ports u)) i port) as [k Hk];
    [by apply list_lookup_insert_eq|lia|]. rewrite Hk. f_equal.
  apply find_idx_Some in Hk as (y & Hy & Hyp%Z.eqb_eq & _). destruct (decide (k = i)); [done|].
  rewrite list_lookup_insert_ne in Hy by done. destruct Hno. subst y. by eapply list_elem_of_lookup_2.
Qed.

Section wait.
Context {Nic A : Type} (next : tcp Nic -> tcp Nic) (arrivals : tcp Nic -> list (list Z * Z))
  (left : tcp Nic -> nat) (rate : nat) (port bufsz : Z) (accept : Z -> list Z -> option A).
Hypotheses (Hworld : world next left rate) (Hbz : 0 <= bufsz) (Hacc : accept (-1) [] = None) (Hport : 0 < port).

(** A waiting loop returns the first acceptable message of the ones its polls
    see; when there is none it goes on to the deadline. *)
Lemma poll_wait_spec fuel deadline o s :
  pollable port o (st_udp s) -> (rounds left rate deadline (st_tcp s) < fuel)%nat ->
  exists n s', let ms := messages port next arrivals bufsz n o (st_tcp s) in
    poll_loop (step next arrivals) port bufsz accept fuel deadline s = Some (accepted accept ms, s') /\
    (exists m, st_tcp s' = later next m (st_tcp s)) /\ (exists o', pollable port o' (st_udp s')) /\
    (accepted accept ms = None -> deadline <= st_ticks s' /\ st_tcp s' = later next n (st_tcp s)).
Proof.
  intros [(i & L & P & Hp & H1 & H2 & H3 & H4 & H5)|(-> & Hinv & Hno & Hz & Hcan)] Hf.
  - destruct (poll_loop_spec port i L P H1 H2 H3 H4 H5 next arrivals left rate bufsz accept Hworld Hbz Hacc fuel deadline o s Hp Hf)
      as (n & s' & Hr & Hm & (o' & Ho') & Hn).
    exists n, s'. split; [done|]. split; [done|]. split; [|done]. exists o'. left. by exists i, L, P.
  - destruct fuel as [|fuel]; [lia|]. cbn [poll_loop]. destruct (Z.ltb_spec (st_ticks s) deadline) as [Hd|Hd].
    2: { exists 0%nat, s. split; [done|]. split; [by exists 0%nat|]. split; [|done]. exists None. by right. }
    rewrite <- recv_poll_ready.
    assert (g_poll_init (poll_ready (st_udp s)) = true /\ g_listeners (poll_ready (st_udp s)) = g_listeners (st_udp s) /\
            poll_ready (poll_ready (st_udp s)) = poll_ready (st_udp s)) as (E1 & E2 & E3).
    { unfold poll_ready. by destruct (g_poll_init (st_udp s)) eqn:E; rewrite ?E. }
    destruct (poll_register port bufsz (poll_ready (st_udp s))) as (u' & -> & i & L & P & Hp & H1 & H2 & H3 & H4 & H5);
      [split; rewrite ?E2, ?E3; apply Hinv|done|done|done|done|unfold can_listen, bound; by rewrite E2|]. rewrite Hacc.
    pose proof (rounds_step _ _ _ deadline _ Hworld Hd) as Ht.
    apply (arrivals_polled port i L P H1 H2 H3 H4 H5 (arrivals (st_tcp s))) in Hp.
    destruct (poll_loop_spec port i L P H1 H2 H3 H4 H5 next arrivals left rate bufsz accept Hworld Hbz Hacc fuel deadline _
                (step next arrivals (put_udp u' s)) Hp ltac:(cbn; lia)) as (n & s' & Hr & (k & Hk) & (o' & Ho') & Hn).
    exists (S n), s'. split; [exact Hr|]. split; [by exists (S k)|]. split; [|exact Hn]. exists o'. left. by exists i, L, P.
Qed.
End wait.

(** ** Examples *)

Definition demo_udp : udp :=
  Udp (replicate UDP_MAX_LISTENERS listener_zero) (replicate UDP_BLOCKING_MAX blocking_zero) [] false.
Definition demo_stack (n : Z) (known : list arp_entry) : stack (list (list Z)) :=
  Stack (Tcp [] 49152 (demo_host n known) 0 []) demo_udp.

Lemma demo_lst_ok : lst_ok (replicate UDP_MAX_LISTENERS listener_zero).
Proof. split; [by intros i l [-> _]%lookup_replicate|by intros i j l l' [-> _]%lookup_replicate]. Qed.

Lemma demo_udp_inv : udp_inv demo_udp.
Proof. split; [apply demo_lst_ok|done|]. by intros k l [-> _]%lookup_replicate. Qed.

Lemma demo_pollable port : 0 < port -> pollable port None demo_udp.
Proof.
  intros Hp. right. split; [done|]. split.
  - split; [apply demo_lst_ok|done|by intros k l [-> _]%lookup_replicate|].
    intros i q [-> _]%lookup_replicate. by exists None.
  - split; [|split; [by left|right; by exists 0%nat, listener_zero]].
    change (poll_ports (poll_ready demo_udp)) with (replicate 8 0). intros [-> _]%elem_of_replicate. lia.
Qed.

Definition demo_next (t : tcp (list (list Z))) : tcp (list (list Z)) := set_ticks (t_ticks t + 1) t.
Lemma demo_world : world demo_next (fun _ => 0%nat) 0.
Proof. split; [done|]. intros t. left. cbn. lia. Qed.

(** Two hosts; the second polls port 9. *)
Definition demo_poller : stack (list (list Z)) :=
  put_udp (udp_recv_poll 9 64 (poll_ready demo_udp)).2 (demo_stack 2 []).

Lemma demo_poller_ok : lst_ok (g_listeners (st_udp demo_poller)).
Proof.
  destruct (demo_pollable 9) as [(i & L & P & Hp & _)|(_ & Hi & Hn & Hz & Hc)]; [done|by destruct Hp|].
  destruct (poll_register 9 64 (poll_ready demo_udp)) as (u' & E & i & L & P & Hp & Hok & _); [|done..|].
  { destruct Hi as [? ? ? ?]. by split. }
  unfold demo_poller. rewrite E. cbn. by rewrite (pl_listeners _ _ _ _ _ Hp).
Qed.

Lemma udp_delivered_witness :
  exists frame s', stack_receive (frame ++ [0xFF]) (Z.of_nat (length frame)) demo_poller = Some s' /\
    (udp_recv_poll 9 64 (st_udp s')).1 = (3, [65; 66; 67]).
Proof.
  destruct (udp_delivered (10 + 2 * 2 ^ 24) 7 9 [65; 66; 67] [2; 0; 0; 0; 0; 2] [0xFF] (demo_host 1 [demo_entry 2])
              demo_poller) as (frame & r & d & _ & _ & Hr);
    [by apply demo_host_ok|by apply demo_can_send; [lia|]|done|done|done|by apply demo_resolved|apply demo_poller_ok|
     done|by left|].
  eexists frame, _. split; [exact Hr|]. by vm_compute.
Defined.

(** A datagram for port 9 arrives at tick 2. *)
Definition demo_arrivals (t : tcp (list (list Z))) : list (list Z * Z) :=
  if t_ticks t =? 2 then [(udp_packet 7 9 [65; 66; 67], 11)] else [].

Lemma udp_recv_blocking_correct_witness :
  exists r buf' s', udp_recv_blocking 60 (step demo_next demo_arrivals) 9 [1; 2; 3; 4; 5] 5 500 (demo_stack 1 [])
    = Some (r, buf', s') /\ bound (st_udp s') 9 = None.
Proof.
  destruct (udp_recv_blocking_correct demo_next demo_arrivals (fun _ => 0%nat) 0 60 9 [1; 2; 3; 4; 5] 5 500 0
              (demo_stack 1 [])) as (r & buf' & s' & n & Hr & _ & _ & _ & Hb & _);
    [apply demo_world|apply demo_udp_inv|done|right; by exists 0%nat, listener_zero|done|done|done|done|done|done|
     vm_compute; lia|].
  exists r, buf', s'. split; [exact Hr|]. by rewrite Hb.
Defined.

Example blocking_receives :
  (fun x => x.1) <$> udp_recv_blocking 60 (step demo_next demo_arrivals) 9 [1; 2; 3; 4; 5] 5 500 (demo_stack 1 [])
  = Some (3, [65; 66; 67; 4; 5]).
Proof. by vm_compute. Qed.

(** Blocking on a port that another client polls takes the port away from it for
    good: the poll slot stays, but nothing is delivered to it any more. *)
Example blocking_unbinds_poller :
  let s := demo_stack 1 [] in
  let s := put_udp (udp_recv_poll 68 512 (st_udp s)).2 s in
  bound (st_udp s) 68 = Some (POLL_CB, 0%nat) /\
  (fun x => bound (st_udp x.2) 68) <$> udp_recv_blocking 60 (step demo_next demo_arrivals) 68 [] 0 500 s = Some None.
Proof. by vm_compute. Qed.
