(* ===== verification/Dns.v ===== *)
(** * The DNS client ([net/dns.c])

    Names as labels, queries, answers, the cache and [dns_resolve], over UDP.
    Strings are lists of characters without the final zero byte. *)

From S2P Require Import Prelude Net Tcp Udp.

Definition DNS_PORT : Z := 53.
Definition DNS_CLIENT_PORT : Z := 5353.
Definition DNS_CACHE_SIZE : nat := 32.
Definition DNS_HDR_SIZE : Z := 12.
Definition DNS_BUF : Z := 512.
Definition DOT : Z := 46.

Record dns_cache_entry := DnsEntry { c_name : list Z; c_addr : Z; c_valid : bool }.

Record dns := Dns { g_cache : list dns_cache_entry; g_dns_server : Z; g_query_id : Z }.

Definition dns_zero : dns := Dns (replicate DNS_CACHE_SIZE (DnsEntry [] 0 false)) 0 0x1234.

(** ** Queries *)

(** The inner loop of [encode_name]: the characters up to a dot, at most [room]
    of them, and the rest of the name. *)
Fixpoint take_label (room : nat) (name : list Z) : list Z * list Z :=
  match room, name with
  | S room, c :: name' =>
      if c =? DOT then ([], name)
      else let '(l, r) := take_label room name' in (c :: l, r)
  | _, _ => ([], name)
  end.

Definition skip_dot (name : list Z) : list Z :=
  match name with
  | c :: name' => if c =? DOT then name' else name
  | [] => []
  end.

(** The outer loop; the bytes written, from position [pos] on. *)
Fixpoint encode_labels (fuel : nat) (name : list Z) (pos max : Z) : list Z :=
  match fuel with
  | O => []
  | S fuel =>
      match name with
      | [] => []
      | _ =>
          if pos <? max - 2 then
            let '(l, r) := take_label (Z.to_nat (max - 1 - (pos + 1))) name in
            u8 (Z.of_nat (length l)) :: l ++
            encode_labels fuel (skip_dot r) (pos + 1 + Z.of_nat (length l)) max
          else []
      end
  end.

Definition encode_name (name : list Z) (max : Z) : list Z :=
  encode_labels (length name) name 0 max ++ [0].

(** The packet and the identifier it uses up. *)
Definition build_query (hostname : list Z) (d : dns) : list Z * dns :=
  (le16 (g_query_id d) ++ le16 0x0001 ++ le16 0x0100 ++ replicate 6 0 ++
   encode_name hostname (DNS_BUF - DNS_HDR_SIZE - 4) ++ [0; 1; 0; 1],
   Dns (g_cache d) (g_dns_server d) (u16 (g_query_id d + 1))).

(** ** Answers

    A read outside of the message is [None]. *)

Definition rd (buf : list Z) (pos : Z) : option Z := if 0 <=? pos then buf !! Z.to_nat pos else None.

(** Two bytes in network order. *)
Definition rd16 (buf : list Z) (pos : Z) : option Z :=
  a ← rd buf pos;
  b ← rd buf (pos + 1);
  Some (Z.shiftl a 8 .| b).

Fixpoint skip_qname (fuel : nat) (buf : list Z) (len pos : Z) : option Z :=
  match fuel with
  | O => Some pos
  | S fuel =>
      if pos <? len then
        l ← rd buf pos;
        if l =? 0 then Some (pos + 1)
        else if l .& 0xC0 =? 0xC0 then Some (pos + 2)
        else skip_qname fuel buf len (pos + l + 1)
      else Some pos
  end.

Fixpoint skip_bytes (fuel : nat) (buf : list Z) (len pos : Z) : option Z :=
  match fuel with
  | O => Some pos
  | S fuel =>
      if pos <? len then
        b ← rd buf pos;
        if b =? 0 then Some pos else skip_bytes fuel buf len (pos + 1)
      else Some pos
  end.

(** The name of a record: a pointer, or bytes up to a zero. *)
Definition skip_name (buf : list Z) (len pos : Z) : option Z :=
  b ← rd buf pos;
  if b .& 0xC0 =? 0xC0 then Some (pos + 2)
  else pos ← skip_bytes (Z.to_nat len) buf len pos; Some (pos + 1).

Fixpoint parse_answers (n : nat) (buf : list Z) (len pos : Z) : option Z :=
  match n with
  | O => Some 0
  | S n =>
      if pos + 12 <=? len then
        pos ← skip_name buf len pos;
        if len <? pos + 10 then Some 0
        else
          rtype ← rd16 buf pos;
          rdlen ← rd16 buf (pos + 8);
          let pos := pos + 10 in
          if (rtype =? 1) && (rdlen =? 4) && (pos + 4 <=? len) then
            a ← rd buf pos;
            b ← rd buf (pos + 1);
            c ← rd buf (pos + 2);
            d ← rd buf (pos + 3);
            Some (Z.shiftl a 24 .| Z.shiftl b 16 .| Z.shiftl c 8 .| d)
          else parse_answers n buf len (pos + rdlen)
      else Some 0
  end.

Definition parse_response (buf : list Z) (len : Z) : option Z :=
  if len <? DNS_HDR_SIZE then Some 0
  else
    ancount ← rd16 buf 6;
    if ancount =? 0 then Some 0
    else
      pos ← skip_qname (Z.to_nat len) buf len DNS_HDR_SIZE;
      parse_answers (Z.to_nat ancount) buf len (pos + 4).

(** ** Resolving *)

Definition dns_set_server (ip : Z) (d : dns) : dns := Dns (g_cache d) ip (g_query_id d).
Definition dns_get_server (d : dns) : Z := g_dns_server d.
Definition dns_cache_count (d : dns) : nat := count_if c_valid (g_cache d).

Definition cache_hit (hostname : list Z) (e : dns_cache_entry) : bool :=
  c_valid e && bool_decide (c_name e = hostname).

Definition digit (c : Z) : bool := (48 <=? c) && (c <=? 57).

(** The digits at the start of a string, their value added to [n]. *)
Fixpoint number (n : Z) (p : list Z) : Z * list Z :=
  match p with
  | c :: p' => if digit c then number (n * 10 + (c - 48)) p' else (n, p)
  | [] => (n, [])
  end.

(** The address in the string and the number of its parts. *)
Fixpoint ip_literal (fuel : nat) (p : list Z) (lit parts : Z) : Z * Z :=
  match fuel with
  | O => (lit, parts)
  | S fuel =>
      match p with
      | [] => (lit, parts)
      | c :: _ =>
          if digit c then
            let '(n, p) := number 0 p in
            ip_literal fuel (skip_dot p) (u32 (Z.shiftl lit 8) .| u8 n) (parts + 1)
          else (0, 0)
      end
  end.

Definition cache_add (hostname : list Z) (addr : Z) (d : dns) : dns :=
  match find_idx (fun e => negb (c_valid e)) (g_cache d) with
  | Some i => Dns (<[i := DnsEntry (take 63 hostname) addr true]> (g_cache d)) (g_dns_server d) (g_query_id d)
  | None => d
  end.

Section resolve.
Context {Nic : Type} `{NetDriver Nic} (irq : stack Nic -> stack Nic).

(** The tests a message must pass; the answer is its address. *)
Definition dns_accept (sent_id n : Z) (rbuf : list Z) : option Z :=
  if n <? DNS_HDR_SIZE then None
  else if negb (get16 rbuf 0 =? sent_id) then None
  else match parse_response rbuf n with
       | Some addr => if addr =? 0 then None else Some addr
       | None => None
       end.

Definition dns_resolve (fuel : nat) (hostname : list Z) (d : dns) (s : stack Nic) : option (Z * dns * stack Nic) :=
  match hostname with
  | [] => Some (0, d, s)
  | _ =>
      match find_slot (cache_hit hostname) (g_cache d) with
      | Some (_, e) => Some (c_addr e, d, s)
      | None =>
          let '(lit, parts) := ip_literal (length hostname) hostname 0 0 in
          if parts =? 4 then Some (lit, d, s)
          else if g_dns_server d =? 0 then Some (0, d, s)
          else
            let sent_id := g_query_id d in
            let '(qbuf, d) := build_query hostname d in
            let s := put_net (udp_send (g_dns_server d) DNS_CLIENT_PORT DNS_PORT qbuf (st_net s)).2 s in
            let deadline := u32 (st_ticks s + TIMER_FREQ * 3) in
            '(r, s) ← poll_loop irq DNS_CLIENT_PORT DNS_BUF (dns_accept sent_id) fuel deadline s;
            match r with
            | Some addr => Some (addr, cache_add hostname addr d, s)
            | None => Some (0, d, s)
            end
      end
  end.
End resolve.

(** ** Names on the wire (RFC 1035, 3.1) *)

(** A name with dots between its labels. *)
Fixpoint dotted (labels : list (list Z)) : list Z :=
  match labels with
  | [] => []
  | [l] => l
  | l :: labels => l ++ DOT :: dotted labels
  end.

Definition wire_labels (labels : list (list Z)) : list Z :=
  concat ((fun l => Z.of_nat (length l) :: l) <$> labels).
Definition wire_name (labels : list (list Z)) : list Z := wire_labels labels ++ [0].

Definition label_ok (l : list Z) : Prop := (0 < length l <= 63)%nat /\ Forall (fun c => c <> DOT) l.

(** The reader of a name that the standard prescribes. *)
Fixpoint decode_name (fuel : nat) (p : list Z) : option (list (list Z) * list Z) :=
  match fuel, p with
  | S fuel, n :: p =>
      if n =? 0 then Some ([], p)
      else if (n <=? 63) && (n <=? Z.of_nat (length p)) then
        '(ls, r) ← decode_name fuel (drop (Z.to_nat n) p);
        Some (take (Z.to_nat n) p :: ls, r)
      else None
  | _, _ => None
  end.

Lemma take_label_spec room l r :
  Forall (fun c => c <> DOT) l -> (length l <= room)%nat -> (match r with [] => True | c :: _ => c = DOT end) ->
  take_label room (l ++ r) = (l, r).
Proof.
  revert room. induction l as [|c l IH]; intros room Hl Hr Hdot.
  - destruct room, r as [|c r]; try done. cbn. by subst c.
  - destruct room as [|room]; cbn in Hr; [lia|]. apply Forall_cons in Hl as [Hc Hl]. cbn.
    rewrite (proj2 (Z.eqb_neq _ _) Hc). by rewrite IH by (done || lia).
Qed.

Lemma encode_labels_spec labels fuel pos max :
  Forall label_ok labels -> 0 <= pos -> pos + Z.of_nat (length (wire_labels labels)) + 1 <= max ->
  (length (dotted labels) <= fuel)%nat ->
  encode_labels fuel (dotted labels) pos max = wire_labels labels.
Proof.
  revert fuel pos. induction labels as [|l labels IH]; intros fuel pos Hok Hp Hm Hf; [by destruct fuel|].
  apply Forall_cons in Hok as [[Hl Hdot] Hok]. set (r := match labels with [] => [] | _ => DOT :: dotted labels end).
  assert (dotted (l :: labels) = l ++ r) as E by (unfold r; destruct labels; [by rewrite app_nil_r|done]).
  assert (skip_dot r = dotted labels) as Es by (unfold r; by destruct labels).
  assert (length (dotted labels) <= length r)%nat as Hlr by (unfold r; destruct labels; cbn; lia).
  rewrite E in Hf |- *. rewrite length_app in Hf. cbn [wire_labels fmap list_fmap concat] in Hm |- *.
  fold (wire_labels labels) in Hm |- *. cbn [app length] in Hm. rewrite length_app in Hm.
  destruct fuel as [|fuel]; [lia|]. cbn [encode_labels].
  destruct (l ++ r) as [|c l'] eqn:El; [apply (f_equal length) in El; rewrite length_app in El; cbn in El; lia|]. rewrite <- El.
  rewrite (proj2 (Z.ltb_lt _ _)) by lia. rewrite take_label_spec; [|done|lia|unfold r; by destruct labels].
  rewrite Es, u8_small by lia. rewrite IH by (done || lia). done.
Qed.

Lemma encode_name_spec labels max :
  Forall label_ok labels -> Z.of_nat (length (wire_name labels)) <= max ->
  encode_name (dotted labels) max = wire_name labels.
Proof.
  intros Hok Hm. unfold encode_name, wire_name in *. rewrite length_app in Hm. cbn in Hm.
  by rewrite encode_labels_spec by (done || lia).
Qed.

Lemma decode_wire_name labels rest fuel :
  Forall label_ok labels -> (length labels < fuel)%nat ->
  decode_name fuel (wire_name labels ++ rest) = Some (labels, rest).
Proof.
  revert fuel. induction labels as [|l labels IH]; intros fuel Hok Hf; (destruct fuel as [|fuel]; [cbn in Hf; lia|]); [done|].
  apply Forall_cons in Hok as [[Hl _] Hok]. unfold wire_name. cbn [wire_labels fmap list_fmap concat app].
  fold (wire_labels labels). rewrite <- !app_assoc. cbn [decode_name].
  rewrite (proj2 (Z.eqb_neq _ 0)) by lia. rewrite !(proj2 (Z.leb_le _ _)) by (rewrite ?length_app; lia). cbn [andb].
  rewrite Nat2Z.id, drop_app_length, take_app_length. cbn in Hf.
  rewrite (app_assoc _ [0] rest). fold (wire_name labels). by rewrite IH by (done || lia).
Qed.

(** C-DNSQ: the query for a host name, with labels of 1 to 63 characters that fit
    into 512 bytes, is one question for the internet address of exactly this name:
    a reader that follows the standard finds the identifier, the flag for
    recursion, one question, the labels of the name, type A and class IN. *)
Theorem dns_query_correct labels d :
  Forall label_ok labels -> Z.of_nat (length (wire_name labels)) <= DNS_BUF - DNS_HDR_SIZE - 4 ->
  0 <= g_query_id d < 65536 ->
  let '(q, d') := build_query (dotted labels) d in
  get16 q 0 = g_query_id d /\ take 10 (drop 2 q) = [1; 0; 0; 1; 0; 0; 0; 0; 0; 0] /\
  decode_name (S (length labels)) (drop 12 q) = Some (labels, [0; 1; 0; 1]) /\
  Z.of_nat (length q) <= DNS_BUF /\ d' = Dns (g_cache d) (g_dns_server d) (u16 (g_query_id d + 1)).
Proof.
  intros Hok Hl Hid. unfold build_query. rewrite encode_name_spec by done.
  split; [by apply get16_le16|]. split; [done|]. split; [|split; [|done]].
  - change (drop 12 _) with (wire_name labels ++ [0; 1; 0; 1]). by apply decode_wire_name; [|lia].
  - unfold DNS_BUF, DNS_HDR_SIZE in *. rewrite !length_app. cbn [length le16]. rewrite length_replicate. lia.
Qed.

(** ** Reading answers *)

Definition bytes_ok (buf : list Z) : Prop := Forall (fun b => 0 <= b < 256) buf.

Lemma rd_app pre x post : rd (pre ++ x :: post) (Z.of_nat (length pre)) = Some x.
Proof.
  unfold rd. rewrite (proj2 (Z.leb_le 0 _)) by lia. rewrite Nat2Z.id. by apply list_lookup_middle.
Qed.

(** A read at a position that is [length pre]. *)
Lemma rd_at pos pre x post : pos = Z.of_nat (length pre) -> rd (pre ++ x :: post) pos = Some x.
Proof. intros ->. apply rd_app. Qed.

Lemma shift8_or a b : 0 <= a -> 0 <= b < 256 -> Z.shiftl a 8 .| b = a * 256 + b.
Proof. intros Ha Hb. rewrite Z.shiftl_mul_pow2, Z.lor_comm by lia. change (2 ^ 8) with 256. rewrite lor_add_256; lia. Qed.

Lemma rd16_at pos pre a b post :
  pos = Z.of_nat (length pre) -> 0 <= a < 256 -> 0 <= b < 256 -> rd16 (pre ++ a :: b :: post) pos = Some (a * 256 + b).
Proof.
  intros Hp Ha Hb. unfold rd16. rewrite (rd_at pos pre a (b :: post)) by done. cbn [mbind option_bind].
  rewrite cons_middle, app_assoc, rd_at by (rewrite length_app; cbn; lia). cbn. f_equal. apply shift8_or; lia.
Qed.

(** *** No read outside of the message, whatever it contains *)

Lemma rd_inside buf pos : 0 <= pos < Z.of_nat (length buf) -> exists x, rd buf pos = Some x /\ x ∈ buf.
Proof.
  intros Hp. unfold rd. rewrite (proj2 (Z.leb_le 0 _)) by lia.
  destruct (lookup_lt_is_Some_2 buf (Z.to_nat pos) ltac:(lia)) as [x Hx]. exists x. split; [done|].
  by eapply list_elem_of_lookup_2.
Qed.

Lemma rd16_inside buf pos :
  bytes_ok buf -> 0 <= pos -> pos + 1 < Z.of_nat (length buf) -> exists x, rd16 buf pos = Some x /\ 0 <= x.
Proof.
  intros Hb Hp Hl. unfold rd16. destruct (rd_inside buf pos) as (a & -> & Ha); [lia|].
  destruct (rd_inside buf (pos + 1)) as (b & -> & Hb'); [lia|]. cbn. eexists. split; [done|].
  unfold bytes_ok in Hb. rewrite Forall_forall in Hb. apply Z.lor_nonneg. split; [apply Z.shiftl_nonneg|]; by apply Hb.
Qed.

Lemma skip_qname_inside fuel buf pos :
  bytes_ok buf -> 0 <= pos -> exists pos', skip_qname fuel buf (Z.of_nat (length buf)) pos = Some pos' /\ 0 <= pos'.
Proof.
  intros Hb. revert pos. induction fuel as [|fuel IH]; intros pos Hp; cbn; [by eexists|].
  destruct (Z.ltb_spec pos (Z.of_nat (length buf))); [|by eexists].
  destruct (rd_inside buf pos) as (l & -> & Hl); [lia|]. cbn.
  assert (0 <= l) by (unfold bytes_ok in Hb; rewrite Forall_forall in Hb; by apply Hb).
  case_match; [eexists; split; [done|lia]|]. case_match; [eexists; split; [done|lia]|]. apply IH. lia.
Qed.

Lemma skip_bytes_inside fuel buf pos :
  0 <= pos -> exists pos', skip_bytes fuel buf (Z.of_nat (length buf)) pos = Some pos' /\ 0 <= pos'.
Proof.
  revert pos. induction fuel as [|fuel IH]; intros pos Hp; cbn; [by eexists|].
  destruct (Z.ltb_spec pos (Z.of_nat (length buf))); [|by eexists].
  destruct (rd_inside buf pos) as (l & -> & Hl); [lia|]. cbn. case_match; [by eexists|]. apply IH. lia.
Qed.

Lemma skip_name_inside buf pos :
  0 <= pos < Z.of_nat (length buf) -> exists pos', skip_name buf (Z.of_nat (length buf)) pos = Some pos' /\ 0 <= pos'.
Proof.
  intros Hp. unfold skip_name. destruct (rd_inside buf pos) as (l & -> & _); [done|]. cbn.
  case_match; [eexists; split; [done|lia]|].
  destruct (skip_bytes_inside (Z.to_nat (Z.of_nat (length buf))) buf pos) as (p & -> & Hp'); [lia|]. cbn.
  eexists. split; [done|lia].
Qed.

Lemma parse_answers_inside n buf pos :
  bytes_ok buf -> 0 <= pos -> is_Some (parse_answers n buf (Z.of_nat (length buf)) pos).
Proof.
  intros Hb. revert pos. induction n as [|n IH]; intros pos Hp; cbn; [by eexists|].
  destruct (Z.leb_spec (pos + 12) (Z.of_nat (length buf))); [|by eexists].
  destruct (skip_name_inside buf pos) as (p & -> & Hp'); [lia|]. cbn.
  destruct (Z.ltb_spec (Z.of_nat (length buf)) (p + 10)); [by eexists|].
  destruct (rd16_inside buf p) as (rt & -> & _); [done|lia|lia|]. cbn.
  destruct (rd16_inside buf (p + 8)) as (rl & -> & Hrl); [done|lia|lia|]. cbn.
  destruct (_ && _) eqn:E; [|apply IH; lia]. rewrite !andb_true_iff in E. destruct E as [_ E%Z.leb_le].
  destruct (rd_inside buf (p + 10)) as (? & -> & _); [lia|]. destruct (rd_inside buf (p + 10 + 1)) as (? & -> & _); [lia|].
  destruct (rd_inside buf (p + 10 + 2)) as (? & -> & _); [lia|]. destruct (rd_inside buf (p + 10 + 3)) as (? & -> & _); [lia|].
  by eexists.
Qed.

(** C-DNSSAFE: whatever bytes a message has, reading it stays inside: no length,
    pointer or count in it makes [parse_response] read beyond its end. *)
Theorem parse_response_inside buf :
  bytes_ok buf -> is_Some (parse_response buf (Z.of_nat (length buf))).
Proof.
  intros Hb. unfold parse_response, DNS_HDR_SIZE. destruct (Z.ltb_spec (Z.of_nat (length buf)) 12); [by eexists|].
  destruct (rd16_inside buf 6) as (n & -> & _); [done|lia|lia|]. cbn. case_match; [by eexists|].
  destruct (skip_qname_inside (Z.to_nat (Z.of_nat (length buf))) buf 12) as (p & -> & Hp); [done|lia|]. cbn.
  apply parse_answers_inside; [done|lia].
Qed.

(** *** The answer of a well-formed response *)

Definition be16 (x : Z) : list Z := [x / 256; x mod 256].

(** A resource record (RFC 1035, 4.1.3): its name as bytes, type, class and time
    to live, and its data. *)
Record rr := RR { rr_name : list Z; rr_type : Z; rr_class : Z; rr_ttl : list Z; rr_data : list Z }.

Definition rr_bytes (r : rr) : list Z :=
  rr_name r ++ be16 (rr_type r) ++ be16 (rr_class r) ++ rr_ttl r ++ be16 (Z.of_nat (length (rr_data r))) ++ rr_data r.

Definition short_label (l : list Z) : Prop := (0 < length l <= 63)%nat /\ Forall (fun c => c <> 0) l.

(** A name is a pointer or a sequence of labels. *)
Definition name_ok (nm : list Z) : Prop :=
  (exists a b, nm = [a; b] /\ a .& 0xC0 = 0xC0) \/
  (exists labels, nm = wire_name labels /\ Forall short_label labels).

Record rr_ok (r : rr) : Prop := {
  ro_name : name_ok (rr_name r);
  ro_type : 0 <= rr_type r < 65536;
  ro_ttl : length (rr_ttl r) = 4%nat;
  ro_data : Z.of_nat (length (rr_data r)) < 65536
}.

Definition is_a (r : rr) : bool := (rr_type r =? 1) && (length (rr_data r) =? 4)%nat.

(** The first address among the records, as [parse_response] assembles it. *)
Fixpoint first_a (rrs : list rr) : Z :=
  match rrs with
  | [] => 0
  | r :: rrs =>
      if is_a r then foldl (fun acc b => acc * 256 + b) 0 (rr_data r) else first_a rrs
  end.

Definition rrs_bytes (rrs : list rr) : list Z := concat (rr_bytes <$> rrs).

Definition response (hdr : list Z) (counts : list Z) (qlabels : list (list Z)) (qtype : list Z) (rrs : list rr)
    (rest : list Z) : list Z :=
  hdr ++ be16 (Z.of_nat (length rrs)) ++ counts ++ wire_name qlabels ++ qtype ++ rrs_bytes rrs ++ rest.

Lemma small_not_pointer n : 0 <= n <= 63 -> n .& 0xC0 = 0.
Proof. intros Hn. apply (land_low_high n 3 6); lia. Qed.

Lemma length_wire_cons l labels : length (wire_name (l :: labels)) = (S (length l) + length (wire_name labels))%nat.
Proof. unfold wire_name, wire_labels. cbn. rewrite !length_app. cbn. lia. Qed.

Lemma length_wire_labels labels : (length labels < length (wire_name labels))%nat.
Proof. induction labels as [|l labels IH]; [cbn; lia|]. rewrite length_wire_cons. cbn. lia. Qed.

Lemma wire_cons l labels : wire_name (l :: labels) = (Z.of_nat (length l) :: l) ++ wire_name labels.
Proof. unfold wire_name, wire_labels. cbn. by rewrite <- app_assoc. Qed.

Lemma skip_qname_spec labels fuel pre post len pos :
  Forall (fun l => (0 < length l <= 63)%nat) labels -> pos = Z.of_nat (length pre) ->
  len = Z.of_nat (length (pre ++ wire_name labels ++ post)) -> (length labels < fuel)%nat ->
  skip_qname fuel (pre ++ wire_name labels ++ post) len pos = Some (pos + Z.of_nat (length (wire_name labels))).
Proof.
  revert fuel pre pos. induction labels as [|l labels IH]; intros fuel pre pos Hok -> Hlen Hf;
    (destruct fuel as [|fuel]; [cbn in Hf; lia|]).
  - cbn [skip_qname]. rewrite (proj2 (Z.ltb_lt _ _)) by (rewrite Hlen, !length_app; cbn; lia).
    change (wire_name [] ++ post) with (0 :: post). by rewrite rd_app.
  - apply Forall_cons in Hok as [Hl Hok]. rewrite wire_cons in Hlen |- *.
    assert (rd (pre ++ ((Z.of_nat (length l) :: l) ++ wire_name labels) ++ post) (Z.of_nat (length pre))
            = Some (Z.of_nat (length l))) as Hr by apply rd_app.
    rewrite <- (app_assoc _ (wire_name labels) post), (app_assoc pre) in Hlen, Hr |- *.
    cbn [skip_qname]. rewrite (proj2 (Z.ltb_lt _ _)) by (rewrite Hlen, !length_app; cbn; lia).
    rewrite Hr. cbn [mbind option_bind]. rewrite (proj2 (Z.eqb_neq _ 0)) by lia.
    rewrite small_not_pointer by lia. change (0 =? 0xC0) with false. cbv iota.
    rewrite IH; [f_equal; rewrite length_app; cbn; lia|done|rewrite length_app; cbn; lia|done|cbn in Hf; lia].
Qed.

Lemma skip_bytes_spec fuel nz pre post len pos :
  Forall (fun c => c <> 0) nz -> pos = Z.of_nat (length pre) ->
  len = Z.of_nat (length (pre ++ nz ++ 0 :: post)) -> (length nz < fuel)%nat ->
  skip_bytes fuel (pre ++ nz ++ 0 :: post) len pos = Some (pos + Z.of_nat (length nz)).
Proof.
  revert fuel pre pos. induction nz as [|c nz IH]; intros fuel pre pos Hok -> Hlen Hf;
    (destruct fuel as [|fuel]; [cbn in Hf; lia|]); cbn [skip_bytes];
    rewrite (proj2 (Z.ltb_lt _ _)) by (rewrite Hlen, !length_app; cbn; lia); cbn [app]; rewrite rd_app; cbn [mbind option_bind].
  - cbn. f_equal. lia.
  - apply Forall_cons in Hok as [Hc Hok]. rewrite (proj2 (Z.eqb_neq c 0)) by done.
    cbn [app] in Hlen. rewrite cons_middle, app_assoc in Hlen |- *.
    rewrite IH; [f_equal; cbn; lia|done|rewrite length_app; cbn; lia|done|cbn in Hf; lia].
Qed.

Lemma wire_labels_nonzero labels : Forall short_label labels -> Forall (fun c => c <> 0) (wire_labels labels).
Proof.
  induction 1 as [|l labels [Hl Hz] _ IH]; [constructor|]. unfold wire_labels. cbn. constructor; [lia|].
  by apply Forall_app.
Qed.

Lemma skip_name_spec nm pre post len pos :
  name_ok nm -> pos = Z.of_nat (length pre) -> len = Z.of_nat (length (pre ++ nm ++ post)) ->
  skip_name (pre ++ nm ++ post) len pos = Some (pos + Z.of_nat (length nm)).
Proof.
  intros [(a & b & -> & Ha)|(labels & -> & Hl)] -> Hlen; unfold skip_name.
  - cbn [app]. rewrite rd_app. cbn. by rewrite Ha.
  - assert (exists x, rd (pre ++ wire_name labels ++ post) (Z.of_nat (length pre)) = Some x /\ 0 <= x <= 63) as (x & Hr & Hx).
    { destruct Hl as [|l labels [Hl _] _]; [exists 0; split; [apply rd_app|lia]|].
      exists (Z.of_nat (length l)). split; [|lia]. rewrite wire_cons. apply rd_app. }
    rewrite Hr. cbn [mbind option_bind]. rewrite small_not_pointer by done. change (0 =? 0xC0) with false. cbv iota.
    unfold wire_name in *. rewrite <- app_assoc in Hlen |- *. cbn [app] in Hlen |- *.
    rewrite skip_bytes_spec; [|by apply wire_labels_nonzero|done|done|rewrite Hlen, !length_app; cbn; lia].
    cbn. rewrite length_app. cbn. f_equal. lia.
Qed.

Lemma name_length nm : name_ok nm -> (1 <= length nm)%nat.
Proof. intros [(a & b & -> & _)|(labels & -> & _)]; [cbn; lia|]. unfold wire_name. rewrite length_app. cbn. lia. Qed.

Lemma length_rr_bytes r : rr_ok r -> length (rr_bytes r) = (length (rr_name r) + 10 + length (rr_data r))%nat.
Proof. intros [_ _ Ht _]. unfold rr_bytes. rewrite !length_app, Ht. cbn. lia. Qed.

Lemma rrs_cons r rrs : rrs_bytes (r :: rrs) = rr_bytes r ++ rrs_bytes rrs.
Proof. done. Qed.

(** Too few bytes are left for an address. *)
Lemma first_a_short rrs : Forall rr_ok rrs -> (length (rrs_bytes rrs) < 12)%nat -> first_a rrs = 0.
Proof.
  induction 1 as [|r rrs Hr _ IH]; [done|]. rewrite rrs_cons, length_app. intros Hl. cbn [first_a].
  pose proof (length_rr_bytes r Hr) as Hb. pose proof (name_length _ (ro_name _ Hr)).
  unfold is_a. destruct (rr_type r =? 1); [|apply IH; lia]. destruct (Nat.eqb_spec (length (rr_data r)) 4); [lia|].
  apply IH. lia.
Qed.

Lemma be32_or a b c d :
  0 <= a -> 0 <= b < 256 -> 0 <= c < 256 -> 0 <= d < 256 ->
  Z.shiftl a 24 .| Z.shiftl b 16 .| Z.shiftl c 8 .| d = ((a * 256 + b) * 256 + c) * 256 + d.
Proof.
  intros Ha Hb Hc Hd.
  rewrite <- (shift8_or (((a * 256 + b) * 256) + c) d), <- (shift8_or (a * 256 + b) c), <- (shift8_or a b) by lia.
  by rewrite !Z.shiftl_lor, !Z.shiftl_shiftl by lia.
Qed.

Lemma rd16_be x pre post pos :
  0 <= x < 65536 -> pos = Z.of_nat (length pre) -> rd16 (pre ++ be16 x ++ post) pos = Some x.
Proof.
  intros Hx Hp. unfold be16. cbn [app].
  pose proof (Z.mod_pos_bound x 256 ltac:(lia)). pose proof (Z.div_mod x 256 ltac:(lia)).
  assert (0 <= x / 256 < 256) by (split; [apply Z.div_pos; lia|apply Z.div_lt_upper_bound; lia]).
  rewrite rd16_at by done. f_equal. lia.
Qed.

(** The bytes of a record up to its data. *)
Definition rr_head (r : rr) : list Z :=
  rr_name r ++ be16 (rr_type r) ++ be16 (rr_class r) ++ rr_ttl r ++ be16 (Z.of_nat (length (rr_data r))).

Lemma rr_head_reads r pre tail len :
  rr_ok r -> let buf := pre ++ rr_bytes r ++ tail in let pos := Z.of_nat (length (pre ++ rr_name r)) in
  len = Z.of_nat (length buf) ->
  skip_name buf len (Z.of_nat (length pre)) = Some pos /\ rd16 buf pos = Some (rr_type r) /\
  rd16 buf (pos + 8) = Some (Z.of_nat (length (rr_data r))) /\ pos + 10 = Z.of_nat (length (pre ++ rr_head r)) /\
  buf = (pre ++ rr_head r) ++ rr_data r ++ tail.
Proof.
  intros [Hn Ht Httl Hdl] buf pos Hlen.
  assert (buf = (pre ++ rr_head r) ++ rr_data r ++ tail) as E by (unfold buf, rr_bytes, rr_head; by rewrite <- !app_assoc).
  split.
  { revert Hlen. unfold buf, rr_bytes, pos. rewrite <- app_assoc. intros Hlen.
    rewrite skip_name_spec; [rewrite length_app; f_equal; lia|done|done|done]. }
  split; [unfold buf, rr_bytes; rewrite <- !app_assoc, app_assoc; by apply rd16_be|].
  split; [|split; [unfold pos, rr_head; rewrite !length_app, Httl; cbn; lia|done]].
  assert (buf = (pre ++ rr_name r ++ be16 (rr_type r) ++ be16 (rr_class r) ++ rr_ttl r) ++
                be16 (Z.of_nat (length (rr_data r))) ++ rr_data r ++ tail) as ->.
  { rewrite E. unfold rr_head. by rewrite <- !app_assoc. }
  apply rd16_be; [lia|]. unfold pos. rewrite !length_app, Httl. cbn. lia.
Qed.

Lemma rd4_at front a b c d tail pos :
  pos = Z.of_nat (length front) -> let buf := front ++ [a; b; c; d] ++ tail in
  rd buf pos = Some a /\ rd buf (pos + 1) = Some b /\ rd buf (pos + 2) = Some c /\ rd buf (pos + 3) = Some d.
Proof.
  intros -> buf. split; [apply rd_app|]. unfold buf. split; [|split].
  - change ([a; b; c; d] ++ tail) with ([a] ++ b :: c :: d :: tail). rewrite app_assoc. apply rd_at. rewrite length_app. cbn. lia.
  - change ([a; b; c; d] ++ tail) with ([a; b] ++ c :: d :: tail). rewrite app_assoc. apply rd_at. rewrite length_app. cbn. lia.
  - change ([a; b; c; d] ++ tail) with ([a; b; c] ++ d :: tail). rewrite app_assoc. apply rd_at. rewrite length_app. cbn. lia.
Qed.

Lemma parse_answers_spec rrs pre rest len pos :
  Forall rr_ok rrs -> Forall (fun r => bytes_ok (rr_data r)) rrs -> pos = Z.of_nat (length pre) ->
  len = Z.of_nat (length (pre ++ rrs_bytes rrs ++ rest)) ->
  parse_answers (length rrs) (pre ++ rrs_bytes rrs ++ rest) len pos = Some (first_a rrs).
Proof.
  revert pre pos. induction rrs as [|r rrs IH]; intros pre pos Hok Hby -> Hlen; [done|].
  cbn [length parse_answers]. destruct (Z.leb_spec (Z.of_nat (length pre) + 12) len) as [H12|H12].
  2: { f_equal. symmetry. apply first_a_short; [done|]. rewrite Hlen, !length_app in H12. lia. }
  apply Forall_cons in Hok as [Hr Hok]. apply Forall_cons in Hby as [Hd Hby].
  rewrite rrs_cons, <- app_assoc in Hlen |- *. set (tail := rrs_bytes rrs ++ rest) in *.
  destruct (rr_head_reads r pre tail len Hr Hlen) as (Hsk & Hty & Hdl & Hpos & Hbuf).
  set (p := Z.of_nat (length (pre ++ rr_name r))) in *. set (buf := pre ++ rr_bytes r ++ tail) in *.
  rewrite Hsk. cbn [mbind option_bind].
  assert (len = p + 10 + Z.of_nat (length (rr_data r)) + Z.of_nat (length tail)) as Hl.
  { rewrite Hlen, Hbuf, Hpos, length_app, (length_app (rr_data r)). lia. }
  rewrite (proj2 (Z.ltb_ge len _)) by lia. rewrite Hty, Hdl. cbn [mbind option_bind first_a]. unfold is_a.
  replace (Z.of_nat (length (rr_data r)) =? 4) with (length (rr_data r) =? 4)%nat
    by (destruct (Nat.eqb_spec (length (rr_data r)) 4), (Z.eqb_spec (Z.of_nat (length (rr_data r))) 4); lia || done).
  destruct (rr_type r =? 1); [destruct (Nat.eqb_spec (length (rr_data r)) 4) as [H4|]|]; cbn [andb].
  - rewrite (proj2 (Z.leb_le _ len)) by lia. destruct (rr_data r) as [|a [|b [|c [|d [|]]]]]; try done.
    rewrite Hbuf. destruct (rd4_at (pre ++ rr_head r) a b c d tail (p + 10) Hpos) as (-> & -> & -> & ->).
    cbn [mbind option_bind]. unfold bytes_ok in Hd. rewrite !Forall_cons in Hd.
    destruct Hd as (Ha & Hb & Hc & Hd & _). rewrite be32_or by lia. cbn. f_equal; lia.
  - rewrite Hbuf, app_assoc. apply IH; [done|done|rewrite length_app; lia|by rewrite <- app_assoc, <- Hbuf].
  - rewrite Hbuf, app_assoc. apply IH; [done|done|rewrite length_app; lia|by rewrite <- app_assoc, <- Hbuf].
Qed.

(** C-DNSR: reading a response that follows the standard (any identifier and flags,
    a question, records whose names are pointers or labels, anything behind them)
    gives the address of its first A record, or 0 when it has none. *)
Theorem parse_response_correct hdr counts qlabels qtype rrs rest :
  length hdr = 6%nat -> length counts = 4%nat -> length qtype = 4%nat ->
  Forall (fun l => (0 < length l <= 63)%nat) qlabels -> Forall rr_ok rrs -> Forall (fun r => bytes_ok (rr_data r)) rrs ->
  Z.of_nat (length rrs) < 65536 ->
  let buf := response hdr counts qlabels qtype rrs rest in
  parse_response buf (Z.of_nat (length buf)) = Some (first_a rrs).
Proof.
  intros Hh Hc Hq Hql Hok Hby Hn buf. unfold parse_response, DNS_HDR_SIZE.
  assert (length buf = (12 + length (wire_name qlabels) + 4 + length (rrs_bytes rrs) + length rest)%nat) as Hl.
  { unfold buf, response. rewrite !length_app, Hh, Hc, Hq. cbn. lia. }
  rewrite (proj2 (Z.ltb_ge (Z.of_nat (length buf)) 12)) by lia.
  assert (rd16 buf 6 = Some (Z.of_nat (length rrs))) as -> by (apply rd16_be; lia).
  cbn [mbind option_bind]. destruct (Z.eqb_spec (Z.of_nat (length rrs)) 0) as [E|_]; [by destruct rrs|].
  set (h12 := hdr ++ be16 (Z.of_nat (length rrs)) ++ counts).
  assert (buf = h12 ++ wire_name qlabels ++ qtype ++ rrs_bytes rrs ++ rest) as E
    by (unfold h12, buf, response; by rewrite <- !app_assoc).
  assert (length h12 = 12%nat) as Hl12 by (unfold h12; rewrite !length_app, Hh, Hc; done).
  rewrite E, skip_qname_spec; [|done|lia|by rewrite <- E|].
  2: { rewrite <- E, Hl. pose proof (length_wire_labels qlabels). lia. }
  cbn [mbind option_bind]. rewrite Nat2Z.id.
  set (front := h12 ++ wire_name qlabels ++ qtype).
  assert (h12 ++ wire_name qlabels ++ qtype ++ rrs_bytes rrs ++ rest = front ++ rrs_bytes rrs ++ rest) as ->
    by (unfold front; by rewrite <- !app_assoc).
  apply parse_answers_spec; [done|done|unfold front; rewrite !length_app, Hl12, Hq; lia|done].
Qed.

(** The address is assembled in the order of the bytes, but the IPv4 layer writes
    an address with its low byte first: a packet sent to the result goes to the
    reversed address. *)
Lemma dns_address_reversed r rrs :
  is_a r = true -> bytes_ok (rr_data r) -> le32 (first_a (r :: rrs)) = rev (rr_data r).
Proof.
  intros Ha Hb. cbn [first_a]. rewrite Ha. unfold is_a in Ha. apply andb_prop in Ha as [_ Hl%Nat.eqb_eq].
  destruct (rr_data r) as [|a [|b [|c [|d [|]]]]]; try done. unfold bytes_ok in Hb. rewrite !Forall_cons in Hb.
  destruct Hb as (Ha & Hb & Hc & Hd & _). cbn [foldl rev app]. unfold le32.
  set (x := ((0 * 256 + a) * 256 + b) * 256 + c). change 65536 with (256 * 256). change 16777216 with (256 * 256 * 256).
  rewrite <- !Z.div_div by lia. rewrite (Z.div_add_l x), (Z.div_small d), Z.add_0_r by lia.
  rewrite (Z.add_comm (x * 256) d), Z.mod_add, (Z.mod_small d) by lia. unfold x.
  rewrite (Z.div_add_l _ 256 c), (Z.div_small c), Z.add_0_r by lia.
  rewrite (Z.add_comm (_ * 256) c), Z.mod_add, (Z.mod_small c) by lia.
  rewrite (Z.div_add_l _ 256 b), (Z.div_small b), Z.add_0_r by lia.
  rewrite (Z.add_comm (_ * 256) b), Z.mod_add, (Z.mod_small b) by lia. by rewrite Z.mul_0_l, Z.add_0_l, Z.mod_small by lia.
Qed.

(** ** Resolving a name *)

Lemma cache_add_hit h a d :
  find_slot (cache_hit h) (g_cache d) = None -> (length h <= 63)%nat -> (dns_cache_count d < length (g_cache d))%nat ->
  exists i, find_slot (cache_hit h) (g_cache (cache_add h a d)) = Some (i, DnsEntry h a true).
Proof.
  intros Hno Hl Hroom. unfold cache_add. rewrite find_slot_None in Hno.
  destruct (find_idx (fun e => negb (c_valid e)) (g_cache d)) as [i|] eqn:E.
  - exists i. cbn. rewrite take_ge by done. apply find_idx_Some in E as (e & He & _).
    pose proof (lookup_lt_Some _ _ _ He) as Hlt. apply find_slot_unique; [by apply list_lookup_insert_eq| |].
    + unfold cache_hit. cbn. by apply bool_decide_eq_true.
    + intros j y [[-> _]|[_ Hy]]%(lookup_put _ i _ j y Hlt) Hh; [done|]. by rewrite (Hno j y Hy) in Hh.
  - exfalso. rewrite find_idx_None in E. unfold dns_cache_count in Hroom.
    assert (count_if c_valid (g_cache d) = length (g_cache d)) as Hc; [|lia]. clear -E.
    induction (g_cache d) as [|e l IH]; [done|]. cbn. pose proof (E 0%nat e eq_refl) as He. apply negb_false_iff in He.
    rewrite He, IH; [done|]. intros i x Hx. by apply (E (S i)).
Qed.

Section resolving.
Context {Nic : Type} `{NetDriver Nic} (next : tcp Nic -> tcp Nic) (arrivals : tcp Nic -> list (list Z * Z))
  (left : tcp Nic -> nat) (rate : nat).
Implicit Types (s : stack Nic).

(** The interface once the query is sent. *)
Definition queried (h : list Z) (d : dns) s : tcp Nic :=
  set_net (udp_send (g_dns_server d) DNS_CLIENT_PORT DNS_PORT (build_query h d).1 (st_net s)).2 (st_tcp s).

Definition asks (h : list Z) (d : dns) : Prop :=
  h <> [] /\ find_slot (cache_hit h) (g_cache d) = None /\ (ip_literal (length h) h 0 0).2 <> 4 /\ g_dns_server d <> 0.

(** C-DNS: resolving a name that is neither cached nor an address returns within
    three seconds.  The query goes to the server once.  The result is the address
    of the first message seen on the port of the client that has the identifier
    of the query and an address; it is not 0, and it is kept, so that resolving
    the name again gives the same address without any traffic, if the cache has
    room and the name at most 63 characters.  Without such a message the result
    is 0 and the three seconds have passed. *)
Theorem dns_resolve_correct fuel h d o s :
  world next left rate -> asks h d -> pollable DNS_CLIENT_PORT o (st_udp s) ->
  0 <= st_ticks s -> st_ticks s + 300 < 2 ^ 32 -> (300 * S rate + rate < fuel)%nat ->
  exists n s', let r := accepted (dns_accept (g_query_id d)) (messages DNS_CLIENT_PORT next arrivals DNS_BUF n o (queried h d s)) in
    let d' := match r with Some a => cache_add h a (build_query h d).2 | None => (build_query h d).2 end in
    dns_resolve (step next arrivals) fuel h d s = Some (default 0 r, d', s') /\
    (exists m, st_tcp s' = later next m (queried h d s)) /\ (exists o', pollable DNS_CLIENT_PORT o' (st_udp s')) /\
    (r = None -> st_ticks s + 300 <= st_ticks s') /\
    (forall a, r = Some a -> a <> 0 /\
       ((length h <= 63)%nat -> (dns_cache_count d < length (g_cache d))%nat ->
        forall irq fuel' (s2 : stack Nic), dns_resolve irq fuel' h d' s2 = Some (a, d', s2))).
Proof.
  intros Hw (Hh & Hhit & Hlit & Hsrv) Hp Ht0 Ht Hf.
  destruct (poll_wait_spec next arrivals left rate DNS_CLIENT_PORT DNS_BUF (dns_accept (g_query_id d)) Hw
              ltac:(done) eq_refl ltac:(done) fuel (st_ticks s + 300) o (Stack (queried h d s) (st_udp s)) Hp)
    as (n & s' & Hr & Hm & Ho & Hno).
  { eapply Nat.le_lt_trans; [|exact Hf]. change 300%nat with (Z.to_nat 300). apply (rounds_bound next); [done|]. cbn.
    change (t_ticks (st_tcp s)) with (st_ticks s). lia. }
  exists n, s'. cbv zeta. cbn [st_tcp] in *. set (r := accepted _ _) in *. split.
  { unfold dns_resolve. destruct h as [|c h]; [done|]. rewrite Hhit.
    destruct (ip_literal (length (c :: h)) (c :: h) 0 0) as [lit parts]. cbn in Hlit. rewrite (proj2 (Z.eqb_neq _ _) Hlit).
    rewrite (proj2 (Z.eqb_neq _ _) Hsrv). unfold queried in Hr. destruct (build_query (c :: h) d) as [q d1] eqn:Eq.
    assert (g_dns_server d1 = g_dns_server d) as Es by (unfold build_query in Eq; injection Eq as _ <-; done).
    rewrite Es. cbn [fst snd] in Hr |- *. unfold st_ticks at 1, put_net at 1. cbn [st_tcp set_net t_ticks].
    change (t_ticks (st_tcp s)) with (st_ticks s). change (TIMER_FREQ * 3) with 300. rewrite u32_small by lia.
    unfold put_net. rewrite Hr. cbn [mbind option_bind]. by destruct r. }
  split; [done|]. split; [done|]. split; [intros E; by apply Hno|]. intros a Ea. split.
  { unfold r, accepted in Ea. apply head_Some_elem_of in Ea. apply list_elem_of_omap in Ea as (m & _ & Hacc).
    unfold dns_accept in Hacc. repeat case_match; simplify_eq; by apply Z.eqb_neq. }
  intros Hl Hroom irq fuel' s2. rewrite Ea. unfold dns_resolve. destruct h as [|c h]; [done|].
  destruct (cache_add_hit (c :: h) a (build_query (c :: h) d).2 Hhit Hl Hroom) as (i & E). by rewrite E.
Qed.
End resolving.
