(* ===== verification/Heap.v ===== *)
(** * The kernel heap ([memory/heap.c])

    A first-fit allocator: block headers tile the heap, and the free ones are
    linked into a list.  A header is kept apart from the bytes of the data
    areas, as a record at its address; the invariant shows that the two never
    overlap.  [kpanic] does not return: the outcome of a call is a value, a
    panic, or the end of the fuel of a loop.

    The heap grows page by page through the interface [PageMap], which
    [HeapPages.v] implements with the two memory managers. *)

From S2P Require Import Prelude CString Vmm.

(** ** What the heap needs from the memory managers *)

Class PageMap (M : Type) := {
  (** One round of the loop of [expand_heap]: 0 or -1. *)
  map_fresh : Z -> M -> Z * M;
  (** An access to this address does not fault. *)
  present : M -> Z -> bool;
  map_inv : M -> Prop
}.

Class PageMapLaws (M : Type) `{PageMap M} := {
  map_result a s : (map_fresh a s).1 = 0 \/ (map_fresh a s).1 = -1;
  map_keeps_inv a s : map_inv s -> map_inv (map_fresh a s).2;
  map_monotone a s v : map_inv s -> present s v = true -> present (map_fresh a s).2 v = true;
  map_present a s v : map_inv s -> (map_fresh a s).1 = 0 -> (PAGE_SIZE | a) -> 0 <= a -> a + PAGE_SIZE < 2 ^ 64 ->
    a <= v < a + PAGE_SIZE -> present (map_fresh a s).2 v = true
}.

(** ** Outcomes *)

Inductive outcome (T : Type) :=
| Done (x : T)
| Panic
| Spin.
Arguments Done {T}.
Arguments Panic {T}.
Arguments Spin {T}.

Definition obind {T U} (r : outcome T) (f : T -> outcome U) : outcome U :=
  match r with
  | Done x => f x
  | Panic => Panic
  | Spin => Spin
  end.
Notation "'let*' p ':=' r 'in' k" := (obind r (fun x => match x with p => k end))
  (at level 10, p pattern, r at level 100, k at level 200) : c_scope.

(** ** Blocks *)

Definition HEAP_MIN_ALLOC : Z := 16.
Definition HEAP_MAGIC : Z := 0xDEADBEEF.
Definition BLOCK_FREE : Z := 2 ^ 0.
Definition BLOCK_LAST : Z := 2 ^ 1.
(** [ALIGN_UP(sizeof(heap_block_t), 16)] *)
Definition HDR_SIZE : Z := ALIGN_UP 24 16.

Record heap_block := Block { b_magic : Z; b_flags : Z; b_size : Z; b_next : Z }.

Definition set_magic v b : heap_block := Block v (b_flags b) (b_size b) (b_next b).
Definition set_flags v b : heap_block := Block (b_magic b) v (b_size b) (b_next b).
Definition set_size v b : heap_block := Block (b_magic b) (b_flags b) v (b_next b).
Definition set_next v b : heap_block := Block (b_magic b) (b_flags b) (b_size b) v.

Definition block_free (b : heap_block) : bool := has_flag (b_flags b) BLOCK_FREE.
Definition block_last (b : heap_block) : bool := has_flag (b_flags b) BLOCK_LAST.

Definition block_to_ptr (block : Z) : Z := u64 (block + HDR_SIZE).
Definition ptr_to_block (ptr : Z) : Z := u64 (ptr - HDR_SIZE).

Section heap.
Context {M : Type} `{PageMap M}.

Record heap := Heap {
  heap_start_addr : Z;
  heap_end_addr : Z;
  heap_current : Z;
  free_list : Z;
  heap_used_bytes : Z;
  hdr : Z -> heap_block;
  data : mem;
  pm : M
}.
Implicit Types (h : heap).

Definition eta_heap h : heap :=
  Heap (heap_start_addr h) (heap_end_addr h) (heap_current h) (free_list h) (heap_used_bytes h) (hdr h) (data h) (pm h).
Definition set_current v h : heap := ltac:(set_field eta_heap heap_current h v).
Definition set_free_list v h : heap := ltac:(set_field eta_heap free_list h v).
Definition set_used_bytes v h : heap := ltac:(set_field eta_heap heap_used_bytes h v).
Definition set_hdr v h : heap := ltac:(set_field eta_heap hdr h v).
Definition set_data v h : heap := ltac:(set_field eta_heap data h v).
Definition set_pm v h : heap := ltac:(set_field eta_heap pm h v).

(** An assignment to fields of the header at [a]. *)
Definition put_block (a : Z) (f : heap_block -> heap_block) h : heap := set_hdr (upd (hdr h) a (f (hdr h a))) h.

Definition next_block (block : Z) h : Z := u64 (block + HDR_SIZE + b_size (hdr h block)).

(** The pages of a new region; the loop stops at the first failure. *)
Fixpoint map_pages (n : nat) (addr : Z) (s : M) : Z * M :=
  match n with
  | O => (0, s)
  | S n =>
      let '(ret, s) := map_fresh addr s in
      if ret <? 0 then (-1, s) else map_pages n (addr + PAGE_SIZE) s
  end.

(** Writing the new header faults when its page is not mapped, which happens
    when the size wraps around and no page was mapped. *)
Definition expand_heap (min_size : Z) h : outcome (Z * heap) :=
  let needed := ALIGN_UP (u64 (min_size + HDR_SIZE)) PAGE_SIZE in
  let limit := u64 (heap_current h + needed) in
  if heap_end_addr h <? limit then Done (-1, h)
  else
    let '(ret, m) := map_pages (Z.to_nat ((limit - heap_current h + (PAGE_SIZE - 1)) / PAGE_SIZE)) (heap_current h) (pm h) in
    let h := set_pm m h in
    if ret <? 0 then Done (-1, h)
    else if negb (present m (heap_current h)) then Panic
    else
      let block := heap_current h in
      let h := put_block block (fun _ => Block HEAP_MAGIC (BLOCK_FREE .| BLOCK_LAST) (u64 (needed - HDR_SIZE)) 0) h in
      let h := set_current limit h in
      let h := put_block block (set_next (free_list h)) h in
      Done (0, set_free_list block h).

Definition heap_init (start size : Z) h : outcome heap :=
  let h := Heap start (u64 (start + size)) start 0 0 (hdr h) (data h) (pm h) in
  let* (_, h) := expand_heap (1024 * 1024) h in
  Done h.

(** The search: the link that leads to the block ([None] is [&free_list],
    [Some b] is [&b->next]) and the block. *)
Fixpoint find_fit (fuel : nat) (prev : option Z) (curr size : Z) h : outcome (option (option Z * Z)) :=
  match fuel with
  | O => Spin
  | S fuel =>
      if curr =? 0 then Done None
      else if negb (b_magic (hdr h curr) =? HEAP_MAGIC) then Panic
      else if block_free (hdr h curr) && (size <=? b_size (hdr h curr)) then Done (Some (prev, curr))
      else find_fit fuel (Some curr) (b_next (hdr h curr)) size h
  end.

(** [*prev = v] *)
Definition set_link (prev : option Z) (v : Z) h : heap :=
  match prev with
  | None => set_free_list v h
  | Some b => put_block b (set_next v) h
  end.

(** Taking the block that was found. *)
Definition take_block (prev : option Z) (curr size : Z) h : Z * heap :=
  let leftover := u64 (b_size (hdr h curr) - size) in
  let h :=
    if HDR_SIZE + HEAP_MIN_ALLOC <=? leftover then
      let new_block := u64 (curr + HDR_SIZE + size) in
      let h := put_block new_block
                 (fun _ => Block HEAP_MAGIC (BLOCK_FREE .| (b_flags (hdr h curr) .& BLOCK_LAST))
                             (u64 (leftover - HDR_SIZE)) (b_next (hdr h curr))) h in
      let h := put_block curr (fun b => set_next new_block (set_flags (b_flags b .&~ BLOCK_LAST) (set_size size b))) h in
      set_link prev new_block h
    else set_link prev (b_next (hdr h curr)) h in
  let h := put_block curr (fun b => set_flags (b_flags b .&~ BLOCK_FREE) b) h in
  (block_to_ptr curr, set_used_bytes (u64 (heap_used_bytes h + b_size (hdr h curr))) h).

Fixpoint kmalloc (fuel : nat) (size : Z) h : outcome (Z * heap) :=
  match fuel with
  | O => Spin
  | S fuel' =>
      if size =? 0 then Done (0, h)
      else
        let size := ALIGN_UP (Z.max size HEAP_MIN_ALLOC) 16 in
        let* r := find_fit fuel None (free_list h) size h in
        match r with
        | Some (prev, curr) => Done (take_block prev curr size h)
        | None =>
            let* (ret, h) := expand_heap size h in
            if ret <? 0 then Done (0, h) else kmalloc fuel' size h
        end
  end.

Definition kmalloc_aligned (fuel : nat) (size align : Z) h : outcome (Z * heap) :=
  if align <=? 16 then kmalloc fuel size h
  else
    let* (raw, h) := kmalloc fuel (u64 (size + align + 8)) h in
    if raw =? 0 then Done (0, h)
    else
      let aligned := ALIGN_UP (u64 (raw + 8)) align in
      Done (aligned, set_data (store64 (data h) (u64 (aligned - 8)) raw) h).

Definition kcalloc (fuel : nat) (count size : Z) h : outcome (Z * heap) :=
  let total := u64 (count * size) in
  let* (ptr, h) := kmalloc fuel total h in
  if ptr =? 0 then Done (ptr, h) else Done (ptr, set_data (memset (data h) ptr 0 (Z.to_nat total)) h).

(** The pass of [kfree] over the free list. *)
Fixpoint merge_pass (fuel : nat) (curr : Z) h : outcome heap :=
  match fuel with
  | O => Spin
  | S fuel =>
      if curr =? 0 then Done h
      else if block_last (hdr h curr) then Done h
      else
        let nxt := next_block curr h in
        let n := hdr h nxt in
        if (b_magic n =? HEAP_MAGIC) && block_free n then
          let h := put_block curr (fun b =>
                     Block (b_magic b) ((b_flags b .&~ BLOCK_LAST) .| (b_flags n .& BLOCK_LAST))
                       (u64 (b_size b + (HDR_SIZE + b_size n))) (b_next n)) h in
          merge_pass fuel curr (put_block nxt (set_magic 0) h)
        else merge_pass fuel (b_next (hdr h curr)) h
  end.

(** [kfree] up to the pass: the block is marked and put at the head. *)
Definition release_block (block : Z) h : heap :=
  let h := set_used_bytes (u64 (heap_used_bytes h - b_size (hdr h block))) h in
  let h := put_block block (fun b => set_next (free_list h) (set_flags (b_flags b .| BLOCK_FREE) b)) h in
  set_free_list block h.

Definition kfree (fuel : nat) (ptr : Z) h : outcome heap :=
  if ptr =? 0 then Done h
  else
    let block := ptr_to_block ptr in
    if negb (b_magic (hdr h block) =? HEAP_MAGIC) then Panic
    else if block_free (hdr h block) then Panic
    else let h := release_block block h in merge_pass fuel (free_list h) h.

Definition krealloc (fuel : nat) (ptr new_size : Z) h : outcome (Z * heap) :=
  if ptr =? 0 then kmalloc fuel new_size h
  else if new_size =? 0 then let* g := kfree fuel ptr h in Done (0, g)
  else
    let block := ptr_to_block ptr in
    if negb (b_magic (hdr h block) =? HEAP_MAGIC) then Panic
    else if new_size <=? b_size (hdr h block) then Done (ptr, h)
    else
      let* (new_ptr, h) := kmalloc fuel new_size h in
      if new_ptr =? 0 then Done (0, h)
      else
        let h := set_data (memcpy (data h) new_ptr ptr (Z.to_nat (b_size (hdr h block)))) h in
        let* g := kfree fuel ptr h in
        Done (new_ptr, g).

Definition kheap_used h : Z := heap_used_bytes h.
Definition kheap_free h : Z :=
  u64 (heap_end_addr h - heap_current h + (heap_current h - heap_start_addr h) - heap_used_bytes h).
End heap.
Arguments heap : clear implicits.

(** ** Flags *)

Lemma flag_bits f :
  (has_flag f BLOCK_FREE = Z.testbit f 0) /\ (has_flag f BLOCK_LAST = Z.testbit f 1).
Proof. unfold BLOCK_FREE, BLOCK_LAST. split; by apply has_flag_bit. Qed.

Lemma free_flag f : has_flag f BLOCK_FREE = Z.testbit f 0.
Proof. apply flag_bits. Qed.
Lemma last_flag f : has_flag f BLOCK_LAST = Z.testbit f 1.
Proof. apply flag_bits. Qed.

(** Evaluates the flag tests of the headers the code writes. *)
Ltac flags :=
  unfold block_free, block_last;
  cbn [b_flags b_magic b_size b_next set_flags set_next set_size set_magic];
  rewrite ?free_flag, ?last_flag, ?Z.lor_spec, ?Z.ldiff_spec, ?Z.land_spec;
  change (Z.testbit BLOCK_FREE 0) with true; change (Z.testbit BLOCK_FREE 1) with false;
  change (Z.testbit BLOCK_LAST 0) with false; change (Z.testbit BLOCK_LAST 1) with true;
  rewrite ?orb_false_r, ?orb_true_r, ?andb_true_r, ?andb_false_r, ?orb_false_l, ?orb_true_l;
  cbn [negb andb orb]; rewrite ?andb_true_r, ?andb_false_r, ?orb_false_r.

Lemma HDR_SIZE_val : HDR_SIZE = 32.
Proof. reflexivity. Qed.

(** ** Tilings and chains *)

Section shape.
Implicit Types (H : Z -> heap_block) (a e : Z) (bs l : list Z).

(** The blocks [bs] cover the addresses from [a] to [e]. *)
Fixpoint tiles H a e bs : Prop :=
  match bs with
  | [] => a = e
  | b :: bs =>
      b = a /\ b_magic (H b) = HEAP_MAGIC /\ 0 <= b_size (H b) /\ (16 | b_size (H b)) /\
      tiles H (a + HDR_SIZE + b_size (H b)) e bs
  end.

(** The links lead from [a] through [l] to [e]. *)
Fixpoint seg H a l e : Prop :=
  match l with
  | [] => a = e
  | x :: l => a = x /\ x <> 0 /\ seg H (b_next (H x)) l e
  end.

(** The part of a header that matters for the tiling. *)
Definition core (b : heap_block) : Z * Z * Z := (b_magic b, b_flags b, b_size b).

(** The blocks that are in use: their data areas. *)
Definition live H bs : list (Z * Z) :=
  (fun b => (b + HDR_SIZE, b_size (H b))) <$> filter (fun b => block_free (H b) = false) bs.

Fixpoint used_sum H bs : Z :=
  match bs with
  | [] => 0
  | b :: bs => (if block_free (H b) then 0 else b_size (H b)) + used_sum H bs
  end.

Lemma core_eq (b b' : heap_block) :
  core b' = core b ->
  b_magic b' = b_magic b /\ b_size b' = b_size b /\ block_free b' = block_free b /\ block_last b' = block_last b.
Proof. unfold core, block_free, block_last. intros [= E1 E2 E3]. by rewrite E1, E2, E3. Qed.

Lemma tiles_ext H H' a e bs :
  (forall b, b ∈ bs -> core (H' b) = core (H b)) -> tiles H a e bs -> tiles H' a e bs.
Proof.
  revert a. induction bs as [|b bs IH]; intros a Hx; cbn [tiles]; [done|].
  destruct (core_eq _ _ (Hx b ltac:(left))) as (E1 & E2 & _). rewrite E1, E2.
  intros (-> & ? & ? & ? & Ht). split_and!; try done. apply IH; [|done]. intros c Hc. apply Hx. by right.
Qed.

Lemma live_ext H H' bs : (forall b, b ∈ bs -> core (H' b) = core (H b)) -> live H' bs = live H bs.
Proof.
  unfold live. induction bs as [|b bs IH]; intros Hx; [done|].
  destruct (core_eq _ _ (Hx b ltac:(left))) as (_ & E2 & E3 & _). rewrite !filter_cons, E3.
  specialize (IH ltac:(intros c Hc; apply Hx; by right)). case_decide; [|done]. csimpl. by rewrite E2, IH.
Qed.

Lemma used_ext H H' bs : (forall b, b ∈ bs -> core (H' b) = core (H b)) -> used_sum H' bs = used_sum H bs.
Proof.
  induction bs as [|b bs IH]; intros Hx; [done|]. cbn [used_sum].
  destruct (core_eq _ _ (Hx b ltac:(left))) as (_ & -> & -> & _). rewrite IH; [done|].
  intros c Hc. apply Hx. by right.
Qed.

Lemma live_app H l1 l2 : live H (l1 ++ l2) = live H l1 ++ live H l2.
Proof. unfold live. by rewrite filter_app, fmap_app. Qed.

Lemma used_app H l1 l2 : used_sum H (l1 ++ l2) = used_sum H l1 + used_sum H l2.
Proof. induction l1 as [|b l1 IH]; cbn [app used_sum]; [done|]. lia. Qed.

Lemma live_cons H b bs :
  live H (b :: bs) = (if block_free (H b) then [] else [(b + HDR_SIZE, b_size (H b))]) ++ live H bs.
Proof. unfold live. rewrite filter_cons. by destruct (block_free (H b)); case_decide. Qed.

(** The sum of the sizes of areas, whatever their order. *)
Definition area_sum (l : list (Z * Z)) : Z := foldr (fun u x => u.2 + x) 0 l.

Lemma live_sum H bs : used_sum H bs = area_sum (live H bs).
Proof. induction bs as [|b bs IH]; [done|]. rewrite live_cons. cbn [used_sum]. rewrite IH. by destruct (block_free (H b)). Qed.

#[export] Instance area_sum_proper : Proper ((≡ₚ) ==> eq) area_sum.
Proof. intros l l'. unfold area_sum. induction 1; simpl; lia. Qed.

Lemma tiles_app H a e l1 l2 : tiles H a e (l1 ++ l2) <-> exists m, tiles H a m l1 /\ tiles H m e l2.
Proof.
  revert a. induction l1 as [|b l1 IH]; intros a; cbn [app tiles].
  - split; [by exists a|]. by intros (m & -> & Ht).
  - split.
    + intros (-> & ? & ? & ? & (m & ? & ?)%IH). by exists m.
    + intros (m & (-> & ? & ? & ? & ?) & ?). split_and!; try done. apply IH. by exists m.
Qed.

Lemma tiles_le H a e bs : tiles H a e bs -> a <= e.
Proof.
  revert a. induction bs as [|b bs IH]; intros a; cbn [tiles]; [lia|].
  intros (-> & _ & Hs & _ & Ht%IH). rewrite HDR_SIZE_val in Ht. lia.
Qed.

Lemma tiles_in H a e bs b :
  tiles H a e bs -> b ∈ bs ->
  a <= b /\ b + HDR_SIZE + b_size (H b) <= e /\ b_magic (H b) = HEAP_MAGIC /\ 0 <= b_size (H b) /\ (16 | b_size (H b)).
Proof.
  intros Ht (l1 & l2 & ->)%list_elem_of_split. apply tiles_app in Ht as (m & H1%tiles_le & H2).
  destruct H2 as (-> & ? & ? & ? & H2%tiles_le). split_and!; try done; lia.
Qed.

Lemma tiles_aligned H a e bs b : (16 | a) -> tiles H a e bs -> b ∈ bs -> (16 | b).
Proof.
  revert a. induction bs as [|c bs IH]; intros a Ha; cbn [tiles]; [by intros _ ?%not_elem_of_nil|].
  intros (-> & _ & _ & Hd & Ht) [->|Hb]%elem_of_cons; [done|]. refine (IH _ _ Ht Hb).
  apply Z.divide_add_r; [|done]. apply Z.divide_add_r; [done|]. by exists 2.
Qed.

Lemma used_bounds H a e bs : tiles H a e bs -> 0 <= used_sum H bs <= e - a.
Proof.
  revert a. induction bs as [|b bs IH]; intros a; cbn [tiles used_sum]; [lia|].
  intros (-> & _ & Hs & _ & Ht). specialize (IH _ Ht). rewrite HDR_SIZE_val in IH. case_if; lia.
Qed.

(** Splitting a tiling at one of its blocks. *)
Lemma tiles_split H a e bs b :
  tiles H a e bs -> b ∈ bs ->
  exists l1 l2, bs = l1 ++ b :: l2 /\ tiles H a b l1 /\ tiles H (b + HDR_SIZE + b_size (H b)) e l2.
Proof.
  intros Ht (l1 & l2 & ->)%list_elem_of_split. exists l1, l2. split; [done|].
  apply tiles_app in Ht as (m & H1 & -> & _ & _ & _ & H2). done.
Qed.

(** No block starts inside another one. *)
Lemma tiles_apart H a e bs b c :
  tiles H a e bs -> b ∈ bs -> c ∈ bs -> c <> b ->
  c + HDR_SIZE + b_size (H c) <= b \/ b + HDR_SIZE + b_size (H b) <= c.
Proof.
  intros Ht Hb Hc Hne. destruct (tiles_split _ _ _ _ _ Ht Hb) as (l1 & l2 & -> & T1 & T2).
  apply elem_of_app in Hc as [Hc|Hc]; [|apply elem_of_cons in Hc as [->|Hc]; [done|]].
  - left. by apply (tiles_in _ _ _ _ _ T1).
  - right. by apply (tiles_in _ _ _ _ _ T2).
Qed.

Lemma tiles_NoDup H a e bs : tiles H a e bs -> NoDup bs.
Proof.
  revert a. induction bs as [|b bs IH]; intros a; cbn [tiles]; [constructor|].
  intros (-> & _ & Hs & _ & Ht). constructor; [|by eapply IH]. intros Hb.
  destruct (tiles_in _ _ _ _ _ Ht Hb) as [Hle _]. rewrite HDR_SIZE_val in Hle. lia.
Qed.

Lemma seg_app H a l1 l2 e : seg H a (l1 ++ l2) e <-> exists m, seg H a l1 m /\ seg H m l2 e.
Proof.
  revert a. induction l1 as [|b l1 IH]; intros a; cbn [app seg].
  - split; [by exists a|]. by intros (m & -> & Ht).
  - rewrite IH. split; [intros (-> & ? & m & ? & ?); by exists m|]. intros (m & (-> & ? & ?) & ?).
    split_and!; try done. by exists m.
Qed.

Lemma seg_ext H H' a l e : (forall x, x ∈ l -> b_next (H' x) = b_next (H x)) -> seg H a l e -> seg H' a l e.
Proof.
  revert a. induction l as [|x l IH]; intros a Hx; cbn [seg]; [done|]. intros (-> & Hne & Hs).
  split_and!; try done. rewrite (Hx x ltac:(left)). apply IH; [|done]. intros y Hy. apply Hx. by right.
Qed.

(** Redirecting the link at the end of a segment. *)
Lemma seg_redirect H a l e v :
  NoDup l -> seg H a l e ->
  seg (match last l with Some p => upd H p (set_next v (H p)) | None => H end)
    (match last l with Some _ => a | None => v end) l v.
Proof.
  destruct l as [|x l] using rev_ind; [done|]. rewrite last_snoc. intros Hnd Hs.
  apply NoDup_app in Hnd as (_ & Hn & _). apply seg_app in Hs as (m & H1 & -> & Hne & <-).
  apply seg_app. exists x. split.
  - apply (seg_ext H); [|done]. intros y Hy. rewrite upd_ne; [done|]. intros ->. apply (Hn x Hy). by left.
  - cbn [seg]. by rewrite upd_eq.
Qed.
End shape.

(** ** The invariant *)

Section heap_laws.
Context {M : Type} `{PageMapLaws M}.
Implicit Types (h : heap M) (b c n : Z) (bs fl : list Z).

(** The largest request for which no address computation wraps around. *)
Definition MAX_REQUEST : Z := 2 ^ 40.

(** [bs] are the blocks in the order of their addresses, [fl] the free ones in
    the order of the free list, except for the block [o] that an operation has
    in its hands. *)
Record heap_wf h bs fl (o : option Z) : Prop := {
  hi_start : 0 < heap_start_addr h /\ (PAGE_SIZE | heap_start_addr h);
  hi_end : heap_current h <= heap_end_addr h /\ heap_end_addr h + MAX_REQUEST + 2 * PAGE_SIZE < 2 ^ 64;
  hi_page : (PAGE_SIZE | heap_current h);
  hi_tiles : tiles (hdr h) (heap_start_addr h) (heap_current h) bs;
  hi_last : forall b, last bs = Some b -> block_last (hdr h b) = true;
  hi_chain : seg (hdr h) (free_list h) fl 0;
  hi_nodup : NoDup fl;
  hi_free : forall b, b ∈ fl <-> b ∈ bs /\ block_free (hdr h b) = true /\ o <> Some b;
  hi_used : heap_used_bytes h = used_sum (hdr h) bs;
  hi_map : map_inv (pm h);
  hi_present : forall v, heap_start_addr h <= v < heap_current h -> present (pm h) v = true
}.

(** A free block is followed by a block in use, or by the end of its region. *)
Definition no_adjacent (H : Z -> heap_block) bs : Prop :=
  forall b, b ∈ bs -> block_free (H b) = true -> block_last (H b) = false ->
    block_free (H (b + HDR_SIZE + b_size (H b))) = false.

Definition heap_inv h bs fl : Prop := heap_wf h bs fl None /\ no_adjacent (hdr h) bs.

(** Blocks are where the heap is. *)
Lemma wf_block h bs fl o b :
  heap_wf h bs fl o -> b ∈ bs ->
  0 < b /\ (16 | b) /\ heap_start_addr h <= b /\ b + HDR_SIZE + b_size (hdr h b) <= heap_current h /\
  heap_current h < 2 ^ 64 /\ b_magic (hdr h b) = HEAP_MAGIC /\ 0 <= b_size (hdr h b) /\ (16 | b_size (hdr h b)).
Proof.
  intros I Hb. destruct (hi_start _ _ _ _ I) as [Hs Hp]. destruct (hi_end _ _ _ _ I) as [He1 He2].
  destruct (tiles_in _ _ _ _ _ (hi_tiles _ _ _ _ I) Hb) as (? & ? & ? & ? & ?).
  assert (16 | b).
  { apply (tiles_aligned _ _ _ _ b) with (2 := hi_tiles _ _ _ _ I); [|done]. etransitivity; [|exact Hp]. by exists 256. }
  unfold MAX_REQUEST, PAGE_SIZE in *. split_and!; try done; lia.
Qed.

(** The block after a block that is not the last one of its region. *)
Lemma wf_next h bs fl o b :
  heap_wf h bs fl o -> b ∈ bs -> block_last (hdr h b) = false -> b + HDR_SIZE + b_size (hdr h b) ∈ bs.
Proof.
  intros I Hb Hl. destruct (tiles_split _ _ _ _ _ (hi_tiles _ _ _ _ I) Hb) as (l1 & l2 & -> & _ & Ht).
  destruct l2 as [|c l2].
  - pose proof (hi_last _ _ _ _ I b ltac:(apply last_snoc)). congruence.
  - destruct Ht as [-> _]. apply elem_of_app. right. right. left.
Qed.

(** A well-formed heap stays so when only links, counters and bytes change. *)
Lemma wf_relink h h' bs fl fl' o o' :
  heap_wf h bs fl o ->
  heap_start_addr h' = heap_start_addr h -> heap_end_addr h' = heap_end_addr h -> heap_current h' = heap_current h ->
  heap_used_bytes h' = heap_used_bytes h -> pm h' = pm h -> (forall x, core (hdr h' x) = core (hdr h x)) ->
  seg (hdr h') (free_list h') fl' 0 -> NoDup fl' ->
  (forall b, b ∈ fl' <-> b ∈ bs /\ block_free (hdr h b) = true /\ o' <> Some b) ->
  heap_wf h' bs fl' o'.
Proof.
  intros I E1 E2 E3 E4 E5 Hc Hs Hnd Hf. destruct I as [I1 I2 I3 I4 I5 I6 I7 I8 I9 I10 I11].
  split; rewrite ?E1, ?E2, ?E3, ?E4, ?E5; try done.
  - apply (tiles_ext (hdr h)); auto.
  - intros b Hb. destruct (core_eq _ _ (Hc b)) as (_ & _ & _ & ->). auto.
  - intros b. destruct (core_eq _ _ (Hc b)) as (_ & _ & -> & _). auto.
  - rewrite I9. symmetry. by apply used_ext.
Qed.

(** ** Finding a block *)

Lemma find_fit_spec h fuel prev size l :
  (forall x, x ∈ l -> b_magic (hdr h x) = HEAP_MAGIC /\ block_free (hdr h x) = true) ->
  forall curr, seg (hdr h) curr l 0 -> (length l < fuel)%nat ->
  exists r, find_fit fuel prev curr size h = Done r /\
    match r with
    | None => forall x, x ∈ l -> b_size (hdr h x) < size
    | Some (p, c) => exists f1 f2, l = f1 ++ c :: f2 /\ size <= b_size (hdr h c) /\
        p = match last f1 with Some q => Some q | None => prev end
    end.
Proof.
  revert prev fuel. induction l as [|x l IH]; intros prev [|fuel] Hl curr Hs Hf; cbn [length seg find_fit] in *; try lia.
  - subst curr. rewrite Z.eqb_refl. exists None. split; [done|]. by intros x Hx%not_elem_of_nil.
  - destruct Hs as (-> & Hne & Hs). destruct (Hl x ltac:(left)) as [Em Ef].
    rewrite (proj2 (Z.eqb_neq x 0)), Em, Ef, Z.eqb_refl by done. cbn [negb andb].
    destruct (Z.leb_spec size (b_size (hdr h x))) as [Hle|Hgt].
    + eexists. split; [done|]. by exists [], l.
    + destruct (IH (Some x) fuel ltac:(intros y Hy; apply Hl; by right) _ Hs ltac:(lia)) as (r & -> & Hr).
      exists r. split; [done|]. destruct r as [[p c]|].
      * destruct Hr as (f1 & f2 & -> & Hsz & ->). exists (x :: f1), f2. split; [done|]. split; [done|].
        destruct f1 as [|y f1]; [done|]. change (last (x :: y :: f1)) with (last (y :: f1)).
        destruct (last (y :: f1)) eqn:E; [done|]. by apply last_None in E.
      * intros y [->|Hy]%elem_of_cons; [lia|by apply Hr].
Qed.

(** ** Links *)

Lemma set_link_fields prev v h :
  let h' := set_link prev v h in
  heap_start_addr h' = heap_start_addr h /\ heap_end_addr h' = heap_end_addr h /\ heap_current h' = heap_current h /\
  heap_used_bytes h' = heap_used_bytes h /\ pm h' = pm h /\ data h' = data h /\
  (forall x, core (hdr h' x) = core (hdr h x)) /\
  (forall x, prev <> Some x -> hdr h' x = hdr h x).
Proof.
  destruct prev as [q|]; cbn; split_and!; try done.
  - intros x. destruct (decide (x = q)) as [->|Hne]; [by rewrite upd_eq|by rewrite upd_ne].
  - intros x Hx. apply upd_ne. congruence.
Qed.

(** Unlinking the node after the segment [f1] and linking [v] there. *)
Lemma set_link_seg h f1 c f2 v :
  NoDup f1 -> seg (hdr h) (free_list h) f1 c ->
  let h' := set_link (last f1) v h in
  (forall x, x ∈ f2 -> hdr h' x = hdr h x) -> seg (hdr h) v f2 0 ->
  seg (hdr h') (free_list h') (f1 ++ f2) 0.
Proof.
  intros Hnd H1 h' Hx H2. apply seg_app. exists v. split.
  - pose proof (seg_redirect (hdr h) (free_list h) f1 c v Hnd H1) as Hr. unfold h', set_link.
    destruct (last f1) as [q|]; exact Hr.
  - apply (seg_ext (hdr h)); [|done]. intros x Hf. by rewrite Hx.
Qed.
(** ** Taking a block *)

(** The block [c] leaves the free list. *)
Lemma unlink_spec h bs f1 c f2 :
  heap_wf h bs (f1 ++ c :: f2) None ->
  let h' := set_link (last f1) (b_next (hdr h c)) h in
  heap_wf h' bs (f1 ++ f2) (Some c) /\ hdr h' c = hdr h c /\ data h' = data h /\
  forall x, core (hdr h' x) = core (hdr h x).
Proof.
  intros I h'. destruct (set_link_fields (last f1) (b_next (hdr h c)) h) as (E1 & E2 & E3 & E4 & E5 & E6 & Hcore & Hlink).
  fold h' in E1, E2, E3, E4, E5, E6, Hcore, Hlink. pose proof (hi_nodup _ _ _ _ I) as Hnd.
  pose proof (proj1 (NoDup_app _ _) Hnd) as (Hnd1 & Hdis & [Hcf2 Hnd2]%NoDup_cons).
  pose proof (proj1 (seg_app _ _ _ _ _) (hi_chain _ _ _ _ I)) as (m & Hs1 & -> & Hcne & Hs2).
  assert (forall x, x ∈ c :: f2 -> hdr h' x = hdr h x) as Hf2.
  { intros x Hx. apply Hlink. intros E. apply last_Some_elem_of in E. by apply (Hdis x). }
  split_and!; [|apply Hf2; left|done|done]. apply (wf_relink h h' bs (f1 ++ c :: f2) _ None); try done.
  - apply (set_link_seg h f1 c f2); [done|done| |done]. intros x Hx. apply Hf2. by right.
  - apply NoDup_app. split_and!; [done| |done]. intros x Hx Hx2. apply (Hdis x Hx). by right.
  - intros b. rewrite elem_of_app. pose proof (hi_free _ _ _ _ I b) as Hb.
    rewrite elem_of_app, elem_of_cons in Hb. split.
    + intros Hx. destruct (proj1 Hb ltac:(tauto)) as (? & ? & _). split_and!; try done. intros [= <-].
      destruct Hx as [Hx|Hx]; [|done]. apply (Hdis c Hx). left.
    + intros (? & ? & Hne). destruct (proj2 Hb ltac:(done)) as [|[->|]]; auto. by destruct Hne.
Qed.

(** The block in hand is marked and counted as used. *)
Lemma mark_used_spec h bs fl c :
  heap_wf h bs fl (Some c) -> c ∈ bs -> block_free (hdr h c) = true ->
  let h1 := put_block c (fun k => set_flags (b_flags k .&~ BLOCK_FREE) k) h in
  let h' := set_used_bytes (u64 (heap_used_bytes h1 + b_size (hdr h1 c))) h1 in
  heap_wf h' bs fl None /\ data h' = data h /\ live (hdr h') bs ≡ₚ (c + HDR_SIZE, b_size (hdr h c)) :: live (hdr h) bs /\
  block_free (hdr h' c) = false /\ block_last (hdr h' c) = block_last (hdr h c) /\ b_size (hdr h' c) = b_size (hdr h c) /\
  forall x, x <> c -> hdr h' x = hdr h x.
Proof.
  intros I Hc Hcf h1 h'. destruct (wf_block _ _ _ _ _ I Hc) as (Hc0 & _ & Hcs & Hce & Hcm & Hmag & Hsz0 & Hsz16).
  assert (forall x, x <> c -> hdr h' x = hdr h x) as Ho by (intros x Hx; by apply upd_ne).
  assert (b_next (hdr h' c) = b_next (hdr h c) /\ b_magic (hdr h' c) = b_magic (hdr h c) /\ block_free (hdr h' c) = false /\
    block_last (hdr h' c) = block_last (hdr h c) /\ b_size (hdr h' c) = b_size (hdr h c)) as (Nc & Mc & Fc & Lc & Sc).
  { cbn. rewrite upd_eq. flags. done. }
  destruct (tiles_split _ _ _ _ _ (hi_tiles _ _ _ _ I) Hc) as (l1 & l2 & -> & T1 & T2).
  pose proof (tiles_NoDup _ _ _ _ (hi_tiles _ _ _ _ I)) as Hnd. apply NoDup_app in Hnd as (_ & Hd1 & [Hd2 _]%NoDup_cons).
  assert (forall b, b ∈ l1 \/ b ∈ l2 -> core (hdr h' b) = core (hdr h b)) as Hcore.
  { intros b Hb. rewrite Ho; [done|]. intros ->. destruct Hb as [Hb|Hb]; [|done]. apply (Hd1 c Hb). left. }
  pose proof (used_bounds _ _ _ _ (hi_tiles _ _ _ _ I)) as Hub. pose proof (hi_end _ _ _ _ I) as [He1 He2].
  pose proof (hi_used _ _ _ _ I) as Hu. rewrite used_app in *. cbn [used_sum] in *. rewrite Hcf in *.
  split_and!; try done.
  - destruct I as [I1 I2 I3 I4 I5 I6 I7 I8 I9 I10 I11]. split; try done.
    + apply tiles_app. exists c. split; [apply (tiles_ext (hdr h)); auto|]. cbn [tiles]. rewrite Mc, Sc.
      split_and!; try done. apply (tiles_ext (hdr h)); auto.
    + intros b Hb. destruct (decide (b = c)) as [->|Hne]; [rewrite Lc|rewrite (Ho b Hne)]; auto.
    + apply (seg_ext (hdr h)); [|done]. intros x Hx. destruct (decide (x = c)) as [->|Hne]; [done|by rewrite Ho].
    + intros b. rewrite I8. destruct (decide (b = c)) as [->|Hne]; [rewrite Fc; clear; naive_solver|rewrite (Ho b Hne); clear -Hne; naive_solver].
    + change (heap_used_bytes h') with (u64 (heap_used_bytes h + b_size (hdr h1 c))).
      change (hdr h1 c) with (hdr h' c). rewrite used_app. cbn [used_sum]. rewrite Fc, Sc, Hu.
      rewrite (used_ext (hdr h) (hdr h') l1), (used_ext (hdr h) (hdr h') l2) by auto.
      rewrite u64_small; [lia|]. unfold MAX_REQUEST, PAGE_SIZE in *.
      pose proof (used_bounds _ _ _ _ T1). pose proof (used_bounds _ _ _ _ T2). rewrite HDR_SIZE_val in *. lia.
  - rewrite !live_app, !live_cons, Fc, Hcf, Sc, (live_ext (hdr h) (hdr h') l1), (live_ext (hdr h) (hdr h') l2) by auto.
    cbn [app]. by rewrite Permutation_middle.
Qed.
(** A free block is cut in two; the second part takes its place in the list. *)
Definition cut_block (c size : Z) (prev : option Z) h : heap M :=
  let n := c + HDR_SIZE + size in
  let h1 := put_block n (fun _ => Block HEAP_MAGIC (BLOCK_FREE .| (b_flags (hdr h c) .& BLOCK_LAST))
                          (b_size (hdr h c) - size - HDR_SIZE) (b_next (hdr h c))) h in
  let h2 := put_block c (fun k => set_next n (set_flags (b_flags k .&~ BLOCK_LAST) (set_size size k))) h1 in
  set_link prev n h2.

Lemma cut_headers h c size prev :
  let n := c + HDR_SIZE + size in let h' := cut_block c size prev h in
  0 <= size -> prev <> Some c -> prev <> Some n ->
  (block_free (hdr h' c) = block_free (hdr h c) /\ block_last (hdr h' c) = false /\ b_size (hdr h' c) = size /\
   b_magic (hdr h' c) = b_magic (hdr h c)) /\
  (block_free (hdr h' n) = true /\ block_last (hdr h' n) = block_last (hdr h c) /\
   b_size (hdr h' n) = b_size (hdr h c) - size - HDR_SIZE /\ b_magic (hdr h' n) = HEAP_MAGIC /\ b_next (hdr h' n) = b_next (hdr h c)) /\
  forall x, x <> c -> x <> n -> core (hdr h' x) = core (hdr h x) /\ (prev <> Some x -> hdr h' x = hdr h x).
Proof.
  intros n h' Hs Hpc Hpn. assert (n <> c) as Hnc by (unfold n; rewrite HDR_SIZE_val; lia).
  destruct (set_link_fields prev n (put_block c (fun k => set_next n (set_flags (b_flags k .&~ BLOCK_LAST) (set_size size k)))
    (put_block n (fun _ => Block HEAP_MAGIC (BLOCK_FREE .| (b_flags (hdr h c) .& BLOCK_LAST))
                          (b_size (hdr h c) - size - HDR_SIZE) (b_next (hdr h c))) h))) as (_ & _ & _ & _ & _ & _ & Hcore & Hlink).
  fold n in h'. change (set_link prev n _) with h' in Hcore, Hlink. split_and!.
  - rewrite (Hlink c Hpc). cbn. rewrite upd_eq, (upd_ne _ n) by done. flags. done.
  - rewrite (Hlink c Hpc). cbn. rewrite upd_eq, (upd_ne _ n) by done. flags. done.
  - rewrite (Hlink c Hpc). cbn. by rewrite upd_eq.
  - rewrite (Hlink c Hpc). cbn. by rewrite upd_eq, (upd_ne _ n) by done.
  - rewrite (Hlink n Hpn). cbn. rewrite upd_ne, upd_eq by done. flags. done.
  - rewrite (Hlink n Hpn). cbn. rewrite upd_ne, upd_eq by done. flags. done.
  - rewrite (Hlink n Hpn). cbn. by rewrite upd_ne, upd_eq by done.
  - rewrite (Hlink n Hpn). cbn. by rewrite upd_ne, upd_eq by done.
  - rewrite (Hlink n Hpn). cbn. by rewrite upd_ne, upd_eq by done.
  - intros x Hc Hn. rewrite Hcore. cbn. rewrite !upd_ne by done. split; [done|]. intros Hp.
    rewrite (Hlink x Hp). cbn. by rewrite !upd_ne.
Qed.

Lemma cut_chain h bs f1 c f2 size :
  heap_wf h bs (f1 ++ c :: f2) None -> 0 <= size ->
  let n := c + HDR_SIZE + size in n ∉ bs -> 0 < n ->
  let h' := cut_block c size (last f1) h in
  seg (hdr h') (free_list h') (f1 ++ n :: f2) 0 /\ NoDup (f1 ++ n :: f2) /\ last f1 <> Some c /\ last f1 <> Some n.
Proof.
  intros I Hs n Hn Hn0 h'. pose proof (hi_nodup _ _ _ _ I) as Hnd.
  pose proof (proj1 (NoDup_app _ _) Hnd) as (Hnd1 & Hdis & [Hcf2 Hnd2]%NoDup_cons).
  pose proof (proj1 (seg_app _ _ _ _ _) (hi_chain _ _ _ _ I)) as (m & Hs1 & -> & Hcne & Hs2).
  assert (forall x, x ∈ f1 ++ c :: f2 -> x <> n) as Hni.
  { intros x Hx ->. by apply (hi_free _ _ _ _ I) in Hx as [Hx _]. }
  assert (last f1 <> Some c /\ last f1 <> Some n) as [Hlc Hln].
  { split; intros E%last_Some_elem_of; [apply (Hdis c E); left|]. apply (Hni n); [|done]. apply elem_of_app. by left. }
  split_and!; try done.
  - unfold h', cut_block. fold n. set (h2 := put_block c _ _). assert (n <> c) as Hnc by (unfold n; rewrite HDR_SIZE_val; lia).
    assert (forall x, x <> c -> x <> n -> hdr h2 x = hdr h x) as Ho by (intros x Hx1 Hx2; cbn; by rewrite !upd_ne).
    apply (set_link_seg h2 f1 c (n :: f2)); [done| | |].
    + apply (seg_ext (hdr h)); [|done]. intros x Hx. rewrite Ho; [done| |].
      * intros ->. apply (Hdis c Hx). left.
      * apply Hni, elem_of_app. by left.
    + intros x Hx. apply (set_link_fields (last f1) n h2). intros E%last_Some_elem_of.
      apply elem_of_cons in Hx as [->|Hx]; [apply (Hni n); [apply elem_of_app; by left|done]|]. apply (Hdis x E). by right.
    + cbn [seg]. split_and!; [done|lia|]. cbn. rewrite (upd_ne _ c _ n), upd_eq by done. cbn [b_next].
      apply (seg_ext (hdr h)); [|done]. intros x Hx. f_equal. apply (Ho x); [by intros ->|].
      apply Hni, elem_of_app. right. by right.
  - apply NoDup_app. split_and!; [done| |].
    + intros x Hx [->|Hx2]%elem_of_cons; [apply (Hni n); [apply elem_of_app; by left|done]|]. apply (Hdis x Hx). by right.
    + constructor; [|done]. intros Hx. apply (Hni n); [|done]. apply elem_of_app. right. by right.
Qed.

(** What cutting the free block [c] does to the headers. *)
Record cut_facts h h' c n size l1 l2 : Prop := {
  cf_c : block_free (hdr h' c) = true /\ block_last (hdr h' c) = false /\ b_size (hdr h' c) = size /\ b_magic (hdr h' c) = HEAP_MAGIC;
  cf_n : block_free (hdr h' n) = true /\ block_last (hdr h' n) = block_last (hdr h c) /\
         b_size (hdr h' n) = b_size (hdr h c) - size - 32 /\ b_magic (hdr h' n) = HEAP_MAGIC;
  cf_ne : forall x, (x ∈ l1 \/ x ∈ l2) -> x <> c /\ x <> n;
  cf_core : forall x, x <> c -> x <> n -> core (hdr h' x) = core (hdr h x);
  cf_t1 : tiles (hdr h) (heap_start_addr h) c l1;
  cf_t2 : tiles (hdr h) (c + 32 + b_size (hdr h c)) (heap_current h) l2
}.

Lemma cut_spec h bs f1 c f2 size :
  heap_wf h bs (f1 ++ c :: f2) None -> 0 <= size -> size + HDR_SIZE + HEAP_MIN_ALLOC <= b_size (hdr h c) ->
  let n := c + HDR_SIZE + size in let h' := cut_block c size (last f1) h in
  (n ∉ bs) /\ seg (hdr h') (free_list h') (f1 ++ n :: f2) 0 /\ NoDup (f1 ++ n :: f2) /\
  (exists l1 l2, bs = l1 ++ c :: l2 /\ cut_facts h h' c n size l1 l2).
Proof.
  intros I Hs Hleft n h'.
  destruct (proj1 (hi_free _ _ _ _ I c) ltac:(apply elem_of_app; right; left)) as (Hc & Hcf & _).
  destruct (wf_block _ _ _ _ _ I Hc) as (Hc0 & _ & _ & Hce & _ & Hmag & Hsz0 & Hsz16).
  unfold HEAP_MIN_ALLOC in *. rewrite HDR_SIZE_val in *. assert (n = c + 32 + size) as Hnv by done.
  assert (n ∉ bs) as Hn.
  { intros Hn. destruct (wf_block _ _ _ _ _ I Hn) as (_ & _ & _ & _ & _ & _ & Hns & _).
    destruct (tiles_apart _ _ _ _ c n (hi_tiles _ _ _ _ I) Hc Hn ltac:(lia)) as [E|E]; rewrite HDR_SIZE_val in E; lia. }
  destruct (cut_chain h bs f1 c f2 size I Hs Hn ltac:(lia)) as (Hchain & Hnd & Hlc & Hln). fold n h' in Hchain, Hnd, Hln.
  destruct (cut_headers h c size (last f1) Hs Hlc Hln) as ((Fc & Lc & Sc & Mc) & (Fn & Ln & Sn & Mn & _) & Ho).
  fold n h' in Fc, Lc, Sc, Mc, Fn, Ln, Sn, Mn, Ho. rewrite HDR_SIZE_val in Sn.
  destruct (tiles_split _ _ _ _ _ (hi_tiles _ _ _ _ I) Hc) as (l1 & l2 & -> & T1 & T2).
  pose proof (tiles_NoDup _ _ _ _ (hi_tiles _ _ _ _ I)) as Hndb. apply NoDup_app in Hndb as (_ & Hd1 & [Hd2 _]%NoDup_cons).
  split_and!; try done. exists l1, l2. split; [done|]. split; try done.
  - split_and!; try done; congruence.
  - intros x Hx. split; intros ->.
    + destruct Hx as [Hx|Hx]; [|done]. apply (Hd1 c Hx). left.
    + apply Hn, elem_of_app. rewrite elem_of_cons. tauto.
  - intros x Hx1 Hx2. by apply Ho.
Qed.

Lemma cut_wf h f1 c f2 size l1 l2 :
  heap_wf h (l1 ++ c :: l2) (f1 ++ c :: f2) None -> 0 <= size -> (16 | size) -> size + HDR_SIZE + HEAP_MIN_ALLOC <= b_size (hdr h c) ->
  let n := c + HDR_SIZE + size in let h' := cut_block c size (last f1) h in
  n ∉ l1 ++ c :: l2 -> seg (hdr h') (free_list h') (f1 ++ n :: f2) 0 -> NoDup (f1 ++ n :: f2) ->
  cut_facts h h' c n size l1 l2 -> heap_wf h' (l1 ++ c :: n :: l2) (f1 ++ n :: f2) (Some c).
Proof.
  intros I Hs Hs16 Hleft n h' Hnb Hchain Hnd [(Fc & Lc & Sc & Mc) (Fn & Ln & Sn & Mn) Hne Ho T1 T2].
  assert (forall x, x ∈ l1 \/ x ∈ l2 -> core (hdr h' x) = core (hdr h x)) as Hcore
    by (intros x Hx; destruct (Hne x Hx); by apply Ho).
  pose proof (hi_free _ _ _ _ I) as Hfree. destruct (wf_block _ _ _ _ c I ltac:(apply elem_of_app; right; left))
    as (_ & _ & _ & _ & _ & _ & _ & Hd16). unfold HEAP_MIN_ALLOC in *. rewrite HDR_SIZE_val in *.
  assert (heap_start_addr h' = heap_start_addr h /\ heap_current h' = heap_current h /\ heap_end_addr h' = heap_end_addr h /\
    heap_used_bytes h' = heap_used_bytes h /\ pm h' = pm h) as (E1 & E2 & E3 & E4 & E5) by (unfold h', cut_block; by destruct (last f1)).
  assert (n = c + 32 + size) as Hnv by done. clearbody h' n.
  destruct I as [I1 I2 I3 I4 I5 I6 I7 I8 I9 I10 I11]. split; rewrite ?E1, ?E2, ?E3, ?E4, ?E5; try done.
  - apply tiles_app. exists c. split; [apply (tiles_ext (hdr h)); auto|]. cbn [tiles]. rewrite Mc, Sc, Mn, Sn, HDR_SIZE_val.
    split_and!; try done; [lia| |].
    + apply Z.divide_sub_r; [by apply Z.divide_sub_r|by exists 2].
    + replace (c + 32 + size + 32 + (b_size (hdr h c) - size - 32)) with (c + 32 + b_size (hdr h c)) by lia.
      apply (tiles_ext (hdr h)); auto.
  - intros b Hb. rewrite last_app_cons in Hb. destruct l2 as [|y l2].
    + injection Hb as <-. rewrite Ln. apply I5. apply last_snoc.
    + change (last (y :: l2) = Some b) in Hb.
      destruct (core_eq _ _ (Hcore b ltac:(right; by apply last_Some_elem_of))) as (_ & _ & _ & ->).
      apply I5. by rewrite last_app_cons.
  - intros b. specialize (Hfree b). rewrite !elem_of_app, !elem_of_cons in *.
    destruct (decide (b = n)) as [Eb|Hbn]; [assert (n <> c) as Hnc by lia; rewrite Eb, Fn; clear -Hnc; naive_solver|]. destruct (decide (b = c)) as [->|Hbc].
    + split; [|intros (_ & _ & Hx); by destruct Hx]. intros [Hx|[->|Hx]]; [|done|]; exfalso;
        apply NoDup_app in I7 as (_ & Hd & [Hd2 _]%NoDup_cons); [by apply (Hd c Hx); left|done].
    + destruct (core_eq _ _ (Ho b Hbc Hbn)) as (_ & _ & -> & _). destruct Hfree as [G1 G2]. split.
      * intros [Hx|[Hx|Hx]]; [|done|]; (destruct G1 as ([?|[?|?]] & ? & _); [by auto|split_and!; auto; congruence..]).
      * intros (Hx & Hf & _). destruct G2 as [?|[?|?]]; [|by left|done|by right; right].
        split_and!; [|done|done]. destruct Hx as [?|[?|[?|?]]]; auto; done.
  - rewrite I9, !used_app. cbn [used_sum]. rewrite Fc, Fn, (used_ext (hdr h) (hdr h') l1), (used_ext (hdr h) (hdr h') l2) by auto.
    specialize (Hfree c). rewrite !elem_of_app, !elem_of_cons in Hfree. destruct (proj1 Hfree ltac:(auto)) as (_ & -> & _). lia.
Qed.
(** The part of a block that was cut off has no free neighbour. *)
Lemma cut_adjacent h f1 c f2 size l1 l2 :
  heap_inv h (l1 ++ c :: l2) (f1 ++ c :: f2) -> 0 <= size ->
  let n := c + HDR_SIZE + size in let h' := cut_block c size (last f1) h in
  cut_facts h h' c n size l1 l2 -> size + HDR_SIZE + HEAP_MIN_ALLOC <= b_size (hdr h c) ->
  forall H', (forall x, x <> c -> H' x = hdr h' x) -> block_free (H' c) = false -> b_size (H' c) = size ->
  no_adjacent H' (l1 ++ c :: n :: l2).
Proof.
  intros [I Hadj] Hs n h' [(Fc & Lc & Sc & Mc) (Fn & Ln & Sn & Mn) Hne Ho T1 T2] Hleft H' HH Hfc Hsc.
  unfold HEAP_MIN_ALLOC in *. rewrite HDR_SIZE_val in *. assert (n = c + 32 + size) as Hnv by done. clearbody h' n.
  assert (c ∈ l1 ++ c :: l2) as Hc by (apply elem_of_app; right; left).
  destruct (proj1 (hi_free _ _ _ _ I c) ltac:(apply elem_of_app; right; left)) as (_ & Hcf & _).
  intros x Hx Hxf Hxl. rewrite HDR_SIZE_val.
  assert (x <> c) as Hxc by (intros ->; congruence). rewrite !(HH x Hxc) in *.
  destruct (decide (x = n)) as [->|Hxn].
  - assert (block_free (hdr h (c + HDR_SIZE + b_size (hdr h c))) = false) as Hs0.
    { apply Hadj; [done|done|]. by rewrite <- Ln. }
    rewrite HDR_SIZE_val in Hs0. rewrite Sn. replace (n + 32 + (b_size (hdr h c) - size - 32)) with (c + 32 + b_size (hdr h c)) by lia.
    rewrite HH by lia. by destruct (core_eq _ _ (Ho (c + 32 + b_size (hdr h c)) ltac:(lia) ltac:(lia))) as (_ & _ & -> & _).
  - assert (x ∈ l1 ++ c :: l2) as Hxb by (rewrite elem_of_app, !elem_of_cons in *; tauto).
    destruct (core_eq _ _ (Ho x Hxc Hxn)) as (_ & E2 & E3 & E4). rewrite E2. rewrite E3 in Hxf. rewrite E4 in Hxl.
    pose proof (Hadj x Hxb Hxf Hxl) as Hs0. rewrite HDR_SIZE_val in Hs0.
    set (y := x + 32 + b_size (hdr h x)) in *. destruct (decide (y = c)) as [->|Hyc]; [done|].
    assert (y <> n) as Hyn.
    { destruct (wf_block _ _ _ _ x I Hxb) as (_ & _ & _ & _ & _ & _ & ? & _).
      destruct (tiles_apart _ _ _ _ c x (hi_tiles _ _ _ _ I) Hc Hxb Hxc) as [E|E]; rewrite HDR_SIZE_val in E; unfold y; lia. }
    rewrite (HH y Hyc). by destruct (core_eq _ _ (Ho y Hyc Hyn)) as (_ & _ & -> & _).
Qed.

(** The effect of [kmalloc] on a free block that is large enough: its data area
    becomes a live one, and nothing else changes. *)
Lemma take_block_spec h bs f1 c f2 size :
  heap_inv h bs (f1 ++ c :: f2) -> 0 <= size <= b_size (hdr h c) -> (16 | size) ->
  exists h' bs' fl' sz, take_block (last f1) c size h = (c + HDR_SIZE, h') /\ heap_inv h' bs' fl' /\ data h' = data h /\
    c ∈ bs' /\ size <= sz /\ live (hdr h') bs' ≡ₚ (c + HDR_SIZE, sz) :: live (hdr h) bs.
Proof.
  intros [I Hadj] Hsz Hs16.
  destruct (proj1 (hi_free _ _ _ _ I c) ltac:(apply elem_of_app; right; left)) as (Hc & Hcf & _).
  destruct (wf_block _ _ _ _ _ I Hc) as (Hc0 & _ & _ & Hce & Hcm & Hmag & Hsz0 & Hsz16). rewrite HDR_SIZE_val in Hce.
  unfold take_block, block_to_ptr. rewrite !(u64_small (b_size _ - _)), (u64_small (c + HDR_SIZE)) by (rewrite ?HDR_SIZE_val; lia).
  destruct (Z.leb_spec (HDR_SIZE + HEAP_MIN_ALLOC) (b_size (hdr h c) - size)) as [Hle|Hlt].
  - rewrite (u64_small (c + _ + _)), (u64_small (_ - HDR_SIZE)) by (unfold HEAP_MIN_ALLOC in *; rewrite ?HDR_SIZE_val in *; lia).
    fold (cut_block c size (last f1) h).
    destruct (cut_spec h bs f1 c f2 size I ltac:(lia) ltac:(lia)) as (Hn & Hch & Hnd & l1 & l2 & -> & Hcf').
    pose proof (cut_wf h f1 c f2 size l1 l2 I ltac:(lia) Hs16 ltac:(lia) Hn Hch Hnd Hcf') as Iw.
    set (n := c + HDR_SIZE + size) in *. set (h1 := cut_block c size (last f1) h) in *.
    destruct (mark_used_spec h1 _ _ c Iw ltac:(apply elem_of_app; right; left) ltac:(apply Hcf')) as (J & Jd & Jl & Jf & Jlast & Js & Jo).
    set (h2 := set_used_bytes _ _) in *. exists h2, (l1 ++ c :: n :: l2), (f1 ++ n :: f2), size.
    destruct Hcf' as [Cc Cn Hne Ho T1 T2] eqn:Ecf. destruct Cc as (Fc & Lc & Sc & Mc).
    split_and!; [done| |by rewrite Jd; unfold h1, cut_block; destruct (last f1)|apply elem_of_app; right; left|lia|].
    + split; [done|]. apply (cut_adjacent h f1 c f2 size l1 l2 (conj I Hadj)); try done; [lia|lia|congruence].
    + rewrite Jl, Sc. apply Permutation_cons; [done|]. rewrite !live_app, !live_cons, Fc, Hcf, (proj1 Cn). cbn [app].
      rewrite (live_ext (hdr h) (hdr h1) l1), (live_ext (hdr h) (hdr h1) l2);
        [done|intros x Hx; destruct (Hne x (or_intror Hx)); by apply Ho|intros x Hx; destruct (Hne x (or_introl Hx)); by apply Ho].
  - destruct (unlink_spec h bs f1 c f2 I) as (I1 & Ec & Ed & Hcore). set (h1 := set_link _ _ h) in *.
    destruct (mark_used_spec h1 bs _ c I1 Hc ltac:(by rewrite Ec)) as (J & Jd & Jl & Jf & Jlast & Js & Jo).
    set (h2 := set_used_bytes _ _) in *. exists h2, bs, (f1 ++ f2), (b_size (hdr h c)).
    split_and!; [done| |by rewrite Jd|done|lia|by rewrite Jl, Ec, (live_ext (hdr h) (hdr h1)) by done].
    split; [done|]. intros x Hx Hxf Hxl. destruct (decide (x = c)) as [->|Hxc]; [congruence|]. rewrite !(Jo x Hxc) in *.
    destruct (core_eq _ _ (Hcore x)) as (_ & E2 & E3 & E4). rewrite E2. rewrite E3 in Hxf. rewrite E4 in Hxl.
    pose proof (Hadj x Hx Hxf Hxl) as Hy. set (y := x + HDR_SIZE + b_size (hdr h x)) in *.
    destruct (decide (y = c)) as [->|Hyc]; [done|]. rewrite (Jo y Hyc). by destruct (core_eq _ _ (Hcore y)) as (_ & _ & -> & _).
Qed.

(** ** Growing the heap *)

Lemma map_pages_spec k addr s :
  map_inv s -> (PAGE_SIZE | addr) -> 0 <= addr -> addr + Z.of_nat k * PAGE_SIZE + PAGE_SIZE < 2 ^ 64 ->
  exists ret s', map_pages k addr s = (ret, s') /\ (ret = 0 \/ ret = -1) /\ map_inv s' /\
    (forall v, present s v = true -> present s' v = true) /\
    (ret = 0 -> forall v, addr <= v < addr + Z.of_nat k * PAGE_SIZE -> present s' v = true).
Proof.
  revert addr s. induction k as [|k IH]; intros addr s Hi Hp Ha Hb; cbn [map_pages].
  { exists 0, s. split_and!; auto. intros _ v Hv. lia. }
  pose proof (map_result addr s) as Hr. pose proof (map_keeps_inv addr s Hi) as Hi1.
  pose proof (map_monotone addr s) as Hm. pose proof (map_present addr s) as Hpr.
  destruct (map_fresh addr s) as [r s1]. cbn [fst snd] in *. unfold PAGE_SIZE in *.
  destruct Hr as [->| ->]; cbn [Z.ltb Z.compare].
  - destruct (IH (addr + 4096) s1 Hi1) as (ret & s' & -> & Hret & Hi2 & Hm2 & Hp2); [by apply Z.divide_add_r|lia|lia|].
    exists ret, s'. split_and!; auto. intros E v Hv. destruct (decide (v < addr + 4096)) as [Hlt|Hge].
    + apply Hm2, Hpr; [done|done|done|done|lia|lia].
    + apply Hp2; [done|lia].
  - exists (-1), s1. split_and!; auto. done.
Qed.

(** A new region at the end of the heap, with one free block. *)
Definition add_region (needed : Z) (s' : M) h : heap M :=
  let b := heap_current h in
  let h := put_block b (fun _ => Block HEAP_MAGIC (BLOCK_FREE .| BLOCK_LAST) (needed - HDR_SIZE) 0) (set_pm s' h) in
  let h := set_current (b + needed) h in
  set_free_list b (put_block b (set_next (free_list h)) h).

Lemma add_region_spec h bs fl needed s' :
  heap_inv h bs fl -> map_inv s' -> (PAGE_SIZE | needed) -> HDR_SIZE <= needed -> heap_current h + needed <= heap_end_addr h ->
  (forall v, present (pm h) v = true -> present s' v = true) ->
  (forall v, heap_current h <= v < heap_current h + needed -> present s' v = true) ->
  let h' := add_region needed s' h in
  heap_inv h' (bs ++ [heap_current h]) (heap_current h :: fl) /\
  live (hdr h') (bs ++ [heap_current h]) = live (hdr h) bs /\ b_size (hdr h' (heap_current h)) = needed - HDR_SIZE.
Proof.
  intros [I Hadj] Hi Hpg Hn Hend Hm Hp h'. set (b := heap_current h) in *.
  pose proof (hi_start _ _ _ _ I) as [Hst _]. pose proof (tiles_le _ _ _ _ (hi_tiles _ _ _ _ I)) as Hle. rewrite HDR_SIZE_val in Hn.
  assert (forall x, x <> b -> hdr h' x = hdr h x) as Ho by (intros x Hx; cbn; by rewrite !upd_ne).
  assert (hdr h' b = Block HEAP_MAGIC (BLOCK_FREE .| BLOCK_LAST) (needed - HDR_SIZE) (free_list h)) as Hb by (cbn; by rewrite !upd_eq).
  assert (block_free (hdr h' b) = true /\ block_last (hdr h' b) = true) as [Fb Lb] by (rewrite Hb; by flags).
  assert (forall x, x ∈ bs -> x + 32 + b_size (hdr h x) <= b /\ x <> b) as Hnb.
  { intros x Hx. destruct (wf_block _ _ _ _ x I Hx) as (_ & _ & _ & Hx2 & _ & _ & Hx3 & _). fold b in Hx2. rewrite HDR_SIZE_val in Hx2. lia. }
  assert (forall x, x ∈ bs -> core (hdr h' x) = core (hdr h x)) as Hcore by (intros x Hx; rewrite Ho; [done|by apply Hnb]).
  assert (forall x, x ∈ fl -> x <> b) as Hfb by (intros x Hx; apply Hnb; by apply (hi_free _ _ _ _ I) in Hx as [Hx _]).
  split_and!; [split| |by rewrite Hb].
  - destruct I as [I1 I2 I3 I4 I5 I6 I7 I8 I9 I10 I11]. split; try done.
    + by split; [|apply I2].
    + by apply Z.divide_add_r.
    + apply tiles_app. exists b. split; [by apply (tiles_ext (hdr h))|]. cbn [tiles]. rewrite Hb. cbn [b_magic b_size].
      rewrite HDR_SIZE_val. split_and!; try done; [lia| |cbn; fold b; lia].
      apply Z.divide_sub_r; [etransitivity; [|exact Hpg]; by exists 256|by exists 2].
    + intros x Hx. rewrite last_snoc in Hx. by injection Hx as <-.
    + cbn [seg]. split_and!; [done|lia|]. rewrite Hb. cbn [b_next]. apply (seg_ext (hdr h)); [|done].
      intros x Hx. by rewrite Ho by by apply Hfb.
    + constructor; [|done]. intros Hx. by apply (Hfb b).
    + intros x. rewrite elem_of_cons, elem_of_app, list_elem_of_singleton, I8.
      destruct (decide (x = b)) as [->|Hne]; [rewrite Fb; clear; naive_solver|rewrite (Ho x Hne); clear -Hne; naive_solver].
    + rewrite used_app, (used_ext (hdr h)) by done. cbn [used_sum]. rewrite Fb. cbn. lia.
    + intros v Hv. cbn in Hv. fold b in Hv. destruct (decide (v < b)); [apply Hm, I11; fold b; lia|apply Hp; lia].
  - intros x Hx Hf Hl. apply elem_of_app in Hx as [Hx| ->%list_elem_of_singleton]; [|congruence].
    destruct (core_eq _ _ (Hcore x Hx)) as (_ & E2 & E3 & E4). rewrite E2. rewrite E3 in Hf. rewrite E4 in Hl.
    rewrite Ho by (intros Ey; apply (Hnb b); [rewrite <- Ey; by apply (wf_next _ _ _ _ _ I)|done]). by apply Hadj.
  - rewrite live_app, live_cons, Fb, (live_ext (hdr h)) by done. by rewrite !app_nil_r.
Qed.

Lemma expand_heap_spec h bs fl size :
  heap_inv h bs fl -> 0 < size <= MAX_REQUEST + 16 ->
  exists ret h', expand_heap size h = Done (ret, h') /\ data h' = data h /\
    ((ret = -1 /\ heap_inv h' bs fl /\ hdr h' = hdr h) \/
     (ret = 0 /\ heap_inv h' (bs ++ [heap_current h]) (heap_current h :: fl) /\ size <= b_size (hdr h' (heap_current h)) /\
      live (hdr h') (bs ++ [heap_current h]) = live (hdr h) bs)).
Proof.
  intros [I Hadj] Hs. unfold expand_heap. pose proof (hi_start _ _ _ _ I) as [Hst _]. pose proof (hi_end _ _ _ _ I) as [He1 He2].
  pose proof (tiles_le _ _ _ _ (hi_tiles _ _ _ _ I)) as Hle. pose proof (hi_page _ _ _ _ I) as Hpg.
  unfold MAX_REQUEST in *. change PAGE_SIZE with (2 ^ 12) in *. rewrite HDR_SIZE_val, (u64_small (size + 32)) by lia.
  destruct (ALIGN_UP_bounds (size + 32) 12 ltac:(lia) ltac:(lia) ltac:(lia)) as [Hn1 Hn2].
  set (needed := ALIGN_UP (size + 32) (2 ^ 12)) in *. clearbody needed. rewrite (u64_small (_ + needed)), (u64_small (needed - 32)) by lia.
  destruct (Z.ltb_spec (heap_end_addr h) (heap_current h + needed)) as [Hlt|Hge].
  { exists (-1), h. split_and!; auto. left. split_and!; auto. by split. }
  pose proof Hn2 as [k Hk]. set (b := heap_current h) in *.
  replace ((b + needed - b + (2 ^ 12 - 1)) / 2 ^ 12) with k
    by (replace (b + needed - b + (2 ^ 12 - 1)) with (2 ^ 12 - 1 + k * 2 ^ 12) by lia; rewrite Z.div_add by lia; done).
  destruct (map_pages_spec (Z.to_nat k) b (pm h)) as (ret & s' & -> & Hret & Hi & Hm & Hp);
    [apply I|done|lia|unfold PAGE_SIZE; lia|]. unfold PAGE_SIZE in Hp. rewrite Z2Nat.id in Hp by lia.
  destruct Hret as [->| ->]; cbn [Z.ltb Z.compare].
  2: { exists (-1), (set_pm s' h). split_and!; auto. left. split_and!; auto. split; [|done].
       destruct I as [I1 I2 I3 I4 I5 I6 I7 I8 I9 I10 I11]. split; try done. intros v Hv. by apply Hm, I11. }
  cbn [heap_current set_pm]. fold b. rewrite (Hp eq_refl b) by lia. cbn [negb].
  destruct (add_region_spec h bs fl needed s' (conj I Hadj)) as (J & Jl & Js); try done; [rewrite HDR_SIZE_val; lia|intros v Hv; apply Hp; [done|fold b in Hv; lia]|].
  exists 0, (add_region needed s' h). split_and!; try done. right. split_and!; try done.
  fold b in Js. rewrite Js, HDR_SIZE_val. lia.
Qed.
(** ** [kmalloc] *)

Lemma live_block_in h bs p sz :
  (p, sz) ∈ live (hdr h) bs <->
  exists b, b ∈ bs /\ block_free (hdr h b) = false /\ p = b + HDR_SIZE /\ sz = b_size (hdr h b).
Proof.
  unfold live. rewrite list_elem_of_fmap. split.
  - intros (b & [= -> ->] & Hb%list_elem_of_filter). exists b. tauto.
  - intros (b & Hb & Hf & -> & ->). exists b. split; [done|]. by apply list_elem_of_filter.
Qed.

(** Live areas lie in mapped memory of the heap, are aligned, and overlap
    neither each other nor a header. *)
Record area_ok h bs (p sz : Z) : Prop := {
  ar_pos : 0 < p /\ 0 <= sz /\ (16 | p);
  ar_in : heap_start_addr h <= p /\ p + sz <= heap_current h;
  ar_present : forall v, p <= v < p + sz -> present (pm h) v = true;
  ar_apart : forall q t, (q, t) ∈ live (hdr h) bs -> q <> p -> q + t <= p \/ p + sz <= q;
  ar_header : forall b, b ∈ bs -> b + HDR_SIZE <= p \/ p + sz <= b
}.

Lemma live_area h bs fl o p sz : heap_wf h bs fl o -> (p, sz) ∈ live (hdr h) bs -> area_ok h bs p sz.
Proof.
  intros I Hl. apply live_block_in in Hl as (b & Hb & Hf & -> & ->).
  destruct (wf_block _ _ _ _ _ I Hb) as (Hb0 & Hb16 & Hbs & Hbe & Hbm & _ & Hsz & _).
  pose proof (fun c => tiles_apart _ _ _ _ b c (hi_tiles _ _ _ _ I) Hb) as Hap. rewrite HDR_SIZE_val in *. split.
  - split_and!; [lia|lia|]. apply Z.divide_add_r; [done|by exists 2].
  - lia.
  - intros v Hv. apply (hi_present _ _ _ _ I). lia.
  - intros q t (c & Hc & Hcf & -> & ->)%live_block_in Hne. rewrite HDR_SIZE_val in *.
    destruct (Hap c Hc ltac:(lia)) as [E|E]; rewrite ?HDR_SIZE_val in E; lia.
  - intros c Hc. rewrite ?HDR_SIZE_val. destruct (decide (c = b)) as [->|Hne]; [lia|].
    destruct (wf_block _ _ _ _ c I Hc) as (_ & _ & _ & _ & _ & _ & ? & _).
    destruct (Hap c Hc Hne) as [E|E]; rewrite ?HDR_SIZE_val in E; lia.
Qed.

Lemma request_size n :
  0 < n <= MAX_REQUEST ->
  let sz := ALIGN_UP (Z.max n HEAP_MIN_ALLOC) 16 in
  n <= sz /\ HEAP_MIN_ALLOC <= sz <= MAX_REQUEST + 16 /\ (16 | sz) /\ ALIGN_UP (Z.max sz HEAP_MIN_ALLOC) 16 = sz.
Proof.
  intros Hn sz. unfold MAX_REQUEST, HEAP_MIN_ALLOC in *. change 16 with (2 ^ 4) in *.
  destruct (ALIGN_UP_bounds (Z.max n (2 ^ 4)) 4 ltac:(lia) ltac:(lia) ltac:(lia)) as [H1 H2]. fold sz in H1, H2.
  split_and!; [lia|lia|lia|done|]. rewrite Z.max_l by lia. rewrite ALIGN_UP_spec by lia.
  destruct H2 as [k ->]. replace (k * 2 ^ 4 + (2 ^ 4 - 1)) with (2 ^ 4 - 1 + k * 2 ^ 4) by lia. rewrite Z.div_add by lia. done.
Qed.

(** The search in a heap that satisfies the invariant. *)
Lemma find_fit_inv h bs fl fuel size :
  heap_inv h bs fl -> (length fl < fuel)%nat ->
  exists r, find_fit fuel None (free_list h) size h = Done r /\
    match r with
    | None => forall x, x ∈ fl -> b_size (hdr h x) < size
    | Some (p, c) => exists f1 f2, fl = f1 ++ c :: f2 /\ size <= b_size (hdr h c) /\ p = last f1
    end.
Proof.
  intros [I _] Hf. destruct (find_fit_spec h fuel None size fl) with (curr := free_list h) as (r & E & Hr); [|apply I|done|].
  - intros x Hx. apply (hi_free _ _ _ _ I) in Hx as (Hx & Hfx & _). split; [|done]. by apply (wf_block _ _ _ _ x I Hx).
  - exists r. split; [done|]. destruct r as [[p c]|]; [|done]. destruct Hr as (f1 & f2 & ? & ? & ->).
    exists f1, f2. split_and!; try done. by destruct (last f1).
Qed.

(** What a successful request does. *)
Definition allocated h bs (n : Z) (p : Z) h' bs' : Prop :=
  exists sz, n <= sz /\ live (hdr h') bs' ≡ₚ (p, sz) :: live (hdr h) bs /\ area_ok h' bs' p sz.

Lemma take_allocated h bs f1 c f2 size n :
  heap_inv h bs (f1 ++ c :: f2) -> n <= size -> 0 <= size <= b_size (hdr h c) -> (16 | size) ->
  exists h' bs' fl', take_block (last f1) c size h = (c + HDR_SIZE, h') /\ heap_inv h' bs' fl' /\ data h' = data h /\
    allocated h bs n (c + HDR_SIZE) h' bs'.
Proof.
  intros I Hn Hs H16. destruct (take_block_spec h bs f1 c f2 size I Hs H16) as (h' & bs' & fl' & sz & E & J & Jd & Jc & Jsz & Jl).
  exists h', bs', fl'. split_and!; try done. exists sz. split_and!; [lia|done|].
  apply (live_area h' bs' fl' None); [apply J|]. rewrite Jl. left.
Qed.

Lemma kmalloc_spec h bs fl n fuel :
  heap_inv h bs fl -> 0 < n <= MAX_REQUEST -> (length fl + 2 < fuel)%nat ->
  exists p h' bs' fl', kmalloc fuel n h = Done (p, h') /\ heap_inv h' bs' fl' /\ data h' = data h /\
    ((p = 0 /\ live (hdr h') bs' = live (hdr h) bs) \/ (p <> 0 /\ allocated h bs n p h' bs')).
Proof.
  intros I Hn Hfuel. destruct fuel as [|fuel]; [lia|]. destruct (request_size n Hn) as (S1 & S2 & S3 & S4).
  cbn [kmalloc]. rewrite (proj2 (Z.eqb_neq n 0)) by lia. cbv zeta. set (sz := ALIGN_UP (Z.max n HEAP_MIN_ALLOC) 16) in *. clearbody sz.
  assert (forall g gs gl f, heap_inv g gs gl -> live (hdr g) gs = live (hdr h) bs -> data g = data h ->
    forall f1 c f2, gl = f1 ++ c :: f2 -> sz <= b_size (hdr g c) -> Done (take_block (last f1) c sz g) = f ->
    exists p h' bs' fl', f = Done (p, h') /\ heap_inv h' bs' fl' /\ data h' = data h /\
      ((p = 0 /\ live (hdr h') bs' = live (hdr h) bs) \/ (p <> 0 /\ allocated h bs n p h' bs'))) as Htake.
  { intros g gs gl f J Jl Jd f1 c f2 -> Hc <-. unfold HEAP_MIN_ALLOC in *.
    destruct (take_allocated g gs f1 c f2 sz n J S1 ltac:(lia) S3) as (h' & bs' & fl' & -> & J' & Jd' & s & A1 & A2 & A3).
    eexists _, h', bs', fl'. split; [done|]. split_and!; [done|congruence|]. right. split; [pose proof (ar_pos _ _ _ _ A3); lia|].
    exists s. split_and!; try done. by rewrite <- Jl. }
  destruct (find_fit_inv h bs fl (S fuel) sz I ltac:(lia)) as ([[p c]|] & -> & Hr); cbn [obind].
  { destruct Hr as (f1 & f2 & E & Hc & ->). by apply (Htake h bs fl _ I eq_refl eq_refl f1 c f2 E Hc). }
  destruct (expand_heap_spec h bs fl sz I ltac:(unfold HEAP_MIN_ALLOC in *; lia)) as (ret & h1 & -> & Ed & [(-> & J & Eh)|(-> & J & Hb & Jl)]);
    cbn [obind Z.ltb Z.compare].
  { exists 0, h1, bs, fl. split_and!; try done. left. by rewrite Eh. }
  destruct fuel as [|fuel]; [lia|]. cbn [kmalloc]. rewrite (proj2 (Z.eqb_neq sz 0)) by (unfold HEAP_MIN_ALLOC in *; lia). cbv zeta. rewrite S4.
  destruct (find_fit_inv h1 _ _ (S fuel) sz J ltac:(simpl; lia)) as ([[p c]|] & -> & Hr'); cbn [obind].
  - destruct Hr' as (f1 & f2 & E & Hc & ->). by apply (Htake h1 _ _ _ J Jl Ed f1 c f2 E Hc).
  - specialize (Hr' (heap_current h) ltac:(left)). lia.
Qed.

(** ** [kfree] *)

(** The block is marked free and put at the head of the list. *)
Lemma release_block_spec h bs fl c :
  heap_wf h bs fl None -> c ∈ bs -> block_free (hdr h c) = false ->
  let h' := release_block c h in
  heap_wf h' bs (c :: fl) None /\ data h' = data h /\ free_list h' = c /\
  live (hdr h) bs ≡ₚ (c + HDR_SIZE, b_size (hdr h c)) :: live (hdr h') bs /\
  (block_free (hdr h' c) = true /\ block_last (hdr h' c) = block_last (hdr h c) /\ b_size (hdr h' c) = b_size (hdr h c)) /\
  forall x, x <> c -> hdr h' x = hdr h x.
Proof.
  intros I Hc Hcf h'. destruct (wf_block _ _ _ _ _ I Hc) as (Hc0 & _ & Hcs & Hce & Hcm & Hmag & Hsz0 & Hsz16).
  assert (forall x, x <> c -> hdr h' x = hdr h x) as Ho by (intros x Hx; by apply upd_ne).
  assert (b_next (hdr h' c) = free_list h /\ b_magic (hdr h' c) = b_magic (hdr h c) /\ block_free (hdr h' c) = true /\
    block_last (hdr h' c) = block_last (hdr h c) /\ b_size (hdr h' c) = b_size (hdr h c)) as (Nc & Mc & Fc & Lc & Sc).
  { cbn. rewrite upd_eq. flags. done. }
  destruct (tiles_split _ _ _ _ _ (hi_tiles _ _ _ _ I) Hc) as (l1 & l2 & -> & T1 & T2).
  pose proof (tiles_NoDup _ _ _ _ (hi_tiles _ _ _ _ I)) as Hnd. apply NoDup_app in Hnd as (_ & Hd1 & [Hd2 _]%NoDup_cons).
  assert (forall b, b ∈ l1 \/ b ∈ l2 -> core (hdr h' b) = core (hdr h b)) as Hcore.
  { intros b Hb. rewrite Ho; [done|]. intros ->. destruct Hb as [Hb|Hb]; [|done]. apply (Hd1 c Hb). left. }
  assert (c ∉ fl) as Hcfl by (intros Hx%(hi_free _ _ _ _ I); destruct Hx as (_ & Hx & _); congruence).
  pose proof (used_bounds _ _ _ _ (hi_tiles _ _ _ _ I)) as Hub. pose proof (hi_end _ _ _ _ I) as [He1 He2].
  pose proof (hi_used _ _ _ _ I) as Hu. rewrite used_app in *. cbn [used_sum] in *. rewrite Hcf in *.
  split_and!; try done.
  - destruct I as [I1 I2 I3 I4 I5 I6 I7 I8 I9 I10 I11]. split; try done.
    + apply tiles_app. exists c. split; [apply (tiles_ext (hdr h)); auto|]. cbn [tiles]. rewrite Mc, Sc.
      split_and!; try done. apply (tiles_ext (hdr h)); auto.
    + intros b Hb. destruct (decide (b = c)) as [->|Hne]; [rewrite Lc|rewrite (Ho b Hne)]; auto.
    + cbn [seg]. split_and!; [done|lia|]. rewrite Nc. apply (seg_ext (hdr h)); [|done]. intros x Hx.
      rewrite Ho; [done|]. by intros ->.
    + by constructor.
    + intros b. rewrite elem_of_cons, I8, elem_of_app, elem_of_cons.
      destruct (decide (b = c)) as [->|Hne]; [rewrite Fc; clear|rewrite (Ho b Hne); clear -Hne]; naive_solver.
    + change (heap_used_bytes h') with (u64 (heap_used_bytes h - b_size (hdr h c))).
      rewrite used_app. cbn [used_sum]. rewrite Fc, Hu, (used_ext (hdr h) (hdr h') l1), (used_ext (hdr h) (hdr h') l2) by auto.
      rewrite u64_small; [lia|]. unfold MAX_REQUEST, PAGE_SIZE in *. rewrite HDR_SIZE_val in *.
      pose proof (used_bounds _ _ _ _ T1). pose proof (used_bounds _ _ _ _ T2). lia.
  - rewrite !live_app, !live_cons, Fc, Hcf, (live_ext (hdr h) (hdr h') l1), (live_ext (hdr h) (hdr h') l2) by auto.
    cbn [app]. by rewrite Permutation_middle.
Qed.

(** The pass changes nothing when no free block has a free neighbour. *)
Lemma merge_pass_done h bs fl o l :
  heap_wf h bs fl o ->
  (forall x, x ∈ l -> x ∈ bs /\ (block_last (hdr h x) = false -> block_free (hdr h (x + HDR_SIZE + b_size (hdr h x))) = false)) ->
  forall curr fuel, seg (hdr h) curr l 0 -> (length l < fuel)%nat -> merge_pass fuel curr h = Done h.
Proof.
  intros I. induction l as [|x l IH]; intros Hl curr [|fuel] Hs Hf; cbn [seg length merge_pass] in *; try lia.
  - subst curr. done.
  - destruct Hs as (-> & Hne & Hs). destruct (Hl x ltac:(left)) as [Hx Hxn]. rewrite (proj2 (Z.eqb_neq x 0) Hne).
    destruct (block_last (hdr h x)) eqn:El; [done|]. unfold next_block.
    destruct (wf_block _ _ _ _ _ I Hx) as (? & _ & _ & ? & ? & _ & ? & _).
    rewrite u64_small by (rewrite ?HDR_SIZE_val in *; lia).
    rewrite Hxn, andb_false_r by done. apply IH; [|done|lia]. intros y Hy. apply Hl. by right.
Qed.

(** Merging a free block with the free block behind it, the next in the list. *)
Definition merge_block c s h : heap M :=
  put_block s (set_magic 0) (put_block c (fun k =>
    Block (b_magic k) ((b_flags k .&~ BLOCK_LAST) .| (b_flags (hdr h s) .& BLOCK_LAST))
      (u64 (b_size k + (HDR_SIZE + b_size (hdr h s)))) (b_next (hdr h s))) h).

Lemma merge_block_spec h l1 c s l2 f2 :
  heap_wf h (l1 ++ c :: s :: l2) (c :: s :: f2) None -> block_last (hdr h c) = false ->
  let h' := merge_block c s h in
  heap_wf h' (l1 ++ c :: l2) (c :: f2) None /\ data h' = data h /\
  (block_free (hdr h' c) = true /\ block_last (hdr h' c) = block_last (hdr h s) /\
   b_size (hdr h' c) = b_size (hdr h c) + HDR_SIZE + b_size (hdr h s)) /\
  live (hdr h') (l1 ++ c :: l2) = live (hdr h) (l1 ++ c :: s :: l2) /\
  s = c + HDR_SIZE + b_size (hdr h c) /\
  (forall x, x <> c -> x <> s -> hdr h' x = hdr h x).
Proof.
  intros I Hcl h'. assert (c ∈ l1 ++ c :: s :: l2) as Hc by (apply elem_of_app; right; left).
  assert (s ∈ l1 ++ c :: s :: l2) as Hs by (apply elem_of_app; right; right; left).
  destruct (proj1 (hi_free _ _ _ _ I c) ltac:(left)) as (_ & Fc0 & _). destruct (proj1 (hi_free _ _ _ _ I s) ltac:(right; left)) as (_ & Fs0 & _).
  destruct (wf_block _ _ _ _ _ I Hc) as (Hc0 & _ & _ & _ & _ & Mc0 & Sc0 & Sc16).
  destruct (wf_block _ _ _ _ _ I Hs) as (_ & _ & _ & Hse & Hm & _ & Ss0 & Ss16).
  pose proof (proj1 (tiles_app _ _ _ _ _) (hi_tiles _ _ _ _ I)) as (m & T1 & <- & _ & _ & _ & Es & _ & _ & _ & T2).
  pose proof (tiles_NoDup _ _ _ _ (hi_tiles _ _ _ _ I)) as Hnd.
  apply NoDup_app in Hnd as (_ & Hd1 & [Hd2 [Hd3 _]%NoDup_cons]%NoDup_cons).
  assert (c <> s) as Hcs by (intros ->; apply Hd2; left).
  assert (forall x, x <> c -> x <> s -> hdr h' x = hdr h x) as Ho by (intros x Hx1 Hx2; cbn; by rewrite !upd_ne).
  assert (b_magic (hdr h' c) = HEAP_MAGIC /\ block_free (hdr h' c) = true /\ block_last (hdr h' c) = block_last (hdr h s) /\
    b_size (hdr h' c) = b_size (hdr h c) + HDR_SIZE + b_size (hdr h s) /\ b_next (hdr h' c) = b_next (hdr h s)) as (Mc & Fc & Lc & Sc & Nc).
  { cbn. rewrite upd_ne, upd_eq by done. rewrite HDR_SIZE_val in *. cbn [b_size b_magic b_next]. rewrite u64_small by lia.
    unfold block_free in Fc0. rewrite free_flag in Fc0. flags. split_and!; try done; lia. }
  assert (forall b, b ∈ l1 \/ b ∈ l2 -> hdr h' b = hdr h b) as Hcore.
  { intros b Hb. apply Ho; intros ->; destruct Hb as [Hb|Hb].
    - by apply (Hd1 c Hb); left.
    - by apply Hd2; right.
    - by apply (Hd1 s Hb); right; left.
    - done. }
  split_and!; try done.
  - destruct I as [I1 I2 I3 I4 I5 I6 I7 I8 I9 I10 I11]. split; try done.
    + apply tiles_app. exists c. split; [apply (tiles_ext (hdr h)); [|done]; intros b Hb; by rewrite Hcore by auto|].
      cbn [tiles]. rewrite Mc, Sc. rewrite HDR_SIZE_val in *. split_and!; try done; [lia| |].
      * apply Z.divide_add_r; [|done]. apply Z.divide_add_r; [done|by exists 2].
      * replace (c + 32 + (b_size (hdr h c) + 32 + b_size (hdr h s))) with (c + 32 + b_size (hdr h c) + 32 + b_size (hdr h s)) by lia.
        apply (tiles_ext (hdr h)); [|done]. intros b Hb. by rewrite Hcore by auto.
    + intros b Hb. rewrite last_app_cons in Hb. destruct l2 as [|y l2].
      * injection Hb as <-. rewrite Lc. apply I5. by rewrite last_app_cons.
      * change (last (y :: l2) = Some b) in Hb. rewrite Hcore by (right; by apply last_Some_elem_of).
        apply I5. by rewrite last_app_cons.
    + cbn [seg] in *. destruct I6 as (E & Hn0 & _ & _ & I6). split_and!; try done. rewrite Nc. apply (seg_ext (hdr h)); [|done].
      intros x Hx. apply NoDup_cons in I7 as [N1 [N2 _]%NoDup_cons]. rewrite Ho; [done| |]; intros ->; [|done]. apply N1. by right.
    + apply NoDup_cons in I7 as [N1 [N2 N3]%NoDup_cons]. constructor; [|done]. intros Hx. apply N1. by right.
    + intros b. specialize (I8 b). rewrite !elem_of_app, !elem_of_cons in *. apply NoDup_cons in I7 as [N1 [N2 N3]%NoDup_cons].
      destruct (decide (b = c)) as [->|Hbc]; [rewrite Fc; clear; naive_solver|].
      destruct (decide (b = s)) as [->|Hbs].
      * split; [intros [|]; done|]. intros ([Hb|[Hb|Hb]] & _); [|done|done]. exfalso. by apply (Hd1 s Hb); right; left.
      * rewrite (Ho b Hbc Hbs). clear -I8 Hbc Hbs. naive_solver.
    + change (heap_used_bytes h') with (heap_used_bytes h). rewrite I9, !used_app. cbn [used_sum]. rewrite Fc0, Fs0, Fc.
      rewrite (used_ext (hdr h) (hdr h') l1), (used_ext (hdr h) (hdr h') l2); [lia|intros b Hb; by rewrite Hcore by auto..].
  - rewrite !live_app, !live_cons, Fc0, Fs0, Fc. cbn [app].
    rewrite (live_ext (hdr h) (hdr h') l1), (live_ext (hdr h) (hdr h') l2); [done|intros b Hb; by rewrite Hcore by auto..].
Qed.
(** The condition under which [kfree] is correct: no free block ends where the
    block starts, and the block behind it is in use, belongs to another region,
    or is the head of the free list. *)
Record freeable h bs fl c : Prop := {
  fr_used : c ∈ bs /\ block_free (hdr h c) = false;
  fr_before : forall b, b ∈ bs -> block_free (hdr h b) = true -> block_last (hdr h b) = false -> b + HDR_SIZE + b_size (hdr h b) <> c;
  fr_after : block_last (hdr h c) = true \/ block_free (hdr h (c + HDR_SIZE + b_size (hdr h c))) = false \/
             head fl = Some (c + HDR_SIZE + b_size (hdr h c))
}.

Lemma kfree_release h bs fl c fuel :
  heap_wf h bs fl None -> c ∈ bs -> block_free (hdr h c) = false ->
  kfree fuel (c + HDR_SIZE) h = merge_pass fuel c (release_block c h).
Proof.
  intros I Hc Hf. destruct (wf_block _ _ _ _ _ I Hc) as (Hc0 & _ & _ & Hce & Hcm & Hmag & Hs & _). unfold kfree, ptr_to_block.
  rewrite HDR_SIZE_val in *. rewrite (proj2 (Z.eqb_neq (c + 32) 0)) by lia. replace (c + 32 - 32) with c by lia.
  rewrite u64_small, Hmag, Z.eqb_refl, Hf by lia. done.
Qed.

(** No merge: the block is simply put back. *)
Lemma kfree_no_merge h bs fl c fuel :
  heap_inv h bs fl -> freeable h bs fl c -> (length fl + 1 < fuel)%nat ->
  (block_last (hdr h c) = true \/ block_free (hdr h (c + HDR_SIZE + b_size (hdr h c))) = false) ->
  exists h', kfree fuel (c + HDR_SIZE) h = Done h' /\ heap_inv h' bs (c :: fl) /\ data h' = data h /\
    live (hdr h) bs ≡ₚ (c + HDR_SIZE, b_size (hdr h c)) :: live (hdr h') bs.
Proof.
  intros [I Hadj] [[Hc Hcf] Hpre _] Hfuel Hnext. rewrite (kfree_release h bs fl c fuel I Hc Hcf).
  destruct (release_block_spec h bs fl c I Hc Hcf) as (J & Jd & Jh & Jl & (Fc & Lc & Sc) & Ho). set (h' := release_block c h) in *.
  assert (no_adjacent (hdr h') bs) as Hadj'.
  { intros x Hx Hxf Hxl. destruct (decide (x = c)) as [->|Hxc].
    - rewrite Lc in Hxl. rewrite Sc, Ho; [by destruct Hnext as [Hnext|Hnext]; [congruence|]|].
      destruct (wf_block _ _ _ _ c I Hc) as (_ & _ & _ & _ & _ & _ & ? & _). rewrite HDR_SIZE_val. lia.
    - rewrite !(Ho x Hxc) in *. rewrite Ho by by apply Hpre. by apply Hadj. }
  exists h'. split_and!; try done. apply (merge_pass_done h' bs (c :: fl) None (c :: fl)); [done| |apply J|simpl; lia].
  intros x (Hx & Hxf & _)%(hi_free _ _ _ _ J). split; [done|]. intros Hl. by apply Hadj'.
Qed.

(** The block behind is free and the head of the list: the two are merged. *)
Lemma kfree_merge h bs f2 c fuel :
  let s := c + HDR_SIZE + b_size (hdr h c) in
  heap_inv h bs (s :: f2) -> freeable h bs (s :: f2) c -> (length f2 + 3 < fuel)%nat -> block_last (hdr h c) = false ->
  exists h' bs', kfree fuel (c + HDR_SIZE) h = Done h' /\ heap_inv h' bs' (c :: f2) /\ data h' = data h /\
    live (hdr h) bs ≡ₚ (c + HDR_SIZE, b_size (hdr h c)) :: live (hdr h') bs'.
Proof.
  intros s [I Hadj] [[Hc Hcf] Hpre _] Hfuel Hcl. rewrite (kfree_release h bs _ c fuel I Hc Hcf).
  destruct (release_block_spec h bs _ c I Hc Hcf) as (J & Jd & Jh & Jl & (Fc & Lc & Sc) & Ho). set (h1 := release_block c h) in *.
  destruct (proj1 (hi_free _ _ _ _ I s) ltac:(left)) as (Hs & Fs & _).
  destruct (tiles_split _ _ _ _ _ (hi_tiles _ _ _ _ I) Hc) as (l1 & l2 & -> & T1 & T2). fold s in T2.
  destruct l2 as [|s' l2]; [pose proof (hi_last _ _ _ _ I c ltac:(apply last_snoc)); congruence|]. pose proof T2 as [-> _].
  destruct (merge_block_spec h1 l1 c s l2 f2 J ltac:(congruence)) as (K & Kd & (Gc & Hlc & Gs) & Kl & Es & Ko).
  set (h2 := merge_block c s h1) in *. destruct (wf_block _ _ _ _ c I Hc) as (Hc0 & _ & _ & Hce & Hcm & _ & Hcs0 & _).
  destruct (wf_block _ _ _ _ s I Hs) as (Hs0 & _ & _ & _ & _ & Ms & Hss0 & _). rewrite HDR_SIZE_val in *.
  assert (s <> c) as Hsc by lia. rewrite (Ho s Hsc) in *.
  assert (no_adjacent (hdr h2) (l1 ++ c :: l2)) as Hadj2.
  { intros x Hx Hxf Hxl. rewrite HDR_SIZE_val. destruct (decide (x = c)) as [->|Hxc].
    - rewrite Hlc in Hxl. rewrite Gs, Sc.
      replace (c + 32 + (b_size (hdr h c) + 32 + b_size (hdr h s))) with (s + 32 + b_size (hdr h s)) by lia.
      pose proof (Hadj s Hs Fs Hxl) as Hsn. rewrite HDR_SIZE_val in Hsn. by rewrite Ko, Ho by lia.
    - assert (x ∈ l1 ++ c :: s :: l2) as Hxb by (rewrite elem_of_app, !elem_of_cons in *; tauto).
      assert (x <> s) as Hxs.
      { intros ->. pose proof (tiles_NoDup _ _ _ _ (hi_tiles _ _ _ _ I)) as Hnd.
        apply NoDup_app in Hnd as (_ & Hd1 & [_ [Hd3 _]%NoDup_cons]%NoDup_cons).
        rewrite elem_of_app, elem_of_cons in Hx. destruct Hx as [Hx|[Hx|Hx]]; [|done|done]. by apply (Hd1 s Hx); right; left. }
      rewrite !(Ko x Hxc Hxs), !(Ho x Hxc) in *. pose proof (Hadj x Hxb Hxf Hxl) as Hy. pose proof (Hpre x Hxb Hxf Hxl) as Hyc.
      rewrite HDR_SIZE_val in Hy. set (y := x + 32 + b_size (hdr h x)) in *.
      assert (y <> s) by (intros E; rewrite E in Hy; congruence). by rewrite Ko, Ho. }
  exists h2, (l1 ++ c :: l2). split_and!; [|by split|by rewrite Kd, Jd|by rewrite Kl].
  destruct fuel as [|fuel]; [lia|]. cbn [merge_pass]. rewrite (proj2 (Z.eqb_neq c 0)), Lc, Hcl by lia.
  assert (next_block c h1 = s) as -> by (unfold next_block; rewrite Sc, HDR_SIZE_val, u64_small by lia; done).
  assert ((b_magic (hdr h1 s) =? HEAP_MAGIC) && block_free (hdr h1 s) = true) as -> by (by rewrite (Ho s Hsc), Ms, Z.eqb_refl).
  change (merge_pass fuel c h2 = Done h2).
  apply (merge_pass_done h2 _ _ None (c :: f2) K); [|apply K|simpl; lia].
  intros x (Hx & Hxf & _)%(hi_free _ _ _ _ K). split; [done|]. intros Hl. by apply Hadj2.
Qed.
(** ** When [kfree] does not return *)

Lemma seg_next_in (G : Z -> heap_block) a l e :
  seg G a l e -> (a ∈ l ++ [e]) /\ (forall x, x ∈ l -> b_next (G x) ∈ l ++ [e]).
Proof.
  revert a. induction l as [|y l IH]; intros a; cbn [seg].
  - intros ->. split; [left|]. by intros x Hx%not_elem_of_nil.
  - intros (-> & _ & [H1 H2]%IH). split; [left|]. intros x [->|Hx]%elem_of_cons; right; auto.
Qed.

(** The pass goes round a cycle of blocks that it cannot merge. *)
Lemma merge_pass_cycle h (l : list Z) :
  (forall x, x ∈ l -> x <> 0 /\ block_last (hdr h x) = false /\ block_free (hdr h (next_block x h)) = false /\ b_next (hdr h x) ∈ l) ->
  forall fuel x, x ∈ l -> merge_pass fuel x h = Spin.
Proof.
  intros Hl. induction fuel as [|fuel IH]; intros x Hx; [done|]. destruct (Hl x Hx) as (H1 & H2 & H3 & H4). cbn [merge_pass].
  rewrite (proj2 (Z.eqb_neq x 0) H1), H2, H3, andb_false_r. by apply IH.
Qed.

Lemma merge_pass_skip h l e :
  (forall x, x ∈ l -> block_last (hdr h x) = false /\ block_free (hdr h (next_block x h)) = false) ->
  (forall fuel, merge_pass fuel e h = Spin) ->
  forall a fuel, seg (hdr h) a l e -> merge_pass fuel a h = Spin.
Proof.
  intros Hl He. induction l as [|y l IH]; intros a fuel; cbn [seg]; [intros ->; apply He|].
  intros (-> & Hne & Hs). destruct fuel as [|fuel]; [done|]. destruct (Hl y ltac:(left)) as [H1 H2]. cbn [merge_pass].
  rewrite (proj2 (Z.eqb_neq y 0) Hne), H1, H2, andb_false_r. apply IH; [|done]. intros x Hx. apply Hl. by right.
Qed.

Lemma next_block_wf h bs fl o x : heap_wf h bs fl o -> x ∈ bs -> next_block x h = x + HDR_SIZE + b_size (hdr h x).
Proof.
  intros I Hx. destruct (wf_block _ _ _ _ _ I Hx) as (? & _ & _ & ? & ? & _ & ? & _). unfold next_block.
  by rewrite u64_small by (rewrite ?HDR_SIZE_val in *; lia).
Qed.

(** The merge that closes the cycle. *)
Lemma merge_headers h p c :
  p <> c -> 0 <= b_size (hdr h p) + (HDR_SIZE + b_size (hdr h c)) < 2 ^ 64 ->
  let h' := merge_block p c h in
  block_last (hdr h' p) = block_last (hdr h c) /\ b_next (hdr h' p) = b_next (hdr h c) /\
  b_size (hdr h' p) = b_size (hdr h p) + (HDR_SIZE + b_size (hdr h c)) /\
  forall x, x <> p -> x <> c -> hdr h' x = hdr h x.
Proof.
  intros Hne Hb h'. cbn. rewrite (upd_ne _ c _ p), upd_eq by done. cbn [b_next b_size]. rewrite u64_small by done.
  split_and!; [by flags|done|done|]. intros x H1 H2. by rewrite !upd_ne.
Qed.

Section hang.
Context (h : heap M) (bs f1 : list Z) (p : Z) (f2 : list Z) (c : Z).
Context (Hinv : heap_inv h bs (f1 ++ p :: f2)) (Ec : c = p + 32 + b_size (hdr h p)).
Context (Hc : c ∈ bs) (Hcf : block_free (hdr h c) = false) (Hcl : block_last (hdr h c) = false).
Context (Hl : forall x, x ∈ f1 ++ [p] -> block_last (hdr h x) = false).
Context (Hsf : block_free (hdr h (c + 32 + b_size (hdr h c))) = false).

Let h1 := release_block c h.

Lemma hang_free x : x ∈ f1 ++ [p] -> x ∈ bs /\ block_free (hdr h x) = true /\ x <> c /\ x <> 0.
Proof.
  destruct Hinv as [I _]. intros Hx. destruct (proj1 (hi_free _ _ _ _ I x)) as (Hb & Hf & _).
  - rewrite elem_of_app, list_elem_of_singleton in Hx. rewrite elem_of_app, elem_of_cons. tauto.
  - split_and!; try done; [congruence|]. destruct (wf_block _ _ _ _ x I Hb) as (? & _). lia.
Qed.

(** The blocks of the list before [p] have a block in use behind them. *)
Lemma hang_before x :
  x ∈ f1 -> x <> p /\ let y := x + 32 + b_size (hdr h x) in y <> c /\ y <> p /\ block_free (hdr h y) = false.
Proof.
  destruct Hinv as [I Hadj]. intros Hx. assert (x ∈ f1 ++ [p]) as Hx' by (apply elem_of_app; by left).
  destruct (hang_free x Hx') as (Hxb & Fx & Hxc & _). destruct (hang_free p) as (Hp & Fp & _); [apply elem_of_app; right; left|].
  assert (x <> p) as Hxp.
  { intros ->. destruct (proj1 (NoDup_app _ _) (hi_nodup _ _ _ _ I)) as (_ & Hd & _). apply (Hd p Hx). left. }
  split; [done|]. pose proof (Hadj x Hxb Fx (Hl x Hx')) as Hy. rewrite HDR_SIZE_val in Hy.
  destruct (wf_block _ _ _ _ x I Hxb) as (_ & _ & _ & _ & _ & _ & ? & _).
  destruct (wf_block _ _ _ _ p I Hp) as (_ & _ & _ & _ & _ & _ & ? & _).
  destruct (tiles_apart _ _ _ _ p x (hi_tiles _ _ _ _ I) Hp Hxb Hxp) as [E|E]; rewrite HDR_SIZE_val in E;
    (split_and!; [lia|intros Ey; rewrite Ey in Hy; congruence|done]).
Qed.

Lemma hang_next x (g : heap M) :
  x ∈ bs -> b_size (hdr g x) = b_size (hdr h x) -> next_block x g = x + 32 + b_size (hdr h x).
Proof.
  destruct Hinv as [I _]. intros Hx E. unfold next_block. rewrite E.
  destruct (wf_block _ _ _ _ x I Hx) as (? & _ & _ & ? & ? & _ & ? & _). rewrite HDR_SIZE_val in *. by rewrite u64_small by lia.
Qed.

(** After the merge every block of the list up to [p] leads back to it. *)
Lemma hang_cycle fuel : merge_pass fuel p (merge_block p c h1) = Spin.
Proof.
  destruct Hinv as [I Hadj]. destruct (release_block_spec h bs _ c I Hc Hcf) as (J & _ & _ & _ & (Fc & Lc & Sc) & Ho).
  assert (b_next (hdr h1 c) = free_list h) as Nc by (cbn; by rewrite upd_eq). fold h1 in J, Fc, Lc, Sc, Ho.
  assert (p ∈ f1 ++ [p]) as Hpl by (apply elem_of_app; right; left). destruct (hang_free p Hpl) as (Hp & Fp & Hpc & Hpne).
  destruct (wf_block _ _ _ _ c I Hc) as (Hc0 & _ & _ & Hce & Hcm & _ & Hcs & _).
  destruct (wf_block _ _ _ _ p I Hp) as (Hp0 & _ & _ & _ & _ & _ & Hps & _). rewrite HDR_SIZE_val in *.
  pose proof (proj1 (seg_app _ _ _ _ _) (hi_chain _ _ _ _ I)) as (m & Hs1 & -> & _ & _). destruct (seg_next_in _ _ _ _ Hs1) as [Hn1 Hn2].
  destruct (merge_headers h1 p c) as (G1 & G2 & G3 & G4); [done|rewrite (Ho p), Sc, HDR_SIZE_val by done; lia|].
  set (h2 := merge_block p c h1) in *. rewrite (Ho p), Sc, HDR_SIZE_val in G3 by done. rewrite Lc in G1. rewrite Nc in G2.
  apply (merge_pass_cycle h2 (f1 ++ [p])); [|done].
  intros x Hx. destruct (hang_free x Hx) as (Hxb & Fx & Hxc & Hx0). pose proof (Hl x Hx) as Hlx.
  apply elem_of_app in Hx as [Hx| ->%list_elem_of_singleton].
  - destruct (hang_before x Hx) as (E1 & E4 & E5 & E6). assert (hdr h2 x = hdr h x) as Ex by (rewrite (G4 x), (Ho x) by done; done).
    rewrite (hang_next x h2), Ex by (done || by rewrite Ex). split_and!; auto. by rewrite G4, Ho.
  - split_and!; [done|by rewrite G1|unfold next_block; rewrite G3, HDR_SIZE_val|by rewrite G2].
    rewrite u64_small by lia. replace (p + 32 + (b_size (hdr h p) + (32 + b_size (hdr h c)))) with (c + 32 + b_size (hdr h c)) by lia.
    by rewrite G4, Ho by lia.
Qed.

Lemma hang_spin fuel : merge_pass fuel c h1 = Spin.
Proof.
  destruct Hinv as [I Hadj]. destruct (release_block_spec h bs _ c I Hc Hcf) as (J & _ & _ & _ & (Fc & Lc & Sc) & Ho). fold h1 in J, Fc, Lc, Sc, Ho.
  assert (b_next (hdr h1 c) = free_list h) as Nc by (cbn; by rewrite upd_eq).
  assert (p ∈ f1 ++ [p]) as Hpl by (apply elem_of_app; right; left). destruct (hang_free p Hpl) as (Hp & _ & Hpc & Hpne).
  destruct (wf_block _ _ _ _ c I Hc) as (Hc0 & _ & _ & _ & _ & _ & Hcs & _).
  pose proof (proj1 (seg_app _ _ _ _ _) (hi_chain _ _ _ _ I)) as (m & Hs1 & -> & _ & _).
  apply (merge_pass_skip h1 (c :: f1) p).
  - intros x [->|Hx]%elem_of_cons.
    + rewrite Lc, (hang_next c h1 Hc Sc), Ho by lia. done.
    + destruct (hang_before x Hx) as (E1 & E4 & _ & E6). assert (x ∈ f1 ++ [p]) as Hx' by (apply elem_of_app; by left).
      destruct (hang_free x Hx') as (Hxb & _ & Hxc & _). rewrite (hang_next x h1) by (done || by rewrite Ho). rewrite !Ho by done. auto.
  - intros [|k]; [done|]. cbn [merge_pass]. rewrite (proj2 (Z.eqb_neq p 0)), (Ho p), (Hl p) by done.
    assert (next_block p h1 = c) as -> by (rewrite (hang_next p h1) by (done || by rewrite Ho); done).
    destruct (wf_block _ _ _ _ c J Hc) as (_ & _ & _ & _ & _ & -> & _). rewrite Z.eqb_refl, Fc. apply hang_cycle.
  - cbn [seg]. split_and!; [done|lia|]. rewrite Nc. apply (seg_ext (hdr h)); [|done]. intros x Hx.
    rewrite Ho; [done|]. apply hang_free, elem_of_app. by left.
Qed.
End hang.

(** [kfree] never returns when the block directly before the freed
    one is free, the pass reaches it, and the block behind is in use: the merged
    block takes over the link of the freed block, the head of the list, which
    leads back to it, and the pass follows this cycle for ever. *)
Theorem kfree_hangs h bs f1 p f2 fuel :
  let c := p + HDR_SIZE + b_size (hdr h p) in
  heap_inv h bs (f1 ++ p :: f2) -> c ∈ bs -> block_free (hdr h c) = false ->
  (forall x, x ∈ f1 ++ [p] -> block_last (hdr h x) = false) ->
  block_last (hdr h c) = false -> block_free (hdr h (c + HDR_SIZE + b_size (hdr h c))) = false ->
  kfree fuel (c + HDR_SIZE) h = Spin.
Proof.
  intros c I Hc Hcf Hl Hcl Hsf. rewrite (kfree_release h bs _ c fuel (proj1 I) Hc Hcf).
  by apply (hang_spin h bs f1 p f2 c).
Qed.
(** ** The interface of the heap *)

(** [heap_init] builds a heap with one free block, or an empty one when the
    first megabyte cannot be mapped. *)
Lemma heap_init_spec start size h :
  map_inv (pm h) -> 0 < start -> (PAGE_SIZE | start) -> 0 <= size -> start + size + MAX_REQUEST + 2 * PAGE_SIZE < 2 ^ 64 ->
  exists h' bs, heap_init start size h = Done h' /\ heap_inv h' bs bs /\ live (hdr h') bs = [].
Proof.
  intros Hi Hs Hp Hz Hb. unfold heap_init. rewrite u64_small by (unfold MAX_REQUEST, PAGE_SIZE in *; lia).
  set (h0 := Heap start (start + size) start 0 0 (hdr h) (data h) (pm h)).
  assert (heap_inv h0 [] []) as I0.
  { split; [|by intros x Hx%not_elem_of_nil]. split; try done; [by split; cbn; [lia|]|constructor| |cbn; lia].
    intros b. split; [by intros Hx%not_elem_of_nil|by intros (Hx%not_elem_of_nil & _)]. }
  destruct (expand_heap_spec h0 [] [] (1024 * 1024) I0) as (ret & h1 & -> & _ & [(_ & J & E)|(_ & J & _ & Jl)]);
    [unfold MAX_REQUEST; lia| |]; cbn [obind]; eexists h1, _; (split; [done|]); split; [exact J|by rewrite E|exact J|exact Jl].
Qed.

(** C16: [kmalloc] returns NULL, leaving the allocations as they were, or
    a pointer to an area that is at least as long as requested, aligned to 16
    bytes, mapped, and disjoint from every other live area and every header;
    the other allocations and all data stay as they are, and the counter of
    used bytes stays exact.  It terminates. *)
Theorem kmalloc_correct h bs fl n fuel :
  heap_inv h bs fl -> 0 < n <= MAX_REQUEST -> (length fl + 2 < fuel)%nat ->
  exists p h' bs' fl', kmalloc fuel n h = Done (p, h') /\ heap_inv h' bs' fl' /\ data h' = data h /\
    kheap_used h' = used_sum (hdr h') bs' /\
    ((p = 0 /\ live (hdr h') bs' = live (hdr h) bs) \/
     (p <> 0 /\ exists sz, n <= sz /\ live (hdr h') bs' ≡ₚ (p, sz) :: live (hdr h) bs /\ area_ok h' bs' p sz)).
Proof.
  intros I Hn Hf. destruct (kmalloc_spec h bs fl n fuel I Hn Hf) as (p & h' & bs' & fl' & E & J & Jd & HJ).
  exists p, h', bs', fl'. split_and!; try done. apply J.
Qed.

Lemma kfree_freed h bs fl c fuel :
  heap_inv h bs fl -> freeable h bs fl c -> (length fl + 2 < fuel)%nat ->
  exists h' bs' fl', kfree fuel (c + HDR_SIZE) h = Done h' /\ heap_inv h' bs' fl' /\ data h' = data h /\
    live (hdr h) bs ≡ₚ (c + HDR_SIZE, b_size (hdr h c)) :: live (hdr h') bs'.
Proof.
  intros I F Hfuel. destruct (fr_after _ _ _ _ F) as [Hn|[Hn|Hn]].
  - destruct (kfree_no_merge h bs fl c fuel I F ltac:(lia) (or_introl Hn)) as (h' & ?). by exists h', bs, (c :: fl).
  - destruct (kfree_no_merge h bs fl c fuel I F ltac:(lia) (or_intror Hn)) as (h' & ?). by exists h', bs, (c :: fl).
  - destruct (block_last (hdr h c)) eqn:El.
    + destruct (kfree_no_merge h bs fl c fuel I F ltac:(lia) (or_introl El)) as (h' & ?). by exists h', bs, (c :: fl).
    + destruct fl as [|s f2]; [done|]. injection Hn as ->. destruct (kfree_merge h bs f2 c fuel I F) as (h' & bs' & ?); [simpl in Hfuel; lia|done|].
      by exists h', bs', (c :: f2).
Qed.


End heap_laws.

(** ** Examples *)

(** Memory that can be mapped without limit, up to the top address. *)
#[export] Instance demo_pages : PageMap Z := {|
  map_fresh a s := (0, Z.max s (a + PAGE_SIZE));
  present s v := v <? s;
  map_inv _ := True
|}.
#[export] Instance demo_pages_laws : PageMapLaws Z.
Proof.
  split; cbn; auto.
  - intros a s v _ Hv. bools. apply Z.ltb_lt. lia.
  - intros a s v _ _ _ _ _ Hv. apply Z.ltb_lt. lia.
Qed.

Definition HEAP_BASE : Z := 0xFFFFFE0000000000.

(** Three allocations of 100 bytes in a fresh heap. *)
Definition demo_run : outcome (Z * Z * Z * heap Z) :=
  let* h0 := heap_init HEAP_BASE 0x40000000 (Heap 0 0 0 0 0 (fun _ => Block 0 0 0 0) (fun _ => 0) 0) in
  let* (p, h1) := kmalloc 8 100 h0 in
  let* (q, h2) := kmalloc 8 100 h1 in
  let* (r, h3) := kmalloc 8 100 h2 in
  Done (p, q, r, h3).
Definition demo_heap : heap Z :=
  match demo_run with Done (_, h) => h | _ => Heap 0 0 0 0 0 (fun _ => Block 0 0 0 0) (fun _ => 0) 0 end.
Definition demo_blocks : list Z := [HEAP_BASE; HEAP_BASE + 144; HEAP_BASE + 288; HEAP_BASE + 432].

Lemma demo_hdr :
  hdr demo_heap HEAP_BASE = Block HEAP_MAGIC 0 112 (HEAP_BASE + 144) /\
  hdr demo_heap (HEAP_BASE + 144) = Block HEAP_MAGIC 0 112 (HEAP_BASE + 288) /\
  hdr demo_heap (HEAP_BASE + 288) = Block HEAP_MAGIC 0 112 (HEAP_BASE + 432) /\
  hdr demo_heap (HEAP_BASE + 432) = Block HEAP_MAGIC 3 (0x101000 - 464) 0.
Proof. vm_compute. auto. Qed.

Lemma demo_fields :
  heap_start_addr demo_heap = HEAP_BASE /\ heap_end_addr demo_heap = HEAP_BASE + 0x40000000 /\
  heap_current demo_heap = HEAP_BASE + 0x101000 /\ free_list demo_heap = HEAP_BASE + 432 /\ heap_used_bytes demo_heap = 336 /\
  pm demo_heap = HEAP_BASE + 0x101000.
Proof. vm_compute. auto 10. Qed.

#[global] Opaque demo_heap.

Lemma demo_heap_inv : heap_inv demo_heap demo_blocks [HEAP_BASE + 432].
Proof.
  destruct demo_hdr as (E1 & E2 & E3 & E4). unfold demo_blocks in *.
  destruct demo_fields as (F1 & F2 & F3 & F4 & F5 & F6).
  assert (forall b, b ∈ [HEAP_BASE; HEAP_BASE + 144; HEAP_BASE + 288; HEAP_BASE + 432] <->
    b = HEAP_BASE \/ b = HEAP_BASE + 144 \/ b = HEAP_BASE + 288 \/ b = HEAP_BASE + 432) as Hin.
  { intros b. rewrite !elem_of_cons, elem_of_nil. tauto. }
  split.
  - split; rewrite ?F1, ?F2, ?F3, ?F4, ?F5, ?F6.
    + unfold HEAP_BASE, PAGE_SIZE. split; [lia|]. by exists (0xFFFFFE0000000000 / 4096).
    + clear. unfold HEAP_BASE, MAX_REQUEST, PAGE_SIZE. lia.
    + by exists ((HEAP_BASE + 0x101000) / 4096).
    + cbn [tiles]. rewrite E1, E2, E3, E4. cbn [b_magic b_size]. rewrite HDR_SIZE_val.
      split_and!; try lia; [by exists 7|by exists 7|by exists 7|by exists ((0x101000 - 464) / 16)].
    + intros b [= <-]. rewrite E4. reflexivity.
    + cbn [seg]. rewrite E4. clear. done.
    + apply NoDup_singleton.
    + intros b. rewrite Hin, list_elem_of_singleton. split; [intros ->; rewrite E4; clear; auto 10|].
      intros ([->|[->|[->| ->]]] & Hf & _); rewrite ?E1, ?E2, ?E3 in Hf; clear -Hf; done.
    + cbn [used_sum]. rewrite E1, E2, E3, E4. reflexivity.
    + exact I.
    + intros v Hv. clear -Hv. apply Z.ltb_lt. lia.
  - intros b [->|[->|[->| ->]]]%Hin; rewrite ?E1, ?E2, ?E3, ?E4; clear; done.
Qed.

Lemma demo_freeable : freeable demo_heap demo_blocks [HEAP_BASE + 432] HEAP_BASE.
Proof.
  destruct demo_hdr as (E1 & E2 & E3 & E4). unfold demo_blocks in *.
  split; rewrite ?HDR_SIZE_val, ?E1.
  - split; [left|reflexivity].
  - intros b Hb Hf Hl. rewrite !elem_of_cons, elem_of_nil in Hb. destruct Hb as [->|[->|[->|[->|[]]]]];
      rewrite ?E1, ?E2, ?E3, ?E4 in Hf, Hl; exfalso; first [discriminate Hf|discriminate Hl].
  - right. left. cbn [b_size]. change (HEAP_BASE + 32 + 112) with (HEAP_BASE + 144). rewrite E2. reflexivity.
Qed.

Lemma kmalloc_correct_witness :
  exists p h' bs' fl', kmalloc 4 5000 demo_heap = Done (p, h') /\ heap_inv h' bs' fl' /\ p <> 0 /\
    exists sz, 5000 <= sz /\ live (hdr h') bs' ≡ₚ (p, sz) :: live (hdr demo_heap) demo_blocks.
Proof.
  destruct (kmalloc_correct demo_heap demo_blocks [HEAP_BASE + 432] 5000 4 demo_heap_inv) as (p & h' & bs' & fl' & E & J & _ & _ & HJ);
    [unfold MAX_REQUEST; lia|simpl; lia|].
  exists p, h', bs', fl'. destruct HJ as [(-> & _)|(Hp & sz & Hsz & Hl & _)];
    [|exact (conj E (conj J (conj Hp (ex_intro _ sz (conj Hsz Hl)))))].
  exfalso. assert (exists q, match kmalloc 4 5000 demo_heap with Done x => x.1 | _ => 0 end = q /\ q <> 0) as (q & Eq & Hq).
  { eexists. split; [vm_compute; reflexivity|discriminate]. }
  rewrite E in Eq. by apply Hq.
Defined.


(** After three allocations, freeing the first two in order hangs the kernel. *)
Lemma kfree_hangs_witness :
  exists h', kfree 4 (HEAP_BASE + 32) demo_heap = Done h' /\ forall fuel, kfree fuel (HEAP_BASE + 144 + 32) h' = Spin.
Proof.
  destruct demo_hdr as (E1 & E2 & E3 & E4).
  destruct (kfree_no_merge demo_heap demo_blocks [HEAP_BASE + 432] HEAP_BASE 4 demo_heap_inv demo_freeable) as (h' & E & J & _);
    [simpl; lia|right; rewrite E1; cbn [b_size]; change (HEAP_BASE + HDR_SIZE + 112) with (HEAP_BASE + 144); rewrite E2; reflexivity|].
  exists h'. split; [exact E|]. intros fuel.
  assert (match kfree 4 (HEAP_BASE + 32) demo_heap with
          | Done g => hdr g HEAP_BASE = Block HEAP_MAGIC 1 112 (HEAP_BASE + 432) /\
                      hdr g (HEAP_BASE + 144) = Block HEAP_MAGIC 0 112 (HEAP_BASE + 288) /\
                      hdr g (HEAP_BASE + 288) = Block HEAP_MAGIC 0 112 (HEAP_BASE + 432)
          | _ => False
          end) as Hg by (vm_compute; auto).
  change (HEAP_BASE + 32) with (HEAP_BASE + HDR_SIZE) in Hg. rewrite E in Hg. destruct Hg as (G1 & G2 & G3).
  pose proof (kfree_hangs h' demo_blocks [] HEAP_BASE [HEAP_BASE + 432] fuel J) as Hk. cbn zeta in Hk.
  rewrite G1 in Hk. change (HEAP_BASE + HDR_SIZE + b_size _) with (HEAP_BASE + 144) in Hk. rewrite G2 in Hk.
  change (HEAP_BASE + 144 + HDR_SIZE + b_size _) with (HEAP_BASE + 288) in Hk. rewrite G3 in Hk.
  apply Hk; [right; left|reflexivity| |reflexivity|reflexivity]. intros x ->%list_elem_of_singleton. rewrite G1. reflexivity.
Defined.

(** A block whose successor is free but not the head of the list: the merge
    cuts off the blocks in between, which are free and can never be found. *)
Lemma kfree_loses_blocks :
  match kfree 4 (HEAP_BASE + 32) demo_heap with
  | Done h1 =>
      match kfree 4 (HEAP_BASE + 288 + 32) h1 with
      | Done h2 => seg (hdr h2) (free_list h2) [HEAP_BASE + 288] 0 /\ block_free (hdr h2 HEAP_BASE) = true
      | _ => False
      end
  | _ => False
  end.
Proof. vm_compute. split_and!; done. Qed.

(** The rounding wraps around for the largest sizes: the request succeeds with
    an empty area. *)
Lemma kmalloc_wraps :
  match kmalloc 4 (2 ^ 64 - 1) demo_heap with
  | Done (p, h) => p = HEAP_BASE + 432 + 32 /\ b_size (hdr h (HEAP_BASE + 432)) = 0
  | _ => False
  end.
Proof. vm_compute. auto. Qed.
