(* ===== verification/HeapPages.v ===== *)
(** * The pages of the kernel heap

    The loop of [expand_heap] ([memory/heap.c]) takes a frame from the physical
    memory manager and maps it with the virtual memory manager.  This file shows
    that the two managers satisfy the interface [PageMap] of [Heap.v]: a page
    that was mapped can be accessed, and stays so while the heap grows. *)

From S2P Require Import Prelude FrameAlloc CString Vmm Pmm AddressSpace Heap.

Section heap_pages.
Context {A : Type} `{FrameAllocLaws A}.
Implicit Types (s : vm (A:=A)).

Definition HEAP_FLAGS : Z := PTE_PRESENT .| PTE_WRITABLE .| PTE_GLOBAL.

(** The body of the loop of [expand_heap]. *)
Definition map_heap_page (addr : Z) s : Z * vm (A:=A) :=
  let '(phys, f) := alloc_frame (frames s) in
  let s := with_frames f s in
  if phys =? 0 then (-1, s)
  else
    let '(ret, s) := vmm_map_page (kernel_pml4 s) addr phys HEAP_FLAGS s in
    if ret =? 0 then (0, s) else (-1, with_frames (free_frame phys (frames s)) s).

#[export] Instance vm_page_map : PageMap (vm (A:=A)) := {|
  map_fresh := map_heap_page;
  present s v := negb (vmm_get_physical (kernel_pml4 s) v s =? 0);
  map_inv s := vm_ok s (kernel_pml4 s)
|}.

(** ** Tables that are created while mapping are fresh *)

Record grows (r : Z) s s' : Prop := {
  gr_root : kernel_pml4 s' = kernel_pml4 s;
  gr_use b : frame_addr b -> in_use (frames s) b = true -> in_use (frames s') b = true;
  gr_tables q t : path_ok q -> walk (pages s') r q = Some t ->
    walk (pages s) r q = Some t \/ exists b, t = KERNEL_VMA_BASE + b /\ in_use (frames s) b = false
}.

Lemma grows_refl r s : grows r s s.
Proof. split; auto. Qed.

Lemma grows_trans r s1 s2 s3 :
  vm_ok s3 r -> grows r s1 s2 -> grows r s2 s3 -> grows r s1 s3.
Proof.
  intros [_ _ Ht] [R1 U1 T1] [R2 U2 T2]. split; [congruence|auto|]. intros q t Hq Hw.
  destruct (to_frame _ _ _ Ht q t Hq Hw) as (b & -> & Hb & _ & _).
  destruct (T2 q _ Hq Hw) as [Hw2|(b' & E & Hf)]; [by apply T1|]. right. exists b. split; [done|].
  assert (b' = b) as -> by lia. destruct (in_use (frames s1) b) eqn:E1; [|done]. by rewrite (U1 b Hb E1) in Hf.
Qed.

Lemma get_or_create_grows s r p t i fl :
  vm_ok s r -> path_ok p -> (length p < 3)%nat -> idx_ok i -> walk (pages s) r p = Some t -> dir_flags fl ->
  grows r s (get_or_create_table t i fl s).2.
Proof.
  intros [Hai Hh Ht] Hp Hl Hi Hw Hfl. unfold get_or_create_table.
  destruct (has_flag (pages s t i) PTE_PRESENT) eqn:E1; [destruct (has_flag (pages s t i) PTE_HUGE); apply grows_refl|].
  unfold alloc_page_table. destruct (alloc_frame (frames s)) as [a f'] eqn:Ea.
  assert (forall b, frame_addr b -> in_use (frames s) b = true -> in_use f' b = true) as Hkeep.
  { intros b Hb Hu. by apply (alloc_other _ _ _ b Hai Ea Hb Hu). }
  destruct (Z.eqb_spec a 0) as [->|Hne]; [by split; auto|].
  destruct (alloc_low (frames s) a f' Hai Hh Ea Hne) as (Haddr & Hlow & Hfr & Hus & _). assert (0 <= a) by (destruct Haddr; lia).
  rewrite phys_virt by lia. rewrite (proj2 (Z.eqb_neq (KERNEL_VMA_BASE + a) 0)) by (unfold KERNEL_VMA_BASE; lia).
  rewrite virt_phys by lia. split; [done|done|]. intros q t' Hq Hwq. cbn [snd pages put_entry put_page with_frames] in Hwq.
  rewrite (create_walk (pages s) (frames s) f' r p) in Hwq by done. case_decide; [|by left].
  injection Hwq as <-. right. by exists a.
Qed.

Lemma vmm_map_page_grows s r v pa fl :
  vm_ok s r -> (vmm_map_page r v pa fl s).1 <> 0 -> grows r s (vmm_map_page r v pa fl s).2.
Proof.
  intros Hok. unfold vmm_map_page. fold (map_flags fl). set (g := map_flags fl). pose proof (map_flags_ok fl) as Hg. fold g in Hg.
  pose proof (get_or_create_spec s r [] r (PML4_INDEX v) g Hok path_ok_nil ltac:(simpl; lia) (land_ones9 _) eq_refl Hg) as S1.
  pose proof (get_or_create_grows s r [] r (PML4_INDEX v) g Hok path_ok_nil ltac:(simpl; lia) (land_ones9 _) eq_refl Hg) as G1.
  destruct (get_or_create_table r (PML4_INDEX v) g s) as [pdpt s1]. destruct S1 as (O1 & _ & _ & _ & W1). cbn [fst snd] in *.
  destruct (Z.eqb_spec pdpt 0) as [->|Hne1]; [done|].
  pose proof (get_or_create_spec s1 r [PML4_INDEX v] pdpt (PDPT_INDEX v) g O1 (path_ok_1 v) ltac:(simpl; lia) (land_ones9 _) (W1 Hne1) Hg) as S2.
  pose proof (get_or_create_grows s1 r [PML4_INDEX v] pdpt (PDPT_INDEX v) g O1 (path_ok_1 v) ltac:(simpl; lia) (land_ones9 _) (W1 Hne1) Hg) as G2.
  destruct (get_or_create_table pdpt (PDPT_INDEX v) g s1) as [pd s2]. destruct S2 as (O2 & _ & _ & _ & W2). cbn [fst snd] in *.
  pose proof (grows_trans r s s1 s2 O2 G1 G2) as G12. destruct (Z.eqb_spec pd 0) as [->|Hne2]; [done|].
  destruct (has_flag fl PTE_HUGE); [done|].
  pose proof (get_or_create_spec s2 r (dir_path v) pd (PD_INDEX v) g O2 (path_ok_dir v) ltac:(simpl; lia) (land_ones9 _) (W2 Hne2) Hg) as S3.
  pose proof (get_or_create_grows s2 r (dir_path v) pd (PD_INDEX v) g O2 (path_ok_dir v) ltac:(simpl; lia) (land_ones9 _) (W2 Hne2) Hg) as G3.
  destruct (get_or_create_table pd (PD_INDEX v) g s2) as [pt s3]. destruct S3 as (O3 & _). cbn [fst snd] in *.
  destruct (Z.eqb_spec pt 0) as [->|Hne3]; [|done]. intros _. by apply (grows_trans r s s2 s3).
Qed.
Lemma get_or_create_root t i fl s : kernel_pml4 (get_or_create_table t i fl s).2 = kernel_pml4 s.
Proof.
  unfold get_or_create_table, alloc_page_table. case_if; [by case_if|]. destruct (alloc_frame (frames s)) as [a f'].
  case_if; [done|]. by case_if.
Qed.

Lemma vmm_map_page_root r v pa fl s : kernel_pml4 (vmm_map_page r v pa fl s).2 = kernel_pml4 s.
Proof.
  unfold vmm_map_page. fold (map_flags fl). pose proof (get_or_create_root r (PML4_INDEX v) (map_flags fl) s) as E1.
  destruct (get_or_create_table r _ _ s) as [pdpt s1]. cbn [snd] in E1. case_if; [done|].
  pose proof (get_or_create_root pdpt (PDPT_INDEX v) (map_flags fl) s1) as E2.
  destruct (get_or_create_table pdpt _ _ s1) as [pd s2]. cbn [snd] in E2. case_if; [cbn; congruence|]. case_if; [cbn; congruence|].
  pose proof (get_or_create_root pd (PD_INDEX v) (map_flags fl) s2) as E3.
  destruct (get_or_create_table pd _ _ s2) as [pt s3]. cbn [snd] in E3. case_if; cbn; congruence.
Qed.

(** ** The laws of the interface *)

(** Giving back a frame that is no table of the tree. *)
Lemma vm_ok_release s r a :
  vm_ok s r -> frame_addr a -> a < 2 ^ 31 ->
  (forall q, path_ok q -> walk (pages s) r q <> Some (KERNEL_VMA_BASE + a)) ->
  vm_ok (with_frames (free_frame a (frames s)) s) r.
Proof.
  intros [Hai Hh [I F N]] Ha Hlow Hno. split; cbn [frames pages with_frames].
  - apply free_keeps_inv; [done|]. destruct Ha. lia.
  - intros b Hb Hge. destruct (free_other (frames s) a b Hai Ha Hb ltac:(lia)) as [-> _]. by apply Hh.
  - split; [done| |done]. intros q t Hq Hw. destruct (F q t Hq Hw) as (b & -> & Hb & Hlt & Hu). exists b.
    assert (a <> b) as Hab by (intros ->; by apply (Hno q)). destruct (free_other (frames s) a b Hai Ha Hb Hab) as [-> _]. done.
Qed.

Lemma map_heap_page_spec addr s :
  vm_ok s (kernel_pml4 s) ->
  let '(ret, s') := map_heap_page addr s in
  kernel_pml4 s' = kernel_pml4 s /\ vm_ok s' (kernel_pml4 s) /\
  ((ret = -1 /\ forall v, leaf (pages s') (kernel_pml4 s) v = leaf (pages s) (kernel_pml4 s) v) \/
   (ret = 0 /\ exists a, frame_addr a /\ a <> 0 /\
      forall v, leaf (pages s') (kernel_pml4 s) v = map_effect addr a HEAP_FLAGS (leaf (pages s) (kernel_pml4 s) v) v)).
Proof.
  intros Hok. unfold map_heap_page. destruct (alloc_frame (frames s)) as [a f] eqn:Ea. set (r := kernel_pml4 s) in *.
  pose proof (vo_alloc _ _ Hok) as Hai. pose proof (vo_high _ _ Hok) as Hh.
  assert (vm_ok (with_frames f s) r) as Ok1.
  { apply vm_ok_frames; [done| |].
    - pose proof (alloc_keeps_inv (frames s) Hai) as Hk. by rewrite Ea in Hk.
    - intros b Hb Hu. by apply (alloc_other _ _ _ b Hai Ea Hb Hu). }
  destruct (Z.eqb_spec a 0) as [->|Hne]; [by auto|].
  destruct (alloc_low (frames s) a f Hai Hh Ea Hne) as (Haddr & Hlow & Hfr & Hus & _).
  set (s1 := with_frames f s) in *. change (kernel_pml4 s1) with r.
  pose proof (vmm_map_page_leaf s1 r addr a HEAP_FLAGS Ok1) as HL. pose proof (vmm_map_page_root r addr a HEAP_FLAGS s1) as HR.
  pose proof (vmm_map_page_grows s1 r addr a HEAP_FLAGS Ok1) as HG.
  destruct (vmm_map_page r addr a HEAP_FLAGS s1) as [ret s2]. cbn [fst snd] in *. destruct HL as (Ok2 & [(-> & L)|(-> & L)]); cbn [Z.eqb].
  - split; [done|]. split; [|by left]. apply vm_ok_release; [done|done|done|]. intros q Hq Hw.
    destruct (gr_tables _ _ _ (HG ltac:(done)) q _ Hq Hw) as [Hw1|(b & E & Hf)].
    + destruct (to_frame _ _ _ (vo_tree _ _ Hok) q _ Hq Hw1) as (b & E & _ & _ & Hu). assert (b = a) as -> by lia. congruence.
    + assert (b = a) as -> by lia. change (frames s1) with f in Hf. congruence.
  - split; [done|]. split; [done|right]. split; [done|]. by exists a.
Qed.

(** The indices of a page are those of all its addresses. *)
Lemma page_same a v : (PAGE_SIZE | a) -> a <= v < a + PAGE_SIZE -> same_page a v.
Proof.
  unfold PAGE_SIZE. intros [k ->] Hv.
  assert (forall i, 12 <= i -> Z.shiftr (k * 4096) i = Z.shiftr v i) as E.
  { intros i Hi. replace i with (12 + (i - 12)) by lia. rewrite <- !Z.shiftr_shiftr by lia. f_equal.
    rewrite !Z.shiftr_div_pow2 by lia. change (2 ^ 12) with 4096. rewrite Z.div_mul by lia.
    apply (Z.div_unique_pos v 4096 k (v - k * 4096)); lia. }
  unfold same_page, pt_path, PML4_INDEX, PDPT_INDEX, PD_INDEX, PT_INDEX. by rewrite !E by lia.
Qed.

Lemma frame_translate_nonzero a v :
  frame_addr a -> a <> 0 -> translate (Some (false, small_entry a HEAP_FLAGS)) v <> 0.
Proof.
  intros Ha Hne. rewrite (translate_small _ v a HEAP_FLAGS) by done.
  pose proof (mask_frame_flags a 0 Ha eq_refl) as E. rewrite Z.lor_0_r in E. rewrite E.
  intros [E0 _]%Z.lor_eq_0_iff. done.
Qed.

#[export] Instance vm_page_map_laws : PageMapLaws (vm (A:=A)).
Proof.
  split.
  - intros a s. cbn. unfold map_heap_page. destruct (alloc_frame (frames s)) as [p f]. case_if; [by right|].
    destruct (vmm_map_page _ _ _ _ _) as [ret s']. case_if; [by left|by right].
  - intros a s Hok. pose proof (map_heap_page_spec a s Hok) as Hs. cbn. destruct (map_heap_page a s) as [ret s'].
    destruct Hs as (E & Ok' & _). cbn. by rewrite E.
  - intros a s v Hok. pose proof (map_heap_page_spec a s Hok) as Hs. cbn. destruct (map_heap_page a s) as [ret s'].
    destruct Hs as (E & Ok' & HL). cbn. rewrite E, !vmm_get_physical_leaf by done.
    destruct HL as [(_ & ->)|(_ & p & Hp & Hne & ->)]; [done|]. unfold map_effect. change (has_flag HEAP_FLAGS PTE_HUGE) with false. cbv iota.
    case_decide; [|done]. intros _. apply negb_true_iff, Z.eqb_neq. by apply frame_translate_nonzero.
  - intros a s v Hok. pose proof (map_heap_page_spec a s Hok) as Hs. cbn. destruct (map_heap_page a s) as [ret s'].
    destruct Hs as (E & Ok' & HL). cbn. rewrite E. intros -> Hp _ _ Hv. rewrite vmm_get_physical_leaf by done.
    destruct HL as [(? & _)|(_ & p & Hfp & Hne & ->)]; [done|]. unfold map_effect. change (has_flag HEAP_FLAGS PTE_HUGE) with false. cbv iota.
    rewrite decide_True by by apply page_same. apply negb_true_iff, Z.eqb_neq. by apply frame_translate_nonzero.
Qed.
End heap_pages.
