(* ===== verification/Elf.v ===== *)
(** * The ELF loader, [userland/elf_loader.c]

    [elf_validate] and [elf_load] over the virtual memory manager of [Vmm.v].
    The file is the list of its bytes; a read outside it has no value in the
    model ([None]).  The loader writes user pages through the higher-half
    window, so the bytes of a page are those of its 512 words.  Of the process
    only the fields the loader uses are kept. *)

From S2P Require Import Prelude FrameAlloc CString Bytes Vmm Pmm AddressSpace HeapPages.

(** ** The file *)

Definition ELF_MAGIC : Z := 0x464C457F.
Definition ELFCLASS64 : Z := 2.
Definition ELFDATA2LSB : Z := 1.
Definition ET_EXEC : Z := 2.
Definition EM_X86_64 : Z := 62.
Definition PT_LOAD : Z := 1.
Definition PF_X : Z := 2 ^ 0.
Definition PF_W : Z := 2 ^ 1.
Definition ELF_HDR_SIZE : Z := 64.
Definition ELF_PHDR_SIZE : Z := 56.
Definition E_INVAL : Z := 22.
Definition E_NOMEM : Z := 12.
Definition E_FAULT : Z := 14.

(** [n] bytes from [off], when they lie in the file. *)
Definition file_bytes (data : list Z) (off n : Z) : option (list Z) :=
  if (0 <=? off) && (off + n <=? Z.of_nat (length data))
  then Some (take (Z.to_nat n) (drop (Z.to_nat off) data)) else None.

Definition e_entry (data : list Z) : Z := field data 24 8.
Definition e_phoff (data : list Z) : Z := field data 32 8.
Definition e_phentsize (data : list Z) : Z := field data 54 2.
Definition e_phnum (data : list Z) : Z := field data 56 2.

Record phdr := Phdr {
  p_type : Z;
  p_flags : Z;
  p_offset : Z;
  p_vaddr : Z;
  p_paddr : Z;
  p_filesz : Z;
  p_memsz : Z;
  p_align : Z
}.

Definition phdr_of (data : list Z) (off : Z) : phdr :=
  Phdr (field data off 4) (field data (off + 4) 4) (field data (off + 8) 8) (field data (off + 16) 8)
       (field data (off + 24) 8) (field data (off + 32) 8) (field data (off + 40) 8) (field data (off + 48) 8).

(** The header [i]; [i * e_phentsize] is a product of type [int]. *)
Definition phdr_at (data : list Z) (i : Z) : option phdr :=
  let off := e_phoff data + i * e_phentsize data in
  if (i * e_phentsize data <? 2 ^ 31) && (off + ELF_PHDR_SIZE <=? Z.of_nat (length data))
  then Some (phdr_of data off) else None.

Definition elf_validate (data : list Z) : bool :=
  if Z.of_nat (length data) <? ELF_HDR_SIZE then false
  else if negb (field data 0 4 =? ELF_MAGIC) then false
  else if negb (field data 4 1 =? ELFCLASS64) then false
  else if negb (field data 5 1 =? ELFDATA2LSB) then false
  else if negb (field data 16 2 =? ET_EXEC) then false
  else if negb (field data 18 2 =? EM_X86_64) then false
  else true.

(** ** Bytes of a page *)

Definition page_byte (w : Z -> Z) (o : Z) : Z := Z.shiftr (w (o / 8)) (8 * (o mod 8)) .& 0xFF.

Definition set_byte (w : Z -> Z) (o b : Z) : Z -> Z :=
  upd w (o / 8) ((w (o / 8) .&~ Z.shiftl 0xFF (8 * (o mod 8))) .| Z.shiftl b (8 * (o mod 8))).

(** The flags of the entries of a segment. *)
Definition seg_flags (ph : phdr) : Z :=
  let pte_flags := PTE_PRESENT .| PTE_USER in
  let pte_flags := if has_flag (p_flags ph) PF_W then pte_flags .| PTE_WRITABLE else pte_flags in
  if negb (has_flag (p_flags ph) PF_X) then pte_flags .| PTE_NX else pte_flags.

Definition seg_end (ph : phdr) : Z := ALIGN_UP (u64 (p_vaddr ph + p_memsz ph)) PAGE_SIZE.
Definition seg_pages (ph : phdr) : Z := u64 (seg_end ph - ALIGN_DOWN (p_vaddr ph) PAGE_SIZE) / PAGE_SIZE.

Section elf.
Context {A : Type} `{FrameAlloc A}.

(** A store through a kernel pointer, and [memcpy] to one. *)
Definition kstore (addr b : Z) (s : vm (A:=A)) : vm :=
  let t := ALIGN_DOWN addr PAGE_SIZE in put_page t (set_byte (pages s t) (addr - t) b) s.

Fixpoint kmemcpy (dst : Z) (bytes : list Z) (s : vm (A:=A)) : vm :=
  match bytes with
  | [] => s
  | b :: bytes => kmemcpy (u64 (dst + 1)) bytes (kstore dst b s)
  end.

Record elf_proc := ElfProc { space : vm (A:=A); pml4 : Z; heap_start : Z; heap_end : Z }.

(** The loop over the pages of a segment and its body. *)
Definition map_zeroed (r vaddr flags : Z) (s : vm (A:=A)) : Z * vm :=
  let '(phys, f) := alloc_frame (frames s) in
  let s := with_frames f s in
  if phys =? 0 then (- E_NOMEM, s)
  else
    let s := put_page (PHYS_TO_VIRT phys) (fun _ => 0) s in
    let '(ret, s) := vmm_map_page r vaddr phys flags s in
    if negb (ret =? 0) then (- E_NOMEM, release phys s) else (0, s).

Fixpoint map_pages (n : nat) (r vaddr flags : Z) (s : vm (A:=A)) : Z * vm :=
  match n with
  | O => (0, s)
  | S n =>
      let '(ret, s) := map_zeroed r vaddr flags s in
      if negb (ret =? 0) then (ret, s) else map_pages n r (u64 (vaddr + PAGE_SIZE)) flags s
  end.

(** The copy loop; every round but the first ends at a page boundary. *)
Definition copy_fuel (to_copy : Z) : nat := Z.to_nat (to_copy / PAGE_SIZE + 2).

Fixpoint copy_loop (fuel : nat) (data : list Z) (r src dst_vaddr to_copy : Z) (s : vm (A:=A)) : option (Z * vm) :=
  if to_copy <=? 0 then Some (0, s)
  else
    match fuel with
    | O => None
    | S fuel =>
        let phys_addr := vmm_get_physical r dst_vaddr s in
        if phys_addr =? 0 then Some (- E_FAULT, s)
        else
          let page_offset := dst_vaddr .& 0xFFF in
          let chunk := Z.min to_copy (PAGE_SIZE - page_offset) in
          bytes ← file_bytes data src chunk;
          copy_loop fuel data r (src + chunk) (u64 (dst_vaddr + chunk)) (to_copy - chunk)
            (kmemcpy (u64 (PHYS_TO_VIRT phys_addr + page_offset)) bytes s)
    end.

(** The body of the loop of [elf_load] for one header. *)
Definition load_segment (data : list Z) (ph : phdr) (p : elf_proc) : option (Z * elf_proc) :=
  if negb (p_type ph =? PT_LOAD) then Some (0, p)
  else if p_memsz ph =? 0 then Some (0, p)
  else
    let vaddr_aligned := ALIGN_DOWN (p_vaddr ph) PAGE_SIZE in
    let '(ret, s) := map_pages (Z.to_nat (seg_pages ph)) (pml4 p) vaddr_aligned (seg_flags ph) (space p) in
    let p := ElfProc s (pml4 p) (heap_start p) (heap_end p) in
    if negb (ret =? 0) then Some (ret, p)
    else
      '(ret, s) ← copy_loop (copy_fuel (p_filesz ph)) data (pml4 p) (p_offset ph) (p_vaddr ph) (p_filesz ph) s;
      let p := ElfProc s (pml4 p) (heap_start p) (heap_end p) in
      if negb (ret =? 0) then Some (ret, p)
      else if heap_start p <? seg_end ph then Some (0, ElfProc s (pml4 p) (seg_end ph) (seg_end ph))
      else Some (0, p).

Fixpoint load_segments (n : nat) (i : Z) (data : list Z) (p : elf_proc) : option (Z * elf_proc) :=
  match n with
  | O => Some (0, p)
  | S n =>
      ph ← phdr_at data i;
      '(ret, p) ← load_segment data ph p;
      if negb (ret =? 0) then Some (ret, p) else load_segments n (i + 1) data p
  end.

(** The result, [*entry] ([None]: not written) and the process. *)
Definition elf_load (data : list Z) (p : elf_proc) : option (Z * option Z * elf_proc) :=
  if negb (elf_validate data) then Some (- E_INVAL, None, p)
  else
    '(ret, p) ← load_segments (Z.to_nat (e_phnum data)) 0 data p;
    Some (ret, Some (e_entry data), p).

(** The byte a user access to [v] reads. *)
Definition user_byte (r v : Z) (s : vm (A:=A)) : Z :=
  let pa := vmm_get_physical r v s in
  page_byte (pages s (PHYS_TO_VIRT (ALIGN_DOWN pa PAGE_SIZE))) (pa .& 0xFFF).
End elf.
Arguments elf_proc A : clear implicits.

(** ** Bytes *)

Lemma byte_testbit b k : 0 <= b < 256 -> 8 <= k -> Z.testbit b k = false.
Proof. intros Hb Hk. apply (testbit_small b 8); [lia|]. change (2 ^ 8) with 256. lia. Qed.

Lemma page_byte_testbit w o k :
  0 <= o -> 0 <= k -> Z.testbit (page_byte w o) k = Z.testbit (w (o / 8)) (k + 8 * (o mod 8)) && (k <? 8).
Proof.
  intros Ho Hk. unfold page_byte. pose proof (Z.mod_pos_bound o 8).
  rewrite Z.land_spec, Z.shiftr_spec by lia. change 0xFF with (Z.ones 8). f_equal.
  rewrite Z.testbit_ones by lia. by rewrite (proj2 (Z.leb_le 0 k)) by lia.
Qed.

Lemma page_byte_set w o b o' :
  0 <= o -> 0 <= o' -> 0 <= b < 256 ->
  page_byte (set_byte w o b) o' = if o' =? o then b else page_byte w o'.
Proof.
  intros Ho Ho' Hb. apply Z.bits_inj'. intros k Hk. rewrite page_byte_testbit by done. unfold set_byte.
  destruct (decide (o' / 8 = o / 8)) as [E|E].
  2: { rewrite upd_ne by done. destruct (Z.eqb_spec o' o) as [->|]; [done|]. by rewrite page_byte_testbit. }
  rewrite E, upd_eq, Z.lor_spec, Z.ldiff_spec. pose proof (Z.mod_pos_bound o 8). pose proof (Z.mod_pos_bound o' 8).
  rewrite !Z.shiftl_spec by lia. change 0xFF with (Z.ones 8).
  destruct (Z.eqb_spec o' o) as [->|Hne].
  - replace (k + 8 * (o mod 8) - 8 * (o mod 8)) with k by lia. destruct (Z.ltb_spec k 8).
    + rewrite Z.ones_spec_low by lia. by rewrite andb_false_r, andb_true_r.
    + by rewrite (byte_testbit b k), andb_false_r by lia.
  - rewrite page_byte_testbit, E by done. destruct (Z.ltb_spec k 8) as [Hlt|]; [|by rewrite !andb_false_r].
    rewrite !andb_true_r. assert (o' mod 8 <> o mod 8) as Hm.
    { pose proof (Z.div_mod o 8). pose proof (Z.div_mod o' 8). lia. }
    destruct (decide (o' mod 8 < o mod 8)).
    + rewrite !(Z.testbit_neg_r _ (k + 8 * (o' mod 8) - 8 * (o mod 8))) by lia. by rewrite andb_true_r, orb_false_r.
    + rewrite (byte_testbit b), Z.ones_spec_high by lia. by rewrite andb_true_r, orb_false_r.
Qed.

(** ** Pages below the 48-bit limit *)

Lemma same_page_div v v' :
  0 <= v < 2 ^ 48 -> 0 <= v' < 2 ^ 48 -> same_page v v' -> v / 4096 = v' / 4096.
Proof.
  intros Hv Hv'. unfold same_page, pt_path, PML4_INDEX, PDPT_INDEX, PD_INDEX, PT_INDEX.
  change 0x1FF with (Z.ones 9). rewrite !Z.land_ones, !Z.shiftr_div_pow2 by lia. intros [[= E1 E2 E3] E4].
  change (2 ^ 9) with 512 in *. change (2 ^ 12) with 4096 in *. change (2 ^ 48) with (4096 * 2 ^ 36) in *.
  replace (2 ^ 39) with (4096 * 2 ^ 27) in * by done. replace (2 ^ 30) with (4096 * 2 ^ 18) in * by done.
  replace (2 ^ 21) with (4096 * 2 ^ 9) in * by done. rewrite <- !Z.div_div in * by lia.
  assert (0 <= v / 4096 < 2 ^ 36) by (split; [apply Z.div_pos; lia|apply Z.div_lt_upper_bound; lia]).
  assert (0 <= v' / 4096 < 2 ^ 36) by (split; [apply Z.div_pos; lia|apply Z.div_lt_upper_bound; lia]).
  generalize dependent (v / 4096). generalize dependent (v' / 4096). clear. intros y ? x ? ? ? ? ?.
  change (2 ^ 27) with 134217728 in *. change (2 ^ 18) with 262144 in *. change (2 ^ 9) with 512 in *. change (2 ^ 36) with 68719476736 in *.
  Z.div_mod_to_equations. lia.
Qed.

(** ** Frames that hold data *)

Section load.
Context {A : Type} `{FrameAllocLaws A}.
Implicit Types (s : vm (A:=A)).

(** A frame in use that is no table of the tree. *)
Record data_frame s (r a : Z) : Prop := {
  df_addr : frame_addr a;
  df_low : a < 2 ^ 31;
  df_used : in_use (frames s) a = true;
  df_data q t : path_ok q -> walk (pages s) r q = Some t -> t <> KERNEL_VMA_BASE + a
}.

(** Its role and its contents survive. *)
Definition keeps (r a : Z) s s' : Prop :=
  data_frame s r a ->
  data_frame s' r a /\ forall j, pages s' (KERNEL_VMA_BASE + a) j = pages s (KERNEL_VMA_BASE + a) j.

Lemma keeps_refl r a s : keeps r a s s.
Proof. by intros D. Qed.

Lemma keeps_trans r a s1 s2 s3 : keeps r a s1 s2 -> keeps r a s2 s3 -> keeps r a s1 s3.
Proof.
  intros K1 K2 D1. destruct (K1 D1) as [D2 E1], (K2 D2) as [D3 E2]. split; [done|]. intros j. by rewrite E2, E1.
Qed.

(** Steps that only add tables from free frames. *)
Lemma grows_keeps r a s s' :
  grows r s s' -> (data_frame s r a -> forall j, pages s' (KERNEL_VMA_BASE + a) j = pages s (KERNEL_VMA_BASE + a) j) ->
  keeps r a s s'.
Proof.
  intros [_ U T] Hj D. split; [|by apply Hj]. destruct D as [Da Dl Du Dd]. split; [done|done|by apply U|].
  intros q t Hq Hw E. destruct (T q t Hq Hw) as [Hw'|(b & Eb & Hf)]; [by apply (Dd q t)|].
  assert (b = a) as -> by lia. congruence.
Qed.

Lemma set_page_other (P : page_mem) c w t j : t <> c -> set_page P c w t j = P t j.
Proof. intros Hne. unfold set_page. by rewrite (proj2 (Z.eqb_neq t c) Hne). Qed.

Lemma get_or_create_keeps s r p t i fl a :
  vm_ok s r -> path_ok p -> (length p < 3)%nat -> idx_ok i -> walk (pages s) r p = Some t -> dir_flags fl ->
  keeps r a s (get_or_create_table t i fl s).2.
Proof.
  intros Hok Hp Hl Hi Hw Hfl. apply grows_keeps; [by apply (get_or_create_grows s r p)|].
  intros [Da Dl Du Dd] j. unfold get_or_create_table. case_if; [by case_if|].
  unfold alloc_page_table. destruct (alloc_frame (frames s)) as [b f'] eqn:Ea.
  destruct (Z.eqb_spec b 0) as [->|Hne]; [done|].
  destruct (alloc_low (frames s) b f' (vo_alloc _ _ Hok) (vo_high _ _ Hok) Ea Hne) as ([_ Hb] & Hlow & Hfr & _).
  rewrite phys_virt by lia. rewrite (proj2 (Z.eqb_neq (KERNEL_VMA_BASE + b) 0)) by (unfold KERNEL_VMA_BASE; lia).
  cbn [snd pages put_entry put_page with_frames].
  rewrite set_entry_other by (left; apply not_eq_sym, (Dd p); done).
  apply set_page_other. intros E. assert (a = b) as -> by lia. congruence.
Qed.

Lemma write_pt_keeps s r v pt e a :
  vm_ok s r -> walk (pages s) r (pt_path v) = Some pt -> keeps r a s (put_entry pt (PT_INDEX v) e s).
Proof.
  intros [_ _ Ht] Hw [Da Dl Du Dd].
  assert (forall q, path_ok q -> walk (set_entry (pages s) pt (PT_INDEX v) e) r q = walk (pages s) r q) as Hq.
  { intros q Hq. apply (walk_set_entry _ r (pt_path v)); [apply Ht|auto with aether|done|done|].
    intros Hpre%prefix_length. destruct Hq as [_ Hq]. rewrite length_app in Hpre. simpl in Hpre. lia. }
  split.
  - split; [done|done|done|]. intros q t Hp. cbn [pages put_entry]. rewrite Hq by done. by apply Dd.
  - intros j. cbn [pages put_entry]. apply set_entry_other. left. apply not_eq_sym, (Dd (pt_path v)); auto with aether.
Qed.

Lemma vmm_map_page_keeps s r v pa fl a :
  vm_ok s r -> has_flag fl PTE_HUGE = false -> keeps r a s (vmm_map_page r v pa fl s).2.
Proof.
  intros Hok Hh. unfold vmm_map_page. fold (map_flags fl). set (g := map_flags fl). pose proof (map_flags_ok fl) as Hg. fold g in Hg. rewrite Hh.
  pose proof (get_or_create_spec s r [] r (PML4_INDEX v) g Hok path_ok_nil ltac:(simpl; lia) (land_ones9 _) eq_refl Hg) as S1.
  pose proof (get_or_create_keeps s r [] r (PML4_INDEX v) g a Hok path_ok_nil ltac:(simpl; lia) (land_ones9 _) eq_refl Hg) as G1.
  destruct (get_or_create_table r (PML4_INDEX v) g s) as [pdpt s1]. destruct S1 as (O1 & _ & _ & _ & W1). cbn [fst snd] in *.
  destruct (Z.eqb_spec pdpt 0) as [->|Hne1]; [done|].
  pose proof (get_or_create_spec s1 r [PML4_INDEX v] pdpt (PDPT_INDEX v) g O1 (path_ok_1 v) ltac:(simpl; lia) (land_ones9 _) (W1 Hne1) Hg) as S2.
  pose proof (get_or_create_keeps s1 r [PML4_INDEX v] pdpt (PDPT_INDEX v) g a O1 (path_ok_1 v) ltac:(simpl; lia) (land_ones9 _) (W1 Hne1) Hg) as G2.
  destruct (get_or_create_table pdpt (PDPT_INDEX v) g s1) as [pd s2]. destruct S2 as (O2 & _ & _ & _ & W2). cbn [fst snd] in *.
  pose proof (keeps_trans r a s s1 s2 G1 G2) as G12. destruct (Z.eqb_spec pd 0) as [->|Hne2]; [done|].
  pose proof (get_or_create_spec s2 r (dir_path v) pd (PD_INDEX v) g O2 (path_ok_dir v) ltac:(simpl; lia) (land_ones9 _) (W2 Hne2) Hg) as S3.
  pose proof (get_or_create_keeps s2 r (dir_path v) pd (PD_INDEX v) g a O2 (path_ok_dir v) ltac:(simpl; lia) (land_ones9 _) (W2 Hne2) Hg) as G3.
  destruct (get_or_create_table pd (PD_INDEX v) g s2) as [pt s3]. destruct S3 as (O3 & _ & _ & _ & W3). cbn [fst snd] in *.
  pose proof (keeps_trans r a s s2 s3 G12 G3) as G13. destruct (Z.eqb_spec pt 0) as [->|Hne3]; [done|].
  apply (keeps_trans r a s s3 _ G13). cbn [snd]. apply write_pt_keeps; [done|]. by apply W3.
Qed.

(** ** The pages of an image *)

(** A page of a process: its address, its frame, the flags of its entry and
    its bytes. *)
Record dpage := DPage { dp_v : Z; dp_a : Z; dp_fl : Z; dp_byte : Z -> Z }.

Record page_at s (r : Z) (p : dpage) : Prop := {
  pa_frame : data_frame s r (dp_a p);
  pa_nonnull : dp_a p <> 0;
  pa_leaf v : same_page (dp_v p) v -> leaf (pages s) r v = Some (false, small_entry (dp_a p) (dp_fl p));
  pa_byte o : 0 <= o < 4096 -> page_byte (pages s (KERNEL_VMA_BASE + dp_a p)) o = dp_byte p o
}.

Definition image s (r : Z) (D : list dpage) : Prop := NoDup (dp_a <$> D) /\ Forall (page_at s r) D.

Lemma page_byte_ext w w' o : (forall j, w' j = w j) -> page_byte w' o = page_byte w o.
Proof. intros E. unfold page_byte. by rewrite E. Qed.

Lemma page_at_keeps s s' r p :
  keeps r (dp_a p) s s' ->
  (forall v, same_page (dp_v p) v -> leaf (pages s') r v = leaf (pages s) r v) ->
  page_at s r p -> page_at s' r p.
Proof.
  intros K L [F N Lf B]. destruct (K F) as [F' E]. split; [done|done| |].
  - intros v Hv. rewrite L by done. by apply Lf.
  - intros o Ho. rewrite <- B by done. by apply page_byte_ext.
Qed.

Lemma image_keeps s s' r D :
  (forall a, keeps r a s s') ->
  (forall p, p ∈ D -> forall v, same_page (dp_v p) v -> leaf (pages s') r v = leaf (pages s) r v) ->
  image s r D -> image s' r D.
Proof.
  intros K L [N F]. split; [done|]. rewrite Forall_forall in F |- *. intros p Hp.
  exact (page_at_keeps s s' r p (K _) (L p Hp) (F p Hp)).
Qed.

(** What the flags of a segment guarantee. *)
Lemma seg_flags_ok ph : has_flag (seg_flags ph) PTE_HUGE = false /\ seg_flags ph .& PTE_ADDR_MASK = 0.
Proof. unfold seg_flags. repeat case_if; by split; vm_compute. Qed.

(** A free frame, zeroed, is a data frame; the others are kept. *)
Lemma zeroed_frame s r a f :
  vm_ok s r -> alloc_frame (frames s) = (a, f) -> a <> 0 ->
  let s' := put_page (PHYS_TO_VIRT a) (fun _ => 0) (with_frames f s) in
  vm_ok s' r /\ data_frame s' r a /\ (forall j, pages s' (KERNEL_VMA_BASE + a) j = 0) /\
  (forall v, leaf (pages s') r v = leaf (pages s) r v) /\
  (forall b, keeps r b s s') /\ in_use (frames s) a = false.
Proof.
  intros Hok Ea Hne s'. destruct (alloc_low (frames s) a f (vo_alloc _ _ Hok) (vo_high _ _ Hok) Ea Hne)
    as (Haddr & Hlow & Hfr & Hus & _ & Hai & Hoth). assert (0 <= a) as Ha0 by (destruct Haddr; lia).
  assert (vm_ok (with_frames f s) r) as O1 by (apply vm_ok_frames; [done|done|]; intros b Hb Hu; by apply Hoth).
  pose proof (fresh_not_table s r a Hok Hfr) as Hnt. unfold s'. rewrite phys_virt by lia. clear s'.
  set (s' := put_page _ _ _). assert (forall t j, t <> KERNEL_VMA_BASE + a -> pages s' t j = pages s t j) as Hag
    by (intros t j Ht; by apply set_page_other).
  assert (forall q, path_ok q -> walk (pages s') r q = walk (pages s) r q) as Hq
    by (intros q Hq; by apply (walk_off_tree _ _ r (KERNEL_VMA_BASE + a))).
  destruct (off_tree_ok (with_frames f s) s' r (KERNEL_VMA_BASE + a) O1 Hnt Hag eq_refl) as [O2 L2].
  split_and!; try done.
  - split; [done|done|done|]. intros q t Hp. rewrite Hq by done. by apply Hnt.
  - intros j. unfold s'. cbn [pages put_page]. unfold set_page. by rewrite Z.eqb_refl.
  - intros b [Db Dl Du Dd]. split.
    + split; [done|done|by apply Hoth|]. intros q t Hp. rewrite Hq by done. by apply Dd.
    + intros j. apply Hag. intros E. assert (b = a) as -> by lia. congruence.
Qed.

(** Giving back the frame of a page that was not mapped. *)
Lemma release_keeps s r a b : vm_ok s r -> data_frame s r a -> a <> b -> keeps r b s (release a s).
Proof.
  intros Hok Da Hab [Db Dl Du Dd]. split; [|done]. split; [done|done| |done].
  cbn [release frames with_frames]. destruct (free_other (frames s) a b (vo_alloc _ _ Hok) (df_addr _ _ _ Da) Db Hab) as [-> _]. done.
Qed.

(** One page: nothing but the new mapping changes. *)
Lemma map_zeroed_spec s r v fl D :
  vm_ok s r -> image s r D -> has_flag fl PTE_HUGE = false ->
  (forall p, p ∈ D -> ~ same_page v (dp_v p)) ->
  let '(ret, s') := map_zeroed r v fl s in
  vm_ok s' r /\
  ((ret = - E_NOMEM /\ image s' r D) \/
   (ret = 0 /\ exists a, image s' r (D ++ [DPage v a fl (fun _ => 0)]))).
Proof.
  intros Hok HI Hh Hdis. unfold map_zeroed. destruct (alloc_frame (frames s)) as [a f] eqn:Ea.
  destruct (Z.eqb_spec a 0) as [->|Hne].
  { assert (forall b, frame_addr b -> in_use (frames s) b = true -> in_use f b = true) as Hu
      by (intros b Hb Hu; by apply (alloc_other _ _ _ b (vo_alloc _ _ Hok) Ea Hb Hu)).
    split; [apply vm_ok_frames; [done| |done]; pose proof (alloc_keeps_inv (frames s) (vo_alloc _ _ Hok)) as Hk; by rewrite Ea in Hk|].
    left. split; [done|]. apply (image_keeps s); [|done|done]. intros b [Db Dl Du Dd]. split; [|done]. split; auto. }
  destruct (zeroed_frame s r a f Hok Ea Hne) as (O1 & D1 & Z1 & L1 & K1 & Hfr).
  set (s1 := put_page _ _ _) in *. pose proof (vmm_map_page_leaf s1 r v a fl O1) as HL.
  pose proof (fun b => vmm_map_page_keeps s1 r v a fl b O1 Hh) as K2.
  assert (forall p, p ∈ D -> dp_a p <> a) as Hfresh.
  { intros p Hp E. destruct HI as [_ HF]. rewrite Forall_forall in HF. pose proof (df_used _ _ _ (pa_frame _ _ _ (HF p Hp))). congruence. }
  destruct (vmm_map_page r v a fl s1) as [ret s2]. cbn [snd] in K2. destruct (K2 a D1) as [D2 E2].
  destruct HL as (O2 & [(-> & L2)|(-> & L2)]); cbn [Z.eqb negb].
  - split; [apply vm_ok_release; [done|apply D2|apply D2|]; intros q Hq Hw; by apply (df_data _ _ _ D2 q _ Hq Hw)|].
    left. split; [done|]. destruct HI as [HN HF]. split; [done|]. rewrite Forall_forall in HF |- *. intros p Hp.
    apply (page_at_keeps s); [|intros v' _; cbn [pages release with_frames]; by rewrite L2, L1|by apply HF].
    apply (keeps_trans _ _ s s1 _ (K1 _)), (keeps_trans _ _ s1 s2 _ (K2 _)), release_keeps; [done|done|by apply not_eq_sym, Hfresh].
  - split; [done|right]. split; [done|]. exists a.
    assert (image s2 r D) as [HN HF].
    { apply (image_keeps s); [intros b; by apply (keeps_trans _ _ s s1)| |done].
      intros p Hp v' Hv'. rewrite L2, L1. unfold map_effect. rewrite Hh, decide_False; [done|].
      intros Hs. apply (Hdis p Hp). destruct Hv' as [E1 E3], Hs as [E4 E5]. split; congruence. }
    split.
    + rewrite fmap_app. apply NoDup_app. split; [done|]. split; [|apply NoDup_singleton].
      intros b (p & -> & Hp)%list_elem_of_fmap Hb%list_elem_of_singleton. by apply (Hfresh p Hp).
    + apply Forall_app. split; [done|]. apply Forall_singleton. split; cbn [dp_a dp_v dp_fl dp_byte]; [done|done| |].
      * intros v' Hv'. rewrite L2. unfold map_effect. by rewrite Hh, decide_True.
      * intros o _. unfold page_byte. by rewrite E2, Z1, Z.shiftr_0_l.
Qed.

(** The pages from [v] on with the bytes [g], in the frames [fs]. *)
Fixpoint pages_at (v fl : Z) (g : Z -> Z) (fs : list Z) : list dpage :=
  match fs with
  | [] => []
  | a :: fs => DPage v a fl (fun o => g (v + o)) :: pages_at (v + 4096) fl g fs
  end.

Definition off_range (lo hi : Z) (p : dpage) : Prop :=
  (4096 | dp_v p) /\ 0 <= dp_v p < 2 ^ 48 /\ (dp_v p < lo \/ hi <= dp_v p).

Lemma pages_not_same v w :
  (4096 | v) -> (4096 | w) -> 0 <= v < 2 ^ 48 -> 0 <= w < 2 ^ 48 -> v <> w -> ~ same_page v w.
Proof. intros [k ->] [l ->] Hv Hw Hne Hs%same_page_div; [|done|done]. rewrite !Z.div_mul in Hs by lia. lia. Qed.

Lemma elf_map_pages_spec n : forall s r v fl D,
  vm_ok s r -> image s r D -> has_flag fl PTE_HUGE = false ->
  (4096 | v) -> 0 <= v -> v + Z.of_nat n * 4096 <= 2 ^ 47 ->
  Forall (off_range v (v + Z.of_nat n * 4096)) D ->
  let '(ret, s') := map_pages n r v fl s in
  vm_ok s' r /\
  (ret = - E_NOMEM \/
   (ret = 0 /\ exists fs, length fs = n /\ image s' r (D ++ pages_at v fl (fun _ => 0) fs))).
Proof.
  induction n as [|n IH]; intros s r v fl D Hok HI Hh Hv H0v Hhi HD; cbn [map_pages].
  { split; [done|right]. split; [done|]. exists []. by rewrite app_nil_r. }
  rewrite Forall_forall in HD.
  assert (forall p, p ∈ D -> ~ same_page v (dp_v p)) as Hdis.
  { intros p Hp. destruct (HD p Hp) as (Hd & Hr & Ho). apply pages_not_same; [done|done|lia|done|lia]. }
  pose proof (map_zeroed_spec s r v fl D Hok HI Hh Hdis) as H1.
  destruct (map_zeroed r v fl s) as [ret s1]. destruct H1 as (O1 & [(-> & I1)|(-> & a & I1)]).
  { change (- E_NOMEM =? 0) with false. cbn [negb]. split; [done|by left]. }
  cbn [negb Z.eqb].
  unfold PAGE_SIZE. rewrite u64_small by lia.
  assert (Forall (off_range (v + 4096) (v + 4096 + Z.of_nat n * 4096)) (D ++ [DPage v a fl (fun _ => 0)])) as HD'.
  { apply Forall_app. split; [|apply Forall_singleton; split; cbn; [done|lia]].
    apply Forall_forall. intros p Hp. destruct (HD p Hp) as (? & ? & ?). split; [done|]. lia. }
  pose proof (IH s1 r (v + 4096) fl _ O1 I1 Hh (Z.divide_add_r _ _ _ Hv (Z.divide_refl _)) ltac:(lia) ltac:(lia) HD') as H2.
  destruct (map_pages n r (v + 4096) fl s1) as [ret s2]. destruct H2 as (O2 & [->|(-> & fs & Hl & I2)]); (split; [done|]); [by left|right].
  split; [done|]. exists (a :: fs). split; [by simpl; rewrite Hl|]. rewrite <- app_assoc in I2. done.
Qed.

(** ** Copying *)

Lemma kernel_ptr a o :
  frame_addr a -> a < 2 ^ 31 -> 0 <= o < 4096 ->
  u64 (KERNEL_VMA_BASE + a + o) = KERNEL_VMA_BASE + a + o /\
  ALIGN_DOWN (KERNEL_VMA_BASE + a + o) PAGE_SIZE = KERNEL_VMA_BASE + a.
Proof.
  intros [[k ->] Ha] Hlow Ho. unfold KERNEL_VMA_BASE, PAGE_SIZE. split; [apply u64_small; lia|].
  change 4096 with (2 ^ 12). rewrite ALIGN_DOWN_spec by lia. change (2 ^ 12) with 4096 in *.
  replace (0xFFFFFFFF80000000 + k * 4096 + o) with (o + (0xFFFFFFFF80000 + k) * 4096) by lia.
  rewrite Z.div_add, (Z.div_small o) by lia. lia.
Qed.

Lemma kmemcpy_spec bytes : forall s a o,
  frame_addr a -> a < 2 ^ 31 -> 0 <= o -> o + Z.of_nat (length bytes) <= 4096 ->
  byte_list bytes ->
  let s' := kmemcpy (u64 (KERNEL_VMA_BASE + a + o)) bytes s in
  frames s' = frames s /\
  (forall t j, t <> KERNEL_VMA_BASE + a -> pages s' t j = pages s t j) /\
  forall i, 0 <= i < 4096 -> page_byte (pages s' (KERNEL_VMA_BASE + a)) i =
    if (o <=? i) && (i <? o + Z.of_nat (length bytes)) then nth (Z.to_nat (i - o)) bytes 0
    else page_byte (pages s (KERNEL_VMA_BASE + a)) i.
Proof.
  induction bytes as [|b bytes IH]; intros s a o Ha Hlow Ho Hlen Hb; cbn [kmemcpy length] in *.
  { split_and!; [done|done|]. intros i _. destruct (Z.leb_spec o i), (Z.ltb_spec i (o + Z.of_nat 0)); (done || lia). }
  apply Forall_cons in Hb as [Hb Hbs]. destruct (kernel_ptr a o Ha Hlow ltac:(lia)) as [-> Hd].
  set (s1 := kstore _ b s). replace (KERNEL_VMA_BASE + a + o + 1) with (KERNEL_VMA_BASE + a + (o + 1)) by lia.
  destruct (IH s1 a (o + 1) Ha Hlow ltac:(lia) ltac:(lia) Hbs) as (F & Hag & B).
  assert (forall t j, t <> KERNEL_VMA_BASE + a -> pages s1 t j = pages s t j) as Hag1.
  { intros t j Ht. unfold s1, kstore. rewrite Hd. by apply set_page_other. }
  assert (forall i, 0 <= i -> page_byte (pages s1 (KERNEL_VMA_BASE + a)) i =
    if i =? o then b else page_byte (pages s (KERNEL_VMA_BASE + a)) i) as B1.
  { intros i Hi. unfold s1, kstore. rewrite Hd. cbn [pages put_page]. unfold set_page. rewrite Z.eqb_refl.
    replace (KERNEL_VMA_BASE + a + o - (KERNEL_VMA_BASE + a)) with o by lia. by apply page_byte_set. }
  split_and!; [by rewrite F|intros t j Ht; by rewrite Hag, Hag1|].
  intros i Hi. rewrite B, B1 by lia. destruct (Z.eqb_spec i o) as [->|Hne].
  - destruct (Z.leb_spec (o + 1) o), (Z.leb_spec o o), (Z.ltb_spec o (o + Z.of_nat (S (length bytes)))); try lia.
    by rewrite Z.sub_diag.
  - destruct (Z.leb_spec (o + 1) i), (Z.leb_spec o i), (Z.ltb_spec i (o + 1 + Z.of_nat (length bytes))),
      (Z.ltb_spec i (o + Z.of_nat (S (length bytes)))); try lia; try done. cbn [andb].
    by replace (Z.to_nat (i - o)) with (S (Z.to_nat (i - (o + 1)))) by lia.
Qed.

(** New contents for one page of an image. *)
Lemma image_write s s' r D1 p D2 h :
  vm_ok s r -> image s r (D1 ++ p :: D2) -> frames s' = frames s ->
  (forall t j, t <> KERNEL_VMA_BASE + dp_a p -> pages s' t j = pages s t j) ->
  (forall o, 0 <= o < 4096 -> page_byte (pages s' (KERNEL_VMA_BASE + dp_a p)) o = h o) ->
  vm_ok s' r /\ image s' r (D1 ++ DPage (dp_v p) (dp_a p) (dp_fl p) h :: D2).
Proof.
  intros Hok [HN HF] Hfr Hag Hh. rewrite Forall_forall in HF.
  pose proof (HF p ltac:(set_solver)) as [Fp Np Lp Bp].
  assert (forall q, path_ok q -> walk (pages s') r q = walk (pages s) r q) as Hq.
  { intros q Hq. apply (walk_off_tree _ _ r (KERNEL_VMA_BASE + dp_a p)); [done|apply Fp|done]. }
  destruct (off_tree_ok s s' r (KERNEL_VMA_BASE + dp_a p) Hok (df_data _ _ _ Fp) Hag Hfr) as [O L].
  assert (forall a, data_frame s r a -> data_frame s' r a) as Hd.
  { intros a [? ? ? Dd]. split; [done|done|by rewrite Hfr|]. intros q t Hp. rewrite Hq by done. by apply Dd. }
  split; [done|]. split; [rewrite fmap_app in HN |- *; exact HN|].
  assert (forall p', p' ∈ D1 ++ D2 -> page_at s' r p') as Hoth.
  { intros p' Hp'. apply (page_at_keeps s); [|intros; apply L|apply HF; set_solver]. intros D. split; [by apply Hd|].
    intros j. apply Hag. intros E. assert (dp_a p' = dp_a p) as E' by lia.
    rewrite fmap_app, fmap_cons in HN. apply NoDup_app in HN as (_ & H1 & H2). apply NoDup_cons in H2 as [H2 _].
    apply elem_of_app in Hp' as [Hp'|Hp'].
    - apply (H1 (dp_a p')); [by apply list_elem_of_fmap_2|rewrite E'; set_solver].
    - apply H2. rewrite <- E'. by apply list_elem_of_fmap_2. }
  apply Forall_app. split; [apply Forall_forall; intros p' Hp'; apply Hoth; set_solver|].
  apply Forall_cons. split; [|apply Forall_forall; intros p' Hp'; apply Hoth; set_solver].
  split; cbn [dp_a dp_v dp_fl dp_byte]; [by apply Hd|done|intros v Hv; rewrite L; by apply Lp|done].
Qed.

(** What a byte of the segment has to be: a byte of the file, then zeroes. *)
Definition seg_byte (data : list Z) (ph : phdr) (x : Z) : Z :=
  if x <? p_vaddr ph + p_filesz ph then nth (Z.to_nat (p_offset ph + (x - p_vaddr ph))) data 0 else 0.

Lemma pages_at_ext s r v fl g g' fs D :
  (forall x, v <= x -> g x = g' x) ->
  image s r (D ++ pages_at v fl g fs) -> image s r (D ++ pages_at v fl g' fs).
Proof.
  revert v D. induction fs as [|a fs IH]; intros v D Hg HI; [done|]. cbn [pages_at] in *.
  rewrite cons_middle, app_assoc. apply IH; [intros x Hx; apply Hg; lia|]. rewrite <- app_assoc. cbn [app].
  destruct HI as [HN HF]. split; [rewrite fmap_app in HN |- *; exact HN|].
  apply Forall_app in HF as [HF1 HF2]. apply Forall_cons in HF2 as [[F N L B] HF3]. apply Forall_app. split; [done|].
  apply Forall_cons. split; [|done]. split; [done|done|done|]. intros o Ho.
  etransitivity; [exact (B o Ho)|]. apply Hg. lia.
Qed.

(** A page of an image translates to its frame. *)
Lemma page_at_physical s r p v :
  vm_ok s r -> page_at s r p -> dp_fl p .& PTE_ADDR_MASK = 0 -> same_page (dp_v p) v ->
  vmm_get_physical r v s = dp_a p .| (v .& 0xFFF).
Proof.
  intros Hok [F N L B] Hfl Hs. rewrite vmm_get_physical_leaf, (L v Hs), (translate_small _ v (dp_a p) (dp_fl p)) by done.
  pose proof (mask_frame_flags (dp_a p) 0 (df_addr _ _ _ F) eq_refl) as E. rewrite Z.lor_0_r in E. by rewrite E.
Qed.

Lemma low_bits_aligned v : (4096 | v) -> v .& 0xFFF = 0.
Proof. intros [k ->]. change 0xFFF with (Z.ones 12). rewrite Z.land_ones by lia. apply Z.mod_mul. lia. Qed.

Lemma file_bytes_spec data off n :
  0 <= off -> 0 <= n -> off + n <= Z.of_nat (length data) ->
  exists l, file_bytes data off n = Some l /\ Z.of_nat (length l) = n /\
    (byte_list data -> byte_list l) /\
    forall i, 0 <= i < n -> nth (Z.to_nat i) l 0 = nth (Z.to_nat (off + i)) data 0.
Proof.
  intros Ho Hn Hl. unfold file_bytes. rewrite (proj2 (Z.leb_le 0 off)), (proj2 (Z.leb_le (off + n) _)) by lia.
  eexists. split; [done|]. split_and!.
  - rewrite length_take, length_drop. lia.
  - intros Hb. by apply Forall_take, Forall_drop.
  - intros i Hi. rewrite !nth_lookup, lookup_take_lt, lookup_drop by lia. by replace (Z.to_nat (off + i)) with (Z.to_nat off + Z.to_nat i)%nat by lia.
Qed.

Section copy.
Context (data : list Z) (ph : phdr) (r fl : Z).
Context (Hdata : byte_list data) (Hoff : 0 <= p_offset ph) (Hv : 0 <= p_vaddr ph).
Context (Hfile : p_offset ph + p_filesz ph <= Z.of_nat (length data)).
Context (Hlim : p_vaddr ph + p_filesz ph <= 2 ^ 47) (Hfl : fl .& PTE_ADDR_MASK = 0).
Let lim := p_vaddr ph + p_filesz ph.

(** One round: the page at [dst] receives its bytes. *)
Lemma copy_page s dst D a fs :
  vm_ok s r -> image s r (D ++ pages_at dst fl (fun _ => 0) (a :: fs)) -> (4096 | dst) -> p_vaddr ph <= dst -> dst < lim ->
  exists l s', vmm_get_physical r dst s = a /\ a <> 0 /\
    file_bytes data (p_offset ph + (dst - p_vaddr ph)) (Z.min (lim - dst) 4096) = Some l /\
    kmemcpy (u64 (PHYS_TO_VIRT a + 0)) l s = s' /\ vm_ok s' r /\
    image s' r ((D ++ [DPage dst a fl (fun o => seg_byte data ph (dst + o))]) ++ pages_at (dst + 4096) fl (fun _ => 0) fs).
Proof.
  intros Hok HI Hd Hge Hlt. cbn [pages_at] in HI.
  assert (page_at s r (DPage dst a fl (fun _ => 0))) as Hp by (destruct HI as [_ HF]; apply Forall_app in HF as [_ HF]; by apply Forall_cons in HF as [? _]).
  pose proof Hp as [F N _ B]. cbn [dp_a dp_v dp_fl dp_byte] in *.
  destruct (file_bytes_spec data (p_offset ph + (dst - p_vaddr ph)) (Z.min (lim - dst) 4096) ltac:(lia) ltac:(lia) ltac:(lia))
    as (l & El & Hl & Hb & Hnth).
  pose proof (df_addr _ _ _ F) as Haddr. pose proof (df_low _ _ _ F) as Hlow.
  destruct (kmemcpy_spec l s a 0 Haddr Hlow ltac:(lia) ltac:(lia) (Hb Hdata)) as (Hfr & Hag & Hby).
  exists l. eexists. split.
  { rewrite (page_at_physical s r _ dst Hok Hp Hfl) by done. cbn [dp_a]. by rewrite low_bits_aligned, Z.lor_0_r. }
  split; [done|]. split; [done|]. rewrite phys_virt by (destruct Haddr; lia). split; [done|].
  rewrite <- app_assoc. cbn [app].
  apply (image_write s _ r D (DPage dst a fl (fun _ => 0)) _ (fun o => seg_byte data ph (dst + o)) Hok HI Hfr Hag).
  intros o Ho. cbn [dp_a]. rewrite Hby, B by done. unfold seg_byte. fold lim. rewrite Hl.
  destruct (Z.leb_spec 0 o); [|lia]. cbn [andb].
  destruct (Z.ltb_spec o (0 + Z.min (lim - dst) 4096)), (Z.ltb_spec (dst + o) lim); try lia.
  rewrite Z.sub_0_r, Hnth by lia. do 2 f_equal. lia.
Qed.

Lemma copy_loop_spec fs : forall s D dst fuel,
  vm_ok s r -> image s r (D ++ pages_at dst fl (fun _ => 0) fs) -> (4096 | dst) -> p_vaddr ph <= dst ->
  lim <= dst + 4096 * Z.of_nat (length fs) -> lim - dst <= 4096 * Z.of_nat fuel ->
  exists s', copy_loop fuel data r (p_offset ph + (dst - p_vaddr ph)) dst (lim - dst) s = Some (0, s') /\
    vm_ok s' r /\ image s' r (D ++ pages_at dst fl (seg_byte data ph) fs).
Proof.
  induction fs as [|a fs IH]; intros s D dst fuel Hok HI Hd Hge Hfs Hfuel.
  { exists s. split; [|done]. simpl in Hfs. destruct fuel; cbn [copy_loop]; by rewrite (proj2 (Z.leb_le (lim - dst) 0)) by lia. }
  destruct (Z.leb_spec (lim - dst) 0) as [Hdone|Hmore].
  { exists s. split; [destruct fuel; cbn [copy_loop]; by rewrite (proj2 (Z.leb_le (lim - dst) 0)) by lia|]. split; [done|].
    apply (pages_at_ext s r dst fl (fun _ => 0)); [|done]. intros x Hx. unfold seg_byte. fold lim. by rewrite (proj2 (Z.ltb_ge x lim)) by lia. }
  destruct fuel as [|fuel]; [lia|]. cbn [copy_loop]. rewrite (proj2 (Z.leb_gt (lim - dst) 0)) by lia.
  destruct (copy_page s dst D a fs Hok HI Hd Hge ltac:(lia)) as (l & s1 & Ep & Hne & El & Es & O1 & I1).
  rewrite Ep, (proj2 (Z.eqb_neq a 0) Hne), low_bits_aligned by done. unfold PAGE_SIZE. rewrite Z.sub_0_r, El. cbn [mbind option_bind].
  rewrite Es. destruct (decide (lim - dst <= 4096)) as [Hlast|Hnl].
  - rewrite Z.min_l by lia. exists s1. rewrite Z.sub_diag. split; [by destruct fuel|]. split; [done|].
    cbn [pages_at]. rewrite cons_middle, app_assoc. apply (pages_at_ext s1 r (dst + 4096) fl (fun _ => 0)); [|done].
    intros x Hx. unfold seg_byte. fold lim. by rewrite (proj2 (Z.ltb_ge x lim)) by lia.
  - rewrite Z.min_r, u64_small by lia. cbn [length] in Hfs.
    destruct (IH s1 _ (dst + 4096) fuel O1 I1 (Z.divide_add_r _ _ _ Hd (Z.divide_refl _)) ltac:(lia) ltac:(lia) ltac:(lia)) as (s2 & E2 & O2 & I2).
    exists s2. split; [|split; [done|]].
    + rewrite <- E2. f_equal; lia.
    + cbn [pages_at]. by rewrite <- app_assoc in I2.
Qed.
End copy.

(** ** Segments *)

Definition loadable (ph : phdr) : bool := (p_type ph =? PT_LOAD) && negb (p_memsz ph =? 0).

(** The segments the loader handles: page aligned, in the lower half, with
    their bytes in the file. *)
Record seg_ok (data : list Z) (ph : phdr) : Prop := {
  sg_aligned : (4096 | p_vaddr ph);
  sg_vaddr : 0 <= p_vaddr ph;
  sg_memsz : 0 < p_memsz ph;
  sg_filesz : 0 <= p_filesz ph <= p_memsz ph;
  sg_top : p_vaddr ph + p_memsz ph <= 2 ^ 47;
  sg_offset : 0 <= p_offset ph;
  sg_file : p_offset ph + p_filesz ph <= Z.of_nat (length data)
}.

Lemma seg_end_spec data ph :
  seg_ok data ph ->
  p_vaddr ph + p_memsz ph <= seg_end ph < p_vaddr ph + p_memsz ph + 4096 /\ seg_end ph <= 2 ^ 47 /\
  ALIGN_DOWN (p_vaddr ph) PAGE_SIZE = p_vaddr ph /\
  0 < seg_pages ph /\ seg_end ph = p_vaddr ph + seg_pages ph * 4096.
Proof.
  intros [[k Hk] ? ? ? ? ? ?]. unfold seg_pages, seg_end, PAGE_SIZE. rewrite u64_small by lia.
  change 4096 with (2 ^ 12). destruct (ALIGN_UP_bounds (p_vaddr ph + p_memsz ph) 12) as [Hb [m Hm]]; [lia|lia|lia|].
  rewrite ALIGN_DOWN_spec by lia. set (e := ALIGN_UP _ _) in *. clearbody e. change (2 ^ 12) with 4096 in *. rewrite Hk in *.
  rewrite Z.div_mul by lia. assert (e <= 2 ^ 47) by (change (2 ^ 47) with (2 ^ 35 * 4096) in *; lia).
  rewrite u64_small by lia. subst e. rewrite <- Z.mul_sub_distr_r, Z.div_mul by lia. lia.
Qed.

Lemma load_segment_skip data ph (p : elf_proc A) :
  loadable ph = false -> load_segment data ph p = Some (0, p).
Proof.
  unfold loadable, load_segment. destruct (p_type ph =? PT_LOAD); [|done]. by destruct (p_memsz ph =? 0).
Qed.

(** One segment: its pages join the image, or memory runs out. *)
Lemma load_segment_spec data ph (p : elf_proc A) D :
  byte_list data -> loadable ph = true -> seg_ok data ph ->
  vm_ok (space p) (pml4 p) -> image (space p) (pml4 p) D -> Forall (off_range (p_vaddr ph) (seg_end ph)) D ->
  exists ret p', load_segment data ph p = Some (ret, p') /\ pml4 p' = pml4 p /\ vm_ok (space p') (pml4 p) /\
    (ret = - E_NOMEM \/
     (ret = 0 /\ heap_start p' = Z.max (heap_start p) (seg_end ph) /\
      heap_end p' = (if heap_start p <? seg_end ph then seg_end ph else heap_end p) /\
      exists fs, Z.of_nat (length fs) = seg_pages ph /\
        image (space p') (pml4 p) (D ++ pages_at (p_vaddr ph) (seg_flags ph) (seg_byte data ph) fs))).
Proof.
  intros Hb Hl Hs Hok HI HD. destruct (seg_end_spec data ph Hs) as (He1 & He2 & Ed & Hn & He3). destruct Hs as [Sa Sv Sm Sf St So Sl].
  destruct (seg_flags_ok ph) as [Hh Hfl]. unfold load_segment.
  apply andb_true_iff in Hl as [Ht Hm]. rewrite Ht. apply negb_true_iff in Hm. rewrite Hm, Ed. cbn [negb].
  rewrite He3 in HD. pose proof (elf_map_pages_spec (Z.to_nat (seg_pages ph)) (space p) (pml4 p) (p_vaddr ph) (seg_flags ph) D Hok HI Hh Sa Sv) as H1.
  rewrite Z2Nat.id in H1 by lia. specialize (H1 ltac:(lia) HD).
  destruct (map_pages _ _ _ _ _) as [ret s1]. destruct H1 as (O1 & [->|(-> & fs & Hlf & I1)]).
  { change (- E_NOMEM =? 0) with false. cbn [negb]. eexists _, _. split; [done|]. cbn. auto. }
  cbn [Z.eqb negb pml4 heap_start heap_end].
  destruct (copy_loop_spec data ph (pml4 p) (seg_flags ph) Hb So Sv Sl ltac:(lia) Hfl fs s1 D (p_vaddr ph) (copy_fuel (p_filesz ph)) O1 I1 Sa) as (s2 & E2 & O2 & I2);
    [lia|lia| |].
  { unfold copy_fuel, PAGE_SIZE. pose proof (Z.div_mod (p_filesz ph) 4096). pose proof (Z.mod_pos_bound (p_filesz ph) 4096). lia. }
  rewrite Z.sub_diag, Z.add_0_r in E2. replace (p_vaddr ph + p_filesz ph - p_vaddr ph) with (p_filesz ph) in E2 by lia.
  rewrite E2. cbn [mbind option_bind Z.eqb negb].
  destruct (Z.ltb_spec (heap_start p) (seg_end ph)); eexists _, _; (split; [done|]); cbn [pml4 space heap_start heap_end];
    (split; [done|]); (split; [done|]); right; (split; [done|]); (split; [lia|]); (split; [done|]); exists fs; (split; [lia|done]).
Qed.

(** ** The whole file *)

Fixpoint phdrs (n : nat) (i : Z) (data : list Z) : option (list phdr) :=
  match n with
  | O => Some []
  | S n => ph ← phdr_at data i; phs ← phdrs n (i + 1) data; Some (ph :: phs)
  end.

Definition apart (ph ph' : phdr) : Prop := seg_end ph <= p_vaddr ph' \/ seg_end ph' <= p_vaddr ph.

Fixpoint segs_apart (l : list phdr) : Prop :=
  match l with
  | [] => True
  | ph :: l => Forall (apart ph) l /\ segs_apart l
  end.

Lemma pages_at_range v fl g fs p :
  p ∈ pages_at v fl g fs -> exists k, 0 <= k < Z.of_nat (length fs) /\ dp_v p = v + k * 4096.
Proof.
  revert v. induction fs as [|a fs IH]; intros v; cbn [pages_at length]; [by intros ?%elem_of_nil|].
  intros [->|Hp]%elem_of_cons; [exists 0; cbn; lia|]. destruct (IH _ Hp) as (k & Hk & E). exists (k + 1). lia.
Qed.

Lemma pages_at_cover v fl g fs x :
  (4096 | v) -> v <= x < v + Z.of_nat (length fs) * 4096 ->
  exists p, p ∈ pages_at v fl g fs /\ dp_v p <= x < dp_v p + 4096 /\ (4096 | dp_v p) /\ dp_fl p = fl /\
    dp_byte p (x - dp_v p) = g x.
Proof.
  revert v. induction fs as [|a fs IH]; intros v Hv Hx; cbn [pages_at length] in *; [lia|].
  destruct (decide (x < v + 4096)).
  - eexists. split; [apply elem_of_cons; by left|]. cbn. split_and!; try done; try lia. f_equal. lia.
  - destruct (IH (v + 4096)) as (p & Hp & ?); [apply Z.divide_add_r; [done|apply Z.divide_refl]|lia|].
    exists p. split; [apply elem_of_cons; by right|done].
Qed.

Lemma apart_off_range data ph ph' fl g fs :
  seg_ok data ph -> seg_ok data ph' -> apart ph ph' -> Z.of_nat (length fs) = seg_pages ph ->
  Forall (off_range (p_vaddr ph') (seg_end ph')) (pages_at (p_vaddr ph) fl g fs).
Proof.
  intros Hs Hs' Ha Hl. apply Forall_forall. intros p (k & Hk & E)%pages_at_range.
  destruct (seg_end_spec data ph Hs) as (? & ? & _ & ? & ?), (seg_end_spec data ph' Hs') as (? & ? & _ & ? & ?).
  destruct Hs as [Sa Sv _ _ _ _ _], Hs' as [Sa' Sv' _ _ _ _ _].
  split; [rewrite E; apply Z.divide_add_r; [done|apply Z.divide_factor_r]|]. split; [lia|]. unfold apart in Ha. lia.
Qed.

(** Raising the start of the heap segment by segment. *)
Lemma foldr_max_start (segs : list phdr) h e :
  foldr (fun ph => Z.max (seg_end ph)) (Z.max h e) segs = Z.max e (foldr (fun ph => Z.max (seg_end ph)) h segs).
Proof. induction segs as [|ph segs IH]; cbn [foldr]; lia. Qed.

Lemma foldr_max_ge (segs : list phdr) h : h <= foldr (fun ph => Z.max (seg_end ph)) h segs.
Proof. induction segs as [|ph segs IH]; cbn [foldr]; lia. Qed.

Lemma foldr_max_in (segs : list phdr) h ph : ph ∈ segs -> seg_end ph <= foldr (fun ph => Z.max (seg_end ph)) h segs.
Proof. induction 1; cbn [foldr]; lia. Qed.

Lemma heap_end_raised h e t old : Z.max h e <= t ->
  (if Z.max h e <? t then t else if h <? e then e else old) = (if h <? t then t else old).
Proof. intros Ht. destruct (Z.ltb_spec (Z.max h e) t), (Z.ltb_spec h e), (Z.ltb_spec h t); lia. Qed.

Lemma load_segments_spec data n : forall i phs (p : elf_proc A) D,
  byte_list data -> phdrs n i data = Some phs ->
  let segs := List.filter loadable phs in
  Forall (seg_ok data) segs -> segs_apart segs ->
  vm_ok (space p) (pml4 p) -> image (space p) (pml4 p) D ->
  Forall (fun ph => Forall (off_range (p_vaddr ph) (seg_end ph)) D) segs ->
  exists ret p', load_segments n i data p = Some (ret, p') /\ pml4 p' = pml4 p /\ vm_ok (space p') (pml4 p) /\
    (ret = - E_NOMEM \/
     (ret = 0 /\ heap_start p' = foldr (fun ph => Z.max (seg_end ph)) (heap_start p) segs /\
      heap_end p' = (if heap_start p <? heap_start p' then heap_start p' else heap_end p) /\
      exists D', image (space p') (pml4 p) (D ++ D') /\
        Forall (fun ph => exists fs, Z.of_nat (length fs) = seg_pages ph /\
                  pages_at (p_vaddr ph) (seg_flags ph) (seg_byte data ph) fs ⊆ D') segs)).
Proof.
  induction n as [|n IH]; intros i phs p D Hb Hphs segs Hok Hap Hvm HI HD; cbn [phdrs load_segments] in *.
  { injection Hphs as <-. eexists _, _. split; [done|]. split; [done|]. split; [done|]. right. split; [done|]. split; [done|].
    split; [by rewrite Z.ltb_irrefl|]. exists []. by rewrite app_nil_r. }
  destruct (phdr_at data i) as [ph|]; [|done]. cbn [mbind option_bind] in *.
  destruct (phdrs n (i + 1) data) as [phs'|] eqn:E; [|done]. cbn [mbind option_bind] in Hphs. injection Hphs as <-.
  unfold segs in *. cbn [List.filter] in *. destruct (loadable ph) eqn:El.
  2: { rewrite (load_segment_skip data ph p El). cbn [mbind option_bind Z.eqb negb]. by apply (IH (i + 1) phs' p D). }
  apply Forall_cons in Hok as [Hs Hss]. destruct Hap as [Ha Hap]. apply Forall_cons in HD as [HD1 HD2].
  destruct (load_segment_spec data ph p D Hb El Hs Hvm HI HD1) as (ret & p1 & -> & Er & O1 & [->|(-> & Hh & He & fs & Hl & I1)]); cbn [mbind option_bind].
  { change (- E_NOMEM =? 0) with false. cbn [negb]. eexists _, _. split; [done|]. auto. }
  cbn [Z.eqb negb]. rewrite <- Er in O1, I1.
  destruct (IH (i + 1) phs' p1 _ Hb E Hss Hap O1 I1) as (ret & p2 & E2 & Er2 & O2 & H2).
  { rewrite Forall_forall in HD2, Hss, Ha |- *. intros ph' Hp'. apply Forall_app. split; [by apply HD2|].
    apply (apart_off_range data); auto. }
  rewrite E2, <- Er. eexists _, _. split; [done|]. split; [done|]. split; [done|].
  destruct H2 as [->|(-> & Hh2 & He2 & D' & I2 & F2)]; [by left|right]. split; [done|].
  split; [rewrite Hh2, Hh; cbn [foldr]; apply foldr_max_start|].
  split; [rewrite He2, He, Hh2, Hh; apply heap_end_raised, foldr_max_ge|].
  exists (pages_at (p_vaddr ph) (seg_flags ph) (seg_byte data ph) fs ++ D'). rewrite app_assoc. split; [done|].
  apply Forall_cons. split; [exists fs; split; [done|]; set_solver|].
  rewrite Forall_forall in F2 |- *. intros ph' Hp'. destruct (F2 ph' Hp') as (fs' & ? & ?). exists fs'. split; [done|set_solver].
Qed.

(** The end of a segment, rounded up to a page. *)
Lemma foldr_seg_end data segs h :
  Forall (seg_ok data) segs -> foldr (fun ph => Z.max (seg_end ph)) h segs =
    foldr (fun ph => Z.max ((p_vaddr ph + p_memsz ph + 4095) / 4096 * 4096)) h segs.
Proof.
  induction 1 as [|ph segs Hs _ IH]; [done|]. cbn [foldr]. f_equal; [|exact IH].
  destruct (seg_end_spec data ph Hs) as (He1 & He2 & _ & Hn & He3). destruct Hs as [[k Hk] ? ? ? ? ? ?].
  assert ((p_vaddr ph + p_memsz ph + 4095) / 4096 = k + seg_pages ph) as ->; [|lia].
  symmetry. apply (Z.div_unique_pos _ 4096 _ (p_vaddr ph + p_memsz ph + 4095 - (k + seg_pages ph) * 4096)); lia.
Qed.

(** What a user access finds in a page of an image. *)
Lemma page_at_user s r p x :
  vm_ok s r -> page_at s r p -> dp_fl p .& PTE_ADDR_MASK = 0 -> (4096 | dp_v p) -> dp_v p <= x < dp_v p + 4096 ->
  vmm_get_physical r x s <> 0 /\ user_byte r x s = dp_byte p (x - dp_v p).
Proof.
  intros Hok Hp Hfl Hd Hx. pose proof (page_at_physical s r p x Hok Hp Hfl (page_same _ _ Hd Hx)) as E.
  destruct Hp as [F N L B]. destruct (df_addr _ _ _ F) as [[k Ek] Hr], Hd as [m Em]. pose proof (df_low _ _ _ F) as Hlow.
  assert (x .& 0xFFF = x - dp_v p) as Eo.
  { change 0xFFF with (Z.ones 12). rewrite Z.land_ones by lia. change (2 ^ 12) with 4096. symmetry. apply (Z.mod_unique_pos x 4096 m); lia. }
  assert (vmm_get_physical r x s = dp_a p + (x - dp_v p)) as Ep.
  { rewrite E, Eo, Ek, Z.lor_comm. change 4096 with (2 ^ 12). rewrite lor_low_high by lia. lia. }
  split; [lia|]. unfold user_byte. rewrite Ep.
  assert (ALIGN_DOWN (dp_a p + (x - dp_v p)) PAGE_SIZE = dp_a p) as ->.
  { unfold PAGE_SIZE. change 4096 with (2 ^ 12). rewrite ALIGN_DOWN_spec by lia. change (2 ^ 12) with 4096.
    rewrite Ek, Z.add_comm, Z.div_add, Z.div_small by lia. lia. }
  rewrite phys_virt by lia. rewrite <- B by lia. f_equal.
  change 0xFFF with (Z.ones 12). rewrite Z.land_ones by lia. change (2 ^ 12) with 4096. symmetry. apply (Z.mod_unique_pos _ 4096 k); lia.
Qed.

(** The access rights in the entry of a page: x86-64 keeps them in the bits
    present (0), writable (1), user (2) and no-execute (63), the ELF header in
    the bits PF_X (0), PF_W (1) and PF_R (2). *)
Definition rights_of (ph : phdr) (e : Z) : Prop :=
  Z.testbit e 0 = true /\ Z.testbit e 2 = true /\
  Z.testbit e 1 = Z.testbit (p_flags ph) 1 /\ Z.testbit e 63 = negb (Z.testbit (p_flags ph) 0).

Lemma seg_entry_rights ph a : rights_of ph (small_entry a (seg_flags ph)).
Proof.
  assert (forall n, n = 0 \/ n = 1 \/ n = 2 \/ n = 63 ->
    Z.testbit (small_entry a (seg_flags ph)) n = Z.testbit (seg_flags ph .| PTE_PRESENT) n) as E.
  { intros n Hn. unfold small_entry. rewrite !Z.lor_spec, Z.land_spec.
    replace (Z.testbit PTE_ADDR_MASK n) with false; [by rewrite andb_false_r|]. naive_solver. }
  unfold rights_of. rewrite !E by auto. unfold seg_flags, PF_W, PF_X.
  change 2 with (2 ^ 1). change (2 ^ 0) with 1. rewrite !has_flag_bit by lia.
  destruct (Z.testbit (p_flags ph) 1), (Z.testbit (p_flags ph) 0); by split_and!.
Qed.

(** C10: an executable whose program headers lie in the file and whose
    loadable segments are page aligned, apart from one another, in user memory
    and within the file is loaded or the loader runs out of memory.  When it is
    loaded, every address of every segment is mapped, for user code, writable
    exactly when the segment has PF_W and executable exactly when it has PF_X,
    and reads as the byte of the file, or as zero behind the bytes of the file;
    the heap starts at the page boundary above the highest segment (or stays
    where it was when that is higher), is empty when it was moved, and the entry
    point is that of the header.  In both cases the page tables stay in order. *)
Theorem elf_load_correct data phs (p : elf_proc A) :
  byte_list data -> elf_validate data = true ->
  phdrs (Z.to_nat (e_phnum data)) 0 data = Some phs ->
  let segs := List.filter loadable phs in
  Forall (seg_ok data) segs -> segs_apart segs -> vm_ok (space p) (pml4 p) ->
  exists ret p', elf_load data p = Some (ret, Some (e_entry data), p') /\ vm_ok (space p') (pml4 p) /\
    (ret = - E_NOMEM \/
     (ret = 0 /\
      heap_start p' = foldr (fun ph => Z.max ((p_vaddr ph + p_memsz ph + 4095) / 4096 * 4096)) (heap_start p) segs /\
      heap_end p' = (if heap_start p <? heap_start p' then heap_start p' else heap_end p) /\
      forall ph x, ph ∈ segs -> p_vaddr ph <= x < p_vaddr ph + p_memsz ph ->
        x < heap_start p' /\ vmm_get_physical (pml4 p) x (space p') <> 0 /\
        user_byte (pml4 p) x (space p') = seg_byte data ph x /\
        exists e, leaf (pages (space p')) (pml4 p) x = Some (false, e) /\ rights_of ph e)).
Proof.
  intros Hb Hv Hphs segs Hok Hap Hvm. unfold elf_load. rewrite Hv. cbn [negb].
  destruct (load_segments_spec data _ 0 phs p [] Hb Hphs Hok Hap Hvm) as (ret & p' & -> & _ & O & HR).
  { split; [constructor|constructor]. }
  { by apply Forall_forall. }
  cbn [mbind option_bind]. eexists _, _. split; [done|]. split; [done|].
  destruct HR as [->|(-> & Hh & He & D & [_ HF] & HS)]; [by left|right]. split; [done|].
  split; [rewrite Hh; by apply (foldr_seg_end data)|]. split; [done|]. intros ph x Hph Hx.
  rewrite Forall_forall in HS. rewrite Forall_forall in HF. rewrite Forall_forall in Hok. destruct (HS ph Hph) as (fs & Hl & Hsub).
  destruct (seg_end_spec data ph (Hok ph Hph)) as (? & _ & _ & _ & ?).
  destruct (pages_at_cover (p_vaddr ph) (seg_flags ph) (seg_byte data ph) fs x (sg_aligned _ _ (Hok ph Hph)) ltac:(lia)) as (pg & Hpg & Hx' & Hd & Hfl & Hby).
  pose proof (HF pg (Hsub pg Hpg)) as Hat. pose proof (foldr_max_in segs (heap_start p) ph Hph). split; [unfold segs in *; lia|].
  destruct (page_at_user (space p') (pml4 p) pg x O Hat) as [Hne Hub]; [rewrite Hfl; apply seg_flags_ok|done|done|].
  split; [done|]. split; [by rewrite Hub|]. exists (small_entry (dp_a pg) (seg_flags ph)).
  split; [rewrite <- Hfl; apply (pa_leaf _ _ _ Hat); by apply page_same|apply seg_entry_rights].
Qed.
End load.

(** ** Examples over the bitmap allocator *)

(** One loadable segment of four bytes of file and six of memory. *)
Definition demo_elf (vaddr : Z) : list Z :=
  le_bytes 4 ELF_MAGIC ++ [ELFCLASS64; ELFDATA2LSB; 1] ++ repeat 0 9 ++
  le_bytes 2 ET_EXEC ++ le_bytes 2 EM_X86_64 ++ le_bytes 4 1 ++ le_bytes 8 vaddr ++ le_bytes 8 64 ++
  le_bytes 8 0 ++ le_bytes 4 0 ++ le_bytes 2 64 ++ le_bytes 2 56 ++ le_bytes 2 1 ++ repeat 0 6 ++
  le_bytes 4 PT_LOAD ++ le_bytes 4 5 ++ le_bytes 8 120 ++ le_bytes 8 vaddr ++ le_bytes 8 vaddr ++
  le_bytes 8 4 ++ le_bytes 8 6 ++ le_bytes 8 4096 ++ [0xAA; 0xBB; 0xCC; 0xDD].

Definition demo_phdr (vaddr : Z) : phdr := Phdr PT_LOAD 5 120 vaddr vaddr 4 6 4096.
Definition demo_proc : elf_proc pmm := ElfProc demo_vm demo_root 0 0.

Lemma elf_load_correct_witness :
  exists ret p', elf_load (demo_elf 0x400000) demo_proc = Some (ret, Some (e_entry (demo_elf 0x400000)), p') /\
    vm_ok (space p') demo_root /\
    (ret = - E_NOMEM \/
     (ret = 0 /\ heap_start p' = 0x401000 /\ heap_end p' = (if 0 <? heap_start p' then heap_start p' else 0) /\
      forall ph x, ph ∈ [demo_phdr 0x400000] -> p_vaddr ph <= x < p_vaddr ph + p_memsz ph ->
        x < heap_start p' /\ vmm_get_physical demo_root x (space p') <> 0 /\
        user_byte demo_root x (space p') = seg_byte (demo_elf 0x400000) ph x /\
        exists e, leaf (pages (space p')) demo_root x = Some (false, e) /\ rights_of ph e)).
Proof.
  apply (elf_load_correct (demo_elf 0x400000) [demo_phdr 0x400000] demo_proc).
  - repeat (constructor; [split; [discriminate|reflexivity]|]). constructor.
  - vm_compute. reflexivity.
  - vm_compute. reflexivity.
  - change (List.filter loadable [demo_phdr 0x400000]) with [demo_phdr 0x400000]. constructor; [|constructor].
    assert (length (demo_elf 0x400000) = 124%nat) as E by reflexivity.
    split; cbn [demo_phdr p_vaddr p_memsz p_filesz p_offset]; rewrite ?E; try lia. by exists 0x400.
  - change (List.filter loadable [demo_phdr 0x400000]) with [demo_phdr 0x400000]. by split.
  - apply demo_vm_ok.
Defined.

(** The address [vmm_get_physical] returns contains the offset in the page, and
    the copy loop adds it again: a segment that does not start at a page
    boundary is copied to twice its offset. *)
Example unaligned_segment_misplaced :
  seg_byte (demo_elf 0x400010) (demo_phdr 0x400010) 0x400010 = 0xAA /\
  (fun '(ret, _, p) => (ret, user_byte demo_root 0x400010 (space p), user_byte demo_root 0x400020 (space p))) <$>
    elf_load (demo_elf 0x400010) demo_proc = Some (0, 0, 0xAA).
Proof. split; vm_compute; reflexivity. Qed.

(** In the upper half of a page the copy leaves the frame, here for the table
    that was allocated behind it. *)
Example unaligned_segment_hits_table :
  (fun '(ret, _, p) =>
     let t := PHYS_TO_VIRT (vmm_get_physical demo_root 0x400000 (space p) + 4096) in
     (ret, bool_decide (walk (pages (space p)) demo_root [0] = Some t), pages (space p) t (0x400 / 8))) <$>
    elf_load (demo_elf 0x400A00) demo_proc = Some (0, true, 0xDDCCBBAA).
Proof. vm_compute. reflexivity. Qed.
