(* ===== verification/KAlloc.v ===== *)
(** * What the kernel heap promises to its clients

    The RAM file system calls [kmalloc], [krealloc] and [kfree].  Its model is
    written against the operations and laws below; [HeapAlloc.v] shows that
    [memory/heap.c] satisfies them.  The laws speak of the requests that the
    heap can serve: [k_freeable] and [k_resizable] leave out the calls on which
    [kfree] corrupts its free list. *)

From S2P Require Import Prelude.

(** The operations; [None] is a call that panics or does not return. *)
Class KAlloc (A : Type) := {
  k_malloc : Z -> A -> option (Z * A);
  k_realloc : Z -> Z -> A -> option (Z * A);
  k_free : Z -> A -> option A;
  k_inv : A -> Prop;
  (** The address is that of an allocation. *)
  k_live : A -> Z -> Prop;
  k_freeable : A -> Z -> Prop;
  k_resizable : A -> Z -> Z -> Prop
}.

(** The largest request the laws speak of. *)
Definition K_MAX : Z := 2 ^ 40.

Class KAllocLaws (A : Type) `{KAlloc A} := {
  (** Resizing the null pointer is an allocation. *)
  resizable_null h n : k_resizable h 0 n;
  live_range h p : k_inv h -> k_live h p -> 0 < p < 2 ^ 64;
  (** An allocation fails and changes nothing, or adds one address. *)
  malloc_spec h n : k_inv h -> 0 < n <= K_MAX ->
    exists p h', k_malloc n h = Some (p, h') /\ k_inv h' /\
      ((p = 0 /\ forall q, k_live h' q <-> k_live h q) \/
       (p <> 0 /\ ~ k_live h p /\ forall q, k_live h' q <-> q = p \/ k_live h q));
  (** Freeing removes exactly the address. *)
  free_spec h p : k_inv h -> k_freeable h p ->
    exists h', k_free p h = Some h' /\ k_inv h' /\ forall q, k_live h' q <-> q <> p /\ k_live h q;
  (** A resized area may move; if it cannot grow the old one stays. *)
  realloc_spec h p n : k_inv h -> 0 < n <= K_MAX -> p = 0 \/ k_live h p -> k_resizable h p n ->
    exists q h', k_realloc p n h = Some (q, h') /\ k_inv h' /\
      ((q = 0 /\ forall r, k_live h' r <-> k_live h r) \/
       (q <> 0 /\ (q = p \/ ~ k_live h q) /\
        forall r, k_live h' r <-> r = q \/ (r <> p /\ k_live h r)))
}.

(** Every allocation can be given back: what the clients rely on that free
    their buffers.  The kernel heap promises it only where [k_freeable] holds. *)
Class KFreeLaws (A : Type) `{KAlloc A} := {
  live_freeable h p : k_inv h -> k_live h p -> k_freeable h p
}.

(** ** A reference allocator

    Addresses are handed out in increasing order and never used again. *)

Record bump := Bump { bump_next : Z; bump_live : gset Z; bump_end : Z }.

Definition bump_malloc (n : Z) (h : bump) : option (Z * bump) :=
  if bump_end h <? bump_next h + n + 16 then Some (0, h)
  else Some (bump_next h, Bump (bump_next h + n + 16) ({[bump_next h]} ∪ bump_live h) (bump_end h)).

Definition bump_free (p : Z) (h : bump) : option bump :=
  if bool_decide (p ∈ bump_live h)
  then Some (Bump (bump_next h) (bump_live h ∖ {[p]}) (bump_end h)) else None.

Definition bump_realloc (p n : Z) (h : bump) : option (Z * bump) :=
  '(q, h) ← bump_malloc n h;
  if (q =? 0) || (p =? 0) then Some (q, h) else h ← bump_free p h; Some (q, h).

#[export] Instance bump_alloc : KAlloc bump := {|
  k_malloc := bump_malloc;
  k_realloc := bump_realloc;
  k_free := bump_free;
  k_inv h := 0 < bump_next h /\ bump_end h < 2 ^ 64 /\
    forall p, p ∈ bump_live h -> 0 < p < bump_next h /\ p < bump_end h;
  k_live h p := p ∈ bump_live h;
  k_freeable h p := p ∈ bump_live h;
  k_resizable _ _ _ := True
|}.

Lemma bump_malloc_spec h n :
  k_inv h -> 0 < n <= K_MAX ->
  exists p h', bump_malloc n h = Some (p, h') /\ k_inv h' /\
    ((p = 0 /\ forall q, k_live h' q <-> k_live h q) \/
     (p <> 0 /\ ~ k_live h p /\ forall q, k_live h' q <-> q = p \/ k_live h q)).
Proof.
  intros (H1 & H2 & H3) Hn. unfold bump_malloc. case_if; bools.
  - exists 0, h. split; [done|]. split; [done|]. by left.
  - eexists _, _. split; [done|]. split.
    + cbn. split_and!; [lia|done|]. intros p [->%elem_of_singleton|Hp]%elem_of_union; [lia|].
      specialize (H3 p Hp). lia.
    + right. cbn. split_and!; [lia| |set_solver]. intros Hl. specialize (H3 _ Hl). lia.
Qed.

Lemma bump_free_spec h p :
  k_inv h -> k_live h p ->
  exists h', bump_free p h = Some h' /\ k_inv h' /\ forall q, k_live h' q <-> q <> p /\ k_live h q.
Proof.
  intros (H1 & H2 & H3) Hp. unfold bump_free. rewrite bool_decide_eq_true_2 by exact Hp.
  eexists. split; [done|]. split; [|cbn; set_solver]. cbn. split_and!; [done|done|].
  intros q Hq. apply H3. set_solver.
Qed.

#[export] Instance bump_alloc_laws : KAllocLaws bump.
Proof.
  split.
  - done.
  - intros h p (H1 & H2 & H3) Hp. specialize (H3 p Hp). lia.
  - apply bump_malloc_spec.
  - intros h p Hi Hp. by apply bump_free_spec.
  - intros h p n Hi Hn Hp _. change (k_realloc p n h) with (bump_realloc p n h). unfold bump_realloc.
    destruct (bump_malloc_spec h n Hi Hn) as (q & h' & -> & Hi' & [(-> & Hl)|(Hq & Hf & Hl)]);
      cbn [mbind option_bind].
    { exists 0, h'. split; [done|]. split; [done|]. by left. }
    rewrite (proj2 (Z.eqb_neq q 0) Hq). cbn [orb]. destruct (Z.eqb_spec p 0) as [->|Hp0].
    + exists q, h'. split; [done|]. split; [done|]. right. split_and!; [done|by right|].
      intros r. rewrite Hl. split; [|tauto]. intros [?|Hr]; [by left|]. right. split; [|done].
      intros ->. destruct Hi as (_ & _ & H3). specialize (H3 0 Hr). lia.
    + destruct Hp as [?|Hp]; [done|]. destruct (bump_free_spec h' p Hi') as (h2 & -> & Hi2 & Hl2).
      { apply Hl. by right. }
      exists q, h2. split; [done|]. split; [done|]. right. split_and!; [done|by right|].
      intros r. rewrite Hl2, Hl. split; [tauto|]. intros [->|?]; [|tauto]. split; [|by left].
      intros ->. done.
Qed.

#[export] Instance bump_free_laws : KFreeLaws bump.
Proof. by split. Qed.
