(* ===== verification/HeapAlloc.v ===== *)
(** * The kernel heap as the allocator of its clients ([memory/heap.c])

    [krealloc], how many steps the loops of the heap take, and the proof that
    the heap satisfies the interface of [KAlloc.v]. *)

From S2P Require Import Prelude CString Vmm Heap KAlloc.

Section alloc.
Context {M : Type} `{PageMapLaws M}.
Implicit Types (h : heap M) (bs fl : list Z) (p q n : Z).

(** ** The loops are bounded by the size of the heap *)

(** Every block takes a header: the lists are no longer than this. *)
Definition heap_fuel h : nat := Z.to_nat ((heap_end_addr h - heap_start_addr h) / HDR_SIZE) + 5.

Lemma tiles_length (B : Z -> heap_block) a e bs : tiles B a e bs -> Z.of_nat (length bs) * HDR_SIZE <= e - a.
Proof.
  revert a. induction bs as [|b bs IH]; intros a; cbn [tiles length]; [lia|].
  intros (-> & _ & Hs & _ & Ht%IH). rewrite HDR_SIZE_val in *. lia.
Qed.

Lemma free_list_fuel h bs fl o : heap_wf h bs fl o -> (length fl + 4 < heap_fuel h)%nat.
Proof.
  intros I. assert (length fl <= length bs)%nat as Hle.
  { apply submseteq_length, NoDup_submseteq; [apply I|]. intros x Hx. by apply (hi_free _ _ _ _ I) in Hx as [? _]. }
  pose proof (tiles_length _ _ _ _ (hi_tiles _ _ _ _ I)) as Ht. destruct (hi_end _ _ _ _ I) as [He _].
  unfold heap_fuel. rewrite HDR_SIZE_val in *.
  assert (Z.of_nat (length bs) <= (heap_end_addr h - heap_start_addr h) / 32) by (apply Z.div_le_lower_bound; lia). lia.
Qed.

(** The blocks are determined by the headers. *)
Lemma tiles_unique (B : Z -> heap_block) a e bs bs' : tiles B a e bs -> tiles B a e bs' -> bs = bs'.
Proof.
  revert a bs'. induction bs as [|b bs IH]; intros a [|b' bs']; cbn [tiles]; [done| | |].
  - intros -> (-> & _ & Hs & _ & Ht%tiles_le). rewrite HDR_SIZE_val in Ht. lia.
  - intros (-> & _ & Hs & _ & Ht%tiles_le) ->. rewrite HDR_SIZE_val in Ht. lia.
  - intros (-> & _ & _ & _ & T1) (-> & _ & _ & _ & T2). f_equal. by eapply IH.
Qed.

Lemma heap_blocks_unique h bs fl o bs' fl' o' : heap_wf h bs fl o -> heap_wf h bs' fl' o' -> bs = bs'.
Proof. intros I J. eapply tiles_unique; [apply I|apply J]. Qed.

(** ** Bounds of the heap *)

Lemma take_block_bounds prev c size h :
  heap_start_addr (take_block prev c size h).2 = heap_start_addr h /\
  heap_end_addr (take_block prev c size h).2 = heap_end_addr h.
Proof. unfold take_block, set_link. case_if; destruct prev; done. Qed.

Lemma expand_heap_bounds n h r h' :
  expand_heap n h = Done (r, h') -> heap_start_addr h' = heap_start_addr h /\ heap_end_addr h' = heap_end_addr h.
Proof.
  unfold expand_heap. cbv zeta. case_if; [by intros [= <- <-]|]. destruct (map_pages _ _ _) as [ret m].
  case_if; [by intros [= <- <-]|]. case_if; [done|]. by intros [= <- <-].
Qed.

Lemma kmalloc_bounds fuel n h p h' :
  kmalloc fuel n h = Done (p, h') -> heap_start_addr h' = heap_start_addr h /\ heap_end_addr h' = heap_end_addr h.
Proof.
  revert n h. induction fuel as [|fuel IH]; intros n h; cbn [kmalloc]; [done|]. case_if; [by intros [= <- <-]|].
  cbv zeta. destruct (find_fit _ _ _ _ _) as [[[prev c]|]| |]; cbn [obind]; try done.
  - pose proof (take_block_bounds prev c (ALIGN_UP (Z.max n HEAP_MIN_ALLOC) 16) h) as Hb.
    destruct (take_block _ _ _ _) as [q g]. intros [= <- <-]. exact Hb.
  - destruct (expand_heap _ _) as [[r g]| |] eqn:E; cbn [obind]; try done. apply expand_heap_bounds in E as [E1 E2].
    case_if; [by intros [= <- <-]|]. intros [E3 E4]%IH. split; congruence.
Qed.

Lemma kmalloc_fuel fuel n h p h' : kmalloc fuel n h = Done (p, h') -> heap_fuel h' = heap_fuel h.
Proof. intros [E1 E2]%kmalloc_bounds. unfold heap_fuel. by rewrite E1, E2. Qed.

(** The data areas do not matter for the shape of the heap. *)
Lemma heap_inv_data h bs fl m : heap_inv h bs fl -> heap_inv (set_data m h) bs fl.
Proof. intros [[] ?]. split; [split; done|done]. Qed.

Lemma freeable_data h bs fl c m : freeable h bs fl c -> freeable (set_data m h) bs fl c.
Proof. intros []. split; done. Qed.

(** ** krealloc *)

Lemma live_block h bs fl o p sz :
  heap_wf h bs fl o -> (p, sz) ∈ live (hdr h) bs ->
  0 < p < 2 ^ 64 /\ ptr_to_block p = p - HDR_SIZE /\ b_magic (hdr h (p - HDR_SIZE)) = HEAP_MAGIC /\
  b_size (hdr h (p - HDR_SIZE)) = sz /\ p - HDR_SIZE ∈ bs.
Proof.
  intros I (b & Hb & Hf & -> & ->)%live_block_in. unfold ptr_to_block.
  destruct (wf_block _ _ _ _ _ I Hb) as (Hb0 & _ & _ & Hbe & Hbm & Hmag & Hs & _). rewrite HDR_SIZE_val in *.
  replace (b + 32 - 32) with b by lia. rewrite u64_small by lia. split_and!; try done; lia.
Qed.

(** No two areas start at the same address. *)
Lemma live_nodup_keys h bs fl o : heap_wf h bs fl o -> NoDup (live (hdr h) bs).*1.
Proof.
  intros I. pose proof (tiles_NoDup _ _ _ _ (hi_tiles _ _ _ _ I)) as Hnd. unfold live. rewrite <- list_fmap_compose.
  apply NoDup_fmap_2_strong; [cbn; intros; lia|]. by apply NoDup_filter.
Qed.

(** The heap after the allocation and the copy, before the old area is freed. *)
Definition copied h p q : heap M :=
  set_data (memcpy (data h) q p (Z.to_nat (b_size (hdr h (p - HDR_SIZE))))) h.

(** The three ways [krealloc] goes. *)
Lemma krealloc_cases h bs fl p sz n fuel :
  heap_inv h bs fl -> (p, sz) ∈ live (hdr h) bs -> 0 < n <= MAX_REQUEST -> (length fl + 2 < fuel)%nat ->
  (n <= sz /\ krealloc fuel p n h = Done (p, h)) \/
  (sz < n /\ exists q h1 bs1 fl1, kmalloc fuel n h = Done (q, h1) /\ heap_inv h1 bs1 fl1 /\ data h1 = data h /\
     ((q = 0 /\ krealloc fuel p n h = Done (0, h1) /\ live (hdr h1) bs1 = live (hdr h) bs) \/
      (q <> 0 /\ allocated h bs n q h1 bs1 /\
       krealloc fuel p n h = obind (kfree fuel p (copied h1 p q)) (fun g => Done (q, g))))).
Proof.
  intros I Hp Hn Hf. destruct (live_block h bs fl None p sz (proj1 I) Hp) as (Hp0 & Eb & Hm & Hs & _).
  unfold krealloc. rewrite (proj2 (Z.eqb_neq p 0)), (proj2 (Z.eqb_neq n 0)), Eb, Hm, Z.eqb_refl, Hs by lia. cbn [negb].
  destruct (Z.leb_spec n sz) as [Hle|Hgt]; [by left|]. right. split; [lia|].
  destruct (kmalloc_spec h bs fl n fuel I Hn Hf) as (q & h1 & bs1 & fl1 & E & J & Jd & HJ). exists q, h1, bs1, fl1.
  split_and!; try done. rewrite E. cbn [obind]. destruct HJ as [(-> & Hl)|(Hq & Ha)]; [by left|]. right.
  by rewrite (proj2 (Z.eqb_neq q 0) Hq).
Qed.

(** ** The interface *)

Definition done_or {T} (r : outcome T) : option T := match r with Done x => Some x | _ => None end.

Definition heap_live h p : Prop := exists bs fl sz, heap_inv h bs fl /\ (p, sz) ∈ live (hdr h) bs.
Definition heap_freeable h p : Prop :=
  exists bs fl, heap_inv h bs fl /\ freeable h bs fl (p - HDR_SIZE).

#[export] Instance heap_alloc : KAlloc (heap M) := {|
  k_malloc n h := done_or (kmalloc (heap_fuel h) n h);
  k_realloc p n h := done_or (krealloc (heap_fuel h) p n h);
  k_free p h := done_or (kfree (heap_fuel h) p h);
  k_inv h := exists bs fl, heap_inv h bs fl;
  k_live := heap_live;
  k_freeable := heap_freeable;
  k_resizable h p n := p = 0 \/ n <= b_size (hdr h (p - HDR_SIZE)) \/
    forall q h1, kmalloc (heap_fuel h) n h = Done (q, h1) -> q <> 0 -> heap_freeable h1 p |}.

Lemma heap_live_in h bs fl p : heap_inv h bs fl -> heap_live h p <-> p ∈ (live (hdr h) bs).*1.
Proof.
  intros I. split.
  - intros (bs' & fl' & sz & J & Hp). rewrite (heap_blocks_unique h bs fl None bs' fl' None (proj1 I) (proj1 J)).
    by apply (list_elem_of_fmap_2 fst _ (p, sz)).
  - intros ([q sz] & -> & Hp)%list_elem_of_fmap_1. by exists bs, fl, sz.
Qed.

Lemma heap_live_perm h bs fl (l : list (Z * Z)) p :
  heap_inv h bs fl -> live (hdr h) bs ≡ₚ l -> heap_live h p <-> p ∈ l.*1.
Proof. intros I Hl. rewrite (heap_live_in h bs fl p I). by rewrite Hl. Qed.

Lemma heap_malloc_law h n :
  k_inv h -> 0 < n <= K_MAX ->
  exists p h', k_malloc n h = Some (p, h') /\ k_inv h' /\
    ((p = 0 /\ forall q, k_live h' q <-> k_live h q) \/
     (p <> 0 /\ ~ k_live h p /\ forall q, k_live h' q <-> q = p \/ k_live h q)).
Proof.
  intros (bs & fl & I) Hn. pose proof (free_list_fuel h bs fl None (proj1 I)) as Hlf.
  destruct (kmalloc_spec h bs fl n (heap_fuel h) I Hn ltac:(lia)) as (p & h' & bs' & fl' & E & J & _ & HJ).
  exists p, h'. split; [cbn; by rewrite E|]. split; [by exists bs', fl'|].
  destruct HJ as [(-> & Hl)|(Hp & sz & _ & Hl & _)].
  - left. split; [done|]. intros q. cbn. rewrite (heap_live_in h' bs' fl' q J), (heap_live_in h bs fl q I). by rewrite Hl.
  - right. split; [done|]. pose proof (live_nodup_keys h' bs' fl' None (proj1 J)) as Hnd. rewrite Hl in Hnd.
    apply NoDup_cons in Hnd as [Hnd _]. split; [by rewrite (heap_live_in h bs fl p I)|].
    intros q. cbn. rewrite (heap_live_perm h' bs' fl' _ q J Hl), (heap_live_in h bs fl q I). apply elem_of_cons.
Qed.

Lemma heap_free_law h p :
  k_inv h -> k_freeable h p -> forall fuel, (heap_fuel h <= fuel)%nat ->
  exists h', kfree fuel p h = Done h' /\ k_inv h' /\ forall q, k_live h' q <-> q <> p /\ k_live h q.
Proof.
  intros _ (bs & fl & I & F) fuel Hfuel. pose proof (free_list_fuel h bs fl None (proj1 I)) as Hlf.
  destruct (kfree_freed h bs fl (p - HDR_SIZE) fuel I F ltac:(lia)) as (h' & bs' & fl' & E & J & _ & Hl).
  replace (p - HDR_SIZE + HDR_SIZE) with p in * by lia. exists h'. split; [done|]. split; [by exists bs', fl'|].
  intros q. cbn. rewrite (heap_live_in h' bs' fl' q J), (heap_live_perm h bs fl _ q I Hl). cbn.
  pose proof (live_nodup_keys h bs fl None (proj1 I)) as Hnd. rewrite Hl in Hnd. apply NoDup_cons in Hnd as [Hnd _].
  rewrite elem_of_cons. split; [|tauto]. intros Hq. split; [|by right]. intros ->. done.
Qed.

Lemma heap_realloc_law h p n :
  k_inv h -> 0 < n <= K_MAX -> p = 0 \/ k_live h p -> k_resizable h p n ->
  exists q h', k_realloc p n h = Some (q, h') /\ k_inv h' /\
    ((q = 0 /\ forall r, k_live h' r <-> k_live h r) \/
     (q <> 0 /\ (q = p \/ ~ k_live h q) /\ forall r, k_live h' r <-> r = q \/ (r <> p /\ k_live h r))).
Proof.
  intros (bs & fl & I) Hn Hp Hr. destruct (heap_malloc_law h n ltac:(by exists bs, fl) Hn) as (q & h1 & Em & I1 & Hm).
  assert (~ k_live h 0) as H00.
  { intros ([x sz] & E & Hx)%(heap_live_in h bs fl 0 I)%list_elem_of_fmap_1. cbn in E. subst x.
    destruct (live_block _ _ _ _ _ _ (proj1 I) Hx) as [? _]. lia. }
  destruct Hp as [->|Hp].
  { exists q, h1. split; [exact Em|]. split; [done|]. destruct Hm as [?|(Hq & Hf & Hl)]; [by left|]. right.
    split_and!; [done|by right|]. intros r. rewrite Hl. split; [|tauto]. intros [?|Hrl]; [by left|]. right. split; [|done].
    intros ->. done. }
  pose proof Hp as ([x sz] & E & Hx)%(heap_live_in h bs fl p I)%list_elem_of_fmap_1. cbn in E. subst x.
  destruct (live_block _ _ _ _ _ _ (proj1 I) Hx) as (Hp0 & _ & _ & Es & _).
  pose proof (free_list_fuel h bs fl None (proj1 I)) as Hlf.
  destruct (krealloc_cases h bs fl p sz n (heap_fuel h) I Hx Hn ltac:(lia)) as [(Hle & E)|(Hgt & q' & h1' & bs1 & fl1 & E1 & J & _ & HJ)].
  { exists p, h. split; [cbn; by rewrite E|]. split; [by exists bs, fl|]. right. split_and!; [lia|by left|].
    intros r. destruct (decide (r = p)) as [->|]; tauto. }
  cbn in Em. rewrite E1 in Em. injection Em as -> ->. destruct HJ as [(-> & E & _)|(Hq & _ & E)].
  { destruct Hm as [(_ & Hl)|(? & _)]; [|done]. exists 0, h1. split; [cbn; by rewrite E|]. split; [done|]. by left. }
  destruct Hm as [(? & _)|(_ & Hf & Hl)]; [done|].
  destruct Hr as [?|[Hr|Hr]]; [lia|rewrite Es in Hr; lia|]. destruct (Hr q h1 E1 Hq) as (bs2 & fl2 & J2 & F2).
  destruct (heap_free_law (copied h1 p q) p) with (fuel := heap_fuel h) as (h2 & E2 & I2 & Hl2).
  - exists bs2, fl2. by apply heap_inv_data.
  - exists bs2, fl2. split; [by apply heap_inv_data|by apply freeable_data].
  - change (heap_fuel (copied h1 p q)) with (heap_fuel h1). by rewrite (kmalloc_fuel _ _ _ _ _ E1).
  - exists q, h2. split; [cbn; rewrite E, E2; done|]. split; [done|]. right. split_and!; [done|by right|].
    assert (forall r, k_live (copied h1 p q) r <-> k_live h1 r) as Hc.
    { intros r. change (heap_live (copied h1 p q) r <-> heap_live h1 r). unfold copied.
      rewrite (heap_live_in h1 bs2 fl2 r J2). by rewrite (heap_live_in _ bs2 fl2 r (heap_inv_data _ _ _ _ J2)). }
    intros r. rewrite Hl2, Hc, Hl. split; [tauto|]. intros [->|?]; [|tauto]. split; [|by left]. intros ->. done.
Qed.

#[export] Instance heap_alloc_laws : KAllocLaws (heap M).
Proof.
  split.
  - intros h n. by left.
  - intros h p (bs & fl & I) ([x sz] & E & Hx)%(heap_live_in h bs fl p I)%list_elem_of_fmap_1. cbn in E. subst x.
    by apply (live_block _ _ _ _ _ _ (proj1 I) Hx).
  - apply heap_malloc_law.
  - intros h p Hi Hf. destruct (heap_free_law h p Hi Hf (heap_fuel h) ltac:(lia)) as (h' & E & ?). exists h'. cbn. by rewrite E.
  - apply heap_realloc_law.
Qed.

End alloc.

(** ** Example: growing the first of three areas *)

Lemma demo_grow :
  match kmalloc 8 200 demo_heap with
  | Done (q, h1) => q = HEAP_BASE + 464 /\ heap_start_addr h1 = HEAP_BASE /\ heap_current h1 = HEAP_BASE + 0x101000 /\
      hdr h1 HEAP_BASE = Block HEAP_MAGIC 0 112 (HEAP_BASE + 144) /\
      block_free (hdr h1 (HEAP_BASE + 144)) = false /\ free_list h1 = HEAP_BASE + 672 /\ b_next (hdr h1 (HEAP_BASE + 672)) = 0
  | _ => False
  end.
Proof. vm_compute. auto 10. Qed.

Lemma demo_grow_free q h1 bs1 fl1 :
  kmalloc 8 200 demo_heap = Done (q, h1) -> heap_inv h1 bs1 fl1 ->
  freeable h1 bs1 fl1 HEAP_BASE /\ (length fl1 + 2 < 8)%nat.
Proof.
  intros E [J _]. pose proof demo_grow as Hg. rewrite E in Hg. destruct Hg as (_ & G1 & G2 & G3 & G4 & G5 & G6). clear E.
  pose proof (hi_tiles _ _ _ _ J) as Ht. rewrite G1, G2 in Ht. split.
  - split; rewrite ?HDR_SIZE_val, ?G3.
    + split; [|reflexivity]. destruct bs1 as [|b bs1]; cbn [tiles] in Ht; [clear -Ht; unfold HEAP_BASE in Ht; lia|].
      destruct Ht as [-> _]. left.
    + intros b Hb _ _. destruct (wf_block _ _ _ _ _ J Hb) as (_ & _ & Hle & _ & _ & _ & Hs & _). rewrite G1 in Hle. clear -Hle Hs. lia.
    + right. left. exact G4.
  - pose proof (hi_chain _ _ _ _ J) as Hc. rewrite G5 in Hc. destruct fl1 as [|x fl1]; [simpl; lia|]. destruct Hc as (<- & _ & Hc).
    rewrite G6 in Hc. destruct fl1 as [|y fl1]; [simpl; lia|]. by destruct Hc as (<- & Hc & _).
Qed.

