(* ===== verification/Vfs.v ===== *)
(** * Virtual file system ([fs/vfs.c], [include/fs/vfs.h])

    The layer between paths and file systems: nodes, the table of operations a
    file system supplies, canonicalisation and resolution of paths, mount
    points, and the calls that dispatch to the table of a node.

    A pointer to a node is its address, [0] when null.  The node store is the
    interface [NodeStore]; what a file system does is a table [vfs_ops] of
    functions on the store.  A function returns [None] where the C code would
    touch memory it does not own: a node that is not in the store, or a path
    buffer written past its end.  Every path is a valid string; the three tests
    for a null path are not represented. *)

From S2P Require Import Prelude CString.

Definition VFS_FILE : Z := 0x01.
Definition VFS_DIRECTORY : Z := 0x02.
Definition O_CREAT : Z := 0x0040.
Definition O_TRUNC : Z := 0x0200.
Definition VFS_NAME_MAX : nat := 255.
Definition VFS_TYPE_FILE : Z := 1.
Definition VFS_TYPE_DIR : Z := 2.

(** The octal modes 0644 and 0755. *)
Definition MODE_0644 : Z := 0x1A4.
Definition MODE_0755 : Z := 0x1ED.

(** [errno.h] *)
Definition ENOENT : Z := 2.
Definition ENOMEM : Z := 12.
Definition ENOTDIR : Z := 20.
Definition EINVAL : Z := 22.
Definition ENOSPC : Z := 28.
Definition ENOSYS : Z := 38.

(** [sizeof(dir_path)], [sizeof(canon)], [sizeof(scratch)]: [VFS_NAME_MAX * 16]. *)
Definition PATH_BUF : nat := 4080.
#[global] Arguments VFS_NAME_MAX : simpl never.
#[global] Arguments PATH_BUF : simpl never.

(** ** Data *)

(** [vfs_node_t]; [vn_name] holds the 256 bytes of the array. *)
Record vfs_node := VfsNode {
  vn_name : list Z;
  vn_flags : Z;
  vn_mode : Z;
  vn_uid : Z;
  vn_gid : Z;
  vn_size : Z;
  vn_inode : Z;
  vn_atime : Z;
  vn_mtime : Z;
  vn_ctime : Z;
  vn_refcount : Z;
  vn_ops : Z;
  vn_impl : Z;
  vn_mountpoint : Z;
  vn_mount : Z }.

Definition eta_node (n : vfs_node) : vfs_node :=
  VfsNode (vn_name n) (vn_flags n) (vn_mode n) (vn_uid n) (vn_gid n) (vn_size n) (vn_inode n)
    (vn_atime n) (vn_mtime n) (vn_ctime n) (vn_refcount n) (vn_ops n) (vn_impl n)
    (vn_mountpoint n) (vn_mount n).
Definition set_vn_size (n : vfs_node) (v : Z) : vfs_node := ltac:(set_field eta_node vn_size n v).
Definition set_vn_refcount (n : vfs_node) (v : Z) : vfs_node :=
  ltac:(set_field eta_node vn_refcount n v).
Definition set_vn_mountpoint (n : vfs_node) (v : Z) : vfs_node :=
  ltac:(set_field eta_node vn_mountpoint n v).
Definition set_vn_mount (n : vfs_node) (v : Z) : vfs_node :=
  ltac:(set_field eta_node vn_mount n v).

Record vfs_dirent := VfsDirent { de_name : list Z; de_inode : Z; de_type : Z; de_size : Z }.

Record vfs_stat_t := VfsStat {
  st_size : Z; st_type : Z; st_mode : Z; st_uid : Z; st_gid : Z;
  st_atime : Z; st_mtime : Z; st_ctime : Z }.

Definition is_dir (n : vfs_node) : bool := negb (vn_flags n .& VFS_DIRECTORY =? 0).

(** [vfs_ops_t]: a null function pointer is [None].  [read] also returns the
    bytes it put in the caller's buffer; [write] takes the bytes of the
    caller's buffer, whose length is [size]. *)
Record vfs_ops (FS : Type) := VfsOps {
  op_read : option (Z -> Z -> Z -> FS -> option (Z * list Z * FS));
  op_write : option (Z -> Z -> list Z -> FS -> option (Z * FS));
  op_finddir : option (Z -> list Z -> FS -> option (Z * FS));
  op_readdir : option (Z -> Z -> FS -> option (option vfs_dirent * FS));
  op_mkdir : option (Z -> list Z -> Z -> FS -> option (Z * FS));
  op_create : option (Z -> list Z -> Z -> FS -> option (Z * FS));
  op_unlink : option (Z -> list Z -> FS -> option (Z * FS));
  op_open : option (Z -> Z -> FS -> option FS);
  op_close : option (Z -> FS -> option FS) }.
Arguments VfsOps {FS}.
Arguments op_read {FS}. Arguments op_write {FS}. Arguments op_finddir {FS}.
Arguments op_readdir {FS}. Arguments op_mkdir {FS}. Arguments op_create {FS}.
Arguments op_unlink {FS}. Arguments op_open {FS}. Arguments op_close {FS}.

(** The memory the nodes live in: [*node], and [*node = n]. *)
Class NodeStore (FS : Type) := {
  get_node : FS -> Z -> option vfs_node;
  set_node : Z -> vfs_node -> FS -> FS }.

(** The static [vfs_root_node] and the store. *)
Record vfs (FS : Type) := Vfs { vfs_root_node : Z; vfs_store : FS }.
Arguments Vfs {FS}. Arguments vfs_root_node {FS}. Arguments vfs_store {FS}.

(** ** Paths *)

(** A buffer filled by [strncpy(buf, s, n)] and terminated at [buf[n]]. *)
Definition copy_string (s : list Z) (n : nat) : list Z := c_str (strncpy_bytes s n ++ [0]).

(** [while ( *p == '/') p++] *)
Fixpoint skip_slashes (p : list Z) : list Z :=
  match p with
  | x :: p' => if x =? 47 then skip_slashes p' else p
  | [] => []
  end.

(** [while ( *p && *p != '/') p++]: how far [p] moves. *)
Fixpoint name_len (p : list Z) : nat :=
  match p with
  | x :: p' => if negb (x =? 0) && negb (x =? 47) then S (name_len p') else 0
  | [] => 0
  end.

(** What one component does to [parts[0..depth-1]]. *)
Definition canon_push (parts : list (list Z)) (start : list Z) : list (list Z) :=
  if (ch start =? 46) && (ch (tl start) =? 0) then parts
  else if (ch start =? 46) && (ch (tl start) =? 46) && (ch (tl (tl start)) =? 0) then
    (if (0 <? length parts)%nat then take (length parts - 1) parts else parts)
  else if (length parts <? 64)%nat then parts ++ [start] else parts.

(** The tokenising loop; every iteration consumes a character. *)
Fixpoint canon_parts (fuel : nat) (p : list Z) (parts : list (list Z)) : list (list Z) :=
  match fuel with
  | O => parts
  | S fuel =>
      if ch p =? 0 then parts
      else
        let p := skip_slashes p in
        if ch p =? 0 then parts
        else
          let start := take (name_len p) p in
          let p := drop (name_len p) p in
          let p := if ch p =? 0 then p else tl p in
          canon_parts fuel p (canon_push parts start)
  end.

(** The reconstruction loop; [pos] is the length of [out]. *)
Fixpoint canon_emit (out_len : Z) (first : bool) (parts : list (list Z)) (out : list Z) : list Z :=
  match parts with
  | [] => out
  | part :: parts =>
      if Z.of_nat (length out) <? out_len - 1 then
        let out := if negb first && (Z.of_nat (length out) <? out_len - 1) then out ++ [47]
                   else out in
        let len := Z.of_nat (strlen part) in
        let out := if Z.of_nat (length out) + len <? out_len - 1 then out ++ c_str part else out in
        canon_emit out_len false parts out
      else out
  end.

(** The string left in [out]. *)
Definition vfs_canonicalize (path : list Z) (out_len : Z) : list Z :=
  let scratch := copy_string path (PATH_BUF - 1) in
  let parts := canon_parts (S (length scratch)) scratch [] in
  if out_len <? 2 then [] else canon_emit out_len true parts [47].

(** The buffers [dir_path] and [name] that [vfs_open], [vfs_mkdir],
    [vfs_create] and [vfs_unlink] fill from a path; [name0] is what the stack
    array [name] held before.  [memcpy] runs past [dir_path] when the part
    before the last slash does not fit with its terminator. *)
Definition split_path (path name0 : list Z) : option (list Z * list Z) :=
  match strrchr path 47 with
  | Some slash =>
      let dir_len := (length path - length slash)%nat in
      if (dir_len <? PATH_BUF)%nat
      then Some (take dir_len path, c_str (strncpy name0 (tl slash) VFS_NAME_MAX))
      else None
  | None => Some ([], c_str (strncpy name0 path VFS_NAME_MAX))
  end.

(** ** Operations *)

Section vfs.
Context {FS : Type} `{NodeStore FS} (optab : Z -> vfs_ops FS).

(** [node->ops && node->ops->f]: the function, when both are there. *)
Definition node_op {F : Type} (sel : vfs_ops FS -> option F) (n : vfs_node) : option F :=
  if vn_ops n =? 0 then None else sel (optab (vn_ops n)).

Definition vfs_init (v : vfs FS) : vfs FS := Vfs 0 (vfs_store v).
Definition vfs_mount_root (root : Z) (v : vfs FS) : vfs FS := Vfs root (vfs_store v).
Definition vfs_root (v : vfs FS) : Z := vfs_root_node v.

Definition vfs_finddir (node : Z) (name : list Z) (st : FS) : option (Z * FS) :=
  if node =? 0 then Some (0, st) else
  n ← get_node st node;
  let node := if vn_mount n =? 0 then node else vn_mount n in
  n ← get_node st node;
  if is_dir n then
    match node_op op_finddir n with
    | None => Some (0, st)
    | Some finddir => finddir node name st
    end
  else Some (0, st).

(** The loop over the tokens of the canonical path. *)
Fixpoint walk (fuel : nat) (node : Z) (token saveptr : option (list Z)) (st : FS)
    : option (Z * FS) :=
  match token with
  | None => Some (node, st)
  | Some t =>
      if node =? 0 then Some (node, st)
      else
        match fuel with
        | O => None
        | S fuel =>
            n ← get_node st node;
            if is_dir n then
              '(node, st) ← vfs_finddir node t st;
              let '(token, saveptr) := strtok_r None [47] saveptr in
              walk fuel node token saveptr st
            else Some (0, st)
        end
  end.

Definition vfs_resolve_path (root : Z) (path : list Z) (st : FS) : option (Z * FS) :=
  if root =? 0 then Some (0, st) else
  let canon :=
    if ch path =? 47 then vfs_canonicalize path (Z.of_nat PATH_BUF)
    else vfs_canonicalize (c_str (47 :: strncpy_bytes path (PATH_BUF - 2) ++ [0]))
           (Z.of_nat PATH_BUF) in
  let p := tl canon in
  if ch p =? 0 then Some (root, st) else
  let tmp := copy_string p (PATH_BUF - 1) in
  let '(token, saveptr) := strtok_r (Some tmp) [47] None in
  walk (S (length tmp)) root token saveptr st.

(** [dir_path[0] ? vfs_resolve_path(dir_path) : vfs_root_node] *)
Definition find_parent (root : Z) (dir_path : list Z) (st : FS) : option (Z * FS) :=
  if ch dir_path =? 0 then Some (root, st) else vfs_resolve_path root dir_path st.

(** The part of [vfs_open] that creates a missing file. *)
Definition open_create (root : Z) (path name0 : list Z) (st : FS) : option (Z * FS) :=
  '(dir_path, name) ← split_path path name0;
  '(parent, st) ← find_parent root dir_path st;
  if parent =? 0 then Some (0, st) else
  p ← get_node st parent;
  if is_dir p then
    match node_op op_create p with
    | None => Some (0, st)
    | Some create =>
        '(r, st) ← create parent name MODE_0644 st;
        if r =? 0 then vfs_finddir parent name st else Some (0, st)
    end
  else Some (0, st).

Definition vfs_open (root : Z) (path : list Z) (flags : Z) (name0 : list Z) (st : FS)
    : option (Z * FS) :=
  '(node, st) ← vfs_resolve_path root path st;
  '(node, st) ← (if (node =? 0) && negb (flags .& O_CREAT =? 0)
                 then open_create root path name0 st else Some (node, st));
  if node =? 0 then Some (0, st) else
  n ← get_node st node;
  let st := if negb (flags .& O_TRUNC =? 0) && negb (is_dir n)
            then set_node node (set_vn_size n 0) st else st in
  st ← match node_op op_open n with
       | None => Some st
       | Some open => open node flags st
       end;
  n ← get_node st node;
  Some (node, set_node node (set_vn_refcount n (i32 (vn_refcount n + 1))) st).

Definition vfs_close (node : Z) (st : FS) : option FS :=
  if node =? 0 then Some st else
  n ← get_node st node;
  st ← match node_op op_close n with
       | None => Some st
       | Some close => close node st
       end;
  n ← get_node st node;
  Some (if 0 <? vn_refcount n then set_node node (set_vn_refcount n (vn_refcount n - 1)) st
        else st).

Definition vfs_read (node offset size : Z) (st : FS) : option (Z * list Z * FS) :=
  if node =? 0 then Some (-1, [], st) else
  n ← get_node st node;
  match node_op op_read n with
  | None => Some (-1, [], st)
  | Some read => read node offset size st
  end.

Definition vfs_write (node offset : Z) (buf : list Z) (st : FS) : option (Z * FS) :=
  if node =? 0 then Some (-1, st) else
  n ← get_node st node;
  match node_op op_write n with
  | None => Some (-1, st)
  | Some write => write node offset buf st
  end.

Definition _vfs_readdir_raw (node index : Z) (st : FS) : option (option vfs_dirent * FS) :=
  if node =? 0 then Some (None, st) else
  n ← get_node st node;
  let node := if vn_mount n =? 0 then node else vn_mount n in
  n ← get_node st node;
  if is_dir n then
    match node_op op_readdir n with
    | None => Some (None, st)
    | Some readdir => readdir node index st
    end
  else Some (None, st).

(** The result, and [*out] when it is written. *)
Definition vfs_readdir (node index : Z) (st : FS) : option (Z * option vfs_dirent * FS) :=
  if node =? 0 then Some (- EINVAL, None, st) else
  n ← get_node st node;
  if is_dir n then
    '(de, st) ← _vfs_readdir_raw node index st;
    match de with
    | None => Some (- ENOENT, None, st)
    | Some de => Some (0, Some de, st)
    end
  else Some (- ENOTDIR, None, st).

Definition vfs_mkdir (root : Z) (path name0 : list Z) (st : FS) : option (Z * FS) :=
  '(dir_path, name) ← split_path path name0;
  '(parent, st) ← find_parent root dir_path st;
  if parent =? 0 then Some (- ENOENT, st) else
  p ← get_node st parent;
  match node_op op_mkdir p with
  | None => Some (- ENOSYS, st)
  | Some mkdir => mkdir parent name MODE_0755 st
  end.

Definition vfs_create (root : Z) (path : list Z) (mode : Z) (name0 : list Z) (st : FS)
    : option (Z * FS) :=
  '(dir_path, name) ← split_path path name0;
  '(parent, st) ← find_parent root dir_path st;
  if parent =? 0 then Some (- ENOENT, st) else
  p ← get_node st parent;
  match node_op op_create p with
  | None => Some (- ENOSYS, st)
  | Some create => create parent name mode st
  end.

Definition vfs_unlink (root : Z) (path name0 : list Z) (st : FS) : option (Z * FS) :=
  '(dir_path, name) ← split_path path name0;
  '(parent, st) ← find_parent root dir_path st;
  if parent =? 0 then Some (- ENOENT, st) else
  p ← get_node st parent;
  match node_op op_unlink p with
  | None => Some (- ENOSYS, st)
  | Some unlink => unlink parent name st
  end.

Definition vfs_rmdir (root : Z) (path name0 : list Z) (st : FS) : option (Z * FS) :=
  vfs_unlink root path name0 st.

(** The directory a file system is mounted on: resolved, or else created and
    resolved again. *)
Definition mount_dir (root : Z) (path name0 : list Z) (st : FS) : option (Z * FS) :=
  '(mp, st) ← vfs_resolve_path root path st;
  if mp =? 0 then
    '(_, st) ← vfs_mkdir root path name0 st;
    vfs_resolve_path root path st
  else Some (mp, st).

Definition vfs_mount (path : list Z) (node : Z) (name0 : list Z) (v : vfs FS)
    : option (Z * vfs FS) :=
  let '(Vfs root st) := v in
  if node =? 0 then Some (- EINVAL, v)
  else if (ch path =? 47) && (ch (tl path) =? 0) then
    n ← get_node st node;
    Some (0, Vfs node (set_node node (set_vn_mountpoint n 0) st))
  else
    '(mp, st) ← mount_dir root path name0 st;
    if mp =? 0 then Some (- ENOENT, Vfs root st) else
    m ← get_node st mp;
    if is_dir m then
      let st := set_node mp (set_vn_mount m node) st in
      n ← get_node st node;
      Some (0, Vfs root (set_node node (set_vn_mountpoint n mp) st))
    else Some (- ENOTDIR, Vfs root st).

Definition vfs_stat (node : Z) (st : FS) : option (Z * option vfs_stat_t) :=
  if node =? 0 then Some (- EINVAL, None) else
  n ← get_node st node;
  Some (0, Some (VfsStat (vn_size n) (if is_dir n then VFS_TYPE_DIR else VFS_TYPE_FILE)
                   (vn_mode n) (vn_uid n) (vn_gid n) (vn_atime n) (vn_mtime n) (vn_ctime n))).

(** The reference for path resolution: descend by name. *)
Fixpoint lookup_names (node : Z) (names : list (list Z)) (st : FS) : option (Z * FS) :=
  match names with
  | [] => Some (node, st)
  | t :: names =>
      if node =? 0 then Some (0, st) else
      n ← get_node st node;
      if is_dir n then
        '(node, st) ← vfs_finddir node t st;
        lookup_names node names st
      else Some (0, st)
  end.
End vfs.

(** ** Canonical paths *)

(** The bytes of a C string. *)
Definition c_string (s : list Z) : Prop := Forall (fun x => 0 < x < 256) s.

Lemma c_string_no_zero s : c_string s -> no_zero s.
Proof. intros Hs. eapply Forall_impl; [exact Hs|]. simpl. lia. Qed.
Lemma c_string_bytes s : c_string s -> byte_list s.
Proof. intros Hs. eapply Forall_impl; [exact Hs|]. simpl. lia. Qed.
Lemma c_string_c_str s : c_string s -> c_str s = s.
Proof. intros Hs. by apply c_str_no_zero, c_string_no_zero. Qed.
#[export] Hint Resolve c_string_no_zero c_string_bytes : aether.

(** The components of a path: its non-empty pieces between slashes. *)
Definition comps (path : list Z) : list (list Z) := fields (fun x => x =? 47) path.

(** The reference for canonicalisation: a stack, topmost component first. *)
Definition norm_step (acc : list (list Z)) (t : list Z) : list (list Z) :=
  if decide (t = [46]) then acc
  else if decide (t = [46; 46]) then tl acc
  else t :: acc.
Definition normalize (ts : list (list Z)) : list (list Z) := rev (foldl norm_step [] ts).

(** The absolute path with the given components. *)
Definition path_of (ts : list (list Z)) : list Z :=
  match ts with [] => [47] | _ => concat (map (cons 47) ts) end.

(** A component: not empty, no slash, no terminator. *)
Definition component (t : list Z) : Prop :=
  t <> [] /\ Forall (fun x => 0 < x < 256 /\ x <> 47) t.

Lemma component_c_string t : component t -> c_string t.
Proof. intros [_ Ht]. eapply Forall_impl; [exact Ht|]. naive_solver. Qed.
#[export] Hint Resolve component_c_string : aether.

Lemma cut_Forall (P : Z -> Prop) p s :
  Forall P s -> Forall (Forall (fun x => P x /\ p x = false)) (cut p s).
Proof.
  induction 1 as [|x s Hx Hs IH]; simpl; [by repeat constructor|].
  destruct (p x) eqn:E; [by constructor|].
  destruct (cut p s) as [|w ws]; [by repeat constructor|].
  inversion IH; subst. by repeat constructor.
Qed.

Lemma comps_component path : c_string path -> Forall component (comps path).
Proof.
  intros Hp. unfold comps, fields. apply Forall_forall. intros t [Ht Hin]%list_elem_of_filter.
  split; [done|]. pose proof (cut_Forall _ (fun x => x =? 47) path Hp) as Hc.
  rewrite Forall_forall in Hc. eapply Forall_impl; [by apply Hc|]. simpl. intros x [? ?].
  bools. done.
Qed.

(** Splitting a path made of components gives them back. *)
Lemma comps_cons t s :
  component t -> (forall x, head s = Some x -> x = 47) -> comps (47 :: t ++ s) = t :: comps s.
Proof.
  intros [Hne Ht] Hs. unfold comps. rewrite fields_skip by done. unfold fields.
  rewrite cut_piece.
  - destruct s as [|x s]; simpl; [by destruct t|]. rewrite (Hs x eq_refl).
    rewrite Z.eqb_refl. simpl. destruct t; [done|]. simpl. done.
  - eapply Forall_impl; [exact Ht|]. simpl. intros x Hx. apply Z.eqb_neq. tauto.
  - intros x Hx. rewrite (Hs x Hx). done.
Qed.

Lemma comps_concat ts : Forall component ts -> comps (concat (map (cons 47) ts)) = ts.
Proof.
  induction 1 as [|t ts Ht Hts IH]; [done|]. cbn [map concat]. cbn [app].
  rewrite comps_cons; [by rewrite IH|done|]. by destruct ts; intros x [= <-].
Qed.

Lemma comps_path_of ts : Forall component ts -> comps (path_of ts) = ts.
Proof. intros Hts. unfold path_of. destruct ts; [done|]. by apply comps_concat. Qed.

(** What the stack holds comes from the path. *)
Lemma norm_foldl_subset (P : list Z -> Prop) ts acc :
  Forall P ts -> Forall P acc -> Forall P (foldl norm_step acc ts).
Proof.
  intros Hts. revert acc. induction Hts as [|t ts Ht Hts IH]; intros acc Ha; [done|].
  cbn [foldl]. apply IH. unfold norm_step. repeat case_decide; [done| |by constructor].
  by destruct Ha.
Qed.

Lemma normalize_Forall (P : list Z -> Prop) ts : Forall P ts -> Forall P (normalize ts).
Proof. intros Hts. apply Forall_rev. by apply norm_foldl_subset. Qed.

(** A normalised path holds no dots. *)
Lemma normalize_no_dots ts : Forall (fun t => t <> [46] /\ t <> [46; 46]) (normalize ts).
Proof.
  apply Forall_rev. generalize (Forall_nil_2 (fun t : list Z => t <> [46] /\ t <> [46; 46])).
  generalize (@nil (list Z)). induction ts as [|t ts IH]; intros acc Ha; [done|].
  cbn [foldl]. apply IH. unfold norm_step.
  repeat case_decide; [done|by destruct Ha|by constructor].
Qed.

Lemma foldl_norm_plain ts acc :
  Forall (fun t => t <> [46] /\ t <> [46; 46]) ts -> foldl norm_step acc ts = rev ts ++ acc.
Proof.
  intros Hts. revert acc. induction Hts as [|t ts [H1 H2] Hts IH]; intros acc; [done|].
  cbn [foldl rev]. rewrite IH. unfold norm_step. rewrite !decide_False by done.
  by rewrite <- app_assoc.
Qed.

(** Components without dots are left alone. *)
Lemma normalize_plain ts :
  Forall (fun t => t <> [46] /\ t <> [46; 46]) ts -> normalize ts = ts.
Proof.
  intros Hts. unfold normalize. rewrite foldl_norm_plain by done.
  by rewrite app_nil_r, rev_involutive.
Qed.

(** The bytes the components of a path take, each with its slash. *)
Lemma comps_weight s : (length (concat (map (cons 47%Z) (comps s))) <= S (length s))%nat.
Proof.
  assert (length (concat (map (cons 47%Z) (cut (fun x => x =? 47) s))) = S (length s)) as Hc.
  { induction s as [|x s IH]; [done|]. cbn [cut]. destruct (x =? 47); [cbn; by rewrite IH|].
    pose proof (cut_ne (fun x => x =? 47) s). destruct (cut _ s) as [|w ws]; [done|].
    cbn in *. lia. }
  rewrite <- Hc. unfold comps, fields. generalize (cut (fun x => x =? 47) s). intros l.
  induction l as [|w ws IH]; [done|]. rewrite filter_cons.
  case_decide; cbn; rewrite !length_app; cbn; lia.
Qed.

Lemma norm_weight ts acc :
  (length (concat (map (cons 47%Z) (foldl norm_step acc ts)))
   <= length (concat (map (cons 47%Z) acc)) + length (concat (map (cons 47%Z) ts)))%nat.
Proof.
  revert acc. induction ts as [|t ts IH]; intros acc; cbn [foldl]; [cbn; lia|].
  etransitivity; [apply IH|]. unfold norm_step. cbn. rewrite !length_app.
  repeat case_decide; [lia| |cbn; rewrite !length_app; cbn; lia].
  destruct acc; cbn; rewrite ?length_app; lia.
Qed.

Lemma length_concat_rev (l : list (list Z)) : length (concat (rev l)) = length (concat l).
Proof.
  induction l as [|x l IH]; [done|]. cbn. rewrite concat_app, !length_app, IH. cbn.
  rewrite app_nil_r. lia.
Qed.

Lemma normalize_weight s :
  (length (concat (map (cons 47%Z) (normalize (comps s)))) <= S (length s))%nat.
Proof.
  unfold normalize. rewrite map_rev, length_concat_rev. etransitivity; [apply norm_weight|].
  cbn. apply comps_weight.
Qed.

Lemma normalize_length ts : (length (normalize ts) <= length ts)%nat.
Proof.
  unfold normalize. rewrite length_rev.
  assert (forall acc, length (foldl norm_step acc ts) <= length acc + length ts)%nat as Hl.
  { induction ts as [|t ts IH]; intros acc; cbn [foldl]; [simpl; lia|]. etransitivity; [apply IH|].
    unfold norm_step. repeat case_decide; [|destruct acc|]; simpl; lia. }
  apply (Hl []).
Qed.

(** The scan of one component. *)
Lemma skip_slashes_comps p :
  c_string p -> c_string (skip_slashes p) /\ comps (skip_slashes p) = comps p /\
  (length (skip_slashes p) <= length p)%nat /\ (forall x, head (skip_slashes p) = Some x -> x <> 47).
Proof.
  induction 1 as [|x p Hx Hp IH]; simpl; [by split_and!; [constructor|..]|].
  destruct (Z.eqb_spec x 47) as [->|Hne].
  - destruct IH as (H1 & H2 & H3 & H4). split_and!; [done| |lia|done]. rewrite H2.
    unfold comps. by rewrite fields_skip.
  - split_and!; [by constructor|done|done|]. by intros ? [= <-].
Qed.

Lemma name_len_piece p :
  c_string p -> exists w r, p = w ++ r /\ name_len p = length w /\
    Forall (fun x => 0 < x < 256 /\ x <> 47) w /\ (forall x, head r = Some x -> x = 47).
Proof.
  induction 1 as [|x p Hx Hp (w & r & -> & Hl & Hw & Hr)]; [by exists [], []|]. cbn [name_len].
  rewrite (proj2 (Z.eqb_neq x 0)) by lia. destruct (Z.eqb_spec x 47) as [->|Hne]; cbn.
  - exists [], (47 :: w ++ r). split_and!; try done. by intros ? [= <-].
  - exists (x :: w), r. split_and!; try done; [by rewrite Hl|]. by constructor.
Qed.

(** The tokenising loop ends and pushes the components of the path in order. *)
Lemma canon_parts_comps fuel p parts :
  c_string p -> (length p < fuel)%nat ->
  canon_parts fuel p parts = foldl canon_push parts (comps p).
Proof.
  revert p parts. induction fuel as [|fuel IH]; intros p parts Hp Hf; [lia|]. cbn [canon_parts].
  destruct (skip_slashes_comps p Hp) as (Hq & <- & Hle & Hhd).
  destruct p as [|x p]; [done|]. inversion Hp as [|? ? Hx _]; subst. cbn [ch hd].
  rewrite (proj2 (Z.eqb_neq x 0)) by lia. set (q := skip_slashes (x :: p)) in *. clearbody q.
  destruct q as [|y q]; [done|]. inversion Hq as [|? ? Hy _]; subst. cbn [ch hd].
  rewrite (proj2 (Z.eqb_neq y 0)) by lia. specialize (Hhd y eq_refl).
  destruct (name_len_piece (y :: q) Hq) as (w & r & E & Hl & Hw & Hr).
  rewrite Hl, E, take_app_length, drop_app_length.
  destruct w as [|y' w]; [simpl in E; subst r; by specialize (Hr y eq_refl)|].
  assert (component (y' :: w)) as Hc by done. rewrite E in Hq, Hle.
  apply Forall_app in Hq as [_ Hq]. rewrite length_app in Hle.
  pose proof (comps_cons (y' :: w) r Hc Hr) as Hcc. unfold comps in Hcc at 1.
  rewrite fields_skip in Hcc by done. fold (comps ((y' :: w) ++ r)) in Hcc. rewrite Hcc.
  cbn [foldl]. destruct r as [|z r].
  - cbn [ch hd]. rewrite Z.eqb_refl. destruct fuel; [simpl in *; lia|done].
  - rewrite (Hr z eq_refl) in *. cbn [ch hd tl]. inversion Hq; subst.
    rewrite (proj2 (Z.eqb_neq 47 0)) by lia. rewrite IH; [|done|simpl in *; lia].
    unfold comps. by rewrite fields_skip.
Qed.

(** The tests on [start] recognise the two dot components. *)
Lemma canon_push_norm parts t :
  component t -> (length parts < 64)%nat -> canon_push parts t = rev (norm_step (rev parts) t).
Proof.
  intros Ht Hl. unfold canon_push, norm_step.
  rewrite (proj2 (Nat.ltb_lt (length parts) 64) Hl).
  assert ((ch t =? 46) && (ch (tl t) =? 0) = bool_decide (t = [46])) as ->.
  { destruct Ht as [Hne Ht]. destruct t as [|x [|y t]]; [done| |]; cbn.
    - rewrite andb_true_r. by destruct (Z.eqb_spec x 46); [subst|]; case_bool_decide; simplify_eq.
    - inversion Ht as [|? ? _ Hy]; inversion Hy; subst. rewrite (proj2 (Z.eqb_neq y 0)) by lia.
      rewrite andb_false_r. by case_bool_decide. }
  assert ((ch t =? 46) && (ch (tl t) =? 46) && (ch (tl (tl t)) =? 0)
          = bool_decide (t = [46; 46])) as ->.
  { destruct Ht as [Hne Ht]. destruct t as [|x [|y [|z t]]]; [done| | |]; cbn.
    - rewrite andb_false_r. by case_bool_decide.
    - rewrite andb_true_r. destruct (Z.eqb_spec x 46), (Z.eqb_spec y 46); subst; cbn;
        by case_bool_decide; simplify_eq.
    - inversion Ht as [|? ? _ Hy]; inversion Hy as [|? ? _ Hz]; inversion Hz; subst.
      rewrite (proj2 (Z.eqb_neq z 0)) by lia. rewrite andb_false_r. by case_bool_decide. }
  case_bool_decide; [rewrite decide_True by done; by rewrite rev_involutive|].
  rewrite decide_False by done. case_bool_decide.
  - rewrite decide_True by done. destruct (rev parts) as [|x r] eqn:E.
    + apply (f_equal (@rev _)) in E. rewrite rev_involutive in E. by subst.
    + apply (f_equal (@rev _)) in E. rewrite rev_involutive in E. subst. cbn.
      rewrite length_app, length_rev. cbn. rewrite Nat.add_1_r. cbn.
      by rewrite Nat.sub_0_r, <- length_rev, take_app_length.
  - rewrite decide_False by done. cbn. by rewrite rev_involutive.
Qed.

Lemma foldl_canon_push ts parts :
  Forall component ts -> (length parts + length ts <= 64)%nat ->
  foldl canon_push parts ts = rev (foldl norm_step (rev parts) ts).
Proof.
  intros Hts. revert parts. induction Hts as [|t ts Ht Hts IH]; intros parts Hl; cbn [foldl].
  { by rewrite rev_involutive. }
  cbn in Hl. rewrite canon_push_norm by (done || lia). rewrite IH, rev_involutive; [done|].
  rewrite length_rev. enough (length (norm_step (rev parts) t) <= S (length parts))%nat by lia.
  unfold norm_step. rewrite <- (length_rev parts).
  repeat case_decide; [|destruct (rev parts)|]; cbn; lia.
Qed.

(** The reconstruction writes every component when the result fits. *)
Lemma canon_emit_all ts out_len out :
  Forall component ts ->
  Z.of_nat (length out + length (concat (map (cons 47%Z) ts))) < out_len - 1 ->
  canon_emit out_len false ts out = out ++ concat (map (cons 47) ts).
Proof.
  intros Hts. revert out. induction Hts as [|t ts Ht Hts IH]; intros out Hl; cbn [canon_emit map concat].
  { by rewrite app_nil_r. }
  cbn in Hl. rewrite length_app in Hl. unfold strlen.
  rewrite (c_string_c_str t) by by apply component_c_string.
  assert ((Z.of_nat (length out) <? out_len - 1) = true) as -> by (apply Z.ltb_lt; lia).
  cbn [negb andb]. rewrite !length_app. cbn [length].
  assert ((Z.of_nat (length out + 1) + Z.of_nat (length t) <? out_len - 1) = true) as ->
    by (apply Z.ltb_lt; lia).
  rewrite IH by (rewrite !length_app; cbn; lia). rewrite <- !app_assoc. done.
Qed.

Lemma copy_string_id s n : c_string s -> (length s <= n)%nat -> copy_string s n = s.
Proof.
  intros Hs Hl. unfold copy_string. rewrite c_str_strncpy by done.
  by rewrite (c_string_c_str s), take_ge.
Qed.

(** Canonicalisation of a path that fits its buffers. *)
Lemma vfs_canonicalize_spec path :
  c_string path -> (length path < PATH_BUF - 2)%nat -> (length (comps path) <= 64)%nat ->
  vfs_canonicalize path (Z.of_nat PATH_BUF) = path_of (normalize (comps path)).
Proof.
  intros Hp Hl Hd. unfold vfs_canonicalize. rewrite copy_string_id by (done || lia).
  rewrite canon_parts_comps by (done || lia).
  pose proof (comps_component path Hp) as Hc. rewrite foldl_canon_push by done.
  change (rev (foldl norm_step (rev []) (comps path))) with (normalize (comps path)).
  pose proof (normalize_weight path) as Hw. pose proof (normalize_Forall _ _ Hc) as Hn.
  destruct (normalize (comps path)) as [|t ts]; [done|]. inversion Hn as [|? ? Ht Hts]; subst.
  cbn [canon_emit path_of]. cbn in Hw. rewrite length_app in Hw. unfold strlen.
  rewrite (c_string_c_str t) by by apply component_c_string.
  assert (forall n : nat, (n < PATH_BUF - 1)%nat -> (Z.of_nat n <? Z.of_nat PATH_BUF - 1) = true) as Hlt.
  { intros n Hn'. apply Z.ltb_lt. unfold PATH_BUF in *. lia. }
  assert ((Z.of_nat PATH_BUF <? 2) = false) as -> by done.
  rewrite (Hlt (length [47])) by (unfold PATH_BUF; cbn; lia). cbn [negb andb].
  rewrite <- Nat2Z.inj_add, Hlt by (cbn [length]; unfold PATH_BUF in *; lia).
  rewrite canon_emit_all; [done|done|]. rewrite length_app. cbn [length]. unfold PATH_BUF in *. lia.
Qed.

Lemma path_of_c_string ts : Forall component ts -> c_string (path_of ts).
Proof.
  intros Hts. unfold path_of. destruct ts as [|t ts']; [by repeat constructor|].
  induction Hts as [|u us Hu Hus IH]; [constructor|]. cbn. constructor; [lia|].
  apply Forall_app. split; [by apply component_c_string|done].
Qed.

(** for an absolute path that fits the buffers, canonicalisation
    resolves every `.` and `..` as the reference stack machine does: the result
    starts with a slash, holds no dot component, is never longer than the
    input, and canonicalising it again changes nothing. *)
Theorem vfs_canonicalize_correct path :
  c_string path -> ch path = 47 -> (length path < PATH_BUF - 2)%nat ->
  (length (comps path) <= 64)%nat ->
  let out := vfs_canonicalize path (Z.of_nat PATH_BUF) in
  out = path_of (normalize (comps path)) /\ ch out = 47 /\
  Forall (fun t => t <> [46] /\ t <> [46; 46]) (comps out) /\ (length out <= length path)%nat /\
  vfs_canonicalize out (Z.of_nat PATH_BUF) = out.
Proof.
  intros Hp Hc Hl Hd out. pose proof (comps_component path Hp) as Hcs.
  pose proof (normalize_Forall _ _ Hcs) as Hn. pose proof (normalize_length (comps path)) as Hnl.
  assert (out = path_of (normalize (comps path))) as E by by apply vfs_canonicalize_spec.
  clearbody out. subst out. rewrite comps_path_of by done.
  assert (c_string (path_of (normalize (comps path)))) as Hs by by apply path_of_c_string.
  assert (length (path_of (normalize (comps path))) <= length path)%nat as Hle.
  { destruct path as [|x path]; [done|]. cbn in Hc. subst x. 
    pose proof (normalize_weight path) as Hw. unfold comps at 1. rewrite fields_skip by done.
    fold (comps path). unfold path_of. destruct (normalize (comps path)); simpl in *; lia. }
  split_and!; [done|by destruct (normalize (comps path))|apply normalize_no_dots|done|].
  rewrite vfs_canonicalize_spec; rewrite ?comps_path_of by done; [|done|lia|lia].
  by rewrite normalize_plain by apply normalize_no_dots.
Qed.

(** ** Resolution *)

Lemma cut_ext p q s : Forall (fun x => p x = q x) s -> cut p s = cut q s.
Proof. induction 1 as [|x s Hx Hs IH]; simpl; [done|]. by rewrite Hx, IH. Qed.

Lemma fields_slash s : c_string s -> fields (is_delim [47]) s = comps s.
Proof.
  intros Hs. unfold comps, fields. f_equal. apply cut_ext.
  eapply Forall_impl; [exact Hs|]. intros x Hx. cbv beta in Hx. unfold is_delim. cbn [strchr].
  rewrite u8_small by lia. rewrite (proj2 (Z.eqb_neq 47 0)), (proj2 (Z.eqb_neq x 0)), Z.eqb_sym by lia.
  destruct (Z.eqb_spec x 47); case_bool_decide as Hb; try done; by destruct Hb.
Qed.

(** What [strtok_r] leaves is part of the string. *)
Lemma strtok_rest (P : Z -> Prop) s delim t r :
  Forall P s -> strtok_r None delim (Some s) = (Some t, Some r) -> Forall P r.
Proof.
  intros Hs. cbn [strtok_r]. repeat case_if; try done. intros [= _ <-].
  assert (forall l, Forall P l -> Forall P (tl l)) as Htl by (intros l []; simpl; [constructor|done]).
  by apply Htl, Forall_drop, Forall_drop.
Qed.

Section resolve.
Context {FS : Type} `{NodeStore FS} (optab : Z -> vfs_ops FS).

(** The loop with [strtok_r] visits the components one by one; the rest of the
    string bounds the number of rounds. *)
Lemma walk_names fuel node token save st ts :
  match token with
  | None => ts = []
  | Some t => exists ts', ts = t :: ts' /\
      match save with
      | None => ts' = [] /\ (0 < fuel)%nat
      | Some r => c_string r /\ comps r = ts' /\ (length r + 1 < fuel)%nat
      end
  end ->
  walk optab fuel node token save st = lookup_names optab node ts st.
Proof.
  revert node token save st ts. induction fuel as [|fuel IH]; intros node token save st ts;
    (destruct token as [t|]; [|by intros ->]); intros (ts' & -> & Hsave).
  { destruct save; exfalso; naive_solver lia. }
  cbn [walk lookup_names]. destruct (Z.eqb_spec node 0) as [->|Hne]; [done|].
  destruct (get_node st node) as [n|]; [|done]. cbn. destruct (is_dir n); [|done].
  destruct (vfs_finddir optab node t st) as [[node' st']|]; [|done]. cbn.
  destruct save as [r|].
  - destruct Hsave as (Hr & <- & Hl).
    pose proof (strtok_r_fields [47] r (c_string_no_zero r Hr)) as Ht. rewrite fields_slash in Ht by done.
    pose proof (comps_component r Hr) as Hc. revert Ht Hc.
    destruct (comps r) as [|t' ts'].
    + intros -> _. by apply IH.
    + intros (save & Es & Hsave) Hc. rewrite Es. apply IH. exists ts'. split; [done|].
      destruct save as [r'|]; [|by split; [|lia]]. destruct Hsave as (Hz & Hf & Hl').
      assert (c_string r') as Hr' by (by apply (strtok_rest _ r [47] t' r' Hr)).
      rewrite fields_slash in Hf by done. split_and!; [done|done|lia].
  - destruct Hsave as [-> _]. by apply IH.
Qed.

(** The path whose components [vfs_resolve_path] follows: a relative path is
    taken from the root. *)
Lemma vfs_resolve_spec root path st :
  c_string path -> (length path < PATH_BUF - 3)%nat -> (length (comps path) <= 64)%nat -> root <> 0 ->
  vfs_resolve_path optab root path st = lookup_names optab root (normalize (comps path)) st.
Proof.
  intros Hp Hl Hd Hr. unfold vfs_resolve_path. rewrite (proj2 (Z.eqb_neq root 0) Hr).
  set (canon := if ch path =? 47 then _ else _).
  assert (canon = path_of (normalize (comps path))) as ->.
  { unfold canon. destruct (Z.eqb_spec (ch path) 47) as [E|E].
    { apply vfs_canonicalize_spec; [done|lia|done]. }
    cbn [c_str]. change (47 =? 0) with false. cbv iota. rewrite c_str_strncpy by done.
    rewrite (c_string_c_str path), take_ge by (done || lia).
    assert (comps (47 :: path) = comps path) as Ec by (unfold comps; by rewrite fields_skip).
    rewrite vfs_canonicalize_spec, Ec; [done|by constructor|cbn [length]; unfold PATH_BUF in *; lia|by rewrite Ec]. }
  pose proof (normalize_Forall _ _ (comps_component path Hp)) as Hn.
  pose proof (normalize_weight path) as Hw. revert Hn Hw. generalize (normalize (comps path)).
  intros ts Hn Hw. destruct ts as [|t ts]; [done|]. cbn [path_of].
  set (cs := concat (map (cons 47) (t :: ts))) in *.
  assert (comps cs = t :: ts) as Ec by by apply comps_concat.
  assert (c_string cs) as Hcs by (apply (path_of_c_string (t :: ts)); done).
  assert (cs = 47 :: tl cs) as Ecs by done. rewrite Ecs in Ec, Hcs, Hw.
  assert (ch (tl cs) <> 0) as Hch.
  { inversion Hn as [|? ? [Hne Ht] _]; subst. unfold cs. cbn. destruct t; [done|]. cbn.
    inversion Ht. lia. }
  clearbody cs. unfold comps in Ec. rewrite fields_skip in Ec by done. fold (comps (tl cs)) in Ec.
  apply Forall_inv_tail in Hcs. simpl in Hw.
  rewrite (proj2 (Z.eqb_neq _ _) Hch). rewrite copy_string_id by (done || lia).
  change (strtok_r (Some (tl cs)) [47] None) with (strtok_r None [47] (Some (tl cs))).
  pose proof (strtok_r_fields [47] (tl cs) (c_string_no_zero _ Hcs)) as Htok.
  rewrite fields_slash, Ec in Htok by done. destruct Htok as (save & Es & Hsave). rewrite Es.
  apply walk_names. exists ts. split; [done|]. destruct save as [r|]; [|by split; [|lia]].
  pose proof (strtok_rest _ _ _ _ _ Hcs Es) as Hrs. destruct Hsave as (_ & Hf & Hlr).
  rewrite fields_slash in Hf by done. split_and!; [done|done|lia].
Qed.

(** C19: path resolution, which canonicalises into a buffer, copies it and
    cuts it with [strtok_r], finds for every path that fits the buffers the
    node reached by descending from the root along the normalised components,
    following mount points at each step; it fails when a component is missing
    or is looked up in a node that is no directory. *)
Theorem vfs_resolve_path_correct root path st :
  c_string path -> (length path < PATH_BUF - 3)%nat -> (length (comps path) <= 64)%nat -> root <> 0 ->
  vfs_resolve_path optab root path st = lookup_names optab root (normalize (comps path)) st.
Proof. apply vfs_resolve_spec. Qed.
End resolve.

(** ** The last component *)

Lemma strrchr_last dir name last :
  c_string (dir ++ 47 :: name) -> Forall (fun x => x <> 47) name ->
  strrchr_from (dir ++ 47 :: name) 47 last = Some (47 :: name).
Proof.
  intros Hs Hn. revert last Hs. induction dir as [|x dir IH]; intros last Hs; cbn [app strrchr_from].
  - change (47 =? 0) with false. change (47 =? u8 47) with true. cbv iota.
    inversion Hs as [|? ? _ Hz]; subst. clear Hs.
    generalize (Some (47 :: name)). intros r. revert r Hz.
    induction Hn as [|y name Hy Hn IH]; intros r Hz; cbn [strrchr_from]; [done|].
    inversion Hz; subst. rewrite (proj2 (Z.eqb_neq y 0)) by lia.
    change (u8 47) with 47. rewrite (proj2 (Z.eqb_neq y 47)) by done. by apply IH.
  - inversion Hs; subst. rewrite (proj2 (Z.eqb_neq x 0)) by lia. by apply IH.
Qed.

Lemma c_str_strncpy_short s n rest : (length (c_str s) < n)%nat -> c_str (strncpy_bytes s n ++ rest) = c_str s.
Proof.
  revert s. induction n as [|n IH]; intros s Hl; [lia|]. cbn [strncpy_bytes].
  destruct (Z.eqb_spec (ch s) 0) as [E|E].
  - by rewrite (c_str_nil s).
  - rewrite (c_str_cons s) in * by done. cbn [app c_str]. rewrite (proj2 (Z.eqb_neq _ _) E).
    rewrite IH; [done|]. simpl in Hl. lia.
Qed.

(** A file name: a component that fits a name field. *)
Definition file_name (t : list Z) : Prop := component t /\ (length t < VFS_NAME_MAX)%nat.

Lemma split_path_spec dir name name0 :
  c_string dir -> file_name name -> (length dir < PATH_BUF)%nat ->
  split_path (dir ++ 47 :: name) name0 = Some (dir, name).
Proof.
  intros Hd [[Hne Hn] Hl] Hp. unfold split_path, strrchr.
  assert (c_string name) as Hcn by (by apply component_c_string).
  rewrite strrchr_last.
  - rewrite length_app. cbn [length tl].
    replace (length dir + S (length name) - S (length name))%nat with (length dir) by lia.
    rewrite (proj2 (Nat.ltb_lt _ _) Hp), take_app_length.
    unfold strncpy. by rewrite c_str_strncpy_short; rewrite c_string_c_str.
  - apply Forall_app. split; [done|]. by constructor.
  - eapply Forall_impl; [exact Hn|]. naive_solver.
Qed.
