(* ===== verification/Fat32.v ===== *)
(** * The FAT32 file system ([fs/fat32.c], [include/fs/fat32.h])

    The driver of one mounted volume: sectors, the allocation table behind its
    one-sector buffer, clusters and their chains, directory entries, and the
    operations that the driver gives to the virtual file system.

    The disk is the interface [BlockDev] and the heap the interface [KAlloc].
    A buffer is the list of its bytes.  The functions return [None] where the
    code would write past the end of a buffer, where [kfree] panics, and where
    a loop over a chain of clusters has not ended after [fuel] rounds.  The
    state holds one volume; the functions on the table of mounts take and
    return the other volumes. *)

From S2P Require Import Prelude CString Bytes Ports KAlloc Vfs.

Definition FAT32_FREE : Z := 0.
Definition FAT32_EOC_MIN : Z := 0x0FFFFFF8.
Definition FAT32_EOC : Z := 0x0FFFFFFF.
Definition FAT32_MASK : Z := 0x0FFFFFFF.
Definition FAT_ATTR_SYSTEM : Z := 0x04.
Definition FAT_ATTR_VOLUME_ID : Z := 0x08.
Definition FAT_ATTR_DIR : Z := 0x10.
Definition FAT_ATTR_ARCHIVE : Z := 0x20.
Definition FAT_ATTR_LFN : Z := 0x0F.
Definition NO_SECTOR : Z := 0xFFFFFFFF.
Definition EIO : Z := 5.
Definition ENODEV : Z := 19.
Definition EISDIR : Z := 21.
(** [sizeof(fat32_node_ctx_t)] and [sizeof(vfs_node_t)]. *)
Definition NODE_CTX_SIZE : Z := 16.
Definition VFS_NODE_SIZE : Z := 352.

(** ** Data *)

(** [fat32_fs_t]; [bpb] holds the 90 bytes of the parameter block. *)
Record fat32_fs := FatFs {
  valid : bool;
  bpb : list Z;
  fat_lba : Z;
  data_lba : Z;
  root_cluster : Z;
  sectors_per_cluster : Z;
  bytes_per_cluster : Z;
  total_clusters : Z;
  free_clusters : Z;
  next_free_hint : Z;
  dev : Z;
  partition_start_lba : Z;
  sector_buf : list Z;
  sector_buf_lba : Z;
  sector_buf_dirty : bool;
  mount_point : list Z }.

Definition eta_fs (f : fat32_fs) : fat32_fs :=
  FatFs (valid f) (bpb f) (fat_lba f) (data_lba f) (root_cluster f) (sectors_per_cluster f)
    (bytes_per_cluster f) (total_clusters f) (free_clusters f) (next_free_hint f) (dev f)
    (partition_start_lba f) (sector_buf f) (sector_buf_lba f) (sector_buf_dirty f) (mount_point f).
Definition set_valid (f : fat32_fs) (v : bool) : fat32_fs := ltac:(set_field eta_fs valid f v).
Definition set_free_clusters (f : fat32_fs) (v : Z) : fat32_fs := ltac:(set_field eta_fs free_clusters f v).
Definition set_next_free_hint (f : fat32_fs) (v : Z) : fat32_fs := ltac:(set_field eta_fs next_free_hint f v).
Definition set_sector_buf (f : fat32_fs) (v : list Z) : fat32_fs := ltac:(set_field eta_fs sector_buf f v).
Definition set_sector_buf_lba (f : fat32_fs) (v : Z) : fat32_fs := ltac:(set_field eta_fs sector_buf_lba f v).
Definition set_sector_buf_dirty (f : fat32_fs) (v : bool) : fat32_fs := ltac:(set_field eta_fs sector_buf_dirty f v).
Definition set_mount_point (f : fat32_fs) (v : list Z) : fat32_fs := ltac:(set_field eta_fs mount_point f v).

(** [fat32_entry_t]; an entry that is not [valid] is [None]. *)
Record fat_entry := FatEntry { e_name : list Z; first_cluster : Z; e_size : Z; e_attr : Z }.

(** A node of the virtual file system with its [fat32_node_ctx_t]. *)
Record fat_node := FatNode { fn_node : vfs_node; fn_dir : Z; fn_idx : Z }.

Definition set_vn_inode (n : vfs_node) (v : Z) : vfs_node := ltac:(set_field eta_node vn_inode n v).

(** ** Directory entries: 32 bytes *)

Definition d_name (de : list Z) : list Z := take 8 de.
Definition d_ext (de : list Z) : list Z := take 3 (drop 8 de).
Definition d_attr (de : list Z) : Z := field de 11 1.
Definition d_cluster (de : list Z) : Z := Z.lor (Z.shiftl (field de 20 2) 16) (field de 26 2).
Definition d_size (de : list Z) : Z := field de 28 4.

(** [cluster_hi], [cluster_lo] and [file_size] of an entry. *)
Definition set_d_cluster (c : Z) (de : list Z) : list Z :=
  write_at (write_at de 20 (le_bytes 2 (Z.shiftr c 16))) 26 (le_bytes 2 (c .& 0xFFFF)).
Definition set_d_size (n : Z) (de : list Z) : list Z := write_at de 28 (le_bytes 4 n).

(** An entry that is zero but for name, extension and attributes. *)
Definition new_dirent (name ext : list Z) (attr : Z) : list Z := name ++ ext ++ [attr] ++ replicate 20 0.

(** The loops over [name] and [ext] find the length without trailing spaces. *)
Fixpoint trim_spaces (l : list Z) : list Z :=
  match l with
  | [] => []
  | x :: l => match trim_spaces l with
              | [] => if x =? 32 then [] else [x]
              | y :: r => x :: y :: r
              end
  end.

Definition fat32_83_to_str (de : list Z) : list Z :=
  let ext := trim_spaces (d_ext de) in
  trim_spaces (d_name de) ++ (if (0 <? length ext)%nat then 46 :: ext else []).

(** The position of the last dot. *)
Fixpoint last_dot (i : nat) (name : list Z) (dot : option nat) : option nat :=
  match name with
  | [] => dot
  | c :: name => last_dot (S i) name (if c =? 46 then Some i else dot)
  end.

Definition upper (c : Z) : Z := if (97 <=? c) && (c <=? 122) then c - 32 else c.

Definition pad_spaces (n : nat) (l : list Z) : list Z := map upper (take n l) ++ replicate (n - length l) 32.

(** The name and the extension of an entry; [name] without its terminator. *)
Definition fat32_str_to_83 (name : list Z) : list Z * list Z :=
  match last_dot 0 name None with
  | None => (pad_spaces 8 name, replicate 3 32)
  | Some i => (pad_spaces 8 (take i name), pad_spaces 3 (drop (S i) name))
  end.

Definition deleted (de : list Z) : bool := ch de =? 0xE5.
Definition skipped (de : list Z) : bool :=
  deleted de || (d_attr de =? FAT_ATTR_LFN) || negb (d_attr de .& Z.lor FAT_ATTR_SYSTEM FAT_ATTR_VOLUME_ID =? 0).

Definition dirent_at (buf : list Z) (i : Z) : list Z := take 32 (drop (Z.to_nat (i * 32)) buf).

Definition entry_of (de : list Z) : fat_entry :=
  FatEntry (fat32_83_to_str de) (d_cluster de) (d_size de) (d_attr de).

(** [node->inode >= 2 ? node->inode : fs->root_cluster], as a [uint32_t]. *)
Definition node_cluster (f : fat32_fs) (n : vfs_node) : Z :=
  if 2 <=? vn_inode n then u32 (vn_inode n) else root_cluster f.

Section fat32.
Context {D A : Type} `{BlockDev D} `{KAlloc A}.

(** The volume, the disks, the heap, and the size of the static buffer
    [g_cluster_buf] once it has been allocated. *)
Record vol := Vol { v_fs : fat32_fs; v_disk : D; v_heap : A; g_cluster_buf : option Z }.

Definition set_fs (f : fat32_fs) (s : vol) : vol := Vol f (v_disk s) (v_heap s) (g_cluster_buf s).
Definition set_disk (d : D) (s : vol) : vol := Vol (v_fs s) d (v_heap s) (g_cluster_buf s).
Definition set_heap (h : A) (s : vol) : vol := Vol (v_fs s) (v_disk s) h (g_cluster_buf s).
Definition set_cluster_buf (n : Z) (s : vol) : vol := Vol (v_fs s) (v_disk s) (v_heap s) (Some n).

Definition malloc (n : Z) (s : vol) : option (Z * vol) :=
  '(p, h) ← k_malloc n (v_heap s); Some (p, set_heap h s).
(** [kfree(NULL)] does nothing. *)
Definition free (p : Z) (s : vol) : option vol :=
  if p =? 0 then Some s else h ← k_free p (v_heap s); Some (set_heap h s).

(** ** Sectors *)

(** [fat32_get_drive] returns a drive of the table. *)
Definition fat32_get_drive (d : Z) : bool := (0 <=? d) && (d <? 4).

(** The sector is read to [buf + off]. *)
Definition fat32_read_sector (lba : Z) (buf : list Z) (off : nat) (s : vol) : Z * list Z * vol :=
  let f := v_fs s in
  if negb (fat32_get_drive (dev f)) then (- EIO, buf, s)
  else
    let '(r, ws, d) := bd_read (dev f) (u32 (partition_start_lba f + lba)) (v_disk s) in
    (r, write_at buf off (bytes_of_words ws), set_disk d s).

Definition fat32_write_sector (lba : Z) (bytes : list Z) (s : vol) : Z * vol :=
  let f := v_fs s in
  if negb (fat32_get_drive (dev f)) then (- EIO, s)
  else
    let '(r, d) := bd_write (dev f) (u32 (partition_start_lba f + lba)) (words_of_bytes bytes) (v_disk s) in
    (r, set_disk d s).

(** Writing back the sector buffer. *)
Definition flush_sector (s : vol) : vol :=
  let f := v_fs s in
  if sector_buf_dirty f then
    let '(_, s) := fat32_write_sector (sector_buf_lba f) (sector_buf f) s in
    set_fs (set_sector_buf_dirty (v_fs s) false) s
  else s.

Definition fat32_load_sector (lba : Z) (s : vol) : Z * vol :=
  if sector_buf_lba (v_fs s) =? lba then (0, s)
  else
    let s := flush_sector s in
    let '(r, buf, s) := fat32_read_sector lba (sector_buf (v_fs s)) 0 s in
    let f := set_sector_buf (v_fs s) buf in
    (r, set_fs (if r =? 0 then set_sector_buf_lba f lba else f) s).

(** ** The allocation table *)

Definition fat32_fat_lba (f : fat32_fs) (cluster : Z) : Z := u32 (fat_lba f + u32 (cluster * 4) / 512).
Definition fat32_fat_offset (cluster : Z) : Z := u32 (cluster * 4) mod 512.

Definition fat32_next_cluster (cluster : Z) (s : vol) : Z * vol :=
  let '(r, s) := fat32_load_sector (fat32_fat_lba (v_fs s) cluster) s in
  if negb (r =? 0) then (FAT32_EOC, s)
  else (field (sector_buf (v_fs s)) (fat32_fat_offset cluster) 4 .& FAT32_MASK, s).

Definition fat32_set_fat (cluster val : Z) (s : vol) : Z * vol :=
  let '(r, s) := fat32_load_sector (fat32_fat_lba (v_fs s) cluster) s in
  if negb (r =? 0) then (- EIO, s)
  else
    let f := v_fs s in
    let buf := write_at (sector_buf f) (Z.to_nat (fat32_fat_offset cluster)) (le_bytes 4 (val .& FAT32_MASK)) in
    (0, set_fs (set_sector_buf_dirty (set_sector_buf f buf) true) s).

(** ** Clusters *)

Definition cluster_to_lba (f : fat32_fs) (cluster : Z) : Z :=
  u32 (data_lba f + u32 (u32 (cluster - 2) * sectors_per_cluster f)).

Definition bad_cluster (cluster : Z) : bool := (cluster <? 2) || (FAT32_EOC_MIN <=? cluster).

(** [n] sectors from [lba + i], to [buf + i * 512] and from there. *)
Fixpoint read_sectors (n : nat) (i lba : Z) (buf : list Z) (s : vol) : Z * list Z * vol :=
  match n with
  | O => (0, buf, s)
  | S n =>
      let '(r, buf, s) := fat32_read_sector (u32 (lba + i)) buf (Z.to_nat (i * 512)) s in
      if negb (r =? 0) then (r, buf, s) else read_sectors n (i + 1) lba buf s
  end.

Fixpoint write_sectors (n : nat) (i lba : Z) (buf : list Z) (s : vol) : Z * vol :=
  match n with
  | O => (0, s)
  | S n =>
      let '(r, s) := fat32_write_sector (u32 (lba + i)) (take 512 (drop (Z.to_nat (i * 512)) buf)) s in
      if negb (r =? 0) then (r, s) else write_sectors n (i + 1) lba buf s
  end.

(** The buffer has room for a cluster, or the code leaves it. *)
Definition cluster_fits (f : fat32_fs) (buf : list Z) : bool :=
  sectors_per_cluster f * 512 <=? Z.of_nat (length buf).

Definition fat32_read_cluster (cluster : Z) (buf : list Z) (s : vol) : option (Z * list Z * vol) :=
  let f := v_fs s in
  if bad_cluster cluster then Some (- EINVAL, buf, s)
  else if cluster_fits f buf
  then Some (read_sectors (Z.to_nat (sectors_per_cluster f)) 0 (cluster_to_lba f cluster) buf s)
  else None.

Definition fat32_write_cluster (cluster : Z) (buf : list Z) (s : vol) : option (Z * vol) :=
  let f := v_fs s in
  if bad_cluster cluster then Some (- EINVAL, s)
  else if cluster_fits f buf
  then Some (write_sectors (Z.to_nat (sectors_per_cluster f)) 0 (cluster_to_lba f cluster) buf s)
  else None.

(** ** Allocation *)

(** The loop from [c]: the first of [n] clusters that is free. *)
Fixpoint scan_free (n : nat) (c : Z) (s : vol) : option Z * vol :=
  match n with
  | O => (None, s)
  | S n =>
      let '(val, s) := fat32_next_cluster c s in
      if val =? FAT32_FREE then (Some c, s) else scan_free n (c + 1) s
  end.

(** The updates for the cluster that was found. *)
Definition take_cluster (c prev : Z) (s : vol) : vol :=
  let s := (fat32_set_fat c FAT32_EOC s).2 in
  let s := if negb (prev =? 0) then (fat32_set_fat prev c s).2 else s in
  let f := set_next_free_hint (v_fs s) (u32 (c + 1)) in
  set_fs (if 0 <? free_clusters f then set_free_clusters f (free_clusters f - 1) else f) s.

(** Zeroing it, when there is memory for a buffer. *)
Definition zero_cluster (c : Z) (s : vol) : option vol :=
  let n := bytes_per_cluster (v_fs s) in
  '(zero, s) ← malloc n s;
  if negb (zero =? 0) then
    '(_, s) ← fat32_write_cluster c (replicate (Z.to_nat n) 0) s; free zero s
  else Some s.

Definition scan_start (f : fat32_fs) : Z := if 2 <? next_free_hint f then next_free_hint f else 2.
Definition scan_end (f : fat32_fs) : Z := u32 (total_clusters f + 2).

(** 0 when there is no free cluster. *)
Definition fat32_alloc_cluster (prev : Z) (s : vol) : option (Z * vol) :=
  let f := v_fs s in
  let start := scan_start f in
  let '(found, s) := scan_free (Z.to_nat (scan_end f - start)) start s in
  match found with
  | Some c => s ← zero_cluster c (take_cluster c prev s); Some (c, s)
  | None =>
      let '(found, s) := scan_free (Z.to_nat (start - 2)) 2 s in
      match found with
      | Some c => Some (c, take_cluster c prev s)
      | None => Some (0, s)
      end
  end.

Fixpoint fat32_free_chain (fuel : nat) (c : Z) (s : vol) : option (Z * vol) :=
  if bad_cluster c then Some (0, s)
  else
    match fuel with
    | O => None
    | S fuel =>
        let '(next, s) := fat32_next_cluster c s in
        let s := (fat32_set_fat c FAT32_FREE s).2 in
        let s := set_fs (set_free_clusters (v_fs s) (u32 (free_clusters (v_fs s) + 1))) s in
        fat32_free_chain fuel next s
    end.

(** Rounds of a loop over a chain: the clusters, and one more. *)
Definition chain_fuel (f : fat32_fs) : nat := Z.to_nat (total_clusters f + 1).

(** ** Directories *)

Definition entries_per_cluster (f : fat32_fs) : Z := bytes_per_cluster f / 32.

(** [for (i = 0; i < n; i++) { c = next(c); if (stop(c)) return None; }] *)
Fixpoint walk_chain (n : nat) (stop : Z -> bool) (c : Z) (s : vol) : option Z * vol :=
  match n with
  | O => (Some c, s)
  | S n =>
      let '(c, s) := fat32_next_cluster c s in
      if stop c then (None, s) else walk_chain n stop c s
  end.

(** The result, the entry if it is valid, and the volume. *)
Definition fat32_read_dir_entry (dir_cluster entry_idx : Z) (s : vol) : option (Z * option fat_entry * vol) :=
  let bpc := bytes_per_cluster (v_fs s) in
  '(have, s) ← match g_cluster_buf s with
               | Some n => Some (Some n, s)
               | None => '(p, s) ← malloc bpc s;
                         Some (if p =? 0 then (None, s) else (Some bpc, set_cluster_buf bpc s))
               end;
  match have with
  | None => Some (- ENOMEM, None, s)
  | Some size =>
      let epc := entries_per_cluster (v_fs s) in
      let '(c, s) := walk_chain (Z.to_nat (entry_idx / epc)) (fun c => FAT32_EOC_MIN <=? c) dir_cluster s in
      match c with
      | None => Some (- ENOENT, None, s)
      | Some c =>
          '(r, buf, s) ← fat32_read_cluster c (replicate (Z.to_nat size) 0) s;
          if negb (r =? 0) then Some (- EIO, None, s)
          else
            let de := dirent_at buf (entry_idx mod epc) in
            if ch de =? 0 then Some (- ENOENT, None, s)
            else if skipped de then Some (0, None, s)
            else Some (1, Some (entry_of de), s)
      end
  end.

(** The loops of [finddir] and [readdir]; rounds: the entries of a chain that
    does not meet itself, and one more. *)
Definition dir_fuel (f : fat32_fs) : nat := Z.to_nat (total_clusters f * entries_per_cluster f + 1).

Fixpoint find_entry (fuel : nat) (i dir_cluster : Z) (name : list Z) (s : vol) : option (option (Z * fat_entry) * vol) :=
  match fuel with
  | O => None
  | S fuel =>
      '(r, e, s) ← fat32_read_dir_entry dir_cluster i s;
      if r <? 0 then Some (None, s)
      else match e with
           | Some e => if strncmp (e_name e) name 255 =? 0 then Some (Some (i, e), s)
                       else find_entry fuel (i + 1) dir_cluster name s
           | None => find_entry fuel (i + 1) dir_cluster name s
           end
  end.

Fixpoint nth_entry (fuel : nat) (i count idx dir_cluster : Z) (s : vol) : option (option fat_entry * vol) :=
  match fuel with
  | O => None
  | S fuel =>
      '(r, e, s) ← fat32_read_dir_entry dir_cluster i s;
      if r <? 0 then Some (None, s)
      else match e with
           | Some e => if count =? idx then Some (Some e, s)
                       else nth_entry fuel (i + 1) (count + 1) idx dir_cluster s
           | None => nth_entry fuel (i + 1) count idx dir_cluster s
           end
  end.

Definition fat32_make_node (e : fat_entry) (dir_cluster dirent_idx : Z) (s : vol) : option (option fat_node * vol) :=
  '(ctx, s) ← malloc NODE_CTX_SIZE s;
  '(n, s) ← malloc VFS_NODE_SIZE s;
  if (ctx =? 0) || (n =? 0) then s ← free ctx s; s ← free n s; Some (None, s)
  else
    let flags := if negb (e_attr e .& FAT_ATTR_DIR =? 0) then VFS_DIRECTORY else VFS_FILE in
    let node := VfsNode (strncpy_bytes (e_name e) VFS_NAME_MAX ++ [0]) flags 0 0 0 (e_size e) (first_cluster e) 0 0 0 0 1 ctx 0 0 in
    Some (Some (FatNode node dir_cluster dirent_idx), s).

Definition _fat32_vfs_finddir (parent : fat_node) (name : list Z) (s : vol) : option (option fat_node * vol) :=
  let f := v_fs s in
  if negb (valid f) then Some (None, s)
  else
    let dir_cluster := node_cluster f (fn_node parent) in
    '(found, s) ← find_entry (dir_fuel f) 0 dir_cluster name s;
    match found with
    | Some (i, e) => fat32_make_node e dir_cluster i s
    | None => Some (None, s)
    end.

Definition _fat32_vfs_readdir_op (node : fat_node) (idx : Z) (s : vol) : option (option vfs_dirent * vol) :=
  let f := v_fs s in
  if negb (valid f) then Some (None, s)
  else
    '(e, s) ← nth_entry (dir_fuel f) 0 0 idx (node_cluster f (fn_node node)) s;
    match e with
    | None => Some (None, s)
    | Some e =>
        let ty := if negb (e_attr e .& FAT_ATTR_DIR =? 0) then VFS_TYPE_DIR else VFS_TYPE_FILE in
        Some (Some (VfsDirent (strncpy_bytes (e_name e) (VFS_NAME_MAX - 1) ++ [0; 0]) 0 ty (e_size e)), s)
    end.

(** The walk of [_fat32_vfs_read] to its first cluster. *)
Fixpoint seek_chain (n : nat) (c : Z) (s : vol) : Z * vol :=
  match n with
  | O => (c, s)
  | S n => if c <? FAT32_EOC_MIN then let '(c, s) := fat32_next_cluster c s in seek_chain n c s else (c, s)
  end.

(** The loop that copies to [buf]; [out] are the bytes copied so far.  The
    result is -EIO and no bytes, or the bytes. *)
Fixpoint read_loop (fuel : nat) (c byte_off : Z) (len : Z) (out cbuf : list Z) (s : vol) : option ((Z + list Z) * vol) :=
  let total := Z.of_nat (length out) in
  if negb (total <? len) || bad_cluster c then Some (inr out, s)
  else
    match fuel with
    | O => None
    | S fuel =>
        '(r, cbuf, s) ← fat32_read_cluster c cbuf s;
        if negb (r =? 0) then Some (inl (- EIO), s)
        else
          let avail := u64 (bytes_per_cluster (v_fs s) - byte_off) in
          let copy := Z.min avail (len - total) in
          let out := out ++ take (Z.to_nat copy) (drop (Z.to_nat byte_off) cbuf) in
          let '(c, s) := fat32_next_cluster c s in
          read_loop fuel c 0 len out cbuf s
    end.

(** Rounds of the loops that copy: one cluster each, the first may be partial. *)
Definition copy_fuel (f : fat32_fs) (len : Z) : nat := Z.to_nat (len / bytes_per_cluster f + 2).

(** The part of the call that works on the clusters. *)
Definition read_clusters (n : vfs_node) (offset len : Z) (s : vol) : option ((Z + list Z) * vol) :=
  let f := v_fs s in
  let bpc := bytes_per_cluster f in
  let '(c, s) := seek_chain (Z.to_nat (u32 (u64 offset / bpc))) (u32 (vn_inode n)) s in
  read_loop (copy_fuel f len) c (u32 (u64 offset mod bpc)) len [] (replicate (Z.to_nat bpc) 0) s.

Definition _fat32_vfs_read (node : fat_node) (offset len : Z) (s : vol) : option (Z * list Z * vol) :=
  let f := v_fs s in
  let n := fn_node node in
  if negb (valid f) then Some (- EIO, [], s)
  else if is_dir n then Some (- EISDIR, [], s)
  else
    let file_size := u32 (vn_size n) in
    if file_size <=? u64 offset then Some (0, [], s)
    else
      let len := if file_size <? u64 (u64 offset + len) then file_size - u64 offset else len in
      if len =? 0 then Some (0, [], s)
      else
        '(cbuf, s) ← malloc (bytes_per_cluster f) s;
        if cbuf =? 0 then Some (- ENOMEM, [], s)
        else
          '(res, s) ← read_clusters n offset len s;
          s ← free cbuf s;
          match res with
          | inl e => Some (e, [], s)
          | inr out => Some (Z.of_nat (length out), out, s)
          end.

(** The next cluster of a chain that is extended at its end; 0 when there is
    no free cluster. *)
Definition next_or_extend (c : Z) (s : vol) : option (Z * vol) :=
  let '(c', s) := fat32_next_cluster c s in
  if bad_cluster c' then fat32_alloc_cluster c s else Some (c', s).

(** The walk of [_fat32_vfs_write], which extends the chain. *)
Fixpoint extend_chain (n : nat) (c : Z) (s : vol) : option (Z * vol) :=
  match n with
  | O => Some (c, s)
  | S n =>
      '(c, s) ← next_or_extend c s;
      if c <? 2 then Some (0, s) else extend_chain n c s
  end.

(** The loop that copies from [buf]; [done] bytes are written.  The result is
    an error, or the number of bytes. *)
Fixpoint write_loop (fuel : nat) (c byte_off done : Z) (buf cbuf : list Z) (s : vol) : option ((Z + Z) * vol) :=
  let len := Z.of_nat (length buf) in
  if negb (done <? len) then Some (inr done, s)
  else
    match fuel with
    | O => None
    | S fuel =>
        let bpc := bytes_per_cluster (v_fs s) in
        let copy := Z.min (u64 (bpc - byte_off)) (len - done) in
        '(r, cbuf, s) ← (if negb (byte_off =? 0) || (copy <? bpc) then fat32_read_cluster c cbuf s
                         else Some (0, cbuf, s));
        if negb (r =? 0) then Some (inl (- EIO), s)
        else
          let cbuf := write_at cbuf (Z.to_nat byte_off) (take (Z.to_nat copy) (drop (Z.to_nat done) buf)) in
          '(r, s) ← fat32_write_cluster c cbuf s;
          if negb (r =? 0) then Some (inl (- EIO), s)
          else
            let done := done + copy in
            if done <? len then
              '(c, s) ← next_or_extend c s;
              if c <? 2 then Some (inr done, s) else write_loop fuel c 0 done buf cbuf s
            else Some (inr done, s)
    end.

(** The size and the first cluster go to the directory entry of the node. *)
Definition write_back (node : fat_node) (s : vol) : option vol :=
  let f := v_fs s in
  if negb (fn_dir node =? 0) && negb (fn_idx node =? 0xFFFFFFFF) then
    let epc := entries_per_cluster f in
    let '(dc, s) := walk_chain (Z.to_nat (fn_idx node / epc)) bad_cluster (fn_dir node) s in
    match dc with
    | Some dc =>
        if 2 <=? dc then
          '(dbuf, s) ← malloc (bytes_per_cluster f) s;
          if dbuf =? 0 then Some s
          else
            '(r, buf, s) ← fat32_read_cluster dc (replicate (Z.to_nat (bytes_per_cluster f)) 0) s;
            s ← (if r =? 0 then
                   let off := fn_idx node mod epc in
                   let de := set_d_cluster (vn_inode (fn_node node)) (set_d_size (vn_size (fn_node node)) (dirent_at buf off)) in
                   '(_, s) ← fat32_write_cluster dc (write_at buf (Z.to_nat (off * 32)) de) s; Some s
                 else Some s);
            free dbuf s
        else Some s
    | None => Some s
    end
  else Some s.

Definition fat32_sync (s : vol) : Z * vol :=
  if negb (valid (v_fs s)) then (- EINVAL, s) else (0, flush_sector s).

(** The part of the call that works on the clusters: an error or the number
    of bytes, and the node, which may have got its first cluster. *)
Definition write_clusters (node : fat_node) (offset : Z) (buf : list Z) (s : vol) : option ((Z + Z) * fat_node * vol) :=
  let f := v_fs s in
  let bpc := bytes_per_cluster f in
  let n := fn_node node in
  '(c, s) ← (if u32 (vn_inode n) <? 2 then fat32_alloc_cluster 0 s else Some (u32 (vn_inode n), s));
  if c <? 2 then Some (inl (- ENOSPC), node, s)
  else
    let node := if u32 (vn_inode n) <? 2 then FatNode (set_vn_inode n c) (fn_dir node) (fn_idx node) else node in
    '(c, s) ← extend_chain (Z.to_nat (u32 (u64 offset / bpc))) c s;
    if c <? 2 then Some (inl (- ENOSPC), node, s)
    else
      '(res, s) ← write_loop (copy_fuel f (Z.of_nat (length buf))) c (u32 (u64 offset mod bpc)) 0 buf
                    (replicate (Z.to_nat bpc) 0) s;
      Some (res, node, s).

(** The result, the node as the call leaves it, and the volume. *)
Definition _fat32_vfs_write (node : fat_node) (offset : Z) (buf : list Z) (s : vol) : option (Z * fat_node * vol) :=
  let f := v_fs s in
  let len := Z.of_nat (length buf) in
  if negb (valid f) then Some (- EIO, node, s)
  else if len =? 0 then Some (0, node, s)
  else if is_dir (fn_node node) then Some (- EISDIR, node, s)
  else
    '(cbuf, s) ← malloc (bytes_per_cluster f) s;
    if cbuf =? 0 then Some (- ENOMEM, node, s)
    else
      '(res, node, s) ← write_clusters node offset buf s;
      s ← free cbuf s;
      match res with
      | inl e => Some (e, node, s)
      | inr done =>
          let end_byte := u64 (u64 offset + len) in
          let n := fn_node node in
          let node := if vn_size n <? end_byte
                      then FatNode (set_vn_size n (u32 end_byte)) (fn_dir node) (fn_idx node) else node in
          s ← write_back node s;
          Some (done, node, (fat32_sync s).2)
      end.

(** ** Writing directories *)

Definition fat32_write_dirent_at (dir_cluster entry_idx : Z) (de : list Z) (s : vol) : option (Z * vol) :=
  let f := v_fs s in
  let epc := entries_per_cluster f in
  let '(c, s) := walk_chain (Z.to_nat (entry_idx / epc)) bad_cluster dir_cluster s in
  match c with
  | None => Some (- ENOSPC, s)
  | Some c =>
      '(cbuf, s) ← malloc (bytes_per_cluster f) s;
      if cbuf =? 0 then Some (- ENOMEM, s)
      else
        '(r, buf, s) ← fat32_read_cluster c (replicate (Z.to_nat (bytes_per_cluster f)) 0) s;
        if negb (r =? 0) then s ← free cbuf s; Some (- EIO, s)
        else
          '(r, s) ← fat32_write_cluster c (write_at buf (Z.to_nat ((entry_idx mod epc) * 32)) de) s;
          s ← free cbuf s; Some (r, s)
  end.

(** The loop over the [n] entries of a cluster: the first that is empty or
    deleted. *)
Fixpoint free_entry (n : nat) (i : Z) (buf : list Z) : option Z :=
  match n with
  | O => None
  | S n => let de := dirent_at buf i in
           if (ch de =? 0) || deleted de then Some i else free_entry n (i + 1) buf
  end.

(** The loop over the clusters: an index, an error, or the last cluster and
    how many there are. *)
Fixpoint scan_dir (fuel : nat) (c cnum prev : Z) (cbuf : list Z) (s : vol) : option ((Z + Z * Z) * vol) :=
  if bad_cluster c then Some (inr (prev, cnum), s)
  else
    match fuel with
    | O => None
    | S fuel =>
        '(r, cbuf, s) ← fat32_read_cluster c cbuf s;
        if negb (r =? 0) then Some (inl (- EIO), s)
        else
          let epc := entries_per_cluster (v_fs s) in
          match free_entry (Z.to_nat epc) 0 cbuf with
          | Some i => Some (inl (cnum * epc + i), s)
          | None => let '(next, s) := fat32_next_cluster c s in scan_dir fuel next (cnum + 1) c cbuf s
          end
    end.

Definition fat32_find_free_dirent (dir_cluster : Z) (s : vol) : option (Z * vol) :=
  let f := v_fs s in
  '(cbuf, s) ← malloc (bytes_per_cluster f) s;
  if cbuf =? 0 then Some (- ENOMEM, s)
  else
    '(res, s) ← scan_dir (chain_fuel f) dir_cluster 0 0 (replicate (Z.to_nat (bytes_per_cluster f)) 0) s;
    s ← free cbuf s;
    match res with
    | inl r => Some (r, s)
    | inr (prev, cnum) =>
        '(new_c, s) ← fat32_alloc_cluster prev s;
        if new_c <? 2 then Some (- ENOSPC, s) else Some (cnum * entries_per_cluster f, s)
    end.

(** The names are given without their terminator. *)
Definition _fat32_vfs_create (parent : fat_node) (name : list Z) (s : vol) : option (Z * vol) :=
  let dir_cluster := node_cluster (v_fs s) (fn_node parent) in
  '(idx, s) ← fat32_find_free_dirent dir_cluster s;
  if idx <? 0 then Some (idx, s)
  else
    let '(n, e) := fat32_str_to_83 name in
    '(r, s) ← fat32_write_dirent_at dir_cluster idx (new_dirent n e FAT_ATTR_ARCHIVE) s;
    Some (r, if r =? 0 then (fat32_sync s).2 else s).

(** The entries [.] and [..] of a new directory. *)
Definition dot_dirent (dots : nat) (cluster : Z) : list Z :=
  set_d_cluster cluster (new_dirent (replicate dots 46 ++ replicate (8 - dots) 32) (replicate 3 32) FAT_ATTR_DIR).

Definition _fat32_vfs_mkdir_op (parent : fat_node) (name : list Z) (s : vol) : option (Z * vol) :=
  let f := v_fs s in
  let parent_cluster := node_cluster f (fn_node parent) in
  '(new_cluster, s) ← fat32_alloc_cluster 0 s;
  if new_cluster <? 2 then Some (- ENOSPC, s)
  else
    '(cbuf, s) ← malloc (bytes_per_cluster f) s;
    if cbuf =? 0 then '(_, s) ← fat32_free_chain (chain_fuel f) new_cluster s; Some (- ENOMEM, s)
    else
      let buf := write_at (write_at (replicate (Z.to_nat (bytes_per_cluster f)) 0) 0 (dot_dirent 1 new_cluster))
                          32 (dot_dirent 2 parent_cluster) in
      '(_, s) ← fat32_write_cluster new_cluster buf s;
      s ← free cbuf s;
      '(idx, s) ← fat32_find_free_dirent parent_cluster s;
      if idx <? 0 then '(_, s) ← fat32_free_chain (chain_fuel f) new_cluster s; Some (idx, s)
      else
        let '(n, e) := fat32_str_to_83 name in
        let de := set_d_cluster new_cluster (new_dirent n e FAT_ATTR_DIR) in
        '(r, s) ← fat32_write_dirent_at parent_cluster idx de s;
        if negb (r =? 0) then '(_, s) ← fat32_free_chain (chain_fuel f) new_cluster s; Some (r, s)
        else Some (0, (fat32_sync s).2).

(** The loop over the [n] entries of a cluster from [i] on. *)
Inductive unlink_hit := HitEnd | HitEntry (i : Z) (de : list Z) | HitNone.

Fixpoint match_entry (n : nat) (i : Z) (buf name : list Z) : unlink_hit :=
  match n with
  | O => HitNone
  | S n =>
      let de := dirent_at buf i in
      if ch de =? 0 then HitEnd
      else if skipped de then match_entry n (i + 1) buf name
      else if strcmp (fat32_83_to_str de) name =? 0 then HitEntry i de
      else match_entry n (i + 1) buf name
  end.

Fixpoint unlink_loop (fuel : nat) (c : Z) (name cbuf : list Z) (s : vol) : option (Z * vol) :=
  if bad_cluster c then Some (- ENOENT, s)
  else
    match fuel with
    | O => None
    | S fuel =>
        '(r, cbuf, s) ← fat32_read_cluster c cbuf s;
        if negb (r =? 0) then Some (- EIO, s)
        else
          match match_entry (Z.to_nat (entries_per_cluster (v_fs s))) 0 cbuf name with
          | HitEnd => Some (- ENOENT, s)
          | HitEntry i de =>
              '(_, s) ← (if 2 <=? d_cluster de then fat32_free_chain (chain_fuel (v_fs s)) (d_cluster de) s
                         else Some (0, s));
              '(_, s) ← fat32_write_cluster c (write_at cbuf (Z.to_nat (i * 32)) [0xE5]) s;
              Some (0, s)
          | HitNone => let '(next, s) := fat32_next_cluster c s in unlink_loop fuel next name cbuf s
          end
    end.

Definition _fat32_vfs_unlink (parent : fat_node) (name : list Z) (s : vol) : option (Z * vol) :=
  let f := v_fs s in
  '(cbuf, s) ← malloc (bytes_per_cluster f) s;
  if cbuf =? 0 then Some (- ENOMEM, s)
  else
    '(r, s) ← unlink_loop (chain_fuel f) (node_cluster f (fn_node parent)) name
                (replicate (Z.to_nat (bytes_per_cluster f)) 0) s;
    s ← free cbuf s;
    Some (r, if r =? 0 then (fat32_sync s).2 else s).

(** ** Mounting *)

(** [memset(fs, 0, sizeof)] and the first three assignments. *)
Definition blank_fs (dv lba_start : Z) : fat32_fs :=
  FatFs false (replicate 90 0) 0 0 0 0 0 0 0 0 dv lba_start (replicate 512 0) NO_SECTOR false (replicate 256 0).

(** The sector is read to [&fs->bpb], which has 90 bytes at offset 1 of the
    structure; the rest of the sector lands in the members behind it, from
    [fat_lba] at offset 92 to the first 381 bytes of [sector_buf]. *)
Definition read_bpb (sec : list Z) (f : fat32_fs) : fat32_fs :=
  let u off := field sec off 4 in
  FatFs (valid f) (take 90 sec) (u 91) (u 95) (u 99) (u 103) (u 107) (u 111) (u 115) (u 119)
    (i32 (u 123)) (i32 (u 127)) (write_at (sector_buf f) 0 (take 381 (drop 131 sec)))
    (sector_buf_lba f) (sector_buf_dirty f) (mount_point f).

(** What these bytes are before the sector is read. *)
Definition bpb_image (dv lba_start : Z) : list Z :=
  replicate 123 0 ++ le_bytes 4 dv ++ le_bytes 4 lba_start ++ replicate 381 0.

(** The geometry from the parameter block. *)
Definition geometry (f : fat32_fs) : fat32_fs :=
  let b := bpb f in
  let spc := field b 13 1 in
  let reserved := field b 14 2 in
  let data := u32 (reserved + u32 (field b 16 1 * field b 36 4)) in
  FatFs (valid f) b reserved data (field b 44 4) spc (spc * 512) (u32 (field b 32 4 - data) / spc)
    0xFFFFFFFF 2 (dev f) (partition_start_lba f) (sector_buf f) (sector_buf_lba f) (sector_buf_dirty f) (mount_point f).

(** The root node that is mounted, if there is memory for it. *)
Definition root_node (ctx root : Z) : vfs_node :=
  VfsNode (strncpy_bytes [47] VFS_NAME_MAX ++ [0]) VFS_DIRECTORY 0 0 0 0 0 0 0 0 0 1 ctx 0 0.

(** The state is that of the table entry the caller passes; a volume of zero
    sectors per cluster divides by zero. *)
Definition fat32_init (dv lba_start : Z) (mp : list Z) (s : vol) : option (Z * option fat_node * vol) :=
  let s := set_fs (blank_fs dv lba_start) s in
  let '(r, sec, s) := fat32_read_sector 0 (bpb_image dv lba_start) 0 s in
  let s := set_fs (read_bpb sec (v_fs s)) s in
  let b := bpb (v_fs s) in
  if negb (r =? 0) then Some (- EIO, None, s)
  else if negb (field b 11 2 =? 512) then Some (- EINVAL, None, s)
  else if field b 16 1 <? 1 then Some (- EINVAL, None, s)
  else if field b 13 1 =? 0 then None
  else
    let s := set_fs (geometry (v_fs s)) s in
    let '(r, info, s) := fat32_read_sector (field b 48 2) (replicate 512 0) 0 s in
    let f := v_fs s in
    let f := if (r =? 0) && (field info 0 4 =? 0x41615252) && (field info 484 4 =? 0x61417272)
             then set_next_free_hint (set_free_clusters f (field info 488 4)) (field info 492 4) else f in
    let s := set_fs (set_valid (set_mount_point f (strncpy_bytes mp 255 ++ [0])) true) s in
    '(ctx, s) ← malloc NODE_CTX_SIZE s;
    '(root, s) ← malloc VFS_NODE_SIZE s;
    if (ctx =? 0) || (root =? 0) then s ← free ctx s; s ← free root s; Some (- ENOMEM, None, s)
    else Some (0, Some (FatNode (root_node ctx root) (root_cluster (v_fs s)) 0xFFFFFFFF), s).

Definition fat32_unmount (s : vol) : vol :=
  if negb (valid (v_fs s)) then s
  else let s := (fat32_sync s).2 in set_fs (set_valid (v_fs s) false) s.

(** The first entry of the table of mounts that is not in use. *)
Fixpoint free_mount (i : nat) (mounts : list fat32_fs) : option nat :=
  match mounts with
  | [] => None
  | f :: mounts => if valid f then free_mount (S i) mounts else Some i
  end.

(** [fat32_mount]: the table, and the disks and the heap in the state. *)
Definition fat32_mount (drive lba_start : Z) (mp : list Z) (mounts : list fat32_fs) (s : vol)
  : option (Z * option fat_node * list fat32_fs * vol) :=
  match free_mount 0 mounts with
  | None => Some (- ENOMEM, None, mounts, s)
  | Some i =>
      '(r, root, s) ← fat32_init drive (i32 (u32 lba_start)) mp s;
      Some (r, root, <[i := v_fs s]> mounts, s)
  end.

(** [fat32_mount_auto]: drive 0, sector 0, at [/mnt]. *)
Definition fat32_mount_auto (mounts : list fat32_fs) (s : vol) : option (Z * option fat_node * list fat32_fs * vol) :=
  match free_mount 0 mounts with
  | None => Some (- ENODEV, None, mounts, s)
  | Some i =>
      '(r, root, s) ← fat32_init 0 0 [47; 109; 110; 116] s;
      Some (if r =? 0 then 0 else - ENODEV, root, <[i := v_fs s]> mounts, s)
  end.
End fat32.
Arguments vol : clear implicits.
