(* ===== verification/Fat32Inv.v ===== *)
(** * FAT32: the table, the clusters and their allocation

    What the volume means, whatever is in the sector buffer: the entries of the
    allocation table and the contents of the clusters.  The operations on
    sectors are shown to read and change exactly that, and the allocator to take
    free clusters only. *)

From S2P Require Import Prelude CString Bytes Ports KAlloc Vfs Fat32.

Section volume.
Context {D A : Type} `{BlockDev D} `{KAllocLaws A} `{!KFreeLaws A}.
Implicit Types (s : vol D A) (f : fat32_fs) (c : Z).

(** ** Geometry *)

(** The members that no operation changes after the mount. *)
Definition static f : fat32_fs :=
  FatFs (valid f) (bpb f) (fat_lba f) (data_lba f) (root_cluster f) (sectors_per_cluster f)
    (bytes_per_cluster f) (total_clusters f) 0 0 (dev f) (partition_start_lba f) [] 0 false (mount_point f).

(** The table and the clusters lie one behind the other on the disk. *)
Record geo_ok f : Prop := {
  g_valid : valid f = true;
  g_dev : 0 <= dev f < 4 /\ bd_present (dev f) = true;
  g_part : 0 <= partition_start_lba f;
  g_spc : 0 < sectors_per_cluster f < 256 /\ bytes_per_cluster f = sectors_per_cluster f * 512;
  g_total : 0 <= total_clusters f /\ total_clusters f + 2 < FAT32_EOC_MIN;
  g_table : 0 <= fat_lba f /\ fat_lba f + (total_clusters f + 1) * 4 / 512 < data_lba f;
  g_size : partition_start_lba f + data_lba f + total_clusters f * sectors_per_cluster f <= bd_size (dev f) /\
           partition_start_lba f + data_lba f + total_clusters f * sectors_per_cluster f < NO_SECTOR
}.

Lemma static_fields f f' :
  static f' = static f ->
  fat_lba f' = fat_lba f /\ data_lba f' = data_lba f /\ sectors_per_cluster f' = sectors_per_cluster f /\
  bytes_per_cluster f' = bytes_per_cluster f /\ total_clusters f' = total_clusters f /\ dev f' = dev f /\
  partition_start_lba f' = partition_start_lba f /\ root_cluster f' = root_cluster f /\ valid f' = valid f.
Proof. unfold static. intros E. injection E as E1 _ E3 E4 E5 E6 E7 E8 E9 E10 _. by split_and!. Qed.

Lemma geo_ok_static f f' : static f' = static f -> geo_ok f -> geo_ok f'.
Proof.
  intros (E1 & E2 & E3 & E4 & E5 & E6 & E7 & _ & E9)%static_fields [? ? ? ? ? ? ?].
  split; rewrite ?E1, ?E2, ?E3, ?E4, ?E5, ?E6, ?E7, ?E9; done.
Qed.

(** A cluster of the volume. *)
Definition in_vol f c : Prop := 2 <= c < total_clusters f + 2.

(** ** What the volume holds *)

Definition sec s (lba : Z) : list Z :=
  bytes_of_words (bd_sector (v_disk s) (dev (v_fs s)) (partition_start_lba (v_fs s) + lba)).

(** A sector of the table: the buffer has the newer bytes. *)
Definition fat_sec s (lba : Z) : list Z :=
  if sector_buf_lba (v_fs s) =? lba then sector_buf (v_fs s) else sec s lba.

Definition fat_at s c : Z :=
  field (fat_sec s (fat_lba (v_fs s) + c * 4 / 512)) (c * 4 mod 512) 4 .& FAT32_MASK.

Definition cluster_lba f c : Z := data_lba f + (c - 2) * sectors_per_cluster f.

Definition clu s c : list Z :=
  concat (map (fun i => sec s (cluster_lba (v_fs s) c + Z.of_nat i)) (seq 0 (Z.to_nat (sectors_per_cluster (v_fs s))))).

(** ** The invariant *)

Record buf_ok s : Prop := {
  bo_len : length (sector_buf (v_fs s)) = 512%nat;
  bo_bytes : byte_list (sector_buf (v_fs s));
  bo_lba : (sector_buf_lba (v_fs s) = NO_SECTOR /\ sector_buf_dirty (v_fs s) = false) \/
           fat_lba (v_fs s) <= sector_buf_lba (v_fs s) < data_lba (v_fs s);
  bo_clean : sector_buf_lba (v_fs s) <> NO_SECTOR -> sector_buf_dirty (v_fs s) = false ->
             sector_buf (v_fs s) = sec s (sector_buf_lba (v_fs s))
}.

Record vol_ok s : Prop := {
  vo_geo : geo_ok (v_fs s);
  vo_disk : bd_ok (v_disk s);
  vo_buf : buf_ok s;
  vo_hint : 0 <= next_free_hint (v_fs s) <= total_clusters (v_fs s) + 2
}.

(** The sectors the operations touch are on the disk. *)
Definition on_disk f (lba : Z) : Prop :=
  0 <= lba < data_lba f + total_clusters f * sectors_per_cluster f.

Lemma lba_u32 f lba : geo_ok f -> on_disk f lba ->
  u32 (partition_start_lba f + lba) = partition_start_lba f + lba /\
  0 <= partition_start_lba f + lba < bd_size (dev f).
Proof.
  intros [_ _ ? _ _ _ [? ?]] [? ?]. unfold NO_SECTOR in *. rewrite u32_small by lia. lia.
Qed.

Lemma table_lba f c : geo_ok f -> in_vol f c ->
  fat32_fat_lba f c = fat_lba f + c * 4 / 512 /\ fat32_fat_offset c = c * 4 mod 512 /\
  fat_lba f <= fat_lba f + c * 4 / 512 < data_lba f.
Proof.
  intros [_ _ ? [? _] [? Ht] [? ?] [? ?]] [? ?]. unfold fat32_fat_lba, fat32_fat_offset, FAT32_EOC_MIN, NO_SECTOR in *.
  rewrite (u32_small (c * 4)) by lia.
  assert (0 <= c * 4 / 512) by (apply Z.div_pos; lia).
  assert (c * 4 / 512 <= (total_clusters f + 1) * 4 / 512) by (apply Z.div_le_mono; lia).
  rewrite u32_small by nia. lia.
Qed.

Lemma table_on_disk f lba : geo_ok f -> fat_lba f <= lba < data_lba f -> on_disk f lba.
Proof. intros [_ _ _ [[? ?] _] [? _] [? _] _] Hl. unfold on_disk. nia. Qed.

Lemma cluster_on_disk f c i : geo_ok f -> in_vol f c -> 0 <= i < sectors_per_cluster f ->
  on_disk f (cluster_lba f c + i) /\ data_lba f <= cluster_lba f c + i /\
  u32 (cluster_to_lba f c + i) = cluster_lba f c + i.
Proof.
  intros [_ _ ? [[? ?] _] [? ?] [? ?] [? ?]] [? ?] Hi. unfold on_disk, cluster_lba, cluster_to_lba, FAT32_EOC_MIN, NO_SECTOR in *.
  assert (0 <= (total_clusters f + 1) * 4 / 512) by (apply Z.div_pos; lia).
  assert (0 <= (c - 2) * sectors_per_cluster f) by nia.
  assert ((c - 2) * sectors_per_cluster f + sectors_per_cluster f <= total_clusters f * sectors_per_cluster f) by nia.
  rewrite (u32_small (c - 2)) by lia. rewrite (u32_small (_ * _)) by lia. rewrite (u32_small (data_lba f + _)) by lia.
  rewrite u32_small by lia. lia.
Qed.

(** ** Sectors *)

Lemma sec_len s lba : vol_ok s -> on_disk (v_fs s) lba -> length (sec s lba) = 512%nat /\ byte_list (sec s lba).
Proof.
  intros [G Hd _ _] Hl. destruct (lba_u32 _ lba G Hl) as [_ Hr]. split; [|apply bytes_of_words_bytes].
  unfold sec. rewrite length_bytes_of_words. rewrite (bd_sector_len (v_disk s)); [done|done|apply G|done].
Qed.

Lemma drive_ok f : geo_ok f -> fat32_get_drive (dev f) = true.
Proof. intros [_ [? _] _ _ _ _ _]. unfold fat32_get_drive. apply andb_true_iff. rewrite Z.leb_le, Z.ltb_lt. lia. Qed.

Lemma read_sector_spec s lba buf off :
  geo_ok (v_fs s) -> bd_ok (v_disk s) -> on_disk (v_fs s) lba ->
  exists d, fat32_read_sector lba buf off s = (0, write_at buf off (sec s lba), set_disk d s) /\ bd_ok d /\
    forall j k, bd_sector d j k = bd_sector (v_disk s) j k.
Proof.
  intros G Hd Hl. unfold fat32_read_sector. rewrite (drive_ok _ G). destruct (lba_u32 _ lba G Hl) as [-> Hr]. cbn [negb].
  destruct (bd_read_ok (v_disk s) (dev (v_fs s)) _ Hd (proj2 (g_dev _ G)) Hr) as (d & -> & Hd' & Hs). by exists d.
Qed.

Lemma write_sector_spec s lba bytes :
  geo_ok (v_fs s) -> bd_ok (v_disk s) -> on_disk (v_fs s) lba -> length bytes = 512%nat -> byte_list bytes ->
  exists d, fat32_write_sector lba bytes s = (0, set_disk d s) /\ bd_ok d /\
    forall l, sec (set_disk d s) l = if l =? lba then bytes else sec s l.
Proof.
  intros G Hd Hl Hn Hb. unfold fat32_write_sector. rewrite (drive_ok _ G). destruct (lba_u32 _ lba G Hl) as [-> Hr]. cbn [negb].
  destruct (words_roundtrip 256 bytes Hn Hb) as [E1 E2].
  destruct (bd_write_ok (v_disk s) (dev (v_fs s)) _ _ Hd (proj2 (g_dev _ G)) Hr E2) as (d & -> & Hd' & Hs).
  exists d. split; [done|]. split; [done|]. intros l. unfold sec. cbn [v_fs v_disk set_disk]. rewrite Hs, Z.eqb_refl.
  destruct (Z.eqb_spec l lba) as [->|Hne]; cbn [andb]; [by rewrite Z.eqb_refl|].
  by rewrite (proj2 (Z.eqb_neq _ _)) by lia.
Qed.

(** The table and the data are the same; the buffer may differ. *)
Record same_sectors s s' : Prop := {
  ss_static : static (v_fs s') = static (v_fs s);
  ss_hint : next_free_hint (v_fs s') = next_free_hint (v_fs s);
  ss_free : free_clusters (v_fs s') = free_clusters (v_fs s);
  ss_heap : v_heap s' = v_heap s;
  ss_cbuf : g_cluster_buf s' = g_cluster_buf s;
  ss_table lba : fat_lba (v_fs s) <= lba < data_lba (v_fs s) -> fat_sec s' lba = fat_sec s lba;
  ss_data lba : data_lba (v_fs s) <= lba -> sec s' lba = sec s lba
}.

Lemma same_sectors_trans s1 s2 s3 : same_sectors s1 s2 -> same_sectors s2 s3 -> same_sectors s1 s3.
Proof.
  intros [E1 ? ? ? ? T1 D1] [E2 ? ? ? ? T2 D2]. destruct (static_fields _ _ E1) as (E3 & E4 & _).
  split; try (etransitivity; eassumption).
  - intros lba Hl. rewrite T2, T1 by (rewrite ?E3, ?E4; done). done.
  - intros lba Hl. rewrite D2, D1 by (rewrite ?E3, ?E4; done). done.
Qed.

Lemma no_sector_lba f lba : geo_ok f -> on_disk f lba -> lba <> NO_SECTOR.
Proof. intros G Hl. pose proof (g_size _ G). pose proof (g_part _ G). unfold on_disk in Hl. lia. Qed.

Lemma flush_sector_spec s :
  vol_ok s ->
  let s' := flush_sector s in
  vol_ok s' /\ same_sectors s s' /\ sector_buf_dirty (v_fs s') = false /\
  sector_buf_lba (v_fs s') = sector_buf_lba (v_fs s) /\
  (forall lba, fat_lba (v_fs s) <= lba < data_lba (v_fs s) -> sec s' lba = fat_sec s lba).
Proof.
  intros Hok. pose proof Hok as [G Hd [Bl Bb Bp Bc] Hh]. unfold flush_sector. destruct (sector_buf_dirty (v_fs s)) eqn:Ed.
  2: { split; [done|]. split; [by split|]. split; [done|]. split; [done|]. intros lba Hl. unfold fat_sec.
       destruct (Z.eqb_spec (sector_buf_lba (v_fs s)) lba) as [<-|]; [|done]. symmetry. apply Bc; [|done].
       apply (no_sector_lba (v_fs s)); [done|]. by apply table_on_disk. }
  destruct Bp as [[_ ?]|Bp]; [congruence|].
  destruct (write_sector_spec s (sector_buf_lba (v_fs s)) (sector_buf (v_fs s)) G Hd) as (d & -> & Hd' & Hs);
    [by apply table_on_disk|done|done|].
  set (s' := set_fs _ _). assert (forall l, sec s' l = if l =? sector_buf_lba (v_fs s) then sector_buf (v_fs s) else sec s l) as Hs' by exact Hs.
  assert (forall l, sec s' l = fat_sec s l) as Hf.
  { intros l. rewrite Hs'. unfold fat_sec. by rewrite Z.eqb_sym. }
  split; [|split; [|split; [done|split; [done|intros; apply Hf]]]].
  - split; [by apply (geo_ok_static (v_fs s))|done| |done]. split; [done|done|by right|]. intros _ _.
    change (sector_buf_lba (v_fs s')) with (sector_buf_lba (v_fs s)). change (sector_buf (v_fs s')) with (sector_buf (v_fs s)).
    by rewrite Hs', Z.eqb_refl.
  - split; try done.
    + intros lba Hl. unfold fat_sec at 1. change (sector_buf_lba (v_fs s')) with (sector_buf_lba (v_fs s)).
      change (sector_buf (v_fs s')) with (sector_buf (v_fs s)). rewrite Hs'. unfold fat_sec. rewrite (Z.eqb_sym lba).
      by destruct (sector_buf_lba (v_fs s) =? lba).
    + intros lba Hl. rewrite Hs'. by rewrite (proj2 (Z.eqb_neq lba _)) by lia.
Qed.

Lemma load_sector_spec s lba :
  vol_ok s -> fat_lba (v_fs s) <= lba < data_lba (v_fs s) ->
  exists s', fat32_load_sector lba s = (0, s') /\ vol_ok s' /\ same_sectors s s' /\
    sector_buf_lba (v_fs s') = lba /\ sector_buf (v_fs s') = fat_sec s lba.
Proof.
  intros Hok Hl. unfold fat32_load_sector. destruct (Z.eqb_spec (sector_buf_lba (v_fs s)) lba) as [E|Hne].
  { exists s. split; [done|]. split; [done|]. split; [by split|]. split; [done|]. unfold fat_sec. by rewrite (proj2 (Z.eqb_eq _ _) E). }
  destruct (flush_sector_spec s Hok) as (Ok1 & S1 & Ed & Elba & Hsec). pose proof Ok1 as [G Hd [Bl Bb Bp Bc] Hh]. set (s1 := flush_sector s) in *.
  destruct (static_fields _ _ (ss_static _ _ S1)) as (E3 & E4 & _).
  assert (on_disk (v_fs s1) lba) as Hon by (apply table_on_disk; [done|by rewrite E3, E4]).
  destruct (read_sector_spec s1 lba (sector_buf (v_fs s1)) 0 G Hd Hon) as (d & -> & Hd' & Hsame). cbn [Z.eqb].
  destruct (sec_len s1 lba Ok1 Hon) as [Hlen Hby].
  assert (write_at (sector_buf (v_fs s1)) 0 (sec s1 lba) = sec s1 lba) as Ew.
  { unfold write_at. rewrite take_0, Hlen, drop_ge by lia. apply app_nil_r. }
  rewrite Ew. set (s2 := set_fs _ _). assert (forall l, sec s2 l = sec s1 l) as Hs2.
  { intros l. unfold sec. cbn [v_fs v_disk s2 set_fs set_disk]. cbn. by rewrite Hsame. }
  assert (same_sectors s1 s2) as S2.
  { split; try done. intros l Hl'. unfold fat_sec. rewrite Hs2. cbn [v_fs s2 set_fs set_sector_buf_lba set_sector_buf set_disk sector_buf sector_buf_lba].
    destruct (Z.eqb_spec lba l) as [<-|].
    - by rewrite Elba, (proj2 (Z.eqb_neq _ _) Hne).
    - destruct (Z.eqb_spec (sector_buf_lba (v_fs s1)) l) as [<-|]; [|done]. symmetry. apply Bc; [|done].
      apply (no_sector_lba (v_fs s1)); [done|]. apply table_on_disk; [done|]. by rewrite E3, E4 in *. }
  exists s2. split; [done|]. split; [|split; [by apply (same_sectors_trans s s1 s2)|]].
  - split; [by apply (geo_ok_static (v_fs s1))|done| |done]. split; cbn; [done|done|right; by rewrite E3, E4|].
    intros _ _. change (sec s1 lba = sec s2 lba). by rewrite Hs2.
  - split; [done|]. cbn. by apply Hsec.
Qed.

(** ** Steps of the volume *)

(** The volume now holds the table [F] and the clusters [C]. *)
Record becomes s s' (F : Z -> Z) (C : Z -> list Z) : Prop := {
  b_ok : vol_ok s';
  b_static : static (v_fs s') = static (v_fs s);
  b_cbuf : g_cluster_buf s' = g_cluster_buf s;
  b_fat c : in_vol (v_fs s) c -> fat_at s' c = F c;
  b_clu c : in_vol (v_fs s) c -> clu s' c = C c
}.

Definition put (F : Z -> Z) c (v : Z) : Z -> Z := upd F c v.

Lemma in_vol_static f f' c : static f' = static f -> in_vol f' c <-> in_vol f c.
Proof. intros (_ & _ & _ & _ & E & _)%static_fields. unfold in_vol. by rewrite E. Qed.

Lemma clu_data s s' :
  static (v_fs s') = static (v_fs s) -> geo_ok (v_fs s) ->
  (forall lba, data_lba (v_fs s) <= lba -> sec s' lba = sec s lba) ->
  forall c, in_vol (v_fs s) c -> clu s' c = clu s c.
Proof.
  intros (_ & E2 & E3 & _)%static_fields G Hs c Hc. unfold clu, cluster_lba. rewrite E2, E3. f_equal. apply map_ext_in.
  intros i Hi%in_seq. apply Hs. fold (cluster_lba (v_fs s) c).
  destruct (cluster_on_disk (v_fs s) c (Z.of_nat i) G Hc) as (_ & ? & _); lia.
Qed.

Lemma same_becomes s s' : vol_ok s -> vol_ok s' -> same_sectors s s' -> becomes s s' (fat_at s) (clu s).
Proof.
  intros Hok Hok' S. pose proof (vo_geo _ Hok) as G. split; [done|apply S|apply S| |].
  - intros c Hc. unfold fat_at. destruct (static_fields _ _ (ss_static _ _ S)) as (-> & _).
    destruct (table_lba _ c G Hc) as (_ & _ & Hl). by rewrite (ss_table _ _ S).
  - apply clu_data; [apply S|done|apply S].
Qed.

(** Reading an entry changes nothing. *)
Lemma next_cluster_spec s c :
  vol_ok s -> in_vol (v_fs s) c ->
  exists s', fat32_next_cluster c s = (fat_at s c, s') /\ becomes s s' (fat_at s) (clu s) /\
    v_heap s' = v_heap s /\ next_free_hint (v_fs s') = next_free_hint (v_fs s).
Proof.
  intros Hok Hc. unfold fat32_next_cluster. destruct (table_lba _ c (vo_geo _ Hok) Hc) as (-> & -> & Hl).
  destruct (load_sector_spec s _ Hok Hl) as (s' & -> & Hok' & S & _ & Eb). cbn [Z.eqb negb]. rewrite Eb.
  exists s'. split; [done|]. split; [by apply same_becomes|]. split; apply S.
Qed.

(** 128 entries of four bytes fill a sector. *)
Lemma entry_pos c : c * 4 / 512 = c / 128 /\ c * 4 mod 512 = (c mod 128) * 4.
Proof.
  change 512 with (128 * 4). by rewrite Z.div_mul_cancel_r, Z.mul_mod_distr_r by lia.
Qed.

(** Writing an entry changes that entry. *)
Lemma set_fat_spec s c v :
  vol_ok s -> in_vol (v_fs s) c -> 0 <= v <= FAT32_MASK ->
  exists s', fat32_set_fat c v s = (0, s') /\ becomes s s' (put (fat_at s) c v) (clu s) /\
    v_heap s' = v_heap s /\ next_free_hint (v_fs s') = next_free_hint (v_fs s).
Proof.
  intros Hok Hc Hv. unfold fat32_set_fat. destruct (table_lba _ c (vo_geo _ Hok) Hc) as (-> & -> & Hl).
  destruct (load_sector_spec s _ Hok Hl) as (s1 & -> & Hok1 & S & El & Eb). cbn [Z.eqb negb].
  destruct (entry_pos c) as [Ep Eo]. rewrite Ep in *. rewrite Eo. pose proof (Z.mod_pos_bound c 128 ltac:(lia)) as Ho.
  pose proof Hok1 as [G1 D1 [Bl Bb Bp Bc] Hh]. destruct (static_fields _ _ (ss_static _ _ S)) as (E1 & E2 & _).
  assert (v .& FAT32_MASK = v) as Ev.
  { change FAT32_MASK with (Z.ones 28). rewrite Z.land_ones by lia. apply Z.mod_small. unfold FAT32_MASK in Hv. lia. }
  rewrite Ev. set (off := Z.to_nat (c mod 128 * 4)). set (buf := write_at _ off _).
  assert (off + 4 <= 512)%nat as Hoff by lia.
  assert (length buf = 512%nat) as Hlb by (unfold buf; rewrite length_write_at; rewrite ?length_le_bytes; lia).
  eexists. split; [reflexivity|]. set (s2 := set_fs _ _). split; [|split; apply S].
  pose proof (same_becomes s s1 Hok Hok1 S) as [_ _ _ F1 C1].
  split; [|apply S|apply S| |].
  - split; [by apply (geo_ok_static (v_fs s1))|done| |done]. split; [done| |right; cbn; lia|done].
    apply write_at_bytes; [done|apply le_bytes_bytes].
  - intros c' Hc'. assert (put (fat_at s) c v c' = if c' =? c then v else fat_at s1 c') as ->
      by (unfold put, upd; by rewrite F1).
    unfold fat_at. cbn [v_fs s2 set_fs set_sector_buf_dirty set_sector_buf fat_lba].
    unfold fat_sec. cbn [v_fs s2 set_fs set_sector_buf_dirty set_sector_buf sector_buf_lba sector_buf]. rewrite El, !E1.
    destruct (entry_pos c') as [-> Eo']. pose proof (Z.mod_pos_bound c' 128 ltac:(lia)).
    destruct (Z.eqb_spec c' c) as [->|Hne].
    + rewrite Z.eqb_refl, Eo. unfold field, buf. fold off.
      replace (take 4 _) with (le_bytes 4 v) by (symmetry; apply (window_write_at (sector_buf (v_fs s1)) off (le_bytes 4 v)); rewrite length_le_bytes; lia).
      rewrite le_val_bytes. change (256 ^ Z.of_nat 4) with (2 ^ 32). unfold FAT32_MASK in Hv. by rewrite Z.mod_small by lia.
    + rewrite Eo'.
      destruct (Z.eqb_spec (fat_lba (v_fs s) + c / 128) (fat_lba (v_fs s) + c' / 128)) as [Ediv|]; [|done].
      assert (c' mod 128 <> c mod 128) by (pose proof (Z.div_mod c 128); pose proof (Z.div_mod c' 128); lia).
      unfold field, buf. rewrite window_write_at_other; [done|rewrite length_le_bytes; lia|rewrite length_le_bytes; lia].
  - intros c' Hc'. rewrite <- C1 by done. apply (clu_data s1 s2); [done|done|done|]. by apply (in_vol_static (v_fs s)); [apply S|].
Qed.

(** ** Clusters *)

Definition spc s : nat := Z.to_nat (sectors_per_cluster (v_fs s)).
Definition bpc s : nat := Z.to_nat (bytes_per_cluster (v_fs s)).

Lemma bpc_spc s : geo_ok (v_fs s) -> bpc s = (spc s * 512)%nat /\ (0 < spc s)%nat.
Proof. intros G. destruct (g_spc _ G) as [? E]. unfold bpc, spc. rewrite E. lia. Qed.

Lemma in_vol_good f c : geo_ok f -> in_vol f c -> bad_cluster c = false.
Proof.
  intros G [? ?]. pose proof (g_total _ G). unfold bad_cluster. apply orb_false_iff. rewrite Z.ltb_ge, Z.leb_gt. lia.
Qed.

Lemma length_concat_const {T} (n k : nat) (g : nat -> list T) i :
  (forall j, i <= j < i + n -> length (g j) = k)%nat -> length (concat (map g (seq i n))) = (n * k)%nat.
Proof.
  revert i. induction n as [|n IH]; intros i Hg; [done|]. cbn [seq map concat]. rewrite length_app, IH, Hg by (intros; (lia || apply Hg; lia)). lia.
Qed.

Lemma clu_len s c : vol_ok s -> in_vol (v_fs s) c -> length (clu s c) = bpc s /\ byte_list (clu s c).
Proof.
  intros Hok Hc. pose proof (vo_geo _ Hok) as G. destruct (bpc_spc s G) as [-> _]. unfold clu. fold (spc s).
  assert (forall j, (0 <= j < 0 + spc s)%nat -> length (sec s (cluster_lba (v_fs s) c + Z.of_nat j)) = 512%nat) as Hl.
  { intros j Hj. apply sec_len; [done|]. apply cluster_on_disk; [done|done|unfold spc in Hj; lia]. }
  split; [by apply length_concat_const|]. unfold byte_list. apply Forall_concat, Forall_map, Forall_forall. intros j _.
  apply bytes_of_words_bytes.
Qed.

(** Filling a buffer piece by piece. *)
Lemma write_at_pieces (buf p q : list Z) i n :
  (length p = 512)%nat -> ((i + S n) * 512 <= length buf)%nat ->
  let buf1 := write_at buf (i * 512) p in
  take (S i * 512) buf1 ++ q ++ drop ((S i + n) * 512) buf1 =
  take (i * 512) buf ++ (p ++ q) ++ drop ((i + S n) * 512) buf.
Proof.
  intros Hp Hl buf1. unfold buf1, write_at. rewrite Hp.
  assert (length (take (i * 512) buf) = (i * 512)%nat) as Ht by (rewrite length_take; lia).
  rewrite take_app, Ht, (take_ge (take _ _)) by lia.
  rewrite take_app, Hp, (take_ge p) by lia. replace (S i * 512 - i * 512 - 512)%nat with 0%nat by lia.
  rewrite take_0, app_nil_r. rewrite drop_app, Ht, (drop_ge (take _ _)) by lia. cbn [app].
  rewrite drop_app, Hp, (drop_ge p) by lia. cbn [app]. rewrite drop_drop, <- !app_assoc.
  do 3 f_equal. f_equal. lia.
Qed.

Lemma set_disk_eta s : set_disk (v_disk s) s = s.
Proof. by destruct s. Qed.

(** Reading leaves the disk with the same sectors. *)
Lemma same_disk s d :
  vol_ok s -> bd_ok d -> (forall j k, bd_sector d j k = bd_sector (v_disk s) j k) ->
  vol_ok (set_disk d s) /\ same_sectors s (set_disk d s) /\ forall l, sec (set_disk d s) l = sec s l.
Proof.
  intros [? ? [? ? ? Bc] ?] Hd Hs. assert (forall l, sec (set_disk d s) l = sec s l) as Es by (intros l; unfold sec; cbn; by rewrite Hs).
  split_and!; [split; [done|done| |done]| |done].
  - split; [done|done|done|]. intros Hl Hc. rewrite Es. by apply Bc.
  - split; try done. intros l Hl. unfold fat_sec. by rewrite Es.
Qed.

Lemma fat_read_sectors_spec c n : forall i s buf,
  vol_ok s -> in_vol (v_fs s) c -> (i + n <= spc s)%nat -> length buf = (spc s * 512)%nat ->
  exists d, read_sectors n (Z.of_nat i) (cluster_to_lba (v_fs s) c) buf s =
    (0, take (i * 512) buf ++ concat (map (fun j => sec s (cluster_lba (v_fs s) c + Z.of_nat j)) (seq i n)) ++
        drop ((i + n) * 512) buf, set_disk d s) /\ bd_ok d /\
    forall j k, bd_sector d j k = bd_sector (v_disk s) j k.
Proof.
  induction n as [|n IH]; intros i s buf Hok Hc Hn Hl; cbn [read_sectors]; pose proof (vo_geo _ Hok) as G; pose proof (vo_disk _ Hok) as Hd.
  { exists (v_disk s). rewrite set_disk_eta. split; [|done]. cbn [seq map concat app]. by rewrite Nat.add_0_r, take_drop. }
  destruct (cluster_on_disk (v_fs s) c (Z.of_nat i) G Hc ltac:(unfold spc in Hn; lia)) as (Hon & _ & ->).
  destruct (read_sector_spec s _ buf (Z.to_nat (Z.of_nat i * 512)) G Hd Hon) as (d & -> & Hd' & Hs). cbn [Z.eqb negb].
  destruct (sec_len s _ Hok Hon) as [Hsl _]. replace (Z.to_nat (Z.of_nat i * 512)) with (i * 512)%nat by lia.
  destruct (same_disk s d Hok Hd' Hs) as (Hok1 & _ & Es). set (s1 := set_disk d s) in *.
  destruct (IH (S i) s1 (write_at buf (i * 512) (sec s (cluster_lba (v_fs s) c + Z.of_nat i))) Hok1 Hc) as (d2 & E2 & Hd2 & Hs2);
    [change (spc s1) with (spc s); lia|change (spc s1) with (spc s); rewrite length_write_at; rewrite ?Hsl; lia|].
  change (v_fs s1) with (v_fs s) in E2. replace (Z.of_nat (S i)) with (Z.of_nat i + 1) in E2 by lia. rewrite E2.
  exists d2. split; [|split; [done|intros j k; by rewrite Hs2]]. f_equal. f_equal.
  rewrite write_at_pieces by (done || lia). cbn [seq map concat]. do 4 f_equal.
  apply map_ext. intros j. apply Es.
Qed.

Lemma read_cluster_spec s c buf :
  vol_ok s -> in_vol (v_fs s) c -> length buf = bpc s ->
  exists s', fat32_read_cluster c buf s = Some (0, clu s c, s') /\ becomes s s' (fat_at s) (clu s) /\
    v_heap s' = v_heap s /\ v_fs s' = v_fs s.
Proof.
  intros Hok Hc Hl. pose proof (vo_geo _ Hok) as G. destruct (bpc_spc s G) as [Eb Hs0].
  unfold fat32_read_cluster. rewrite (in_vol_good _ c G Hc).
  assert (cluster_fits (v_fs s) buf = true) as -> by (apply Z.leb_le; unfold spc in *; lia).
  destruct (fat_read_sectors_spec c (spc s) 0 s buf Hok Hc ltac:(lia) ltac:(lia)) as (d & E & Hd' & Hs).
  change (Z.to_nat (sectors_per_cluster (v_fs s))) with (spc s). change (Z.of_nat 0) with 0 in E. rewrite E.
  exists (set_disk d s). split; [|split; [|done]].
  - do 3 f_equal. rewrite drop_ge by lia. cbn [app take]. apply app_nil_r.
  - destruct (same_disk s d Hok Hd' Hs) as (? & ? & _). by apply same_becomes.
Qed.

(** The pieces of a buffer make up the buffer. *)
Lemma concat_pieces n (buf : list Z) :
  length buf = (n * 512)%nat ->
  concat (map (fun j => take 512 (drop (j * 512) buf)) (seq 0 n)) = buf.
Proof.
  revert buf. induction n as [|n IH]; intros buf Hl; [by destruct buf|]. cbn [seq map concat]. rewrite drop_0, <- seq_shift, map_map.
  transitivity (take 512 buf ++ drop 512 buf); [f_equal|apply take_drop].
  rewrite <- (IH (drop 512 buf)) by (rewrite length_drop; lia). f_equal. apply map_ext. intros j. rewrite drop_drop. by do 2 f_equal.
Qed.

Lemma fat_write_sectors_spec c n : forall i s buf,
  vol_ok s -> in_vol (v_fs s) c -> (i + n <= spc s)%nat -> length buf = (spc s * 512)%nat -> byte_list buf ->
  let cl := cluster_lba (v_fs s) c in
  exists d, write_sectors n (Z.of_nat i) (cluster_to_lba (v_fs s) c) buf s = (0, set_disk d s) /\ bd_ok d /\
    forall l, sec (set_disk d s) l =
      if (cl + Z.of_nat i <=? l) && (l <? cl + Z.of_nat (i + n))
      then take 512 (drop (Z.to_nat ((l - cl) * 512)) buf) else sec s l.
Proof.
  intros i s buf Hok Hc Hn Hl Hb cl. pose proof (vo_geo _ Hok) as G. revert i s Hok Hc Hn Hl cl G.
  induction n as [|n IH]; intros i s Hok Hc Hn Hl cl G; cbn [write_sectors].
  { exists (v_disk s). rewrite set_disk_eta. split; [done|]. split; [apply Hok|]. intros l.
    destruct (Z.leb_spec (cl + Z.of_nat i) l), (Z.ltb_spec l (cl + Z.of_nat (i + 0))); (done || lia). }
  destruct (cluster_on_disk (v_fs s) c (Z.of_nat i) G Hc ltac:(unfold spc in Hn; lia)) as (Hon & Hge & ->). fold cl in Hon, Hge |- *.
  set (w := take 512 _). assert (length w = 512%nat) as Hw by (unfold w; rewrite length_take, length_drop; lia).
  destruct (write_sector_spec s (cl + Z.of_nat i) w G (vo_disk _ Hok) Hon Hw) as (d & -> & Hd' & Hs);
    [by apply Forall_take, Forall_drop|]. cbn [Z.eqb negb]. set (s1 := set_disk d s) in *.
  assert (vol_ok s1) as Hok1.
  { destruct Hok as [? ? [? ? Bp Bc] ?]. split; [done|done| |done]. split; [done|done|done|]. intros H1' H2'.
    rewrite Hs. change (sector_buf_lba (v_fs s1)) with (sector_buf_lba (v_fs s)). destruct Bp as [[? _]|?]; [done|].
    rewrite (proj2 (Z.eqb_neq _ _)) by lia. by apply Bc. }
  destruct (IH (S i) s1 Hok1 Hc) as (d2 & E2 & Hd2 & Hs2); [change (spc s1) with (spc s); lia|done|done|].
  change (v_fs s1) with (v_fs s) in E2, Hs2. replace (Z.of_nat (S i)) with (Z.of_nat i + 1) in E2 by lia. rewrite E2.
  exists d2. split; [done|]. split; [done|]. intros l. change (set_disk d2 s1) with (set_disk d2 s) in Hs2. rewrite Hs2, Hs. fold cl.
  destruct (Z.eqb_spec l (cl + Z.of_nat i)) as [->|Hne].
  - destruct (Z.leb_spec (cl + Z.of_nat (S i)) (cl + Z.of_nat i)); [lia|].
    destruct (Z.leb_spec (cl + Z.of_nat i) (cl + Z.of_nat i)), (Z.ltb_spec (cl + Z.of_nat i) (cl + Z.of_nat (i + S n))); try lia.
    cbn [andb]. unfold w. do 2 f_equal. lia.
  - destruct (Z.leb_spec (cl + Z.of_nat (S i)) l), (Z.leb_spec (cl + Z.of_nat i) l), (Z.ltb_spec l (cl + Z.of_nat (S i + n))),
      (Z.ltb_spec l (cl + Z.of_nat (i + S n))); (done || lia).
Qed.

(** The clusters lie apart from one another. *)
Lemma cluster_apart f c c' i i' :
  geo_ok f -> c <> c' -> 0 <= i < sectors_per_cluster f -> 0 <= i' < sectors_per_cluster f ->
  cluster_lba f c + i <> cluster_lba f c' + i'.
Proof. intros G Hne Hi Hi'. unfold cluster_lba. pose proof (g_spc _ G). nia. Qed.

Lemma write_cluster_spec s c buf :
  vol_ok s -> in_vol (v_fs s) c -> length buf = bpc s -> byte_list buf ->
  exists s', fat32_write_cluster c buf s = Some (0, s') /\ becomes s s' (fat_at s) (upd (clu s) c buf) /\
    v_heap s' = v_heap s /\ v_fs s' = v_fs s.
Proof.
  intros Hok Hc Hl Hb. pose proof (vo_geo _ Hok) as G. destruct (bpc_spc s G) as [Eb Hs0].
  unfold fat32_write_cluster. rewrite (in_vol_good _ c G Hc).
  assert (cluster_fits (v_fs s) buf = true) as -> by (apply Z.leb_le; unfold spc in *; lia).
  destruct (fat_write_sectors_spec c (spc s) 0 s buf Hok Hc ltac:(lia) ltac:(lia) Hb) as (d & E & Hd' & Hs).
  change (Z.to_nat (sectors_per_cluster (v_fs s))) with (spc s). change (Z.of_nat 0) with 0 in E. rewrite E.
  set (cl := cluster_lba (v_fs s) c) in *. change (Z.of_nat 0) with 0 in Hs. rewrite Z.add_0_r, Nat.add_0_l in Hs.
  exists (set_disk d s). split; [done|]. split; [|done].
  destruct (cluster_on_disk (v_fs s) c 0 G Hc ltac:(unfold spc in *; lia)) as (_ & Hge & _). fold cl in Hge.
  assert (forall l, l < data_lba (v_fs s) -> sec (set_disk d s) l = sec s l) as Hlow.
  { intros l Hlt. rewrite Hs. destruct (Z.leb_spec cl l); [lia|done]. }
  split; [|done|done| |].
  - destruct Hok as [? ? [? ? Bp Bc] ?]. split; [done|done| |done]. split; [done|done|done|]. intros H1' H2'. cbn in H1', H2'.
    destruct Bp as [[? _]|?]; [done|]. cbn [v_fs set_disk]. rewrite Hlow by lia. by apply Bc.
  - intros c' Hc'. unfold fat_at, fat_sec. cbn [v_fs set_disk]. destruct (table_lba _ c' G Hc') as (_ & _ & Ht).
    by rewrite Hlow by lia.
  - intros c' Hc'. unfold clu, upd. cbn [v_fs set_disk]. fold (spc s). destruct (Z.eqb_spec c' c) as [->|Hne].
    + rewrite <- (concat_pieces (spc s) buf) by lia. f_equal. apply map_ext_in. intros j Hj%in_seq. rewrite Hs. fold cl.
      destruct (Z.leb_spec cl (cl + Z.of_nat j)), (Z.ltb_spec (cl + Z.of_nat j) (cl + Z.of_nat (spc s))); try lia.
      cbn [andb]. do 2 f_equal. lia.
    + f_equal. apply map_ext_in. intros j Hj%in_seq. rewrite Hs.
      destruct (Z.leb_spec cl (cluster_lba (v_fs s) c' + Z.of_nat j)), (Z.ltb_spec (cluster_lba (v_fs s) c' + Z.of_nat j) (cl + Z.of_nat (spc s))); try done.
      exfalso. apply (cluster_apart (v_fs s) c' c (Z.of_nat j) (cluster_lba (v_fs s) c' + Z.of_nat j - cl)); try done; unfold spc in *; fold cl; lia.
Qed.

(** ** Composition of steps *)

Lemma becomes_trans s s1 s2 F1 C1 F2 C2 : becomes s s1 F1 C1 -> becomes s1 s2 F2 C2 -> becomes s s2 F2 C2.
Proof.
  intros [? E1 B1 _ _] [? E2 B2 ? ?]. split; [done|by rewrite E2|by rewrite B2| |]; intros c Hc.
  - by apply b_fat0, (in_vol_static (v_fs s)).
  - by apply b_clu0, (in_vol_static (v_fs s)).
Qed.

Lemma becomes_ext s s' F C F' C' :
  (forall c, in_vol (v_fs s) c -> F c = F' c) -> (forall c, in_vol (v_fs s) c -> C c = C' c) ->
  becomes s s' F C -> becomes s s' F' C'.
Proof.
  intros HF HC [? ? ? Ef Ec]. split; [done|done|done| |]; intros c Hc.
  - by rewrite Ef, HF.
  - by rewrite Ec, HC.
Qed.

(** A change [F2], [C2] of the state [s1] that [s] became. *)
Lemma becomes_then s s1 s2 F1 C1 (GF : (Z -> Z) -> Z -> Z) (GC : (Z -> list Z) -> Z -> list Z) :
  (forall F F' c, (forall x, in_vol (v_fs s) x -> F x = F' x) -> in_vol (v_fs s) c -> GF F c = GF F' c) ->
  (forall C C' c, (forall x, in_vol (v_fs s) x -> C x = C' x) -> in_vol (v_fs s) c -> GC C c = GC C' c) ->
  becomes s s1 F1 C1 -> becomes s1 s2 (GF (fat_at s1)) (GC (clu s1)) -> becomes s s2 (GF F1) (GC C1).
Proof.
  intros HF HC B1 B2. apply (becomes_ext s s2 (GF (fat_at s1)) (GC (clu s1))).
  - intros c Hc. apply HF; [|done]. apply B1.
  - intros c Hc. apply HC; [|done]. apply B1.
  - by apply (becomes_trans s s1 s2 F1 C1).
Qed.

Lemma put_agree f c v F F' x :
  (forall x, in_vol f x -> F x = F' x) -> in_vol f x -> put F c v x = put F' c v x.
Proof. intros HF Hx. unfold put, upd. destruct (x =? c); [done|by apply HF]. Qed.

Lemma upd_agree f c (v : list Z) F F' x :
  (forall x, in_vol f x -> F x = F' x) -> in_vol f x -> upd F c v x = upd F' c v x.
Proof. intros HF Hx. unfold upd. destruct (x =? c); [done|by apply HF]. Qed.

Lemma becomes_put s s1 s2 F C c v :
  becomes s s1 F C -> becomes s1 s2 (put (fat_at s1) c v) (clu s1) -> becomes s s2 (put F c v) C.
Proof. apply (becomes_then s s1 s2 F C (fun F => put F c v) (fun C => C)); [|auto]. intros F' F'' x. apply put_agree. Qed.

Lemma becomes_same s s1 s2 F C :
  becomes s s1 F C -> becomes s1 s2 (fat_at s1) (clu s1) -> becomes s s2 F C.
Proof. apply (becomes_then s s1 s2 F C (fun F => F) (fun C => C)); auto. Qed.

Lemma becomes_upd s s1 s2 F C c v :
  becomes s s1 F C -> becomes s1 s2 (fat_at s1) (upd (clu s1) c v) -> becomes s s2 F (upd C c v).
Proof. apply (becomes_then s s1 s2 F C (fun F => F) (fun C => upd C c v)); [auto|]. intros F' F'' x. apply upd_agree. Qed.

Lemma becomes_refl s : vol_ok s -> becomes s s (fat_at s) (clu s).
Proof. by split. Qed.

(** ** The heap *)

Definition hstep (h h' : A) : Prop := k_inv h' /\ forall p, k_live h p -> k_live h' p.

Lemma hstep_trans h1 h2 h3 : hstep h1 h2 -> hstep h2 h3 -> hstep h1 h3.
Proof. intros [_ L1] [I2 L2]. split; auto. Qed.

Lemma set_heap_becomes s h : vol_ok s -> becomes s (set_heap h s) (fat_at s) (clu s).
Proof. intros [? ? [? ? ? ?] ?]. by split. Qed.

Lemma malloc_vol s n :
  k_inv (v_heap s) -> 0 < n <= K_MAX ->
  exists p h, malloc n s = Some (p, set_heap h s) /\ hstep (v_heap s) h /\
    (p <> 0 -> k_live h p /\ ~ k_live (v_heap s) p).
Proof.
  intros Hi Hn. unfold malloc. destruct (malloc_spec (v_heap s) n Hi Hn) as (p & h & -> & Hi' & Hl). cbn [mbind option_bind].
  exists p, h. split; [done|]. destruct Hl as [(-> & Hl)|(Hp & Hf & Hl)]; (split; [split; [done|]; intros q Hq; apply Hl; auto|]); [done|].
  intros _. split; [apply Hl; by left|done].
Qed.

(** Giving back a buffer: what was live before it was allocated stays so. *)
Lemma free_vol s p (h0 : A) :
  k_inv (v_heap s) -> k_live (v_heap s) p -> p <> 0 -> ~ k_live h0 p -> (forall q, k_live h0 q -> k_live (v_heap s) q) ->
  exists h, free p s = Some (set_heap h s) /\ hstep h0 h.
Proof.
  intros Hi Hp Hne Hf Hl. unfold free. rewrite (proj2 (Z.eqb_neq p 0) Hne).
  destruct (free_spec (v_heap s) p Hi (live_freeable _ _ Hi Hp)) as (h & -> & Hi' & Hl'). exists h. split; [done|]. split; [done|].
  intros q Hq. apply Hl'. split; [|by apply Hl]. intros ->. done.
Qed.

Lemma cluster_bytes f : geo_ok f -> 0 < bytes_per_cluster f <= K_MAX.
Proof. intros G. destruct (g_spc _ G) as [? ->]. unfold K_MAX. lia. Qed.

(** ** Allocation *)

Lemma scan_free_spec n : forall c s,
  vol_ok s -> 2 <= c -> c + Z.of_nat n <= total_clusters (v_fs s) + 2 ->
  let '(r, s') := scan_free n c s in
  becomes s s' (fat_at s) (clu s) /\ v_heap s' = v_heap s /\ next_free_hint (v_fs s') = next_free_hint (v_fs s) /\
  match r with
  | Some c' => in_vol (v_fs s) c' /\ fat_at s c' = FAT32_FREE
  | None => forall c', c <= c' < c + Z.of_nat n -> fat_at s c' <> FAT32_FREE
  end.
Proof.
  induction n as [|n IH]; intros c s Hok Hc Hn; cbn [scan_free].
  { split; [by apply becomes_refl|]. split; [done|]. split; [done|]. lia. }
  assert (in_vol (v_fs s) c) as Hin by (unfold in_vol; lia).
  destruct (next_cluster_spec s c Hok Hin) as (s1 & -> & B1 & H1' & N1). destruct (Z.eqb_spec (fat_at s c) FAT32_FREE) as [E|Hne].
  { by split_and!. }
  destruct (static_fields _ _ (b_static _ _ _ _ B1)) as (_ & _ & _ & _ & Et & _).
  pose proof (IH (c + 1) s1 (b_ok _ _ _ _ B1) ltac:(lia) ltac:(lia)) as H2. destruct (scan_free n (c + 1) s1) as [r s2].
  destruct H2 as (B2 & H2' & N2 & Hr). split; [by apply (becomes_same s s1 s2)|]. split; [congruence|]. split; [congruence|].
  destruct r as [c'|].
  - destruct Hr as [Hi Hf]. apply (in_vol_static (v_fs s)) in Hi; [|apply B1]. rewrite (b_fat _ _ _ _ B1) in Hf by done. done.
  - intros c' Hc'. destruct (decide (c' = c)) as [->|]; [done|]. specialize (Hr c' ltac:(lia)).
    rewrite (b_fat _ _ _ _ B1) in Hr; [done|]. unfold in_vol. lia.
Qed.

(** The table after [c] has been appended to [prev]. *)
Definition link (F : Z -> Z) (prev c : Z) : Z -> Z :=
  if prev =? 0 then put F c FAT32_EOC else put (put F c FAT32_EOC) prev c.

Lemma becomes_link s s1 s2 F C prev c :
  becomes s s1 F C -> becomes s1 s2 (link (fat_at s1) prev c) (clu s1) -> becomes s s2 (link F prev c) C.
Proof.
  apply (becomes_then s s1 s2 F C (fun F => link F prev c) (fun C => C)); [|auto].
  intros F1 F2 x HF Hx. unfold link. case_if; [by apply (put_agree (v_fs s))|]. apply (put_agree (v_fs s)); [|done].
  intros y Hy. by apply (put_agree (v_fs s)).
Qed.

Lemma in_vol_value f c : geo_ok f -> in_vol f c -> 0 <= c <= FAT32_MASK.
Proof. intros G [? ?]. pose proof (g_total _ G). unfold FAT32_EOC_MIN, FAT32_MASK in *. lia. Qed.

(** The counters do not matter to the contents. *)
Lemma set_counters_becomes s hint free :
  vol_ok s -> 0 <= hint <= total_clusters (v_fs s) + 2 ->
  becomes s (set_fs (set_free_clusters (set_next_free_hint (v_fs s) hint) free) s) (fat_at s) (clu s).
Proof.
  intros [G ? [? ? ? ?] ?] Hh. split; try done. split; [by apply (geo_ok_static (v_fs s))|done| |done]. by split.
Qed.

Lemma take_cluster_spec s c prev :
  vol_ok s -> in_vol (v_fs s) c -> prev = 0 \/ in_vol (v_fs s) prev ->
  becomes s (take_cluster c prev s) (link (fat_at s) prev c) (clu s) /\ v_heap (take_cluster c prev s) = v_heap s.
Proof.
  intros Hok Hc Hp. pose proof (vo_geo _ Hok) as G. pose proof (in_vol_value _ c G Hc) as Hv. unfold take_cluster.
  destruct (set_fat_spec s c FAT32_EOC Hok Hc ltac:(done)) as (s1 & -> & B1 & H1' & N1). cbn [snd].
  set (s2 := if negb (prev =? 0) then _ else s1).
  assert (becomes s s2 (link (fat_at s) prev c) (clu s) /\ v_heap s2 = v_heap s) as [B2 H2'].
  { unfold link, s2. destruct (Z.eqb_spec prev 0) as [->|Hne]; [done|]. cbn [negb]. destruct Hp as [?|Hp]; [done|].
    destruct (set_fat_spec s1 prev c (b_ok _ _ _ _ B1)) as (s2' & -> & B2 & ? & _); [by apply (in_vol_static (v_fs s)); [apply B1|]|done|].
    split; [by apply (becomes_put s s1)|]. cbn [snd]. congruence. }
  destruct (static_fields _ _ (b_static _ _ _ _ B2)) as (_ & _ & _ & _ & Et & _). clearbody s2.
  assert (0 <= u32 (c + 1) <= total_clusters (v_fs s2) + 2) as Hu.
  { destruct Hc as [? ?]. unfold FAT32_MASK in Hv. rewrite u32_small by lia. rewrite Et. lia. }
  split; [|by case_if]. apply (becomes_same s s2); [done|]. pose proof (b_ok _ _ _ _ B2) as Ok2.
  case_if; [by apply set_counters_becomes|].
  exact (set_counters_becomes s2 (u32 (c + 1)) (free_clusters (v_fs s2)) Ok2 Hu).
Qed.

Lemma zero_cluster_spec s c :
  vol_ok s -> k_inv (v_heap s) -> in_vol (v_fs s) c ->
  exists s' z, zero_cluster c s = Some s' /\ length z = bpc s /\ byte_list z /\
    becomes s s' (fat_at s) (upd (clu s) c z) /\ hstep (v_heap s) (v_heap s').
Proof.
  intros Hok Hi Hc. unfold zero_cluster.
  destruct (malloc_vol s _ Hi (cluster_bytes _ (vo_geo _ Hok))) as (p & h & -> & Hh & Hp). cbn [mbind option_bind].
  pose proof (set_heap_becomes s h Hok) as B1. set (s1 := set_heap h s) in *. destruct (Z.eqb_spec p 0) as [->|Hne]; cbn [negb].
  { destruct (clu_len s c Hok Hc). exists s1, (clu s c). split; [done|]. split; [done|]. split; [done|]. split; [|done].
    apply (becomes_ext s s1 (fat_at s) (clu s)); [done| |done]. intros x _. unfold upd. by destruct (Z.eqb_spec x c) as [->|]. }
  destruct (Hp Hne) as [Hlive Hfresh]. set (z := replicate (Z.to_nat (bytes_per_cluster (v_fs s))) 0).
  assert (length z = bpc s) as Hz by apply length_replicate. assert (byte_list z) as Hzb by by apply Forall_replicate.
  destruct (write_cluster_spec s1 c z (b_ok _ _ _ _ B1) Hc Hz Hzb) as (s2 & -> & B2 & H2 & _). cbn [mbind option_bind].
  destruct (free_vol s2 p (v_heap s)) as (h3 & -> & Hh3); [rewrite H2; apply Hh|by rewrite H2|done|done|rewrite H2; apply Hh|].
  exists (set_heap h3 s2), z. split; [done|]. split; [done|]. split; [done|]. split; [|done].
  apply (becomes_same s s2); [by apply (becomes_upd s s1)|]. apply set_heap_becomes, B2.
Qed.

(** A cluster comes from the free ones, or there are none. *)
Lemma alloc_cluster_spec s prev :
  vol_ok s -> k_inv (v_heap s) -> prev = 0 \/ in_vol (v_fs s) prev ->
  exists c s', fat32_alloc_cluster prev s = Some (c, s') /\ hstep (v_heap s) (v_heap s') /\
    ((c = 0 /\ becomes s s' (fat_at s) (clu s) /\ forall x, in_vol (v_fs s) x -> fat_at s x <> FAT32_FREE) \/
     (in_vol (v_fs s) c /\ fat_at s c = FAT32_FREE /\ exists z, length z = bpc s /\ byte_list z /\
      becomes s s' (link (fat_at s) prev c) (upd (clu s) c z))).
Proof.
  intros Hok Hi Hp. pose proof (vo_geo _ Hok) as G. pose proof (vo_hint _ Hok) as Hh. pose proof (g_total _ G) as [Ht0 Ht1].
  unfold fat32_alloc_cluster, scan_end. unfold FAT32_EOC_MIN in Ht1. rewrite u32_small by lia.
  assert (2 <= scan_start (v_fs s) <= total_clusters (v_fs s) + 2) as Hst by (unfold scan_start; case_if; bools; lia).
  set (start := scan_start (v_fs s)) in *.
  pose proof (scan_free_spec (Z.to_nat (total_clusters (v_fs s) + 2 - start)) start s Hok ltac:(lia) ltac:(lia)) as H1'.
  destruct (scan_free _ start s) as [r s1]. destruct H1' as (B1 & E1 & _ & Hr1). pose proof (b_ok _ _ _ _ B1) as Ok1.
  pose proof (fun x => in_vol_static (v_fs s) (v_fs s1) x (b_static _ _ _ _ B1)) as Hin. destruct r as [c|].
  - destruct Hr1 as [Hc Hf]. destruct (take_cluster_spec s1 c prev Ok1) as [B2 E2]; [by apply Hin|by rewrite Hin|].
    destruct (zero_cluster_spec (take_cluster c prev s1) c (b_ok _ _ _ _ B2)) as (s3 & z & -> & Hz & Hzb & B3 & E3).
    { by rewrite E2, E1. } { apply (in_vol_static (v_fs s1)); [apply B2|by apply Hin]. }
    cbn [mbind option_bind]. exists c, s3. split; [done|]. split; [by rewrite E2, E1 in E3|]. right. split; [done|]. split; [done|].
    exists z. split; [|split; [done|]].
    { rewrite Hz. unfold bpc. destruct (static_fields _ _ (b_static _ _ _ _ B2)) as (_ & _ & _ & -> & _).
      by destruct (static_fields _ _ (b_static _ _ _ _ B1)) as (_ & _ & _ & -> & _). }
    apply (becomes_upd s (take_cluster c prev s1)); [by apply (becomes_link s s1)|done].
  - destruct (static_fields _ _ (b_static _ _ _ _ B1)) as (_ & _ & _ & Eb & Et & _).
    pose proof (scan_free_spec (Z.to_nat (start - 2)) 2 s1 Ok1 ltac:(lia) ltac:(lia)) as H2'.
    destruct (scan_free _ 2 s1) as [r s2]. destruct H2' as (B2 & E2 & _ & Hr2). pose proof (becomes_same s s1 s2 _ _ B1 B2) as B12.
    destruct r as [c|].
    + destruct Hr2 as [Hc Hf]. apply Hin in Hc. rewrite (b_fat _ _ _ _ B1) in Hf by done.
      pose proof (fun x => in_vol_static (v_fs s) (v_fs s2) x (b_static _ _ _ _ B12)) as Hin2.
      destruct (take_cluster_spec s2 c prev (b_ok _ _ _ _ B12)) as [B3 E3]; [by apply Hin2|by rewrite Hin2|].
      exists c, (take_cluster c prev s2). split; [done|]. split; [rewrite E3, E2, E1; by split|]. right. split; [done|]. split; [done|].
      destruct (clu_len s c Hok Hc). exists (clu s c). split; [done|]. split; [done|].
      apply (becomes_ext s _ (link (fat_at s) prev c) (clu s)); [done| |].
      { intros x _. unfold upd. by destruct (Z.eqb_spec x c) as [->|]. }
      by apply (becomes_link s s2).
    + exists 0, s2. split; [done|]. split; [rewrite E2, E1; by split|]. left. split; [done|]. split; [done|].
      intros x Hx. destruct (decide (x < start)).
      * specialize (Hr2 x ltac:(destruct Hx; lia)). by rewrite (b_fat _ _ _ _ B1) in Hr2.
      * apply Hr1. destruct Hx. lia.
Qed.
End volume.
