(* ===== verification/Fat32File.v ===== *)
(** * FAT32: chains and files

    A file is a chain of clusters.  Reading follows the chain, writing follows
    and extends it; this file shows what both do to the bytes of the file and
    that they leave everything else on the volume alone. *)

From S2P Require Import Prelude CString Bytes Ports KAlloc Vfs Fat32 Fat32Inv.

(** ** Chains *)

Fixpoint chain (f : fat32_fs) (F : Z -> Z) (L : list Z) : Prop :=
  match L with
  | [] => False
  | c :: l => in_vol f c /\ match l with [] => FAT32_EOC_MIN <= F c | c' :: _ => F c = c' /\ chain f F l end
  end.

Section chains.
Implicit Types (f : fat32_fs) (F : Z -> Z) (L p l : list Z).

Lemma chain_head f F c l : chain f F (c :: l) -> in_vol f c.
Proof. by intros [? _]. Qed.

Lemma chain_in f F L c : chain f F L -> c ∈ L -> in_vol f c /\ F c <> FAT32_FREE.
Proof.
  unfold FAT32_FREE. induction L as [|x l IH]; [by intros []|]. intros [Hx Hl] [->|Hc]%elem_of_cons.
  - split; [done|]. destruct l as [|y l]; [unfold FAT32_EOC_MIN in Hl; lia|]. destruct Hl as [-> [? ?]%chain_head]. lia.
  - destruct l as [|y l]; [by apply elem_of_nil in Hc|]. apply IH; [|done]. apply Hl.
Qed.

Lemma chain_suffix f F p c l : chain f F (p ++ c :: l) -> chain f F (c :: l).
Proof.
  induction p as [|x p IH]; [done|]. cbn [app]. intros [_ Hl]. destruct p as [|y p]; apply IH, Hl.
Qed.

Lemma chain_agree f F F' L : (forall c, c ∈ L -> F' c = F c) -> chain f F L -> chain f F' L.
Proof.
  induction L as [|c l IH]; [done|]. intros HF [Hc Hl]. split; [done|]. rewrite HF by set_solver.
  destruct l as [|c' l]; [done|]. destruct Hl as [? Hl]. split; [done|]. apply IH; [|done]. intros x Hx. apply HF. set_solver.
Qed.

Section bounded.
Context (f : fat32_fs) (Hf : total_clusters f + 2 < FAT32_EOC_MIN).

(** A chain is determined by its first cluster, and does not meet itself. *)
Lemma chain_det F L L' : chain f F L -> chain f F L' -> head L = head L' -> L = L'.
Proof.
  revert L'. induction L as [|c l IH]; intros L'; [by intros []|]. destruct L' as [|c' l']; [by intros _ []|].
  intros [Hc Hl] [Hc' Hl'] [= <-]. f_equal. destruct l as [|x l], l' as [|y l']; [done| | |].
  - destruct Hl' as [E [? ?]%chain_head]. unfold in_vol in *. lia.
  - destruct Hl as [E [? ?]%chain_head]. unfold in_vol in *. lia.
  - destruct Hl as [E1 Hl], Hl' as [E2 Hl']. apply IH; [done|done|]. cbn. congruence.
Qed.

Lemma chain_NoDup F L : chain f F L -> NoDup L.
Proof.
  induction L as [|c l IH]; [by intros []|]. intros Hch. apply NoDup_cons. split.
  - intros (l1 & l2 & ->)%list_elem_of_split. pose proof (chain_suffix f F (c :: l1) c l2 Hch) as Hs.
    pose proof (chain_det F _ _ Hch Hs eq_refl) as E. apply (f_equal length) in E. cbn in E. rewrite length_app in E. cbn in E. lia.
  - destruct l as [|x l]; [constructor|]. apply IH, Hch.
Qed.

(** The entry of a cluster leads to the next one. *)
Lemma chain_next F p c c' l : chain f F (p ++ c :: c' :: l) -> F c = c'.
Proof. intros Hs%chain_suffix. apply Hs. Qed.

Lemma chain_last F p c : chain f F (p ++ [c]) -> FAT32_EOC_MIN <= F c.
Proof. intros Hs%chain_suffix. apply Hs. Qed.

(** Appending a free cluster. *)
Lemma chain_link F p c d :
  chain f F (p ++ [c]) -> in_vol f d -> F d = FAT32_FREE -> chain f (link F c d) (p ++ [c; d]).
Proof.
  intros Hch Hd Hfree. assert (forall x, x ∈ p ++ [c] -> x <> d) as Hne.
  { intros x Hx ->. by destruct (chain_in f F _ d Hch Hx). }
  assert (c <> 0) as Hc0. { destruct (chain_in f F _ c Hch) as [[? ?] _]; [set_solver|lia]. }
  unfold link. rewrite (proj2 (Z.eqb_neq c 0) Hc0). pose proof (chain_NoDup F _ Hch) as Hnd.
  induction p as [|x p IH].
  - cbn [app chain]. split; [apply Hch|]. unfold put. rewrite upd_eq. split; [done|]. split; [done|].
    rewrite upd_ne by (intros ->; by apply (Hne c ltac:(set_solver))). rewrite upd_eq. unfold FAT32_EOC_MIN, FAT32_EOC. lia.
  - cbn [app] in *. apply NoDup_cons in Hnd as [Hx Hnd]. destruct Hch as [Hxv Hl]. split; [done|].
    assert (put (put F d FAT32_EOC) c d x = F x) as Ex.
    { unfold put. rewrite upd_ne by set_solver. apply upd_ne, Hne. set_solver. }
    assert (chain f F (p ++ [c])) as Hch by (destruct p; apply Hl).
    pose proof (IH Hch ltac:(set_solver) Hnd) as Hnew. destruct p as [|y p]; cbn [app] in *; rewrite Ex; (split; [apply Hl|done]).
Qed.
End bounded.
End chains.

Section files.
Context {D A : Type} `{BlockDev D} `{KAllocLaws A} `{!KFreeLaws A}.
Implicit Types (s : vol D A) (c : Z) (L p l : list Z).

Definition chain_of s L : Prop := chain (v_fs s) (fat_at s) L.

Lemma vol_bound s : vol_ok s -> total_clusters (v_fs s) + 2 < FAT32_EOC_MIN.
Proof. intros Hok. apply (g_total _ (vo_geo _ Hok)). Qed.

Lemma chain_static f f' F L : static f' = static f -> chain f F L -> chain f' F L.
Proof.
  intros E. induction L as [|c l IH]; [done|]. intros [Hc Hl]. split; [by apply (in_vol_static f)|].
  destruct l as [|c' l]; [done|]. destruct Hl as [? Hl]. split; [done|]. by apply IH.
Qed.

Lemma chain_becomes s s' F C L : becomes s s' F C -> chain (v_fs s) F L -> chain_of s' L.
Proof.
  intros B Hch. apply (chain_static (v_fs s)); [apply B|]. apply (chain_agree _ F); [|done].
  intros c Hc. apply B, (chain_in _ F L c Hch Hc).
Qed.

Lemma eoc_bad c : FAT32_EOC_MIN <= c -> bad_cluster c = true.
Proof. intros Hc. unfold bad_cluster. rewrite (proj2 (Z.leb_le _ _) Hc). apply orb_true_r. Qed.

(** ** Giving back a chain *)

Definition freed (F : Z -> Z) L : Z -> Z := fun x => if bool_decide (x ∈ L) then FAT32_FREE else F x.

(** All clusters of the chain become free, and nothing else changes. *)
Lemma free_chain_spec L : forall fuel c l s,
  vol_ok s -> L = c :: l -> chain_of s L -> (length L <= fuel)%nat ->
  exists s', fat32_free_chain fuel c s = Some (0, s') /\ becomes s s' (freed (fat_at s) L) (clu s) /\ v_heap s' = v_heap s.
Proof.
  induction L as [|x L IH]; intros fuel c l s Hok E Hch Hf; [done|]. injection E as -> ->. cbn [length] in Hf.
  destruct fuel as [|fuel]; [lia|]. cbn [fat32_free_chain]. pose proof (chain_head _ _ _ _ Hch) as Hc.
  rewrite (in_vol_good _ c (vo_geo _ Hok) Hc).
  destruct (next_cluster_spec s c Hok Hc) as (s1 & -> & B1 & E1 & _).
  destruct (set_fat_spec s1 c FAT32_FREE (b_ok _ _ _ _ B1)) as (s2 & -> & B2 & E2 & _); [apply (in_vol_static (v_fs s)); [apply B1|done]|done|].
  cbn [snd]. pose proof (becomes_put s s1 s2 _ _ c FAT32_FREE B1 B2) as B12.
  pose proof (set_counters_becomes s2 (next_free_hint (v_fs s2)) (u32 (free_clusters (v_fs s2) + 1)) (b_ok _ _ _ _ B2) (vo_hint _ (b_ok _ _ _ _ B2))) as B3.
  set (s3 := set_fs _ _) in B3. pose proof (becomes_same s s2 s3 _ _ B12 B3) as B13.
  change (set_fs _ s2) with s3. assert (v_heap s3 = v_heap s) as E3 by (cbn; congruence).
  pose proof (chain_NoDup _ (vol_bound s Hok) _ _ Hch) as [Hnc Hnd]%NoDup_cons. destruct Hch as [_ Hl].
  assert (forall x, freed (put (fat_at s) c FAT32_FREE) l x = freed (fat_at s) (c :: l) x) as Hfr.
  { intros x. unfold freed, put, upd. destruct (Z.eqb_spec x c) as [->|Hne].
    - rewrite (bool_decide_eq_true_2 (c ∈ c :: l)) by set_solver. by case_bool_decide.
    - by rewrite (bool_decide_ext (x ∈ c :: l) (x ∈ l)) by set_solver. }
  destruct l as [|c' l].
  - exists s3. split; [destruct fuel; cbn [fat32_free_chain]; by rewrite (eoc_bad _ Hl)|]. split; [|done].
    apply (becomes_ext s s3 (put (fat_at s) c FAT32_FREE) (clu s)); [|done|done]. intros x _. rewrite <- Hfr. unfold freed.
    by rewrite bool_decide_eq_false_2 by set_solver.
  - destruct Hl as [-> Hl]. destruct (IH fuel c' l s3 (b_ok _ _ _ _ B13) eq_refl) as (s4 & E4 & B4 & H4).
    { apply (chain_becomes s s3 _ _ _ B13). apply (chain_agree _ (fat_at s)); [|done]. intros x Hx. unfold put. apply upd_ne. set_solver. }
    { lia. }
    exists s4. split; [done|]. split; [|congruence].
    apply (becomes_ext s s4 (freed (put (fat_at s) c FAT32_FREE) (c' :: l)) (clu s)); [intros x _; apply Hfr|done|].
    apply (becomes_then s s3 s4 _ _ (fun F => freed F (c' :: l)) (fun C => C)); [|auto|done|done].
    intros F F' x HF Hx. unfold freed. case_bool_decide; [done|by apply HF].
Qed.

(** ** Steps of a file *)

(** The chain [L] has grown to [L']; only its clusters and clusters that were
    free may differ. *)
Record file_step s s' L L' : Prop := {
  fs_ok : vol_ok s';
  fs_static : static (v_fs s') = static (v_fs s);
  fs_cbuf : g_cluster_buf s' = g_cluster_buf s;
  fs_new : exists new, L' = L ++ new /\ forall x, x ∈ new -> in_vol (v_fs s) x /\ fat_at s x = FAT32_FREE;
  fs_chain : chain_of s' L';
  fs_frame x : in_vol (v_fs s) x -> x ∉ L' -> fat_at s' x = fat_at s x /\ clu s' x = clu s x
}.

Lemma file_step_trans s s1 s2 L L1 L2 : file_step s s1 L L1 -> file_step s1 s2 L1 L2 -> file_step s s2 L L2.
Proof.
  intros [O1 E1 C1 (n1 & -> & N1) Ch1 F1] [O2 E2 C2 (n2 & -> & N2) Ch2 F2].
  pose proof (fun x => in_vol_static (v_fs s) (v_fs s1) x E1) as Hin.
  split; [done|by rewrite E2|by rewrite C2| |done|].
  - exists (n1 ++ n2). split; [by rewrite app_assoc|]. intros x [Hx|Hx]%elem_of_app; [by apply N1|].
    destruct (N2 x Hx) as [Hv Hf]. apply Hin in Hv. split; [done|].
    assert (x ∉ L ++ n1) as Hnot. { intros Hi. by destruct (chain_in _ _ _ x Ch1 Hi). }
    destruct (F1 x Hv Hnot) as [<- _]. done.
  - intros x Hv Hx. destruct (F2 x (proj2 (Hin x) Hv) Hx) as [-> ->]. apply F1; [done|set_solver].
Qed.

Lemma becomes_file_step s s' F C L :
  becomes s s' F C -> chain (v_fs s) F L -> (forall x, in_vol (v_fs s) x -> x ∉ L -> F x = fat_at s x /\ C x = clu s x) ->
  file_step s s' L L.
Proof.
  intros B Hch Hfr. split; [apply B|apply B|apply B|exists []; split; [by rewrite app_nil_r|set_solver]| |].
  - by apply (chain_becomes s s' F C).
  - intros x Hx Hn. rewrite (b_fat _ _ _ _ B), (b_clu _ _ _ _ B) by done. by apply Hfr.
Qed.

(** The heap does not matter. *)
Lemma file_step_heap s s' h L L' : file_step (set_heap h s) s' L L' -> file_step s s' L L'.
Proof. intros [? ? ? ? ? Hf]. by split. Qed.

(** Nothing but buffers has changed. *)
Lemma quiet_file_step s s' L : becomes s s' (fat_at s) (clu s) -> chain_of s L -> file_step s s' L L.
Proof. intros B Hch. by apply (becomes_file_step s s' _ _ L B Hch). Qed.

Definition full s : Prop := forall x, in_vol (v_fs s) x -> fat_at s x <> FAT32_FREE.

Lemma full_becomes s s' C : becomes s s' (fat_at s) C -> full s -> full s'.
Proof.
  intros B Hf x Hx. apply (in_vol_static (v_fs s)) in Hx; [|apply B]. rewrite (b_fat _ _ _ _ B) by done. by apply Hf.
Qed.

(** A new cluster behind the last one. *)
Lemma link_file_step s s' p c d z :
  vol_ok s -> chain_of s (p ++ [c]) -> in_vol (v_fs s) d -> fat_at s d = FAT32_FREE ->
  becomes s s' (link (fat_at s) c d) (upd (clu s) d z) -> file_step s s' (p ++ [c]) (p ++ [c; d]).
Proof.
  intros Hok Hch Hd Hf B. pose proof (chain_link _ (vol_bound s Hok) _ _ _ _ Hch Hd Hf) as Hch'.
  split; [apply B|apply B|apply B| | |].
  - exists [d]. rewrite <- app_assoc. split; [done|]. by intros x ->%list_elem_of_singleton.
  - by apply (chain_becomes s s' _ _ _ B).
  - intros x Hx Hn. rewrite (b_fat _ _ _ _ B), (b_clu _ _ _ _ B) by done. split; [|apply upd_ne; set_solver].
    unfold link, put. case_if; rewrite !upd_ne by set_solver; done.
Qed.

(** The next cluster, or a new one at the end of the chain. *)
Lemma next_or_extend_spec s p c l :
  vol_ok s -> k_inv (v_heap s) -> chain_of s (p ++ c :: l) ->
  exists c' s' L', next_or_extend c s = Some (c', s') /\ hstep (v_heap s) (v_heap s') /\
    file_step s s' (p ++ c :: l) L' /\ (forall x, x ∈ p ++ c :: l -> clu s' x = clu s x) /\
    ((c' = 0 /\ full s') \/ (2 <= c' /\ exists l', L' = p ++ c :: c' :: l')).
Proof.
  intros Hok Hi Hch. destruct (chain_in _ _ _ c Hch) as [Hc _]; [set_solver|]. unfold next_or_extend.
  destruct (next_cluster_spec s c Hok Hc) as (s1 & -> & B1 & E1 & _). pose proof (b_ok _ _ _ _ B1) as Ok1.
  destruct l as [|c' l].
  - pose proof (chain_last _ _ _ _ Hch) as Hend. rewrite (eoc_bad _ Hend).
    pose proof (chain_becomes s s1 _ _ _ B1 Hch) as Hch1. pose proof (in_vol_static (v_fs s) (v_fs s1)) as Hin.
    destruct (alloc_cluster_spec s1 c Ok1) as (d & s2 & -> & Hh & Hd); [by rewrite E1|right; by apply Hin; [apply B1|]|].
    rewrite E1 in Hh. destruct Hd as [(-> & B2 & Hfull)|(Hd & Hf & z & _ & _ & B2)].
    + exists 0, s2, (p ++ [c]). split; [done|]. split; [done|]. pose proof (becomes_same s s1 s2 _ _ B1 B2) as B12.
      split; [by apply quiet_file_step|]. split; [|left; split; [done|by apply (full_becomes s1 s2 _ B2)]].
      intros x Hx. apply B12, (chain_in _ _ _ x Hch Hx).
    + exists d, s2, (p ++ [c; d]). split; [done|]. split; [done|]. pose proof (link_file_step s1 s2 p c d z Ok1 Hch1 Hd Hf B2) as F2.
      split; [by apply (file_step_trans s s1 s2 _ (p ++ [c])); [apply quiet_file_step|]|].
      split; [|right; split; [destruct Hd; lia|by exists []]].
      intros x Hx. destruct (chain_in _ _ _ x Hch1 Hx) as [Hv Hne]. rewrite (b_clu _ _ _ _ B2) by done.
      rewrite upd_ne by congruence. apply B1. by apply (in_vol_static (v_fs s)) in Hv; [|apply B1].
  - pose proof (chain_next _ _ _ _ _ _ Hch) as ->. destruct (chain_in _ _ _ c' Hch) as [Hc' _]; [set_solver|].
    rewrite (in_vol_good _ c' (vo_geo _ Hok) Hc'). exists c', s1, (p ++ c :: c' :: l). split; [done|]. split; [rewrite E1; by split|].
    split; [by apply quiet_file_step|]. split; [intros x Hx; apply B1, (chain_in _ _ _ x Hch Hx)|].
    right. split; [destruct Hc'; lia|by exists l].
Qed.

Lemma extend_chain_spec n : forall s p c l,
  vol_ok s -> k_inv (v_heap s) -> chain_of s (p ++ c :: l) ->
  exists r s' L', extend_chain n c s = Some (r, s') /\ hstep (v_heap s) (v_heap s') /\
    file_step s s' (p ++ c :: l) L' /\ (forall x, x ∈ p ++ c :: l -> clu s' x = clu s x) /\
    ((r = 0 /\ full s') \/ (2 <= r /\ exists p' l', L' = p' ++ r :: l' /\ length p' = (length p + n)%nat)).
Proof.
  induction n as [|n IH]; intros s p c l Hok Hi Hch; cbn [extend_chain].
  { destruct (chain_in _ _ _ c Hch) as [[? _] _]; [set_solver|]. exists c, s, (p ++ c :: l). split; [done|]. split; [by split|].
    split; [by apply quiet_file_step; [apply becomes_refl|]|]. split; [done|]. right. split; [done|]. exists p, l. split; [done|lia]. }
  destruct (next_or_extend_spec s p c l Hok Hi Hch) as (c' & s1 & L1 & -> & H1' & F1 & E1 & Hc'). cbn [mbind option_bind].
  destruct Hc' as [(-> & Hfull)|(Hc2 & l' & ->)].
  { exists 0, s1, L1. by split_and!; [..|left]. }
  rewrite (proj2 (Z.ltb_ge c' 2) Hc2).
  assert (p ++ c :: c' :: l' = (p ++ [c]) ++ c' :: l') as EL by by rewrite <- app_assoc. rewrite EL in F1.
  destruct (IH s1 (p ++ [c]) c' l' (fs_ok _ _ _ _ F1) (proj1 H1') (fs_chain _ _ _ _ F1)) as (r & s2 & L2 & -> & H2' & F2 & E2 & Hr).
  exists r, s2, L2. split; [done|]. split; [by apply (hstep_trans _ (v_heap s1))|]. split; [by apply (file_step_trans s s1 s2 _ _ _ F1)|].
  split.
  - intros x Hx. rewrite E2; [by apply E1|]. destruct (fs_new _ _ _ _ F1) as (new & -> & _). set_solver.
  - destruct Hr as [?|(? & p' & l2 & ? & Hl)]; [by left|right]. split; [done|]. exists p', l2. split; [done|].
    rewrite Hl, length_app. cbn. lia.
Qed.

(** ** The bytes of a file *)

Definition fbyte s L (i : nat) : option Z := c ← L !! (i / bpc s)%nat; clu s c !! (i mod bpc s)%nat.

Lemma bpc_static s s' : static (v_fs s') = static (v_fs s) -> bpc s' = bpc s.
Proof. intros (_ & _ & _ & E & _)%static_fields. unfold bpc. by rewrite E. Qed.

Lemma bpc_pos s : vol_ok s -> (0 < bpc s)%nat.
Proof. intros Hok. destruct (bpc_spc s (vo_geo _ Hok)). lia. Qed.

(** The contents of the clusters determine the bytes. *)
Lemma fbyte_same s s' L new i :
  static (v_fs s') = static (v_fs s) -> (0 < bpc s)%nat -> (forall x, x ∈ L -> clu s' x = clu s x) -> (i < length L * bpc s)%nat ->
  fbyte s' (L ++ new) i = fbyte s L i.
Proof.
  intros E Hb HC Hi. unfold fbyte. rewrite (bpc_static s s' E).
  assert (i / bpc s < length L)%nat as Hd by (apply Nat.Div0.div_lt_upper_bound; lia).
  rewrite lookup_app_l by done. destruct (lookup_lt_is_Some_2 L _ Hd) as [c Hc]. rewrite Hc. cbn.
  by rewrite HC by by apply list_elem_of_lookup_2 in Hc.
Qed.

(** One cluster of the file has been rewritten. *)
Lemma fbyte_upd s s' p c l w i :
  vol_ok s -> chain_of s (p ++ c :: l) -> becomes s s' (fat_at s) (upd (clu s) c w) ->
  fbyte s' (p ++ c :: l) i =
    if decide (i / bpc s = length p)%nat then w !! (i mod bpc s)%nat else fbyte s (p ++ c :: l) i.
Proof.
  intros Hok Hch B. unfold fbyte. rewrite (bpc_static s s' (b_static _ _ _ _ B)).
  pose proof (chain_NoDup _ (vol_bound s Hok) _ _ Hch) as Hnd. case_decide as Hd.
  - rewrite Hd, list_lookup_middle by done. cbn. destruct (chain_in _ _ _ c Hch) as [Hv _]; [set_solver|].
    by rewrite (b_clu _ _ _ _ B), upd_eq by done.
  - destruct ((p ++ c :: l) !! (i / bpc s)%nat) as [x|] eqn:Ex; [|done]. cbn.
    destruct (chain_in _ _ _ x Hch) as [Hv _]; [by apply list_elem_of_lookup_2 in Ex|].
    rewrite (b_clu _ _ _ _ B), upd_ne; [done| |done]. intros ->. apply Hd.
    apply (NoDup_lookup (p ++ c :: l) _ _ c Hnd Ex). by apply list_lookup_middle.
Qed.

(** The read, the copy and the write of one round. *)
Lemma write_round s p c l off (data cbuf : list Z) :
  vol_ok s -> chain_of s (p ++ c :: l) -> length cbuf = bpc s -> byte_list cbuf -> byte_list data ->
  (off + length data <= bpc s)%nat ->
  exists s1 s2 cb,
    (if negb (Z.of_nat off =? 0) || (Z.of_nat (length data) <? bytes_per_cluster (v_fs s))
     then fat32_read_cluster c cbuf s else Some (0, cbuf, s)) = Some (0, cb, s1) /\
    fat32_write_cluster c (write_at cb off data) s1 = Some (0, s2) /\
    length (write_at cb off data) = bpc s /\ byte_list (write_at cb off data) /\
    v_heap s2 = v_heap s /\ file_step s s2 (p ++ c :: l) (p ++ c :: l) /\
    forall i, fbyte s2 (p ++ c :: l) i =
      if decide (length p * bpc s + off <= i < length p * bpc s + off + length data)%nat
      then data !! (i - (length p * bpc s + off))%nat else fbyte s (p ++ c :: l) i.
Proof.
  intros Hok Hch Hlc Hbc Hbd Hfit. destruct (chain_in _ _ _ c Hch) as [Hc _]; [set_solver|]. destruct (clu_len s c Hok Hc) as [Hcl Hcb].
  pose proof (bpc_pos s Hok) as Hpos. pose proof (cluster_bytes _ (vo_geo _ Hok)) as [Hb0 _].
  assert (exists s1 cb, (if negb (Z.of_nat off =? 0) || (Z.of_nat (length data) <? bytes_per_cluster (v_fs s))
     then fat32_read_cluster c cbuf s else Some (0, cbuf, s)) = Some (0, cb, s1) /\
     becomes s s1 (fat_at s) (clu s) /\ v_heap s1 = v_heap s /\ length cb = bpc s /\ byte_list cb /\
     (cb = clu s c \/ (off = 0 /\ length data = bpc s)%nat)) as (s1 & cb & E1 & B1 & H1' & Hl1 & Hb1 & Hcase).
  { destruct (negb (Z.of_nat off =? 0) || (Z.of_nat (length data) <? bytes_per_cluster (v_fs s))) eqn:Hcond.
    - destruct (read_cluster_spec s c cbuf Hok Hc Hlc) as (s1 & -> & B1 & ? & _). exists s1, (clu s c). split_and!; auto.
    - exists s, cbuf. apply orb_false_iff in Hcond as [Ho Hd]. apply negb_false_iff, Z.eqb_eq in Ho. apply Z.ltb_ge in Hd.
      split_and!; auto; [by apply becomes_refl|]. right. unfold bpc in *. lia. }
  set (w := write_at cb off data). assert (length w = bpc s) as Hw by (unfold w; rewrite length_write_at; lia).
  assert (byte_list w) as Hwb by by apply write_at_bytes.
  assert (in_vol (v_fs s1) c) as Hc1 by (apply (in_vol_static (v_fs s)); [apply B1|done]).
  destruct (write_cluster_spec s1 c w (b_ok _ _ _ _ B1) Hc1) as (s2 & E2 & B2 & H2' & _); [by rewrite (bpc_static s s1 (b_static _ _ _ _ B1))|done|].
  pose proof (becomes_upd s s1 s2 _ _ c w B1 B2) as B12.
  exists s1, s2, cb. split; [done|]. split; [done|]. split; [done|]. split; [done|]. split; [congruence|]. split.
  { apply (becomes_file_step s s2 _ _ _ B12 Hch). intros x _ Hx. split; [done|]. apply upd_ne. set_solver. }
  intros i. rewrite (fbyte_upd s s2 p c l w i Hok Hch B12).
  pose proof (Nat.div_mod i (bpc s) ltac:(lia)) as Hdm. pose proof (Nat.mod_upper_bound i (bpc s) ltac:(lia)) as Hmu.
  destruct (decide (i / bpc s = length p)%nat) as [Ed|Hd].
  - rewrite Ed in Hdm. unfold w. rewrite lookup_write_at by lia.
    destruct (decide (off <= i mod bpc s < off + length data)%nat), (decide (length p * bpc s + off <= i < length p * bpc s + off + length data)%nat); try lia.
    + f_equal. lia.
    + destruct Hcase as [->|?]; [|lia]. unfold fbyte. by rewrite Ed, list_lookup_middle.
  - rewrite decide_False; [done|]. intros [Hge Hlt]. apply Hd. symmetry. apply (Nat.div_unique i (bpc s) (length p) (i - length p * bpc s)); lia.
Qed.

(** ** The loop of a write *)

(** From [pos] on the file has [n - dn] bytes of [buf], from [dn] on; what it
    had elsewhere is kept. *)
Record written s s' L L' (pos dn n : nat) (buf : list Z) : Prop := {
  w_new i : (pos <= i < pos + (n - dn))%nat -> fbyte s' L' i = buf !! (dn + (i - pos))%nat;
  w_old i : (i < length L * bpc s)%nat -> ~ (pos <= i < pos + (n - dn))%nat -> fbyte s' L' i = fbyte s L i
}.

Lemma written_nothing s L pos dn buf : written s s L L pos dn dn buf.
Proof. split; [lia|done]. Qed.

Lemma written_trans s s1 s2 L L1 L2 pos dn m n buf :
  bpc s1 = bpc s -> (length L <= length L1)%nat -> (dn <= m <= n)%nat -> (pos + (m - dn) <= length L1 * bpc s)%nat ->
  written s s1 L L1 pos dn m buf -> written s1 s2 L1 L2 (pos + (m - dn)) m n buf -> written s s2 L L2 pos dn n buf.
Proof.
  intros Eb Hlen Hm Hp [Wn Wo] [Wn2 Wo2]. rewrite Eb in Wo2. split; intros i Hi1; [|intros Hi2].
  - destruct (decide (i < pos + (m - dn))%nat).
    + rewrite Wo2 by lia. apply Wn. lia.
    + rewrite Wn2 by lia. f_equal. lia.
  - rewrite Wo2 by nia. apply Wo; lia.
Qed.

(** The chain grows behind the bytes. *)
Lemma written_grow s s1 s2 L L1 L2 pos dn n buf :
  vol_ok s1 -> bpc s1 = bpc s -> (length L <= length L1)%nat -> (dn <= n)%nat -> (pos + (n - dn) <= length L1 * bpc s)%nat ->
  file_step s1 s2 L1 L2 -> (forall x, x ∈ L1 -> clu s2 x = clu s1 x) ->
  written s s1 L L1 pos dn n buf -> written s s2 L L2 pos dn n buf.
Proof.
  intros Hok Eb Hlen Hdn Hp F Ec W. apply (written_trans s s1 s2 L L1 L2 pos dn n n buf Eb Hlen); [lia|done|done|].
  destruct (fs_new _ _ _ _ F) as (new & -> & _). split; [lia|]. intros i Hi _. apply fbyte_same; [apply F|by apply bpc_pos|done|done].
Qed.

Lemma write_loop_spec buf fuel : forall s p c l off dn cbuf,
  byte_list buf -> vol_ok s -> k_inv (v_heap s) -> chain_of s (p ++ c :: l) -> length cbuf = bpc s -> byte_list cbuf ->
  (off < bpc s)%nat -> (dn <= length buf)%nat -> (off + (length buf - dn) <= fuel * bpc s)%nat ->
  exists n s' L', write_loop fuel c (Z.of_nat off) (Z.of_nat dn) buf cbuf s = Some (inr (Z.of_nat n), s') /\
    hstep (v_heap s) (v_heap s') /\ file_step s s' (p ++ c :: l) L' /\ (dn <= n <= length buf)%nat /\
    ((n < length buf)%nat -> full s') /\ written s s' (p ++ c :: l) L' (length p * bpc s + off) dn n buf.
Proof.
  intros s p c l off dn cbuf Hbb. revert s p c l off dn cbuf.
  induction fuel as [|fuel IH]; intros s p c l off dn cbuf Hok Hi Hch Hlc Hbc Hoff Hdn Hfuel; cbn [write_loop];
    pose proof (cluster_bytes _ (vo_geo _ Hok)) as [Hb0 Hbmax]; unfold K_MAX in Hbmax.
  { assert (dn = length buf) as -> by lia. rewrite (proj2 (Z.ltb_ge _ _)) by lia. cbn [negb]. exists (length buf), s, (p ++ c :: l).
    split; [done|]. split; [by split|]. split; [by apply quiet_file_step; [apply becomes_refl|]|]. split; [lia|]. split; [lia|]. apply written_nothing. }
  destruct (Z.ltb_spec (Z.of_nat dn) (Z.of_nat (length buf))) as [Hlt|Hge]; cbn [negb].
  2: { exists dn, s, (p ++ c :: l). split; [done|]. split; [by split|]. split; [by apply quiet_file_step; [apply becomes_refl|]|].
       split; [lia|]. split; [lia|]. apply written_nothing. }
  set (copy := Nat.min (bpc s - off) (length buf - dn)).
  assert (Z.min (u64 (bytes_per_cluster (v_fs s) - Z.of_nat off)) (Z.of_nat (length buf) - Z.of_nat dn) = Z.of_nat copy) as Ec
    by (unfold bpc in *; rewrite u64_small by lia; lia).
  rewrite Ec. set (data := take copy (drop dn buf)). assert (length data = copy) as Hld by (unfold data; rewrite length_take, length_drop; lia).
  assert (byte_list data) as Hbd by by apply Forall_take, Forall_drop.
  destruct (write_round s p c l off data cbuf Hok Hch Hlc Hbc Hbd ltac:(lia)) as (s1 & s2 & cb & E1 & E2 & Hl2 & Hb2 & Hh2 & F2 & Hby).
  rewrite Hld in E1. rewrite E1. cbn [mbind option_bind Z.eqb negb]. rewrite !Nat2Z.id. fold data. rewrite E2. cbn [mbind option_bind Z.eqb negb].
  pose proof (bpc_static s s2 (fs_static _ _ _ _ F2)) as Eb. pose proof (bpc_pos s Hok) as Hpos.
  replace (Z.of_nat dn + Z.of_nat copy) with (Z.of_nat (dn + copy)) by lia.
  assert (written s s2 (p ++ c :: l) (p ++ c :: l) (length p * bpc s + off) dn (dn + copy) buf) as W2.
  { split; intros i Hi1; [|intros Hi2]; rewrite Hby, Hld.
    - rewrite decide_True by lia. unfold data. rewrite lookup_take_lt, lookup_drop by lia. done.
    - by rewrite decide_False by lia. }
  destruct (Z.ltb_spec (Z.of_nat (dn + copy)) (Z.of_nat (length buf))) as [Hmore|Hdone].
  2: { exists (dn + copy)%nat, s2, (p ++ c :: l). split; [done|]. split; [rewrite Hh2; by split|]. split; [done|]. split; [lia|]. split; [lia|done]. }
  destruct (next_or_extend_spec s2 p c l (fs_ok _ _ _ _ F2)) as (c' & s3 & L3 & -> & Hh3 & F3 & Ecl & Hc'); [by rewrite Hh2|apply F2|].
  cbn [mbind option_bind]. rewrite Hh2 in Hh3. pose proof (file_step_trans s s2 s3 _ _ _ F2 F3) as F23.
  destruct (fs_new _ _ _ _ F3) as (new & EL3 & _).
  assert (length (p ++ c :: l) = length p + S (length l))%nat as Hlp by (rewrite length_app; done).
  assert (written s s3 (p ++ c :: l) L3 (length p * bpc s + off) dn (dn + copy) buf) as W3
    by (apply (written_grow s s2 s3 _ (p ++ c :: l)); try done; [apply F2|lia|nia]).
  destruct Hc' as [(-> & Hfull)|(Hc2 & l' & ->)].
  { exists (dn + copy)%nat, s3, L3. split; [done|]. split; [done|]. split; [done|]. split; [lia|]. split; [done|done]. }
  rewrite (proj2 (Z.ltb_ge c' 2) Hc2).
  assert (p ++ c :: c' :: l' = (p ++ [c]) ++ c' :: l') as EL by by rewrite <- app_assoc. rewrite EL in *.
  pose proof (bpc_static s s3 (fs_static _ _ _ _ F23)) as Eb3.
  destruct (IH s3 (p ++ [c]) c' l' 0%nat (dn + copy)%nat (write_at cb off data) (fs_ok _ _ _ _ F23) (proj1 Hh3) (fs_chain _ _ _ _ F23))
    as (n & s4 & L4 & E4 & Hh4 & F4 & Hn & Hfull & W4); [by rewrite Eb3|done|by rewrite Eb3|lia|rewrite Eb3; unfold copy in *; nia|].
  change (Z.of_nat 0) with 0 in E4. exists n, s4, L4. split; [done|]. split; [by apply (hstep_trans _ (v_heap s3))|].
  split; [by apply (file_step_trans s s3 s4 _ _ _ F23)|]. split; [lia|]. split; [done|].
  apply (written_trans s s3 s4 _ ((p ++ [c]) ++ c' :: l') L4 _ dn (dn + copy) n); [done|rewrite EL3, (length_app (p ++ c :: l)); lia|lia| |done|].
  - rewrite EL3, (length_app (p ++ c :: l)). unfold copy in *. nia.
  - replace (length p * bpc s + off + (dn + copy - dn))%nat with (length (p ++ [c]) * bpc s3 + 0)%nat; [done|].
    rewrite Eb3, length_app. cbn [length]. unfold copy in *. lia.
Qed.

(** ** Before and after the loop *)

(** The clusters of the file of a node; a new file has none. *)
Definition file_chain s (n : vfs_node) L : Prop :=
  0 <= vn_inode n < 2 ^ 32 /\
  match L with [] => vn_inode n < 2 | c :: _ => vn_inode n = c /\ chain_of s L end.

(** The first cluster, which a new file gets from the allocator. *)
Lemma first_cluster_spec s n L :
  vol_ok s -> k_inv (v_heap s) -> file_chain s n L ->
  exists c s' L', (if u32 (vn_inode n) <? 2 then fat32_alloc_cluster 0 s else Some (u32 (vn_inode n), s)) = Some (c, s') /\
    hstep (v_heap s) (v_heap s') /\
    ((c = 0 /\ L = [] /\ vol_ok s' /\ full s') \/
     (2 <= c /\ file_step s s' L L' /\ (forall x, x ∈ L -> clu s' x = clu s x) /\ (exists l, L' = c :: l) /\
      c = (if u32 (vn_inode n) <? 2 then c else vn_inode n))).
Proof.
  intros Hok Hi [Hr HL]. rewrite (u32_small (vn_inode n)) by lia. destruct L as [|c l].
  - rewrite (proj2 (Z.ltb_lt _ _) HL). destruct (alloc_cluster_spec s 0 Hok Hi ltac:(by left)) as (c & s' & -> & Hh & Hc).
    exists c, s', [c]. split; [done|]. split; [done|]. destruct Hc as [(-> & B & Hf)|(Hc & Hf & z & _ & _ & B)].
    + left. split_and!; [done|done|apply B|by apply (full_becomes s s' _ B)].
    + right. split; [destruct Hc; lia|]. split; [|split; [set_solver|split; [by exists []|done]]].
      split; [apply B|apply B|apply B|exists [c]; split; [done|by intros x ->%list_elem_of_singleton]| |].
      * apply (chain_becomes s s' _ _ _ B). split; [done|]. unfold link, put. cbn. rewrite upd_eq. unfold FAT32_EOC_MIN, FAT32_EOC. lia.
      * intros x Hx Hn. rewrite (b_fat _ _ _ _ B), (b_clu _ _ _ _ B) by done. unfold link, put. cbn. rewrite !upd_ne by set_solver. done.
  - destruct HL as [E Hch]. destruct (chain_head _ _ _ _ Hch) as [? _]. rewrite (proj2 (Z.ltb_ge (vn_inode n) 2)) by lia.
    exists (vn_inode n), s, (c :: l). split; [done|]. split; [by split|]. right. split; [lia|].
    split; [by apply quiet_file_step; [apply becomes_refl|]|]. split; [done|]. split; [by exists l; rewrite E|done].
Qed.

Lemma walk_chain_spec n : forall s p c l,
  vol_ok s -> chain_of s (p ++ c :: l) -> (n <= length l)%nat ->
  exists d s', walk_chain n bad_cluster c s = (Some d, s') /\ (p ++ c :: l) !! (length p + n)%nat = Some d /\
    becomes s s' (fat_at s) (clu s) /\ v_heap s' = v_heap s.
Proof.
  induction n as [|n IH]; intros s p c l Hok Hch Hn; cbn [walk_chain].
  { exists c, s. rewrite Nat.add_0_r, list_lookup_middle by done. split_and!; try done. }
  destruct l as [|c' l]; [cbn in Hn; lia|]. destruct (chain_in _ _ _ c Hch) as [Hc _]; [set_solver|].
  destruct (chain_in _ _ _ c' Hch) as [Hc' _]; [set_solver|].
  destruct (next_cluster_spec s c Hok Hc) as (s1 & -> & B1 & E1 & _). rewrite (chain_next _ _ _ _ _ _ Hch), (in_vol_good _ c' (vo_geo _ Hok) Hc').
  assert (p ++ c :: c' :: l = (p ++ [c]) ++ c' :: l) as EL by by rewrite <- app_assoc. rewrite EL in *.
  destruct (IH s1 (p ++ [c]) c' l (b_ok _ _ _ _ B1) (chain_becomes s s1 _ _ _ B1 Hch) ltac:(cbn in Hn; lia)) as (d & s2 & -> & El & B2 & E2).
  exists d, s2. split; [done|]. split; [|split; [by apply (becomes_same s s1 s2)|congruence]].
  rewrite <- El. f_equal. rewrite length_app. cbn. lia.
Qed.

(** The directory of a node and the cluster of its entry. *)
Record entry_at s (node : fat_node) DL (dc : Z) : Prop := {
  ea_dir : exists dl, DL = fn_dir node :: dl;
  ea_chain : chain_of s DL;
  ea_idx : 0 <= fn_idx node < 0xFFFFFFFF;
  ea_cluster : DL !! Z.to_nat (fn_idx node / entries_per_cluster (v_fs s)) = Some dc
}.

(** The entry with the size and the first cluster of the node. *)
Definition saved s (node : fat_node) (old : list Z) : list Z :=
  let off := fn_idx node mod entries_per_cluster (v_fs s) in
  write_at old (Z.to_nat (off * 32))
    (set_d_cluster (vn_inode (fn_node node)) (set_d_size (vn_size (fn_node node)) (dirent_at old off))).

Lemma length_set_d_cluster c de : length de = 32%nat -> length (set_d_cluster c de) = 32%nat.
Proof.
  intros Hl. unfold set_d_cluster. rewrite !length_write_at; rewrite ?length_le_bytes; rewrite ?length_write_at; rewrite ?length_le_bytes; lia.
Qed.

Lemma epc_spec s : vol_ok s -> 0 < entries_per_cluster (v_fs s) /\ Z.to_nat (entries_per_cluster (v_fs s) * 32) = bpc s.
Proof.
  intros Hok. destruct (g_spc _ (vo_geo _ Hok)) as [? E]. unfold entries_per_cluster, bpc. rewrite E.
  replace (sectors_per_cluster (v_fs s) * 512) with (sectors_per_cluster (v_fs s) * 16 * 32) by lia. rewrite Z.div_mul by lia. lia.
Qed.

Lemma saved_len s node old :
  vol_ok s -> length old = bpc s -> byte_list old -> length (saved s node old) = bpc s /\ byte_list (saved s node old).
Proof.
  intros Hok Hl Hb. destruct (epc_spec s Hok) as [He Hm]. pose proof (Z.mod_pos_bound (fn_idx node) _ He) as Ho.
  unfold saved. set (off := fn_idx node mod _) in *.
  assert (length (dirent_at old off) = 32%nat) as Hd by (unfold dirent_at; rewrite length_take, length_drop; lia).
  assert (length (set_d_size (vn_size (fn_node node)) (dirent_at old off)) = 32%nat) as Hs
    by (unfold set_d_size; rewrite length_write_at; rewrite ?length_le_bytes; lia).
  split; [rewrite length_write_at; rewrite ?(length_set_d_cluster _ _ Hs); lia|].
  apply write_at_bytes; [done|]. unfold set_d_cluster, set_d_size. repeat (apply write_at_bytes; [|apply le_bytes_bytes]).
  by apply Forall_take, Forall_drop.
Qed.

(** The entry is written back, unless there is no memory for a buffer. *)
Lemma write_back_spec s node DL dc :
  vol_ok s -> k_inv (v_heap s) -> entry_at s node DL dc ->
  exists s' C, write_back node s = Some s' /\ hstep (v_heap s) (v_heap s') /\ becomes s s' (fat_at s) C /\
    in_vol (v_fs s) dc /\ (forall x, x <> dc -> C x = clu s x) /\ (C dc = clu s dc \/ C dc = saved s node (clu s dc)).
Proof.
  intros Hok Hi [[dl ->] Hch Hidx Hdc]. destruct (chain_head _ _ _ _ Hch) as [Hd2 _]. destruct (epc_spec s Hok) as [He _].
  destruct (chain_in _ _ _ dc Hch) as [Hv _]; [by apply list_elem_of_lookup_2 in Hdc|]. unfold write_back.
  rewrite (proj2 (Z.eqb_neq (fn_dir node) 0)), (proj2 (Z.eqb_neq (fn_idx node) _)) by lia. cbn [negb andb].
  pose proof (lookup_lt_Some _ _ _ Hdc) as Hlt. cbn [length] in Hlt.
  destruct (walk_chain_spec (Z.to_nat (fn_idx node / entries_per_cluster (v_fs s))) s [] (fn_dir node) dl Hok Hch ltac:(lia))
    as (d & s1 & -> & El & B1 & E1). cbn [app length Nat.add] in El. rewrite Hdc in El. injection El as <-.
  rewrite (proj2 (Z.leb_le 2 dc)) by (destruct Hv; lia). pose proof (b_ok _ _ _ _ B1) as Ok1.
  destruct (malloc_vol s1 (bytes_per_cluster (v_fs s))) as (q & h & -> & Hh & Hq); [by rewrite E1|by apply cluster_bytes, Hok|].
  cbn [mbind option_bind]. rewrite E1 in Hh, Hq. pose proof (becomes_same s s1 _ _ _ B1 (set_heap_becomes s1 h Ok1)) as B2. set (s2 := set_heap h s1) in *.
  destruct (Z.eqb_spec q 0) as [->|Hne].
  { exists s2, (clu s). split; [done|]. split; [apply Hh|]. split; [done|]. split; [done|]. split; [done|by left]. }
  destruct (Hq Hne) as [Hlive Hfresh]. assert (in_vol (v_fs s2) dc) as Hv2 by (apply (in_vol_static (v_fs s)); [apply B2|done]).
  pose proof (bpc_static s s2 (b_static _ _ _ _ B2)) as Eb. destruct (clu_len s dc Hok Hv) as [Hcl Hcb].
  destruct (read_cluster_spec s2 dc (replicate (Z.to_nat (bytes_per_cluster (v_fs s))) 0) (b_ok _ _ _ _ B2) Hv2) as (s3 & -> & B3 & H3 & _);
    [rewrite length_replicate; done|]. cbn [mbind option_bind Z.eqb]. rewrite (b_clu _ _ _ _ B2) by done. fold (saved s node (clu s dc)).
  pose proof (becomes_same s s2 s3 _ _ B2 B3) as B23. destruct (saved_len s node (clu s dc) Hok Hcl Hcb) as [Hsl Hsb].
  destruct (write_cluster_spec s3 dc (saved s node (clu s dc)) (b_ok _ _ _ _ B3)) as (s4 & -> & B4 & H4 & _);
    [apply (in_vol_static (v_fs s)); [apply B23|done]|by rewrite (bpc_static s s3 (b_static _ _ _ _ B23))|done|]. cbn [mbind option_bind].
  pose proof (becomes_upd s s3 s4 _ _ dc _ B23 B4) as B24. assert (v_heap s4 = h) as E4 by (rewrite H4, H3; done).
  destruct (free_vol s4 q (v_heap s)) as (h5 & -> & Hh5); [rewrite E4; apply Hh|by rewrite E4|done|done|rewrite E4; apply Hh|].
  exists (set_heap h5 s4), (upd (clu s) dc (saved s node (clu s dc))). split; [done|]. split; [done|].
  split; [apply (becomes_same s s4 _ _ _ B24), set_heap_becomes, B4|]. split; [done|]. split; [intros x Hx; by apply upd_ne|right; apply upd_eq].
Qed.

(** ** Writing *)

(** What a write that returns [n] leaves behind. *)
Record write_done s s' (node node' : fat_node) L L' dc (off n : nat) (buf : list Z) : Prop := {
  wd_static : static (v_fs s') = static (v_fs s);
  wd_count : (n <= length buf)%nat;
  wd_short : (n < length buf)%nat -> full s';
  wd_chain : file_chain s' (fn_node node') L';
  wd_prefix : L `prefix_of` L';
  wd_size : vn_size (fn_node node') = Z.max (vn_size (fn_node node)) (Z.of_nat (off + length buf));
  wd_flags : vn_flags (fn_node node') = vn_flags (fn_node node);
  wd_bytes : written s s' L L' off 0 n buf;
  wd_frame x : in_vol (v_fs s) x -> x ∉ L' -> x <> dc -> fat_at s' x = fat_at s x /\ clu s' x = clu s x;
  wd_entry : clu s' dc = clu s dc \/ clu s' dc = saved s node' (clu s dc);
  wd_synced : sector_buf_dirty (v_fs s') = false
}.

Lemma becomes_flush s : vol_ok s -> becomes s (flush_sector s) (fat_at s) (clu s) /\
  v_heap (flush_sector s) = v_heap s /\ sector_buf_dirty (v_fs (flush_sector s)) = false.
Proof. intros Hok. destruct (flush_sector_spec s Hok) as (Hok' & S & Ed & _). split; [by apply same_becomes|]. split; [apply S|done]. Qed.

(** A chain apart from the file is not affected by its steps. *)
Lemma file_step_other s s' L L' DL :
  file_step s s' L L' -> chain_of s DL -> (forall x, x ∈ DL -> x ∉ L) ->
  chain_of s' DL /\ forall x, x ∈ DL -> (x ∉ L') /\ clu s' x = clu s x.
Proof.
  intros F Hch Hdis. assert (forall x, x ∈ DL -> x ∉ L') as Hn.
  { intros x Hx. destruct (fs_new _ _ _ _ F) as (new & -> & Hnew). intros [?|Hx']%elem_of_app; [by apply (Hdis x)|].
    destruct (Hnew x Hx') as [_ Hf]. by destruct (chain_in _ _ _ x Hch Hx). }
  split.
  - apply (chain_static (v_fs s)); [apply F|]. apply (chain_agree _ (fat_at s)); [|done]. intros x Hx.
    apply F; [by apply (chain_in _ _ _ x Hch)|by apply Hn].
  - intros x Hx. split; [by apply Hn|]. apply F; [by apply (chain_in _ _ _ x Hch)|by apply Hn].
Qed.

(** The end of the call: the entry is written back, the table flushed. *)
Lemma write_tail s s4 node node' L L' DL dc off n buf :
  vol_ok s -> k_inv (v_heap s4) -> file_step s s4 L L' -> file_chain s4 (fn_node node') L' ->
  fn_dir node' = fn_dir node -> fn_idx node' = fn_idx node ->
  entry_at s node DL dc -> (forall x, x ∈ DL -> x ∉ L) ->
  (n <= length buf)%nat -> ((n < length buf)%nat -> full s4) -> written s s4 L L' off 0 n buf ->
  vn_size (fn_node node') = Z.max (vn_size (fn_node node)) (Z.of_nat (off + length buf)) ->
  vn_flags (fn_node node') = vn_flags (fn_node node) ->
  exists s5, write_back node' s4 = Some s5 /\ vol_ok s5 /\ valid (v_fs s5) = true /\
    vol_ok (flush_sector s5) /\ hstep (v_heap s4) (v_heap (flush_sector s5)) /\
    write_done s (flush_sector s5) node node' L L' dc off n buf.
Proof.
  intros Hok Hi F Hfc Ed Ei [Edir Ech Eidx Ecl] Hdis Hn Hfull W Hsz Hflg.
  destruct (file_step_other s s4 L L' DL F Ech Hdis) as [Hch4 Hdl].
  assert (entries_per_cluster (v_fs s4) = entries_per_cluster (v_fs s)) as Ee
    by (unfold entries_per_cluster; by destruct (static_fields _ _ (fs_static _ _ _ _ F)) as (_ & _ & _ & -> & _)).
  assert (dc ∈ DL) as Hdc by by apply list_elem_of_lookup_2 in Ecl. destruct (Hdl dc Hdc) as [HdcL Hdcc].
  destruct (write_back_spec s4 node' DL dc (fs_ok _ _ _ _ F) Hi) as (s5 & C & -> & Hh & B5 & Hv & HC & Hdcs).
  { split; [by rewrite Ed|done|by rewrite Ei|by rewrite Ei, Ee]. }
  pose proof (b_ok _ _ _ _ B5) as Ok5. destruct (becomes_flush s5 Ok5) as (B6 & E6 & Hdirty). set (s6 := flush_sector s5) in *.
  pose proof (becomes_same s4 s5 s6 _ _ B5 B6) as B46.
  pose proof (fun x => in_vol_static (v_fs s) (v_fs s4) x (fs_static _ _ _ _ F)) as Hin.
  exists s5. split; [done|]. split; [done|]. split; [apply (g_valid _ (vo_geo _ Ok5))|]. fold s6. split; [apply B6|]. split; [by rewrite E6|].
  destruct Hfc as [Hr HL']. assert (L' <> []) as Hne by (intros ->; by destruct (fs_chain _ _ _ _ F)).
  assert (forall x, x ∈ L' -> clu s6 x = clu s4 x) as Hcl.
  { intros x Hx. destruct (chain_in _ _ _ x (fs_chain _ _ _ _ F) Hx) as [Hvx _]. rewrite (b_clu _ _ _ _ B46) by done.
    apply HC. by intros ->. }
  split; try done.
  - rewrite (b_static _ _ _ _ B46). apply F.
  - intros Hlt. by apply (full_becomes s4 s6 C); [|apply Hfull].
  - split; [done|]. destruct L' as [|c' l']; [done|]. destruct HL' as [? Hch']. split; [done|]. by apply (chain_becomes s4 s6 _ _ _ B46).
  - destruct (fs_new _ _ _ _ F) as (new & -> & _). by eexists.
  - destruct W as [Wn Wo]. assert (forall i, fbyte s6 L' i = fbyte s4 L' i) as Hfb.
    { intros i. unfold fbyte. rewrite (bpc_static s4 s6 (b_static _ _ _ _ B46)). destruct (L' !! _) as [x|] eqn:Ex; [|done]. cbn.
      by rewrite Hcl by by apply list_elem_of_lookup_2 in Ex. }
    split; intros i Hi1; [|intros Hi2]; rewrite Hfb; [by apply Wn|by apply Wo].
  - intros x Hx HxL Hxd. rewrite (b_fat _ _ _ _ B46), (b_clu _ _ _ _ B46) by by apply Hin. rewrite HC by done. by apply F.
  - rewrite (b_clu _ _ _ _ B46) by done. rewrite <- Hdcc. destruct Hdcs as [E' | E']; rewrite E'; [by left|right]. unfold saved. by rewrite Ee.
Qed.

(** The cluster and the place in it of an offset. *)
Lemma offset_split s off :
  vol_ok s -> Z.of_nat off < 2 ^ 32 ->
  u32 (u64 (Z.of_nat off) / bytes_per_cluster (v_fs s)) = Z.of_nat (off / bpc s) /\
  u32 (u64 (Z.of_nat off) mod bytes_per_cluster (v_fs s)) = Z.of_nat (off mod bpc s).
Proof.
  intros Hok Ho. pose proof (cluster_bytes _ (vo_geo _ Hok)) as [Hb _]. rewrite u64_small by lia.
  replace (bytes_per_cluster (v_fs s)) with (Z.of_nat (bpc s)) in * by (unfold bpc; lia).
  pose proof (Nat.Div0.div_le_mono off off (bpc s) ltac:(lia)). pose proof (Nat.Div0.div_le_upper_bound off (bpc s) off ltac:(nia)).
  pose proof (Nat.mod_upper_bound off (bpc s) ltac:(lia)). pose proof (Nat.Div0.mod_le off (bpc s)).
  rewrite <- Nat2Z.inj_div, <- Nat2Z.inj_mod, !u32_small by lia. done.
Qed.

(** The walk to the offset and the loop, from the first cluster on. *)
Lemma write_chain s c l off (buf : list Z) :
  vol_ok s -> k_inv (v_heap s) -> chain_of s (c :: l) -> byte_list buf ->
  exists r s1 L1, extend_chain (off / bpc s) c s = Some (r, s1) /\ hstep (v_heap s) (v_heap s1) /\
    ((r = 0 /\ vol_ok s1 /\ full s1) \/
     (2 <= r /\ static (v_fs s1) = static (v_fs s) /\
      exists n s2 L2, write_loop (copy_fuel (v_fs s) (Z.of_nat (length buf))) r (Z.of_nat (off mod bpc s)) 0 buf
                        (replicate (bpc s) 0) s1 = Some (inr (Z.of_nat n), s2) /\
        hstep (v_heap s) (v_heap s2) /\ file_step s s2 (c :: l) L2 /\ (n <= length buf)%nat /\
        ((n < length buf)%nat -> full s2) /\ written s s2 (c :: l) L2 off 0 n buf)).
Proof.
  intros Hok Hi Hch Hbb. pose proof (bpc_pos s Hok) as Hpos.
  destruct (extend_chain_spec (off / bpc s) s [] c l Hok Hi Hch) as (r & s1 & L1 & -> & H1' & F1 & Ec & Hr).
  exists r, s1, L1. split; [done|]. split; [done|]. destruct Hr as [(-> & Hf)|(Hr2 & p & l' & -> & Hp)].
  { left. split; [done|]. split; [apply F1|done]. }
  right. split; [done|]. split; [apply F1|]. pose proof (bpc_static s s1 (fs_static _ _ _ _ F1)) as Eb.
  assert (length buf + off mod bpc s <= Z.to_nat (Z.of_nat (length buf) / bytes_per_cluster (v_fs s) + 2) * bpc s)%nat as Hfuel.
  { replace (bytes_per_cluster (v_fs s)) with (Z.of_nat (bpc s)) by (unfold bpc in *; lia). rewrite <- Nat2Z.inj_div.
    pose proof (Nat.div_mod (length buf) (bpc s)). pose proof (Nat.mod_upper_bound (length buf) (bpc s)).
    pose proof (Nat.mod_upper_bound off (bpc s)). nia. }
  destruct (write_loop_spec buf (copy_fuel (v_fs s) (Z.of_nat (length buf))) s1 p r l' (off mod bpc s) 0 (replicate (bpc s) 0) Hbb
    (fs_ok _ _ _ _ F1) (proj1 H1') (fs_chain _ _ _ _ F1)) as (n & s2 & L2 & E2 & H2' & F2 & Hn & Hfull & W2).
  { by rewrite length_replicate. } { by apply Forall_replicate. } { rewrite Eb. by apply Nat.mod_upper_bound; lia. } { lia. }
  { unfold copy_fuel. rewrite Eb. lia. }
  exists n, s2, L2. split; [done|]. split; [by apply (hstep_trans _ (v_heap s1))|]. split; [by apply (file_step_trans s s1 s2 _ _ _ F1)|].
  split; [lia|]. split; [done|]. rewrite Eb, Hp in W2. cbn [length Nat.add] in W2.
  replace (off / bpc s * bpc s + off mod bpc s)%nat with off in W2 by (pose proof (Nat.div_mod off (bpc s)); lia).
  destruct (fs_new _ _ _ _ F1) as (new & E1 & _). cbn [app] in E1, Ec.
  apply (written_trans s s1 s2 (c :: l) (p ++ r :: l') L2 off 0 0 n buf Eb); [rewrite E1; cbn [length]; rewrite length_app; lia|lia| | |by rewrite Nat.sub_0_r, Nat.add_0_r].
  - rewrite length_app, Hp. cbn [length Nat.add]. pose proof (Nat.div_mod off (bpc s)). pose proof (Nat.mod_upper_bound off (bpc s)). nia.
  - split; [lia|]. intros i Hi1 _. rewrite E1. apply (fbyte_same s s1 (c :: l) new); [apply F1|done|done|done].
Qed.

(** The node has its first cluster now; nothing else of it has changed. *)
Record node_step (node node' : fat_node) L : Prop := {
  ns_dir : fn_dir node' = fn_dir node;
  ns_idx : fn_idx node' = fn_idx node;
  ns_size : vn_size (fn_node node') = vn_size (fn_node node);
  ns_flags : vn_flags (fn_node node') = vn_flags (fn_node node);
  ns_first : head L = Some (vn_inode (fn_node node'))
}.

Lemma write_clusters_spec s node L (off : nat) (buf : list Z) :
  vol_ok s -> k_inv (v_heap s) -> byte_list buf -> file_chain s (fn_node node) L -> Z.of_nat off < 2 ^ 32 ->
  exists res node' s', write_clusters node (Z.of_nat off) buf s = Some (res, node', s') /\ hstep (v_heap s) (v_heap s') /\
    ((res = inl (- ENOSPC) /\ vol_ok s' /\ full s') \/
     exists n L', res = inr (Z.of_nat n) /\ file_step s s' L L' /\ (n <= length buf)%nat /\
       ((n < length buf)%nat -> full s') /\ written s s' L L' off 0 n buf /\ node_step node node' L').
Proof.
  intros Hok Hi Hbb HL Hoff. unfold write_clusters.
  destruct (first_cluster_spec s (fn_node node) L Hok Hi HL) as (c & s1 & L1 & -> & H1' & Hc). cbn [mbind option_bind].
  destruct Hc as [(-> & _ & Ok1 & Hf1)|(Hc2 & F1 & Ec1 & (l & ->) & Hcn)].
  { change (0 <? 2) with true. cbv iota. eexists _, _, _. split; [done|]. split; [done|]. by left. }
  rewrite (proj2 (Z.ltb_ge c 2) Hc2). set (node1 := if u32 _ <? 2 then _ else node).
  destruct (offset_split s off Hok Hoff) as [-> ->]. rewrite Nat2Z.id. pose proof (bpc_static s s1 (fs_static _ _ _ _ F1)) as Eb1.
  destruct (write_chain s1 c l off buf (fs_ok _ _ _ _ F1) (proj1 H1') (fs_chain _ _ _ _ F1) Hbb) as (r & s2 & L2 & E2 & H2' & Hr).
  rewrite Eb1 in E2, Hr. rewrite E2. cbn [mbind option_bind].
  destruct Hr as [(-> & Ok2 & Hf2)|(Hr2 & _ & n & s3 & L3 & E3 & H3' & F3 & Hn & Hfull & W3)].
  { change (0 <? 2) with true. cbv iota. eexists _, _, _. split; [done|]. split; [by apply (hstep_trans _ (v_heap s1))|]. by left. }
  rewrite (proj2 (Z.ltb_ge r 2) Hr2).
  assert (copy_fuel (v_fs s1) (Z.of_nat (length buf)) = copy_fuel (v_fs s) (Z.of_nat (length buf))) as Ecf.
  { unfold copy_fuel. by destruct (static_fields _ _ (fs_static _ _ _ _ F1)) as (_ & _ & _ & -> & _). }
  rewrite Ecf in E3. change (Z.to_nat (bytes_per_cluster (v_fs s))) with (bpc s). rewrite E3. cbn [mbind option_bind].
  eexists _, node1, s3. split; [done|]. split; [by apply (hstep_trans _ (v_heap s1))|]. right. exists n, L3. split; [done|].
  split; [exact (file_step_trans s s1 s3 _ _ _ F1 F3)|]. split; [done|]. split; [done|].
  destruct (fs_new _ _ _ _ F1) as (new & En & _), (fs_new _ _ _ _ F3) as (new3 & En3 & _). split.
  - destruct W3 as [Wn Wo]. rewrite Eb1 in Wo. split; [done|]. intros i Hi1 Hi2.
    assert (fbyte s1 (c :: l) i = fbyte s L i) as <-. { rewrite En. apply (fbyte_same s s1 L new i); [apply F1|by apply bpc_pos|done|done]. }
    apply Wo; [|done]. rewrite En, length_app. nia.
  - rewrite En3. unfold node1. split; destruct (u32 (vn_inode (fn_node node)) <? 2); try done. cbn [head]. by rewrite Hcn at 1.
Qed.

(** A write to a file either finds no memory or no free cluster, or
    it returns the number [n] of bytes it wrote, all of them unless the volume
    is full.  The file then has these bytes from the offset on and its old bytes
    elsewhere; its chain has grown by clusters that were free; every cluster and
    table entry outside the file is as before, but for the directory entry,
    which holds the new size and first cluster unless memory was short; and
    nothing is left in the sector buffer that is not on the disk. *)
Lemma fat32_write_spec s node L DL dc (off : nat) (buf : list Z) :
  vol_ok s -> k_inv (v_heap s) -> byte_list buf -> buf <> [] -> is_dir (fn_node node) = false ->
  file_chain s (fn_node node) L -> entry_at s node DL dc -> (forall x, x ∈ DL -> x ∉ L) ->
  Z.of_nat (off + length buf) < 2 ^ 32 -> 0 <= vn_size (fn_node node) < 2 ^ 32 ->
  exists ret node' s', _fat32_vfs_write node (Z.of_nat off) buf s = Some (ret, node', s') /\
    vol_ok s' /\ hstep (v_heap s) (v_heap s') /\
    (ret = - ENOMEM \/ (ret = - ENOSPC /\ full s') \/
     exists n L', ret = Z.of_nat n /\ write_done s s' node node' L L' dc off n buf).
Proof.
  intros Hok Hi Hbb Hne Hdir HL Hent Hdis Hmax Hsz. pose proof (vo_geo _ Hok) as G.
  assert (0 < length buf)%nat as Hlen by (destruct buf; [done|cbn; lia]).
  unfold _fat32_vfs_write. rewrite (g_valid _ G), Hdir, (proj2 (Z.eqb_neq (Z.of_nat (length buf)) 0)) by lia. cbn [negb].
  destruct (malloc_vol s _ Hi (cluster_bytes _ G)) as (q & h & -> & Hh & Hq). cbn [mbind option_bind].
  pose proof (set_heap_becomes s h Hok) as B0. pose proof (b_ok _ _ _ _ B0) as Ok0.
  destruct (Z.eqb_spec q 0) as [->|Hq0].
  { exists (- ENOMEM), node, (set_heap h s). split; [done|]. split; [done|]. split; [done|by left]. }
  destruct (Hq Hq0) as [Hlive Hfresh].
  destruct (write_clusters_spec (set_heap h s) node L off buf Ok0 (proj1 Hh) Hbb HL ltac:(lia)) as (res & node1 & s1 & -> & H1' & Hres).
  cbn [mbind option_bind]. destruct (free_vol s1 q (v_heap s)) as (h2 & -> & Hs2); [apply H1'|by apply H1'|done|done|intros x Hx; by apply H1', Hh|].
  cbn [mbind option_bind]. destruct Hres as [(-> & Ok1 & Hf1)|(n & L' & -> & F1 & Hn & Hfull & W1 & [N1 N2 N3 N4 N5])].
  { eexists _, _, _. split; [done|]. split; [apply (set_heap_becomes s1 h2 Ok1)|]. split; [done|]. right. left. split; [done|].
    by apply (full_becomes s1 _ (clu s1)); [apply set_heap_becomes|]. }
  pose proof (set_heap_becomes s1 h2 (fs_ok _ _ _ _ F1)) as B2. set (s2 := set_heap h2 s1) in *.
  assert (file_step s s2 L L') as F2.
  { exact (file_step_trans s s1 s2 _ _ _ (file_step_heap s s1 h _ _ F1) (quiet_file_step s1 s2 L' B2 (fs_chain _ _ _ _ F1))). }
  assert (written s s2 L L' off 0 n buf) as W2 by (destruct W1; by split).
  rewrite N3, (u64_small (Z.of_nat off)), (u64_small (Z.of_nat off + _)) by lia. set (node2 := if vn_size _ <? _ then _ else node1).
  assert (fn_dir node2 = fn_dir node /\ fn_idx node2 = fn_idx node /\ vn_inode (fn_node node2) = vn_inode (fn_node node1) /\
    vn_flags (fn_node node2) = vn_flags (fn_node node) /\
    vn_size (fn_node node2) = Z.max (vn_size (fn_node node)) (Z.of_nat (off + length buf))) as (M1 & M2 & M3 & M4 & M5).
  { unfold node2. destruct (Z.ltb_spec (vn_size (fn_node node)) (Z.of_nat off + Z.of_nat (length buf)));
      split_and!; try done; cbn [fn_node vn_size set_vn_size]; [rewrite u32_small by lia|]; lia. }
  destruct (write_tail s s2 node node2 L L' DL dc off n buf Hok (proj1 Hs2) F2) as (s5 & -> & Ok5 & Hval & Ok6 & Hh6 & Hdone); try done.
  { pose proof (fs_chain _ _ _ _ F2) as Hch. destruct L' as [|c l]; [done|]. injection N5 as ->.
    destruct (chain_head _ _ _ _ Hch) as [? ?]. pose proof (vol_bound s2 (fs_ok _ _ _ _ F2)) as Hbd. unfold FAT32_EOC_MIN in Hbd.
    split; [rewrite M3; lia|done]. }
  cbn [mbind option_bind]. unfold fat32_sync. rewrite Hval. cbn [negb snd].
  exists (Z.of_nat n), node2, (flush_sector s5). split; [done|]. split; [done|]. split; [by apply (hstep_trans _ h2)|].
  right. right. exists n, L'. by split.
Qed.

(** ** Reading *)

Lemma seek_chain_spec n : forall s p c l,
  vol_ok s -> chain_of s (p ++ c :: l) -> (n <= length l)%nat ->
  exists d s', seek_chain n c s = (d, s') /\ becomes s s' (fat_at s) (clu s) /\ v_heap s' = v_heap s /\
    exists p' l', p ++ c :: l = p' ++ d :: l' /\ length p' = (length p + n)%nat.
Proof.
  induction n as [|n IH]; intros s p c l Hok Hch Hn; cbn [seek_chain].
  { exists c, s. split; [done|]. split; [by apply becomes_refl|]. split; [done|]. exists p, l. split; [done|lia]. }
  destruct l as [|c' l]; [cbn in Hn; lia|]. destruct (chain_in _ _ _ c Hch) as [Hc _]; [set_solver|].
  pose proof (in_vol_good _ c (vo_geo _ Hok) Hc) as [_ Hg]%orb_false_iff. apply Z.leb_gt in Hg. rewrite (proj2 (Z.ltb_lt c _) Hg).
  destruct (next_cluster_spec s c Hok Hc) as (s1 & -> & B1 & E1 & _). rewrite (chain_next _ _ _ _ _ _ Hch).
  assert (p ++ c :: c' :: l = (p ++ [c]) ++ c' :: l) as EL by by rewrite <- app_assoc. rewrite EL in *.
  destruct (IH s1 (p ++ [c]) c' l (b_ok _ _ _ _ B1) (chain_becomes s s1 _ _ _ B1 Hch) ltac:(cbn in Hn; lia)) as (d & s2 & -> & B2 & E2 & p' & l' & -> & Hl).
  exists d, s2. split; [done|]. split; [by apply (becomes_same s s1 s2)|]. split; [congruence|]. exists p', l'. split; [done|].
  rewrite Hl, length_app. cbn. lia.
Qed.

Lemma fbyte_quiet s s' L i : becomes s s' (fat_at s) (clu s) -> chain_of s L -> fbyte s' L i = fbyte s L i.
Proof.
  intros B Hch. unfold fbyte. rewrite (bpc_static s s' (b_static _ _ _ _ B)). destruct (L !! _) as [x|] eqn:Ex; [|done]. cbn.
  rewrite (b_clu _ _ _ _ B); [done|]. apply (chain_in _ _ _ x Hch). by apply list_elem_of_lookup_2 in Ex.
Qed.

(** The loop returns the bytes of the file from its position on. *)
Lemma read_loop_spec (len : nat) fuel : forall s p c l off out cbuf,
  vol_ok s -> chain_of s (p ++ c :: l) -> length cbuf = bpc s -> (off < bpc s)%nat -> (length out < len)%nat ->
  (off + (len - length out) <= S (length l) * bpc s)%nat -> (off + (len - length out) <= fuel * bpc s)%nat ->
  exists out' s', read_loop fuel c (Z.of_nat off) (Z.of_nat len) out cbuf s = Some (inr (out ++ out'), s') /\
    becomes s s' (fat_at s) (clu s) /\ v_heap s' = v_heap s /\ length (out ++ out') = len /\
    forall j, (j < length out')%nat -> out' !! j = fbyte s (p ++ c :: l) (length p * bpc s + off + j).
Proof.
  induction fuel as [|fuel IH]; intros s p c l off out cbuf Hok Hch Hlc Hoff Hout Hav Hfuel; [lia|]. cbn [read_loop].
  destruct (chain_in _ _ _ c Hch) as [Hc _]; [set_solver|]. pose proof (bpc_pos s Hok) as Hpos.
  pose proof (cluster_bytes _ (vo_geo _ Hok)) as [Hb0 Hbmax]. unfold K_MAX in Hbmax.
  rewrite (proj2 (Z.ltb_lt _ _)), (in_vol_good _ c (vo_geo _ Hok) Hc) by lia. cbn [negb orb].
  destruct (read_cluster_spec s c cbuf Hok Hc Hlc) as (s1 & -> & B1 & E1 & Ef). cbn [mbind option_bind Z.eqb negb]. rewrite Ef.
  set (copy := Nat.min (bpc s - off) (len - length out)).
  assert (Z.min (u64 (bytes_per_cluster (v_fs s) - Z.of_nat off)) (Z.of_nat len - Z.of_nat (length out)) = Z.of_nat copy) as ->
    by (unfold bpc in *; rewrite u64_small by lia; lia).
  rewrite !Nat2Z.id. destruct (clu_len s c Hok Hc) as [Hcl _]. set (data := take copy (drop off (clu s c))).
  assert (length data = copy) as Hld by (unfold data; rewrite length_take, length_drop; lia).
  assert (forall j, (j < copy)%nat -> data !! j = fbyte s (p ++ c :: l) (length p * bpc s + off + j)) as Hdata.
  { intros j Hj. unfold data, fbyte. rewrite lookup_take_lt, lookup_drop by lia.
    assert ((length p * bpc s + off + j) / bpc s = length p)%nat as -> by (symmetry; apply (Nat.div_unique _ _ _ (off + j)); lia).
    assert ((length p * bpc s + off + j) mod bpc s = off + j)%nat as -> by (symmetry; apply (Nat.mod_unique _ _ (length p)); lia).
    by rewrite list_lookup_middle. }
  pose proof (chain_becomes s s1 _ _ _ B1 Hch) as Hch1. assert (in_vol (v_fs s1) c) as Hc1 by by rewrite Ef.
  destruct (next_cluster_spec s1 c (b_ok _ _ _ _ B1) Hc1) as (s2 & -> & B2 & E2 & _). pose proof (becomes_same s s1 s2 _ _ B1 B2) as B12.
  destruct (decide (length out + copy = len)%nat) as [Hend|Hmore].
  - exists data, s2. split.
    { destruct fuel; cbn [read_loop]; rewrite length_app, Hld; rewrite (proj2 (Z.ltb_ge _ _)) by lia; done. }
    split; [done|]. split; [congruence|]. split; [rewrite length_app; lia|]. rewrite Hld. apply Hdata.
  - assert (copy = bpc s - off)%nat as Ec by lia. destruct l as [|c' l]; [cbn in Hav; lia|].
    rewrite (chain_next _ _ _ _ _ _ Hch1). pose proof (bpc_static s s2 (b_static _ _ _ _ B12)) as Eb.
    assert (p ++ c :: c' :: l = (p ++ [c]) ++ c' :: l) as EL by by rewrite <- app_assoc. rewrite EL in *.
    destruct (IH s2 (p ++ [c]) c' l 0%nat (out ++ data) (clu s c) (b_ok _ _ _ _ B12) (chain_becomes s s2 _ _ _ B12 Hch)) as (out' & s3 & E3 & B3 & H3 & Hl3 & Hby).
    { by rewrite Eb. } { by rewrite Eb. } { rewrite length_app. lia. } { rewrite length_app, Eb. cbn [length] in Hav. lia. } { rewrite length_app, Eb. lia. }
    exists (data ++ out'), s3. rewrite app_assoc. split; [done|]. split; [by apply (becomes_same s s2 s3)|]. split; [congruence|]. split; [done|].
    intros j Hj. rewrite length_app in Hj. destruct (decide (j < copy)%nat).
    + rewrite lookup_app_l by lia. by apply Hdata.
    + rewrite lookup_app_r, Hby by lia. rewrite (fbyte_quiet s s2 _ _ B12 Hch). f_equal. rewrite Eb, length_app. cbn [length]. lia.
Qed.

Lemma read_clusters_spec s n L (off len : nat) :
  vol_ok s -> file_chain s n L -> (0 < len)%nat -> (off + len <= length L * bpc s)%nat -> Z.of_nat (off + len) < 2 ^ 32 ->
  exists out s', read_clusters n (Z.of_nat off) (Z.of_nat len) s = Some (inr out, s') /\
    becomes s s' (fat_at s) (clu s) /\ v_heap s' = v_heap s /\ length out = len /\
    forall j, (j < len)%nat -> out !! j = fbyte s L (off + j).
Proof.
  intros Hok [Hr HL] Hl0 Hcap Hmax. destruct L as [|c l]; [cbn in Hcap; lia|]. destruct HL as [Ein Hch]. unfold read_clusters.
  destruct (offset_split s off Hok ltac:(lia)) as [-> ->]. rewrite Nat2Z.id, u32_small, Ein by lia.
  pose proof (bpc_pos s Hok) as Hpos. pose proof (Nat.div_mod off (bpc s) ltac:(lia)) as Hdm. pose proof (Nat.mod_upper_bound off (bpc s) ltac:(lia)) as Hmu.
  assert (off / bpc s < length (c :: l))%nat as Hdl by (apply Nat.Div0.div_lt_upper_bound; lia).
  destruct (seek_chain_spec (off / bpc s) s [] c l Hok Hch ltac:(cbn in Hdl; lia)) as (d & s1 & -> & B1 & E1 & p & l' & EL & Hp).
  cbn [app length Nat.add] in EL, Hp. rewrite EL in *. pose proof (bpc_static s s1 (b_static _ _ _ _ B1)) as Eb.
  assert (length (p ++ d :: l') = length p + S (length l'))%nat as Hlen by (rewrite length_app; done).
  destruct (read_loop_spec len (copy_fuel (v_fs s) (Z.of_nat len)) s1 p d l' (off mod bpc s) [] (replicate (bpc s) 0) (b_ok _ _ _ _ B1)
    (chain_becomes s s1 _ _ _ B1 Hch)) as (out & s2 & E2 & B2 & H2 & Hl2 & Hby).
  { by rewrite length_replicate. } { by rewrite Eb. } { done. } { rewrite Eb. cbn. nia. }
  { rewrite Eb. cbn. unfold copy_fuel. replace (bytes_per_cluster (v_fs s)) with (Z.of_nat (bpc s)) by (unfold bpc in *; lia). rewrite <- Nat2Z.inj_div.
    pose proof (Nat.div_mod len (bpc s)). pose proof (Nat.mod_upper_bound len (bpc s)). nia. }
  exists out, s2. split; [done|]. split; [by apply (becomes_same s s1)|]. split; [congruence|]. split; [done|].
  intros j Hj. rewrite Hby, Eb, (fbyte_quiet s s1 _ _ B1 Hch) by (cbn in Hl2; lia). f_equal. lia.
Qed.

(** A read returns the bytes of the file from the offset on, as many as are
    asked for and the file has, and changes nothing on the volume; or there is
    no memory for the buffer. *)
Lemma fat32_read_spec s node L (off len : nat) :
  vol_ok s -> k_inv (v_heap s) -> is_dir (fn_node node) = false -> file_chain s (fn_node node) L ->
  0 <= vn_size (fn_node node) < 2 ^ 32 -> vn_size (fn_node node) <= Z.of_nat (length L * bpc s) ->
  Z.of_nat (off + len) < 2 ^ 64 ->
  exists ret bytes s', _fat32_vfs_read node (Z.of_nat off) (Z.of_nat len) s = Some (ret, bytes, s') /\
    becomes s s' (fat_at s) (clu s) /\ hstep (v_heap s) (v_heap s') /\
    (ret = - ENOMEM \/
     (ret = Z.of_nat (length bytes) /\ length bytes = Nat.min len (Z.to_nat (vn_size (fn_node node)) - off) /\
      forall j, (j < length bytes)%nat -> bytes !! j = fbyte s L (off + j))).
Proof.
  intros Hok Hi Hdir HL Hsz Hcap Hmax. pose proof (vo_geo _ Hok) as G. unfold _fat32_vfs_read. rewrite (g_valid _ G), Hdir. cbn [negb].
  rewrite (u32_small (vn_size _)), (u64_small (Z.of_nat off)), (u64_small (Z.of_nat off + _)) by lia. set (size := vn_size (fn_node node)) in *.
  destruct (Z.leb_spec size (Z.of_nat off)) as [Hpast|Hin].
  { exists 0, [], s. split; [done|]. split; [by apply becomes_refl|]. split; [by split|]. right. cbn. split_and!; [done|lia|lia]. }
  set (n := Nat.min len (Z.to_nat size - off)).
  assert ((if size <? Z.of_nat off + Z.of_nat len then size - Z.of_nat off else Z.of_nat len) = Z.of_nat n) as -> by (case_if; bools; lia).
  destruct (Z.eqb_spec (Z.of_nat n) 0) as [En|Hn0].
  { exists 0, [], s. split; [done|]. split; [by apply becomes_refl|]. split; [by split|]. right. cbn. split_and!; [done|lia|lia]. }
  destruct (malloc_vol s _ Hi (cluster_bytes _ G)) as (q & h & -> & Hh & Hq). cbn [mbind option_bind].
  pose proof (set_heap_becomes s h Hok) as B0. pose proof (b_ok _ _ _ _ B0) as Ok0. destruct (Z.eqb_spec q 0) as [->|Hq0].
  { exists (- ENOMEM), [], (set_heap h s). split; [done|]. split; [done|]. split; [done|by left]. }
  destruct (Hq Hq0) as [Hlive Hfresh].
  destruct (read_clusters_spec (set_heap h s) (fn_node node) L off n Ok0 HL) as (out & s2 & -> & B2 & H2 & Hl2 & Hby);
    [lia|change (bpc (set_heap h s)) with (bpc s); lia|lia|]. cbn [mbind option_bind].
  assert (v_heap s2 = h) as Eh by by rewrite H2.
  destruct (free_vol s2 q (v_heap s)) as (h3 & -> & Hs3); [rewrite Eh; apply Hh|by rewrite Eh|done|done|rewrite Eh; apply Hh|]. cbn [mbind option_bind].
  exists (Z.of_nat (length out)), out, (set_heap h3 s2). split; [done|]. split.
  { apply (becomes_same s s2); [exact (becomes_trans s (set_heap h s) s2 _ _ _ _ B0 B2)|apply set_heap_becomes, B2]. }
  split; [done|]. right. split; [done|]. split; [done|]. intros j Hj. rewrite Hby by lia. done.
Qed.

(** What was written lies in the clusters of the file. *)
Lemma written_bound s s' L L' off n (buf : list Z) :
  vol_ok s' -> (0 < n <= length buf)%nat -> written s s' L L' off 0 n buf -> (off + n <= length L' * bpc s')%nat.
Proof.
  intros Hok Hn [Wn _]. specialize (Wn (off + (n - 1))%nat ltac:(lia)). pose proof (bpc_pos s' Hok).
  destruct (lookup_lt_is_Some_2 buf (0 + (off + (n - 1) - off))%nat ltac:(lia)) as [x Hx]. rewrite Hx in Wn. unfold fbyte in Wn.
  destruct (L' !! _) as [c|] eqn:Ec; [|done]. apply lookup_lt_Some in Ec.
  pose proof (Nat.div_mod (off + (n - 1)) (bpc s') ltac:(lia)). pose proof (Nat.mod_upper_bound (off + (n - 1)) (bpc s') ltac:(lia)).
  pose proof (Nat.mul_le_mono_l _ _ (bpc s') Ec). lia.
Qed.

End files.
