(* ===== verification/Fat32Dir.v ===== *)
(** * FAT32: names and directories

    The names of directory entries, and what [_fat32_vfs_create] and
    [_fat32_vfs_unlink] do to a directory and to the table; examples of the
    whole driver on a small disk. *)

From S2P Require Import Prelude CString Bytes Ports KAlloc Vfs Fat32 Fat32Inv Fat32File.

(** ** Names *)

Definition no_lower (l : list Z) : Prop := Forall (fun c => upper c = c) l.

Lemma upper_idem c : upper (upper c) = upper c.
Proof. unfold upper. destruct (Z.leb_spec 97 c), (Z.leb_spec c 122); cbn [andb]; try done; repeat (case_if; bools; try lia). Qed.

Lemma no_lower_map l : no_lower (map upper l).
Proof. apply Forall_map, Forall_forall. intros c _. apply upper_idem. Qed.

Lemma map_upper_id l : no_lower l -> map upper l = l.
Proof. induction 1 as [|c l Hc _ IH]; [done|]. cbn. by rewrite Hc, IH. Qed.

Lemma no_lower_pad n l : no_lower (pad_spaces n l).
Proof. unfold pad_spaces. apply Forall_app. split; [apply no_lower_map|by apply Forall_replicate]. Qed.

Lemma trim_sub l : forall x, x ∈ trim_spaces l -> x ∈ l.
Proof.
  induction l as [|y l IH]; [done|]. intros x. cbn [trim_spaces]. destruct (trim_spaces l) as [|z r]; [case_if; set_solver|].
  intros [->|Hx]%elem_of_cons; [set_solver|]. apply elem_of_cons. right. by apply IH.
Qed.

(** Padding is what trimming removes. *)
Lemma trim_replicate n : trim_spaces (replicate n 32) = [].
Proof. induction n as [|n IH]; [done|]. cbn [replicate trim_spaces]. by rewrite IH. Qed.

Lemma trim_pad l n : Forall (fun c => c <> 32) l -> trim_spaces (l ++ replicate n 32) = l.
Proof.
  induction 1 as [|c l Hc Hl IH]; [apply trim_replicate|]. cbn [app trim_spaces]. rewrite IH.
  destruct l; [|done]. by rewrite (proj2 (Z.eqb_neq c 32) Hc).
Qed.

Lemma last_dot_none i l d : Forall (fun c => c <> 46) l -> last_dot i l d = d.
Proof. intros Hl. revert i d. induction Hl as [|c l Hc _ IH]; intros i d; [done|]. cbn. rewrite (proj2 (Z.eqb_neq c 46) Hc). apply IH. Qed.

Lemma last_dot_app i l1 l2 d : Forall (fun c => c <> 46) l2 -> last_dot i (l1 ++ 46 :: l2) d = Some (i + length l1)%nat.
Proof.
  intros Hl2. revert i d. induction l1 as [|c l1 IH]; intros i d; cbn.
  - rewrite last_dot_none by done. f_equal. lia.
  - rewrite IH. f_equal. lia.
Qed.

Lemma length_pad n l : length (pad_spaces n l) = n.
Proof. unfold pad_spaces. rewrite length_app, length_map, length_take, length_replicate. lia. Qed.

Lemma length_str_to_83 name : length (fat32_str_to_83 name).1 = 8%nat /\ length (fat32_str_to_83 name).2 = 3%nat.
Proof. unfold fat32_str_to_83. by destruct (last_dot 0 name None); cbn [fst snd]; rewrite ?length_pad. Qed.

(** The name in an entry. *)
Lemma new_dirent_name n e attr : length n = 8%nat -> length e = 3%nat -> d_name (new_dirent n e attr) = n /\ d_ext (new_dirent n e attr) = e.
Proof.
  intros Hn He. unfold d_name, d_ext, new_dirent. split.
  - rewrite take_app_length' by done. done.
  - rewrite drop_app_length' by done. by rewrite take_app_length'.
Qed.

(** The characters that an 8.3 name keeps. *)
Definition plain (c : Z) : Prop := c <> 32 /\ c <> 46 /\ upper c = c.

Lemma trim_pad_spaces n l : (length l <= n)%nat -> Forall plain l -> trim_spaces (pad_spaces n l) = l.
Proof.
  intros Hl Hp. unfold pad_spaces. rewrite take_ge by done. rewrite map_upper_id by (eapply Forall_impl; [exact Hp|]; by intros c (_ & _ & ?)).
  apply trim_pad. eapply Forall_impl; [exact Hp|]. by intros c (? & _).
Qed.

(** a name of at most eight characters, with an extension of at most
    three behind a dot or without one, and without spaces, further dots or
    lower-case letters, is the name of the entry made for it. *)
Theorem name83_roundtrip (base ext : list Z) (attr : Z) :
  Forall plain base -> Forall plain ext -> (length base <= 8)%nat -> (length ext <= 3)%nat ->
  let name := base ++ match ext with [] => [] | _ => 46 :: ext end in
  let '(n, e) := fat32_str_to_83 name in
  fat32_83_to_str (new_dirent n e attr) = name.
Proof.
  intros Hb He Hlb Hle. cbn zeta. destruct (fat32_str_to_83 _) as [n e] eqn:E. unfold fat32_str_to_83 in E.
  assert (Forall (fun c => c <> 46) base /\ Forall (fun c => c <> 46) ext) as [Hb46 He46]
    by (split; [eapply Forall_impl; [exact Hb|]|eapply Forall_impl; [exact He|]]; by intros c (_ & ? & _)).
  assert (n = pad_spaces 8 base /\ e = pad_spaces 3 ext) as [-> ->].
  { destruct ext as [|x ext].
    - rewrite app_nil_r, last_dot_none in E by done. by injection E as <- <-.
    - rewrite last_dot_app in E by done. cbn [Nat.add] in E. rewrite take_app_length, drop_app_ge in E by lia.
      replace (S (length base) - length base)%nat with 1%nat in E by lia. by injection E as <- <-. }
  unfold fat32_83_to_str. destruct (new_dirent_name (pad_spaces 8 base) (pad_spaces 3 ext) attr) as [-> ->]; [apply length_pad..|].
  rewrite !trim_pad_spaces by done. by destruct ext.
Qed.

(** A character of a name in an entry. *)
Definition entry_char (c : Z) : Prop := 0 < c < 256 /\ upper c = c.

Lemma entry_char_upper c : 0 < c < 256 -> entry_char (upper c).
Proof. intros Hc. split; [|apply upper_idem]. unfold upper. case_if; bools; lia. Qed.

Lemma pad_entry_char n l : Forall (fun c => 0 < c < 256) l -> Forall entry_char (pad_spaces n l).
Proof.
  intros Hl. unfold pad_spaces. apply Forall_app. split; [|by apply Forall_replicate].
  apply Forall_map, Forall_take. eapply Forall_impl; [exact Hl|]. apply entry_char_upper.
Qed.

Lemma trim_entry_char l : Forall entry_char l -> Forall entry_char (trim_spaces l).
Proof. rewrite !Forall_forall. intros Hl x Hx. by apply Hl, trim_sub. Qed.

Lemma made_name_chars name attr :
  Forall (fun c => 0 < c < 256) name ->
  Forall entry_char (fat32_83_to_str (new_dirent (fat32_str_to_83 name).1 (fat32_str_to_83 name).2 attr)).
Proof.
  intros Hc. destruct (length_str_to_83 name) as [L1 L2].
  assert (Forall entry_char (fat32_str_to_83 name).1 /\ Forall entry_char (fat32_str_to_83 name).2) as [N1 N2].
  { unfold fat32_str_to_83. destruct (last_dot 0 name None); cbn [fst snd]; split; try (by apply Forall_replicate);
      apply pad_entry_char; try done; [by apply Forall_take|by apply Forall_drop]. }
  unfold fat32_83_to_str. destruct (new_dirent_name _ _ attr L1 L2) as [-> ->]. apply Forall_app. split; [by apply trim_entry_char|].
  case_if; [|constructor]. constructor; [done|by apply trim_entry_char].
Qed.

(** the name of every entry the driver makes is in upper case, and
    looking up compares letter by letter: a file that was created with a
    lower-case letter in its name is not found under that name. *)
Theorem lower_case_not_found (name : list Z) (attr : Z) :
  Forall (fun c => 0 < c < 256) name -> (length name <= 255)%nat -> ~ no_lower name ->
  strncmp (fat32_83_to_str (new_dirent (fat32_str_to_83 name).1 (fat32_str_to_83 name).2 attr)) name 255 <> 0.
Proof.
  intros Hc Hl Hlow. pose proof (made_name_chars name attr Hc) as Hm. set (a := fat32_83_to_str _) in *.
  assert (forall l, Forall (fun c => 0 < c < 256) l -> byte_list l /\ no_zero l) as Hz.
  { intros l Hl'. split; (eapply Forall_impl; [exact Hl'|]); cbn; lia. }
  assert (Forall (fun c => 0 < c < 256) a) as Ha by (eapply Forall_impl; [exact Hm|]; by intros c [? _]).
  destruct (Hz a Ha) as [Hab Haz], (Hz name Hc) as [Hnb Hnz]. rewrite (strncmp_0 a name 255 Hab Hnb), !c_str_no_zero by done.
  rewrite (take_ge name) by done. intros E. apply Hlow. rewrite <- E. apply Forall_take. eapply Forall_impl; [exact Hm|]. by intros c [_ ?].
Qed.

(** ** Directories *)

Section directories.
Context {D A : Type} `{BlockDev D} `{KAllocLaws A} `{!KFreeLaws A}.
Implicit Types (s : vol D A) (c : Z) (L p l : list Z).

Definition epc s : nat := Z.to_nat (entries_per_cluster (v_fs s)).

Lemma epc_bpc s : vol_ok s -> (0 < epc s)%nat /\ (epc s * 32)%nat = bpc s /\ entries_per_cluster (v_fs s) = Z.of_nat (epc s).
Proof. intros Hok. destruct (epc_spec s Hok) as [? ?]. unfold epc. lia. Qed.

Lemma epc_static s s' : static (v_fs s') = static (v_fs s) -> epc s' = epc s.
Proof. intros (_ & _ & _ & E & _)%static_fields. unfold epc, entries_per_cluster. by rewrite E. Qed.

(** A chain has no more clusters than the volume. *)
Lemma chain_length s L : vol_ok s -> chain_of s L -> (length L <= chain_fuel (v_fs s))%nat.
Proof.
  intros Hok Hch. pose proof (chain_NoDup _ (vol_bound s Hok) _ _ Hch) as Hnd. pose proof (g_total _ (vo_geo _ Hok)) as [? _].
  assert (L ⊆+ seqZ 2 (total_clusters (v_fs s))) as Hsub.
  { apply NoDup_submseteq; [done|]. intros x Hx. apply elem_of_seqZ. destruct (chain_in _ _ _ x Hch Hx) as [[? ?] _]. lia. }
  apply submseteq_length in Hsub. rewrite length_seqZ in Hsub. unfold chain_fuel. lia.
Qed.

(** What the two loops over the entries of a cluster find. *)
Lemma match_entry_spec n : forall i buf name j de,
  match_entry n i buf name = HitEntry j de ->
  i <= j < i + Z.of_nat n /\ de = dirent_at buf j /\ skipped de = false /\ strcmp (fat32_83_to_str de) name = 0.
Proof.
  induction n as [|n IH]; intros i buf name j de; cbn [match_entry]; [done|]. case_if; [done|].
  destruct (skipped (dirent_at buf i)) eqn:Es; [intros E%IH; split; [lia|apply E]|].
  destruct (Z.eqb_spec (strcmp (fat32_83_to_str (dirent_at buf i)) name) 0) as [E0|].
  - intros [= <- <-]. split; [lia|done].
  - intros E%IH. split; [lia|apply E].
Qed.

Lemma free_entry_spec n : forall i buf j, free_entry n i buf = Some j -> i <= j < i + Z.of_nat n.
Proof. induction n as [|n IH]; intros i buf j; cbn [free_entry]; [done|]. case_if; [intros [= <-]; lia|]. intros E%IH. lia. Qed.

(** ** Removing an entry *)

(** The file behind an entry: its chain, none when it has no cluster. *)
Definition entry_chain s (de : list Z) FL : Prop :=
  match FL with [] => d_cluster de < 2 | c :: _ => d_cluster de = c /\ chain_of s FL end.

Lemma free_entry_chain s de FL :
  vol_ok s -> entry_chain s de FL ->
  exists s', (if 2 <=? d_cluster de then fat32_free_chain (chain_fuel (v_fs s)) (d_cluster de) s else Some (0, s)) = Some (0, s') /\
    becomes s s' (freed (fat_at s) FL) (clu s) /\ v_heap s' = v_heap s.
Proof.
  intros Hok HF. destruct FL as [|c l].
  - rewrite (proj2 (Z.leb_gt 2 _) HF). exists s. split; [done|]. split; [|done].
    apply (becomes_ext s s (fat_at s) (clu s)); [|done|by apply becomes_refl]. intros x _. unfold freed. by rewrite bool_decide_eq_false_2 by set_solver.
  - destruct HF as [-> Hch]. destruct (chain_head _ _ _ _ Hch) as [? _]. rewrite (proj2 (Z.leb_le 2 c)) by lia.
    by apply (free_chain_spec (c :: l) _ c l s Hok eq_refl Hch), chain_length.
Qed.

(** The first cluster of [p ++ d :: l]. *)
Definition first p d : Z := match p with [] => d | c :: _ => c end.

(** The entry marked as deleted. *)
Definition marked s d (i : Z) : list Z := write_at (clu s d) (Z.to_nat (i * 32)) [0xE5].

Lemma marked_len s d i :
  vol_ok s -> in_vol (v_fs s) d -> 0 <= i < Z.of_nat (epc s) -> length (marked s d i) = bpc s /\ byte_list (marked s d i).
Proof.
  intros Hok Hd Hi. destruct (clu_len s d Hok Hd) as [Hl Hb], (epc_bpc s Hok) as (_ & He & _). split.
  - unfold marked. rewrite length_write_at; cbn [length]; lia.
  - apply write_at_bytes; [done|]. by repeat constructor.
Qed.

Lemma unlink_loop_spec name p : forall fuel s d l cbuf i de FL,
  vol_ok s -> chain_of s (p ++ d :: l) -> length cbuf = bpc s -> (length p < fuel)%nat ->
  (forall x, x ∈ p -> match_entry (epc s) 0 (clu s x) name = HitNone) ->
  match_entry (epc s) 0 (clu s d) name = HitEntry i de -> entry_chain s de FL -> d ∉ FL ->
  exists s', unlink_loop fuel (first p d) name cbuf s = Some (0, s') /\
    becomes s s' (freed (fat_at s) FL) (upd (clu s) d (marked s d i)) /\ v_heap s' = v_heap s.
Proof.
  induction p as [|c p IH]; intros fuel s d l cbuf i de FL Hok Hch Hlc Hfuel Hp Hd HF Hdis; (destruct fuel as [|fuel]; [lia|]);
    cbn [app] in Hch; cbn [first unlink_loop]; pose proof (chain_head _ _ _ _ Hch) as Hc; rewrite (in_vol_good _ _ (vo_geo _ Hok) Hc).
  - destruct (read_cluster_spec s d cbuf Hok Hc Hlc) as (s1 & -> & B1 & E1 & Ef). cbn [mbind option_bind Z.eqb negb]. rewrite Ef. fold (epc s). rewrite Hd.
    destruct (match_entry_spec _ _ _ _ _ _ Hd) as (Hi & _). destruct (free_entry_chain s1 de FL (b_ok _ _ _ _ B1)) as (s2 & E2 & B2 & H2).
    { destruct FL as [|x fl]; [done|]. split; [apply HF|]. apply (chain_becomes s s1 _ _ _ B1), HF. }
    rewrite Ef in E2. rewrite E2. cbn [mbind option_bind]. fold (marked s d i).
    assert (becomes s s2 (freed (fat_at s) FL) (clu s)) as B12.
    { apply (becomes_then s s1 s2 _ _ (fun F => freed F FL) (fun C => C)); [|auto|done|done]. intros F F' x HF' Hx. unfold freed. case_bool_decide; [done|by apply HF']. }
    destruct (marked_len s d i Hok Hc ltac:(lia)) as [Hml Hmb].
    destruct (write_cluster_spec s2 d (marked s d i) (b_ok _ _ _ _ B12)) as (s3 & -> & B3 & H3 & _);
      [apply (in_vol_static (v_fs s)); [apply B12|done]|by rewrite (bpc_static s s2 (b_static _ _ _ _ B12))|done|].
    cbn [mbind option_bind]. exists s3. split; [done|]. split; [by apply (becomes_upd s s2)|congruence].
  - destruct (read_cluster_spec s c cbuf Hok Hc Hlc) as (s1 & -> & B1 & E1 & Ef). cbn [mbind option_bind Z.eqb negb]. rewrite Ef. fold (epc s).
    rewrite (Hp c) by set_solver. destruct (next_cluster_spec s1 c (b_ok _ _ _ _ B1)) as (s2 & -> & B2 & E2 & _); [by rewrite Ef|].
    pose proof (becomes_same s s1 s2 _ _ B1 B2) as B12. rewrite (b_fat _ _ _ _ B1) by done.
    assert (fat_at s c = first p d) as ->. { destruct p; apply Hch. }
    assert (chain_of s (p ++ d :: l)) as Hch'. { destruct Hch as [_ Hch]. destruct p; apply Hch. }
    pose proof (epc_static s s2 (b_static _ _ _ _ B12)) as Ee.
    assert (forall x, x ∈ p ++ d :: l -> clu s2 x = clu s x) as Hcl by (intros x Hx; apply B12, (chain_in _ _ _ x Hch' Hx)).
    destruct (clu_len s c Hok Hc) as [Hcc _].
    destruct (IH fuel s2 d l (clu s c) i de FL (b_ok _ _ _ _ B12) (chain_becomes s s2 _ _ _ B12 Hch')) as (s3 & E3 & B3 & H3).
    { by rewrite (bpc_static s s2 (b_static _ _ _ _ B12)). } { cbn in Hfuel. lia. }
    { intros x Hx. rewrite Ee, Hcl by set_solver. apply Hp. set_solver. } { by rewrite Ee, Hcl by set_solver. }
    { destruct FL as [|x fl]; [done|]. split; [apply HF|]. apply (chain_becomes s s2 _ _ _ B12), HF. } { done. }
    exists s3. split; [done|]. split; [|congruence].
    apply (becomes_then s s2 s3 _ _ (fun F => freed F FL) (fun C => upd C d (write_at (C d) (Z.to_nat (i * 32)) [0xE5]))); [| |done|done].
    + intros F F' x HF' Hx. unfold freed. case_bool_decide; [done|by apply HF'].
    + intros C C' x HC Hx. unfold upd. destruct (Z.eqb_spec x d) as [->|]; [by rewrite HC|by apply HC].
Qed.

(** The sector buffer is written back at the end of a successful call. *)
Lemma sync_spec s s1 F C :
  becomes s s1 F C -> becomes s (fat32_sync s1).2 F C /\ v_heap (fat32_sync s1).2 = v_heap s1 /\
  sector_buf_dirty (v_fs (fat32_sync s1).2) = false.
Proof.
  intros B. pose proof (b_ok _ _ _ _ B) as Ok1. unfold fat32_sync. rewrite (g_valid _ (vo_geo _ Ok1)). cbn [negb snd].
  destruct (becomes_flush s1 Ok1) as (B2 & E & Hd). split; [by apply (becomes_same s s1)|done].
Qed.


(** ** Creating an entry *)

(** The scan passes the full clusters and stops at the first free entry. *)
Lemma scan_dir_spec p : forall fuel s d l cbuf i cnum prev,
  vol_ok s -> chain_of s (p ++ d :: l) -> length cbuf = bpc s -> (length p < fuel)%nat ->
  (forall x, x ∈ p -> free_entry (epc s) 0 (clu s x) = None) -> free_entry (epc s) 0 (clu s d) = Some i ->
  exists s', scan_dir fuel (first p d) cnum prev cbuf s =
      Some (inl ((cnum + Z.of_nat (length p)) * Z.of_nat (epc s) + i), s') /\
    becomes s s' (fat_at s) (clu s) /\ v_heap s' = v_heap s.
Proof.
  induction p as [|c p IH]; intros fuel s d l cbuf i cnum prev Hok Hch Hlc Hfuel Hp Hd; (destruct fuel as [|fuel]; [lia|]);
    cbn [app] in Hch; cbn [first scan_dir]; pose proof (chain_head _ _ _ _ Hch) as Hc; rewrite (in_vol_good _ _ (vo_geo _ Hok) Hc);
    destruct (epc_bpc s Hok) as (_ & _ & Ee).
  - destruct (read_cluster_spec s d cbuf Hok Hc Hlc) as (s1 & -> & B1 & E1 & Ef). cbn [mbind option_bind Z.eqb negb]. rewrite Ef. fold (epc s). rewrite Hd, Ee.
    exists s1. split; [|done]. do 3 f_equal. cbn. lia.
  - destruct (read_cluster_spec s c cbuf Hok Hc Hlc) as (s1 & -> & B1 & E1 & Ef). cbn [mbind option_bind Z.eqb negb]. rewrite Ef. fold (epc s).
    rewrite (Hp c) by set_solver. destruct (next_cluster_spec s1 c (b_ok _ _ _ _ B1)) as (s2 & -> & B2 & E2 & _); [by rewrite Ef|].
    pose proof (becomes_same s s1 s2 _ _ B1 B2) as B12. rewrite (b_fat _ _ _ _ B1) by done.
    assert (fat_at s c = first p d) as ->. { destruct p; apply Hch. }
    assert (chain_of s (p ++ d :: l)) as Hch'. { destruct Hch as [_ Hch]. destruct p; apply Hch. }
    pose proof (epc_static s s2 (b_static _ _ _ _ B12)) as Es.
    assert (forall x, x ∈ p ++ d :: l -> clu s2 x = clu s x) as Hcl by (intros x Hx; apply B12, (chain_in _ _ _ x Hch' Hx)).
    destruct (clu_len s c Hok Hc) as [Hcc _].
    destruct (IH fuel s2 d l (clu s c) i (cnum + 1) c (b_ok _ _ _ _ B12) (chain_becomes s s2 _ _ _ B12 Hch')) as (s3 & E3 & B3 & H3).
    { by rewrite (bpc_static s s2 (b_static _ _ _ _ B12)). } { cbn in Hfuel. lia. }
    { intros x Hx. rewrite Es, Hcl by set_solver. apply Hp. set_solver. } { by rewrite Es, Hcl by set_solver. }
    exists s3. split; [|split; [by apply (becomes_same s s2)|congruence]]. rewrite E3, Es. do 3 f_equal. cbn [length]. lia.
Qed.

Lemma find_free_dirent_spec s p d l i :
  vol_ok s -> k_inv (v_heap s) -> chain_of s (p ++ d :: l) ->
  (forall x, x ∈ p -> free_entry (epc s) 0 (clu s x) = None) -> free_entry (epc s) 0 (clu s d) = Some i ->
  exists ret s', fat32_find_free_dirent (first p d) s = Some (ret, s') /\ hstep (v_heap s) (v_heap s') /\
    becomes s s' (fat_at s) (clu s) /\ (ret = - ENOMEM \/ ret = Z.of_nat (length p) * Z.of_nat (epc s) + i).
Proof.
  intros Hok Hi Hch Hp Hd. unfold fat32_find_free_dirent.
  destruct (malloc_vol s _ Hi (cluster_bytes _ (vo_geo _ Hok))) as (q & h & -> & Hh & Hq). cbn [mbind option_bind].
  pose proof (set_heap_becomes s h Hok) as B0. destruct (Z.eqb_spec q 0) as [->|Hq0].
  { eexists _, _. split; [done|]. split; [done|]. split; [done|by left]. }
  destruct (Hq Hq0) as [Hlive Hfresh]. pose proof (chain_length s _ Hok Hch) as Hlen. rewrite length_app in Hlen. cbn [length] in Hlen.
  destruct (scan_dir_spec p (chain_fuel (v_fs s)) (set_heap h s) d l (replicate (bpc s) 0) i 0 0 (b_ok _ _ _ _ B0) Hch) as (s1 & E1 & B1 & H1');
    [apply length_replicate|lia|done|done|].
  change (replicate (Z.to_nat (bytes_per_cluster (v_fs s))) 0) with (replicate (bpc s) 0). rewrite E1. cbn [mbind option_bind].
  assert (v_heap s1 = h) as Eh by by rewrite H1'.
  destruct (free_vol s1 q (v_heap s)) as (h2 & -> & Hs2); [rewrite Eh; apply Hh|by rewrite Eh|done|done|rewrite Eh; apply Hh|]. cbn [mbind option_bind].
  eexists _, _. split; [done|]. split; [done|]. split; [|by right].
  apply (becomes_same s s1); [exact (becomes_trans s (set_heap h s) s1 _ _ _ _ B0 B1)|apply set_heap_becomes, B1].
Qed.

(** A cluster of a directory with the entry [i] replaced. *)
Definition with_entry s d (i : Z) (de : list Z) : list Z := write_at (clu s d) (Z.to_nat (i * 32)) de.

Lemma write_dirent_spec s p d l i de :
  vol_ok s -> k_inv (v_heap s) -> chain_of s (p ++ d :: l) -> 0 <= i < Z.of_nat (epc s) -> length de = 32%nat -> byte_list de ->
  exists ret s', fat32_write_dirent_at (first p d) (Z.of_nat (length p) * Z.of_nat (epc s) + i) de s = Some (ret, s') /\
    hstep (v_heap s) (v_heap s') /\
    ((ret = - ENOMEM /\ becomes s s' (fat_at s) (clu s)) \/ (ret = 0 /\ becomes s s' (fat_at s) (upd (clu s) d (with_entry s d i de)))).
Proof.
  intros Hok Hi Hch Hidx Hl Hb. destruct (epc_bpc s Hok) as (He & Hm & Ee). destruct (chain_in _ _ _ d Hch) as [Hd _]; [set_solver|].
  unfold fat32_write_dirent_at. rewrite Ee, Z.div_add_l, Z.div_small, Z.add_0_r, Nat2Z.id by lia.
  rewrite Z.add_comm, Z.mod_add, Z.mod_small by lia.
  assert (exists c l', p ++ d :: l = c :: l' /\ first p d = c) as (c & l' & EL & ->) by (destruct p; by eexists _, _).
  assert (length p <= length l')%nat as Hpl.
  { apply (f_equal length) in EL. rewrite length_app in EL. cbn in EL. lia. }
  pose proof Hch as Hch0. rewrite EL in Hch.
  destruct (walk_chain_spec (length p) s [] c l' Hok Hch Hpl) as (d' & s1 & -> & Ed & B1 & E1). cbn [app length Nat.add] in Ed.
  rewrite <- EL, list_lookup_middle in Ed by done. injection Ed as <-. pose proof (b_ok _ _ _ _ B1) as Ok1.
  destruct (malloc_vol s1 (bytes_per_cluster (v_fs s))) as (q & h & -> & Hh & Hq); [by rewrite E1|by apply cluster_bytes, Hok|].
  cbn [mbind option_bind]. rewrite E1 in Hh, Hq. pose proof (becomes_same s s1 _ _ _ B1 (set_heap_becomes s1 h Ok1)) as B2. set (s2 := set_heap h s1) in *.
  destruct (Z.eqb_spec q 0) as [->|Hq0].
  { eexists _, _. split; [done|]. split; [done|]. by left. }
  destruct (Hq Hq0) as [Hlive Hfresh]. pose proof (bpc_static s s2 (b_static _ _ _ _ B2)) as Eb. destruct (clu_len s d Hok Hd) as [Hcl Hcb].
  destruct (read_cluster_spec s2 d (replicate (Z.to_nat (bytes_per_cluster (v_fs s))) 0) (b_ok _ _ _ _ B2)) as (s3 & -> & B3 & H3 & _);
    [by apply (in_vol_static (v_fs s)); [apply B2|]|by rewrite length_replicate|]. cbn [mbind option_bind Z.eqb negb].
  rewrite (b_clu _ _ _ _ B2) by done. fold (with_entry s d i de). pose proof (becomes_same s s2 s3 _ _ B2 B3) as B23.
  destruct (write_cluster_spec s3 d (with_entry s d i de) (b_ok _ _ _ _ B3)) as (s4 & -> & B4 & H4 & _);
    [by apply (in_vol_static (v_fs s)); [apply B23|]|unfold with_entry; rewrite length_write_at, (bpc_static s s3 (b_static _ _ _ _ B23)); lia|by apply write_at_bytes|].
  cbn [mbind option_bind]. assert (v_heap s4 = h) as E4 by (rewrite H4, H3; done).
  destruct (free_vol s4 q (v_heap s)) as (h5 & -> & Hh5); [rewrite E4; apply Hh|by rewrite E4|done|done|rewrite E4; apply Hh|]. cbn [mbind option_bind].
  eexists _, _. split; [done|]. split; [done|]. right. split; [done|]. apply (becomes_same s s4); [by apply (becomes_upd s s3)|apply set_heap_becomes, B4].
Qed.

(** The entry of a new file. *)
Definition file_entry (name : list Z) : list Z :=
  new_dirent (fat32_str_to_83 name).1 (fat32_str_to_83 name).2 FAT_ATTR_ARCHIVE.

Lemma file_entry_len name : Forall (fun c => 0 < c < 256) name -> length (file_entry name) = 32%nat /\ byte_list (file_entry name).
Proof.
  intros Hn. destruct (length_str_to_83 name) as [L1 L2]. unfold file_entry, new_dirent. split; [rewrite !length_app, L1, L2; done|].
  assert (forall k x, Forall (fun c => 0 < c < 256) x -> byte_list (pad_spaces k x)) as Hpad.
  { intros k x Hx. eapply Forall_impl; [exact (pad_entry_char k x Hx)|]. intros c [? _]. lia. }
  apply Forall_app. split; [|apply Forall_app; split; [|by repeat constructor]]; unfold fat32_str_to_83; destruct (last_dot 0 name None); cbn [fst snd];
    try (by apply Forall_replicate); apply Hpad; try done; [by apply Forall_take|by apply Forall_drop].
Qed.

End directories.

(** ** Mounting *)

Section mounting.
Context {D A : Type} `{BlockDev D} `{KAlloc A}.
Implicit Types s : vol D A.

Lemma malloc_fs n s p s' : malloc n s = Some (p, s') -> v_fs s' = v_fs s.
Proof. unfold malloc. destruct (k_malloc n (v_heap s)) as [[q h]|]; [|done]. by intros [= <- <-]. Qed.

Lemma read_sector_fs lba buf off s : v_fs (fat32_read_sector lba buf off s).2 = v_fs s.
Proof.
  unfold fat32_read_sector. case_if; [done|]. by destruct (bd_read _ _ _) as [[r ws] d].
Qed.

(** C39: [fat32_init] reads the 512 bytes of the boot sector into a parameter
    block of 90 bytes, over the members behind it.  When the mount succeeds,
    the drive and the first sector of the volume are not those of the caller
    but whatever the boot sector has in its code area, bytes 123 to 130. *)
Theorem fat32_init_overruns (dv lba : Z) (mp : list Z) s root s' :
  bd_ok (v_disk s) -> 0 <= dv < 4 -> bd_present dv = true -> 0 <= lba < 2 ^ 31 -> lba < bd_size dv ->
  fat32_init dv lba mp s = Some (0, root, s') ->
  let sec := bytes_of_words (bd_sector (v_disk s) dv lba) in
  dev (v_fs s') = i32 (field sec 123 4) /\ partition_start_lba (v_fs s') = i32 (field sec 127 4).
Proof.
  intros Hd Hdv Hpres Hlba Hsize. cbn zeta. set (sec := bytes_of_words _). unfold fat32_init.
  assert (fat32_get_drive dv = true) as Hg by (unfold fat32_get_drive; apply andb_true_iff; rewrite Z.leb_le, Z.ltb_lt; lia).
  unfold fat32_read_sector at 1. cbn [v_fs set_fs blank_fs dev partition_start_lba]. rewrite Hg, Z.add_0_r, u32_small by lia. cbn [negb].
  cbn [v_disk set_fs]. destruct (bd_read_ok (v_disk s) dv lba Hd Hpres ltac:(lia)) as (d & -> & _ & _).
  assert (length sec = 512%nat) as Hlen.
  { unfold sec. rewrite length_bytes_of_words, (bd_sector_len (v_disk s)) by (done || lia). done. }
  assert (write_at (bpb_image dv lba) 0 sec = sec) as Ew.
  { unfold write_at. rewrite take_0, Hlen, drop_ge; [apply app_nil_r|]. by unfold bpb_image; rewrite !length_app, !length_replicate, !length_le_bytes. }
  fold sec. rewrite Ew. set (s1 := set_fs (read_bpb _ _) _). cbn [Z.eqb negb].
  repeat (case_if; [done|]). set (s2 := set_fs (geometry _) _).
  pose proof (read_sector_fs (field (bpb (v_fs s1)) 48 2) (replicate 512 0) 0 s2) as Ef.
  destruct (fat32_read_sector _ _ _ s2) as [[r info] s3]. cbn [snd] in Ef. set (f := if (r =? 0) && (field info 0 4 =? 0x41615252) && (field info 484 4 =? 0x61417272) then _ else v_fs s3).
  assert (dev f = i32 (field sec 123 4) /\ partition_start_lba f = i32 (field sec 127 4)) as [F1 F2].
  { unfold f. rewrite Ef. by destruct ((r =? 0) && (field info 0 4 =? 0x41615252) && (field info 484 4 =? 0x61417272)). }
  clearbody f. destruct (malloc NODE_CTX_SIZE _) as [[ctx s4]|] eqn:M1; [|done]. apply malloc_fs in M1. cbn [mbind option_bind].
  destruct (malloc VFS_NODE_SIZE s4) as [[rt s5]|] eqn:M2; [|done]. apply malloc_fs in M2. cbn [mbind option_bind].
  case_if; [destruct (free ctx s5) as [s6|]; [|done]; cbn [mbind option_bind]; by destruct (free rt s6)|].
  intros [= _ <-]. rewrite M2, M1. cbn. by rewrite F1, F2.
Qed.
End mounting.

(** ** Examples on a small disk

    Two drives of 64 sectors in memory.  The volume has five clusters of one
    sector behind a table of one sector; cluster 2 is the root directory. *)

Definition ram_disk := Z -> Z -> list Z.

Definition on_ram (lba : Z) : bool := (0 <=? lba) && (lba <? 64).

#[local] Instance ram_disks : BlockDev ram_disk.
Proof.
  refine {|
    bd_present i := (i =? 0) || (i =? 1);
    bd_read i lba d := if on_ram lba then (0, d i lba, d) else (-1, [], d);
    bd_write i lba ws d := if on_ram lba then (0, fun j k => if (j =? i) && (k =? lba) then ws else d j k) else (-1, d);
    bd_ok d := forall i lba, on_ram lba = true -> length (d i lba) = 256%nat;
    bd_size _ := 64;
    bd_sector d i lba := d i lba |}.
  - intros d i lba Hd _ Hl. apply Hd. unfold on_ram. apply andb_true_iff. rewrite Z.leb_le, Z.ltb_lt. lia.
  - intros d i lba Hd _ Hl. assert (on_ram lba = true) as -> by (unfold on_ram; apply andb_true_iff; rewrite Z.leb_le, Z.ltb_lt; lia). by exists d.
  - intros d i lba ws Hd _ Hl Hlen. assert (on_ram lba = true) as -> by (unfold on_ram; apply andb_true_iff; rewrite Z.leb_le, Z.ltb_lt; lia).
    eexists. split; [done|]. split; [|done]. intros j k Hk. cbn. case_if; [done|by apply Hd].
Defined.

Definition demo_boot : list Z :=
  words_of_bytes (replicate 11 0 ++ le_bytes 2 512 ++ [1] ++ le_bytes 2 1 ++ [1] ++ replicate 15 0 ++ le_bytes 4 7 ++
                  le_bytes 4 1 ++ replicate 4 0 ++ le_bytes 4 2 ++ replicate 464 0).
Definition demo_table (l : list Z) : list Z :=
  words_of_bytes (concat (map (le_bytes 4) l) ++ replicate (512 - 4 * length l) 0).
Definition demo_disk (table : list Z) : ram_disk :=
  fun _ lba => if lba =? 0 then demo_boot else if lba =? 1 then table else if lba =? 3 then replicate 256 7 else replicate 256 0.

Definition demo_heap : bump := Bump 4096 ∅ (2 ^ 30).
Definition demo_fs (hint : Z) : fat32_fs := FatFs true [] 1 2 2 1 512 5 5 hint 0 0 (replicate 512 0) NO_SECTOR false [].
Definition demo_vol (table : list Z) (hint : Z) : vol ram_disk bump := Vol (demo_fs hint) (demo_disk table) demo_heap None.

(** Only the root directory is in use. *)
Definition empty_table : list Z := demo_table [FAT32_EOC_MIN; FAT32_EOC; FAT32_EOC].
Definition demo_empty : vol ram_disk bump := demo_vol empty_table 2.
Definition demo_file : fat_node := FatNode (VfsNode [] VFS_FILE 0 0 0 0 0 0 0 0 0 1 0 0 0) 2 0.
Definition demo_root_dir : fat_node := FatNode (root_node 0 0) 2 0xFFFFFFFF.

Lemma demo_vol_ok table hint : length table = 256%nat -> 0 <= hint <= 7 -> vol_ok (demo_vol table hint).
Proof.
  intros Ht Hh. split; [| |by split; [done|by apply Forall_replicate|left|]|done].
  2: { intros i lba _. change (length (demo_disk table i lba) = 256%nat). unfold demo_disk. repeat case_if; (done || by vm_compute). }
  split; cbn; try done; unfold FAT32_EOC_MIN, NO_SECTOR; lia.
Qed.

Lemma demo_empty_ok : vol_ok demo_empty /\ k_inv (v_heap demo_empty).
Proof.
  split; [apply demo_vol_ok; [vm_compute; reflexivity|lia]|]. cbn. split; [lia|]. split; [lia|]. set_solver.
Qed.

Lemma demo_root_chain : chain_of demo_empty [2].
Proof. split; [split; vm_compute; congruence|]. vm_compute. congruence. Qed.


Lemma name83_roundtrip_witness :
  let '(n, e) := fat32_str_to_83 [82; 69; 65; 68; 77; 69; 46; 84; 88; 84] in
  fat32_83_to_str (new_dirent n e FAT_ATTR_ARCHIVE) = [82; 69; 65; 68; 77; 69; 46; 84; 88; 84].
Proof.
  apply (name83_roundtrip [82; 69; 65; 68; 77; 69] [84; 88; 84] FAT_ATTR_ARCHIVE); try (cbn; lia); repeat constructor; cbn; lia || done.
Defined.

Lemma lower_case_not_found_witness :
  strncmp (fat32_83_to_str (new_dirent (fat32_str_to_83 [97]).1 (fat32_str_to_83 [97]).2 FAT_ATTR_ARCHIVE)) [97] 255 <> 0.
Proof.
  apply (lower_case_not_found [97] FAT_ATTR_ARCHIVE); [repeat constructor; lia|cbn; lia|]. intros Hl. inversion Hl. discriminate.
Defined.


(** A directory with one entry, of a file in clusters 4 and 5. *)
Definition demo_entry : list Z := set_d_cluster 4 (file_entry [65]).
Definition demo_full : vol ram_disk bump :=
  Vol (demo_fs 2) (fun j k => if k =? 2 then words_of_bytes (demo_entry ++ replicate 480 0)
                              else demo_disk (demo_table [FAT32_EOC_MIN; FAT32_EOC; FAT32_EOC; 0; 5; FAT32_EOC]) j k) demo_heap None.

Lemma demo_full_ok : vol_ok demo_full /\ k_inv (v_heap demo_full).
Proof.
  destruct (demo_vol_ok (demo_table [FAT32_EOC_MIN; FAT32_EOC; FAT32_EOC; 0; 5; FAT32_EOC]) 2) as [G Hd B Hh]; [vm_compute; reflexivity|lia|].
  split; [|apply demo_empty_ok]. split; [exact G| |by split; [done|by apply Forall_replicate|left|]|exact Hh].
  intros i lba Hl. specialize (Hd i lba Hl). unfold demo_full, bd_ok, ram_disks, v_disk in *. destruct (lba =? 2); [by vm_compute|exact Hd].
Qed.


(** Mounting drive 1 leaves a volume that works on drive 0. *)
Lemma fat32_init_overruns_witness :
  exists root s', fat32_init 1 0 [47] (demo_vol empty_table 2) = Some (0, root, s') /\ dev (v_fs s') = 0 /\ partition_start_lba (v_fs s') = 0.
Proof.
  assert ((fun '(r, _, _) => r) <$> fat32_init 1 0 [47] (demo_vol empty_table 2) = Some 0) as Er by (vm_compute; reflexivity).
  destruct (fat32_init 1 0 [47] (demo_vol empty_table 2)) as [[[ret root] s']|] eqn:E; [|discriminate Er]. injection Er as ->.
  exists root, s'. split; [exact eq_refl|].
  destruct (fat32_init_overruns 1 0 [47] (demo_vol empty_table 2) root s') as [E1 E2];
    [apply demo_empty_ok|lia|exact eq_refl|lia|exact eq_refl|exact E|].
  split; [rewrite E1|rewrite E2]; vm_compute; reflexivity.
Defined.

(** ** The driver at work *)

(** A file is created, found, written over two clusters and read back. *)
Example create_write_read :
  (fun '(r, bytes, _) => (r, bytes)) <$>
    ('(_, s) ← _fat32_vfs_create demo_root_dir [65] demo_empty;
     '(found, s) ← _fat32_vfs_finddir demo_root_dir [65] s;
     node ← found;
     '(_, node, s) ← _fat32_vfs_write node 500 (replicate 30 9) s;
     _fat32_vfs_read node 498 100 s) = Some (32, [0; 0] ++ replicate 30 9).
Proof. vm_compute. reflexivity. Qed.

(** With a lower-case name the file is not found. *)
Example create_lower_case :
  (fun '(found, _) => match found with Some _ => true | None => false end) <$>
    ('(_, s) ← _fat32_vfs_create demo_root_dir [97] demo_empty; _fat32_vfs_finddir demo_root_dir [97] s) = Some false.
Proof. vm_compute. reflexivity. Qed.

(** A write that runs out of clusters sets the size of the file to the end of
    the bytes it was given, not of those it wrote. *)
Example short_write_size :
  (fun '(r, node, _) => (r, vn_size (fn_node node))) <$>
    _fat32_vfs_write demo_file 0 (replicate (Z.to_nat 3000) 9) demo_empty = Some (2048, 3000).
Proof. vm_compute. reflexivity. Qed.

(** The second scan of the allocator leaves the old bytes in the cluster ... *)
Example wrapped_cluster_not_zeroed :
  (fun '(c, s) => (c, firstn 2 (clu s c))) <$>
    fat32_alloc_cluster 0 (demo_vol (demo_table [FAT32_EOC_MIN; FAT32_EOC; FAT32_EOC; 0; FAT32_EOC; FAT32_EOC; FAT32_EOC]) 4) = Some (3, [7; 0]) /\
  (fun '(c, s) => (c, firstn 2 (clu s c))) <$> fat32_alloc_cluster 0 (demo_vol empty_table 3) = Some (3, [0; 0]).
Proof. split; vm_compute; reflexivity. Qed.

(** ... and runs past the last cluster when the hint of the volume does. *)
Example alloc_past_the_volume :
  (fun '(c, _) => (c, bool_decide (c < 7))) <$>
    fat32_alloc_cluster 0 (demo_vol (demo_table [FAT32_EOC_MIN; FAT32_EOC; FAT32_EOC; FAT32_EOC; FAT32_EOC; FAT32_EOC; FAT32_EOC]) 100) = Some (7, false).
Proof. vm_compute. reflexivity. Qed.
