(* ===== verification/Ramfs.v ===== *)
(** * RAM file system ([fs/ramfs.c])

    The root file system: nodes in the kernel heap, files as byte arrays that
    grow on a write, directories as arrays of at most 64 children.  The node
    store is a map from addresses; a node that has been freed is no longer in
    it.  The heap is the interface [KAlloc]; the bytes behind the pointer
    [data] are kept with the node, and [krealloc] keeps them ([HeapAlloc.v]).

    The functions return [None] where the code touches memory that is not
    theirs, and where [kpanic] is called.  Every bound of the code is
    checked by the model: an index into [children], and the bytes that
    [memcpy] reads or writes. *)

From S2P Require Import Prelude CString Bytes KAlloc Vfs.
From stdpp Require Import strings.
Local Open Scope Z_scope.
Local Open Scope c_scope.

(** ** Data *)

Definition RAMFS_MAX_CHILDREN : nat := 64.
#[global] Arguments RAMFS_MAX_CHILDREN : simpl never.
(** [sizeof(ramfs_node_t)] *)
Definition RAMFS_NODE_SIZE : Z := 896.

(** [ramfs_node_t]; [rn_bytes] are the [rn_capacity] bytes behind [rn_data],
    and [rn_children] the used part of the array, of length [child_count]. *)
Record ramfs_node := RamfsNode {
  rn_vnode : vfs_node;
  rn_data : Z;
  rn_bytes : list Z;
  rn_capacity : Z;
  rn_children : list Z;
  rn_parent : Z }.

Definition eta_rnode (r : ramfs_node) : ramfs_node :=
  RamfsNode (rn_vnode r) (rn_data r) (rn_bytes r) (rn_capacity r) (rn_children r) (rn_parent r).
Definition set_rn_vnode (r : ramfs_node) (v : vfs_node) : ramfs_node :=
  ltac:(set_field eta_rnode rn_vnode r v).
Definition set_rn_bytes (r : ramfs_node) (v : list Z) : ramfs_node :=
  ltac:(set_field eta_rnode rn_bytes r v).
Definition set_rn_children (r : ramfs_node) (v : list Z) : ramfs_node :=
  ltac:(set_field eta_rnode rn_children r v).

Definition rn_name (r : ramfs_node) : list Z := vn_name (rn_vnode r).

(** A string literal of the source. *)
Definition lit (s : string) : list Z :=
  map (fun a => Z.of_nat (Ascii.nat_of_ascii a)) (String.list_ascii_of_string s).

Section ramfs.
Context {A : Type} `{KAlloc A}.

(** The nodes, the static [dirent_buf], and the heap. *)
Record ramfs := Ramfs { rnodes : gmap Z ramfs_node; dirent_buf : vfs_dirent; kheap : A }.

Definition put_rnode (a : Z) (r : ramfs_node) (st : ramfs) : ramfs :=
  Ramfs (<[a := r]> (rnodes st)) (dirent_buf st) (kheap st).
Definition set_dirent_buf (d : vfs_dirent) (st : ramfs) : ramfs :=
  Ramfs (rnodes st) d (kheap st).
Definition set_kheap (h : A) (st : ramfs) : ramfs := Ramfs (rnodes st) (dirent_buf st) h.

(** The embedded VFS node is the first field: both have one address. *)
#[export] Instance ramfs_store : NodeStore ramfs := {|
  get_node st a := rn_vnode <$> rnodes st !! a;
  set_node a n st := Ramfs (alter (fun r => set_rn_vnode r n) a (rnodes st)) (dirent_buf st) (kheap st)
|}.

(** ** Files *)

Definition ramfs_read (node offset size : Z) (st : ramfs) : option (Z * list Z * ramfs) :=
  r ← rnodes st !! node;
  if rn_data r =? 0 then Some (0, [], st)
  else if vn_size (rn_vnode r) <=? u64 offset then Some (0, [], st)
  else
    let avail := u64 (vn_size (rn_vnode r) - u64 offset) in
    let to_read := if size <? avail then size else avail in
    if u64 offset + to_read <=? Z.of_nat (length (rn_bytes r)) then
      Some (i64 to_read, take (Z.to_nat to_read) (drop (Z.to_nat (u64 offset)) (rn_bytes r)), st)
    else None.

(** The capacity after growing. *)
Definition new_capacity (capacity new_end : Z) : Z :=
  let new_cap := Z.max new_end (u64 (capacity * 2)) in
  if new_cap <? 64 then 64 else new_cap.

(** Growing the buffer: the node with its new buffer, or [None] when there is
    no memory. *)
Definition ramfs_grow (r : ramfs_node) (new_end : Z) (h : A) : option (option ramfs_node * A) :=
  if rn_capacity r <? new_end then
    let new_cap := new_capacity (rn_capacity r) new_end in
    '(new_data, h) ← k_realloc (rn_data r) new_cap h;
    if new_data =? 0 then Some (None, h)
    else
      let bytes := if rn_capacity r <? new_cap
                   then rn_bytes r ++ replicate (Z.to_nat (new_cap - rn_capacity r)) 0
                   else rn_bytes r in
      Some (Some (RamfsNode (rn_vnode r) new_data bytes new_cap (rn_children r) (rn_parent r)), h)
  else Some (Some r, h).

Definition ramfs_write (node offset : Z) (buf : list Z) (st : ramfs) : option (Z * ramfs) :=
  r ← rnodes st !! node;
  let size := Z.of_nat (length buf) in
  let new_end := u64 (u64 offset + size) in
  '(g, h) ← ramfs_grow r new_end (kheap st);
  match g with
  | None => Some (- ENOMEM, set_kheap h st)
  | Some r =>
      if (size =? 0) || (u64 offset + size <=? Z.of_nat (length (rn_bytes r))) then
        let r := if size =? 0 then r
                 else set_rn_bytes r (write_at (rn_bytes r) (Z.to_nat (u64 offset)) buf) in
        let n := rn_vnode r in
        let n := if vn_size n <? new_end then set_vn_size n new_end else n in
        Some (i64 size, put_rnode node (set_rn_vnode r n) (set_kheap h st))
      else None
  end.

(** ** Directories *)

(** The loop over the children: the first one with this name, and its index. *)
Fixpoint find_child (nodes : gmap Z ramfs_node) (i : nat) (cs name : list Z) : option (option (nat * Z)) :=
  match cs with
  | [] => Some None
  | c :: cs =>
      r ← nodes !! c;
      if strcmp (rn_name r) name =? 0 then Some (Some (i, c)) else find_child nodes (S i) cs name
  end.

Definition ramfs_finddir (node : Z) (name : list Z) (st : ramfs) : option (Z * ramfs) :=
  r ← rnodes st !! node;
  f ← find_child (rnodes st) 0 (rn_children r) name;
  Some (match f with Some (_, c) => c | None => 0 end, st).

Definition ramfs_readdir (node index : Z) (st : ramfs) : option (option vfs_dirent * ramfs) :=
  r ← rnodes st !! node;
  let d := dirent_buf st in
  if index =? 0 then
    let d := VfsDirent (strcpy (de_name d) [46]) (vn_inode (rn_vnode r)) VFS_DIRECTORY (de_size d) in
    Some (Some d, set_dirent_buf d st)
  else if index =? 1 then
    inode ← (if rn_parent r =? 0 then Some (vn_inode (rn_vnode r))
             else p ← rnodes st !! rn_parent r; Some (vn_inode (rn_vnode p)));
    let d := VfsDirent (strcpy (de_name d) [46; 46]) inode VFS_DIRECTORY (de_size d) in
    Some (Some d, set_dirent_buf d st)
  else
    let child_idx := i32 (u32 (index - 2)) in
    if Z.of_nat (length (rn_children r)) <=? child_idx then Some (None, st)
    else if child_idx <? 0 then None
    else
      c ← rn_children r !! Z.to_nat child_idx;
      child ← rnodes st !! c;
      let d := VfsDirent (strncpy (de_name d) (rn_name child) VFS_NAME_MAX)
                 (vn_inode (rn_vnode child)) (vn_flags (rn_vnode child)) (de_size d) in
      Some (Some d, set_dirent_buf d st).

(** A zeroed node with its name, flags, mode, inode number and operations. *)
Definition new_vnode (name : list Z) (flags mode inode ops : Z) : vfs_node :=
  VfsNode (strncpy_bytes name VFS_NAME_MAX ++ [0]) flags mode 0 0 0 inode 0 0 0 0 ops 0 0 0.

(** The common text of [ramfs_mkdir] and [ramfs_create]. *)
Definition add_child (flags parent : Z) (name : list Z) (mode : Z) (st : ramfs) : option (Z * ramfs) :=
  '(found, st) ← ramfs_finddir parent name st;
  if negb (found =? 0) then Some (0, st)
  else
    p ← rnodes st !! parent;
    if (RAMFS_MAX_CHILDREN <=? length (rn_children p))%nat then Some (- ENOSPC, st)
    else
      '(child, h) ← k_malloc RAMFS_NODE_SIZE (kheap st);
      let st := set_kheap h st in
      if child =? 0 then Some (- ENOMEM, st)
      else
        let st := put_rnode child
                    (RamfsNode (new_vnode name flags mode child (vn_ops (rn_vnode p))) 0 [] 0 [] parent) st in
        p ← rnodes st !! parent;
        Some (0, put_rnode parent (set_rn_children p (rn_children p ++ [child])) st).

Definition ramfs_mkdir (parent : Z) (name : list Z) (mode : Z) (st : ramfs) : option (Z * ramfs) :=
  add_child VFS_DIRECTORY parent name mode st.

Definition ramfs_create (parent : Z) (name : list Z) (mode : Z) (st : ramfs) : option (Z * ramfs) :=
  add_child VFS_FILE parent name mode st.

Definition ramfs_unlink (parent : Z) (name : list Z) (st : ramfs) : option (Z * ramfs) :=
  p ← rnodes st !! parent;
  f ← find_child (rnodes st) 0 (rn_children p) name;
  match f with
  | None => Some (- ENOENT, st)
  | Some (i, victim) =>
      v ← rnodes st !! victim;
      h ← (if rn_data v =? 0 then Some (kheap st) else k_free (rn_data v) (kheap st));
      h ← k_free victim h;
      let st := Ramfs (delete victim (rnodes st)) (dirent_buf st) h in
      p ← rnodes st !! parent;
      Some (0, put_rnode parent (set_rn_children p (delete i (rn_children p))) st)
  end.

(** ** The table of operations *)

(** The address of the static [ramfs_ops]; any address but 0 would do. *)
Definition RAMFS_OPS : Z := 1.

Definition ramfs_ops : vfs_ops ramfs := {|
  op_read := Some ramfs_read;
  op_write := Some ramfs_write;
  op_finddir := Some ramfs_finddir;
  op_readdir := Some ramfs_readdir;
  op_mkdir := Some ramfs_mkdir;
  op_create := Some ramfs_create;
  op_unlink := Some ramfs_unlink;
  op_open := None;
  op_close := None |}.

(** ** The initial tree *)

Definition ramfs_add_file (parent : Z) (name data : list Z) (mode : Z) (st : ramfs) : option ramfs :=
  '(_, st) ← ramfs_create parent name mode st;
  '(file, st) ← ramfs_finddir parent name st;
  if negb (file =? 0) && negb (length data =? 0)%nat then
    '(_, st) ← ramfs_write file 0 data st; Some st
  else Some st.

(** [ramfs_mkdir] for each of the names, results ignored. *)
Fixpoint mkdirs (parent : Z) (dirs : list (list Z * Z)) (st : ramfs) : option ramfs :=
  match dirs with
  | [] => Some st
  | (name, mode) :: dirs => '(_, st) ← ramfs_mkdir parent name mode st; mkdirs parent dirs st
  end.

(** [vfs_node_t* d = ramfs_finddir(parent, name); if (d) { ... }] *)
Definition in_dir (parent : Z) (name : list Z) (body : Z -> ramfs -> option ramfs) (st : ramfs) : option ramfs :=
  '(d, st) ← ramfs_finddir parent name st;
  if d =? 0 then Some st else body d st.

Definition motd : list Z :=
  [10] ++ lit "Welcome to AetherOS!" ++ [10] ++
  lit "A 64-bit operating system written in C and Assembly." ++ [10] ++
  lit "Type 'help' for a list of commands." ++ [10; 10].
Definition hostname : list Z := lit "aetheros" ++ [10].

Definition MODE_0777 : Z := 0x1FF.
Definition MODE_0700 : Z := 0x1C0.
Definition MODE_0666 : Z := 0x1B6.
Definition MODE_0555 : Z := 0x16D.
Definition MODE_0444 : Z := 0x124.

(** The parts of [ramfs_create_root] after the root node. *)
Definition root_dirs : list (list Z * Z) :=
  [(lit "bin", MODE_0755); (lit "etc", MODE_0755); (lit "dev", MODE_0755);
   (lit "proc", MODE_0555); (lit "tmp", MODE_0777); (lit "home", MODE_0755)].
Definition home_dirs : list (list Z * Z) := [(lit "user", MODE_0755)].
Definition more_dirs : list (list Z * Z) :=
  [(lit "var", MODE_0755); (lit "usr", MODE_0755); (lit "sys", MODE_0755)].
Definition sys_dirs : list (list Z * Z) :=
  [(lit "pkg", MODE_0755); (lit "users", MODE_0700); (lit "packages", MODE_0755)].
Definition pkg_dirs : list (list Z * Z) := [(lit "cache", MODE_0755)].

Definition populate_sys (sys : Z) (st : ramfs) : option ramfs :=
  st ← mkdirs sys sys_dirs st;
  in_dir sys (lit "packages") (fun pkgs => mkdirs pkgs pkg_dirs) st.

Definition populate_etc (etc : Z) (st : ramfs) : option ramfs :=
  st ← ramfs_add_file etc (lit "motd") motd MODE_0444 st;
  ramfs_add_file etc (lit "hostname") hostname MODE_0444 st.

Definition populate_dev (dev : Z) (st : ramfs) : option ramfs :=
  st ← snd <$> ramfs_create dev (lit "null") MODE_0666 st;
  snd <$> ramfs_create dev (lit "zero") MODE_0666 st.

Definition populate_root (root : Z) (st : ramfs) : option ramfs :=
  st ← mkdirs root root_dirs st;
  st ← in_dir root (lit "home") (fun home => mkdirs home home_dirs) st;
  st ← mkdirs root more_dirs st;
  st ← in_dir root (lit "sys") populate_sys st;
  st ← in_dir root (lit "etc") populate_etc st;
  in_dir root (lit "dev") populate_dev st.

Definition ramfs_create_root (st : ramfs) : option (Z * ramfs) :=
  '(root, h) ← k_malloc RAMFS_NODE_SIZE (kheap st);
  if root =? 0 then None
  else
    let st := put_rnode root (RamfsNode (new_vnode [47] VFS_DIRECTORY MODE_0755 1 RAMFS_OPS) 0 [] 0 [] root)
                (set_kheap h st) in
    st ← populate_root root st;
    Some (root, st).
End ramfs.
Arguments ramfs : clear implicits.
