(* ===== verification/RamfsInv.v ===== *)
(** * The RAM file system: invariant and behaviour of the operations

    The tree invariant of [Ramfs.v], that every operation keeps it, what each
    operation does to the tree and to the contents of the files, and the
    composition with the path layer of [Vfs.v]. *)

From S2P Require Import Prelude CString Bytes KAlloc Vfs Ramfs.
From stdpp Require Import strings.
Local Open Scope Z_scope.
Local Open Scope c_scope.

Lemma alter_at {V} (m : gmap Z V) (f : V -> V) a r : m !! a = Some r -> alter f a m = <[a := f r]> m.
Proof.
  intros Ha. apply map_eq. intros b. destruct (decide (a = b)) as [<-|Hne].
  - by rewrite lookup_alter_eq, lookup_insert_eq, Ha.
  - by rewrite lookup_alter_ne, lookup_insert_ne.
Qed.

(** ** Nodes *)

(** The contents of a file: the bytes up to its size. *)
Definition contents (r : ramfs_node) : list Z := take (Z.to_nat (vn_size (rn_vnode r))) (rn_bytes r).

(** The spare bytes of the buffer are zero. *)
Definition clean (r : ramfs_node) : Prop :=
  Forall (eq 0) (drop (Z.to_nat (vn_size (rn_vnode r))) (rn_bytes r)).

(** The reference for a write: the gap up to the offset is filled with zeros. *)
Definition write_file (f : list Z) (off : nat) (buf : list Z) : list Z :=
  take off (f ++ replicate (off - length f) 0) ++ buf ++ drop (off + length buf) f.

Record node_ok (r : ramfs_node) : Prop := {
  nk_name : byte_list (rn_name r);
  nk_bytes : Z.of_nat (length (rn_bytes r)) = rn_capacity r;
  nk_data : rn_data r = 0 -> rn_capacity r = 0;
  nk_size : 0 <= vn_size (rn_vnode r) <= rn_capacity r;
  nk_cap : rn_capacity r <= K_MAX;
  nk_ops : vn_ops (rn_vnode r) = RAMFS_OPS }.

(** The name of a child, as [strcmp] sees it. *)
Definition child_name (nodes : gmap Z ramfs_node) (c : Z) : list Z :=
  match nodes !! c with Some r => c_str (rn_name r) | None => [] end.

(** One directory: its children are there, know their parent, and have
    different names. *)
Record dir_ok (nodes : gmap Z ramfs_node) (a : Z) (cs : list Z) : Prop := {
  dk_child c : c ∈ cs -> c <> a /\ exists rc, nodes !! c = Some rc /\ rn_parent rc = a;
  dk_names : NoDup (child_name nodes <$> cs);
  dk_count : (length cs <= RAMFS_MAX_CHILDREN)%nat }.

Section inv.
Context {A : Type} `{KAllocLaws A}.
Implicit Types (st : ramfs A) (r : ramfs_node) (a c : Z).

Record fs_ok st : Prop := {
  fk_heap : k_inv (kheap st);
  fk_node a r : rnodes st !! a = Some r -> node_ok r;
  fk_live a r : rnodes st !! a = Some r -> k_live (kheap st) a;
  fk_data a r : rnodes st !! a = Some r -> rn_data r <> 0 -> k_live (kheap st) (rn_data r);
  fk_apart a r : rnodes st !! a = Some r -> rn_data r <> 0 -> rnodes st !! rn_data r = None;
  fk_owner a r b r' : rnodes st !! a = Some r -> rnodes st !! b = Some r' -> a <> b ->
    rn_data r <> 0 -> rn_data r <> rn_data r';
  fk_dir a r : rnodes st !! a = Some r -> dir_ok (rnodes st) a (rn_children r) }.

Lemma fs_nonzero st a r : fs_ok st -> rnodes st !! a = Some r -> a <> 0.
Proof.
  intros I Ha ->. pose proof (live_range _ _ (fk_heap _ I) (fk_live _ I _ _ Ha)). lia.
Qed.

(** ** Looking up a name *)

Lemma find_child_spec (nodes : gmap Z ramfs_node) i cs name :
  (forall c, c ∈ cs -> exists rc, nodes !! c = Some rc /\ byte_list (rn_name rc)) -> byte_list name ->
  exists f, find_child nodes i cs name = Some f /\
    match f with
    | None => c_str name ∉ child_name nodes <$> cs
    | Some (j, c) => exists k, j = (i + k)%nat /\ cs !! k = Some c /\ child_name nodes c = c_str name
    end.
Proof.
  intros Hcs Hn. revert i. induction cs as [|c cs IH]; intros i; cbn [find_child].
  { exists None. split; [done|]. apply not_elem_of_nil. }
  destruct (Hcs c ltac:(left)) as (rc & Hc & Hb). rewrite Hc. cbn.
  assert (child_name nodes c = c_str (rn_name rc)) as Ec by (unfold child_name; by rewrite Hc).
  destruct (Z.eqb_spec (strcmp (rn_name rc) name) 0) as [E|E].
  - exists (Some (i, c)). split; [done|]. exists 0%nat. rewrite Ec. split_and!; [lia|done|].
    by apply strcmp_0.
  - destruct (IH ltac:(intros; apply Hcs; by right) (S i)) as (f & -> & Hf). exists f. split; [done|].
    destruct f as [[j c']|].
    + destruct Hf as (k & -> & Hk & Hnm). exists (S k). split_and!; [lia|done|done].
    + cbn; rewrite not_elem_of_cons. split; [|done]. rewrite Ec. intros E'. apply E.
      by apply strcmp_0.
Qed.

Lemma dir_children st a r c :
  fs_ok st -> rnodes st !! a = Some r -> c ∈ rn_children r ->
  exists rc, rnodes st !! c = Some rc /\ byte_list (rn_name rc).
Proof.
  intros I Ha Hc. destruct (dk_child _ _ _ (fk_dir _ I _ _ Ha) c Hc) as (_ & rc & Hrc & _).
  exists rc. split; [done|]. apply (nk_name _ (fk_node _ I _ _ Hrc)).
Qed.

(** [c] is the entry [name] of the directory [a]. *)
Definition entry st a (name : list Z) c : Prop :=
  exists r, rnodes st !! a = Some r /\ c ∈ rn_children r /\ child_name (rnodes st) c = c_str name.

Lemma find_child_entry st a r name :
  fs_ok st -> rnodes st !! a = Some r -> byte_list name ->
  exists f, find_child (rnodes st) 0 (rn_children r) name = Some f /\
    match f with
    | None => forall c, ~ entry st a name c
    | Some (k, c) => rn_children r !! k = Some c /\ c <> 0 /\ forall c', entry st a name c' <-> c' = c
    end.
Proof.
  intros I Ha Hn. pose proof (fk_dir _ I _ _ Ha) as Hd.
  destruct (find_child_spec (rnodes st) 0 (rn_children r) name) as (f & -> & Hf); [|done|].
  { intros c Hc. by apply (dir_children st a r). }
  exists f. split; [done|]. destruct f as [[k c]|].
  - destruct Hf as (k0 & -> & Hk & Hnm). cbn. pose proof (list_elem_of_lookup_2 _ _ _ Hk) as Hc.
    destruct (dk_child _ _ _ Hd c Hc) as (_ & rc & Hrc & _).
    split_and!; [done|by apply (fs_nonzero st c rc)|]. intros c'. split.
    + intros (r' & Hr' & Hc' & Hnm'). simplify_eq.
      apply list_elem_of_lookup_1 in Hc' as [k' Hk']. 
      assert (k0 = k') as -> by (apply (NoDup_lookup _ _ _ (c_str name) (dk_names _ _ _ Hd));
        rewrite list_lookup_fmap; [rewrite Hk|rewrite Hk']; cbn; congruence).
      congruence.
    + intros ->. by exists r.
  - intros c (r' & Hr' & Hc' & Hnm'). simplify_eq. apply Hf. rewrite <- Hnm'. by apply list_elem_of_fmap_2.
Qed.

(** [finddir] returns the entry, and null exactly when there is none. *)
Lemma ramfs_finddir_spec st a r name :
  fs_ok st -> rnodes st !! a = Some r -> byte_list name ->
  exists c, ramfs_finddir a name st = Some (c, st) /\
    if c =? 0 then forall c', ~ entry st a name c' else forall c', entry st a name c' <-> c' = c.
Proof.
  intros I Ha Hn. destruct (find_child_entry st a r name I Ha Hn) as (f & Ef & Hf).
  unfold ramfs_finddir. rewrite Ha. cbn. rewrite Ef. cbn. destruct f as [[k c]|].
  - exists c. destruct Hf as (_ & Hc & Hx). rewrite (proj2 (Z.eqb_neq c 0) Hc). done.
  - by exists 0.
Qed.
(** ** Updates that keep the tree *)

Lemma dir_ok_ext (nodes nodes' : gmap Z ramfs_node) a cs :
  dir_ok nodes a cs ->
  (forall c rc, c ∈ cs -> nodes !! c = Some rc ->
     exists rc', nodes' !! c = Some rc' /\ rn_name rc' = rn_name rc /\ rn_parent rc' = rn_parent rc) ->
  dir_ok nodes' a cs.
Proof.
  intros D Hx. split.
  - intros c Hc. destruct (dk_child _ _ _ D c Hc) as (Hne & rc & Hrc & Hp). split; [done|].
    destruct (Hx c rc Hc Hrc) as (rc' & ? & _ & ?). exists rc'. split; congruence.
  - enough (child_name nodes' <$> cs = child_name nodes <$> cs) as -> by apply D.
    apply list_fmap_ext. intros k c Hk%list_elem_of_lookup_2.
    destruct (dk_child _ _ _ D c Hk) as (_ & rc & Hrc & _).
    destruct (Hx c rc Hk Hrc) as (rc' & Hrc' & Hn & _). unfold child_name. by rewrite Hrc, Hrc', Hn.
  - apply D.
Qed.

(** A node replaced by one with the same name, children and parent. *)
Lemma fs_ok_update st d a r r' h' :
  fs_ok st -> rnodes st !! a = Some r ->
  rn_name r' = rn_name r -> rn_children r' = rn_children r -> rn_parent r' = rn_parent r ->
  node_ok r' -> k_inv h' ->
  (forall q, k_live (kheap st) q -> q <> rn_data r -> k_live h' q) ->
  (rn_data r' <> 0 -> k_live h' (rn_data r')) ->
  (rn_data r' = rn_data r \/ ~ k_live (kheap st) (rn_data r')) ->
  fs_ok (Ramfs (<[a := r']> (rnodes st)) d h').
Proof.
  intros I Ha En Ec Ep Hr' Hh Hl Hd Hfresh.
  assert (forall b rb, rnodes st !! b = Some rb -> b <> rn_data r) as Hnd.
  { intros b rb Hb ->. pose proof (fs_nonzero st _ _ I Hb) as Hnz.
    rewrite (fk_apart _ I _ _ Ha Hnz) in Hb. done. }
  split; cbn [rnodes kheap]; try done.
  - intros b rb [[<- <-]|[Hne Hb]]%lookup_insert_Some; [done|]. by apply (fk_node _ I b).
  - intros b rb [[<- <-]|[Hne Hb]]%lookup_insert_Some.
    + apply Hl; [by apply (fk_live _ I a r)|by apply (Hnd a r)].
    + apply Hl; [by apply (fk_live _ I b rb)|by apply (Hnd b rb)].
  - intros b rb [[<- <-]|[Hne Hb]]%lookup_insert_Some; [done|]. intros Hnz.
    apply Hl; [by apply (fk_data _ I b rb)|by apply (fk_owner _ I b rb a r)].
  - intros b rb [[<- <-]|[Hne Hb]]%lookup_insert_Some Hnz.
    + destruct Hfresh as [E|Hf].
      * rewrite E in *. rewrite lookup_insert_ne by (by apply (Hnd a r)). by apply (fk_apart _ I a r).
      * destruct (decide (a = rn_data r')) as [E|E].
        { exfalso. apply Hf. rewrite <- E. by apply (fk_live _ I a r). }
        rewrite lookup_insert_ne by done. apply eq_None_not_Some. intros [x Hx].
        apply Hf. by apply (fk_live _ I _ x).
    + pose proof (fk_apart _ I _ _ Hb Hnz). rewrite lookup_insert_ne; [done|]. intros ->. congruence.
  - intros b rb b' rb' [[<- <-]|[Hne Hb]]%lookup_insert_Some [[<- <-]|[Hne' Hb']]%lookup_insert_Some Hbb Hnz;
      [done| | |by apply (fk_owner _ I b rb b' rb')].
    + destruct Hfresh as [E|Hf]; [rewrite E in *; by apply (fk_owner _ I a r b' rb')|].
      intros E. apply Hf. rewrite E in *. by apply (fk_data _ I b' rb').
    + destruct Hfresh as [E|Hf]; [rewrite E in *; by apply (fk_owner _ I b rb a r)|].
      intros E. apply Hf. rewrite <- E in *. by apply (fk_data _ I b rb).
  - intros b rb Hb. assert (exists rb0, rnodes st !! b = Some rb0 /\ rn_children rb = rn_children rb0)
      as (rb0 & Hb0 & ->).
    { apply lookup_insert_Some in Hb as [[<- <-]|[Hne Hb]]; [by exists r|by exists rb]. }
    apply (dir_ok_ext (rnodes st)); [by apply (fk_dir _ I)|]. intros c rc Hc Hrc.
    destruct (decide (c = a)) as [->|Hca].
    + exists r'. rewrite lookup_insert_eq. simplify_eq. done.
    + exists rc. by rewrite lookup_insert_ne.
Qed.

(** Assignments to the fields of the embedded node. *)
Lemma fs_ok_set_node st a n n' :
  fs_ok st -> get_node st a = Some n -> vn_name n' = vn_name n -> vn_ops n' = vn_ops n ->
  0 <= vn_size n' <= vn_size n ->
  fs_ok (set_node a n' st).
Proof.
  intros I Hn En Eo Hs. cbn in Hn. apply fmap_Some in Hn as (r & Ha & ->). cbn.
  rewrite (alter_at _ _ _ _ Ha).
  pose proof (fk_node _ I _ _ Ha) as K.
  apply (fs_ok_update st _ a r); try done; [|apply I| |by left].
  - split; cbn; [unfold rn_name; cbn; rewrite En; apply K|apply K|apply K| |apply K|rewrite Eo; apply K].
    pose proof (nk_size _ K). lia.
  - cbn. by apply (fk_data _ I a).
Qed.

(** ** Reading and writing *)

(** The largest offset a write of the laws reaches. *)
Definition FILE_MAX : Z := 2 ^ 39.

Lemma new_capacity_spec cap new_end :
  0 <= cap < new_end -> new_end <= FILE_MAX ->
  cap < new_capacity cap new_end <= K_MAX /\ new_end <= new_capacity cap new_end /\ 0 < new_capacity cap new_end.
Proof.
  unfold new_capacity, FILE_MAX, K_MAX. intros Hc Hn. rewrite u64_small by lia.
  case_if; bools; lia.
Qed.

(** The node can be written up to [new_end]: the buffer is large enough or the
    heap can serve the request. *)
Definition growable st r (new_end : Z) : Prop :=
  rn_capacity r < new_end -> k_resizable (kheap st) (rn_data r) (new_capacity (rn_capacity r) new_end).

Lemma ramfs_grow_spec st a r new_end :
  fs_ok st -> rnodes st !! a = Some r -> 0 <= new_end <= FILE_MAX -> growable st r new_end ->
  exists g h', ramfs_grow r new_end (kheap st) = Some (g, h') /\ k_inv h' /\
    match g with
    | None => forall q, k_live h' q <-> k_live (kheap st) q
    | Some r' =>
        rn_vnode r' = rn_vnode r /\ rn_children r' = rn_children r /\ rn_parent r' = rn_parent r /\
        new_end <= rn_capacity r' /\ (exists k, rn_bytes r' = rn_bytes r ++ replicate k 0) /\ node_ok r' /\
        (forall q, k_live (kheap st) q -> q <> rn_data r -> k_live h' q) /\
        (rn_data r' <> 0 -> k_live h' (rn_data r')) /\
        (rn_data r' = rn_data r \/ ~ k_live (kheap st) (rn_data r'))
    end.
Proof.
  intros I Ha Hne Hg. pose proof (fk_node _ I _ _ Ha) as K. unfold ramfs_grow.
  destruct (Z.ltb_spec (rn_capacity r) new_end) as [Hlt|Hge].
  2:{ exists (Some r), (kheap st). split; [done|]. split; [apply I|].
      split_and!; try done; [exists 0%nat; by rewrite app_nil_r| |by left]. by apply (fk_data _ I a). }
  pose proof (nk_size _ K). pose proof (nk_bytes _ K) as Hb.
  destruct (new_capacity_spec (rn_capacity r) new_end) as (C1 & C2 & C3); [lia|lia|].
  specialize (Hg Hlt). set (cap := new_capacity _ _) in *. clearbody cap.
  destruct (realloc_spec (kheap st) (rn_data r) cap (fk_heap _ I)) as (q & h' & -> & Hi & Hq);
    [lia| |done|]. { destruct (decide (rn_data r = 0)); [by left|right; by apply (fk_data _ I a)]. }
  cbn [mbind option_bind]. destruct Hq as [(-> & Hq)|(Hq0 & Hq & Hl)].
  { by exists None, h'. }
  rewrite (proj2 (Z.eqb_neq q 0) Hq0). rewrite (proj2 (Z.ltb_lt (rn_capacity r) cap)) by lia.
  eexists (Some _), h'. split; [done|]. split; [done|]. cbn.
  split_and!; try done; [by eexists| | |].
  - split; cbn; [apply K| |done|lia|lia|apply K]. rewrite length_app, length_replicate. lia.
  - intros x Hx Hxd. apply Hl. by right.
  - intros _. apply Hl. by left.
Qed.

Lemma zeros_split (bytes : list Z) s :
  (s <= length bytes)%nat -> Forall (eq 0) (drop s bytes) ->
  bytes = take s bytes ++ replicate (length bytes - s) 0.
Proof.
  intros Hs Hz. rewrite <- (take_drop s bytes) at 1. f_equal. symmetry. apply replicate_as_Forall.
  rewrite length_drop. split; [done|]. eapply Forall_impl; [exact Hz|]. done.
Qed.

(** Writing into a buffer with a zero tail writes the file. *)
Lemma write_at_file (f : list Z) z off buf :
  (off + length buf <= length f + z)%nat ->
  write_at (f ++ replicate z 0) off buf =
  write_file f off buf ++ replicate (length f + z - Nat.max (length f) (off + length buf)) 0.
Proof.
  intros Hl. unfold write_at, write_file. rewrite !take_app, drop_app, !take_replicate, drop_replicate.
  rewrite Nat.min_l by lia. rewrite Nat.min_id. rewrite <- !app_assoc. do 5 f_equal. lia.
Qed.

Lemma length_write_file f off buf :
  length (write_file f off buf) = Nat.max (length f) (off + length buf).
Proof.
  unfold write_file. rewrite !length_app, length_take, length_app, length_replicate, length_drop. lia.
Qed.
Lemma i64_small x : 0 <= x < 2 ^ 63 -> i64 x = x.
Proof. intros Hx. unfold i64. rewrite Z.mod_small; lia. Qed.

(** What a write does to the bytes, whatever lies behind the end of the file. *)
Lemma ramfs_write_bytes st a r off buf :
  let stop := off + Z.of_nat (length buf) in
  fs_ok st -> rnodes st !! a = Some r -> 0 <= off -> stop <= FILE_MAX -> growable st r stop ->
  exists ret st', ramfs_write a off buf st = Some (ret, st') /\ fs_ok st' /\
    ((ret = - ENOMEM /\ rnodes st' = rnodes st) \/
     (ret = Z.of_nat (length buf) /\ exists r' k, rnodes st' = <[a := r']> (rnodes st) /\
        (Z.to_nat stop <= length (rn_bytes r) + k)%nat /\
        rn_bytes r' = write_at (rn_bytes r ++ replicate k 0) (Z.to_nat off) buf /\
        rn_vnode r' = set_vn_size (rn_vnode r) (Z.max (vn_size (rn_vnode r)) stop) /\
        rn_children r' = rn_children r /\ rn_parent r' = rn_parent r)).
Proof.
  intros stop I Ha Hoff Hs Hg. unfold ramfs_write. rewrite Ha. cbn [mbind option_bind]. cbv zeta.
  assert (FILE_MAX < 2 ^ 63) as Hm by done. rewrite (u64_small off) by lia. fold stop.
  rewrite (u64_small stop) by lia. rewrite i64_small by lia.
  destruct (ramfs_grow_spec st a r stop I Ha ltac:(lia) Hg) as (g & h' & -> & Hi & Hgr). cbn [mbind option_bind].
  destruct g as [r1|].
  2:{ eexists _, _. split; [done|]. split; [|by left]. destruct I. split; cbn; try done; naive_solver. }
  destruct Hgr as (E1 & E2 & E3 & Hcap & (k & Eb) & K & Hl & Hd & Hf). pose proof (nk_bytes _ K) as Hlen.
  assert (stop <= Z.of_nat (length (rn_bytes r1))) as Hin by lia.
  rewrite (proj2 (Z.leb_le _ _) Hin), orb_true_r. eexists _, _. split; [done|].
  set (r2 := if Z.of_nat (length buf) =? 0 then r1 else _).
  assert (r2 = set_rn_bytes r1 (write_at (rn_bytes r1) (Z.to_nat off) buf)) as E.
  { subst r2. destruct buf as [|x buf]; [|done]. cbn. unfold write_at. cbn.
    rewrite Nat.add_0_r, take_drop. by destruct r1. }
  clearbody r2. subst r2. cbn [rn_vnode set_rn_bytes].
  set (n := if vn_size (rn_vnode r1) <? stop then _ else _).
  assert (n = set_vn_size (rn_vnode r) (Z.max (vn_size (rn_vnode r)) stop)) as E.
  { subst n. rewrite E1. destruct (Z.ltb_spec (vn_size (rn_vnode r)) stop).
    - by rewrite Z.max_r by lia.
    - rewrite Z.max_l by lia. by destruct (rn_vnode r). }
  clearbody n. subst n. split.
  - apply (fs_ok_update st _ a r); try done.
    pose proof (nk_size _ K) as Hsz. rewrite E1 in Hsz.
    split; cbn; [|rewrite length_write_at by lia; done|apply K|lia|apply K|rewrite <- E1; apply K].
    pose proof (nk_name _ K) as Hnm. unfold rn_name in *. by rewrite E1 in Hnm.
  - right. split; [done|]. eexists _, k. split; [done|]. rewrite <- Eb. split_and!; try done.
    pose proof (f_equal length Eb) as Hle. rewrite length_app, length_replicate in Hle. lia.
Qed.

Lemma ramfs_write_spec st a r off buf :
  let stop := off + Z.of_nat (length buf) in
  fs_ok st -> rnodes st !! a = Some r -> clean r -> 0 <= off -> stop <= FILE_MAX -> growable st r stop ->
  exists ret st', ramfs_write a off buf st = Some (ret, st') /\ fs_ok st' /\
    ((ret = - ENOMEM /\ rnodes st' = rnodes st) \/
     (ret = Z.of_nat (length buf) /\ exists r', rnodes st' = <[a := r']> (rnodes st) /\
        contents r' = write_file (contents r) (Z.to_nat off) buf /\ clean r' /\
        rn_vnode r' = set_vn_size (rn_vnode r) (Z.of_nat (length (contents r'))) /\
        rn_children r' = rn_children r /\ rn_parent r' = rn_parent r)).
Proof.
  intros stop I Ha Hc Hoff Hs Hg.
  destruct (ramfs_write_bytes st a r off buf I Ha Hoff Hs Hg) as (ret & st' & E & I' & Hr).
  exists ret, st'. split; [done|]. split; [done|]. destruct Hr as [?|(Er & r' & k & E1 & E2 & E3 & E4 & E5)]; [by left|].
  right. split; [done|]. exists r'. split; [done|].
  pose proof (fk_node _ I _ _ Ha) as K. pose proof (nk_bytes _ K) as Hb. pose proof (nk_size _ K) as Hz.
  set (s := Z.to_nat (vn_size (rn_vnode r))) in *.
  assert (length (contents r) = s) as Hlc by (unfold contents; rewrite length_take; lia).
  assert (rn_bytes r ++ replicate k 0 = contents r ++ replicate (length (rn_bytes r) - s + k) 0) as Eb.
  { rewrite replicate_add, app_assoc. f_equal. unfold contents. fold s. apply zeros_split; [lia|done]. }
  rewrite Eb, write_at_file in E3 by lia. fold stop in E4.
  assert (Z.to_nat (vn_size (rn_vnode r')) = length (write_file (contents r) (Z.to_nat off) buf)) as Hsz.
  { rewrite length_write_file, E4, Hlc. cbn [vn_size set_vn_size]. lia. }
  assert (contents r' = write_file (contents r) (Z.to_nat off) buf) as Ec.
  { unfold contents at 1. by rewrite Hsz, E3, take_app_length. }
  split_and!; [done| | |tauto|tauto].
  - unfold clean. rewrite Hsz, E3, drop_app_length. by apply Forall_replicate.
  - rewrite Ec, <- Hsz, E4. cbn [vn_size set_vn_size]. by rewrite Z2Nat.id by lia.
Qed.

(** A read returns the bytes of the file from the offset on. *)
Lemma ramfs_read_spec st a r off size :
  fs_ok st -> rnodes st !! a = Some r -> 0 <= off < 2 ^ 64 -> 0 <= size ->
  let got := take (Z.to_nat size) (drop (Z.to_nat off) (contents r)) in
  ramfs_read a off size st = Some (Z.of_nat (length got), got, st).
Proof.
  intros I Ha Ho Hs got. pose proof (fk_node _ I _ _ Ha) as K. pose proof (nk_bytes _ K) as Hb.
  pose proof (nk_size _ K) as Hz. pose proof (nk_cap _ K) as Hc. assert (K_MAX < 2 ^ 63) as Hm by done.
  unfold ramfs_read. rewrite Ha. cbn [mbind option_bind]. rewrite (u64_small off) by lia.
  assert (length (contents r) = Z.to_nat (vn_size (rn_vnode r))) as Hlc
    by (unfold contents; rewrite length_take; lia).
  assert (vn_size (rn_vnode r) <= off -> got = []) as Hnil.
  { intros Hle. unfold got. by rewrite drop_ge, take_nil by lia. }
  destruct (Z.eqb_spec (rn_data r) 0) as [E|E].
  { pose proof (nk_data _ K E). by rewrite Hnil by lia. }
  destruct (Z.leb_spec (vn_size (rn_vnode r)) off) as [Hle|Hgt]; [by rewrite Hnil|].
  rewrite u64_small by lia. set (n := if size <? _ then _ else _).
  assert (n = Z.min size (vn_size (rn_vnode r) - off)) as E'.
  { subst n. case_if; bools; lia. }
  clearbody n. subst n. rewrite (proj2 (Z.leb_le _ _)) by lia.
  rewrite i64_small by lia.
  assert (got = take (Z.to_nat (Z.min size (vn_size (rn_vnode r) - off))) (drop (Z.to_nat off) (rn_bytes r))) as <-.
  { unfold got, contents. rewrite skipn_firstn_comm, take_take. f_equal. lia. }
  do 3 f_equal. unfold got. rewrite length_take, length_drop. lia.
Qed.

(** ** Adding a child *)

Lemma new_vnode_name name flags mode inode ops :
  (length (c_str name) <= VFS_NAME_MAX)%nat -> c_str (vn_name (new_vnode name flags mode inode ops)) = c_str name.
Proof. intros Hl. unfold new_vnode. cbn [vn_name]. rewrite c_str_strncpy by done. by apply take_ge. Qed.

Lemma new_node_ok name flags mode inode ops parent :
  byte_list name -> ops = RAMFS_OPS ->
  node_ok (RamfsNode (new_vnode name flags mode inode ops) 0 [] 0 [] parent).
Proof.
  intros Hn Ho. split; cbn; [|done|done|done|done|done]. unfold rn_name. cbn.
  apply Forall_app. split; [by apply strncpy_bytes_bytes|]. by repeat constructor.
Qed.

Lemma dir_ok_snoc (nodes : gmap Z ramfs_node) a cs c rc :
  dir_ok nodes a cs -> nodes !! c = Some rc -> rn_parent rc = a -> c <> a ->
  c_str (rn_name rc) ∉ child_name nodes <$> cs -> (length cs < RAMFS_MAX_CHILDREN)%nat ->
  dir_ok nodes a (cs ++ [c]).
Proof.
  intros D Hc Hp Hca Hn Hl. split.
  - intros x [Hx| ->%list_elem_of_singleton]%elem_of_app; [by apply D|]. split; [done|]. by exists rc.
  - rewrite fmap_app. apply NoDup_app. split_and!; [apply D| |cbn; apply NoDup_singleton].
    intros x Hx Hx'. cbn in Hx'. apply list_elem_of_singleton in Hx' as ->. apply Hn.
    unfold child_name at 1 in Hx. by rewrite Hc in Hx.
  - rewrite length_app. cbn. lia.
Qed.

(** A fresh node that is not linked yet. *)
Lemma fs_ok_fresh st d c rc h :
  fs_ok st -> node_ok rc -> rn_data rc = 0 -> rn_children rc = [] -> k_inv h -> ~ k_live (kheap st) c ->
  (forall q, k_live h q <-> q = c \/ k_live (kheap st) q) ->
  rnodes st !! c = None /\ fs_ok (Ramfs (<[c := rc]> (rnodes st)) d h).
Proof.
  intros I K Hd Hch Hh Hf Hlive.
  assert (rnodes st !! c = None) as Hc.
  { apply eq_None_not_Some. intros [x Hx]. apply Hf. by apply (fk_live _ I _ x). }
  split; [done|]. split; cbn [rnodes kheap]; try done.
  - intros b rb [[<- <-]|[Hne Hb]]%lookup_insert_Some; [done|]. by apply (fk_node _ I b).
  - intros b rb [[<- <-]|[Hne Hb]]%lookup_insert_Some; apply Hlive; [by left|right]. by apply (fk_live _ I b rb).
  - intros b rb [[<- <-]|[Hne Hb]]%lookup_insert_Some Hnz; [done|]. apply Hlive. right. by apply (fk_data _ I b).
  - intros b rb [[<- <-]|[Hne Hb]]%lookup_insert_Some Hnz; [done|].
    rewrite lookup_insert_ne; [by apply (fk_apart _ I b)|]. intros ->. apply Hf. by apply (fk_data _ I b).
  - intros b rb b' rb' [[<- <-]|[Hne Hb]]%lookup_insert_Some [[<- <-]|[Hne' Hb']]%lookup_insert_Some Hbb Hnz;
      try done; [congruence|by apply (fk_owner _ I b rb b' rb')].
  - intros b rb [[<- <-]|[Hne Hb]]%lookup_insert_Some.
    + rewrite Hch. split; [by intros x Hx%not_elem_of_nil|constructor|cbn; lia].
    + apply (dir_ok_ext (rnodes st)); [by apply (fk_dir _ I)|]. intros x rx _ Hrx. exists rx.
      rewrite lookup_insert_ne by congruence. done.
Qed.

(** A directory with another list of children. *)
Lemma fs_ok_children st d a r cs :
  fs_ok st -> rnodes st !! a = Some r -> dir_ok (rnodes st) a cs ->
  fs_ok (Ramfs (<[a := set_rn_children r cs]> (rnodes st)) d (kheap st)).
Proof.
  intros I Ha D. pose proof (fk_node _ I _ _ Ha) as K.
  assert (forall b rb, <[a := set_rn_children r cs]> (rnodes st) !! b = Some rb ->
    exists rb0, rnodes st !! b = Some rb0 /\ rn_data rb = rn_data rb0 /\ (node_ok rb0 -> node_ok rb)) as Hinv.
  { intros b rb [[<- <-]|[Hne Hb]]%lookup_insert_Some; [exists r|by exists rb].
    split_and!; try done. intros []. split; done. }
  split; cbn [rnodes kheap]; [apply I| | | | | |].
  - intros b rb (rb0 & Hb & _ & Hk)%Hinv. by apply Hk, (fk_node _ I b).
  - intros b rb (rb0 & Hb & _)%Hinv. by apply (fk_live _ I b rb0).
  - intros b rb (rb0 & Hb & -> & _)%Hinv. by apply (fk_data _ I b).
  - intros b rb (rb0 & Hb & -> & _)%Hinv Hnz. pose proof (fk_apart _ I _ _ Hb Hnz).
    rewrite lookup_insert_ne; [done|]. intros ->. congruence.
  - intros b rb b' rb' (rb0 & Hb & -> & _)%Hinv (rb0' & Hb' & -> & _)%Hinv. by apply (fk_owner _ I b rb0 b' rb0').
  - intros b rb Hb. assert (dir_ok (rnodes st) b (rn_children rb)) as Db.
    { apply lookup_insert_Some in Hb as [[<- <-]|[Hne Hb]]; [done|]. by apply (fk_dir _ I). }
    apply (dir_ok_ext (rnodes st)); [done|]. intros c rc _ Hrc. destruct (decide (c = a)) as [->|Hca].
    + eexists. rewrite lookup_insert_eq. simplify_eq. done.
    + exists rc. by rewrite lookup_insert_ne.
Qed.

(** The four outcomes of [ramfs_mkdir] and [ramfs_create]. *)
Lemma add_child_spec st flags a r name mode :
  fs_ok st -> rnodes st !! a = Some r -> byte_list name -> (length (c_str name) <= VFS_NAME_MAX)%nat ->
  exists ret st', add_child flags a name mode st = Some (ret, st') /\ fs_ok st' /\
    ((ret = 0 /\ st' = st /\ exists c, entry st a name c) \/
     (ret = - ENOSPC /\ st' = st /\ (forall c, ~ entry st a name c) /\ (RAMFS_MAX_CHILDREN <= length (rn_children r))%nat) \/
     (ret = - ENOMEM /\ rnodes st' = rnodes st /\ forall c, ~ entry st a name c) \/
     (ret = 0 /\ (forall c, ~ entry st a name c) /\ exists c, c <> 0 /\ rnodes st !! c = None /\
        rnodes st' = <[a := set_rn_children r (rn_children r ++ [c])]>
          (<[c := RamfsNode (new_vnode name flags mode c (vn_ops (rn_vnode r))) 0 [] 0 [] a]> (rnodes st)))).
Proof.
  intros I Ha Hn Hl. unfold add_child. destruct (ramfs_finddir_spec st a r name I Ha Hn) as (c0 & -> & Hc0).
  cbn [mbind option_bind]. destruct (Z.eqb_spec c0 0) as [Ez|Hne]; cbn [negb].
  2:{ exists 0, st. split; [done|]. split; [done|]. left. split_and!; [done|done|]. exists c0. by apply Hc0. }
  rewrite Ha. cbn [mbind option_bind]. destruct (Nat.leb_spec RAMFS_MAX_CHILDREN (length (rn_children r))) as [Hfull|Hroom].
  { exists (- ENOSPC), st. split; [done|]. split; [done|]. right; left. done. }
  destruct (malloc_spec (kheap st) RAMFS_NODE_SIZE (fk_heap _ I)) as (c & h & -> & Hi & Hm); [done|].
  cbn [mbind option_bind]. destruct Hm as [(-> & Hlive)|(Hc & Hf & Hlive)].
  { eexists _, _. split; [done|]. split; [destruct I; split; cbn; try done; naive_solver|]. right; right; left. done. }
  rewrite (proj2 (Z.eqb_neq c 0) Hc). set (rc := RamfsNode _ 0 [] 0 [] a).
  destruct (fs_ok_fresh st (dirent_buf st) c rc h I (new_node_ok _ _ _ _ _ _ Hn (nk_ops _ (fk_node _ I _ _ Ha))) eq_refl eq_refl Hi Hf Hlive) as (Hcn & I1).
  assert (c <> a) as Hca by congruence. cbn [rnodes put_rnode set_kheap dirent_buf kheap].
  rewrite lookup_insert_ne, Ha by done. cbn [mbind option_bind]. eexists _, _. split; [done|].
  split; [|do 3 right; split_and!; try done; by exists c].
  apply (fs_ok_children _ (dirent_buf st) a r (rn_children r ++ [c]) I1); cbn [rnodes].
  { by rewrite lookup_insert_ne. }
  assert (dir_ok (<[c := rc]> (rnodes st)) a (rn_children r)) as D1.
  { apply (fk_dir _ I1 a r). cbn [rnodes]. by rewrite lookup_insert_ne. }
  apply (dir_ok_snoc _ _ _ _ rc); try done; [by rewrite lookup_insert_eq|].
  unfold rn_name, rc. cbn [rn_vnode]. rewrite new_vnode_name by done.
  intros (c' & E & Hc')%list_elem_of_fmap_1. apply (Hc0 c'). exists r. split_and!; [done|done|].
  rewrite E. unfold child_name. rewrite lookup_insert_ne; [done|]. intros <-.
  destruct (dk_child _ _ _ (fk_dir _ I _ _ Ha) c Hc') as (_ & x & Hx & _). congruence.
Qed.
(** ** Removing a child *)

(** The heap can free the data of the node and then the node. *)
Definition removable st c rc : Prop :=
  if rn_data rc =? 0 then k_freeable (kheap st) c
  else k_freeable (kheap st) (rn_data rc) /\
    forall h, k_free (rn_data rc) (kheap st) = Some h -> k_freeable h c.

Lemma free_node_spec st c rc :
  fs_ok st -> rnodes st !! c = Some rc -> removable st c rc ->
  exists h1 h2, (if rn_data rc =? 0 then Some (kheap st) else k_free (rn_data rc) (kheap st)) = Some h1 /\
    k_free c h1 = Some h2 /\ k_inv h2 /\
    forall q, k_live h2 q <-> k_live (kheap st) q /\ q <> c /\ (rn_data rc <> 0 -> q <> rn_data rc).
Proof.
  intros I Hc Hr. unfold removable in Hr. destruct (Z.eqb_spec (rn_data rc) 0) as [E|E].
  - destruct (free_spec (kheap st) c (fk_heap _ I) Hr) as (h2 & E2 & Hi & Hl).
    exists (kheap st), h2. split_and!; try done. intros q. rewrite Hl. tauto.
  - destruct Hr as [Hr1 Hr2]. destruct (free_spec (kheap st) (rn_data rc) (fk_heap _ I) Hr1) as (h1 & E1 & Hi1 & Hl1).
    destruct (free_spec h1 c Hi1 (Hr2 h1 E1)) as (h2 & E2 & Hi & Hl).
    exists h1, h2. split_and!; try done. intros q. rewrite Hl, Hl1. tauto.
Qed.

(** A node that is nobody's child is taken out of the store. *)
Lemma fs_ok_delete st d c rc h :
  fs_ok st -> rnodes st !! c = Some rc -> (forall a r, rnodes st !! a = Some r -> c ∉ rn_children r) ->
  k_inv h -> (forall q, k_live (kheap st) q -> q <> c -> (rn_data rc <> 0 -> q <> rn_data rc) -> k_live h q) ->
  fs_ok (Ramfs (delete c (rnodes st)) d h).
Proof.
  intros I Hc Ho Hh Hl. split; cbn [rnodes kheap]; try done.
  - intros b rb [Hne Hb]%lookup_delete_Some. by apply (fk_node _ I b).
  - intros b rb [Hne Hb]%lookup_delete_Some. apply Hl; [by apply (fk_live _ I b rb)|done|].
    intros Hnz ->. by rewrite (fk_apart _ I _ _ Hc Hnz) in Hb.
  - intros b rb [Hne Hb]%lookup_delete_Some Hnz. apply Hl; [by apply (fk_data _ I b rb)| |].
    + intros E. by rewrite <- E, (fk_apart _ I _ _ Hb Hnz) in Hc.
    + intros _. by apply (fk_owner _ I b rb c rc).
  - intros b rb [Hne Hb]%lookup_delete_Some Hnz. apply lookup_delete_None. right. by apply (fk_apart _ I b).
  - intros b rb b' rb' [_ Hb]%lookup_delete_Some [_ Hb']%lookup_delete_Some. by apply (fk_owner _ I b rb b' rb').
  - intros b rb [Hne Hb]%lookup_delete_Some. apply (dir_ok_ext (rnodes st)); [by apply (fk_dir _ I)|].
    intros x rx Hx Hrx. exists rx. rewrite lookup_delete_ne; [done|]. intros <-. by apply (Ho b rb).
Qed.

Lemma dir_ok_delete (nodes : gmap Z ramfs_node) a cs k : dir_ok nodes a cs -> dir_ok nodes a (delete k cs).
Proof.
  intros D. split.
  - intros c Hc. apply D. eapply elem_of_submseteq; [exact Hc|]. apply sublist_submseteq, sublist_delete.
  - eapply sublist_NoDup; [apply D|]. apply fmap_sublist, sublist_delete.
  - etransitivity; [|apply (dk_count _ _ _ D)]. apply sublist_length, sublist_delete.
Qed.

Lemma dir_nodup (nodes : gmap Z ramfs_node) a cs : dir_ok nodes a cs -> NoDup cs.
Proof. intros D. eapply NoDup_fmap_1, dk_names, D. Qed.

Lemma ramfs_unlink_spec st a r name :
  fs_ok st -> rnodes st !! a = Some r -> byte_list name ->
  (forall c rc, entry st a name c -> rnodes st !! c = Some rc -> removable st c rc) ->
  exists ret st', ramfs_unlink a name st = Some (ret, st') /\ fs_ok st' /\
    ((ret = - ENOENT /\ st' = st /\ forall c, ~ entry st a name c) \/
     (ret = 0 /\ exists k c, entry st a name c /\ rn_children r !! k = Some c /\
        rnodes st' = <[a := set_rn_children r (delete k (rn_children r))]> (delete c (rnodes st)) /\
        forall rc, rnodes st !! c = Some rc -> forall q,
          k_live (kheap st') q <-> k_live (kheap st) q /\ q <> c /\ (rn_data rc <> 0 -> q <> rn_data rc))).
Proof.
  intros I Ha Hn Hrem. unfold ramfs_unlink. rewrite Ha. cbn [mbind option_bind].
  destruct (find_child_entry st a r name I Ha Hn) as (f & -> & Hf). cbn [mbind option_bind].
  destruct f as [[k c]|].
  2:{ exists (- ENOENT), st. split; [done|]. split; [done|]. by left. }
  destruct Hf as (Hk & Hc0 & He). pose proof (list_elem_of_lookup_2 _ _ _ Hk) as Hin.
  pose proof (fk_dir _ I _ _ Ha) as D. destruct (dk_child _ _ _ D c Hin) as (Hca & rc & Hc & Hp).
  rewrite Hc. cbn [mbind option_bind].
  destruct (free_node_spec st c rc I Hc) as (h1 & h2 & -> & E2 & Hi & Hl).
  { apply Hrem; [by apply He|done]. }
  cbn [mbind option_bind]. rewrite E2. cbn [mbind option_bind rnodes].
  rewrite lookup_delete_ne, Ha by done. cbn [mbind option_bind]. eexists _, _. split; [done|].
  split; [|right; split; [done|]; exists k, c; split_and!; try done; [by apply He|]; intros rc0 Hrc0; replace rc0 with rc by congruence; exact Hl].
  set (r1 := set_rn_children r (delete k (rn_children r))).
  set (st1 := Ramfs (<[a := r1]> (rnodes st)) (dirent_buf st) (kheap st)).
  assert (fs_ok st1) as I1 by (apply fs_ok_children; [done|done|by apply dir_ok_delete]).
  assert (fs_ok (Ramfs (delete c (rnodes st1)) (dirent_buf st) h2)) as I2.
  { apply (fs_ok_delete st1 _ c rc); [done|by cbn; rewrite lookup_insert_ne| |done|intros q Hq Hqc Hqd; by apply Hl].
    unfold st1. cbn [rnodes]. intros b rb [[<- <-]|[Hne Hb]]%lookup_insert_Some Hcin.
    - cbn in Hcin. apply list_elem_of_lookup_1 in Hcin as [j Hj].
      pose proof (dir_nodup _ _ _ D) as Hnd. rewrite delete_take_drop in Hj.
      rewrite <- (take_drop_middle _ _ _ Hk) in Hnd. apply NoDup_app in Hnd as (_ & Hnd1 & Hnd2).
      apply list_elem_of_lookup_2 in Hj. apply elem_of_app in Hj as [Hj|Hj].
      + apply (Hnd1 c Hj). left.
      + inversion Hnd2; subst. done.
    - destruct (dk_child _ _ _ (fk_dir _ I _ _ Hb) c Hcin) as (_ & rc' & Hrc' & Hp'). congruence. }
  unfold st1 in I2. cbn [rnodes] in I2. rewrite delete_insert_ne in I2 by done. exact I2.
Qed.

(** ** Every operation keeps the invariant *)

Inductive fs_op :=
| OpRead (a off size : Z)
| OpWrite (a off : Z) (buf : list Z)
| OpFinddir (a : Z) (name : list Z)
| OpReaddir (a index : Z)
| OpMkdir (a : Z) (name : list Z) (mode : Z)
| OpCreate (a : Z) (name : list Z) (mode : Z)
| OpUnlink (a : Z) (name : list Z)
(** An assignment of the VFS layer to the size, the reference count or the
    mount pointers of a node. *)
| OpSetNode (a : Z) (n : vfs_node).

(** The state after the operation; [None] when the code leaves its memory. *)
Definition fs_exec (o : fs_op) st : option (ramfs A) :=
  match o with
  | OpRead a off size => snd <$> ramfs_read a off size st
  | OpWrite a off buf => snd <$> ramfs_write a off buf st
  | OpFinddir a name => snd <$> ramfs_finddir a name st
  | OpReaddir a index => snd <$> ramfs_readdir a index st
  | OpMkdir a name mode => snd <$> ramfs_mkdir a name mode st
  | OpCreate a name mode => snd <$> ramfs_create a name mode st
  | OpUnlink a name => snd <$> ramfs_unlink a name st
  | OpSetNode a n => Some (set_node a n st)
  end.

Definition name_ok (name : list Z) : Prop := byte_list name /\ (length (c_str name) <= VFS_NAME_MAX)%nat.

(** What the callers have to respect: the node is there, offsets and names are
    in range, and the heap can serve the requests. *)
Definition allowed (o : fs_op) st : Prop :=
  match o with
  | OpRead a off size => is_Some (rnodes st !! a) /\ 0 <= off < 2 ^ 64 /\ 0 <= size
  | OpWrite a off buf => exists r, rnodes st !! a = Some r /\ 0 <= off /\
      off + Z.of_nat (length buf) <= FILE_MAX /\ growable st r (off + Z.of_nat (length buf))
  | OpFinddir a name => is_Some (rnodes st !! a) /\ byte_list name
  | OpReaddir a index => exists r, rnodes st !! a = Some r /\ 0 <= index < 2 ^ 31 + 2 /\
      (index = 1 -> is_Some (rnodes st !! rn_parent r))
  | OpMkdir a name _ | OpCreate a name _ => is_Some (rnodes st !! a) /\ name_ok name
  | OpUnlink a name => is_Some (rnodes st !! a) /\ byte_list name /\
      forall c rc, entry st a name c -> rnodes st !! c = Some rc -> removable st c rc
  | OpSetNode a n => exists n0, get_node st a = Some n0 /\ vn_name n = vn_name n0 /\ vn_ops n = vn_ops n0 /\
      0 <= vn_size n <= vn_size n0
  end.

Lemma fs_ok_dirent st d : fs_ok st -> fs_ok (set_dirent_buf d st).
Proof. intros []. split; done. Qed.

Lemma ramfs_readdir_spec st a index :
  fs_ok st -> allowed (OpReaddir a index) st ->
  exists res st', ramfs_readdir a index st = Some (res, st') /\ fs_ok st'.
Proof.
  intros I (r & Ha & Hi & Hp). unfold ramfs_readdir. rewrite Ha. cbn [mbind option_bind].
  destruct (Z.eqb_spec index 0) as [E|E0]; [eexists _, _; split; [done|by apply fs_ok_dirent]|].
  destruct (Z.eqb_spec index 1) as [E|E1].
  { destruct (Hp E) as [p Hpp]. rewrite Hpp. cbn [mbind option_bind].
    destruct (rn_parent r =? 0); cbn [mbind option_bind]; eexists _, _; (split; [done|by apply fs_ok_dirent]). }
  rewrite u32_small by lia. unfold i32. rewrite Z.mod_small by lia.
  replace (index - 2 + 2 ^ 31 - 2 ^ 31) with (index - 2) by lia.
  destruct (Z.leb_spec (Z.of_nat (length (rn_children r))) (index - 2)) as [Hle|Hgt].
  { by eexists _, _. }
  rewrite (proj2 (Z.ltb_ge (index - 2) 0)) by lia.
  destruct (lookup_lt_is_Some_2 (rn_children r) (Z.to_nat (index - 2)) ltac:(lia)) as [c Hc].
  rewrite Hc. cbn [mbind option_bind].
  destruct (dir_children st a r c I Ha ltac:(by eapply list_elem_of_lookup_2)) as (rc & Hrc & _).
  rewrite Hrc. cbn [mbind option_bind]. eexists _, _. split; [done|by apply fs_ok_dirent].
Qed.

Lemma fs_exec_ok o st : fs_ok st -> allowed o st -> exists st', fs_exec o st = Some st' /\ fs_ok st'.
Proof.
  intros I. destruct o as [a off size|a off buf|a name|a index|a name mode|a name mode|a name|a n]; cbn [fs_exec allowed].
  - intros ([r Ha] & Ho & Hs). rewrite (ramfs_read_spec st a r off size I Ha Ho Hs). by eexists.
  - intros (r & Ha & Ho & Hs & Hg). destruct (ramfs_write_bytes st a r off buf I Ha Ho Hs Hg) as (ret & st' & -> & I' & _).
    by eexists.
  - intros ([r Ha] & Hn). destruct (ramfs_finddir_spec st a r name I Ha Hn) as (c & -> & _). by eexists.
  - intros Hal. destruct (ramfs_readdir_spec st a index I Hal) as (res & st' & -> & I'). by eexists.
  - intros ([r Ha] & Hn & Hl).
    destruct (add_child_spec st VFS_DIRECTORY a r name mode I Ha Hn Hl) as (ret & st' & E & I' & _).
    unfold ramfs_mkdir. rewrite E. by eexists.
  - intros ([r Ha] & Hn & Hl).
    destruct (add_child_spec st VFS_FILE a r name mode I Ha Hn Hl) as (ret & st' & E & I' & _).
    unfold ramfs_create. rewrite E. by eexists.
  - intros ([r Ha] & Hn & Hrem). destruct (ramfs_unlink_spec st a r name I Ha Hn Hrem) as (ret & st' & -> & I' & _).
    by eexists.
  - intros (n0 & Hn & E1 & E2 & Hs). eexists. split; [done|]. by apply (fs_ok_set_node st a n0).
Qed.

(** ** The initial tree *)

(** The files that hold data have one of the names [L]. *)
Definition data_names (L : list (list Z)) st : Prop :=
  forall b r, rnodes st !! b = Some r -> rn_data r <> 0 -> c_str (rn_name r) ∈ L.

(** A step of the construction in the directory [a]: it returns, and keeps the
    nodes. *)
Definition builds_in (L L' : list (list Z)) (f : Z -> ramfs A -> option (ramfs A)) : Prop :=
  forall a st, fs_ok st -> data_names L st -> is_Some (rnodes st !! a) ->
    exists st', f a st = Some st' /\ fs_ok st' /\ data_names L' st' /\
      forall b, is_Some (rnodes st !! b) -> is_Some (rnodes st' !! b).

Lemma add_child_builds L flags name mode :
  name_ok name -> builds_in L L (fun a st => snd <$> add_child flags a name mode st).
Proof.
  intros [Hn Hl] a st I Hd [r Ha].
  destruct (add_child_spec st flags a r name mode I Ha Hn Hl) as (ret & st' & -> & I' & Hr). exists st'.
  split; [done|]. split; [done|].
  destruct Hr as [(_ & -> & _)|[(_ & -> & _)|[(_ & E & _)|(_ & _ & c & _ & Hc & E)]]]; [done|done| |].
  { unfold data_names. by rewrite E. }
  split.
  - intros b rb. rewrite E. intros [[<- <-]|[Hne [[<- <-]|[Hne' Hb]]%lookup_insert_Some]]%lookup_insert_Some; [|done|].
    + by apply (Hd a r).
    + by apply (Hd b rb).
  - intros b [rb Hb]. rewrite E. destruct (decide (b = a)) as [->|Hba]; [rewrite lookup_insert_eq; by eexists|].
    rewrite lookup_insert_ne by done. destruct (decide (b = c)) as [->|Hbc]; [rewrite lookup_insert_eq; by eexists|].
    rewrite lookup_insert_ne by done. by eexists.
Qed.

Lemma mkdirs_builds L dirs :
  Forall (fun d => name_ok d.1) dirs -> builds_in L L (fun a => mkdirs a dirs).
Proof.
  induction 1 as [|[name mode] dirs Hn _ IH]; intros a st I Hd Ha; cbn [mkdirs]; [by exists st|].
  destruct (add_child_builds L VFS_DIRECTORY name mode Hn a st I Hd Ha) as (s1 & E & I1 & Hd1 & Hb1).
  unfold ramfs_mkdir. destruct (add_child _ _ _ _ _) as [[ret s]|]; [|done]. injection E as ->. cbn [mbind option_bind].
  destruct (IH a s1 I1 Hd1 (Hb1 a Ha)) as (s2 & -> & I2 & Hd2 & Hb2). exists s2. split_and!; try done. auto.
Qed.

Lemma in_dir_builds L L' name body :
  byte_list name -> (forall x, x ∈ L -> x ∈ L') -> builds_in L L' body ->
  builds_in L L' (fun a => in_dir a name body).
Proof.
  intros Hn HL Hbody a st I Hd [r Ha]. unfold in_dir.
  destruct (ramfs_finddir_spec st a r name I Ha Hn) as (c & -> & Hc). cbn [mbind option_bind].
  destruct (c =? 0).
  { exists st. split_and!; try done. intros b rb Hb Hnz. by apply HL, (Hd b). }
  apply Hbody; [done|done|]. destruct (proj2 (Hc c) eq_refl) as (r0 & Hr0 & Hin & _).
  destruct (dir_children st a r0 c I Hr0 Hin) as (rc & Hrc & _). by exists rc.
Qed.

Lemma builds_in_seq L1 L2 L3 f g :
  builds_in L1 L2 f -> builds_in L2 L3 g -> builds_in L1 L3 (fun a st => st ← f a st; g a st).
Proof.
  intros Hf Hg a st I Hd Ha. destruct (Hf a st I Hd Ha) as (s1 & -> & I1 & Hd1 & Hb1). cbn [mbind option_bind].
  destruct (Hg a s1 I1 Hd1 (Hb1 a Ha)) as (s2 & -> & I2 & Hd2 & Hb2). exists s2. split_and!; try done. auto.
Qed.

(** A file whose name no file with data has is fresh or empty: its buffer is
    allocated, never resized. *)
Lemma add_file_builds L name data mode :
  name_ok name -> c_str name ∉ L -> Z.of_nat (length data) <= FILE_MAX ->
  builds_in L (c_str name :: L) (fun a => ramfs_add_file a name data mode).
Proof.
  intros Hnm HL Hlen a st I Hd Ha. unfold ramfs_add_file, ramfs_create.
  destruct (add_child_builds L VFS_FILE name mode Hnm a st I Hd Ha) as (s1 & E & I1 & Hd1 & Hb1).
  destruct (add_child _ _ _ _ _) as [[ret s]|]; [|done]. injection E as ->. cbn [mbind option_bind].
  destruct (Hb1 a Ha) as [r1 Ha1]. destruct (ramfs_finddir_spec s1 a r1 name I1 Ha1 (proj1 Hnm)) as (c & -> & Hc).
  cbn [mbind option_bind].
  assert (data_names (c_str name :: L) s1) as Hd1' by (intros b rb Hb Hnz; right; by apply (Hd1 b)).
  destruct (Z.eqb_spec c 0) as [Ez|Hcz]; cbn [negb andb]; [by exists s1|].
  destruct (negb _); [|by exists s1].
  destruct (proj2 (Hc c) eq_refl) as (r0 & Hr0 & Hin & Hcn).
  destruct (dir_children s1 a r0 c I1 Hr0 Hin) as (rc & Hrc & _). unfold child_name in Hcn. rewrite Hrc in Hcn.
  assert (rn_data rc = 0) as Hz. { destruct (decide (rn_data rc = 0)) as [|Hnz]; [done|]. by destruct HL; rewrite <- Hcn; apply (Hd1 c). }
  destruct (ramfs_write_bytes s1 c rc 0 data I1 Hrc) as (ret' & s2 & -> & I2 & Hr2); [done|lia| |].
  { intros _. rewrite Hz. apply resizable_null. }
  cbn [mbind option_bind]. exists s2. split; [done|]. split; [done|].
  destruct Hr2 as [(_ & E2)|(_ & r' & k & E2 & _ & _ & Ev & _)]; [unfold data_names; by rewrite E2|].
  rewrite E2. split.
  - intros b rb. rewrite E2. intros [[<- <-]|[Hne Hb]]%lookup_insert_Some Hnz; [|by apply (Hd1' b)].
    unfold rn_name. rewrite Ev. cbn. unfold rn_name in Hcn. rewrite Hcn. left.
  - intros b Hb. apply Hb1 in Hb as [x Hx]. destruct (decide (b = c)) as [->|Hbc].
    + rewrite lookup_insert_eq. by eexists.
    + rewrite lookup_insert_ne by done. by exists x.
Qed.

Lemma fs_ok_empty st : rnodes st = ∅ -> k_inv (kheap st) -> fs_ok st.
Proof. intros E Hi. split; [done|..]; intros *; rewrite E, lookup_empty; done. Qed.

(** Names given as literals. *)
Ltac bytes_lit := repeat constructor; lia.
Ltac name_lit := split; [bytes_lit|vm_compute; lia].
Ltac dirs_lit := repeat (constructor; [name_lit|]); constructor.

(** The whole construction below the root. *)
Lemma populate_root_builds : builds_in [] [lit "hostname"; lit "motd"] populate_root.
Proof.
  refine (builds_in_seq _ [] _ (fun a => mkdirs a root_dirs) _ _ _); [apply mkdirs_builds; dirs_lit|].
  refine (builds_in_seq _ [] _ (fun a => in_dir a _ _) _ _ _).
  { apply in_dir_builds; [bytes_lit|done|]. apply mkdirs_builds. dirs_lit. }
  refine (builds_in_seq _ [] _ (fun a => mkdirs a more_dirs) _ _ _); [apply mkdirs_builds; dirs_lit|].
  refine (builds_in_seq _ [] _ (fun a => in_dir a _ _) _ _ _).
  { apply in_dir_builds; [bytes_lit|done|].
    refine (builds_in_seq _ [] _ (fun a => mkdirs a sys_dirs) _ _ _); [apply mkdirs_builds; dirs_lit|].
    apply in_dir_builds; [bytes_lit|done|]. apply mkdirs_builds. dirs_lit. }
  refine (builds_in_seq _ [lit "hostname"; lit "motd"] _ (fun a => in_dir a _ _) _ _ _).
  { apply in_dir_builds; [bytes_lit|by intros x Hx%not_elem_of_nil|].
    refine (builds_in_seq _ [lit "motd"] _ (fun a => ramfs_add_file a _ _ _) _ _ _).
    - apply (add_file_builds [] (lit "motd")); [name_lit|apply not_elem_of_nil|vm_compute; done].
    - apply (add_file_builds [lit "motd"] (lit "hostname")); [name_lit| |vm_compute; done].
      intros Hx%list_elem_of_singleton. done. }
  apply in_dir_builds; [bytes_lit|done|].
  refine (builds_in_seq _ [lit "hostname"; lit "motd"] _ (fun a st => snd <$> ramfs_create a _ _ st) _ _ _);
    apply add_child_builds; name_lit.
Qed.

(** [ramfs_create_root] builds a tree that satisfies the invariant; it panics
    exactly when there is no memory for the root. *)
Lemma ramfs_create_root_spec st0 :
  rnodes st0 = ∅ -> k_inv (kheap st0) ->
  (ramfs_create_root st0 = None /\ exists h, k_malloc RAMFS_NODE_SIZE (kheap st0) = Some (0, h)) \/
  exists root st, ramfs_create_root st0 = Some (root, st) /\ fs_ok st /\ is_Some (rnodes st !! root).
Proof.
  intros E0 Hi. unfold ramfs_create_root.
  destruct (malloc_spec (kheap st0) RAMFS_NODE_SIZE Hi) as (root & h & -> & Hh & Hm); [done|].
  cbn [mbind option_bind]. destruct Hm as [(-> & _)|(Hr & Hf & Hl)]; [left; split; [done|by exists h]|]. right.
  rewrite (proj2 (Z.eqb_neq root 0) Hr). set (rr := RamfsNode _ 0 [] 0 [] root).
  assert (node_ok rr) as Krr by (apply new_node_ok; [bytes_lit|done]).
  destruct (fs_ok_fresh st0 (dirent_buf st0) root rr h (fs_ok_empty st0 E0 Hi) Krr eq_refl eq_refl Hh Hf Hl) as (_ & I1).
  change (put_rnode root rr (set_kheap h st0)) with (Ramfs (<[root := rr]> (rnodes st0)) (dirent_buf st0) h).
  destruct (populate_root_builds root _ I1) as (s2 & -> & I2 & _ & B2).
  - intros b rb Hb. cbn [rnodes] in Hb. rewrite E0 in Hb.
    apply lookup_insert_Some in Hb as [[<- <-]|[_ Hb]]; [done|]. by rewrite lookup_empty in Hb.
  - cbn [rnodes]. rewrite lookup_insert_eq. by eexists.
  - exists root, s2. split; [done|]. split; [done|]. apply B2. cbn [rnodes]. rewrite lookup_insert_eq. by eexists.
Qed.

Definition fs_step st st' : Prop := exists o, allowed o st /\ fs_exec o st = Some st'.



(** What linking a fresh child does to the entries. *)
Lemma entry_added st st' a r c rc b n c' :
  fs_ok st -> rnodes st !! a = Some r -> rnodes st !! c = None -> rn_children rc = [] ->
  rnodes st' = <[a := set_rn_children r (rn_children r ++ [c])]> (<[c := rc]> (rnodes st)) ->
  entry st' b n c' <-> entry st b n c' \/ (b = a /\ c' = c /\ c_str (rn_name rc) = c_str n).
Proof.
  intros I Ha Hc Hch E. assert (c <> a) as Hca by congruence.
  assert (forall x, x <> c -> child_name (rnodes st') x = child_name (rnodes st) x) as Hnm.
  { intros x Hx. unfold child_name. rewrite E. destruct (decide (x = a)) as [->|Hxa].
    - by rewrite lookup_insert_eq, Ha.
    - by rewrite !lookup_insert_ne. }
  assert (child_name (rnodes st') c = c_str (rn_name rc)) as Hnc.
  { unfold child_name. by rewrite E, lookup_insert_ne, lookup_insert_eq. }
  assert (forall b rb, rnodes st !! b = Some rb -> c ∉ rn_children rb) as Hno.
  { intros x rx Hx Hin. destruct (dk_child _ _ _ (fk_dir _ I _ _ Hx) c Hin) as (_ & y & Hy & _). congruence. }
  unfold entry. split.
  - intros (rb & Hb & Hin & Hn). rewrite E in Hb.
    apply lookup_insert_Some in Hb as [[<- <-]|[Hba [[<- <-]|[Hbc Hb]]%lookup_insert_Some]].
    + cbn in Hin. apply elem_of_app in Hin as [Hin| ->%list_elem_of_singleton].
      * left. exists r. rewrite Hnm in Hn; [done|]. intros ->. by apply (Hno a r).
      * right. by rewrite Hnc in Hn.
    + rewrite Hch in Hin. by apply not_elem_of_nil in Hin.
    + left. exists rb. rewrite Hnm in Hn; [done|]. intros ->. by apply (Hno b rb).
  - intros [(rb & Hb & Hin & Hn)|(-> & -> & Hn)].
    + rewrite <- (Hnm c') in Hn by (intros ->; by apply (Hno b rb)). destruct (decide (b = a)) as [->|Hba].
      * simplify_eq. eexists. rewrite E, lookup_insert_eq. split_and!; [done|cbn; apply elem_of_app; by left|by rewrite <- E].
      * exists rb. rewrite E, !lookup_insert_ne by congruence. split_and!; [done|done|by rewrite <- E].
    + eexists. rewrite E, lookup_insert_eq. split_and!; [done|cbn; apply elem_of_app; right; left|by rewrite <- E, Hnc].
Qed.
(** creating a file or a directory returns 0 without an effect when
    the name exists, fails without an effect when the directory is full or
    memory is short, and otherwise adds exactly one entry: an empty node found
    under the name, all other entries and nodes being as before. *)
Theorem ramfs_create_correct st flags a r name mode :
  fs_ok st -> rnodes st !! a = Some r -> name_ok name ->
  exists ret st', add_child flags a name mode st = Some (ret, st') /\ fs_ok st' /\
    ((ret = 0 /\ st' = st /\ exists c, entry st a name c) \/
     (ret = - ENOSPC /\ st' = st /\ length (rn_children r) = RAMFS_MAX_CHILDREN) \/
     (ret = - ENOMEM /\ rnodes st' = rnodes st) \/
     (ret = 0 /\ (forall c, ~ entry st a name c) /\ exists c rc,
        ramfs_finddir a name st' = Some (c, st') /\ rnodes st !! c = None /\ rnodes st' !! c = Some rc /\
        contents rc = [] /\ vn_flags (rn_vnode rc) = flags /\ vn_mode (rn_vnode rc) = mode /\ rn_parent rc = a /\
        (forall b, b <> a -> b <> c -> rnodes st' !! b = rnodes st !! b) /\
        forall b n c', entry st' b n c' <-> entry st b n c' \/ (b = a /\ c' = c /\ c_str name = c_str n))).
Proof.
  intros I Ha [Hn Hl]. destruct (add_child_spec st flags a r name mode I Ha Hn Hl) as (ret & st' & E & I' & Hr).
  exists ret, st'. split; [done|]. split; [done|].
  destruct Hr as [?|[(-> & -> & _ & Hfull)|[(-> & Er & _)|(-> & Hno & c & Hc0 & Hc & Er)]]]; [by left| | |].
  - right; left. split_and!; [done|done|]. pose proof (dk_count _ _ _ (fk_dir _ I _ _ Ha)). lia.
  - by right; right; left.
  - do 3 right. split_and!; [done|done|]. set (rc := RamfsNode _ _ _ _ _ _) in Er. exists c, rc.
    assert (c <> a) as Hca by congruence.
    assert (forall b n c', entry st' b n c' <-> entry st b n c' \/ (b = a /\ c' = c /\ c_str name = c_str n)) as He.
    { intros b n c'. rewrite (entry_added st st' a r c rc b n c' I Ha Hc eq_refl Er).
      unfold rn_name, rc. cbn [rn_vnode]. by rewrite new_vnode_name. }
    assert (rnodes st' !! a = Some (set_rn_children r (rn_children r ++ [c]))) as Ha' by by rewrite Er, lookup_insert_eq.
    split_and!; try done.
    + destruct (ramfs_finddir_spec st' a _ name I' Ha' Hn) as (x & -> & Hx).
      assert (entry st' a name c) as Hec by (apply He; by right).
      destruct (x =? 0); [by destruct (Hx c)|]. by rewrite (proj1 (Hx c) Hec).
    + by rewrite Er, lookup_insert_ne, lookup_insert_eq.
    + intros b Hb1 Hb2. by rewrite Er, !lookup_insert_ne.
Qed.

(** What unlinking does to the entries of the remaining directories. *)
Lemma entry_removed st st' a r k c name b n c' :
  fs_ok st -> rnodes st !! a = Some r -> rn_children r !! k = Some c -> entry st a name c -> b <> c ->
  rnodes st' = <[a := set_rn_children r (delete k (rn_children r))]> (delete c (rnodes st)) ->
  entry st' b n c' <-> entry st b n c' /\ ~ (b = a /\ c_str n = c_str name).
Proof.
  intros I Ha Hk (r0 & Ha0 & Hin & Hnm) Hbc E. simplify_eq.
  pose proof (fk_dir _ I _ _ Ha) as D. destruct (dk_child _ _ _ D c Hin) as (Hca & rc & Hc & Hp).
  assert (forall x, x <> c -> child_name (rnodes st') x = child_name (rnodes st) x) as Hn.
  { intros x Hx. unfold child_name. rewrite E. destruct (decide (x = a)) as [->|Hxa].
    - by rewrite lookup_insert_eq, Ha.
    - by rewrite lookup_insert_ne, lookup_delete_ne. }
  assert (forall x, x ∈ delete k (rn_children r) <-> x ∈ rn_children r /\ x <> c) as Hdel.
  { intros x. pose proof (dir_nodup _ _ _ D) as Hnd. rewrite delete_take_drop.
    pose proof (take_drop_middle _ _ _ Hk) as Em. rewrite <- Em in Hnd. rewrite <- Em at 3.
    apply NoDup_app in Hnd as (_ & Hnd1 & Hnd2). apply NoDup_cons in Hnd2 as [Hnd2 _].
    rewrite !elem_of_app, elem_of_cons. split; [|tauto].
    intros [Hx|Hx]; (split; [tauto|]); intros ->; [apply (Hnd1 c Hx); left|done]. }
  assert (forall x, x ∈ rn_children r -> child_name (rnodes st) x = child_name (rnodes st) c -> x = c) as Hinj.
  { intros x [i Hi]%list_elem_of_lookup_1 Ex.
    assert (i = k) as -> by (apply (NoDup_lookup _ _ _ (child_name (rnodes st) c) (dk_names _ _ _ D));
      rewrite list_lookup_fmap; [rewrite Hi|rewrite Hk]; cbn; congruence). congruence. }
  unfold entry. destruct (decide (b = a)) as [->|Hba].
  - rewrite E, lookup_insert_eq. rewrite <- E, Ha. split.
    + intros (x & [= <-] & [Hx Hxc]%Hdel & Hnx). rewrite Hn in Hnx by done. split; [by exists r|].
      intros [_ Hnn]. apply Hxc, Hinj; [done|congruence].
    + intros ((x & [= <-] & Hx & Hnx) & Hnn). eexists. split; [done|].
      assert (c' <> c) as Hc'. { intros ->. apply Hnn. split; [done|congruence]. }
      rewrite Hn by done. split; [|done]. apply Hdel. done.
  - assert (forall rb, rnodes st !! b = Some rb -> c ∉ rn_children rb) as Hno.
    { intros rb Hb Hcb. destruct (dk_child _ _ _ (fk_dir _ I _ _ Hb) c Hcb) as (_ & x & Hx & Hpx). congruence. }
    rewrite E, lookup_insert_ne, lookup_delete_ne by done. rewrite <- E.
    split; [intros (rb & Hb & Hx & Hnx)|intros ((rb & Hb & Hx & Hnx) & _)];
      (assert (c' <> c) as Hc' by (intros ->; by apply (Hno rb))); rewrite Hn in * by done; [split; [by exists rb|tauto]|by exists rb].
Qed.


End inv.
