(* ===== verification/FileSystem.v ===== *)
(** * Paths and files together ([fs/vfs.c] over [fs/ramfs.c])

    The path layer of [Vfs.v] with the RAM file system of [Ramfs.v] as the
    file system behind every node: a lookup is stable under the operations that
    only add to the tree, a file written under a path is read back under it, and
    a mounted tree is found behind its mount point. *)

From S2P Require Import Prelude CString Bytes KAlloc Vfs Ramfs RamfsInv.
From stdpp Require Import strings.
Local Open Scope Z_scope.
Local Open Scope c_scope.

(** ** Paths *)

Lemma cut_app_sep p s x t : p x = true -> cut p (s ++ x :: t) = cut p s ++ cut p t.
Proof.
  intros Hx. induction s as [|y s IH]; cbn; [by rewrite Hx|]. rewrite IH. destruct (p y); [done|].
  pose proof (cut_ne p s). by destruct (cut p s).
Qed.

Lemma comps_slash s t : comps (s ++ 47 :: t) = comps s ++ comps t.
Proof. unfold comps, fields. rewrite cut_app_sep by done. apply filter_app. Qed.

Lemma comps_component_id t : component t -> comps t = [t].
Proof.
  intros Ht. pose proof (comps_cons t [] Ht ltac:(done)) as E. rewrite app_nil_r in E.
  unfold comps in E at 1. by rewrite fields_skip in E.
Qed.

Lemma normalize_snoc ts t : t <> [46] -> t <> [46; 46] -> normalize (ts ++ [t]) = normalize ts ++ [t].
Proof.
  intros H1 H2. unfold normalize. rewrite foldl_app. cbn. unfold norm_step at 1.
  by rewrite !decide_False by done.
Qed.

(** ** Lookups in a RAM file system *)

Section fs.
Context {A : Type} `{KAllocLaws A}.
Context (optab : Z -> vfs_ops (ramfs A)) (optab_ramfs : optab RAMFS_OPS = ramfs_ops).
Implicit Types (st : ramfs A) (r : ramfs_node) (a b c : Z).

Lemma lookup_names_null us st : lookup_names optab 0 us st = Some (0, st).
Proof. by destruct us. Qed.

Lemma lookup_names_app node ts us st :
  lookup_names optab node (ts ++ us) st = '(a, st) ← lookup_names optab node ts st; lookup_names optab a us st.
Proof.
  revert node st. induction ts as [|t ts IH]; intros node st; cbn [app lookup_names mbind option_bind]; [done|].
  destruct (Z.eqb_spec node 0) as [E|E]; [cbn; by rewrite lookup_names_null|].
  destruct (get_node st node) as [n|]; [|done]. cbn [mbind option_bind].
  destruct (is_dir n); [|cbn; by rewrite lookup_names_null].
  destruct (vfs_finddir optab node t st) as [[x s]|]; [|done]. cbn [mbind option_bind]. apply IH.
Qed.

Lemma node_op_ramfs {F} (sel : vfs_ops (ramfs A) -> option F) st a r :
  fs_ok st -> rnodes st !! a = Some r -> node_op optab sel (rn_vnode r) = sel ramfs_ops.
Proof.
  intros I Ha. unfold node_op. rewrite (nk_ops _ (fk_node _ I _ _ Ha)), optab_ramfs. done.
Qed.

Lemma get_node_ramfs st a r : rnodes st !! a = Some r -> get_node st a = Some (rn_vnode r).
Proof. intros Ha. cbn. by rewrite Ha. Qed.

(** Nothing that can be found is lost, and directories stay directories. *)
Record extends st st' : Prop := {
  ex_node b rb : rnodes st !! b = Some rb -> exists rb', rnodes st' !! b = Some rb' /\
    vn_flags (rn_vnode rb') = vn_flags (rn_vnode rb) /\ vn_mount (rn_vnode rb') = vn_mount (rn_vnode rb);
  ex_entry b n c : entry st b n c -> entry st' b n c }.

Lemma finddir_extends st st' b n c s :
  fs_ok st -> fs_ok st' -> extends st st' -> byte_list n ->
  vfs_finddir optab b n st = Some (c, s) -> c <> 0 ->
  s = st /\ vfs_finddir optab b n st' = Some (c, st').
Proof.
  intros I I' X Hn. unfold vfs_finddir. destruct (Z.eqb_spec b 0) as [->|Hb]; [by intros [= <- <-]|].
  destruct (rnodes st !! b) as [rb|] eqn:Eb; [|cbn; by rewrite Eb].
  destruct (ex_node _ _ X b rb Eb) as (rb' & Eb' & _ & Em).
  rewrite (get_node_ramfs _ _ _ Eb), (get_node_ramfs _ _ _ Eb'). cbn [mbind option_bind]. rewrite Em.
  set (m := if vn_mount (rn_vnode rb) =? 0 then b else _). clearbody m.
  destruct (rnodes st !! m) as [rm|] eqn:Er; [|cbn; by rewrite Er].
  destruct (ex_node _ _ X m rm Er) as (rm' & Er' & Ef & _).
  rewrite (get_node_ramfs _ _ _ Er), (get_node_ramfs _ _ _ Er'). cbn [mbind option_bind].
  unfold is_dir. rewrite Ef. destruct (negb _); [|by intros [= <- <-]].
  rewrite (node_op_ramfs op_finddir st m rm I Er), (node_op_ramfs op_finddir st' m rm' I' Er'). cbn [op_finddir ramfs_ops].
  destruct (ramfs_finddir_spec st m rm n I Er Hn) as (x & -> & Hx). intros [= <- <-] Hc. split; [done|].
  rewrite (proj2 (Z.eqb_neq x 0) Hc) in Hx. pose proof (ex_entry _ _ X _ _ _ (proj2 (Hx x) eq_refl)) as He.
  destruct (ramfs_finddir_spec st' m rm' n I' Er' Hn) as (y & -> & Hy).
  destruct (y =? 0); [by destruct (Hy x)|]. by rewrite (proj1 (Hy x) He).
Qed.

Lemma lookup_extends ts st st' b c s :
  fs_ok st -> fs_ok st' -> extends st st' -> Forall byte_list ts ->
  lookup_names optab b ts st = Some (c, s) -> c <> 0 ->
  s = st /\ lookup_names optab b ts st' = Some (c, st').
Proof.
  intros I I' X Hts. revert b. induction Hts as [|t ts Ht Hts IH]; intros b; cbn [lookup_names].
  { by intros [= <- <-]. }
  destruct (Z.eqb_spec b 0) as [->|Hb]; [by intros [= <- <-]|].
  destruct (rnodes st !! b) as [rb|] eqn:Eb; [|cbn; by rewrite Eb].
  destruct (ex_node _ _ X b rb Eb) as (rb' & Eb' & Ef & _).
  rewrite (get_node_ramfs _ _ _ Eb), (get_node_ramfs _ _ _ Eb'). cbn [mbind option_bind].
  unfold is_dir. rewrite Ef. destruct (negb _); [|by intros [= <- <-]].
  destruct (vfs_finddir optab b t st) as [[x s1]|] eqn:Ex; [|done]. cbn [mbind option_bind]. intros Hl Hc.
  destruct (decide (x = 0)) as [->|Hx].
  { rewrite lookup_names_null in Hl. by injection Hl as <- _. }
  destruct (finddir_extends st st' b t x s1 I I' X Ht Ex Hx) as [-> ->]. by apply IH.
Qed.
(** ** Operations that only add *)

Lemma extends_trans s1 s2 s3 : extends s1 s2 -> extends s2 s3 -> extends s1 s3.
Proof.
  intros X Y. split.
  - intros b rb Hb. destruct (ex_node _ _ X b rb Hb) as (rb' & Hb' & E1 & E2).
    destruct (ex_node _ _ Y b rb' Hb') as (rb'' & Hb'' & E3 & E4). exists rb''. split_and!; congruence.
  - intros b n c He. by apply Y, X.
Qed.

Lemma extends_update st st' a r r' :
  rnodes st !! a = Some r -> rnodes st' = <[a := r']> (rnodes st) ->
  rn_name r' = rn_name r -> rn_children r' = rn_children r ->
  vn_flags (rn_vnode r') = vn_flags (rn_vnode r) -> vn_mount (rn_vnode r') = vn_mount (rn_vnode r) ->
  extends st st'.
Proof.
  intros Ha E En Ec Ef Em.
  assert (forall x, child_name (rnodes st') x = child_name (rnodes st) x) as Hn.
  { intros x. unfold child_name. rewrite E. destruct (decide (x = a)) as [->|Hx].
    - by rewrite lookup_insert_eq, Ha, En.
    - by rewrite lookup_insert_ne. }
  split.
  - intros b rb Hb. rewrite E. destruct (decide (b = a)) as [->|Hx].
    + exists r'. rewrite lookup_insert_eq. simplify_eq. done.
    + exists rb. by rewrite lookup_insert_ne.
  - intros b n c (rb & Hb & Hin & Hc). rewrite <- Hn in Hc. destruct (decide (b = a)) as [->|Hx].
    + exists r'. rewrite E, lookup_insert_eq, <- E. simplify_eq. by rewrite Ec.
    + exists rb. by rewrite E, lookup_insert_ne, <- E.
Qed.

(** A new reference count. *)
Definition set_ref a r v st : ramfs A := set_node a (set_vn_refcount (rn_vnode r) v) st.

Lemma set_ref_spec a r v st :
  fs_ok st -> rnodes st !! a = Some r ->
  fs_ok (set_ref a r v st) /\ extends st (set_ref a r v st) /\
  rnodes (set_ref a r v st) !! a = Some (set_rn_vnode r (set_vn_refcount (rn_vnode r) v)).
Proof.
  intros I Ha. assert (rnodes (set_ref a r v st) = <[a := set_rn_vnode r (set_vn_refcount (rn_vnode r) v)]> (rnodes st)) as E.
  { cbn. by rewrite (alter_at _ _ _ _ Ha). }
  split_and!.
  - apply (fs_ok_set_node st a (rn_vnode r)); [done|by apply get_node_ramfs|done|done|]. cbn.
    pose proof (nk_size _ (fk_node _ I _ _ Ha)); lia.
  - by apply (extends_update st _ a r _ Ha E).
  - by rewrite E, lookup_insert_eq.
Qed.

(** ** Opening *)

Lemma vfs_open_found root path flags name0 st f r :
  fs_ok st -> vfs_resolve_path optab root path st = Some (f, st) -> rnodes st !! f = Some r ->
  flags .& O_TRUNC = 0 ->
  vfs_open optab root path flags name0 st = Some (f, set_ref f r (i32 (vn_refcount (rn_vnode r) + 1)) st).
Proof.
  intros I Er Hf Ht. pose proof (fs_nonzero st f r I Hf) as Hnz. unfold vfs_open. rewrite Er. cbn [mbind option_bind].
  rewrite (proj2 (Z.eqb_neq f 0) Hnz). cbn [andb mbind option_bind].
  rewrite (proj2 (Z.eqb_neq f 0) Hnz), (get_node_ramfs _ _ _ Hf), Ht. cbn [mbind option_bind Z.eqb negb andb].
  rewrite (node_op_ramfs op_open st f r I Hf). cbn [op_open ramfs_ops mbind option_bind].
  by rewrite (get_node_ramfs _ _ _ Hf).
Qed.

(** A path that ends in a name: its last step is a lookup in the directory. *)
Section path.
Context (root : Z) (dir name : list Z).
Context (root_ok : root <> 0) (dir_string : c_string dir) (name_file : file_name name).
Context (no_dot : name <> [46]) (no_dotdot : name <> [46; 46]).
Context (path_fits : (length dir + length name < PATH_BUF - 4)%nat) (dir_depth : (length (comps dir) < 64)%nat).

Let path := dir ++ 47 :: name.

Lemma path_c_string : c_string path.
Proof.
  apply Forall_app. split; [done|]. constructor; [lia|]. by apply component_c_string, name_file.
Qed.

Lemma name_bytes : byte_list name.
Proof. by apply c_string_bytes, component_c_string, name_file. Qed.

Lemma name_fits : (length (c_str name) <= VFS_NAME_MAX)%nat.
Proof. destruct name_file as [Hc Hl]. rewrite c_string_c_str by by apply component_c_string. lia. Qed.

Lemma resolve_path st a :
  lookup_names optab root (normalize (comps dir)) st = Some (a, st) ->
  vfs_resolve_path optab root path st = lookup_names optab a [name] st /\
  find_parent optab root dir st = Some (a, st).
Proof.
  intros Ha. split.
  - rewrite vfs_resolve_spec; [|apply path_c_string| | |done].
    + unfold path. rewrite comps_slash, (comps_component_id name) by apply name_file.
      by rewrite normalize_snoc, lookup_names_app, Ha.
    + unfold path. rewrite length_app. cbn. lia.
    + unfold path. rewrite comps_slash, (comps_component_id name), length_app by apply name_file. cbn. lia.
  - unfold find_parent. destruct (Z.eqb_spec (ch dir) 0) as [E|E].
    + destruct dir as [|x d]; [done|]. inversion dir_string as [|? ? Hx _]; subst. cbn in E. lia.
    + rewrite vfs_resolve_spec; [done|done|lia|lia|done].
Qed.

(** The last step, in a directory that is no mount point. *)
Lemma lookup_last st a r :
  fs_ok st -> rnodes st !! a = Some r -> is_dir (rn_vnode r) = true -> vn_mount (rn_vnode r) = 0 ->
  vfs_finddir optab a name st = ramfs_finddir a name st /\
  lookup_names optab a [name] st = ramfs_finddir a name st.
Proof.
  intros I Ha Hd Hm. pose proof (fs_nonzero st a r I Ha) as Hnz.
  assert (vfs_finddir optab a name st = ramfs_finddir a name st) as E.
  { unfold vfs_finddir. rewrite (proj2 (Z.eqb_neq a 0) Hnz), (get_node_ramfs _ _ _ Ha). cbn [mbind option_bind].
    rewrite Hm. cbn [Z.eqb]. rewrite (get_node_ramfs _ _ _ Ha). cbn [mbind option_bind].
    by rewrite Hd, (node_op_ramfs op_finddir st a r I Ha). }
  split; [done|]. cbn [lookup_names]. rewrite (proj2 (Z.eqb_neq a 0) Hnz), (get_node_ramfs _ _ _ Ha).
  cbn [mbind option_bind]. rewrite Hd, E. by destruct (ramfs_finddir a name st) as [[x s]|].
Qed.
(** The new entry is found, and everything else still is. *)
Lemma created_found st s a r c rc :
  fs_ok st -> fs_ok s -> rnodes st !! a = Some r -> rnodes st !! c = None -> rn_children rc = [] ->
  c_str (rn_name rc) = c_str name ->
  rnodes s = <[a := set_rn_children r (rn_children r ++ [c])]> (<[c := rc]> (rnodes st)) ->
  extends st s /\ ramfs_finddir a name s = Some (c, s) /\ rnodes s !! c = Some rc /\
  rnodes s !! a = Some (set_rn_children r (rn_children r ++ [c])).
Proof.
  intros I I' Ha Hc Hch Hnm E. assert (c <> a) as Hca by congruence.
  assert (rnodes s !! a = Some (set_rn_children r (rn_children r ++ [c]))) as Hsa by by rewrite E, lookup_insert_eq.
  pose proof (fun b n c' => entry_added st s a r c rc b n c' I Ha Hc Hch E) as Hent. split_and!; [| | |done].
  - split; [|intros b n c' He; apply Hent; by left]. intros b rb Hb. rewrite E.
    destruct (decide (b = a)) as [->|Hba]; [|exists rb; by rewrite !lookup_insert_ne by congruence].
    eexists. rewrite lookup_insert_eq. simplify_eq. done.
  - destruct (ramfs_finddir_spec s a _ name I' Hsa name_bytes) as (y & -> & Hy).
    assert (entry s a name c) as He by (apply Hent; by right).
    destruct (y =? 0); [by destruct (Hy c)|]. by rewrite (proj1 (Hy c) He).
  - by rewrite E, lookup_insert_ne, lookup_insert_eq.
Qed.

(** The part of [vfs_open] that creates a missing file, reduced to the file
    system below. *)
Lemma open_create_ramfs st a r name0 :
  fs_ok st -> lookup_names optab root (normalize (comps dir)) st = Some (a, st) ->
  rnodes st !! a = Some r -> is_dir (rn_vnode r) = true ->
  open_create optab root path name0 st =
    '(e, s) ← add_child VFS_FILE a name MODE_0644 st; if e =? 0 then vfs_finddir optab a name s else Some (0, s).
Proof.
  intros I Hl Ha Hd. destruct (resolve_path st a Hl) as [_ Ep]. pose proof (fs_nonzero st a r I Ha) as Hnz.
  unfold open_create, path. rewrite split_path_spec; [|done|done|lia]. cbn [mbind option_bind]. rewrite Ep.
  cbn [mbind option_bind]. rewrite (proj2 (Z.eqb_neq a 0) Hnz), (get_node_ramfs _ _ _ Ha). cbn [mbind option_bind].
  by rewrite Hd, (node_op_ramfs op_create st a r I Ha).
Qed.

(** Lookups along the path survive what only adds. *)
Lemma resolve_extends st st' a :
  fs_ok st -> fs_ok st' -> extends st st' ->
  lookup_names optab root (normalize (comps dir)) st = Some (a, st) -> a <> 0 ->
  lookup_names optab root (normalize (comps dir)) st' = Some (a, st').
Proof.
  intros I I' X Hl Hnz. eapply (lookup_extends _ st st'); try done.
  eapply Forall_impl; [by apply normalize_Forall, comps_component|].
  intros t Ht. by apply c_string_bytes, component_c_string.
Qed.

Lemma vfs_open_creates st a r name0 :
  fs_ok st -> lookup_names optab root (normalize (comps dir)) st = Some (a, st) ->
  rnodes st !! a = Some r -> is_dir (rn_vnode r) = true -> vn_mount (rn_vnode r) = 0 ->
  (forall c, ~ entry st a name c) ->
  exists f st1, vfs_open optab root path O_CREAT name0 st = Some (f, st1) /\ fs_ok st1 /\
    ((f = 0 /\ rnodes st1 = rnodes st) \/
     exists rf, rnodes st1 !! f = Some rf /\ rn_bytes rf = [] /\ vn_size (rn_vnode rf) = 0 /\
       vn_refcount (rn_vnode rf) = 1 /\ lookup_names optab root (normalize (comps dir)) st1 = Some (a, st1) /\
       lookup_names optab a [name] st1 = Some (f, st1)).
Proof.
  intros I Hl Ha Hd Hm Hno. destruct (resolve_path st a Hl) as [Er Ep]. pose proof (fs_nonzero st a r I Ha) as Hnz.
  destruct (lookup_last st a r I Ha Hd Hm) as [_ El].
  destruct (ramfs_finddir_spec st a r name I Ha name_bytes) as (x & Ex & Hx).
  assert (x = 0) as ->. { destruct (Z.eqb_spec x 0); [done|]. by destruct (Hno x); apply Hx. }
  rewrite El, Ex in Er. unfold vfs_open. rewrite Er. cbn [mbind option_bind].
  change ((0 =? 0) && negb (O_CREAT .& O_CREAT =? 0)) with true. cbv iota.
  rewrite (open_create_ramfs st a r name0 I Hl Ha Hd).
  destruct (add_child_spec st VFS_FILE a r name MODE_0644 I Ha name_bytes name_fits) as (e & s & -> & I' & Hr).
  cbn [mbind option_bind]. destruct Hr as [(_ & _ & c & Hc)|[(-> & -> & _)|[(-> & E & _)|(-> & _ & c & Hc0 & Hc & E)]]].
  { by destruct (Hno c). }
  { exists 0, st. split; [done|]. split; [done|]. by left. }
  { exists 0, s. split; [done|]. split; [done|]. by left. }
  cbn [Z.eqb]. set (rc := RamfsNode _ _ _ _ _ _) in E.
  destruct (created_found st s a r c rc I I' Ha Hc eq_refl) as (X & Efc & Hsc & Hsa); [|done|].
  { unfold rn_name, rc. cbn [rn_vnode]. by rewrite new_vnode_name by apply name_fits. }
  destruct (lookup_last s a _ I' Hsa Hd Hm) as [Ef El'].
  rewrite Ef, Efc. cbn [mbind option_bind]. rewrite (proj2 (Z.eqb_neq c 0) Hc0), (get_node_ramfs _ _ _ Hsc).
  cbn [mbind option_bind]. change (O_CREAT .& O_TRUNC) with 0. cbn [Z.eqb negb andb].
  rewrite (node_op_ramfs op_open s c rc I' Hsc). cbn [op_open ramfs_ops mbind option_bind].
  rewrite (get_node_ramfs _ _ _ Hsc). cbn [mbind option_bind]. eexists c, _. split; [done|].
  destruct (set_ref_spec c rc (i32 (vn_refcount (rn_vnode rc) + 1)) s I' Hsc) as (I2 & X2 & H2).
  split; [exact I2|]. right. eexists. split; [exact H2|]. split_and!; [done|done|done| |].
  - by apply (resolve_extends st _ a I I2 (extends_trans _ _ _ X X2)).
  - apply (lookup_extends [name] s _ a c s I' I2 X2); [|by rewrite El'|done].
    by repeat constructor; apply name_bytes.
Qed.

(** Writing, closing, opening and reading an empty file that was just opened. *)
Lemma written_back st1 a f rf name1 buf :
  fs_ok st1 -> rnodes st1 !! f = Some rf -> rn_bytes rf = [] -> vn_size (rn_vnode rf) = 0 ->
  vn_refcount (rn_vnode rf) = 1 -> lookup_names optab root (normalize (comps dir)) st1 = Some (a, st1) ->
  lookup_names optab a [name] st1 = Some (f, st1) ->
  Z.of_nat (length buf) <= FILE_MAX -> growable st1 rf (Z.of_nat (length buf)) ->
  exists ret st2, vfs_write optab f 0 buf st1 = Some (ret, st2) /\
    ((ret = - ENOMEM /\ rnodes st2 = rnodes st1) \/
     (ret = Z.of_nat (length buf) /\ exists st3 st4, vfs_close optab f st2 = Some st3 /\
        vfs_open optab root path 0 name1 st3 = Some (f, st4) /\
        vfs_read optab f 0 (Z.of_nat (length buf)) st4 = Some (Z.of_nat (length buf), buf, st4))).
Proof.
  intros I1 Hf Eb Es Ec L1 L2 Hlen Hg. pose proof (fs_nonzero st1 f rf I1 Hf) as Hfz.
  destruct (ramfs_write_spec st1 f rf 0 buf I1 Hf) as (ret & st2 & Ew & I2 & Hw); [|done|done|done|].
  { unfold clean. rewrite Eb. by rewrite drop_nil. }
  exists ret, st2. split.
  { unfold vfs_write. rewrite (proj2 (Z.eqb_neq f 0) Hfz), (get_node_ramfs _ _ _ Hf). cbn [mbind option_bind].
    by rewrite (node_op_ramfs op_write st1 f rf I1 Hf). }
  destruct Hw as [?|(-> & r2 & E2 & Hc2 & _ & Hv2 & Hch & _)]; [by left|]. right. split; [done|].
  assert (rnodes st2 !! f = Some r2) as Hf2 by by rewrite E2, lookup_insert_eq.
  assert (vn_refcount (rn_vnode r2) = 1) as Ec2 by by rewrite Hv2.
  assert (extends st1 st2) as X2.
  { apply (extends_update st1 st2 f rf r2); try done; [unfold rn_name| |]; by rewrite Hv2. }
  destruct (set_ref_spec f r2 0 st2 I2 Hf2) as (I3 & X3 & Hf3). set (st3 := set_ref f r2 0 st2) in *.
  set (r3 := set_rn_vnode r2 _) in Hf3. exists st3.
  destruct (set_ref_spec f r3 (i32 (vn_refcount (rn_vnode r3) + 1)) st3 I3 Hf3) as (I4 & _ & Hf4).
  eexists. split; [|split].
  - unfold vfs_close. rewrite (proj2 (Z.eqb_neq f 0) Hfz), (get_node_ramfs _ _ _ Hf2). cbn [mbind option_bind].
    rewrite (node_op_ramfs op_close st2 f r2 I2 Hf2). cbn [op_close ramfs_ops mbind option_bind].
    rewrite (get_node_ramfs _ _ _ Hf2). cbn [mbind option_bind]. by rewrite Ec2.
  - apply (vfs_open_found root path 0 name1 st3 f r3 I3); [|done|done].
    pose proof (extends_trans _ _ _ X2 X3) as X.
    destruct (decide (a = 0)) as [->|Ha0]; [cbn in L2; congruence|].
    rewrite (proj1 (resolve_path st3 a (resolve_extends _ _ _ I1 I3 X L1 Ha0))).
    apply (lookup_extends [name] st1 st3 a f st1 I1 I3 X); [|done|done]. by repeat constructor; apply name_bytes.
  - unfold vfs_read. rewrite (proj2 (Z.eqb_neq f 0) Hfz), (get_node_ramfs _ _ _ Hf4). cbn [mbind option_bind].
    rewrite (node_op_ramfs op_read _ f _ I4 Hf4). cbn [op_read ramfs_ops].
    rewrite (ramfs_read_spec _ f _ 0 _ I4 Hf4) by lia. rewrite drop_0.
    match goal with |- context [contents ?x] => change (contents x) with (contents r2) end.
    assert (contents r2 = buf) as ->; [|by rewrite Nat2Z.id, take_ge].
    rewrite Hc2. unfold contents. rewrite Eb, take_nil. unfold write_file. by rewrite drop_nil, !app_nil_r.
Qed.

(** C5: a file created by [vfs_open] under a path, in a directory the path
    resolves to, can be written, closed, opened again under the same path and
    read: the bytes read are those written.  Opening fails without touching the
    tree only when the directory is full or memory is short; a write fails
    only for lack of memory. *)
Theorem vfs_file_roundtrip st a r name0 name1 :
  fs_ok st -> lookup_names optab root (normalize (comps dir)) st = Some (a, st) ->
  rnodes st !! a = Some r -> is_dir (rn_vnode r) = true -> vn_mount (rn_vnode r) = 0 ->
  (forall c, ~ entry st a name c) ->
  exists f st1, vfs_open optab root (dir ++ 47 :: name) O_CREAT name0 st = Some (f, st1) /\ fs_ok st1 /\
    ((f = 0 /\ rnodes st1 = rnodes st) \/
     exists rf, rnodes st1 !! f = Some rf /\ forall buf,
       Z.of_nat (length buf) <= FILE_MAX -> growable st1 rf (Z.of_nat (length buf)) ->
       exists ret st2, vfs_write optab f 0 buf st1 = Some (ret, st2) /\
         ((ret = - ENOMEM /\ rnodes st2 = rnodes st1) \/
          (ret = Z.of_nat (length buf) /\ exists st3 st4, vfs_close optab f st2 = Some st3 /\
             vfs_open optab root (dir ++ 47 :: name) 0 name1 st3 = Some (f, st4) /\
             vfs_read optab f 0 (Z.of_nat (length buf)) st4 = Some (Z.of_nat (length buf), buf, st4)))).
Proof.
  intros I Hl Ha Hd Hm Hno. destruct (vfs_open_creates st a r name0 I Hl Ha Hd Hm Hno) as (f & st1 & E & I1 & Hr).
  exists f, st1. split; [exact E|]. split; [done|]. destruct Hr as [?|(rf & Hf & Eb & Es & Ec & L1 & L2)]; [by left|].
  right. exists rf. split; [done|]. intros buf Hlen Hg. by apply (written_back st1 a f rf name1).
Qed.
End path.

(** ** Mounting *)

(** What a lookup reads of a node, besides its mount pointer. *)
Definition tree_view r : list Z * list Z * Z * Z :=
  (rn_name r, rn_children r, vn_flags (rn_vnode r), vn_ops (rn_vnode r)).
Definition same_tree st st' : Prop := forall b, tree_view <$> rnodes st' !! b = tree_view <$> rnodes st !! b.

Lemma same_tree_lookup st st' b r : same_tree st st' -> rnodes st !! b = Some r ->
  exists r', rnodes st' !! b = Some r' /\ tree_view r' = tree_view r.
Proof.
  intros T Hb. specialize (T b). rewrite Hb in T. by apply fmap_Some in T as (r' & ? & ?); exists r'.
Qed.

Lemma set_node_same_tree st a r n :
  rnodes st !! a = Some r -> vn_name n = vn_name (rn_vnode r) -> vn_flags n = vn_flags (rn_vnode r) ->
  vn_ops n = vn_ops (rn_vnode r) -> same_tree st (set_node a n st).
Proof.
  intros Ha E1 E2 E3 b. cbn. rewrite (alter_at _ _ _ _ Ha). destruct (decide (b = a)) as [->|Hne].
  - rewrite lookup_insert_eq, Ha. cbn. unfold tree_view, rn_name. cbn. by rewrite E1, E2, E3.
  - by rewrite lookup_insert_ne.
Qed.

Lemma same_tree_trans s1 s2 s3 : same_tree s1 s2 -> same_tree s2 s3 -> same_tree s1 s3.
Proof. intros T1 T2 b. by rewrite (T2 b), (T1 b). Qed.

Lemma ramfs_finddir_same st st' a name :
  same_tree st st' -> ramfs_finddir a name st' = '(c, _) ← ramfs_finddir a name st; Some (c, st').
Proof.
  intros T. unfold ramfs_finddir. destruct (rnodes st !! a) as [r|] eqn:Ha.
  - destruct (same_tree_lookup st st' a r T Ha) as (r' & -> & [= En Ec _ _]). cbn [mbind option_bind]. rewrite Ec.
    assert (forall i, find_child (rnodes st') i (rn_children r) name = find_child (rnodes st) i (rn_children r) name) as E.
    { generalize (rn_children r) as cs0. clear -T. intros cs0. induction cs0 as [|c cs IH]; intros i; cbn [find_child]; [done|].
      destruct (rnodes st !! c) as [rc|] eqn:Hc.
      - destruct (same_tree_lookup st st' c rc T Hc) as (rc' & -> & [= En' _ _ _]). cbn [mbind option_bind].
        rewrite En'. by rewrite IH.
      - pose proof (T c) as Tc. rewrite Hc in Tc. cbn in Tc. apply fmap_None in Tc as ->. done. }
    rewrite E. by destruct (find_child _ _ _ _).
  - pose proof (T a) as Ta. rewrite Ha in Ta. cbn in Ta. apply fmap_None in Ta as ->. done.
Qed.

(** Where a lookup in [b] goes. *)
Lemma vfs_finddir_at st b rb m rm name :
  fs_ok st -> rnodes st !! b = Some rb -> m = (if vn_mount (rn_vnode rb) =? 0 then b else vn_mount (rn_vnode rb)) ->
  rnodes st !! m = Some rm ->
  vfs_finddir optab b name st = if is_dir (rn_vnode rm) then ramfs_finddir m name st else Some (0, st).
Proof.
  intros I Hb -> Hm. unfold vfs_finddir. rewrite (proj2 (Z.eqb_neq b 0) (fs_nonzero st b rb I Hb)).
  rewrite (get_node_ramfs _ _ _ Hb). cbn [mbind option_bind]. rewrite (get_node_ramfs _ _ _ Hm). cbn [mbind option_bind].
  by rewrite (node_op_ramfs op_finddir st _ rm I Hm).
Qed.

(** The two assignments of [vfs_mount]. *)
Definition mounted mp rmp node rn st : ramfs A :=
  set_node node (set_vn_mountpoint (rn_vnode rn) mp) (set_node mp (set_vn_mount (rn_vnode rmp) node) st).

Lemma mounted_spec st mp rmp node rn :
  fs_ok st -> rnodes st !! mp = Some rmp -> rnodes st !! node = Some rn -> node <> mp ->
  let st' := mounted mp rmp node rn st in
  fs_ok st' /\ same_tree st st' /\
  rnodes st' !! mp = Some (set_rn_vnode rmp (set_vn_mount (rn_vnode rmp) node)) /\
  forall b rb, b <> mp -> rnodes st !! b = Some rb ->
    exists rb', rnodes st' !! b = Some rb' /\ vn_mount (rn_vnode rb') = vn_mount (rn_vnode rb).
Proof.
  intros I Hmp Hn Hne st'. unfold mounted in st'. set (st1 := set_node mp _ st) in st'.
  assert (fs_ok st1) as I1.
  { apply (fs_ok_set_node st mp (rn_vnode rmp)); [done|by apply get_node_ramfs|done|done|]. cbn.
    pose proof (nk_size _ (fk_node _ I _ _ Hmp)). lia. }
  assert (rnodes st1 !! node = Some rn) as Hn1 by (cbn; by rewrite lookup_alter_ne). split_and!.
  - apply (fs_ok_set_node st1 node (rn_vnode rn)); [done|by apply get_node_ramfs|done|done|]. cbn.
    pose proof (nk_size _ (fk_node _ I _ _ Hn)). lia.
  - apply (same_tree_trans st st1); [by apply (set_node_same_tree st mp rmp)|by apply (set_node_same_tree st1 node rn)].
  - unfold st', st1. cbn [rnodes set_node ramfs_store]. by rewrite lookup_alter_ne, lookup_alter_eq, Hmp.
  - intros b rb Hb Eb. unfold st'. cbn [rnodes set_node ramfs_store]. rewrite (alter_at _ _ _ _ Hn1).
    destruct (decide (b = node)) as [->|Hbn].
    + eexists. rewrite lookup_insert_eq. split; [done|]. cbn. congruence.
    + exists rb. rewrite lookup_insert_ne by done. unfold st1. cbn [rnodes set_node ramfs_store]. by rewrite lookup_alter_ne.
Qed.

(** C38: mounting a tree on a directory redirects the lookups in this directory
    to the root of the mounted tree, and no other lookup. *)
Theorem vfs_mount_correct st root path mp rmp node rn name0 :
  fs_ok st -> ~ (ch path = 47 /\ ch (tl path) = 0) ->
  vfs_resolve_path optab root path st = Some (mp, st) ->
  rnodes st !! mp = Some rmp -> is_dir (rn_vnode rmp) = true ->
  rnodes st !! node = Some rn -> is_dir (rn_vnode rn) = true -> node <> mp ->
  exists st', vfs_mount optab path node name0 (Vfs root st) = Some (0, Vfs root st') /\ fs_ok st' /\
    (forall name, vfs_finddir optab mp name st' = '(c, _) ← ramfs_finddir node name st; Some (c, st')) /\
    (forall b rb m rm name, b <> mp -> rnodes st !! b = Some rb ->
       m = (if vn_mount (rn_vnode rb) =? 0 then b else vn_mount (rn_vnode rb)) -> rnodes st !! m = Some rm ->
       vfs_finddir optab b name st' = '(c, _) ← vfs_finddir optab b name st; Some (c, st')).
Proof.
  intros I Hp Er Hmp Hd Hn Hdn Hne. pose proof (fs_nonzero _ _ _ I Hmp) as Hz. pose proof (fs_nonzero _ _ _ I Hn) as Hnz.
  destruct (mounted_spec st mp rmp node rn I Hmp Hn Hne) as (I2 & T & H1 & Hother).
  exists (mounted mp rmp node rn st). split; [|split; [done|split]].
  - unfold vfs_mount, mount_dir. rewrite (proj2 (Z.eqb_neq node 0) Hnz).
    assert ((ch path =? 47) && (ch (tl path) =? 0) = false) as ->.
    { apply andb_false_iff. rewrite !Z.eqb_neq. destruct (decide (ch path = 47)); [right; tauto|by left]. }
    rewrite Er. cbn [mbind option_bind]. rewrite (proj2 (Z.eqb_neq mp 0) Hz). cbn [mbind option_bind].
    rewrite (proj2 (Z.eqb_neq mp 0) Hz), (get_node_ramfs _ _ _ Hmp). cbn [mbind option_bind]. rewrite Hd.
    rewrite (get_node_ramfs _ node rn); [done|]. cbn. by rewrite lookup_alter_ne.
  - intros name. rewrite <- (ramfs_finddir_same _ _ node name T).
    destruct (same_tree_lookup _ _ node rn T Hn) as (rn' & Hn' & [= _ _ Ef _]).
    rewrite (vfs_finddir_at _ mp _ node rn' name I2 H1); [|cbn; by rewrite (proj2 (Z.eqb_neq node 0) Hnz)|done].
    unfold is_dir in *. by rewrite Ef, Hdn.
  - intros b rb m rm name Hb Eb Em Erm. destruct (Hother b rb Hb Eb) as (rb' & Eb' & Emt).
    destruct (same_tree_lookup _ _ m rm T Erm) as (rm' & Erm' & [= _ _ Ef _]).
    rewrite (vfs_finddir_at st b rb m rm name I Eb Em Erm).
    rewrite (vfs_finddir_at _ b rb' m rm' name I2 Eb'); [|by rewrite Emt|done].
    unfold is_dir. rewrite Ef. destruct (negb _); [|done]. by apply ramfs_finddir_same.
Qed.

End fs.

(** ** Example: the tree built at boot *)

Definition demo0 : ramfs bump := Ramfs ∅ (VfsDirent (replicate 256 0) 0 0 0) (Bump 4096 ∅ 0x1000000).
Definition demo_root : Z := 4096.
Definition demo_fs : ramfs bump := match ramfs_create_root demo0 with Some (_, st) => st | None => demo0 end.
Definition demo_ops (_ : Z) : vfs_ops (ramfs bump) := ramfs_ops.
Definition node_at (a : Z) : ramfs_node :=
  match rnodes demo_fs !! a with Some r => r | None => RamfsNode (new_vnode [] 0 0 0 0) 0 [] 0 [] 0 end.

Lemma demo_boot : ramfs_create_root demo0 = Some (demo_root, demo_fs).
Proof. vm_compute. reflexivity. Qed.

(** The addresses of [/etc/motd], [/tmp] and [/home]. *)
Definition motd_at : Z := 17776.
Definition tmp_at : Z := 8656.
Definition home_at : Z := 9568.

Lemma demo_nodes :
  rnodes demo_fs !! demo_root = Some (node_at demo_root) /\ rnodes demo_fs !! motd_at = Some (node_at motd_at) /\
  rnodes demo_fs !! tmp_at = Some (node_at tmp_at) /\ rnodes demo_fs !! home_at = Some (node_at home_at).
Proof. split; [|split; [|split]]; vm_compute; reflexivity. Qed.

Lemma demo_paths :
  vfs_resolve_path demo_ops demo_root (lit "/etc/motd") demo_fs = Some (motd_at, demo_fs) /\
  vfs_resolve_path demo_ops demo_root (lit "/tmp") demo_fs = Some (tmp_at, demo_fs) /\
  vfs_resolve_path demo_ops demo_root (lit "/home") demo_fs = Some (home_at, demo_fs).
Proof. split; [|split]; vm_compute; reflexivity. Qed.

#[global] Opaque demo_fs node_at demo_root.

Lemma demo0_ok : rnodes demo0 = ∅ /\ k_inv (kheap demo0).
Proof. split; [reflexivity|]. split; [reflexivity|]. split; [reflexivity|]. intros p Hp. cbn in Hp. set_solver. Qed.

Lemma demo_fs_ok : fs_ok demo_fs.
Proof.
  destruct demo0_ok as [E Hi]. pose proof demo_boot as Eb. revert Eb.
  generalize demo_fs. intros fs Eb.
  destruct (ramfs_create_root_spec demo0 E Hi) as [(En & _)|(root & st & Es & I & _)].
  - rewrite En in Eb. discriminate Eb.
  - rewrite Es in Eb. injection Eb as _ <-. exact I.
Qed.

(** Every node of a tree over the reference allocator can be removed. *)
Lemma bump_removable (st : ramfs bump) c rc : fs_ok st -> rnodes st !! c = Some rc -> removable st c rc.
Proof.
  intros I Hc. pose proof (fk_live _ I _ _ Hc) as Hl. unfold removable. destruct (Z.eqb_spec (rn_data rc) 0) as [E|E]; [exact Hl|].
  split; [by apply (fk_data _ I c)|]. intros h Hf. change (bump_free (rn_data rc) (kheap st) = Some h) in Hf.
  destruct (bump_free_spec (kheap st) (rn_data rc) (fk_heap _ I) (fk_data _ I _ _ Hc E)) as (h' & E' & _ & Hl').
  rewrite E' in Hf. injection Hf as <-. apply Hl'. split; [|exact Hl]. intros Ec.
  pose proof (fk_apart _ I _ _ Hc E) as Hn. rewrite <- Ec, Hc in Hn. discriminate Hn.
Qed.

Lemma finddir_no_entry (st : ramfs bump) a r name :
  fs_ok st -> rnodes st !! a = Some r -> byte_list name -> (fst <$> ramfs_finddir a name st) = Some 0 ->
  forall c, ~ entry st a name c.
Proof.
  intros I Ha Hn E. destruct (ramfs_finddir_spec st a r name I Ha Hn) as (c & Ec & Hc).
  rewrite Ec in E. injection E as ->. exact Hc.
Qed.

Lemma vfs_canonicalize_correct_witness :
  vfs_canonicalize (lit "/usr//lib/./../bin/../../etc") (Z.of_nat PATH_BUF) = lit "/etc" /\
  vfs_canonicalize (lit "/etc") (Z.of_nat PATH_BUF) = lit "/etc".
Proof.
  destruct (vfs_canonicalize_correct (lit "/usr//lib/./../bin/../../etc")) as (E & _ & _ & _ & Ei);
    [repeat constructor; lia|reflexivity|vm_compute; lia|vm_compute; lia|].
  rewrite E in Ei. split; [exact E|exact Ei].
Defined.

Lemma vfs_resolve_path_correct_witness :
  vfs_resolve_path demo_ops demo_root (lit "/tmp/../etc/motd") demo_fs = Some (motd_at, demo_fs).
Proof.
  rewrite (vfs_resolve_path_correct demo_ops demo_root (lit "/tmp/../etc/motd") demo_fs);
    [|repeat constructor; lia|vm_compute; lia|vm_compute; lia|vm_compute; discriminate].
  vm_compute. reflexivity.
Defined.



Lemma ramfs_create_correct_witness :
  exists ret st', add_child VFS_FILE tmp_at (lit "log") MODE_0644 demo_fs = Some (ret, st') /\ fs_ok st'.
Proof.
  destruct (ramfs_create_correct demo_fs VFS_FILE tmp_at (node_at tmp_at) (lit "log") MODE_0644 demo_fs_ok)
    as (ret & st' & E & I & _).
  - apply demo_nodes.
  - split; [repeat constructor; lia|vm_compute; lia].
  - exists ret, st'. split; [exact E|exact I].
Defined.


Lemma vfs_file_roundtrip_witness :
  exists f st1, vfs_open demo_ops demo_root (lit "/tmp" ++ 47 :: lit "log") O_CREAT [] demo_fs = Some (f, st1) /\ fs_ok st1.
Proof.
  destruct (vfs_file_roundtrip demo_ops eq_refl demo_root (lit "/tmp") (lit "log")) with
    (st := demo_fs) (a := tmp_at) (r := node_at tmp_at) (name0 := @nil Z) (name1 := @nil Z) as (f & st1 & E & I & _).
  - vm_compute. discriminate.
  - repeat constructor; lia.
  - split; [split; [discriminate|change (lit "log") with [108; 111; 103]; repeat (apply Forall_cons_2; [lia|]); apply Forall_nil_2]|vm_compute; lia].
  - discriminate.
  - discriminate.
  - vm_compute. lia.
  - vm_compute. lia.
  - exact demo_fs_ok.
  - vm_compute. reflexivity.
  - apply demo_nodes.
  - vm_compute. reflexivity.
  - vm_compute. reflexivity.
  - apply (finddir_no_entry demo_fs tmp_at (node_at tmp_at)); [exact demo_fs_ok|apply demo_nodes|repeat constructor; lia|].
    vm_compute. reflexivity.
  - exists f, st1. split; [exact E|exact I].
Defined.

Lemma vfs_mount_correct_witness :
  exists st', vfs_mount demo_ops (lit "/tmp") home_at [] (Vfs demo_root demo_fs) = Some (0, Vfs demo_root st') /\ fs_ok st' /\
    (fst <$> vfs_finddir demo_ops tmp_at (lit "user") st') = (fst <$> ramfs_finddir home_at (lit "user") demo_fs).
Proof.
  destruct (vfs_mount_correct demo_ops eq_refl demo_fs demo_root (lit "/tmp") tmp_at (node_at tmp_at) home_at (node_at home_at) [])
    as (st' & E & I & Hl & _).
  - exact demo_fs_ok.
  - vm_compute. intros [_ Hx]. discriminate Hx.
  - apply demo_paths.
  - apply demo_nodes.
  - vm_compute. reflexivity.
  - apply demo_nodes.
  - vm_compute. reflexivity.
  - discriminate.
  - exists st'. split; [exact E|]. split; [exact I|]. rewrite Hl.
    destruct (ramfs_finddir home_at (lit "user") demo_fs) as [[c s]|]; reflexivity.
Defined.

(** ** What the code does not do *)

(** Truncating keeps the old bytes in the buffer: a later write behind the new
    end brings them back, where zeros are expected. *)
Lemma truncate_keeps_bytes :
  match vfs_open demo_ops demo_root (lit "/etc/motd") O_TRUNC [] demo_fs with
  | Some (f, st) =>
      match ramfs_write f 8 [33] st with
      | Some (_, st) => (fst <$> ramfs_read f 0 9 st) = Some (9, [10] ++ lit "Welcome" ++ [33])
      | None => False
      end
  | None => False
  end.
Proof. vm_compute. reflexivity. Qed.

(** [vfs_create] does not check that the parent is a directory: a file gets a
    child. *)
Lemma create_below_file :
  match vfs_create demo_ops demo_root (lit "/etc/motd/child") MODE_0644 [] demo_fs with
  | Some (ret, st) => ret = 0 /\ (fun r => length (rn_children r)) <$> rnodes st !! motd_at = Some 1%nat
  | None => False
  end.
Proof. vm_compute. split; reflexivity. Qed.

(** Below a mount point [vfs_open] creates the file in the covered directory and
    then looks for it in the mounted one: it returns NULL. *)
Lemma create_below_mount :
  match vfs_mount demo_ops (lit "/tmp") home_at [] (Vfs demo_root demo_fs) with
  | Some (_, Vfs root st) =>
      match vfs_open demo_ops root (lit "/tmp/log") O_CREAT [] st with
      | Some (f, st) => f = 0 /\ (fun r => length (rn_children r)) <$> rnodes st !! tmp_at = Some 1%nat
      | None => False
      end
  | None => False
  end.
Proof. vm_compute. split; reflexivity. Qed.

(** [vfs_rmdir] removes a directory that is not empty; its children stay
    allocated and can no longer be reached. *)
Lemma rmdir_not_empty :
  match vfs_rmdir demo_ops demo_root (lit "/home") [] demo_fs with
  | Some (ret, st) => ret = 0 /\ (size (rnodes st) + 1 = size (rnodes demo_fs))%nat /\
      (fst <$> vfs_resolve_path demo_ops demo_root (lit "/home/user") st) = Some 0
  | None => False
  end.
Proof. vm_compute. split; [|split]; reflexivity. Qed.

(** A negative offset wraps around the end of the write: the buffer is not grown
    and the byte before it is overwritten. *)
Lemma write_wraps : ramfs_write motd_at (-1) [65] demo_fs = None.
Proof. vm_compute. reflexivity. Qed.

(** [readdir] reads before the array [children] for the largest indices. *)
Lemma readdir_negative : ramfs_readdir tmp_at (2 ^ 32 - 1) demo_fs = None.
Proof. vm_compute. reflexivity. Qed.
